(* ===== verification/_CoqProject ===== *)
-Q . S2P
Prelude.v
Mem.v
Heap.v
HeapInv.v
HeapThm.v
HeapApi.v
HeapSpec.v
TimeUnits.v
Timeout.v
Kernel.v
Sched.v
SchedInv.v
SchedApi.v
Demo.v
Tick.v
SchedThm.v
Sem.v
Mutex.v
MsgQ.v
GenList.v
SFList.v
SList.v
Stack.v
MemSlab.v
Condvar.v
Queue.v
KTimer.v
Events.v
Pipes.v
PipesThm.v
Work.v
WorkInv.v
WorkThm.v
Hex.v
Base64.v
Smf.v
Onoff.v
Civil.v
Crc.v
Bitarray.v
MemBlocks.v
RingBuf.v
HeapIface.v
KHeap.v
RbTree.v
RbInv.v
RbFix.v
RbThm.v
RbRemove.v
RbWalk.v
RbSpec.v
Priq.v
