(* ===== verification/Prelude.v ===== *)
(** * A verification of the Zephyr kernel and its base libraries

    The program is the Zephyr RTOS (version 3.4.99): a kernel with threads,
    scheduler, timeouts and synchronisation objects (kernel/), the operating
    system library (lib/os/, include/zephyr/sys/), and around them the
    architecture ports, device drivers, protocol stacks and services.  This
    development models the kernel objects of a uniprocessor system and the
    algorithms of the library, and proves that they keep their invariants and
    do what their interfaces promise.

    ** Configuration

    One CPU, the default Kconfig values: CONFIG_SMP=n, CONFIG_USE_SWITCH=y,
    CONFIG_SCHED_DUMB, CONFIG_WAITQ_DUMB, CONFIG_TIMESLICING=y,
    CONFIG_TIMEOUT_64BIT=y, CONFIG_EVENTS=y; no CONFIG_POLL, no
    CONFIG_USERSPACE, assertions and tracing off.  The heap is modelled for
    every pointer size and header width.

    ** Foundations

    - Prelude.v: record update, machine integers with their wrap-around,
      flag words, error numbers, shared list and bit lemmas.
    - Mem.v: byte memory, memcpy, loads and stores of integers.
    - Kernel.v: the kernel state ([struct z_kernel], [struct k_thread]) and a
      monad for kernel code: a computation ends with a result or is switched
      out in [z_swap()] with the rest of its code.  [runs] (in SchedInv.v) is
      the rely/guarantee reading of such code: whatever the other threads do
      between the switch and the resumption, as long as they keep the
      invariant, the code keeps it too and ends with the stated result.
    - Demo.v: concrete kernel states for the instances of the theorems.

    ** Kernel components

    - TimeUnits.v: tick conversions (include/zephyr/sys/time_units.h).
    - Timeout.v: the delta list of timeouts and the announcement of ticks
      (kernel/timeout.c).
    - Sched.v, SchedInv.v, SchedApi.v, SchedThm.v: the scheduler
      (kernel/sched.c, ksched.h, kswap.h): one definition per function; the
      invariant [kwf] of ready queue, wait queues, timeouts and cached next
      thread; its preservation by every function; the contract.
    - Tick.v: the timer interrupt, which joins Timeout.v and Sched.v.
    - Sem.v, Mutex.v, MsgQ.v, Stack.v, MemSlab.v, Condvar.v, Queue.v,
      KTimer.v, Events.v: kernel/sem.c, mutex.c, msg_q.c, stack.c,
      mem_slab.c, condvar.c, queue.c (on SFList.v), timer.c and events.c.  The
      object part of the state is the C struct with the memory it points to;
      the theorems give the abstract behaviour (bounded FIFO, LIFO, mutual
      exclusion with priority inheritance, one owner per block, one expiry per
      period, no thread waiting for events that are there) for every branch,
      blocking included.
    - Pipes.v, PipesThm.v: kernel/pipes.c in byte memory.  Pipes.v has the code
      and follows the copy loops; PipesThm.v has the invariant of a pipe and
      the theorems that a read takes a prefix of its bytes and a write appends
      to them.
    - Work.v, WorkInv.v, WorkThm.v: work queues (kernel/work.c) on the linked
      lists of SList.v: the code, its invariant, and the theorems about every
      function, about synchronous cancelling and flushing, and about the
      progress of a queue.
    - KHeap.v: kernel/kheap.c and mempool.c, against the interface of a heap
      in HeapIface.v.
    - Priq.v: the three queue back ends of the scheduler as instances of one
      interface; they give the same answers.

    ** Library components

    - Heap.v, HeapInv.v, HeapThm.v, HeapApi.v, HeapSpec.v: the chunk heap
      (lib/os/heap.c, heap.h) in byte memory, its invariant, and the contract
      of allocation, aligned allocation, reallocation and freeing.
    - GenList.v, SList.v, SFList.v: linked lists in memory (list_gen.h,
      slist.h, sflist.h), once for the generic macros and twice as instances.
    - RbTree.v, RbInv.v, RbFix.v, RbThm.v, RbRemove.v, RbWalk.v, RbSpec.v:
      red/black trees (lib/os/rb.c, include/zephyr/sys/rb.h) with their nodes
      in memory and their path arrays; they refine sorted lists.
    - RingBuf.v: ring buffers (lib/os/ring_buffer.c).
    - Bitarray.v, MemBlocks.v: bit arrays (lib/os/bitarray.c) as arrays of
      words that refine arrays of bits, and the block allocators on them
      (lib/os/mem_blocks.c).
    - Smf.v: the state machine framework (lib/smf/smf.c).  The actions of a
      state are programs of the client; a transition runs the exit and entry
      actions that the hierarchy of states calls for.
    - Onoff.v: notifications and on/off services (lib/os/notify.c, onoff.c) as
      a step relation over the operations and the steps of the code that runs
      without the lock; the theorems hold in every reachable state.
    - Hex.v, Base64.v, Crc.v: encodings and checksums (lib/os/hex.c, base64.c,
      crc*_sw.c); the checksum routines equal the division by their
      polynomials bit by bit.
    - Civil.v: civil time (lib/os/timeutil.c, gmtime.c of the minimal C
      library) against the rules of the Gregorian calendar.

    ** Bounds and fuel

    Loops over lists recur on the list.  Loops over changing queues take the
    length of the queue as fuel, and the lemmas show that it is enough.  The
    announcement loop takes its fuel from the ticks to announce and the
    pending timeouts, and the theorems say that the result is never "out of
    fuel".  The copy loops of the ring buffer take three rounds, the
    allocation loop of the heap the three tries of its configuration, the
    loops over linked memory and over trees the number of nodes.  The copy
    loop of a pipe uses up a descriptor in every pass.  The search of a bit
    array moves forward by a bit at least.  The loop of an on/off service ends
    after three passes, which is proved.  A transition of a state machine
    takes the depth of nested transitions as fuel; the theorems are about
    actions that end within it.

    ** Not modelled

    Context switch assembly, interrupt entry and the timer driver (the model
    takes elapsed ticks as input); SMP; user space, futexes and memory
    domains; virtual memory; thread creation, whose stack set-up belongs to the
    architecture; device drivers, protocol stacks, file systems, logging and
    shell, which are services on hardware or on third party modules and not
    part of the kernel core.  Of the kernel objects mailboxes and polling are
    left out, of the library the packet buffers, the hash maps, JSON and
    formatted output, which rests on the layout of variable argument lists, and
    the synchronisation of clocks, which computes in floating point.  Spinlocks
    mask interrupts on one CPU and appear as the flag they save.  The C
    standard is followed for unsigned arithmetic; signed overflow is modelled
    as two's complement where the code relies on it (ring buffer counters). *)
From Stdlib Require Export ZArith Lia Bool.
From stdpp Require Export base functions sorting list.

#[global] Open Scope Z_scope.

(** ** Record update *)

(** [r <| f := v |>] and [r <| f ::= g |>] stand for the assignment to one
    member of a C struct.  Each record declares one [Settable] instance per
    member that the code writes. *)
Class Settable {R T : Type} (proj : R -> T) := upd : (T -> T) -> R -> R.
Arguments upd {R T} proj {_} _ _.

Declare Scope struct_scope.
Notation "r <| f := v |>" := (upd f (fun _ => v) r)
  (at level 1, left associativity, f at next level, v at level 200,
   format "r  <| f  :=  v |>") : struct_scope.
Notation "r <| f ::= g |>" := (upd f g r)
  (at level 1, left associativity, f at next level, g at level 200,
   format "r  <| f  ::=  g |>") : struct_scope.
#[global] Open Scope struct_scope.

(** ** Machine integers *)

(** Conversion to an unsigned, respectively two's complement signed, type of
    [w] bits. *)
Definition uwrap (w x : Z) : Z := x mod 2 ^ w.
Definition swrap (w x : Z) : Z := (x + 2 ^ (w - 1)) mod 2 ^ w - 2 ^ (w - 1).

Abbreviation u8 := (uwrap 8).
Abbreviation u16 := (uwrap 16).
Abbreviation u32 := (uwrap 32).
Abbreviation u64 := (uwrap 64).
Abbreviation s32 := (swrap 32).
Abbreviation s64 := (swrap 64).

Definition INT_MAX : Z := 2147483647.
Definition UINT32_MAX : Z := 4294967295.
Definition INT64_MAX : Z := 9223372036854775807.

Lemma uwrap_range w x : 0 <= w -> 0 <= uwrap w x < 2 ^ w.
Proof. intros. unfold uwrap. apply Z.mod_pos_bound. lia. Qed.

Lemma uwrap_small w x : 0 <= x < 2 ^ w -> uwrap w x = x.
Proof. apply Z.mod_small. Qed.

(** [BIT(n)] and the tests on flag words. *)
Definition BIT (n : Z) : Z := Z.shiftl 1 n.
Definition flag_set (s f : Z) : bool := negb (Z.land s f =? 0).

Lemma BIT_pow n : 0 <= n -> BIT n = 2 ^ n.
Proof. intros. unfold BIT. by rewrite Z.shiftl_1_l. Qed.

Lemma flag_set_BIT s n : 0 <= n -> flag_set s (BIT n) = Z.testbit s n.
Proof.
  intros Hn. unfold flag_set. rewrite BIT_pow by done.
  destruct (Z.testbit s n) eqn:E.
  - apply negb_true_iff, Z.eqb_neq. intros H.
    assert (Z.testbit (Z.land s (2 ^ n)) n = false) as H' by by rewrite H, Z.bits_0.
    rewrite Z.land_spec, E, Z.pow2_bits_true in H' by done. done.
  - apply negb_false_iff, Z.eqb_eq, Z.bits_inj_0. intros m.
    rewrite Z.land_spec. destruct (decide (m = n)) as [->|Hm].
    + by rewrite E.
    + rewrite Z.pow2_bits_false by done. apply andb_false_r.
Qed.

(** A natural number below [2 ^ n] is one without bits from [n] up. *)
Lemma bits_above n x i : 0 <= x < 2 ^ n -> n <= i -> Z.testbit x i = false.
Proof.
  intros Hx Hi. destruct (Z.lt_ge_cases n 0) as [Hn|Hn]; [rewrite Z.pow_neg_r in Hx by done; lia|].
  rewrite <- (Z.mod_small x (2 ^ n)) by done. by apply Z.mod_pow2_bits_high.
Qed.

Lemma bits_below n x : 0 <= n -> 0 <= x -> (forall i, n <= i -> Z.testbit x i = false) -> 0 <= x < 2 ^ n.
Proof.
  intros Hn Hx Hb. replace x with (x mod 2 ^ n); [apply Z.mod_pos_bound; lia|].
  apply Z.bits_inj'. intros i Hi. destruct (Z.lt_ge_cases i n).
  - by rewrite Z.mod_pow2_bits_low by lia.
  - rewrite Z.mod_pow2_bits_high by lia. symmetry. by apply Hb.
Qed.

Lemma BIT_testbit n i : 0 <= n -> Z.testbit (BIT n) i = bool_decide (i = n).
Proof.
  intros Hn. rewrite BIT_pow by done. case_bool_decide as H; [subst; by apply Z.pow2_bits_true|].
  by apply Z.pow2_bits_false.
Qed.

(** The errno values the sources return, negated as in the code. *)
Definition EPERM : Z := 1.
Definition EAGAIN : Z := 11.
Definition ENOMEM : Z := 12.
Definition EBUSY : Z := 16.
Definition ENODEV : Z := 19.
Definition EINVAL : Z := 22.
Definition ENOMSG : Z := 35.
Definition EDEADLK : Z := 45.
Definition EALREADY : Z := 120.

(** ** Lists *)

Lemma filter_all {A} (P : A -> Prop) `{forall x, Decision (P x)} l :
  Forall P l -> filter P l = l.
Proof. induction 1; [done|]. rewrite filter_cons_True by done. by f_equal. Qed.

Lemma filter_none {A} (P : A -> Prop) `{forall x, Decision (P x)} l :
  Forall (fun x => ~ P x) l -> filter P l = [].
Proof. induction 1; [done|]. by rewrite filter_cons_False by done. Qed.

(** A property of the numbers below a bound, decided by going through them. *)
Definition below (n : nat) (p : Z -> bool) : bool := forallb p (Z.of_nat <$> seq 0 n).

Lemma below_spec n p x : below n p = true -> 0 <= x < Z.of_nat n -> p x = true.
Proof.
  intros H Hx. unfold below in H. rewrite forallb_forall in H. apply H.
  apply list_elem_of_In. apply list_elem_of_fmap. exists (Z.to_nat x). split; [lia|].
  apply elem_of_seq. lia.
Qed.
