(* ===== verification/Mem.v ===== *)
(** Byte addressed memory for the components that copy data: a total map from
    addresses to bytes, [memcpy], and the byte strings it moves. *)
From S2P Require Import Prelude.

Definition mem : Type := Z -> Z.

(** [memcpy(dst, src, n)]; the C function requires that the two regions do
    not overlap, so the source is read before anything is written. *)
Definition memcpy (dst src n : Z) (m : mem) : mem :=
  fun a => if (dst <=? a) && (a <? dst + n) then m (src + (a - dst)) else m a.

(** [memset(dst, c, n)]. *)
Definition memset (dst c n : Z) (m : mem) : mem :=
  fun a => if (dst <=? a) && (a <? dst + n) then u8 c else m a.

(** The [n] bytes at [a]. *)
Definition bytes (m : mem) (a n : Z) : list Z :=
  (fun i => m (a + i)) <$> seqZ 0 n.

(** Regions [a, a + n) and [b, b + k) have no address in common. *)
Definition disjoint_regions (a n b k : Z) : Prop := a + n <= b \/ b + k <= a.

Lemma bytes_length m a n : length (bytes m a n) = Z.to_nat n.
Proof. unfold bytes. by rewrite length_fmap, length_seqZ. Qed.

Lemma bytes_ext m m' a n :
  (forall x, a <= x < a + n -> m' x = m x) -> bytes m' a n = bytes m a n.
Proof.
  intros H. unfold bytes. apply list_fmap_ext. intros i x Hx.
  apply lookup_seqZ in Hx as [-> Hi]. apply H. lia.
Qed.

Lemma bytes_shift m m' a b n :
  (forall i, 0 <= i < n -> m' (a + i) = m (b + i)) -> bytes m' a n = bytes m b n.
Proof.
  intros H. unfold bytes. apply list_fmap_ext. intros i x Hx.
  apply lookup_seqZ in Hx as [-> Hi]. apply H. lia.
Qed.

Lemma bytes_memcpy m dst src n : bytes (memcpy dst src n m) dst n = bytes m src n.
Proof.
  apply bytes_shift. intros i Hi. unfold memcpy.
  replace (dst <=? dst + i) with true by lia. replace (dst + i <? dst + n) with true by lia.
  simpl. f_equal. lia.
Qed.

Lemma bytes_memcpy_other m dst src n a k :
  disjoint_regions dst n a k -> bytes (memcpy dst src n m) a k = bytes m a k.
Proof.
  intros Hd. apply bytes_ext. intros x Hx. unfold memcpy, disjoint_regions in *.
  destruct ((dst <=? x) && (x <? dst + n)) eqn:E; [|done].
  apply andb_true_iff in E. lia.
Qed.

Lemma memcpy_other m dst src n a : ~ dst <= a < dst + n -> memcpy dst src n m a = m a.
Proof.
  intros H. unfold memcpy. destruct ((dst <=? a) && (a <? dst + n)) eqn:E; [|done].
  apply andb_true_iff in E. lia.
Qed.

Lemma memset_other m dst c n a : ~ dst <= a < dst + n -> memset dst c n m a = m a.
Proof.
  intros H. unfold memset. destruct ((dst <=? a) && (a <? dst + n)) eqn:E; [|done].
  apply andb_true_iff in E. lia.
Qed.

Lemma memset_same m dst c n a : dst <= a < dst + n -> memset dst c n m a = u8 c.
Proof.
  intros H. unfold memset. by replace (dst <=? a) with true by lia; replace (a <? dst + n) with true by lia.
Qed.

(** ** Loads and stores of unsigned integers

    Little endian; [n] is the number of bytes. *)
Fixpoint load (n : nat) (m : mem) (a : Z) : Z :=
  match n with
  | O => 0
  | S n' => u8 (m a) + 256 * load n' m (a + 1)
  end.

Definition store (n : nat) (a v : Z) (m : mem) : mem :=
  fun x => if (a <=? x) && (x <? a + Z.of_nat n) then u8 (Z.shiftr v (8 * (x - a))) else m x.

Lemma load_range n m a : 0 <= load n m a < 256 ^ Z.of_nat n.
Proof.
  revert a. induction n as [|n IH]; intros a; [simpl; lia|].
  cbn [load]. rewrite Nat2Z.inj_succ, Z.pow_succ_r by lia.
  pose proof (uwrap_range 8 (m a) ltac:(lia)) as Hb. change (2 ^ 8) with 256 in Hb.
  specialize (IH (a + 1)). lia.
Qed.

Lemma load_ext n m m' a :
  (forall x, a <= x < a + Z.of_nat n -> m' x = m x) -> load n m' a = load n m a.
Proof.
  revert a. induction n as [|n IH]; intros a H; [done|].
  cbn [load]. rewrite H by lia. f_equal. f_equal. apply IH. intros x Hx. apply H. lia.
Qed.

Lemma store_other n a v m x : ~ a <= x < a + Z.of_nat n -> store n a v m x = m x.
Proof.
  intros H. unfold store. destruct ((a <=? x) && (x <? a + Z.of_nat n)) eqn:E; [|done].
  apply andb_true_iff in E. lia.
Qed.

Lemma load_store_other n k a b v m :
  disjoint_regions a (Z.of_nat n) b (Z.of_nat k) -> load k (store n a v m) b = load k m b.
Proof.
  unfold disjoint_regions. intros H. apply load_ext. intros x Hx. apply store_other. lia.
Qed.

Lemma load_shifted n v a m :
  0 <= v -> (forall i, 0 <= i < Z.of_nat n -> m (a + i) = u8 (Z.shiftr v (8 * i))) ->
  load n m a = v mod 256 ^ Z.of_nat n.
Proof.
  revert v a. induction n as [|n IH]; intros v a Hv H.
  - simpl. by rewrite Z.mod_1_r.
  - cbn [load]. pose proof (H 0 ltac:(lia)) as H0. rewrite Z.add_0_r, Z.mul_0_r, Z.shiftr_0_r in H0.
    rewrite H0. rewrite (IH (Z.shiftr v 8) (a + 1)).
    + rewrite Z.shiftr_div_pow2 by lia. change (2 ^ 8) with 256.
      rewrite Nat2Z.inj_succ, Z.pow_succ_r by lia.
      rewrite (Z.rem_mul_r v 256) by lia. unfold uwrap. change (2 ^ 8) with 256.
      by rewrite Z.mod_mod by lia.
    + apply Z.shiftr_nonneg. lia.
    + intros i Hi. replace (a + 1 + i) with (a + (i + 1)) by lia. rewrite H by lia.
      rewrite Z.shiftr_shiftr by lia. do 2 f_equal. lia.
Qed.

Lemma load_store_same n a v m : 0 <= v < 256 ^ Z.of_nat n -> load n (store n a v m) a = v.
Proof.
  intros Hv. rewrite (load_shifted n v); [by rewrite Z.mod_small|lia|].
  intros i Hi. unfold store.
  replace (a <=? a + i) with true by lia. replace (a + i <? a + Z.of_nat n) with true by lia.
  simpl. do 2 f_equal. lia.
Qed.
