(* ===== verification/Heap.v ===== *)
(** The heap allocator (lib/os/heap.c, lib/os/heap.h).

    The heap is a region of byte memory that starts with [struct z_heap] and
    is tiled by chunks; every header field, bucket and free list link is a
    load or store at the address the C code computes, so reads and writes
    outside the intended object are visible in the model.  The width of the
    chunk fields depends on the configuration and the size of the heap, as in
    [big_heap_chunks()].  Runtime statistics, listeners and sanitizer hooks
    are configured out. *)
From S2P Require Import Prelude Mem.

(** CONFIG_SYS_HEAP_SMALL_ONLY, CONFIG_SYS_HEAP_BIG_ONLY and the size of a pointer. *)
Class heap_config := {
  SMALL_ONLY : bool;
  BIG_ONLY : bool;
  sizeof_ptr : Z
}.

Module Heap.

Definition NULL : Z := 0.
Definition CHUNK_UNIT : Z := 8.
Definition CONFIG_SYS_HEAP_ALLOC_LOOPS : nat := 3.
Definition sizeof_z_heap : Z := 16.
Definition sizeof_bucket : Z := 4.

Inductive chunk_fields := LEFT_SIZE | SIZE_AND_USED | FREE_PREV | FREE_NEXT.
Definition field_no (f : chunk_fields) : Z :=
  match f with LEFT_SIZE => 0 | SIZE_AND_USED => 1 | FREE_PREV => 2 | FREE_NEXT => 3 end.

(** [__builtin_clz] and [__builtin_ctz] of a nonzero 32 bit value. *)
Definition clz32 (x : Z) : Z := 31 - Z.log2 x.
Fixpoint ctz_pos (p : positive) : Z :=
  match p with xO q => 1 + ctz_pos q | _ => 0 end.
Definition ctz (x : Z) : Z := match x with Zpos p => ctz_pos p | _ => 0 end.

Section Heap.
Context `{cfg : heap_config}.

(** Conversion to [size_t], [uintptr_t] and [unsigned long]. *)
Definition usize (x : Z) : Z := uwrap (8 * sizeof_ptr) x.
Definition ROUND_UP (x align : Z) : Z := Z.ldiff (usize (x + (align - 1))) (align - 1).
Definition ROUND_DOWN (x align : Z) : Z := Z.ldiff x (align - 1).

Definition big_heap_chunks (chunks : Z) : bool :=
  if SMALL_ONLY then false
  else if BIG_ONLY || (sizeof_ptr >? 4) then true
  else chunks >? 32767.
Definition big_heap_bytes (n : Z) : bool := big_heap_chunks (u32 (n / CHUNK_UNIT)).
Definition heap_footer_bytes (size : Z) : Z := if big_heap_bytes size then 8 else 4.
Definition chunksz (n : Z) : Z := u32 (usize (n + CHUNK_UNIT - 1) / CHUNK_UNIT).

Section z_heap.

(** The address of [struct z_heap], which is also the address of chunk 0. *)
Variable h : Z.

Definition end_chunk (m : mem) : Z := load 4 m (h + 8).
Definition avail_buckets (m : mem) : Z := load 4 m (h + 12).
Definition bucket_next (bidx : Z) (m : mem) : Z := load 4 m (h + sizeof_z_heap + sizeof_bucket * bidx).
Definition set_avail_buckets (v : Z) (m : mem) : mem := store 4 (h + 12) v m.
Definition set_bucket_next (bidx v : Z) (m : mem) : mem :=
  store 4 (h + sizeof_z_heap + sizeof_bucket * bidx) v m.

Definition big_heap (m : mem) : bool := big_heap_chunks (end_chunk m).
Definition field_width (m : mem) : nat := if big_heap m then 4%nat else 2%nat.
Definition field_addr (c : Z) (f : chunk_fields) (m : mem) : Z :=
  h + CHUNK_UNIT * c + Z.of_nat (field_width m) * field_no f.

Definition chunk_field (c : Z) (f : chunk_fields) (m : mem) : Z :=
  load (field_width m) m (field_addr c f m).
Definition chunk_set (c : Z) (f : chunk_fields) (val : Z) (m : mem) : mem :=
  store (field_width m) (field_addr c f m) val m.

Definition chunk_used (c : Z) (m : mem) : bool :=
  negb (Z.land (chunk_field c SIZE_AND_USED m) 1 =? 0).
Definition chunk_size (c : Z) (m : mem) : Z := Z.shiftr (chunk_field c SIZE_AND_USED m) 1.
Definition set_chunk_used (c : Z) (used : bool) (m : mem) : mem :=
  let v := chunk_field c SIZE_AND_USED m in
  chunk_set c SIZE_AND_USED (if used then Z.lor v 1 else Z.ldiff v 1) m.
Definition set_chunk_size (c size : Z) (m : mem) : mem :=
  chunk_set c SIZE_AND_USED (u32 (Z.shiftl size 1)) m.
Definition prev_free_chunk (c : Z) (m : mem) : Z := chunk_field c FREE_PREV m.
Definition next_free_chunk (c : Z) (m : mem) : Z := chunk_field c FREE_NEXT m.
Definition set_prev_free_chunk (c prev : Z) (m : mem) : mem := chunk_set c FREE_PREV prev m.
Definition set_next_free_chunk (c next : Z) (m : mem) : mem := chunk_set c FREE_NEXT next m.
Definition left_chunk (c : Z) (m : mem) : Z := u32 (c - chunk_field c LEFT_SIZE m).
Definition right_chunk (c : Z) (m : mem) : Z := u32 (c + chunk_size c m).
Definition set_left_chunk_size (c size : Z) (m : mem) : mem := chunk_set c LEFT_SIZE size m.
Definition solo_free_header (c : Z) (m : mem) : bool := big_heap m && (chunk_size c m =? 1).

Definition chunk_header_bytes (m : mem) : Z := if big_heap m then 8 else 4.
Definition bytes_to_chunksz (n : Z) (m : mem) : Z := chunksz (usize (chunk_header_bytes m + n)).
Definition min_chunk_size (m : mem) : Z := bytes_to_chunksz 1 m.
Definition chunksz_to_bytes (chunksz_in : Z) (m : mem) : Z :=
  usize (u32 (chunksz_in * CHUNK_UNIT) - chunk_header_bytes m).
Definition bucket_idx (sz : Z) (m : mem) : Z := 31 - clz32 (u32 (sz - min_chunk_size m + 1)).
Definition size_too_big (n : Z) (m : mem) : bool := n / CHUNK_UNIT >=? end_chunk m.

Definition chunk_mem (c : Z) (m : mem) : Z := h + CHUNK_UNIT * c + chunk_header_bytes m.

Definition free_list_remove_bidx (c bidx : Z) (m : mem) : mem :=
  if next_free_chunk c m =? c then
    let m := set_avail_buckets (Z.ldiff (avail_buckets m) (BIT bidx)) m in
    set_bucket_next bidx 0 m
  else
    let first := prev_free_chunk c m in
    let second := next_free_chunk c m in
    let m := set_bucket_next bidx second m in
    let m := set_next_free_chunk first second m in
    set_prev_free_chunk second first m.

Definition free_list_remove (c : Z) (m : mem) : mem :=
  if negb (solo_free_header c m)
  then free_list_remove_bidx c (bucket_idx (chunk_size c m) m) m
  else m.

Definition free_list_add_bidx (c bidx : Z) (m : mem) : mem :=
  if bucket_next bidx m =? 0 then
    let m := set_avail_buckets (Z.lor (avail_buckets m) (BIT bidx)) m in
    let m := set_bucket_next bidx c m in
    let m := set_prev_free_chunk c c m in
    set_next_free_chunk c c m
  else
    let second := bucket_next bidx m in
    let first := prev_free_chunk second m in
    let m := set_prev_free_chunk c first m in
    let m := set_next_free_chunk c second m in
    let m := set_next_free_chunk first c m in
    set_prev_free_chunk second c m.

Definition free_list_add (c : Z) (m : mem) : mem :=
  if negb (solo_free_header c m)
  then free_list_add_bidx c (bucket_idx (chunk_size c m) m) m
  else m.

Definition split_chunks (lc rc : Z) (m : mem) : mem :=
  let sz0 := chunk_size lc m in
  let lsz := u32 (rc - lc) in
  let rsz := u32 (sz0 - lsz) in
  let m := set_chunk_size lc lsz m in
  let m := set_chunk_size rc rsz m in
  let m := set_left_chunk_size rc lsz m in
  set_left_chunk_size (right_chunk rc m) rsz m.

Definition merge_chunks (lc rc : Z) (m : mem) : mem :=
  let newsz := u32 (chunk_size lc m + chunk_size rc m) in
  let m := set_chunk_size lc newsz m in
  set_left_chunk_size (right_chunk rc m) newsz m.

Definition free_chunk (c : Z) (m : mem) : mem :=
  let m := if negb (chunk_used (right_chunk c m) m) then
             let m := free_list_remove (right_chunk c m) m in
             merge_chunks c (right_chunk c m) m
           else m in
  let '(c, m) := if negb (chunk_used (left_chunk c m) m) then
                   let m := free_list_remove (left_chunk c m) m in
                   let m := merge_chunks (left_chunk c m) c m in
                   (left_chunk c m, m)
                 else (c, m) in
  free_list_add c m.

Definition mem_to_chunkid (p : Z) (m : mem) : Z :=
  u32 ((p - chunk_header_bytes m - h) / CHUNK_UNIT).

Definition sys_heap_free (p : Z) (m : mem) : mem :=
  if p =? NULL then m
  else
    let c := mem_to_chunkid p m in
    free_chunk c (set_chunk_used c false m).

Definition sys_heap_usable_size (p : Z) (m : mem) : Z :=
  let c := mem_to_chunkid p m in
  let chunk_base := h + CHUNK_UNIT * c in
  let chunk_sz := u32 (chunk_size c m * CHUNK_UNIT) in
  usize (chunk_sz - (p - chunk_base)).

(** The [do ... while (--i && b->next != first)] loop; the result is the chunk
    found, if any. *)
Fixpoint alloc_loop (i : nat) (first bi sz : Z) (m : mem) : option Z * mem :=
  match i with
  | O => (None, m)
  | S i =>
      let c := bucket_next bi m in
      if chunk_size c m >=? sz then (Some c, free_list_remove_bidx c bi m)
      else
        let m := set_bucket_next bi (next_free_chunk c m) m in
        if bucket_next bi m =? first then (None, m) else alloc_loop i first bi sz m
  end.

Definition alloc_chunk (sz : Z) (m : mem) : Z * mem :=
  let bi := bucket_idx sz m in
  let '(found, m) :=
    if negb (bucket_next bi m =? 0)
    then alloc_loop CONFIG_SYS_HEAP_ALLOC_LOOPS (bucket_next bi m) bi sz m
    else (None, m) in
  match found with
  | Some c => (c, m)
  | None =>
      let bmask := Z.ldiff (avail_buckets m) (BIT (bi + 1) - 1) in
      if negb (bmask =? 0) then
        let minbucket := ctz bmask in
        let c := bucket_next minbucket m in
        (c, free_list_remove_bidx c minbucket m)
      else (0, m)
  end.

Definition sys_heap_alloc (n : Z) (m : mem) : Z * mem :=
  if (n =? 0) || size_too_big n m then (NULL, m)
  else
    let chunk_sz := bytes_to_chunksz n m in
    let '(c, m) := alloc_chunk chunk_sz m in
    if c =? 0 then (NULL, m)
    else
      let m := if chunk_size c m >? chunk_sz
               then free_list_add (c + chunk_sz) (split_chunks c (c + chunk_sz) m)
               else m in
      let m := set_chunk_used c true m in
      (chunk_mem c m, m).

(** The part of [sys_heap_aligned_alloc()] after the arguments are decoded. *)
Definition aligned_alloc (align rew gap n : Z) (m : mem) : Z * mem :=
  if (n =? 0) || size_too_big n m then (NULL, m)
  else
    let padded_sz := bytes_to_chunksz (usize (n + align - gap)) m in
    let '(c0, m) := alloc_chunk padded_sz m in
    if c0 =? 0 then (NULL, m)
    else
      let p := ROUND_UP (chunk_mem c0 m + rew) align - rew in
      let e := ROUND_UP (p + n) CHUNK_UNIT in
      let c := mem_to_chunkid p m in
      let c_end := u32 ((e - h) / CHUNK_UNIT) in
      let m := if c >? c0 then free_list_add c0 (split_chunks c0 c m) else m in
      let m := if right_chunk c m >? c_end
               then free_list_add c_end (split_chunks c c_end m) else m in
      (p, set_chunk_used c true m).

Definition sys_heap_aligned_alloc (align n : Z) (m : mem) : Z * mem :=
  let rew := Z.land align (usize (- align)) in
  if negb (align =? rew) then
    aligned_alloc (align - rew) rew (Z.min rew (chunk_header_bytes m)) n m
  else if align <=? chunk_header_bytes m then sys_heap_alloc n m
  else aligned_alloc align 0 (chunk_header_bytes m) n m.

(** The last resort of [sys_heap_aligned_realloc()]: allocate and copy. *)
Definition realloc_copy (p align_gap align n : Z) (m : mem) : Z * mem :=
  let c := mem_to_chunkid p m in
  let '(p2, m) := sys_heap_aligned_alloc align n m in
  if negb (p2 =? NULL) then
    let prev_size := usize (chunksz_to_bytes (chunk_size c m) m - align_gap) in
    (p2, sys_heap_free p (memcpy p2 p (Z.min prev_size n) m))
  else (p2, m).

Definition sys_heap_aligned_realloc (p align n : Z) (m : mem) : Z * mem :=
  if p =? NULL then sys_heap_aligned_alloc align n m
  else if n =? 0 then (NULL, sys_heap_free p m)
  else if size_too_big n m then (NULL, m)
  else
    let c := mem_to_chunkid p m in
    let rc := right_chunk c m in
    let align_gap := p - chunk_mem c m in
    let chunks_need := bytes_to_chunksz (usize (n + align_gap)) m in
    if negb (align =? 0) && negb (Z.land p (align - 1) =? 0) then
      realloc_copy p align_gap align n m
    else if chunk_size c m =? chunks_need then (p, m)
    else if chunk_size c m >? chunks_need then
      let m := split_chunks c (c + chunks_need) m in
      let m := set_chunk_used c true m in
      (p, free_chunk (c + chunks_need) m)
    else if negb (chunk_used rc m) && (u32 (chunk_size c m + chunk_size rc m) >=? chunks_need) then
      let split_size := chunks_need - chunk_size c m in
      let m := free_list_remove rc m in
      let m := if split_size <? chunk_size rc m
               then free_list_add (rc + split_size) (split_chunks rc (rc + split_size) m)
               else m in
      let m := merge_chunks c rc m in
      (p, set_chunk_used c true m)
    else realloc_copy p align_gap align n m.

End z_heap.

(** The loop that empties the buckets. *)
Fixpoint clear_buckets (h : Z) (i : Z) (n : nat) (m : mem) : mem :=
  match n with
  | O => m
  | S n => clear_buckets h (i + 1) n (set_bucket_next h i 0 m)
  end.

(** Returns the value stored in [heap->heap]. *)
Definition sys_heap_init (p n : Z) (m : mem) : Z * mem :=
  let n := usize (n - heap_footer_bytes n) in
  let addr := ROUND_UP p CHUNK_UNIT in
  let e := ROUND_DOWN (usize (p + n)) CHUNK_UNIT in
  let heap_sz := u32 (usize (e - addr) / CHUNK_UNIT) in
  let h := addr in
  let m := store 4 (h + 8) heap_sz m in
  let m := set_avail_buckets h 0 m in
  let nb_buckets := bucket_idx h heap_sz m + 1 in
  let chunk0_size := chunksz (usize (sizeof_z_heap + nb_buckets * sizeof_bucket)) in
  let m := clear_buckets h 0 (Z.to_nat nb_buckets) m in
  let m := set_chunk_size h 0 chunk0_size m in
  let m := set_left_chunk_size h 0 0 m in
  let m := set_chunk_used h 0 true m in
  let m := set_chunk_size h chunk0_size (u32 (heap_sz - chunk0_size)) m in
  let m := set_left_chunk_size h chunk0_size chunk0_size m in
  let m := set_chunk_size h heap_sz 0 m in
  let m := set_left_chunk_size h heap_sz (u32 (heap_sz - chunk0_size)) m in
  let m := set_chunk_used h heap_sz true m in
  (h, free_list_add h chunk0_size m).

End Heap.

End Heap.
