(* ===== verification/HeapInv.v ===== *)
(** The invariant of the heap allocator and its preservation.

    A heap is described by the list of its chunks, each with its position, its
    size in units of 8 bytes and whether it is used; the chunks tile the
    buffer from [struct z_heap] to the end marker.  [lay] says that the
    headers in memory describe that list, [lists] that the buckets hold
    circular doubly linked lists, and [listed] that these lists hold exactly
    the free chunks that are large enough to be linked, each in the bucket of
    its size.  Every function of heap.c is shown to do to the chunk list what
    it is named for and to leave alone the memory of the other used chunks
    and everything outside the buffer. *)
From stdpp Require Import sets.
From S2P Require Import Prelude Mem Heap.

Module HeapInv.
Import Heap.

(** A chunk: position, size, used. *)
Abbreviation chunk := (Z * Z * bool)%type.

(** The constants of one heap: the address of [struct z_heap], the number of
    units up to the end marker and the size of chunk 0. *)
Class geometry := { base : Z; units : Z; chunk0 : Z }.

Section Inv.
Context {cfg : heap_config} {g : geometry}.

#[local] Abbreviation h := base.
#[local] Abbreviation E := units.
#[local] Abbreviation big := (big_heap_chunks units).

Definition width : nat := if big then 4%nat else 2%nat.
Definition hdr : Z := if big then 8 else 4.
Definition min_units : Z := if big then 2 else 1.
Definition bidx (sz : Z) : Z := Z.log2 (sz - min_units + 1).
Definition buckets : Z := bidx E + 1.
Definition solo (sz : Z) : bool := big && (sz =? 1).
Definition field_max : Z := if big then 2 ^ 31 else 2 ^ 15.

Class geometry_ok : Prop := {
  go_ptr : sizeof_ptr = 4 \/ sizeof_ptr = 8;
  go_base : 0 < h;
  go_align : h mod 8 = 0;
  go_units : E < field_max;
  go_fit : h + 8 * E + 8 < 2 ^ (8 * sizeof_ptr);
  go_chunk0 : sizeof_z_heap + sizeof_bucket * buckets <= 8 * chunk0;
  go_room : chunk0 + min_units <= E
}.
Context {Hg : geometry_ok}.

(** ** Fields *)

(** The memory says how many units the heap has. *)
Definition geo (m : mem) : Prop := end_chunk h m = E.

(** The header and the free list links of the chunk at [c], and the part of
    [struct z_heap] behind the header of chunk 0. *)
Definition in_hdr (c x : Z) : Prop := h + 8 * c <= x < h + 8 * c + hdr.
Definition in_link (c x : Z) : Prop := h + 8 * c + hdr <= x < h + 8 * c + 2 * hdr.
Definition in_meta (x : Z) : Prop := h + 8 <= x < h + sizeof_z_heap + sizeof_bucket * buckets.

Definition agree (P : Z -> Prop) (m m' : mem) : Prop := forall x, P x -> m' x = m x.

Definition is_header (f : chunk_fields) : bool :=
  match f with LEFT_SIZE | SIZE_AND_USED => true | _ => false end.

Definition faddr (c : Z) (f : chunk_fields) : Z := h + 8 * c + Z.of_nat width * field_no f.

Lemma width_hdr : hdr = 2 * Z.of_nat width.
Proof. unfold hdr, width. by destruct big. Qed.

Lemma width_cases : (big = true /\ width = 4%nat /\ hdr = 8 /\ min_units = 2 /\ field_max = 2 ^ 31)
  \/ (big = false /\ width = 2%nat /\ hdr = 4 /\ min_units = 1 /\ field_max = 2 ^ 15).
Proof. unfold hdr, width, min_units, field_max. destruct big; auto 10. Qed.

Lemma max_width : 256 ^ Z.of_nat width = 2 * field_max.
Proof. by destruct width_cases as [(_ & -> & _ & _ & ->)|(_ & -> & _ & _ & ->)]. Qed.

Lemma bidx_mono a b : a <= b -> bidx a <= bidx b.
Proof. intros. unfold bidx. apply Z.log2_le_mono. lia. Qed.

Lemma bidx_nonneg a : 0 <= bidx a.
Proof. apply Z.log2_nonneg. Qed.

Lemma buckets_bound : 1 <= buckets <= 32.
Proof.
  unfold buckets. pose proof (bidx_nonneg E). split; [lia|].
  enough (bidx E < 31) by lia. destruct Hg as [_ _ _ Hu _ _ Hr].
  destruct (decide (E - min_units + 1 <= 0)) as [Hz|Hz].
  - unfold bidx. rewrite Z.log2_nonpos by done. lia.
  - apply Z.log2_lt_pow2; [lia|].
    destruct width_cases as [(_ & _ & _ & HA & HB)|(_ & _ & _ & HA & HB)]; rewrite HA, HB in *;
      change (2 ^ 31) with 2147483648 in *; change (2 ^ 15) with 32768 in *; lia.
Qed.

(** The linear facts about the constants. *)
Lemma geom_facts : 0 < h /\ 3 <= chunk0 /\ chunk0 + min_units <= E /\ E < field_max /\
  field_max <= 2147483648 /\ (hdr = 4 \/ hdr = 8) /\ 1 <= min_units <= 2 /\
  16 + 4 * buckets <= 8 * chunk0 /\ 1 <= buckets <= 32.
Proof.
  pose proof buckets_bound as HB. destruct Hg as [_ Hb _ Hu _ Hc Hr].
  unfold sizeof_z_heap, sizeof_bucket in *.
  assert (field_max <= 2147483648).
  { destruct width_cases as [(_ & _ & _ & _ & ->)|(_ & _ & _ & _ & ->)]; cbv; congruence. }
  assert (hdr = 4 \/ hdr = 8) by (destruct width_cases as [(_&_&->&_)|(_&_&->&_)]; auto).
  assert (1 <= min_units <= 2) by (destruct width_cases as [(_&_&_&->&_)|(_&_&_&->&_)]; lia).
  lia.
Qed.

Lemma field_geo c f m : geo m -> chunk_field h c f m = load width m (faddr c f).
Proof.
  unfold geo, chunk_field, field_addr, field_width, big_heap, faddr, width, CHUNK_UNIT.
  by intros ->.
Qed.

Lemma set_geo c f v m : geo m -> chunk_set h c f v m = store width (faddr c f) v m.
Proof.
  unfold geo, chunk_set, field_addr, field_width, big_heap, faddr, width, CHUNK_UNIT.
  by intros ->.
Qed.

(** ** One write *)

Definition fregion (c : Z) (f : chunk_fields) (x : Z) : Prop :=
  if is_header f then in_hdr c x else in_link c x.

(** The chunks whose fields are written: those behind [struct z_heap], and
    the header of chunk 0. *)
Definition writable (c : Z) (f : chunk_fields) : Prop :=
  chunk0 <= c \/ (c = 0 /\ is_header f = true).

Record wrote (c : Z) (f : chunk_fields) (v : Z) (m m' : mem) : Prop := {
  wr_geo : geo m';
  wr_val : chunk_field h c f m' = v;
  wr_field c' f' : faddr c' f' <> faddr c f -> chunk_field h c' f' m' = chunk_field h c' f' m;
  wr_mem x : ~ fregion c f x -> m' x = m x;
  wr_meta : agree in_meta m m'
}.

Lemma faddr_region c f x : faddr c f <= x < faddr c f + Z.of_nat width -> fregion c f x.
Proof.
  unfold fregion, in_hdr, in_link, faddr. rewrite width_hdr.
  destruct f; simpl; lia.
Qed.

Lemma meta_writable c f x : writable c f -> fregion c f x -> ~ in_meta x.
Proof.
  pose proof geom_facts as F. unfold writable, fregion, in_hdr, in_link, in_meta, sizeof_z_heap, sizeof_bucket.
  destruct (is_header f); intros [Hc|[-> Hh]]; try done; lia.
Qed.

Lemma agree_geo m m' : geo m -> agree in_meta m m' -> geo m'.
Proof.
  unfold geo, end_chunk. intros <- Ha. apply load_ext. intros x Hx. apply Ha.
  pose proof geom_facts. unfold in_meta, sizeof_z_heap, sizeof_bucket. lia.
Qed.

Lemma chunk_set_wrote c f v m :
  geo m -> writable c f -> 0 <= v < 2 * field_max -> wrote c f v m (chunk_set h c f v m).
Proof.
  intros Hm Hw Hv. rewrite set_geo by done.
  assert (forall x, ~ fregion c f x -> store width (faddr c f) v m x = m x) as Hmem.
  { intros x Hx. apply store_other. intros Hi. by apply Hx, faddr_region. }
  assert (agree in_meta m (store width (faddr c f) v m)) as Hmeta.
  { intros x Hx. apply Hmem. intros Hr. by eapply meta_writable. }
  pose proof (agree_geo _ _ Hm Hmeta) as Hm'.
  split; try done.
  - rewrite field_geo by done. apply load_store_same. by rewrite max_width.
  - intros c' f' Hne. rewrite !field_geo by done. apply load_store_other.
    unfold disjoint_regions, faddr in *.
    destruct width_cases as [(_ & HW & _)|(_ & HW & _)]; rewrite HW in *;
      destruct f, f'; simpl in *; lia.
Qed.

Lemma field_frame c f m m' :
  geo m -> geo m' -> agree (fregion c f) m m' -> chunk_field h c f m' = chunk_field h c f m.
Proof.
  intros Hm Hm' Ha. rewrite !field_geo by done. apply load_ext. intros x Hx.
  by apply Ha, faddr_region.
Qed.

Lemma field_range c f m : geo m -> 0 <= chunk_field h c f m < 2 * field_max.
Proof. intros Hm. rewrite field_geo, <- max_width by done. apply load_range. Qed.

(** ** Sizes and the used bit *)

Definition b2z (u : bool) : Z := if u then 1 else 0.

Lemma size_of_field sz u : Z.shiftr (2 * sz + b2z u) 1 = sz.
Proof. rewrite Z.shiftr_div_pow2 by lia. change (2 ^ 1) with 2. destruct u; simpl; Z.to_euclidean_division_equations; lia. Qed.

Lemma used_of_field sz u : negb (Z.land (2 * sz + b2z u) 1 =? 0) = u.
Proof.
  change 1 with (Z.ones 1) at 1. rewrite Z.land_ones by lia. change (2 ^ 1) with 2.
  destruct u; simpl; [replace ((2 * sz + 1) mod 2) with 1|replace ((2 * sz + 0) mod 2) with 0];
    try done; Z.to_euclidean_division_equations; lia.
Qed.

Lemma lor_used sz u : 0 <= sz -> Z.lor (2 * sz + b2z u) 1 = 2 * sz + 1.
Proof.
  intros Hs. destruct u; simpl.
  - destruct sz as [|p|p]; [done| |lia]. by rewrite Z.lor_comm.
  - destruct sz as [|p|p]; [done| |lia]. done.
Qed.

Lemma ldiff_used sz u : 0 <= sz -> Z.ldiff (2 * sz + b2z u) 1 = 2 * sz.
Proof.
  intros Hs. destruct u; simpl.
  - destruct sz as [|p|p]; [done| |lia]. simpl. by destruct p.
  - destruct sz as [|p|p]; [done| |lia]. simpl. by destruct p.
Qed.

(** ** Tilings *)

Fixpoint tiles (a : Z) (cs : list chunk) (b : Z) : Prop :=
  match cs with
  | [] => a = b
  | (c, sz, _) :: r => c = a /\ 0 < sz /\ tiles (a + sz) r b
  end.

Lemma tiles_app a l1 l2 b : tiles a (l1 ++ l2) b <-> exists c, tiles a l1 c /\ tiles c l2 b.
Proof.
  revert a. induction l1 as [|[[c sz] u] l1 IH]; intros a; simpl.
  - split; [intros H; by exists a|by intros (c & -> & H)].
  - rewrite IH. split; [intros (-> & Hs & x & H1 & H2)|intros (x & (-> & Hs & H1) & H2)]; eauto 10.
Qed.

Lemma tiles_le a cs b : tiles a cs b -> a <= b.
Proof. revert a. induction cs as [|[[c sz] u] cs IH]; intros a; simpl; [lia|]. intros (_ & Hs & H). apply IH in H. lia. Qed.

Lemma tiles_in a cs b c sz u : tiles a cs b -> (c, sz, u) ∈ cs -> a <= c /\ 0 < sz /\ c + sz <= b.
Proof.
  revert a. induction cs as [|[[c' sz'] u'] cs IH]; intros a; simpl; [by intros _ ?%elem_of_nil|].
  intros (-> & Hs & H) [Heq|Hin]%elem_of_cons.
  - injection Heq as -> -> ->. apply tiles_le in H. lia.
  - specialize (IH _ H Hin). lia.
Qed.

Lemma tiles_disj a cs b c sz u c' sz' u' :
  tiles a cs b -> (c, sz, u) ∈ cs -> (c', sz', u') ∈ cs ->
  (c = c' /\ sz = sz' /\ u = u') \/ c + sz <= c' \/ c' + sz' <= c.
Proof.
  revert a. induction cs as [|[[d t] v] cs IH]; intros a; simpl; [by intros _ ?%elem_of_nil|].
  intros (-> & Hs & H) [Heq|Hin]%elem_of_cons [Heq'|Hin']%elem_of_cons.
  - left. by simplify_eq.
  - right; left. simplify_eq. pose proof (tiles_in _ _ _ _ _ _ H Hin'). lia.
  - right; right. simplify_eq. pose proof (tiles_in _ _ _ _ _ _ H Hin). lia.
  - eauto.
Qed.

Lemma tiles_next a cs b c sz u :
  tiles a cs b -> (c, sz, u) ∈ cs -> c + sz = b \/ exists sz' u', (c + sz, sz', u') ∈ cs.
Proof.
  intros Ht (l1 & l2 & ->)%list_elem_of_split.
  apply tiles_app in Ht as (x & _ & Ht). simpl in Ht. destruct Ht as (-> & _ & Ht).
  destruct l2 as [|[[d t] v] l2]; simpl in Ht; [by left|]. destruct Ht as (-> & _).
  right. exists t, v. rewrite elem_of_app, !elem_of_cons. auto.
Qed.

Lemma tiles_prev a cs b c sz u :
  tiles a cs b -> (c, sz, u) ∈ cs ->
  c = a \/ exists c' sz' u', (c', sz', u') ∈ cs /\ c' + sz' = c.
Proof.
  intros Ht (l1 & l2 & ->)%list_elem_of_split.
  apply tiles_app in Ht as (x & Ht & Hx). simpl in Hx. destruct Hx as (-> & _).
  destruct l1 as [|[[d t] v] l1 _] using rev_ind; simpl in Ht; [by left|].
  apply tiles_app in Ht as (y & _ & Hy). simpl in Hy. destruct Hy as (-> & _ & <-).
  right. exists y, t, v. rewrite !elem_of_app, elem_of_cons. auto.
Qed.

(** ** Layout of the headers *)

Record lay (m : mem) (cs : list chunk) : Prop := {
  lay_geo : geo m;
  lay_tiles : tiles 0 cs E;
  lay_zero : exists r, cs = (0, chunk0, true) :: r;
  lay_size c sz u : (c, sz, u) ∈ cs -> chunk_field h c SIZE_AND_USED m = 2 * sz + b2z u;
  lay_left c sz u : (c, sz, u) ∈ cs -> chunk_field h (c + sz) LEFT_SIZE m = sz;
  lay_first : chunk_field h 0 LEFT_SIZE m = 0;
  lay_end : chunk_field h E SIZE_AND_USED m = 1
}.

(** The memory that belongs to the used chunks of [cs] and the memory outside
    the buffer. *)
Definition safe (cs : list chunk) (x : Z) : Prop :=
  x < h \/ h + 8 * E + hdr <= x \/
  exists c sz, (c, sz, true) ∈ cs /\ c <> 0 /\ h + 8 * c + hdr <= x < h + 8 * (c + sz).

Lemma safe_mono cs cs' x :
  (forall c sz, (c, sz, true) ∈ cs -> c <> 0 -> (c, sz, true) ∈ cs') -> safe cs x -> safe cs' x.
Proof. intros H [?|[?|(c & sz & Hin & Hc & Hx)]]; [by left|by right; left|]. right; right. eauto 10. Qed.

(** Position and size of the chunks of a heap. *)
Lemma lay_pos m cs c sz u :
  lay m cs -> (c, sz, u) ∈ cs ->
  0 < sz /\ c + sz <= E /\ ((c = 0 /\ sz = chunk0 /\ u = true) \/ chunk0 <= c).
Proof.
  intros L Hin. destruct (lay_zero _ _ L) as [r Hr]. pose proof (lay_tiles _ _ L) as Ht.
  pose proof (tiles_in _ _ _ _ _ _ Ht Hin). rewrite Hr in *. simpl in Ht. destruct Ht as (_ & Hs & Ht).
  apply elem_of_cons in Hin as [Heq|Hin]; [simplify_eq; lia|].
  pose proof (tiles_in _ _ _ _ _ _ Ht Hin). lia.
Qed.

Lemma lay_chunk_size m cs c sz u : lay m cs -> (c, sz, u) ∈ cs -> chunk_size h c m = sz.
Proof. intros L Hin. unfold chunk_size. rewrite (lay_size _ _ L _ _ _ Hin). apply size_of_field. Qed.

Lemma lay_chunk_used m cs c sz u : lay m cs -> (c, sz, u) ∈ cs -> chunk_used h c m = u.
Proof. intros L Hin. unfold chunk_used. rewrite (lay_size _ _ L _ _ _ Hin). apply used_of_field. Qed.

Lemma lay_end_used m cs : lay m cs -> chunk_used h E m = true.
Proof. intros L. unfold chunk_used. by rewrite (lay_end _ _ L). Qed.

Lemma lay_right m cs c sz u : lay m cs -> (c, sz, u) ∈ cs -> right_chunk h c m = c + sz.
Proof.
  intros L Hin. unfold right_chunk. rewrite (lay_chunk_size _ _ _ _ _ L Hin).
  pose proof (lay_pos _ _ _ _ _ L Hin). pose proof geom_facts. apply uwrap_small.
  change (2 ^ 32) with 4294967296. lia.
Qed.

Lemma lay_left_chunk m cs c sz u : lay m cs -> (c, sz, u) ∈ cs -> left_chunk h (c + sz) m = c.
Proof.
  intros L Hin. unfold left_chunk. rewrite (lay_left _ _ L _ _ _ Hin).
  pose proof (lay_pos _ _ _ _ _ L Hin). pose proof geom_facts.
  replace (c + sz - sz) with c by lia. apply uwrap_small.
  change (2 ^ 32) with 4294967296. lia.
Qed.

(** ** Header updates *)

Ltac faddr_ne :=
  unfold faddr; let HW := fresh in
  destruct width_cases as [(_ & HW & _)|(_ & HW & _)]; rewrite HW; simpl; lia.

(** The memory a header operation may change: the headers of [cs]. *)
Definition only_hdrs (l : list Z) (m m' : mem) : Prop :=
  geo m' /\ agree in_meta m m' /\ forall x, (forall c, c ∈ l -> ~ in_hdr c x) -> m' x = m x.

Lemma set_used_wrote c sz u v m :
  geo m -> writable c SIZE_AND_USED -> 0 <= sz < field_max ->
  chunk_field h c SIZE_AND_USED m = 2 * sz + b2z u ->
  wrote c SIZE_AND_USED (2 * sz + b2z v) m (set_chunk_used h c v m).
Proof.
  intros Hm Hc Hs Hf. unfold set_chunk_used. rewrite Hf.
  replace (if v then Z.lor (2 * sz + b2z u) 1 else Z.ldiff (2 * sz + b2z u) 1) with (2 * sz + b2z v).
  - apply chunk_set_wrote; [done|done|destruct v; simpl; lia].
  - destruct v; [by rewrite lor_used by lia|rewrite ldiff_used by lia; simpl; lia].
Qed.

Lemma set_size_wrote c sz m :
  geo m -> writable c SIZE_AND_USED -> 0 <= sz < field_max ->
  wrote c SIZE_AND_USED (2 * sz) m (set_chunk_size h c sz m).
Proof.
  intros Hm Hc Hs. unfold set_chunk_size. pose proof geom_facts.
  replace (u32 (Z.shiftl sz 1)) with (2 * sz); [by apply chunk_set_wrote; [..|lia]|].
  rewrite Z.shiftl_mul_pow2 by lia. change (2 ^ 1) with 2. rewrite uwrap_small; [lia|].
  change (2 ^ 32) with 4294967296. lia.
Qed.

Lemma set_left_wrote c sz m :
  geo m -> writable c LEFT_SIZE -> 0 <= sz < field_max ->
  wrote c LEFT_SIZE sz m (set_left_chunk_size h c sz m).
Proof. intros Hm Hc Hs. apply chunk_set_wrote; [done..|lia]. Qed.

Lemma wrote_hdrs c f v m m' : is_header f = true -> wrote c f v m m' -> only_hdrs [c] m m'.
Proof.
  intros Hf W. split; [by eapply wr_geo|split; [by eapply wr_meta|]].
  intros x Hx. apply (wr_mem _ _ _ _ _ W). unfold fregion. rewrite Hf. apply Hx. by apply list_elem_of_singleton.
Qed.

Lemma only_hdrs_trans l1 l2 m m' m'' :
  only_hdrs l1 m m' -> only_hdrs l2 m' m'' -> only_hdrs (l1 ++ l2) m m''.
Proof.
  intros (_ & Ha & Hx) (Hg' & Ha' & Hx'). split; [done|split].
  - intros x Hi. rewrite Ha', Ha by done. done.
  - intros x Hi. rewrite Hx', Hx; [done|..]; intros c Hc; apply Hi; apply elem_of_app; auto.
Qed.

Lemma split_wrote c sz u a m :
  geo m -> chunk0 <= c -> 0 < a < sz -> c + sz <= E ->
  chunk_field h c SIZE_AND_USED m = 2 * sz + b2z u ->
  let m' := split_chunks h c (c + a) m in
  only_hdrs [c; c + a; c + a; c + sz] m m' /\
  chunk_field h c SIZE_AND_USED m' = 2 * a /\
  chunk_field h (c + a) SIZE_AND_USED m' = 2 * (sz - a) /\
  chunk_field h (c + a) LEFT_SIZE m' = a /\
  chunk_field h (c + sz) LEFT_SIZE m' = sz - a /\
  (forall c', c' <> c -> c' <> c + a -> chunk_field h c' SIZE_AND_USED m' = chunk_field h c' SIZE_AND_USED m) /\
  (forall c', c' <> c + a -> c' <> c + sz -> chunk_field h c' LEFT_SIZE m' = chunk_field h c' LEFT_SIZE m).
Proof.
  intros Hm Hc Ha He Hf m'. pose proof geom_facts as F.
  assert (forall x, 0 <= x <= E -> u32 x = x) as Hu.
  { intros x Hx. apply uwrap_small. change (2 ^ 32) with 4294967296. lia. }
  set (m1 := set_chunk_size h c a m).
  assert (wrote c SIZE_AND_USED (2 * a) m m1) as W1 by (apply set_size_wrote; [done|left; lia|lia]).
  set (m2 := set_chunk_size h (c + a) (sz - a) m1).
  assert (wrote (c + a) SIZE_AND_USED (2 * (sz - a)) m1 m2) as W2
    by (apply set_size_wrote; [apply W1|left; lia|lia]).
  set (m3 := set_left_chunk_size h (c + a) a m2).
  assert (wrote (c + a) LEFT_SIZE a m2 m3) as W3 by (apply set_left_wrote; [apply W2|left; lia|lia]).
  assert (right_chunk h (c + a) m3 = c + sz) as Hr.
  { unfold right_chunk, chunk_size. rewrite (wr_field _ _ _ _ _ W3), (wr_val _ _ _ _ _ W2) by faddr_ne.
    replace (2 * (sz - a)) with (2 * (sz - a) + b2z false) by (simpl; lia).
    rewrite size_of_field, Hu by lia. lia. }
  assert (m' = set_left_chunk_size h (c + sz) (sz - a) m3) as ->.
  { unfold m', split_chunks. cbv zeta.
    assert (chunk_size h c m = sz) as -> by (unfold chunk_size; by rewrite Hf, size_of_field).
    rewrite (Hu (c + a - c)) by lia. replace (c + a - c) with a by lia. rewrite (Hu (sz - a)) by lia.
    fold m1 m2 m3. by rewrite Hr. }
  set (m' := set_left_chunk_size h (c + sz) (sz - a) m3).
  assert (wrote (c + sz) LEFT_SIZE (sz - a) m3 m') as W4 by (apply set_left_wrote; [apply W3|left; lia|lia]).
  clearbody m1 m2 m3 m'. split.
  { apply (only_hdrs_trans [c; c + a; c + a] [c + sz] _ m3); [apply (only_hdrs_trans [c; c + a] [c + a] _ m2);
      [apply (only_hdrs_trans [c] [c + a] _ m1)|]|]; (eapply wrote_hdrs; [|eassumption]; done). }
  split_and!.
  - rewrite (wr_field _ _ _ _ _ W4), (wr_field _ _ _ _ _ W3), (wr_field _ _ _ _ _ W2) by faddr_ne. apply W1.
  - rewrite (wr_field _ _ _ _ _ W4), (wr_field _ _ _ _ _ W3) by faddr_ne. apply W2.
  - rewrite (wr_field _ _ _ _ _ W4) by faddr_ne. apply W3.
  - apply W4.
  - intros c' H1 H2. rewrite (wr_field _ _ _ _ _ W4), (wr_field _ _ _ _ _ W3), (wr_field _ _ _ _ _ W2),
      (wr_field _ _ _ _ _ W1) by faddr_ne. done.
  - intros c' H1 H2. rewrite (wr_field _ _ _ _ _ W4), (wr_field _ _ _ _ _ W3), (wr_field _ _ _ _ _ W2),
      (wr_field _ _ _ _ _ W1) by faddr_ne. done.
Qed.

Lemma merge_wrote c a u b v m :
  geo m -> chunk0 <= c -> 0 < a -> 0 < b -> c + a + b <= E ->
  chunk_field h c SIZE_AND_USED m = 2 * a + b2z u ->
  chunk_field h (c + a) SIZE_AND_USED m = 2 * b + b2z v ->
  let m' := merge_chunks h c (c + a) m in
  only_hdrs [c; c + a + b] m m' /\
  chunk_field h c SIZE_AND_USED m' = 2 * (a + b) /\
  chunk_field h (c + a + b) LEFT_SIZE m' = a + b /\
  (forall c', c' <> c -> chunk_field h c' SIZE_AND_USED m' = chunk_field h c' SIZE_AND_USED m) /\
  (forall c', c' <> c + a + b -> chunk_field h c' LEFT_SIZE m' = chunk_field h c' LEFT_SIZE m).
Proof.
  intros Hm Hc Ha Hb He Hf Hf' m'. pose proof geom_facts as F.
  assert (forall x, 0 <= x <= E -> u32 x = x) as Hu.
  { intros x Hx. apply uwrap_small. change (2 ^ 32) with 4294967296. lia. }
  set (m1 := set_chunk_size h c (a + b) m).
  assert (wrote c SIZE_AND_USED (2 * (a + b)) m m1) as W1 by (apply set_size_wrote; [done|left; lia|lia]).
  assert (right_chunk h (c + a) m1 = c + a + b) as Hr.
  { unfold right_chunk, chunk_size. rewrite (wr_field _ _ _ _ _ W1), Hf', size_of_field, Hu by (lia || faddr_ne). lia. }
  assert (m' = set_left_chunk_size h (c + a + b) (a + b) m1) as ->.
  { unfold m', merge_chunks. cbv zeta.
    assert (chunk_size h c m = a) as -> by (unfold chunk_size; by rewrite Hf, size_of_field).
    assert (chunk_size h (c + a) m = b) as -> by (unfold chunk_size; by rewrite Hf', size_of_field).
    rewrite (Hu (a + b)) by lia. fold m1. by rewrite Hr. }
  set (m' := set_left_chunk_size h (c + a + b) (a + b) m1).
  assert (wrote (c + a + b) LEFT_SIZE (a + b) m1 m') as W2 by (apply set_left_wrote; [apply W1|left; lia|lia]).
  clearbody m1 m'. split.
  { apply (only_hdrs_trans [c] [c + a + b] _ m1); (eapply wrote_hdrs; [|eassumption]; done). }
  split_and!.
  - rewrite (wr_field _ _ _ _ _ W2) by faddr_ne. apply W1.
  - apply W2.
  - intros c' H1. rewrite (wr_field _ _ _ _ _ W2), (wr_field _ _ _ _ _ W1) by faddr_ne. done.
  - intros c' H1. rewrite (wr_field _ _ _ _ _ W2), (wr_field _ _ _ _ _ W1) by faddr_ne. done.
Qed.

(** ** Layout of the changed list *)

Lemma tiles_split a l1 c sz u l2 b c' sz' u' :
  tiles a (l1 ++ (c, sz, u) :: l2) b -> (c', sz', u') ∈ l1 ++ l2 -> c' + sz' <= c \/ c + sz <= c'.
Proof.
  intros (x & H1 & H2)%tiles_app [Hin|Hin]%elem_of_app; simpl in H2; destruct H2 as (-> & Hs & H2).
  - left. apply (tiles_in _ _ _ _ _ _ H1) in Hin. lia.
  - right. apply (tiles_in _ _ _ _ _ _ H2) in Hin. lia.
Qed.

Lemma zero_replace l1 c sz u l2 l' :
  (exists r, l1 ++ (c, sz, u) :: l2 = (0, chunk0, true) :: r) -> c <> 0 ->
  exists r, l1 ++ l' = (0, chunk0, true) :: r.
Proof. intros [r Hr] Hc. destruct l1 as [|x l1]; simpl in *; simplify_eq. eauto. Qed.

Lemma elem_mid (x y : chunk) l1 l2 : x ∈ l1 ++ y :: l2 <-> x = y \/ x ∈ l1 ++ l2.
Proof. rewrite !elem_of_app, elem_of_cons. naive_solver. Qed.

Lemma elem_mid2 (x y z : chunk) l1 l2 : x ∈ l1 ++ y :: z :: l2 <-> x = y \/ x = z \/ x ∈ l1 ++ l2.
Proof. rewrite !elem_of_app, !elem_of_cons. naive_solver. Qed.

Lemma lay_frame m m' cs :
  lay m cs -> geo m' ->
  (forall c sz u, (c, sz, u) ∈ cs -> agree (in_hdr c) m m') -> agree (in_hdr E) m m' -> lay m' cs.
Proof.
  intros L Hgeo Hh He.
  assert (forall c sz u f, is_header f = true -> (c, sz, u) ∈ cs -> chunk_field h c f m' = chunk_field h c f m) as Hf.
  { intros c sz u f Hf Hin. apply field_frame; [apply L|done|]. unfold fregion. rewrite Hf. eauto. }
  assert (forall f, is_header f = true -> chunk_field h E f m' = chunk_field h E f m) as HfE.
  { intros f Hf'. apply field_frame; [apply L|done|]. unfold fregion. by rewrite Hf'. }
  split; [done|apply L|apply L| | | |].
  - intros c sz u Hin. rewrite (Hf c sz u) by done. by apply L.
  - intros c sz u Hin. destruct (tiles_next _ _ _ _ _ _ (lay_tiles _ _ L) Hin) as [Heq|(sz' & u' & Hin')].
    + rewrite Heq, HfE, <- Heq by done. by eapply lay_left.
    + rewrite (Hf _ _ _ LEFT_SIZE eq_refl Hin'). by eapply lay_left.
  - destruct (lay_zero _ _ L) as [r Hr]. rewrite (Hf 0 (chunk0) true); [apply L|done|rewrite Hr; left].
  - rewrite HfE by done. apply L.
Qed.

Lemma used_lay l1 c sz u l2 v m :
  lay m (l1 ++ (c, sz, u) :: l2) -> c <> 0 ->
  let m' := set_chunk_used h c v m in lay m' (l1 ++ (c, sz, v) :: l2) /\ only_hdrs [c] m m'.
Proof.
  intros L Hc m'. assert ((c, sz, u) ∈ l1 ++ (c, sz, u) :: l2) as Hin by (apply elem_mid; auto).
  pose proof (lay_pos _ _ _ _ _ L Hin) as Hp. pose proof geom_facts as F.
  assert (wrote c SIZE_AND_USED (2 * sz + b2z v) m m') as W.
  { apply (set_used_wrote _ _ u); [apply L|left; lia|lia|by eapply lay_size]. }
  split; [|eapply wrote_hdrs; [|eassumption]; done].
  split; [apply W| |by eapply zero_replace; [apply L|]| | | |].
  - pose proof (lay_tiles _ _ L) as Ht. rewrite tiles_app in Ht |- *. done.
  - intros c' sz' u' [Heq|Hin']%elem_mid; [simplify_eq; apply W|].
    pose proof (tiles_split _ _ _ _ _ _ _ _ _ _ (lay_tiles _ _ L) Hin') as Hd.
    assert ((c', sz', u') ∈ l1 ++ (c, sz, u) :: l2) as Hin'' by (apply elem_mid; auto).
    pose proof (lay_pos _ _ _ _ _ L Hin''). rewrite (wr_field _ _ _ _ _ W) by faddr_ne. by eapply lay_size.
  - intros c' sz' u' Hin'. assert (exists u'', (c', sz', u'') ∈ l1 ++ (c, sz, u) :: l2) as [u'' Hin''].
    { apply elem_mid in Hin' as [Heq|Hin']; [simplify_eq; by exists u|exists u'; apply elem_mid; auto]. }
    rewrite (wr_field _ _ _ _ _ W) by faddr_ne. by eapply lay_left.
  - rewrite (wr_field _ _ _ _ _ W) by faddr_ne. apply L.
  - rewrite (wr_field _ _ _ _ _ W) by faddr_ne. apply L.
Qed.

Lemma split_lay l1 c sz u l2 a m :
  lay m (l1 ++ (c, sz, u) :: l2) -> c <> 0 -> 0 < a < sz ->
  let m' := split_chunks h c (c + a) m in
  lay m' (l1 ++ (c, a, false) :: (c + a, sz - a, false) :: l2) /\
  only_hdrs [c; c + a; c + a; c + sz] m m'.
Proof.
  intros L Hc Ha m'. assert ((c, sz, u) ∈ l1 ++ (c, sz, u) :: l2) as Hin by (apply elem_mid; auto).
  pose proof (lay_pos _ _ _ _ _ L Hin) as Hp. pose proof geom_facts as F.
  destruct (split_wrote c sz u a m) as (Ho & Hs1 & Hs2 & Hl1 & Hl2 & Hs & Hl);
    [apply L|lia|lia|lia|by eapply lay_size|]. fold m' in Ho, Hs1, Hs2, Hl1, Hl2, Hs, Hl. split; [|done].
  assert (forall c' sz' u', (c', sz', u') ∈ l1 ++ l2 -> (c', sz', u') ∈ l1 ++ (c, sz, u) :: l2 /\
    0 < sz' /\ (c' + sz' <= c \/ c + sz <= c')) as Hrest.
  { intros c' sz' u' Hin'. assert ((c', sz', u') ∈ l1 ++ (c, sz, u) :: l2) as Hin'' by (apply elem_mid; auto).
    pose proof (lay_pos _ _ _ _ _ L Hin''). pose proof (tiles_split _ _ _ _ _ _ _ _ _ _ (lay_tiles _ _ L) Hin'). auto with lia. }
  split; [apply Ho| |by eapply zero_replace; [apply L|]| | | |].
  - pose proof (lay_tiles _ _ L) as Ht. rewrite tiles_app in Ht |- *. destruct Ht as (x & H1 & H2).
    exists x. split; [done|]. simpl in *. destruct H2 as (-> & _ & H2).
    replace (x + a + (sz - a)) with (x + sz) by lia. split_and!; [done|lia|done|lia|done].
  - intros c' sz' u' [Heq|[Heq|Hin']]%elem_mid2; [simplify_eq; rewrite Hs1; simpl; lia|simplify_eq; rewrite Hs2; simpl; lia|].
    destruct (Hrest _ _ _ Hin') as (Hin'' & Hd). rewrite Hs by lia. by eapply lay_size.
  - intros c' sz' u' [Heq|[Heq|Hin']]%elem_mid2; [by simplify_eq|simplify_eq; by replace (c + a + (sz - a)) with (c + sz) by lia|].
    destruct (Hrest _ _ _ Hin') as (Hin'' & Hp' & Hd). rewrite Hl by lia. by eapply lay_left.
  - rewrite Hl by lia. apply L.
  - rewrite Hs by lia. apply L.
Qed.

Lemma merge_lay l1 c a u b v l2 m :
  lay m (l1 ++ (c, a, u) :: (c + a, b, v) :: l2) -> c <> 0 ->
  let m' := merge_chunks h c (c + a) m in
  lay m' (l1 ++ (c, a + b, false) :: l2) /\ only_hdrs [c; c + a + b] m m'.
Proof.
  intros L Hc m'. set (cs := l1 ++ (c, a, u) :: (c + a, b, v) :: l2) in *.
  assert ((c, a, u) ∈ cs) as Hin1 by (apply elem_mid2; auto).
  assert ((c + a, b, v) ∈ cs) as Hin2 by (apply elem_mid2; auto).
  pose proof (lay_pos _ _ _ _ _ L Hin1) as Hp1. pose proof (lay_pos _ _ _ _ _ L Hin2) as Hp2.
  pose proof geom_facts as F.
  destruct (merge_wrote c a u b v m) as (Ho & Hs1 & Hl1 & Hs & Hl);
    [apply L|lia|lia|lia|lia|by eapply lay_size|by eapply lay_size|].
  fold m' in Ho, Hs1, Hl1, Hs, Hl. split; [|done].
  assert (forall c' sz' u', (c', sz', u') ∈ l1 ++ l2 -> (c', sz', u') ∈ cs /\
    0 < sz' /\ (c' + sz' <= c \/ c + a + b <= c')) as Hrest.
  { intros c' sz' u' Hin'. assert ((c', sz', u') ∈ cs) as Hin'' by (apply elem_mid2; auto).
    pose proof (lay_pos _ _ _ _ _ L Hin'') as Hp3.
    pose proof (tiles_disj _ _ _ _ _ _ _ _ _ (lay_tiles _ _ L) Hin2 Hin'') as Hd2.
    assert (c' + sz' <= c \/ c + a <= c') as Hd.
    { eapply (tiles_split 0 l1 c a u ((c + a, b, v) :: l2)); [apply L|]. apply elem_mid. right. done. }
    split; [done|]. split; [lia|].
    destruct Hd as [Hd|Hd]; [lia|]. right.
    apply elem_of_app in Hin' as [Hin'|Hin'].
    - pose proof (lay_tiles _ _ L) as Ht. apply tiles_app in Ht as (x & H1 & H2). simpl in H2.
      apply (tiles_in _ _ _ _ _ _ H1) in Hin'. lia.
    - pose proof (lay_tiles _ _ L) as Ht. apply tiles_app in Ht as (x & H1 & H2). simpl in H2.
      destruct H2 as (-> & _ & _ & _ & H2). apply (tiles_in _ _ _ _ _ _ H2) in Hin'. lia. }
  split; [apply Ho| | | | | |].
  - pose proof (lay_tiles _ _ L) as Ht. unfold cs in Ht. rewrite tiles_app in Ht |- *. destruct Ht as (x & H1 & H2).
    exists x. split; [done|]. simpl in *. destruct H2 as (-> & _ & _ & _ & H2).
    replace (x + (a + b)) with (x + a + b) by lia. split_and!; [done|lia|done].
  - eapply (zero_replace l1 c a u); [apply (lay_zero _ _ L)|done].
  - intros c' sz' u' [Heq|Hin']%elem_mid; [simplify_eq; rewrite Hs1; simpl; lia|].
    destruct (Hrest _ _ _ Hin') as (Hin'' & Hd). rewrite Hs by lia. by eapply lay_size.
  - intros c' sz' u' [Heq|Hin']%elem_mid; [simplify_eq; by replace (c + (a + b)) with (c + a + b) by lia|].
    destruct (Hrest _ _ _ Hin') as (Hin'' & Hp' & Hd). rewrite Hl by lia. by eapply lay_left.
  - rewrite Hl by lia. apply L.
  - rewrite Hs by lia. apply L.
Qed.

(** ** Circular lists *)

#[local] Abbreviation nxt := (fun m c => next_free_chunk h c m).
#[local] Abbreviation prv := (fun m c => prev_free_chunk h c m).

(** The chunks [l] are linked, in order, between [a] and [b]. *)
Fixpoint dseg (m : mem) (a : Z) (l : list Z) (b : Z) : Prop :=
  match l with
  | [] => nxt m a = b /\ prv m b = a
  | x :: r => nxt m a = x /\ prv m x = a /\ dseg m x r b
  end.

Definition ring (m : mem) (l : list Z) : Prop :=
  match l with [] => True | c :: r => dseg m c r c end.

Fixpoint lst (a : Z) (l : list Z) : Z := match l with [] => a | x :: r => lst x r end.

Lemma lst_in a l : lst a l ∈ a :: l.
Proof. revert a. induction l as [|x l IH]; intros a; simpl; [by left|]. right. apply IH. Qed.

Lemma dseg_app m a l1 x l2 b : dseg m a (l1 ++ x :: l2) b <-> dseg m a l1 x /\ dseg m x l2 b.
Proof. revert a. induction l1 as [|y l1 IH]; intros a; simpl; [tauto|]. rewrite IH. tauto. Qed.

Lemma dseg_last m a l b : dseg m a l b -> prv m b = lst a l.
Proof. revert a. induction l as [|x l IH]; intros a; simpl; [tauto|]. intros (_ & _ & H). by apply IH. Qed.

Lemma dseg_head m a l b : dseg m a l b -> nxt m a = hd b l.
Proof. destruct l; simpl; tauto. Qed.

Lemma ring_rotate m l1 c l2 : ring m (l1 ++ c :: l2) -> ring m (c :: l2 ++ l1).
Proof.
  destruct l1 as [|y l1]; simpl; [by rewrite app_nil_r|].
  rewrite dseg_app. intros [H1 H2]. rewrite dseg_app. done.
Qed.

(** Linking the last element of a list to [d] instead of [b]. *)
Lemma dseg_redirect m m' a l b d :
  dseg m a l b -> NoDup (a :: l) ->
  nxt m' (lst a l) = d -> prv m' d = lst a l ->
  (forall x, x ∈ a :: l -> x <> lst a l -> nxt m' x = nxt m x) ->
  (forall x, x ∈ l -> prv m' x = prv m x) -> dseg m' a l d.
Proof.
  revert a. induction l as [|x l IH]; intros a; simpl; [done|].
  intros (H1 & H2 & H3) [Ha Hnd]%NoDup_cons Hn Hp Hsame Hsame'.
  split_and!.
  - rewrite Hsame; [done|left|]. intros ->. apply Ha. apply lst_in.
  - rewrite Hsame'; [done|left].
  - apply IH; try done.
    + intros y Hy. apply Hsame. by right.
    + intros y Hy. apply Hsame'. by right.
Qed.

Lemma dseg_frame m m' a l b :
  (forall x, x ∈ a :: l -> nxt m' x = nxt m x) -> (forall x, x ∈ b :: l -> prv m' x = prv m x) ->
  dseg m a l b -> dseg m' a l b.
Proof.
  revert a. induction l as [|x l IH]; intros a Hn Hp; simpl.
  - rewrite (Hn a), (Hp b) by left. done.
  - rewrite (Hn a) by left. rewrite (Hp x) by (right; left). intros (H1 & H2 & H3). split_and!; try done.
    apply IH; [|intros y [->|Hy]%elem_of_cons; apply Hp; [left|by right; right]|done].
    intros y Hy. apply Hn. by right.
Qed.

(** ** The buckets *)

Lemma bucket_write b v m :
  geo m -> 0 <= b < buckets -> 0 <= v < 2 ^ 32 ->
  let m' := set_bucket_next h b v m in
  geo m' /\ bucket_next h b m' = v /\ avail_buckets h m' = avail_buckets h m /\
  (forall b', b' <> b -> bucket_next h b' m' = bucket_next h b' m) /\
  (forall x, ~ in_meta x -> m' x = m x).
Proof.
  intros Hm Hb Hv m'. unfold geo, end_chunk, bucket_next, avail_buckets, set_bucket_next, in_meta,
    sizeof_z_heap, sizeof_bucket in *. split_and!.
  - rewrite <- Hm. apply load_store_other. unfold disjoint_regions. lia.
  - by apply load_store_same.
  - apply load_store_other. unfold disjoint_regions. lia.
  - intros b' Hne. apply load_store_other. unfold disjoint_regions. lia.
  - intros x Hx. apply store_other. lia.
Qed.

Lemma avail_write v m :
  geo m -> 0 <= v < 2 ^ 32 ->
  let m' := set_avail_buckets h v m in
  geo m' /\ avail_buckets h m' = v /\
  (forall b', 0 <= b' -> bucket_next h b' m' = bucket_next h b' m) /\
  (forall x, ~ in_meta x -> m' x = m x).
Proof.
  intros Hm Hv m'. pose proof buckets_bound.
  unfold geo, end_chunk, bucket_next, avail_buckets, set_avail_buckets, in_meta, sizeof_z_heap, sizeof_bucket in *.
  split_and!.
  - rewrite <- Hm. apply load_store_other. unfold disjoint_regions. lia.
  - by apply load_store_same.
  - intros b' Hne. apply load_store_other. unfold disjoint_regions. lia.
  - intros x Hx. apply store_other. lia.
Qed.

Lemma field_meta c f m m' :
  geo m -> geo m' -> (forall x, ~ in_meta x -> m' x = m x) -> writable c f ->
  chunk_field h c f m' = chunk_field h c f m.
Proof. intros Hm Hm' Hx Hw. apply field_frame; try done. intros x Hr. apply Hx. by eapply meta_writable. Qed.

Lemma meta_fields m m' b :
  agree in_meta m m' -> avail_buckets h m' = avail_buckets h m /\
  (0 <= b < buckets -> bucket_next h b m' = bucket_next h b m).
Proof.
  intros Ha. pose proof buckets_bound. split.
  - apply load_ext. intros x Hx. apply Ha. unfold in_meta, sizeof_z_heap, sizeof_bucket. lia.
  - intros Hb. apply load_ext. intros x Hx. apply Ha. unfold in_meta, sizeof_z_heap, sizeof_bucket in *. lia.
Qed.

(** [fl b] lists the chunks of bucket [b]. *)
Record lists (m : mem) (fl : Z -> list Z) : Prop := {
  li_geo : geo m;
  li_next b : 0 <= b < buckets -> bucket_next h b m = hd 0 (fl b);
  li_avail b : 0 <= b -> Z.testbit (avail_buckets h m) b = bool_decide (b < buckets /\ fl b <> []);
  li_ring b : 0 <= b < buckets -> ring m (fl b);
  li_pos b c : 0 <= b < buckets -> c ∈ fl b -> chunk0 <= c < E;
  li_nodup b : 0 <= b < buckets -> NoDup (fl b);
  li_uniq b b' c : 0 <= b < buckets -> 0 <= b' < buckets -> c ∈ fl b -> c ∈ fl b' -> b = b'
}.

(** The memory a list operation may change: the buckets and the links of [l]. *)
Definition only_lists (l : list Z) (m m' : mem) : Prop :=
  geo m' /\ forall x, ~ in_meta x -> (forall c, c ∈ l -> ~ in_link c x) -> m' x = m x.

Lemma ring_frame m m' l :
  (forall x, x ∈ l -> nxt m' x = nxt m x /\ prv m' x = prv m x) -> ring m l -> ring m' l.
Proof. intros H. destruct l as [|c l]; [done|]. apply dseg_frame; intros x Hx; by apply H. Qed.

Lemma only_lists_other l m m' c f :
  geo m -> only_lists l m m' -> chunk0 <= c -> c ∉ l -> is_header f = false ->
  chunk_field h c f m' = chunk_field h c f m.
Proof.
  intros Hm [Hm' Hx] Hc Hn Hf. apply field_frame; [done..|]. intros x Hr. apply Hx.
  - apply (meta_writable c f); [by left|done].
  - intros d Hd Hl. unfold fregion in Hr. rewrite Hf in Hr. unfold in_link in *.
    pose proof geom_facts as F. assert (c <> d) by (by intros ->). lia.
Qed.

Lemma lists_update m m' fl b l' L :
  lists m fl -> 0 <= b < buckets -> only_lists L m m' ->
  (forall b' d, 0 <= b' < buckets -> b' <> b -> d ∈ fl b' -> d ∉ L) ->
  bucket_next h b m' = hd 0 l' ->
  (forall b', 0 <= b' < buckets -> b' <> b -> bucket_next h b' m' = bucket_next h b' m) ->
  (forall i, 0 <= i -> Z.testbit (avail_buckets h m') i =
     if decide (i = b) then bool_decide (l' <> []) else Z.testbit (avail_buckets h m) i) ->
  ring m' l' -> NoDup l' -> l' ⊆ L -> (forall c, c ∈ L -> chunk0 <= c < E) ->
  lists m' (<[b := l']> fl).
Proof.
  intros LI Hb Ho Hdis Hnb Hnb' Hav Hr Hnd Hsub Hpos.
  split; [apply Ho|intros b' Hb'..|intros b' Hb'|intros b' Hb'|].
  - destruct (decide (b' = b)) as [->|Hne]; [by rewrite fn_lookup_insert|].
    rewrite fn_lookup_insert_ne by done. rewrite Hnb' by done. by apply LI.
  - rewrite Hav by done. case_decide as Hd.
    + subst. rewrite fn_lookup_insert. apply bool_decide_ext. intuition lia.
    + rewrite fn_lookup_insert_ne by done. by apply LI.
  - destruct (decide (b' = b)) as [->|Hne]; [by rewrite fn_lookup_insert|].
    rewrite fn_lookup_insert_ne by done. eapply ring_frame; [|by apply LI].
    intros d Hd. split; (eapply only_lists_other; [apply LI|done|by eapply (li_pos _ _ LI)|by eapply Hdis|done]).
  - destruct (decide (b' = b)) as [->|Hne].
    + rewrite fn_lookup_insert. auto.
    + rewrite fn_lookup_insert_ne by done. by eapply LI.
  - destruct (decide (b' = b)) as [->|Hne]; [by rewrite fn_lookup_insert|].
    rewrite fn_lookup_insert_ne by done. by apply LI.
  - intros b1 b2 c Hb1 Hb2 H1 H2.
    destruct (decide (b1 = b)) as [->|Hn1], (decide (b2 = b)) as [->|Hn2]; try done;
      rewrite ?fn_lookup_insert in *; rewrite ?fn_lookup_insert_ne in * by done.
    + by edestruct (Hdis b2 c); auto.
    + by edestruct (Hdis b1 c); auto.
    + by eapply LI.
Qed.

Lemma only_lists_write L m m' c f v :
  c ∈ L -> is_header f = false -> wrote c f v m m' -> only_lists L m m'.
Proof.
  intros Hc Hf W. split; [apply W|]. intros x _ Hx. apply (wr_mem _ _ _ _ _ W).
  unfold fregion. rewrite Hf. by apply Hx.
Qed.

Lemma only_lists_trans L m m' m'' : only_lists L m m' -> only_lists L m' m'' -> only_lists L m m''.
Proof. intros [_ H1] [Hg2 H2]. split; [done|]. intros x Hm Hx. rewrite H2, H1 by done. done. Qed.

Lemma wrote_meta c f v m m' b :
  wrote c f v m m' -> avail_buckets h m' = avail_buckets h m /\
  (0 <= b < buckets -> bucket_next h b m' = bucket_next h b m).
Proof. intros W. apply meta_fields. by apply W. Qed.

Lemma avail_range m : 0 <= avail_buckets h m < 2 ^ 32.
Proof. apply load_range. Qed.

(** ** Taking a chunk off its list *)

Lemma remove_last m fl b c :
  lists m fl -> 0 <= b < buckets -> fl b = [c] ->
  let m' := free_list_remove_bidx h c b m in
  lists m' (<[b := []]> fl) /\ only_lists [c] m m'.
Proof.
  intros LI Hb Hfl m'. pose proof (li_ring _ _ LI b Hb) as Hr. rewrite Hfl in Hr. destruct Hr as [Hn _].
  pose proof (avail_range m) as Hav. pose proof buckets_bound as Hbb.
  assert (0 <= Z.ldiff (avail_buckets h m) (BIT b) < 2 ^ 32) as Hv.
  { apply bits_below; [lia|apply Z.ldiff_nonneg; lia|]. intros i Hi.
    by rewrite Z.ldiff_spec, (bits_above 32) by lia. }
  destruct (avail_write _ m (li_geo _ _ LI) Hv) as (Hg1 & Ha1 & Hb1 & Hx1).
  set (m1 := set_avail_buckets h (Z.ldiff (avail_buckets h m) (BIT b)) m) in *.
  destruct (bucket_write b 0 m1 Hg1 Hb ltac:(lia)) as (Hg2 & Hb2 & Ha2 & Hb2' & Hx2).
  assert (m' = set_bucket_next h b 0 m1) as Hm'.
  { unfold m', free_list_remove_bidx. by rewrite Hn, Z.eqb_refl. }
  rewrite <- Hm' in *. clearbody m' m1.
  assert (only_lists [c] m m') as Ho by (split; [done|]; intros x Hm _; by rewrite Hx2, Hx1).
  split; [|done].
  eapply (lists_update m m' fl b [] [c]); try done.
  - intros b' d Hb' Hne Hd ->%list_elem_of_singleton. apply Hne. eapply (li_uniq _ _ LI); [done..|].
    rewrite Hfl. left.
  - intros b' Hb' Hne. by rewrite Hb2', Hb1 by lia.
  - intros i Hi. rewrite Ha2, Ha1, Z.ldiff_spec, BIT_testbit by lia. case_decide; case_bool_decide; try done.
    + by rewrite andb_false_r.
    + by rewrite andb_true_r.
  - constructor.
  - set_solver.
  - intros d ->%list_elem_of_singleton. eapply (li_pos _ _ LI b); [done|]. rewrite Hfl. left.
Qed.

Lemma remove_more m fl b c x r :
  lists m fl -> 0 <= b < buckets -> c :: x :: r ≡ₚ fl b -> ring m (c :: x :: r) ->
  let m' := free_list_remove_bidx h c b m in
  lists m' (<[b := x :: r]> fl) /\ only_lists (c :: x :: r) m m'.
Proof.
  intros LI Hb Hp Hr m'. pose proof geom_facts as F.
  assert (NoDup (c :: x :: r)) as Hnd by (rewrite Hp; by apply LI).
  assert (forall d, d ∈ c :: x :: r -> chunk0 <= d < E) as Hpos.
  { intros d Hd. eapply (li_pos _ _ LI b); [done|]. by rewrite <- Hp. }
  simpl in Hr. destruct Hr as (Hn & _ & Hd). pose proof (dseg_last _ _ _ _ Hd) as Hl.
  set (y := lst x r) in *. pose proof (lst_in x r) as Hy. fold y in Hy.
  apply NoDup_cons in Hnd as [Hcx Hnd].
  assert (x ≠ c) as Hxc by (intros ->; apply Hcx; left).
  pose proof (Hpos y ltac:(by right)) as Py. pose proof (Hpos x ltac:(right; left)) as Px.
  destruct (bucket_write b x m (li_geo _ _ LI) Hb) as (Hg1 & Hb1 & Ha1 & Hb1' & Hx1).
  { change (2 ^ 32) with 4294967296. lia. }
  set (m1 := set_bucket_next h b x m) in *. set (m2 := set_next_free_chunk h y x m1).
  assert (wrote y FREE_NEXT x m1 m2) as W2 by (apply chunk_set_wrote; [done|left; lia|lia]).
  assert (wrote x FREE_PREV y m2 m') as W3.
  { assert (m' = set_prev_free_chunk h x y m2) as ->.
    { unfold m', free_list_remove_bidx. rewrite Hn. replace (x =? c) with false by lia. by rewrite Hl. }
    apply chunk_set_wrote; [apply W2|left; lia|lia]. }
  clearbody m1 m2 m'.
  assert (only_lists (c :: x :: r) m m') as Ho.
  { apply (only_lists_trans _ _ m2); [apply (only_lists_trans _ _ m1)|].
    - split; [done|]. intros z Hz _. by apply Hx1.
    - eapply (only_lists_write _ _ _ y FREE_NEXT); [by right|done|done].
    - eapply (only_lists_write _ _ _ x FREE_PREV); [right; left|done|done]. }
  assert (forall d, d ∈ x :: r -> d ≠ y -> nxt m' d = nxt m d) as Hsn.
  { intros d Hd' Hne. unfold next_free_chunk. rewrite (wr_field _ _ _ _ _ W3), (wr_field _ _ _ _ _ W2) by faddr_ne.
    eapply field_meta; [apply LI|done|done|]. left. apply Hpos. by right. }
  assert (forall d, d ∈ r -> prv m' d = prv m d) as Hsp.
  { intros d Hd'. assert (d <> x) by (intros ->; apply NoDup_cons in Hnd; tauto).
    unfold prev_free_chunk. rewrite (wr_field _ _ _ _ _ W3), (wr_field _ _ _ _ _ W2) by faddr_ne.
    eapply field_meta; [apply LI|done|done|]. left. apply Hpos. by do 2 right. }
  split; [|done].
  destruct (wrote_meta _ _ _ _ _ b W2) as [Ha2 Hb2]. destruct (wrote_meta _ _ _ _ _ b W3) as [Ha3 Hb3].
  eapply (lists_update m m' fl b (x :: r) (c :: x :: r)); try done.
  - intros b' d Hb' Hne Hd' Hin. apply Hne. eapply (li_uniq _ _ LI); [done..|]. by rewrite <- Hp.
  - by rewrite Hb3, Hb2, Hb1 by done.
  - intros b' Hb' Hne. destruct (wrote_meta _ _ _ _ _ b' W2) as [_ Hb2']. destruct (wrote_meta _ _ _ _ _ b' W3) as [_ Hb3'].
    by rewrite Hb3', Hb2', Hb1' by done.
  - intros i Hi. rewrite Ha3, Ha2, Ha1. case_decide; [|done]. subst i.
    rewrite (li_avail _ _ LI b) by lia. apply bool_decide_ext. split; [done|]. intros _. split; [lia|].
    intros He. rewrite He in Hp. by apply Permutation_nil_r in Hp.
  - simpl. eapply dseg_redirect; [exact Hd|done|fold y..].
    + unfold next_free_chunk. rewrite (wr_field _ _ _ _ _ W3) by faddr_ne. apply W2.
    + apply W3.
    + done.
    + done.
  - set_solver.
Qed.

Lemma remove_bidx_spec m fl b l1 c l2 :
  lists m fl -> 0 <= b < buckets -> fl b = l1 ++ c :: l2 ->
  let m' := free_list_remove_bidx h c b m in
  lists m' (<[b := l2 ++ l1]> fl) /\ only_lists (fl b) m m'.
Proof.
  intros LI Hb Hfl. pose proof (li_ring _ _ LI b Hb) as Hr. rewrite Hfl in Hr.
  apply ring_rotate in Hr.
  assert (c :: l2 ++ l1 ≡ₚ fl b) as Hp by (rewrite Hfl; solve_Permutation).
  destruct (l2 ++ l1) as [|x r] eqn:Er.
  - apply app_eq_nil in Er as [-> ->]. rewrite Hfl. by apply remove_last.
  - destruct (remove_more m fl b c x r LI Hb Hp Hr) as [HA HB]. split; [done|].
    destruct HB as [Hg' HB]. split; [done|]. intros z Hz Hd. apply HB; [done|].
    intros d Hd'. apply Hd. by rewrite <- Hp.
Qed.

(** ** Putting a chunk on a list *)

Lemma add_first m fl b c :
  lists m fl -> 0 <= b < buckets -> fl b = [] -> chunk0 <= c < E ->
  (forall b', 0 <= b' < buckets -> c ∉ fl b') ->
  let m' := free_list_add_bidx h c b m in
  lists m' (<[b := [c]]> fl) /\ only_lists [c] m m'.
Proof.
  intros LI Hb Hfl Hc Hfresh m'. pose proof geom_facts as F.
  pose proof (avail_range m) as Hav.
  assert (0 <= Z.lor (avail_buckets h m) (BIT b) < 2 ^ 32) as Hv.
  { rewrite BIT_pow by lia. apply bits_below; [lia|apply Z.lor_nonneg; lia|]. intros i Hi.
    rewrite Z.lor_spec, (bits_above 32) by lia. rewrite Z.pow2_bits_false by lia. done. }
  destruct (avail_write _ m (li_geo _ _ LI) Hv) as (Hg1 & Ha1 & Hb1 & Hx1).
  set (m1 := set_avail_buckets h (Z.lor (avail_buckets h m) (BIT b)) m) in *.
  destruct (bucket_write b c m1 Hg1 Hb) as (Hg2 & Hb2 & Ha2 & Hb2' & Hx2).
  { change (2 ^ 32) with 4294967296. lia. }
  set (m2 := set_bucket_next h b c m1) in *. set (m3 := set_prev_free_chunk h c c m2).
  assert (wrote c FREE_PREV c m2 m3) as W3 by (apply chunk_set_wrote; [done|left; lia|lia]).
  assert (wrote c FREE_NEXT c m3 m') as W4.
  { assert (m' = set_next_free_chunk h c c m3) as ->.
    { unfold m', free_list_add_bidx. by rewrite (li_next _ _ LI b Hb), Hfl. }
    apply chunk_set_wrote; [apply W3|left; lia|lia]. }
  clearbody m1 m2 m3 m'.
  assert (only_lists [c] m m') as Ho.
  { apply (only_lists_trans _ _ m3); [apply (only_lists_trans _ _ m2)|].
    - split; [done|]. intros z Hz _. by rewrite Hx2, Hx1.
    - eapply (only_lists_write _ _ _ c FREE_PREV); [left|done|done].
    - eapply (only_lists_write _ _ _ c FREE_NEXT); [left|done|done]. }
  split; [|done].
  destruct (wrote_meta _ _ _ _ _ b W3) as [Ha3 Hb3]. destruct (wrote_meta _ _ _ _ _ b W4) as [Ha4 Hb4].
  eapply (lists_update m m' fl b [c] [c]); try done.
  - intros b' d Hb' Hne Hd ->%list_elem_of_singleton. by apply (Hfresh b').
  - by rewrite Hb4, Hb3, Hb2 by done.
  - intros b' Hb' Hne. destruct (wrote_meta _ _ _ _ _ b' W3) as [_ Hb3']. destruct (wrote_meta _ _ _ _ _ b' W4) as [_ Hb4'].
    by rewrite Hb4', Hb3', Hb2', Hb1 by lia.
  - intros i Hi. rewrite Ha4, Ha3, Ha2, Ha1, Z.lor_spec, BIT_testbit by lia.
    case_decide; case_bool_decide; try done; [by rewrite orb_true_r|by rewrite orb_false_r].
  - simpl. split; [apply W4|]. unfold prev_free_chunk. rewrite (wr_field _ _ _ _ _ W4) by faddr_ne. apply W3.
  - apply NoDup_singleton.
  - by intros d ->%list_elem_of_singleton.
Qed.

Lemma add_more m fl b c s r :
  lists m fl -> 0 <= b < buckets -> fl b = s :: r -> chunk0 <= c < E ->
  (forall b', 0 <= b' < buckets -> c ∉ fl b') ->
  let m' := free_list_add_bidx h c b m in
  lists m' (<[b := (s :: r) ++ [c]]> fl) /\ only_lists (c :: s :: r) m m'.
Proof.
  intros LI Hb Hfl Hc Hfresh m'. pose proof geom_facts as F.
  pose proof (li_ring _ _ LI b Hb) as Hr. pose proof (li_nodup _ _ LI b Hb) as Hnd.
  rewrite Hfl in Hr, Hnd. simpl in Hr. pose proof (dseg_last _ _ _ _ Hr) as Hl.
  set (y := lst s r) in *. pose proof (lst_in s r) as Hy. fold y in Hy.
  assert (forall d, d ∈ c :: s :: r -> chunk0 <= d < E) as Hpos.
  { intros d [->|Hd]%elem_of_cons; [done|]. eapply (li_pos _ _ LI b); [done|]. by rewrite Hfl. }
  assert (c ∉ s :: r) as Hcn by (rewrite <- Hfl; by apply Hfresh).
  assert (c <> y) as Hcy by (by intros ->). assert (c <> s) as Hcs by (intros ->; apply Hcn; left).
  pose proof (Hpos y ltac:(by right)) as Py. pose proof (Hpos s ltac:(right; left)) as Ps.
  set (m1 := set_prev_free_chunk h c y m).
  assert (wrote c FREE_PREV y m m1) as W1 by (apply chunk_set_wrote; [apply LI|left; lia|lia]).
  set (m2 := set_next_free_chunk h c s m1).
  assert (wrote c FREE_NEXT s m1 m2) as W2 by (apply chunk_set_wrote; [apply W1|left; lia|lia]).
  set (m3 := set_next_free_chunk h y c m2).
  assert (wrote y FREE_NEXT c m2 m3) as W3 by (apply chunk_set_wrote; [apply W2|left; lia|lia]).
  assert (wrote s FREE_PREV c m3 m') as W4.
  { assert (m' = set_prev_free_chunk h s c m3) as ->.
    { unfold m', free_list_add_bidx. rewrite (li_next _ _ LI b Hb), Hfl. cbn [hd].
      replace (s =? 0) with false by lia. by rewrite Hl. }
    apply chunk_set_wrote; [apply W3|left; lia|lia]. }
  clearbody m1 m2 m3 m'.
  assert (only_lists (c :: s :: r) m m') as Ho.
  { apply (only_lists_trans _ _ m3); [apply (only_lists_trans _ _ m2); [apply (only_lists_trans _ _ m1)|]|].
    - eapply (only_lists_write _ _ _ c FREE_PREV); [left|done|done].
    - eapply (only_lists_write _ _ _ c FREE_NEXT); [left|done|done].
    - eapply (only_lists_write _ _ _ y FREE_NEXT); [by right|done|done].
    - eapply (only_lists_write _ _ _ s FREE_PREV); [right; left|done|done]. }
  split; [|done].
  assert (forall b, avail_buckets h m' = avail_buckets h m /\
    (0 <= b < buckets -> bucket_next h b m' = bucket_next h b m)) as Hmeta.
  { intros i. apply meta_fields. intros z Hz.
    by rewrite (wr_meta _ _ _ _ _ W4), (wr_meta _ _ _ _ _ W3), (wr_meta _ _ _ _ _ W2), (wr_meta _ _ _ _ _ W1) by done. }
  eapply (lists_update m m' fl b ((s :: r) ++ [c]) (c :: s :: r)); try done.
  - intros b' d Hb' Hne Hd [->|Hin]%elem_of_cons; [by apply (Hfresh b')|].
    apply Hne. eapply (li_uniq _ _ LI); [done..|]. by rewrite Hfl.
  - rewrite (proj2 (Hmeta b) Hb). rewrite (li_next _ _ LI b Hb), Hfl. done.
  - intros b' Hb' Hne. by apply Hmeta.
  - intros i Hi. rewrite (proj1 (Hmeta 0)). case_decide; [|done]. subst i.
    rewrite (li_avail _ _ LI b) by lia. apply bool_decide_ext. rewrite Hfl. split; [done|]. intros _. split; [lia|done].
  - change (dseg m' s (r ++ [c]) s). apply dseg_app. split; [eapply dseg_redirect; [exact Hr|done|fold y..]|].
    + unfold next_free_chunk. rewrite (wr_field _ _ _ _ _ W4) by faddr_ne. apply W3.
    + unfold prev_free_chunk. rewrite (wr_field _ _ _ _ _ W4), (wr_field _ _ _ _ _ W3), (wr_field _ _ _ _ _ W2) by faddr_ne. apply W1.
    + intros d Hd Hne. assert (d <> c) by (by intros ->). unfold next_free_chunk.
      by rewrite (wr_field _ _ _ _ _ W4), (wr_field _ _ _ _ _ W3), (wr_field _ _ _ _ _ W2), (wr_field _ _ _ _ _ W1) by faddr_ne.
    + intros d Hd. assert (d <> c) by (intros ->; apply Hcn; by right).
      assert (d <> s) by (intros ->; apply NoDup_cons in Hnd; tauto). unfold prev_free_chunk.
      by rewrite (wr_field _ _ _ _ _ W4), (wr_field _ _ _ _ _ W3), (wr_field _ _ _ _ _ W2), (wr_field _ _ _ _ _ W1) by faddr_ne.
    + simpl. split; [|apply W4]. unfold next_free_chunk.
      rewrite (wr_field _ _ _ _ _ W4), (wr_field _ _ _ _ _ W3) by faddr_ne. apply W2.
  - apply NoDup_app. split_and!; [done| |apply NoDup_singleton]. intros d Hd ->%list_elem_of_singleton. done.
  - set_solver.
Qed.

Lemma add_bidx_spec m fl b c :
  lists m fl -> 0 <= b < buckets -> chunk0 <= c < E ->
  (forall b', 0 <= b' < buckets -> c ∉ fl b') ->
  let m' := free_list_add_bidx h c b m in
  lists m' (<[b := fl b ++ [c]]> fl) /\ only_lists (c :: fl b) m m'.
Proof.
  intros LI Hb Hc Hf. destruct (fl b) as [|s r] eqn:Hfl; [by apply add_first|by apply add_more].
Qed.

(** ** The arithmetic of sizes *)

Lemma usize_small x : 0 <= x < 2 ^ 32 -> usize x = x.
Proof.
  intros Hx. apply uwrap_small. destruct Hg as [Hp _ _ _ _ _ _].
  change (2 ^ 32) with 4294967296 in Hx. destruct Hp as [-> | ->]; cbn; lia.
Qed.

Lemma header_bytes m : geo m -> chunk_header_bytes h m = hdr.
Proof. unfold geo, chunk_header_bytes, big_heap, hdr. by intros ->. Qed.

Lemma geo_big m : geo m -> big_heap h m = big.
Proof. unfold geo, big_heap. by intros ->. Qed.

Lemma min_chunk m : geo m -> min_chunk_size h m = min_units.
Proof.
  intros Hm. unfold min_chunk_size, bytes_to_chunksz, chunksz, CHUNK_UNIT. rewrite header_bytes by done.
  destruct width_cases as [(_ & _ & -> & -> & _)|(_ & _ & -> & -> & _)];
    rewrite (usize_small (_ + 1)) by lia; rewrite usize_small by lia; done.
Qed.

Lemma bucket_idx_geo sz m : geo m -> min_units <= sz < 2 ^ 32 -> bucket_idx h sz m = bidx sz.
Proof.
  intros Hm Hs. pose proof geom_facts. unfold bucket_idx, clz32, bidx. rewrite min_chunk by done.
  rewrite uwrap_small; lia.
Qed.

Lemma bidx_range sz : sz <= E -> 0 <= bidx sz < buckets.
Proof. intros Hs. pose proof (bidx_nonneg sz). pose proof (bidx_mono _ _ Hs). unfold buckets. lia. Qed.

(** ** The heap and the chunks in transit *)

(** The lists hold the free chunks that can be linked, apart from those of
    [T], which an operation has in hand. *)
Definition listed (T : list Z) (cs : list chunk) (fl : Z -> list Z) : Prop :=
  forall b c, 0 <= b < buckets ->
    (c ∈ fl b <-> exists sz, (c, sz, false) ∈ cs /\ solo sz = false /\ bidx sz = b /\ c ∉ T).

Record hstate (T : list Z) (cs : list chunk) (fl : Z -> list Z) (m : mem) : Prop := {
  hs_lay : lay m cs;
  hs_lists : lists m fl;
  hs_listed : listed T cs fl
}.

Lemma solo_units sz : 0 < sz -> solo sz = false -> min_units <= sz.
Proof. unfold solo, min_units. destruct big; simpl; lia. Qed.

(** A header at [d] meets no payload and no link of a chunk it does not cut. *)
Lemma hdr_not_safe cs d x :
  0 <= d <= E -> (forall c sz, (c, sz, true) ∈ cs -> c <> 0 -> d <= c \/ c + sz <= d) ->
  in_hdr d x -> ~ safe cs x.
Proof.
  intros Hd Hc Hx. pose proof geom_facts as F. unfold in_hdr in Hx.
  intros [Hs|[Hs|(c & sz & Hin & Hz & Hs)]]; [lia|lia|].
  specialize (Hc c sz Hin Hz). lia.
Qed.

Lemma hdr_not_link d c sz x :
  solo sz = false -> 0 < sz -> d <= c \/ c + sz <= d -> in_hdr d x -> ~ in_link c x.
Proof.
  intros Hs Hp Hd. apply solo_units in Hs; [|done]. unfold in_hdr, in_link.
  destruct width_cases as [(_ & _ & -> & HU & _)|(_ & _ & -> & HU & _)]; rewrite HU in *; lia.
Qed.

Lemma hdrs_keep_lists T cs fl l m m' :
  tiles 0 cs E -> lists m fl -> listed T cs fl -> only_hdrs l m m' ->
  (forall d c sz, d ∈ l -> (c, sz, false) ∈ cs -> c ∉ T -> d <= c \/ c + sz <= d) ->
  lists m' fl.
Proof.
  intros Ht LI HL (Hgeo & Hmeta & Hx) Hd.
  assert (forall b c f, 0 <= b < buckets -> c ∈ fl b -> is_header f = false ->
    chunk_field h c f m' = chunk_field h c f m) as Hf.
  { intros b c f Hb Hc Hf. apply field_frame; [apply LI|done|]. unfold fregion. rewrite Hf. intros x Hxl.
    apply Hx. intros d Hdl Hxh. apply (HL b c Hb) in Hc as (sz & Hin & Hs & _ & HT).
    pose proof (tiles_in _ _ _ _ _ _ Ht Hin). eapply (hdr_not_link d c sz); eauto. lia. }
  split; [done|intros b Hb..|apply LI|apply LI|apply LI].
  - rewrite (proj2 (meta_fields m m' b Hmeta) Hb). by apply LI.
  - rewrite (proj1 (meta_fields m m' b Hmeta)). by apply LI.
  - eapply ring_frame; [|by apply LI]. intros c Hc. split; eapply Hf; done.
Qed.

Lemma lists_keep_lay cs L m m' :
  lay m cs -> only_lists L m m' ->
  (forall c, c ∈ L -> exists sz, (c, sz, false) ∈ cs /\ solo sz = false) ->
  lay m' cs /\ agree (safe cs) m m'.
Proof.
  intros LA [Hgeo Hx] HL. pose proof geom_facts as F. pose proof (lay_tiles _ _ LA) as Ht.
  assert (forall d, 0 <= d <= E -> d = 0 \/ chunk0 <= d ->
    (forall c sz, (c, sz, false) ∈ cs -> d <= c \/ c + sz <= d) -> agree (in_hdr d) m m') as Hh.
  { intros d Hd Hd0 Hc x Hi. apply Hx.
    - unfold in_meta, in_hdr, sizeof_z_heap, sizeof_bucket in *. lia.
    - intros c (sz & Hin & Hs)%HL. eapply hdr_not_link; eauto. by eapply tiles_in. }
  split.
  - apply (lay_frame m); [done|done| |].
    + intros c sz u Hin. pose proof (lay_pos _ _ _ _ _ LA Hin). apply Hh; [lia|lia|].
      intros c' sz' Hin'. pose proof (lay_pos _ _ _ _ _ LA Hin').
      destruct (tiles_disj _ _ _ _ _ _ _ _ _ Ht Hin Hin') as [(-> & _)|Hd]; lia.
    + apply Hh; [lia|lia|]. intros c sz Hin. pose proof (lay_pos _ _ _ _ _ LA Hin). lia.
  - intros x Hs. apply Hx.
    + destruct Hs as [Hs|[Hs|(c & sz & Hin & Hc & Hs)]]; unfold in_meta, sizeof_z_heap, sizeof_bucket; [lia|lia|].
      pose proof (lay_pos _ _ _ _ _ LA Hin). lia.
    + intros c (sz & Hin & Hso)%HL Hl. pose proof (lay_pos _ _ _ _ _ LA Hin) as Hp.
      apply solo_units in Hso; [|lia]. unfold in_link in Hl.
      assert (2 * hdr <= 8 * min_units) as H2
        by (destruct width_cases as [(_ & _ & -> & -> & _)|(_ & _ & -> & -> & _)]; lia).
      destruct Hs as [Hs|[Hs|(c' & sz' & Hin' & Hc' & Hs)]]; [lia|lia|].
      destruct (tiles_disj _ _ _ _ _ _ _ _ _ Ht Hin Hin') as [(_ & _ & ?)|Hd]; [done|]. lia.
Qed.

End Inv.

(** Two fields with different addresses. *)
Ltac field_ne :=
  unfold faddr; let HW := fresh in
  destruct width_cases as [(_ & HW & _)|(_ & HW & _)]; rewrite HW; simpl; lia.

End HeapInv.
