(* ===== verification/HeapThm.v ===== *)
(** The contract of the heap allocator (lib/os/heap.c).

    A heap in the state [heap_inv cs] has the chunks [cs]: its headers and
    lists are consistent, free neighbours are merged and every used chunk has
    room for data.  The theorems say what allocation, aligned allocation,
    freeing and reallocation do to [cs], that the memory of the other used
    chunks and everything outside the buffer is left alone, and when an
    allocation may fail.  One theorem records that a request of nearly the
    size of the heap makes the allocator read and write past its array of
    buckets. *)
From stdpp Require Import sets.
From S2P Require Import Prelude Mem Heap HeapInv.

Module HeapThm.
Import Heap HeapInv.

(** Membership in the list of chunks in transit. *)
Ltac transit := rewrite ?not_elem_of_cons in *; intuition congruence.

Section Ops.
Context {cfg : heap_config} {g : geometry} {Hg : geometry_ok}.

#[local] Abbreviation h := base.
#[local] Abbreviation E := units.

(** ** Steps on chunks in transit *)

Lemma hs_remove T cs fl m c sz :
  hstate T cs fl m -> (c, sz, false) ∈ cs -> c ∉ T ->
  let m' := free_list_remove h c m in
  exists fl', hstate (c :: T) cs fl' m' /\ agree (safe cs) m m'.
Proof.
  intros [LA LI HL] Hin HT m'. pose proof (lay_geo _ _ LA) as Hgeo. pose proof geom_facts as F.
  pose proof (lay_pos _ _ _ _ _ LA Hin) as Hp.
  unfold m', free_list_remove, solo_free_header.
  rewrite (lay_chunk_size _ _ _ _ _ LA Hin), geo_big by done.
  fold (solo sz). destruct (solo sz) eqn:Hs; simpl.
  - exists fl. split; [|done]. split; [done..|]. intros b d Hb. rewrite (HL b d Hb).
    split; intros (sz' & Hin' & Hs' & Hb' & HT'); exists sz'; split_and!; try done; [|transit].
    apply not_elem_of_cons. split; [|done]. intros ->.
    destruct (tiles_disj _ _ _ _ _ _ _ _ _ (lay_tiles _ _ LA) Hin Hin') as [(_ & -> & _)|Hd]; [congruence|].
    pose proof (lay_pos _ _ _ _ _ LA Hin'). lia.
  - pose proof (solo_units sz ltac:(lia) Hs) as Hmin.
    rewrite bucket_idx_geo by (done || lia). set (b := bidx sz).
    assert (0 <= b < buckets) as Hb by (apply bidx_range; lia).
    assert (c ∈ fl b) as Hc by (apply HL; [done|]; by exists sz).
    apply list_elem_of_split in Hc as (l1 & l2 & Hfl).
    destruct (remove_bidx_spec m fl b l1 c l2 LI Hb Hfl) as [LI' Ho].
    destruct (lists_keep_lay cs (fl b) m _ LA Ho) as [LA' Hsafe].
    { intros d (sz' & Hin' & Hs' & _)%HL; [|done]. by exists sz'. }
    eexists. split; [|exact Hsafe]. split; [done|exact LI'|].
    assert (c ∉ l1 ++ l2) as Hnc.
    { pose proof (li_nodup _ _ LI b Hb) as Hnd. rewrite Hfl in Hnd.
      assert (l1 ++ c :: l2 ≡ₚ c :: l1 ++ l2) as Hperm by solve_Permutation.
      rewrite Hperm in Hnd. by apply NoDup_cons in Hnd as [? _]. }
    intros b' d Hb'. destruct (decide (b' = b)) as [->|Hne].
    + rewrite fn_lookup_insert. transitivity (d ∈ fl b /\ d <> c).
      * rewrite Hfl. rewrite !elem_of_app, elem_of_cons in *. naive_solver.
      * rewrite (HL b d Hb). split; [intros [(sz' & ?) ?]|intros (sz' & ? & ? & ? & ?)]; set_solver.
    + rewrite fn_lookup_insert_ne by done. rewrite (HL b' d Hb').
      split; intros (sz' & Hin' & Hs' & Hb'' & HT'); exists sz'; split_and!; try done; [|transit].
      apply not_elem_of_cons. split; [|done]. intros ->.
      destruct (tiles_disj _ _ _ _ _ _ _ _ _ (lay_tiles _ _ LA) Hin Hin') as [(_ & Heq & _)|Hd]; [subst sz'; by apply Hne|].
      pose proof (lay_pos _ _ _ _ _ LA Hin'). lia.
Qed.

Lemma hs_add T cs fl m c sz :
  hstate (c :: T) cs fl m -> (c, sz, false) ∈ cs -> c ∉ T ->
  let m' := free_list_add h c m in
  exists fl', hstate T cs fl' m' /\ agree (safe cs) m m'.
Proof.
  intros [LA LI HL] Hin HT m'. pose proof (lay_geo _ _ LA) as Hgeo. pose proof geom_facts as F.
  pose proof (lay_pos _ _ _ _ _ LA Hin) as Hp.
  assert (forall sz', (c, sz', false) ∈ cs -> sz' = sz) as Huniq.
  { intros sz' Hin'. pose proof (lay_pos _ _ _ _ _ LA Hin').
    destruct (tiles_disj _ _ _ _ _ _ _ _ _ (lay_tiles _ _ LA) Hin Hin') as [(_ & -> & _)|Hd]; [done|lia]. }
  unfold m', free_list_add, solo_free_header.
  rewrite (lay_chunk_size _ _ _ _ _ LA Hin), geo_big by done.
  fold (solo sz). destruct (solo sz) eqn:Hs; simpl.
  - exists fl. split; [|done]. split; [done..|]. intros b d Hb. rewrite (HL b d Hb).
    split; intros (sz' & Hin' & Hs' & Hb' & HT'); exists sz'; split_and!; try done; [transit|].
    apply not_elem_of_cons. split; [|done]. intros ->. rewrite (Huniq _ Hin') in Hs'. congruence.
  - pose proof (solo_units sz ltac:(lia) Hs) as Hmin.
    rewrite bucket_idx_geo by (done || lia). set (b := bidx sz).
    assert (0 <= b < buckets) as Hb by (apply bidx_range; lia).
    assert (forall b', 0 <= b' < buckets -> c ∉ fl b') as Hfresh.
    { intros b' Hb' (sz' & _ & _ & _ & Hn)%HL; [|done]. apply Hn. left. }
    destruct (add_bidx_spec m fl b c LI Hb ltac:(lia) Hfresh) as [LI' Ho].
    destruct (lists_keep_lay cs (c :: fl b) m _ LA Ho) as [LA' Hsafe].
    { intros d [->|Hd]%elem_of_cons; [by exists sz|]. apply HL in Hd as (sz' & Hin' & Hs' & _); [|done]. by exists sz'. }
    eexists. split; [|exact Hsafe]. split; [done|exact LI'|].
    intros b' d Hb'. destruct (decide (b' = b)) as [->|Hne].
    + rewrite fn_lookup_insert, elem_of_app, list_elem_of_singleton, (HL b d Hb). split.
      * intros [(sz' & Hin' & Hs' & Hb'' & HT')| ->]; [exists sz'; transit|]. by exists sz.
      * intros (sz' & Hin' & Hs' & Hb'' & HT'). destruct (decide (d = c)) as [->|Hdc]; [by right|].
        left. exists sz'. split_and!; try done. transit.
    + rewrite fn_lookup_insert_ne by done. rewrite (HL b' d Hb').
      split; intros (sz' & Hin' & Hs' & Hb'' & HT'); exists sz'; split_and!; try done; [transit|].
      apply not_elem_of_cons. split; [|done]. intros ->. rewrite (Huniq _ Hin') in Hb''. by apply Hne.
Qed.

(** Every chunk beside the one at [c] keeps off the interior of [c]. *)
Lemma rest_apart m l1 c sz u l2 c' sz' u' :
  lay m (l1 ++ (c, sz, u) :: l2) -> (c', sz', u') ∈ l1 ++ l2 ->
  0 < sz' /\ 0 <= c' /\ c' + sz' <= E /\ (c' + sz' <= c \/ c + sz <= c').
Proof.
  intros LA Hin. pose proof (tiles_split _ _ _ _ _ _ _ _ _ _ (lay_tiles _ _ LA) Hin).
  assert ((c', sz', u') ∈ l1 ++ (c, sz, u) :: l2) as Hin' by (apply elem_mid; auto).
  pose proof (lay_pos _ _ _ _ _ LA Hin'). pose proof geom_facts. lia.
Qed.

Lemma hdrs_safe l cs m m' :
  only_hdrs l m m' -> (forall d, d ∈ l -> 0 <= d <= E) ->
  (forall d c sz, d ∈ l -> (c, sz, true) ∈ cs -> c <> 0 -> d <= c \/ c + sz <= d) ->
  agree (safe cs) m m'.
Proof.
  intros (_ & _ & Hx) Hd Hc x Hs. apply Hx. intros d Hdl Hi. eapply hdr_not_safe; eauto.
Qed.

Lemma hs_split T l1 c sz u l2 fl m a :
  hstate (c :: T) (l1 ++ (c, sz, u) :: l2) fl m -> c <> 0 -> 0 < a < sz ->
  let m' := split_chunks h c (c + a) m in
  hstate (c :: c + a :: T) (l1 ++ (c, a, false) :: (c + a, sz - a, false) :: l2) fl m' /\
  agree (safe (l1 ++ (c, a, true) :: l2)) m m'.
Proof.
  intros [LA LI HL] Hc Ha m'. destruct (split_lay l1 c sz u l2 a m LA Hc Ha) as [LA' Ho]. fold m' in LA', Ho.
  assert ((c, sz, u) ∈ l1 ++ (c, sz, u) :: l2) as Hin by (apply elem_mid; auto).
  pose proof (lay_pos _ _ _ _ _ LA Hin) as Hp. pose proof geom_facts as F.
  assert (forall d, d ∈ [c; c + a; c + a; c + sz] -> c <= d <= c + sz /\ (d <= c \/ c + a <= d)) as Hd
    by (intros d; set_unfold; lia).
  split.
  - split; [done| |].
    + eapply hdrs_keep_lists; [apply LA|done|done|done|].
      intros d c' sz' Hdl [Heq|Hin']%elem_mid HT; [simplify_eq; transit|].
      apply Hd in Hdl. destruct (rest_apart _ _ _ _ _ _ _ _ _ LA Hin'). lia.
    + intros b d Hb. rewrite (HL b d Hb).
      split; intros (sz' & Hin' & Hs & Hbi & HT); exists sz'; split_and!; try done.
      * apply elem_mid in Hin' as [Heq|Hin']; [simplify_eq; transit|]. apply elem_mid2; auto.
      * apply elem_mid in Hin' as [Heq|Hin']; [simplify_eq; transit|].
        destruct (rest_apart _ _ _ _ _ _ _ _ _ LA Hin'). rewrite !not_elem_of_cons in *. split_and!; [tauto|lia|tauto].
      * apply elem_mid2 in Hin' as [Heq|[Heq|Hin']]; [simplify_eq; transit..|]. apply elem_mid; auto.
      * transit.
  - eapply hdrs_safe; [done|intros d Hdl%Hd; lia|]. intros d c' sz' Hdl [Heq|Hin']%elem_mid _; apply Hd in Hdl.
    { simplify_eq. lia. }
    destruct (rest_apart _ _ _ _ _ _ _ _ _ LA Hin'). lia.
Qed.

Lemma hs_merge l1 c a u b v l2 fl m :
  hstate [c; c + a] (l1 ++ (c, a, u) :: (c + a, b, v) :: l2) fl m -> c <> 0 ->
  let m' := merge_chunks h c (c + a) m in
  hstate [c] (l1 ++ (c, a + b, false) :: l2) fl m' /\ agree (safe (l1 ++ (c, a, true) :: l2)) m m' /\
  left_chunk h (c + a) m' = left_chunk h (c + a) m.
Proof.
  intros [LA LI HL] Hc m'. destruct (merge_lay l1 c a u b v l2 m LA Hc) as [LA' Ho]. fold m' in LA', Ho.
  assert ((c, a + b, false) ∈ l1 ++ (c, a + b, false) :: l2) as Hin by (apply elem_mid; auto).
  pose proof (lay_pos _ _ _ _ _ LA' Hin) as Hp. pose proof geom_facts as F.
  assert (forall d, d ∈ [c; c + a + b] -> d = c \/ d = c + a + b) as Hd by (intros d; set_unfold; lia).
  split_and!.
  - split; [done| |].
    + eapply hdrs_keep_lists; [apply LA|done|done|done|].
      intros d c' sz' Hdl [Heq|[Heq|Hin']]%elem_mid2 HT; [simplify_eq; transit..|].
      apply Hd in Hdl. destruct (rest_apart _ _ _ _ _ _ _ _ _ LA' Hin'). lia.
    + intros i d Hb. rewrite (HL i d Hb).
      split; intros (sz' & Hin' & Hs & Hbi & HT); exists sz'; split_and!; try done.
      * apply elem_mid2 in Hin' as [Heq|[Heq|Hin']]; [simplify_eq; transit..|]. apply elem_mid; auto.
      * transit.
      * apply elem_mid in Hin' as [Heq|Hin']; [simplify_eq; transit|]. apply elem_mid2; auto.
      * apply elem_mid in Hin' as [Heq|Hin']; [simplify_eq; transit|].
        pose proof (rest_apart _ _ _ _ _ _ _ _ _ LA' Hin') as HR.
        assert ((c + a, b, v) ∈ l1 ++ (c, a, u) :: (c + a, b, v) :: l2) as Hin2 by (apply elem_mid2; auto).
        assert ((c, a, u) ∈ l1 ++ (c, a, u) :: (c + a, b, v) :: l2) as Hin1 by (apply elem_mid2; auto).
        pose proof (lay_pos _ _ _ _ _ LA Hin1). pose proof (lay_pos _ _ _ _ _ LA Hin2).
        rewrite !not_elem_of_cons. split_and!; [lia|lia|apply not_elem_of_nil].
  - assert ((c + a, b, v) ∈ l1 ++ (c, a, u) :: (c + a, b, v) :: l2) as Hin2 by (apply elem_mid2; auto).
    pose proof (lay_pos _ _ _ _ _ LA Hin2).
    eapply hdrs_safe; [done|intros d Hdl%Hd; lia|]. intros d c' sz' Hdl [Heq|Hin']%elem_mid _; apply Hd in Hdl.
    { simplify_eq. lia. }
    destruct (rest_apart _ _ _ _ _ _ _ _ _ LA' Hin'). lia.
  - assert ((c, a, u) ∈ l1 ++ (c, a, u) :: (c + a, b, v) :: l2) as Hin1 by (apply elem_mid2; auto).
    assert ((c + a, b, v) ∈ l1 ++ (c, a, u) :: (c + a, b, v) :: l2) as Hin2 by (apply elem_mid2; auto).
    pose proof (lay_pos _ _ _ _ _ LA Hin1). pose proof (lay_pos _ _ _ _ _ LA Hin2).
    unfold left_chunk. do 2 f_equal. apply field_frame; [apply LA|apply LA'|].
    intros x Hx. apply Ho. intros d Hdl%Hd Hi. unfold fregion, in_hdr in *. simpl in Hx. lia.
Qed.

Lemma hs_used T l1 c sz u l2 fl m v :
  hstate (c :: T) (l1 ++ (c, sz, u) :: l2) fl m -> c <> 0 ->
  let m' := set_chunk_used h c v m in
  hstate (c :: T) (l1 ++ (c, sz, v) :: l2) fl m' /\ agree (safe (l1 ++ (c, sz, true) :: l2)) m m'.
Proof.
  intros [LA LI HL] Hc m'. destruct (used_lay l1 c sz u l2 v m LA Hc) as [LA' Ho]. fold m' in LA', Ho.
  assert ((c, sz, u) ∈ l1 ++ (c, sz, u) :: l2) as Hin by (apply elem_mid; auto).
  pose proof (lay_pos _ _ _ _ _ LA Hin) as Hp. pose proof geom_facts as F.
  split.
  - split; [done| |].
    + eapply hdrs_keep_lists; [apply LA|done|done|done|].
      intros d c' sz' ->%list_elem_of_singleton [Heq|Hin']%elem_mid HT; [simplify_eq; transit|].
      destruct (rest_apart _ _ _ _ _ _ _ _ _ LA Hin'). lia.
    + intros b d Hb. rewrite (HL b d Hb).
      split; intros (sz' & Hin' & Hs & Hbi & HT); exists sz'; split_and!; try done;
        apply elem_mid in Hin' as [Heq|Hin']; try (simplify_eq; transit); apply elem_mid; auto.
  - eapply hdrs_safe; [done|intros d ->%list_elem_of_singleton; lia|].
    intros d c' sz' ->%list_elem_of_singleton [Heq|Hin']%elem_mid _; [simplify_eq; lia|].
    destruct (rest_apart _ _ _ _ _ _ _ _ _ LA Hin'). lia.
Qed.

(** A used chunk is not in transit, and a free one whose list holds it
    neither. *)
Lemma hs_drop T cs fl m c sz :
  hstate (c :: T) cs fl m -> (c, sz, true) ∈ cs -> hstate T cs fl m.
Proof.
  intros [LA LI HL] Hin. split; [done..|]. intros b d Hb. rewrite (HL b d Hb).
  split; intros (sz' & Hin' & Hs & Hbi & HT); exists sz'; split_and!; try done; [transit|].
  apply not_elem_of_cons. split; [|done]. intros ->. pose proof (lay_pos _ _ _ _ _ LA Hin).
  destruct (tiles_disj _ _ _ _ _ _ _ _ _ (lay_tiles _ _ LA) Hin Hin') as [(_ & _ & ?)|Hd]; [done|].
  pose proof (lay_pos _ _ _ _ _ LA Hin'). lia.
Qed.

Lemma hs_take T cs fl m c sz :
  hstate T cs fl m -> (c, sz, true) ∈ cs -> hstate (c :: T) cs fl m.
Proof.
  intros [LA LI HL] Hin. split; [done..|]. intros b d Hb. rewrite (HL b d Hb).
  split; intros (sz' & Hin' & Hs & Hbi & HT); exists sz'; split_and!; try done; [|transit].
  apply not_elem_of_cons. split; [|done]. intros ->. pose proof (lay_pos _ _ _ _ _ LA Hin).
  destruct (tiles_disj _ _ _ _ _ _ _ _ _ (lay_tiles _ _ LA) Hin Hin') as [(_ & _ & ?)|Hd]; [done|].
  pose proof (lay_pos _ _ _ _ _ LA Hin'). lia.
Qed.

(** ** Finding a free chunk *)

Lemma ctz_bit x : 0 < x -> 0 <= ctz x /\ Z.testbit x (ctz x) = true.
Proof.
  destruct x as [|p|p]; try lia. intros _. unfold ctz. induction p as [p IH|p IH|]; cbn [ctz_pos]; try done.
  destruct IH as [H1 H2]. split; [lia|].
  rewrite Z.add_1_l, Pos2Z.inj_xO, Z.double_bits_succ by lia. done.
Qed.

Lemma remove_bidx_eq T cs fl m b c :
  hstate T cs fl m -> 0 <= b < buckets -> c ∈ fl b ->
  exists sz, (c, sz, false) ∈ cs /\ solo sz = false /\ bidx sz = b /\ c ∉ T /\
    free_list_remove h c m = free_list_remove_bidx h c b m.
Proof.
  intros [LA LI HL] Hb (sz & Hin & Hs & Hbi & HT)%HL; [|done]. exists sz. split_and!; try done.
  pose proof (lay_geo _ _ LA) as Hgeo. pose proof (lay_pos _ _ _ _ _ LA Hin) as Hp. pose proof geom_facts as F.
  unfold free_list_remove, solo_free_header. rewrite (lay_chunk_size _ _ _ _ _ LA Hin), geo_big by done.
  fold (solo sz). rewrite Hs. simpl. f_equal. pose proof (solo_units sz ltac:(lia) Hs).
  rewrite bucket_idx_geo; [done|done|]. change (2 ^ 32) with 4294967296. lia.
Qed.

(** Moving the head of a bucket to its end. *)
Lemma hs_rotate cs fl m b c r :
  hstate [] cs fl m -> 0 <= b < buckets -> fl b = c :: r ->
  let m' := set_bucket_next h b (next_free_chunk h c m) m in
  hstate [] cs (<[b := r ++ [c]]> fl) m' /\ agree (safe cs) m m'.
Proof.
  intros [LA LI HL] Hb Hfl m'. pose proof geom_facts as F.
  pose proof (li_ring _ _ LI b Hb) as Hr. rewrite Hfl in Hr.
  assert (forall d, d ∈ c :: r -> chunk0 <= d < E) as Hpos.
  { intros d Hd. eapply (li_pos _ _ LI b); [done|]. by rewrite Hfl. }
  assert (next_free_chunk h c m = hd c r) as Hn by (by apply dseg_head in Hr).
  assert (hd c r ∈ c :: r) as Hhd by (destruct r; simpl; [left|right; left]).
  apply Hpos in Hhd. destruct (bucket_write b (hd c r) m (li_geo _ _ LI) Hb) as (Hg1 & Hb1 & Ha1 & Hb1' & Hx1).
  { change (2 ^ 32) with 4294967296. lia. }
  assert (m' = set_bucket_next h b (hd c r) m) as Hm' by (unfold m'; by rewrite Hn).
  rewrite <- Hm' in *. clearbody m'.
  assert (only_lists [] m m') as Ho by (split; [done|]; intros x Hx _; by apply Hx1).
  destruct (lists_keep_lay cs [] m m' LA Ho) as [LA' Hsafe]; [by intros d ?%elem_of_nil|].
  split; [|done]. split; [done| |].
  - eapply (lists_update m m' fl b (r ++ [c]) (c :: r)); try done.
    + split; [done|]. intros x Hx _. by apply Hx1.
    + intros b' d Hb' Hne Hd Hin. apply Hne. eapply (li_uniq _ _ LI); [done..|]. by rewrite Hfl.
    + rewrite Hb1. by destruct r.
    + intros b' Hb' Hne. by apply Hb1'.
    + intros i Hi. rewrite Ha1. case_decide; [|done]. subst i. rewrite (li_avail _ _ LI b) by lia.
      apply bool_decide_ext. rewrite Hfl. split; [by destruct r|]. intros _. split; [lia|done].
    + assert (ring m (r ++ [c])) as Hr'.
      { destruct r as [|x r]; [done|]. apply (ring_rotate m [c] x r). done. }
      eapply ring_frame; [|exact Hr']. intros d Hd.
      assert (chunk0 <= d < E) as Hp by (apply Hpos; rewrite elem_of_app, list_elem_of_singleton in Hd; set_solver).
      split; (eapply field_meta; [apply LA|done|done|left; lia]).
    + pose proof (li_nodup _ _ LI b Hb) as Hnd. rewrite Hfl in Hnd. by rewrite <- Permutation_cons_append.
    + intros d Hd. by rewrite Permutation_cons_append.
  - intros b' d Hb'. rewrite <- (HL b' d Hb'). destruct (decide (b' = b)) as [->|Hne].
    + rewrite fn_lookup_insert, Hfl. by rewrite <- Permutation_cons_append.
    + by rewrite fn_lookup_insert_ne.
Qed.

Lemma alloc_loop_spec i first cs fl m b sz :
  hstate [] cs fl m -> 0 <= b < buckets -> fl b <> [] ->
  let '(r, m') := alloc_loop h i first b sz m in
  agree (safe cs) m m' /\
  match r with
  | Some c => exists fl' sz', hstate [c] cs fl' m' /\ (c, sz', false) ∈ cs /\ sz <= sz'
  | None => exists fl', hstate [] cs fl' m'
  end.
Proof.
  revert fl m. induction i as [|i IH]; intros fl m HS Hb Hne; cbn [alloc_loop]; [split; [done|]; by exists fl|].
  destruct (fl b) as [|c r] eqn:Hfl; [done|].
  rewrite (li_next _ _ (hs_lists _ _ _ _ HS) b Hb), Hfl. cbn [hd].
  destruct (remove_bidx_eq _ _ _ _ b c HS Hb) as (sz' & Hin & Hs & Hbi & HT & Heq); [rewrite Hfl; left|].
  rewrite (lay_chunk_size _ _ _ _ _ (hs_lay _ _ _ _ HS) Hin).
  destruct (sz' >=? sz) eqn:Hsz.
  - rewrite <- Heq. destruct (hs_remove _ _ _ _ _ _ HS Hin HT) as (fl' & HS' & Hsafe).
    split; [done|]. exists fl', sz'. split_and!; [done|done|lia].
  - destruct (hs_rotate _ _ _ _ _ _ HS Hb Hfl) as [HS' Hsafe].
    set (m1 := set_bucket_next h b (next_free_chunk h c m) m) in *.
    destruct (bucket_next h b m1 =? first); [split; [done|]; eauto|].
    specialize (IH _ m1 HS' Hb). rewrite fn_lookup_insert in IH. specialize (IH ltac:(by destruct r)).
    destruct (alloc_loop h i first b sz m1) as [res m2]. destruct IH as [Hsafe' IH].
    split; [|done]. intros x Hx. rewrite Hsafe', Hsafe by done. done.
Qed.

Lemma high_buckets m fl bi :
  lists m fl -> 0 <= bi ->
  let bmask := Z.ldiff (avail_buckets h m) (BIT (bi + 1) - 1) in
  0 <= bmask /\ forall i, 0 <= i -> Z.testbit bmask i = true <-> (bi < i < buckets /\ fl i <> []).
Proof.
  intros LI Hbi bmask. split.
  - apply Z.ldiff_nonneg. left. apply avail_range.
  - intros i Hi. unfold bmask. rewrite BIT_pow by lia. replace (2 ^ (bi + 1) - 1) with (Z.ones (bi + 1)) by (rewrite Z.ones_equiv; lia).
    rewrite Z.ldiff_spec, (li_avail _ _ LI) by done.
    destruct (Z.lt_ge_cases i (bi + 1)) as [Hlt|Hge].
    + rewrite Z.ones_spec_low by lia. simpl. rewrite andb_false_r. split; [done|lia].
    + rewrite Z.ones_spec_high by lia. simpl. rewrite andb_true_r, bool_decide_eq_true. intuition lia.
Qed.

Lemma alloc_chunk_spec cs fl m sz :
  hstate [] cs fl m -> min_units <= sz < 2 ^ 32 -> bidx sz < buckets ->
  let '(c, m') := alloc_chunk h sz m in
  agree (safe cs) m m' /\
  ((c = 0 /\ (exists fl', hstate [] cs fl' m') /\
    forall d sz', (d, sz', false) ∈ cs -> solo sz' = false -> bidx sz' <= bidx sz) \/
   (exists fl' sz', hstate [c] cs fl' m' /\ (c, sz', false) ∈ cs /\ sz <= sz')).
Proof.
  intros HS Hsz Hbi. pose proof (bidx_nonneg sz) as Hb0. set (bi := bidx sz) in *.
  unfold alloc_chunk. rewrite bucket_idx_geo by (done || apply HS). fold bi.
  set (P := fun (r : option Z) m' => agree (safe cs) m m' /\
    match r with
    | Some c => exists fl' sz', hstate [c] cs fl' m' /\ (c, sz', false) ∈ cs /\ sz <= sz'
    | None => exists fl', hstate [] cs fl' m'
    end).
  assert (let '(r, m') := if negb (bucket_next h bi m =? 0)
    then alloc_loop h CONFIG_SYS_HEAP_ALLOC_LOOPS (bucket_next h bi m) bi sz m else (None, m) in P r m') as HP.
  { destruct (bucket_next h bi m =? 0) eqn:Hz; cbn [negb].
    - split; [done|eauto].
    - eapply alloc_loop_spec; [done|lia|]. intros He.
      rewrite (li_next _ _ (hs_lists _ _ _ _ HS)), He in Hz by lia. done. }
  destruct (if negb (bucket_next h bi m =? 0) then _ else _) as [r m1]. destruct HP as [Hsafe HP].
  destruct r as [c|]; [split; [done|]; by right|]. destruct HP as [fl1 HS1].
  destruct (high_buckets m1 fl1 bi (hs_lists _ _ _ _ HS1) Hb0) as [Hm0 Hmask].
  set (bmask := Z.ldiff (avail_buckets h m1) (BIT (bi + 1) - 1)) in *.
  destruct (bmask =? 0) eqn:Hz; cbn [negb].
  - split; [done|]. left. split_and!; [done|eauto|]. intros d sz' Hin Hs.
    apply Z.le_ngt. intros Hlt.
    assert (0 <= bidx sz' < buckets) as Hb'.
    { apply bidx_range. pose proof (lay_pos _ _ _ _ _ (hs_lay _ _ _ _ HS) Hin). pose proof geom_facts. lia. }
    assert (d ∈ fl1 (bidx sz')) as Hd by (apply (hs_listed _ _ _ _ HS1); [done|]; exists sz'; split_and!; try done; apply not_elem_of_nil).
    assert (Z.testbit bmask (bidx sz') = true) as Hbit.
    { apply Hmask; [lia|]. split; [lia|]. intros He. rewrite He in Hd. by apply elem_of_nil in Hd. }
    apply Z.eqb_eq in Hz. by rewrite Hz, Z.bits_0 in Hbit.
  - destruct (ctz_bit bmask) as [Hc0 Hbit]; [lia|]. apply Hmask in Hbit as [Hrange Hne]; [|done].
    set (mb := ctz bmask) in *. rewrite (li_next _ _ (hs_lists _ _ _ _ HS1)) by lia.
    destruct (fl1 mb) as [|c r] eqn:Hfl; [done|]. cbn [hd].
    destruct (remove_bidx_eq _ _ _ _ mb c HS1) as (sz' & Hin & Hs & Hbi' & HT & Heq); [lia|rewrite Hfl; left|].
    rewrite <- Heq. destruct (hs_remove _ _ _ _ _ _ HS1 Hin HT) as (fl' & HS' & Hsafe').
    split; [intros x Hx; by rewrite Hsafe', Hsafe|]. right. exists fl', sz'. split_and!; [done|done|].
    apply Z.le_ngt. intros Hlt. pose proof (bidx_mono sz' sz ltac:(lia)). unfold bi in *. lia.
Qed.

Lemma hs_equiv T T' cs fl m : T ≡ₚ T' -> hstate T cs fl m -> hstate T' cs fl m.
Proof.
  intros Hp [LA LI HL]. split; [done..|]. intros b d Hb. rewrite (HL b d Hb). by setoid_rewrite Hp.
Qed.

Lemma agree_trans (P : Z -> Prop) m m' m'' : agree P m m' -> agree P m' m'' -> agree P m m''.
Proof. intros H1 H2 x Hx. rewrite H2, H1 by done. done. Qed.

Lemma agree_mono (P Q : Z -> Prop) m m' : (forall x, Q x -> P x) -> agree P m m' -> agree Q m m'.
Proof. intros H H1 x Hx. apply H1, H, Hx. Qed.

(** Any heap whose used chunks include those of [cs] has the payload of [cs]. *)
Lemma safe_sub l1 l2 l x : safe (l1 ++ l2) x -> safe (l1 ++ l ++ l2) x.
Proof. apply safe_mono. intros c sz Hin _. rewrite !elem_of_app in *. tauto. Qed.

(** The invariant of a heap between calls. *)
Definition coalesced (cs : list chunk) : Prop :=
  forall c sz sz', (c, sz, false) ∈ cs -> (c + sz, sz', false) ∉ cs.

Record packed (cs : list chunk) : Prop := {
  pk_coal : coalesced cs;
  pk_used c sz : (c, sz, true) ∈ cs -> min_units <= sz
}.

Definition heap_inv (cs : list chunk) (m : mem) : Prop :=
  packed cs /\ exists fl, hstate [] cs fl m.

(** ** Allocation *)

(** Using the first [a] units of a free chunk. *)
Definition carve (c a : Z) (m : mem) : mem :=
  let m := if chunk_size h c m >? a then free_list_add h (c + a) (split_chunks h c (c + a) m) else m in
  set_chunk_used h c true m.

Definition carved (c a sz : Z) : list chunk :=
  (c, a, true) :: (if sz >? a then [(c + a, sz - a, false)] else []).

Lemma carve_spec l1 c sz l2 fl m a :
  hstate [c] (l1 ++ (c, sz, false) :: l2) fl m -> 0 < a <= sz ->
  (exists fl', hstate [] (l1 ++ carved c a sz ++ l2) fl' (carve c a m)) /\
  agree (safe (l1 ++ l2)) m (carve c a m).
Proof.
  intros HS Ha. unfold carve, carved.
  assert ((c, sz, false) ∈ l1 ++ (c, sz, false) :: l2) as Hin by (apply elem_mid; auto).
  pose proof (lay_pos _ _ _ _ _ (hs_lay _ _ _ _ HS) Hin) as Hp. pose proof geom_facts as F.
  assert (c <> 0) as Hc by (intros ->; destruct Hp as (_ & _ & [(_ & _ & ?)|?]); [done|lia]).
  rewrite (lay_chunk_size _ _ _ _ _ (hs_lay _ _ _ _ HS) Hin).
  destruct (sz >? a) eqn:Hsz.
  - destruct (hs_split [] _ _ _ _ _ _ _ a HS Hc ltac:(lia)) as [HS1 Hs1].
    set (m1 := split_chunks h c (c + a) m) in *.
    apply (hs_equiv _ [c + a; c]) in HS1; [|by apply Permutation_swap].
    destruct (hs_add [c] _ _ _ (c + a) (sz - a) HS1) as (fl2 & HS2 & Hs2).
    { apply elem_mid2. auto. } { rewrite list_elem_of_singleton. lia. }
    set (m2 := free_list_add h (c + a) m1) in *.
    destruct (hs_used [] _ _ _ _ _ _ _ true HS2 Hc) as [HS3 Hs3].
    split.
    + exists fl2. eapply hs_drop; [exact HS3|]. apply elem_mid. by left.
    + eapply agree_trans; [eapply agree_mono; [|exact Hs1]; intros x; apply (safe_sub l1 l2 [_])|].
      eapply agree_trans.
      * eapply agree_mono; [|exact Hs2]. intros x. apply (safe_sub l1 l2 [_; _]).
      * eapply agree_mono; [|exact Hs3]. intros x. apply (safe_sub l1 l2 [_; _]).
  - assert (a = sz) as -> by lia.
    destruct (hs_used [] _ _ _ _ _ _ _ true HS Hc) as [HS3 Hs3].
    split.
    + exists fl. eapply hs_drop; [exact HS3|]. apply elem_mid. by left.
    + eapply agree_mono; [|exact Hs3]. intros x. apply (safe_sub l1 l2 [_]).
Qed.

(** Replacing a free chunk by chunks that are packed among themselves. *)
Lemma packed_refine l1 c sz l2 M m :
  lay m (l1 ++ (c, sz, false) :: l2) -> packed (l1 ++ (c, sz, false) :: l2) ->
  tiles c M (c + sz) -> packed M -> packed (l1 ++ M ++ l2).
Proof.
  intros LA HP Ht HM.
  assert (forall x, x ∈ l1 ++ l2 -> x ∈ l1 ++ (c, sz, false) :: l2) as Hold by (intros; apply elem_mid; auto).
  assert (forall x, x ∈ l1 ++ M ++ l2 -> x ∈ M \/ x ∈ l1 ++ l2) as Hc by (intros x; rewrite !elem_of_app; tauto).
  assert ((c, sz, false) ∈ l1 ++ (c, sz, false) :: l2) as Hin by (apply elem_mid; auto).
  split.
  - intros d s s' [H1|H1]%Hc [H2|H2]%Hc.
    + by eapply (pk_coal _ HM d s s').
    + pose proof (rest_apart _ _ _ _ _ _ _ _ _ LA H2). pose proof (tiles_in _ _ _ _ _ _ Ht H1).
      apply (pk_coal _ HP c sz s'); [done|]. apply Hold. by replace (c + sz) with (d + s) by lia.
    + pose proof (rest_apart _ _ _ _ _ _ _ _ _ LA H1). pose proof (tiles_in _ _ _ _ _ _ Ht H2).
      apply (pk_coal _ HP d s sz); [by apply Hold|]. by replace (d + s) with c by lia.
    + apply (pk_coal _ HP d s s'); by apply Hold.
  - intros d s [H1|H1]%Hc; [by eapply pk_used|]. eapply (pk_used _ HP d). by apply Hold.
Qed.

(** The units a request of [n] bytes takes. *)
Definition need (n : Z) : Z := (hdr + n + 7) / 8.

Lemma need_bounds n : 0 < n < 8 * E -> min_units <= need n <= E + 1 /\ hdr + n <= 8 * need n.
Proof.
  intros Hn. unfold need.
  destruct width_cases as [(_ & _ & -> & -> & _)|(_ & _ & -> & -> & _)]; Z.to_euclidean_division_equations; lia.
Qed.

Lemma usize_fit x : 0 <= x <= 8 * E + 15 -> usize x = x.
Proof.
  intros Hx. apply uwrap_small. destruct Hg as [_ Hb Ha _ Hf _ _].
  assert (8 <= h) by (Z.to_euclidean_division_equations; lia). lia.
Qed.

Lemma bytes_to_chunksz_need n m : geo m -> 0 < n < 8 * E -> bytes_to_chunksz h n m = need n.
Proof.
  intros Hm Hn. pose proof (need_bounds n Hn) as [Hb _]. pose proof geom_facts as F.
  unfold bytes_to_chunksz, chunksz, CHUNK_UNIT. rewrite header_bytes by done.
  rewrite (usize_fit (hdr + n)) by lia. replace (hdr + n + 8 - 1) with (hdr + n + 7) by lia.
  rewrite usize_fit by lia. fold (need n). apply uwrap_small. change (2 ^ 32) with 4294967296. lia.
Qed.

(** The address of the data of the chunk at [c]. *)
Definition data (c : Z) : Z := h + 8 * c + hdr.

Lemma chunk_mem_data c m : geo m -> chunk_mem h c m = data c.
Proof. intros Hm. unfold chunk_mem, data, CHUNK_UNIT. by rewrite header_bytes. Qed.

(** Why an allocation of [a] units may fail: there is no free chunk of a
    larger size class. *)
Definition exhausted (cs : list chunk) (a : Z) : Prop :=
  forall c sz, (c, sz, false) ∈ cs -> solo sz = false -> bidx sz <= bidx a.

Lemma carved_tiles c a sz : 0 < a <= sz -> tiles c (carved c a sz) (c + sz).
Proof. intros Ha. unfold carved. destruct (sz >? a) eqn:E1; simpl; split_and!; lia. Qed.

Lemma carved_packed c a sz : min_units <= a <= sz -> packed (carved c a sz).
Proof.
  intros Ha. pose proof geom_facts as F. unfold carved. destruct (sz >? a) eqn:E1; split.
  1, 3: intros d s s'; rewrite !elem_of_cons, !elem_of_nil; intros; naive_solver lia.
  all: intros d s; rewrite !elem_of_cons, !elem_of_nil; intros; naive_solver lia.
Qed.

(** [sys_heap_alloc] takes the first units of a free chunk that is large
    enough. *)
Inductive alloc_case (cs : list chunk) (a : Z) : list chunk -> Z -> Prop :=
| alloc_taken l1 c sz l2 :
    cs = l1 ++ (c, sz, false) :: l2 -> a <= sz -> alloc_case cs a (l1 ++ carved c a sz ++ l2) (data c).

Lemma alloc_spec cs m n :
  heap_inv cs m -> 0 < n < 8 * E -> bidx (need n) < buckets ->
  let '(p, m') := sys_heap_alloc h n m in
  agree (safe cs) m m' /\
  ((p = NULL /\ heap_inv cs m' /\ exhausted cs (need n)) \/
   (exists cs', alloc_case cs (need n) cs' p /\ heap_inv cs' m')).
Proof.
  intros [HP [fl HS]] Hn Hb. pose proof geom_facts as F. pose proof (need_bounds n Hn) as [Hnb _].
  pose proof (lay_geo _ _ (hs_lay _ _ _ _ HS)) as Hgeo.
  unfold sys_heap_alloc, size_too_big, CHUNK_UNIT. rewrite Hgeo.
  replace (n =? 0) with false by lia. replace (n / 8 >=? E) with false
    by (Z.to_euclidean_division_equations; lia). cbn [orb]. cbv zeta.
  rewrite bytes_to_chunksz_need by done.
  pose proof (alloc_chunk_spec cs fl m (need n) HS ltac:(change (2 ^ 32) with 4294967296; lia) Hb) as HA.
  destruct (alloc_chunk h (need n) m) as [c m1].
  destruct HA as [Hs [(-> & HS1 & Hex)|(fl1 & sz & HS1 & Hin & Hsz)]].
  - rewrite Z.eqb_refl. split; [done|]. left. split_and!; done.
  - pose proof (lay_pos _ _ _ _ _ (hs_lay _ _ _ _ HS1) Hin) as Hp.
    assert (c <> 0) as Hc by (intros ->; destruct Hp as (_ & _ & [(_ & _ & ?)|?]); [done|lia]).
    replace (c =? 0) with false by lia. fold (carve c (need n) m1).
    apply list_elem_of_split in Hin as (l1 & l2 & ->).
    destruct (carve_spec _ _ _ _ _ _ (need n) HS1 ltac:(lia)) as [[fl2 HS2] Hs2].
    split.
    + eapply agree_trans; [exact Hs|]. eapply agree_mono; [|exact Hs2]. intros x. apply safe_mono.
      intros d s [?|?]%elem_mid _; [simplify_eq|done].
    + right. eexists. split.
      * rewrite chunk_mem_data by apply HS2. by econstructor.
      * split; [|eauto]. eapply packed_refine; [apply HS1|done|apply carved_tiles; lia|apply carved_packed; lia].
Qed.

(** ** Freeing *)

(** A freed chunk is merged with a free right and a free left neighbour. *)
Definition join_right (sz : Z) (l2 : list chunk) : Z * list chunk :=
  match l2 with (_, b, false) :: r => (sz + b, r) | _ => (sz, l2) end.
Definition join_left (l1 : list chunk) (c sz : Z) : list chunk * Z * Z :=
  match reverse l1 with (d, a, false) :: r => (reverse r, d, a + sz) | _ => (l1, c, sz) end.
Definition freed (l1 : list chunk) (c sz : Z) (l2 : list chunk) : list chunk :=
  let '(sz, l2) := join_right sz l2 in
  let '(l1, c, sz) := join_left l1 c sz in
  l1 ++ (c, sz, false) :: l2.

Lemma one_start m cs c sz u sz' u' :
  lay m cs -> (c, sz, u) ∈ cs -> (c, sz', u') ∈ cs -> sz' = sz /\ u' = u.
Proof.
  intros LA H1 H2. pose proof (lay_pos _ _ _ _ _ LA H1). pose proof (lay_pos _ _ _ _ _ LA H2).
  destruct (tiles_disj _ _ _ _ _ _ _ _ _ (lay_tiles _ _ LA) H1 H2) as [(_ & -> & ->)|Hd]; [done|lia].
Qed.

Lemma one_end m cs c sz u c' sz' u' :
  lay m cs -> (c, sz, u) ∈ cs -> (c', sz', u') ∈ cs -> c' + sz' = c + sz -> c' = c /\ u' = u.
Proof.
  intros LA H1 H2 He. pose proof (lay_pos _ _ _ _ _ LA H1). pose proof (lay_pos _ _ _ _ _ LA H2).
  destruct (tiles_disj _ _ _ _ _ _ _ _ _ (lay_tiles _ _ LA) H1 H2) as [(-> & _ & ->)|Hd]; [done|lia].
Qed.

Lemma join_right_spec l1 c sz l2 fl m :
  hstate [c] (l1 ++ (c, sz, false) :: l2) fl m -> c <> 0 -> coalesced (l1 ++ l2) ->
  let m' := if negb (chunk_used h (right_chunk h c m) m) then
              let m := free_list_remove h (right_chunk h c m) m in merge_chunks h c (right_chunk h c m) m
            else m in
  let '(sz', l2') := join_right sz l2 in
  (exists fl', hstate [c] (l1 ++ (c, sz', false) :: l2') fl' m') /\ agree (safe (l1 ++ l2)) m m' /\
  (forall x, x ∈ l2' -> x ∈ l2) /\ (forall d s, (d, s, true) ∈ l2 -> (d, s, true) ∈ l2') /\
  (forall t, (c + sz', t, false) ∉ l1 ++ l2').
Proof.
  intros HS Hc Hco. cbv zeta. pose proof (hs_lay _ _ _ _ HS) as LA.
  assert ((c, sz, false) ∈ l1 ++ (c, sz, false) :: l2) as Hin by (apply elem_mid; auto).
  pose proof (lay_pos _ _ _ _ _ LA Hin) as Hp.
  rewrite (lay_right _ _ _ _ _ LA Hin).
  assert (forall x, x ∈ l1 ++ l2 -> x ∈ l1 ++ (c, sz, false) :: l2) as Hold by (intros; apply elem_mid; auto).
  destruct l2 as [|[[d b] v] l2].
  - assert (c + sz = E) as He.
    { pose proof (lay_tiles _ _ LA) as Ht. apply tiles_app in Ht as (x & _ & Ht). simpl in Ht. lia. }
    rewrite He, (lay_end_used _ _ LA). cbn [join_right negb]. split_and!; try done; [eauto|].
    intros t Ht%Hold. pose proof (lay_pos _ _ _ _ _ LA Ht). lia.
  - assert (d = c + sz) as ->.
    { pose proof (lay_tiles _ _ LA) as Ht. apply tiles_app in Ht as (x & _ & Ht). simpl in Ht. lia. }
    assert ((c + sz, b, v) ∈ l1 ++ (c, sz, false) :: (c + sz, b, v) :: l2) as Hin' by (apply elem_mid2; auto).
    pose proof (lay_pos _ _ _ _ _ LA Hin') as Hp'.
    rewrite (lay_chunk_used _ _ _ _ _ LA Hin'). destruct v; cbn [join_right negb].
    + split_and!; try done; [eauto|]. intros t Ht%Hold. by destruct (one_start _ _ _ _ _ _ _ LA Hin' Ht).
    + destruct (hs_remove [c] _ _ _ (c + sz) b HS Hin') as (fl1 & HS1 & Hs1).
      { rewrite list_elem_of_singleton. lia. }
      set (m1 := free_list_remove h (c + sz) m) in *.
      rewrite (lay_right m1 _ c sz false (hs_lay _ _ _ _ HS1) Hin).
      apply (hs_equiv _ [c; c + sz]) in HS1; [|by apply Permutation_swap].
      destruct (hs_merge _ _ _ _ _ _ _ _ _ HS1 Hc) as (HS2 & Hs2 & _).
      assert (forall d' s, (d', s, true) ∈ (c + sz, b, false) :: l2 -> (d', s, true) ∈ l2) as Hu.
      { intros d' s [?|?]%elem_of_cons; [simplify_eq|done]. }
      split_and!.
      * eauto.
      * eapply agree_trans.
        -- eapply agree_mono; [|exact Hs1]. intros x. apply safe_mono. intros d' s Hi _. by apply Hold.
        -- eapply agree_mono; [|exact Hs2]. intros x. apply safe_mono. intros d' s Hi _. apply elem_mid. right.
           rewrite elem_of_app in *. naive_solver.
      * intros x Hx. by right.
      * done.
      * intros t Ht. eapply (Hco (c + sz) b t); rewrite elem_of_app, elem_of_cons; [auto|].
        replace (c + sz + b) with (c + (sz + b)) by lia. apply elem_of_app in Ht. tauto.
Qed.

Lemma join_left_spec l1 c sz l2 fl m :
  hstate [c] (l1 ++ (c, sz, false) :: l2) fl m -> c <> 0 -> coalesced (l1 ++ l2) ->
  let '(c1, m') := if negb (chunk_used h (left_chunk h c m) m) then
                     let m := free_list_remove h (left_chunk h c m) m in
                     let m := merge_chunks h (left_chunk h c m) c m in
                     (left_chunk h c m, m)
                   else (c, m) in
  let '(l1', c', sz') := join_left l1 c sz in
  c1 = c' /\ c' <> 0 /\ c' + sz' = c + sz /\
  (exists fl', hstate [c'] (l1' ++ (c', sz', false) :: l2) fl' m') /\ agree (safe (l1 ++ l2)) m m' /\
  (forall x, x ∈ l1' -> x ∈ l1) /\ (forall d s, (d, s, true) ∈ l1 -> (d, s, true) ∈ l1') /\
  (forall d s, (d, s, false) ∈ l1' ++ l2 -> d + s <> c').
Proof.
  intros HS Hc Hco. cbv zeta. pose proof (hs_lay _ _ _ _ HS) as LA. pose proof geom_facts as F.
  assert ((c, sz, false) ∈ l1 ++ (c, sz, false) :: l2) as Hin by (apply elem_mid; auto).
  assert (forall x, x ∈ l1 ++ l2 -> x ∈ l1 ++ (c, sz, false) :: l2) as Hold by (intros; apply elem_mid; auto).
  destruct l1 as [|[[d a] v] l1 _] using rev_ind.
  { destruct (lay_zero _ _ LA) as [r Hr]. simpl in Hr. simplify_eq. }
  assert (d + a = c) as Heq.
  { pose proof (lay_tiles _ _ LA) as Ht. apply tiles_app in Ht as (x & Ht & Hx).
    apply tiles_app in Ht as (y & _ & Hy). simpl in *. lia. }
  assert ((d, a, v) ∈ (l1 ++ [(d, a, v)]) ++ (c, sz, false) :: l2) as Hin'.
  { rewrite !elem_of_app, list_elem_of_singleton. auto. }
  pose proof (lay_pos _ _ _ _ _ LA Hin') as Hp'.
  assert (left_chunk h c m = d) as Hl by (rewrite <- Heq; by eapply lay_left_chunk).
  rewrite Hl, (lay_chunk_used _ _ _ _ _ LA Hin').
  unfold join_left. rewrite reverse_app, reverse_singleton. cbn [app]. destruct v; cbn [negb].
  - split_and!; try done; [eauto|]. intros d' s Hd He. apply Hold in Hd.
    destruct (one_end _ _ _ _ _ _ _ _ LA Hin' Hd); [lia|done].
  - assert (d <> 0) as Hd0 by (intros ->; destruct Hp' as (_ & _ & [(_ & _ & ?)|?]); [done|lia]).
    destruct (hs_remove [c] _ _ _ d a HS Hin') as (fl1 & HS1 & Hs1).
    { rewrite list_elem_of_singleton. lia. }
    set (m1 := free_list_remove h d m) in *.
    assert (left_chunk h c m1 = d) as Hl1 by (rewrite <- Heq; eapply lay_left_chunk; [apply HS1|exact Hin']).
    rewrite Hl1. rewrite <- app_assoc in HS1. cbn [app] in HS1. rewrite <- Heq in HS1 |- *.
    destruct (hs_merge _ _ _ _ _ _ _ _ _ HS1 Hd0) as (HS2 & Hs2 & Hleft).
    rewrite Hleft. rewrite <- Heq in Hl1. rewrite reverse_involutive.
    assert (forall d' s, (d', s, true) ∈ l1 ++ [(d, a, false)] -> (d', s, true) ∈ l1) as Hu.
    { intros d' s. rewrite elem_of_app, list_elem_of_singleton. intros [?|?]; [done|simplify_eq]. }
    split_and!.
    + done.
    + done.
    + lia.
    + eauto.
    + eapply agree_trans.
      * eapply agree_mono; [|exact Hs1]. intros x. apply safe_mono. intros d' s Hi _. by apply Hold.
      * eapply agree_mono; [|exact Hs2]. intros x. apply safe_mono. intros d' s Hi _.
        apply elem_mid. right. apply elem_of_app. apply elem_of_app in Hi as [Hi|Hi]; [left; by apply Hu|by right].
    + intros x Hx. apply elem_of_app. by left.
    + done.
    + intros d' s Hd He. apply (Hco d' s a).
      * rewrite !elem_of_app in *. tauto.
      * rewrite He, !elem_of_app, list_elem_of_singleton. auto.
Qed.

Lemma packed_rest l1 x l2 : packed (l1 ++ x :: l2) -> packed (l1 ++ l2).
Proof.
  intros HP. assert (forall y, y ∈ l1 ++ l2 -> y ∈ l1 ++ x :: l2) as Hold by (intros; apply elem_mid; auto).
  split.
  - intros c sz sz' H1 H2. apply (pk_coal _ HP c sz sz'); by apply Hold.
  - intros c sz Hin. eapply (pk_used _ HP c). by apply Hold.
Qed.

Lemma free_chunk_spec l1 c sz l2 fl m :
  hstate [c] (l1 ++ (c, sz, false) :: l2) fl m -> c <> 0 -> packed (l1 ++ l2) ->
  heap_inv (freed l1 c sz l2) (free_chunk h c m) /\ agree (safe (l1 ++ l2)) m (free_chunk h c m).
Proof.
  intros HS Hc HP. unfold free_chunk, freed.
  pose proof (join_right_spec _ _ _ _ _ _ HS Hc (pk_coal _ HP)) as HR. cbv zeta in HR |- *.
  set (m1 := if negb (chunk_used h (right_chunk h c m) m) then _ else m) in *. clearbody m1.
  destruct (join_right sz l2) as [sz1 l2']. destruct HR as ([fl1 HS1] & Hs1 & Hsub2 & Hused2 & HNR).
  assert (coalesced (l1 ++ l2')) as Hco1.
  { intros d s s' H1 H2. eapply (pk_coal _ HP d s s'); rewrite elem_of_app in *; naive_solver. }
  pose proof (join_left_spec _ _ _ _ _ _ HS1 Hc Hco1) as HL. cbv zeta in HL.
  destruct (if negb (chunk_used h (left_chunk h c m1) m1) then _ else _) as [c1 m2].
  destruct (join_left l1 c sz1) as [[l1' c'] sz']. destruct HL as (-> & Hc' & Hend & [fl2 HS2] & Hs2 & Hsub1 & Hused1 & HNL).
  assert (forall x, x ∈ l1' ++ l2' -> x ∈ l1 ++ l2) as Hsub.
  { intros x. rewrite !elem_of_app. naive_solver. }
  destruct (hs_add [] _ _ _ c' sz' HS2) as (fl3 & HS3 & Hs3); [apply elem_mid; by left|apply not_elem_of_nil|].
  split; [split; [|eauto]; split|].
  - intros d s s' [Heq|H1]%elem_mid [Heq'|H2]%elem_mid.
    + simplify_eq. pose proof (lay_pos _ _ _ _ _ (hs_lay _ _ _ _ HS2) ltac:(apply elem_mid; by left)). lia.
    + simplify_eq. rewrite Hend in H2. apply (HNR s'). rewrite elem_of_app in *. naive_solver.
    + simplify_eq. by eapply HNL.
    + eapply (pk_coal _ HP d s s'); by apply Hsub.
  - intros d s [Heq|H1]%elem_mid; [simplify_eq|]. eapply (pk_used _ HP d). by apply Hsub.
  - eapply agree_trans; [exact Hs1|]. eapply agree_trans.
    + eapply agree_mono; [|exact Hs2]. intros x. apply safe_mono. intros d s Hi _.
      rewrite elem_of_app in *. naive_solver.
    + eapply agree_mono; [|exact Hs3]. intros x. apply safe_mono. intros d s Hi _.
      rewrite elem_mid, !elem_of_app in *. naive_solver.
Qed.

Lemma mem_to_chunkid_data p c m :
  geo m -> 0 <= c <= E -> data c <= p < data c + 8 -> mem_to_chunkid h p m = c.
Proof.
  intros Hm Hc Hp. pose proof geom_facts as F. unfold mem_to_chunkid, CHUNK_UNIT, data in *.
  rewrite header_bytes by done.
  replace ((p - hdr - h) / 8) with c by (Z.to_euclidean_division_equations; lia).
  apply uwrap_small. change (2 ^ 32) with 4294967296. lia.
Qed.

(** [p] is a pointer that the allocator gave out for the chunk at [c]. *)
Definition points_to (p c : Z) : Prop := data c <= p < data c + 8.

Lemma points_nonnull p c : 0 <= c -> points_to p c -> p <> NULL.
Proof. intros Hc Hp. pose proof geom_facts. unfold points_to, data, NULL in *. lia. Qed.

Lemma free_spec l1 c sz l2 m p :
  heap_inv (l1 ++ (c, sz, true) :: l2) m -> c <> 0 -> points_to p c ->
  let m' := sys_heap_free h p m in
  heap_inv (freed l1 c sz l2) m' /\ agree (safe (l1 ++ l2)) m m'.
Proof.
  intros [HP [fl HS]] Hc Hp. cbv zeta. pose proof (hs_lay _ _ _ _ HS) as LA.
  assert ((c, sz, true) ∈ l1 ++ (c, sz, true) :: l2) as Hin by (apply elem_mid; auto).
  pose proof (lay_pos _ _ _ _ _ LA Hin) as Hpos. pose proof geom_facts as F.
  unfold sys_heap_free. pose proof (points_nonnull p c ltac:(lia) Hp) as Hnn.
  replace (p =? NULL) with false by lia.
  rewrite (mem_to_chunkid_data p c) by (apply LA || lia || done).
  pose proof (hs_take _ _ _ _ _ _ HS Hin) as HS1.
  destruct (hs_used [] _ _ _ _ _ _ _ false HS1 Hc) as [HS2 Hs2].
  destruct (free_chunk_spec _ _ _ _ _ _ HS2 Hc (packed_rest _ _ _ HP)) as [HI Hs3].
  split; [done|]. eapply agree_trans; [|exact Hs3]. eapply agree_mono; [|exact Hs2].
  intros x. apply (safe_sub l1 l2 [_]).
Qed.

End Ops.
End HeapThm.
