(* ===== verification/HeapApi.v ===== *)
(** Aligned allocation, reallocation and initialisation of a heap
    (lib/os/heap.c), and the theorems about the public functions. *)
From stdpp Require Import sets.
From S2P Require Import Prelude Mem Heap HeapInv HeapThm.

Module HeapApi.
Import Heap HeapInv HeapThm.

(** ** Rounding *)

Lemma ldiff_round x k : 0 <= k -> Z.ldiff x (2 ^ k - 1) = 2 ^ k * (x / 2 ^ k).
Proof.
  intros Hk. replace (2 ^ k - 1) with (Z.ones k) by (rewrite Z.ones_equiv; lia).
  rewrite Z.ldiff_ones_r, Z.shiftl_mul_pow2, Z.shiftr_div_pow2 by done. lia.
Qed.

(** Rounding up a multiple of [d] to a multiple of [a] moves it by a multiple
    of [d] below [a]. *)
Lemma round_up_disp d a x :
  0 < d -> 0 < a -> (d | a) -> (d | x) ->
  x <= a * ((x + (a - 1)) / a) <= x + a - d.
Proof.
  intros Hd Ha [a' ->] [x' ->].
  assert (0 < a') by nia.
  assert (x' <= a' * ((x' * d + (a' * d - 1)) / (a' * d)) <= x' + a' - 1); [|nia].
  set (q := (x' * d + (a' * d - 1)) / (a' * d)).
  pose proof (Z.div_mod (x' * d + (a' * d - 1)) (a' * d) ltac:(lia)) as Hdm. fold q in Hdm.
  pose proof (Z.mod_pos_bound (x' * d + (a' * d - 1)) (a' * d) ltac:(lia)) as Hr.
  set (r := (x' * d + (a' * d - 1)) mod (a' * d)) in *.
  split; nia.
Qed.

Section Api.
Context {cfg : heap_config} {g : geometry} {Hg : geometry_ok}.

#[local] Abbreviation h := base.
#[local] Abbreviation E := units.

Lemma ROUND_UP_pow x k :
  0 <= k -> 0 <= x -> x + 2 ^ k <= 2 ^ (8 * sizeof_ptr) ->
  ROUND_UP x (2 ^ k) = 2 ^ k * ((x + (2 ^ k - 1)) / 2 ^ k).
Proof.
  intros Hk Hx Hb. unfold ROUND_UP. rewrite ldiff_round by done. unfold usize.
  rewrite uwrap_small; [done|]. lia.
Qed.

(** ** Aligned allocation *)

(** What the decoded arguments of [sys_heap_aligned_alloc] satisfy: the
    alignment is a power of two, the rewind is below it, and the gap divides
    everything. *)
Record align_ok (align rew gap : Z) : Prop := {
  ao_pow : exists k, 0 <= k /\ align = 2 ^ k;
  ao_gap : 0 < gap <= hdr;
  ao_rew : 0 <= rew < align;
  ao_dvd : (gap | align) /\ (gap | rew) /\ (gap | hdr) /\ (gap | 8);
  ao_fit : h + 8 * E + 2 * align + 16 <= 2 ^ (8 * sizeof_ptr);
  ao_max : align <= 2 ^ 32
}.

(** The units [sys_heap_aligned_alloc] looks for. *)
Definition padded (align gap n : Z) : Z := (hdr + (n + align - gap) + 7) / 8.

Lemma padded_eq align rew gap n m :
  geo m -> align_ok align rew gap -> 0 < n < 8 * E ->
  bytes_to_chunksz h (usize (n + align - gap)) m = padded align gap n /\
  min_units <= padded align gap n < 2 ^ 32.
Proof.
  intros Hm [_ Hgap Hrew Hdvd Hfit Hmax] Hn. pose proof geom_facts as F.
  assert (gap <= align) as Hga by (apply Z.divide_pos_le; [lia|tauto]).
  unfold bytes_to_chunksz, chunksz, CHUNK_UNIT. rewrite header_bytes by done.
  assert (forall x, 0 <= x <= 8 * E + align + 15 -> usize x = x) as Hu.
  { intros x Hx. apply uwrap_small. lia. }
  rewrite (Hu (n + align - gap)), (Hu (hdr + (n + align - gap))) by lia.
  replace (hdr + (n + align - gap) + 8 - 1) with (hdr + (n + align - gap) + 7) by lia.
  rewrite Hu by lia. fold (padded align gap n). change (2 ^ 32) with 4294967296 in *.
  assert (min_units <= padded align gap n < 4294967296) as Hp.
  { unfold padded. destruct width_cases as [(_ & _ & -> & -> & _)|(_ & _ & -> & -> & _)];
      Z.to_euclidean_division_equations; lia. }
  split; [|done]. apply uwrap_small. change (2 ^ 32) with 4294967296. lia.
Qed.

(** Where the aligned block ends up in a chunk of [padded] units at [c0]. *)
Lemma aligned_place align rew gap n c0 :
  align_ok align rew gap -> 0 < n < 8 * E -> chunk0 <= c0 -> c0 + padded align gap n <= E ->
  let p := ROUND_UP (data c0 + rew) align - rew in
  let e := ROUND_UP (p + n) CHUNK_UNIT in
  let c := (p - hdr - h) / 8 in
  let c_end := (e - h) / 8 in
  (p + rew) mod align = 0 /\ c0 <= c <= E /\ points_to p c /\ p + n <= h + 8 * c_end /\
  c + min_units <= c_end <= c0 + padded align gap n.
Proof.
  intros [(k & Hk & Hpow) Hgap Hrew (Hd1 & Hd2 & Hd3 & Hd4) Hfit Hmax] Hn Hc Hpad. cbv zeta.
  pose proof geom_facts as F. destruct Hg as [_ _ Hal _ _ _ _].
  assert (gap <= align) as Hga by (apply Z.divide_pos_le; [lia|done]).
  assert (8 * padded align gap n >= hdr + (n + align - gap)) as Hp1
    by (unfold padded; Z.to_euclidean_division_equations; lia).
  assert (gap | data c0 + rew) as Hdx.
  { unfold data. repeat apply Z.divide_add_r; try done; [|by apply Z.divide_mul_l].
    transitivity 8; [done|]. apply Z.mod_divide; lia. }
  set (x := data c0 + rew) in *.
  assert (ROUND_UP x align = align * ((x + (align - 1)) / align)) as HR.
  { rewrite Hpow. apply ROUND_UP_pow; [done|unfold x, data; lia|]. rewrite <- Hpow. unfold x, data. lia. }
  pose proof (round_up_disp gap align x ltac:(lia) ltac:(lia) Hd1 Hdx) as Hdisp. rewrite <- HR in Hdisp.
  assert (ROUND_UP x align mod align = 0) as Hmod by (rewrite HR, Z.mul_comm; apply Z.mod_mul; lia).
  set (R := ROUND_UP x align) in *. clearbody R.
  assert (ROUND_UP (R - rew + n) CHUNK_UNIT = 8 * ((R - rew + n + 7) / 8)) as HR8.
  { change CHUNK_UNIT with (2 ^ 3). rewrite ROUND_UP_pow; [done|lia|unfold x, data in *; lia|].
    change (2 ^ 3) with 8. unfold x, data in *. lia. }
  rewrite HR8. replace (R - rew + rew) with R by lia. split; [done|].
  assert (exists h', h = 8 * h') as [h' Hh'] by (exists (h / 8); Z.to_euclidean_division_equations; lia).
  unfold x in *. clear x. unfold points_to, data in *. clear HR HR8 Hdx Hmod Hd1 Hd2 Hd3 Hd4 Hpow Hk.
  destruct width_cases as [(_ & _ & Hh & HU & _)|(_ & _ & Hh & HU & _)]; rewrite Hh, HU in *;
    Z.to_euclidean_division_equations; lia.
Qed.

Definition prefix (c0 c : Z) : list chunk := if c >? c0 then [(c0, c - c0, false)] else [].

(** An aligned block takes the units it covers out of a free chunk; what is
    left before and behind it stays free. *)
Inductive aligned_case (cs : list chunk) (n : Z) : list chunk -> Z -> Z -> Prop :=
| aligned_taken l1 c0 sz l2 c a p :
    cs = l1 ++ (c0, sz, false) :: l2 -> c0 <= c -> c + a <= c0 + sz -> min_units <= a ->
    points_to p c -> p + n <= h + 8 * (c + a) ->
    aligned_case cs n (l1 ++ (prefix c0 c ++ carved c a (c0 + sz - c)) ++ l2) c p.

Lemma prefix_tiles c0 c a sz :
  c0 <= c -> 0 < a -> c + a <= c0 + sz ->
  tiles c0 (prefix c0 c ++ carved c a (c0 + sz - c)) (c0 + sz).
Proof.
  intros Hc Ha Hsz. apply tiles_app. exists c. split.
  - unfold prefix. destruct (c >? c0) eqn:E1; simpl; [split_and!|]; lia.
  - replace (c0 + sz) with (c + (c0 + sz - c)) at 2 by lia. apply carved_tiles. lia.
Qed.

Lemma prefix_packed c0 c a sz :
  c0 <= c -> min_units <= a -> c + a <= c0 + sz -> packed (prefix c0 c ++ carved c a (c0 + sz - c)).
Proof.
  intros Hc Ha Hsz. pose proof geom_facts as F. assert (packed (carved c a (c0 + sz - c))) as HP by (apply carved_packed; lia).
  unfold prefix. destruct (c >? c0) eqn:E1; [|done]. cbn [app].
  assert (forall d s u, (d, s, u) ∈ carved c a (c0 + sz - c) -> c <= d /\ 0 < s) as Hd.
  { intros d s u Hin. pose proof (carved_tiles c a (c0 + sz - c) ltac:(lia)) as Ht.
    pose proof (tiles_in _ _ _ _ _ _ Ht Hin). lia. }
  split.
  - intros d s s' [H1|H1]%elem_of_cons [H2|H2]%elem_of_cons; simplify_eq.
    + lia.
    + assert (c0 + (c - c0) = c) as Heq by lia. rewrite Heq in H2.
      unfold carved in H2. apply elem_of_cons in H2 as [?|H2]; [simplify_eq|].
      destruct (c0 + sz - c >? a); [|by apply elem_of_nil in H2].
      apply list_elem_of_singleton in H2. simplify_eq. lia.
    + apply Hd in H1. lia.
    + by eapply (pk_coal _ HP d s s').
  - intros d s [H1|H1]%elem_of_cons; [simplify_eq|]. by eapply pk_used.
Qed.

(** Splitting off the part before [c] and putting it back on its list. *)
Lemma cut_prefix l1 c0 sz l2 fl m c :
  hstate [c0] (l1 ++ (c0, sz, false) :: l2) fl m -> c0 <= c < c0 + sz ->
  let m' := if c >? c0 then free_list_add h c0 (split_chunks h c0 c m) else m in
  (exists fl', hstate [c] ((l1 ++ prefix c0 c) ++ (c, c0 + sz - c, false) :: l2) fl' m') /\
  agree (safe (l1 ++ l2)) m m'.
Proof.
  intros HS Hc. cbv zeta. unfold prefix.
  assert ((c0, sz, false) ∈ l1 ++ (c0, sz, false) :: l2) as Hin by (apply elem_mid; auto).
  pose proof (lay_pos _ _ _ _ _ (hs_lay _ _ _ _ HS) Hin) as Hp. pose proof geom_facts as F.
  assert (c0 <> 0) as Hc0 by (intros ->; destruct Hp as (_ & _ & [(_ & _ & ?)|?]); [done|lia]).
  destruct (c >? c0) eqn:E1.
  - destruct (hs_split [] _ _ _ _ _ _ _ (c - c0) HS Hc0 ltac:(lia)) as [HS1 Hs1].
    replace (c0 + (c - c0)) with c in HS1, Hs1 by lia. replace (sz - (c - c0)) with (c0 + sz - c) in HS1 by lia.
    set (m1 := split_chunks h c0 c m) in *.
    destruct (hs_add [c] _ _ _ c0 (c - c0) HS1) as (fl2 & HS2 & Hs2).
    { apply elem_mid2. auto. } { rewrite list_elem_of_singleton. lia. }
    split.
    + exists fl2. by rewrite <- app_assoc.
    + eapply agree_trans; [eapply agree_mono; [|exact Hs1]; intros x; apply (safe_sub l1 l2 [_])|].
      eapply agree_mono; [|exact Hs2]. intros x. apply (safe_sub l1 l2 [_; _]).
  - assert (c = c0) as -> by lia. rewrite app_nil_r. replace (c0 + sz - c0) with sz by lia.
    split; [by exists fl|done].
Qed.

Lemma aligned_alloc_spec cs m align rew gap n :
  heap_inv cs m -> align_ok align rew gap -> 0 < n < 8 * E -> bidx (padded align gap n) < buckets ->
  let '(p, m') := aligned_alloc h align rew gap n m in
  agree (safe cs) m m' /\
  ((p = NULL /\ heap_inv cs m' /\ exhausted cs (padded align gap n)) \/
   (exists cs' c, aligned_case cs n cs' c p /\ heap_inv cs' m' /\ (p + rew) mod align = 0)).
Proof.
  intros [HP [fl HS]] Hao Hn Hb. pose proof geom_facts as F.
  pose proof (lay_geo _ _ (hs_lay _ _ _ _ HS)) as Hgeo.
  destruct (padded_eq align rew gap n m Hgeo Hao Hn) as [Hpe Hpb].
  unfold aligned_alloc, size_too_big, CHUNK_UNIT. rewrite Hgeo.
  replace (n =? 0) with false by lia. replace (n / 8 >=? E) with false
    by (Z.to_euclidean_division_equations; lia). cbn [orb]. cbv zeta. rewrite Hpe.
  pose proof (alloc_chunk_spec cs fl m (padded align gap n) HS Hpb Hb) as HA.
  destruct (alloc_chunk h (padded align gap n) m) as [c0 m1].
  destruct HA as [Hs [(-> & HS1 & Hex)|(fl1 & sz & HS1 & Hin & Hsz)]].
  - rewrite Z.eqb_refl. split; [done|]. left. split_and!; done.
  - pose proof (lay_pos _ _ _ _ _ (hs_lay _ _ _ _ HS1) Hin) as Hp.
    assert (chunk0 <= c0) as Hc0 by (destruct Hp as (_ & _ & [(_ & _ & ?)|?]); done).
    replace (c0 =? 0) with false by lia.
    pose proof (lay_geo _ _ (hs_lay _ _ _ _ HS1)) as Hgeo1. rewrite chunk_mem_data by done.
    destruct (aligned_place align rew gap n c0 Hao Hn Hc0 ltac:(lia)) as (Hmod & Hcr & Hpt & Hend & Hce).
    change (ROUND_UP (ROUND_UP (data c0 + rew) align - rew + n) 8)
      with (ROUND_UP (ROUND_UP (data c0 + rew) align - rew + n) CHUNK_UNIT).
    set (p := ROUND_UP (data c0 + rew) align - rew) in *. set (e := ROUND_UP (p + n) CHUNK_UNIT) in *.
    set (c := (p - hdr - h) / 8) in *. clearbody c.
    rewrite (mem_to_chunkid_data p c) by (done || lia).
    rewrite (uwrap_small 32 ((e - h) / 8)) by (change (2 ^ 32) with 4294967296; lia).
    set (ce := (e - h) / 8) in *. clearbody ce. clearbody e p.
    apply list_elem_of_split in Hin as (l1 & l2 & ->).
    destruct (cut_prefix _ _ _ _ _ _ c HS1 ltac:(lia)) as [[fl2 HS2] Hs2].
    set (m2 := if c >? c0 then _ else m1) in *. clearbody m2.
    assert ((c, c0 + sz - c, false) ∈ (l1 ++ prefix c0 c) ++ (c, c0 + sz - c, false) :: l2) as Hinc
      by (apply elem_mid; auto).
    rewrite (lay_right _ _ _ _ _ (hs_lay _ _ _ _ HS2) Hinc).
    destruct (carve_spec _ _ _ _ _ _ (ce - c) HS2 ltac:(lia)) as [[fl3 HS3] Hs3].
    unfold carve in HS3, Hs3. rewrite (lay_chunk_size _ _ _ _ _ (hs_lay _ _ _ _ HS2) Hinc) in HS3, Hs3.
    replace (c + (c0 + sz - c) >? ce) with (c0 + sz - c >? ce - c) by lia.
    replace (c + (ce - c)) with ce in HS3, Hs3 by lia.
    set (m3 := set_chunk_used h c true _) in *. clearbody m3.
    split.
    + eapply agree_trans; [exact Hs|]. eapply agree_trans.
      * eapply agree_mono; [|exact Hs2]. intros x. apply safe_mono.
        intros d s [?|?]%elem_mid _; [simplify_eq|done].
      * eapply agree_mono; [|exact Hs3]. intros x. apply safe_mono.
        intros d s [?|?]%elem_mid _; [simplify_eq|]. rewrite !elem_of_app in *. tauto.
    + right. exists (l1 ++ (prefix c0 c ++ carved c (ce - c) (c0 + sz - c)) ++ l2), c. split_and!.
      * apply aligned_taken; try done; try lia.
      * split.
        -- eapply packed_refine; [apply HS1|done|apply prefix_tiles; lia|apply prefix_packed; lia].
        -- exists fl3. by rewrite <- !app_assoc in *.
      * done.
Qed.

(** ** The arguments of an aligned allocation *)

(** The argument [align] asks for the boundary [A] and the rewind [rew]. *)
Inductive alignment : Z -> Z -> Z -> Prop :=
| align_none : alignment 0 1 0
| align_pow k : 0 <= k -> alignment (2 ^ k) (2 ^ k) 0
| align_rewind j k : 0 <= j < k -> alignment (2 ^ k + 2 ^ j) (2 ^ k) (2 ^ j).

Lemma low_bit j k : 0 <= j < k -> Z.ldiff (2 ^ k + 2 ^ j) (2 ^ k + 2 ^ j - 1) = 2 ^ j.
Proof.
  intros Hjk.
  assert (forall z, 0 <= z < 2 ^ k -> 2 ^ k + z = Z.lor (2 ^ k) z) as Hlor.
  { intros z Hz. apply Z.add_nocarry_lor, Z.bits_inj'. intros i Hi. rewrite Z.land_spec, Z.bits_0.
    destruct (decide (i = k)) as [->|Hne].
    - rewrite (bits_above k z) by lia. apply andb_false_r.
    - by rewrite Z.pow2_bits_false. }
  assert (2 ^ j < 2 ^ k) by (apply Z.pow_lt_mono_r; lia).
  assert (0 < 2 ^ j) by lia.
  replace (2 ^ k + 2 ^ j - 1) with (2 ^ k + (2 ^ j - 1)) by lia. rewrite !Hlor by lia.
  replace (2 ^ j - 1) with (Z.ones j) by (rewrite Z.ones_equiv; lia).
  apply Z.bits_inj'. intros i Hi. rewrite Z.ldiff_spec, !Z.lor_spec.
  destruct (decide (i = k)) as [->|Hk]; [|rewrite (Z.pow2_bits_false k i) by done].
  - rewrite Z.pow2_bits_true by lia. rewrite (Z.pow2_bits_false j k) by lia. done.
  - simpl. destruct (decide (i = j)) as [->|Hj].
    + rewrite Z.pow2_bits_true, Z.ones_spec_high by lia. done.
    + rewrite Z.pow2_bits_false by done. done.
Qed.

Lemma low_bit_pow k : 0 <= k -> Z.ldiff (2 ^ k) (2 ^ k - 1) = 2 ^ k.
Proof. intros Hk. rewrite ldiff_round by done. rewrite Z.div_same by lia. lia. Qed.

Lemma land_opp w x : 0 < x < 2 ^ w -> 0 <= w -> Z.land x (uwrap w (- x)) = Z.ldiff x (x - 1).
Proof.
  intros Hx Hw. rewrite Z.ldiff_land, <- Z.opp_lnot. unfold uwrap.
  replace (- (Z.lnot (x - 1) + 1) + 1) with (- Z.lnot (x - 1)) by lia.
  apply Z.bits_inj'. intros i Hi. rewrite !Z.land_spec.
  destruct (Z.lt_ge_cases i w) as [Hlt|Hge]; [|by rewrite (bits_above w x) by lia].
  rewrite Z.mod_pow2_bits_low by done. f_equal. f_equal. unfold Z.lnot. lia.
Qed.

(** The memory that the heap does not give away decides about its invariant. *)
Lemma heap_inv_frame cs m m' :
  heap_inv cs m -> agree (fun x => ~ safe cs x) m m' -> heap_inv cs m'.
Proof.
  intros [HP [fl [LA LI HL]]] Hx. split; [done|]. exists fl. pose proof geom_facts as F.
  assert (forall x, h <= x < h + 8 * E + hdr ->
    (forall c sz, (c, sz, true) ∈ cs -> chunk0 <= c -> ~ data c <= x < h + 8 * (c + sz)) -> m' x = m x) as Hown.
  { intros x Hr Hn. apply Hx. intros [?|[?|(c & sz & Hin & Hc & Hd)]]; [lia|lia|]. apply (Hn c sz Hin); [|done].
    by destruct (lay_pos _ _ _ _ _ LA Hin) as (_ & _ & [(? & _)|?]). }
  assert (agree in_meta m m') as Hmeta.
  { intros x Hi. unfold in_meta, sizeof_z_heap, sizeof_bucket in *. apply Hown; [lia|]. unfold data. lia. }
  pose proof (agree_geo _ _ (lay_geo _ _ LA) Hmeta) as Hgeo.
  assert (forall d s u, (d, s, u) ∈ cs -> agree (in_hdr d) m m') as Hh.
  { intros d s u Hin x Hi. unfold in_hdr in Hi. pose proof (lay_pos _ _ _ _ _ LA Hin).
    apply Hown; [lia|]. intros c sz Hin' Hc. unfold data. pose proof (lay_pos _ _ _ _ _ LA Hin').
    destruct (tiles_disj _ _ _ _ _ _ _ _ _ (lay_tiles _ _ LA) Hin' Hin) as [(-> & _)|Hd]; lia. }
  split; [| |done].
  - apply (lay_frame m); [done|done|done|]. intros x Hi. unfold in_hdr in Hi.
    apply Hown; [lia|]. intros c sz Hin Hc. pose proof (lay_pos _ _ _ _ _ LA Hin). unfold data. lia.
  - assert (forall b d f, 0 <= b < buckets -> d ∈ fl b -> is_header f = false ->
      chunk_field h d f m' = chunk_field h d f m) as Hf.
    { intros b d f Hb Hd Hf. apply field_frame; [apply LI|done|]. unfold fregion. rewrite Hf. intros x Hi.
      apply (HL b d Hb) in Hd as (s & Hin' & Hs & _). pose proof (lay_pos _ _ _ _ _ LA Hin') as Hp'.
      apply solo_units in Hs; [|lia]. unfold in_link in *.
      assert (2 * hdr <= 8 * min_units) as H2
        by (destruct width_cases as [(_ & _ & -> & -> & _)|(_ & _ & -> & -> & _)]; lia).
      apply Hown; [lia|]. intros c sz Hin Hc. unfold data.
      destruct (tiles_disj _ _ _ _ _ _ _ _ _ (lay_tiles _ _ LA) Hin Hin') as [(_ & _ & ?)|Hd]; [done|]. lia. }
    split; [done|intros b Hb..|apply LI|apply LI|apply LI].
    + rewrite (proj2 (meta_fields m m' b Hmeta) Hb). by apply LI.
    + rewrite (proj1 (meta_fields m m' b Hmeta)). by apply LI.
    + eapply ring_frame; [|by apply LI]. intros d Hd. split; eapply Hf; done.
Qed.

(** Memory inside the data of a used chunk belongs to its owner. *)
Lemma user_write cs m m' c sz :
  heap_inv cs m -> (c, sz, true) ∈ cs -> c <> 0 ->
  (forall x, ~ data c <= x < h + 8 * (c + sz) -> m' x = m x) -> heap_inv cs m'.
Proof.
  intros HI Hin Hc Hx. apply (heap_inv_frame _ _ _ HI). intros x Hs. apply Hx. intros Hd. apply Hs.
  right; right. by exists c, sz.
Qed.

Lemma freed_used l1 c sz l2 d s : (d, s, true) ∈ freed l1 c sz l2 <-> (d, s, true) ∈ l1 ++ l2.
Proof.
  unfold freed, join_right, join_left.
  assert (forall l1 c sz l2, (d, s, true) ∈ (let '(l1', c', sz') :=
    match reverse l1 with (d0, a, false) :: r => (reverse r, d0, a + sz) | _ => (l1, c, sz) end in
    l1' ++ (c', sz', false) :: l2) <-> (d, s, true) ∈ l1 ++ l2) as HL.
  { clear. intros l1 c sz l2. destruct (reverse l1) as [|[[d0 a] v] r] eqn:Hr.
    - rewrite elem_mid. naive_solver.
    - assert (l1 = reverse r ++ [(d0, a, v)]) as -> by (by rewrite <- (reverse_involutive l1), Hr, reverse_cons).
      destruct v; rewrite elem_mid, !elem_of_app, ?list_elem_of_singleton; naive_solver. }
  destruct l2 as [|[[d0 b] v] l2]; [apply HL|]. destruct v; rewrite HL; [done|].
  rewrite !elem_of_app, elem_of_cons. naive_solver.
Qed.

(** ** Aligned allocation, whole *)

(** The units that certainly hold [n] bytes with a boundary of [A]. *)
Definition units_for (A n : Z) : Z := (hdr + n + A + 7) / 8.

Lemma pow_dvd a b : 0 <= a <= b -> (2 ^ a | 2 ^ b).
Proof. intros H. exists (2 ^ (b - a)). rewrite <- Z.pow_add_r by lia. f_equal. lia. Qed.

Lemma hdr_pow : exists i, (i = 2 \/ i = 3) /\ hdr = 2 ^ i.
Proof. destruct width_cases as [(_ & _ & -> & _)|(_ & _ & -> & _)]; [exists 3|exists 2]; auto. Qed.

Lemma pow_lt_dvd a b : 0 <= a -> 0 <= b -> 2 ^ a <= 2 ^ b -> (2 ^ a | 2 ^ b).
Proof.
  intros Ha Hb Hle. apply pow_dvd. split; [done|]. apply Z.le_ngt. intros Hlt.
  assert (2 ^ b < 2 ^ a) by (apply Z.pow_lt_mono_r; lia). lia.
Qed.

Definition fits_address (A : Z) : Prop :=
  h + 8 * E + 2 * A + 16 <= 2 ^ (8 * sizeof_ptr) /\ A <= 2 ^ 32.

Lemma align_ok_pow k : 0 <= k -> fits_address (2 ^ k) -> hdr < 2 ^ k -> align_ok (2 ^ k) 0 hdr.
Proof.
  intros Hk [Hf Hm] Hlt. destruct hdr_pow as (i & Hi & Hh). pose proof geom_facts as F.
  assert (hdr | 2 ^ k) by (rewrite Hh in *; apply pow_lt_dvd; lia).
  assert (hdr | 8) by (rewrite Hh; change 8 with (2 ^ 3); apply pow_dvd; lia).
  split; [by exists k|lia|lia| |done|done].
  split_and!; [done|apply Z.divide_0_r|apply Z.divide_refl|done].
Qed.

Lemma align_ok_rewind j k :
  0 <= j < k -> fits_address (2 ^ k) -> align_ok (2 ^ k) (2 ^ j) (Z.min (2 ^ j) hdr).
Proof.
  intros Hjk [Hf Hm]. destruct hdr_pow as (i & Hi & Hh). pose proof geom_facts as F.
  assert (2 ^ j < 2 ^ k) by (apply Z.pow_lt_mono_r; lia).
  assert (hdr | 8) by (rewrite Hh; change 8 with (2 ^ 3); apply pow_dvd; lia).
  assert ((Z.min (2 ^ j) hdr | 2 ^ j) /\ (Z.min (2 ^ j) hdr | hdr)) as [H1 H2].
  { destruct (Z.min_spec (2 ^ j) hdr) as [[Hlt ->]|[Hle ->]]; rewrite Hh in *;
      (split; [first [apply Z.divide_refl|apply pow_lt_dvd; lia]|first [apply Z.divide_refl|apply pow_lt_dvd; lia]]). }
  split; [exists k; lia|lia|lia| |done|done].
  split_and!; [|done|done|by transitivity hdr].
  transitivity (2 ^ j); [done|]. apply pow_dvd. lia.
Qed.

Lemma padded_le A gap n : 0 < gap <= hdr -> padded A gap n <= units_for A n.
Proof. intros Hgap. unfold padded, units_for. apply Z.div_le_mono; lia. Qed.

Lemma exhausted_le cs a b : a <= b -> exhausted cs a -> exhausted cs b.
Proof. intros Hab H c sz Hin Hs. etransitivity; [by eapply H|]. by apply bidx_mono. Qed.

(** The result of an allocation with a boundary. *)
Definition alloc_result (cs : list chunk) (A rew n p : Z) (m m' : mem) : Prop :=
  agree (safe cs) m m' /\
  ((p = NULL /\ heap_inv cs m' /\ exhausted cs (units_for A n)) \/
   (exists cs' c, aligned_case cs n cs' c p /\ heap_inv cs' m' /\ (p + rew) mod A = 0)).

Lemma plain_result cs m n A :
  heap_inv cs m -> 0 < n < 8 * E -> bidx (units_for A n) < buckets -> 0 < A -> (A | hdr) ->
  let '(p, m') := sys_heap_alloc h n m in alloc_result cs A 0 n p m m'.
Proof.
  intros HI Hn Hb HA Hd. pose proof geom_facts as F.
  assert (need n <= units_for A n) as Hle by (apply Z.div_le_mono; lia).
  pose proof (bidx_mono _ _ Hle) as Hbl. pose proof (need_bounds n Hn) as [Hnb Hn8].
  pose proof (alloc_spec cs m n HI Hn ltac:(lia)) as HS. destruct (sys_heap_alloc h n m) as [p m'].
  destruct HS as [Hs [(-> & HI' & Hex)|(cs' & Hc & HI')]]; (split; [done|]).
  - left. split_and!; [done|done|]. by eapply exhausted_le.
  - right. destruct Hc as [l1 c sz l2 -> Hsz]. eexists _, c. split_and!; [|exact HI'|].
    + replace (l1 ++ carved c (need n) sz ++ l2) with
        (l1 ++ (prefix c c ++ carved c (need n) (c + sz - c)) ++ l2).
      2: { unfold prefix. replace (c >? c) with false by lia. by replace (c + sz - c) with sz by lia. }
      apply aligned_taken; [done|lia|lia|lia|unfold points_to; lia|unfold data; lia].
    + apply Z.mod_divide; [lia|]. unfold data. destruct Hg as [_ _ Hal _ _ _ _].
      destruct hdr_pow as (i & Hi & Hh). assert (A | 8).
      { transitivity hdr; [done|]. rewrite Hh. change 8 with (2 ^ 3). apply pow_dvd. lia. }
      repeat apply Z.divide_add_r; [|by apply Z.divide_mul_l|done|apply Z.divide_0_r].
      transitivity 8; [done|]. apply Z.mod_divide; lia.
Qed.

Lemma padded_result cs m A rew gap n :
  heap_inv cs m -> align_ok A rew gap -> 0 < n < 8 * E -> bidx (units_for A n) < buckets ->
  let '(p, m') := aligned_alloc h A rew gap n m in alloc_result cs A rew n p m m'.
Proof.
  intros HI Hao Hn Hb. pose proof (padded_le A gap n (ao_gap _ _ _ Hao)) as Hle. pose proof (bidx_mono _ _ Hle).
  pose proof (aligned_alloc_spec cs m A rew gap n HI Hao Hn ltac:(lia)) as HS.
  destruct (aligned_alloc h A rew gap n m) as [p m'].
  destruct HS as [Hs [(-> & HI' & Hex)|HR]]; (split; [done|]); [left|by right].
  split_and!; [done|done|]. by eapply exhausted_le.
Qed.

Lemma aligned_spec cs m align A rew n :
  heap_inv cs m -> alignment align A rew -> fits_address A -> 0 < n < 8 * E ->
  bidx (units_for A n) < buckets ->
  let '(p, m') := sys_heap_aligned_alloc h align n m in alloc_result cs A rew n p m m'.
Proof.
  intros HI Hal Hfit Hn Hb. pose proof geom_facts as F. destruct Hfit as [Hf Hm].
  assert (geo m) as Hgeo by (destruct HI as [_ [fl HS]]; apply HS).
  unfold sys_heap_aligned_alloc. rewrite header_bytes by done.
  assert (0 <= 8 * sizeof_ptr) as Hp by (destruct Hg as [[-> | ->] _ _ _ _ _ _]; lia).
  destruct Hal as [|k Hk|j k Hjk].
  - cbn [Z.land]. rewrite Z.eqb_refl. cbn [negb]. replace (0 <=? hdr) with true by lia.
    apply plain_result; [done|done|done|lia|apply Z.divide_1_l].
  - unfold usize. rewrite land_opp, low_bit_pow by lia. rewrite Z.eqb_refl. cbn [negb].
    destruct (2 ^ k <=? hdr) eqn:Ek.
    + apply plain_result; [done|done|done|lia|]. destruct hdr_pow as (i & Hi & Hh). rewrite Hh in *.
      apply pow_lt_dvd; lia.
    + apply padded_result; [done| |done|done]. apply align_ok_pow; [done|done|lia].
  - assert (2 ^ j < 2 ^ k) by (apply Z.pow_lt_mono_r; lia). assert (0 < 2 ^ j) by lia.
    unfold usize. rewrite land_opp, low_bit by lia.
    replace (2 ^ k + 2 ^ j =? 2 ^ j) with false by lia. cbn [negb].
    replace (2 ^ k + 2 ^ j - 2 ^ j) with (2 ^ k) by lia.
    apply padded_result; [done| |done|done]. by apply align_ok_rewind.
Qed.

(** ** Reallocation *)

Lemma shrink_spec l1 c sz l2 m a :
  heap_inv (l1 ++ (c, sz, true) :: l2) m -> c <> 0 -> min_units <= a < sz ->
  let m' := free_chunk h (c + a) (set_chunk_used h c true (split_chunks h c (c + a) m)) in
  heap_inv (freed (l1 ++ [(c, a, true)]) (c + a) (sz - a) l2) m' /\
  agree (safe (l1 ++ (c, a, true) :: l2)) m m'.
Proof.
  intros [HP [fl HS]] Hc Ha. cbv zeta. pose proof geom_facts as F.
  assert ((c, sz, true) ∈ l1 ++ (c, sz, true) :: l2) as Hin by (apply elem_mid; auto).
  pose proof (lay_pos _ _ _ _ _ (hs_lay _ _ _ _ HS) Hin) as Hp.
  pose proof (hs_take _ _ _ _ _ _ HS Hin) as HS0.
  destruct (hs_split [] _ _ _ _ _ _ _ a HS0 Hc ltac:(lia)) as [HS1 Hs1].
  destruct (hs_used [c + a] _ _ _ _ _ _ _ true HS1 Hc) as [HS2 Hs2].
  set (m2 := set_chunk_used h c true (split_chunks h c (c + a) m)) in *.
  apply hs_drop with (sz := a) in HS2; [|apply elem_mid; by left].
  replace (l1 ++ (c, a, true) :: (c + a, sz - a, false) :: l2) with
    ((l1 ++ [(c, a, true)]) ++ (c + a, sz - a, false) :: l2) in HS2 by (by rewrite <- app_assoc).
  destruct (free_chunk_spec _ _ _ _ _ _ HS2) as [HI Hs3]; [lia| |].
  - rewrite <- app_assoc. cbn [app].
    assert (forall x, x ∈ l1 ++ l2 -> x ∈ l1 ++ (c, sz, true) :: l2) as Hold by (intros; apply elem_mid; auto).
    split.
    + intros d s s' [?|H1]%elem_mid [?|H2]%elem_mid; simplify_eq. apply (pk_coal _ HP d s s'); by apply Hold.
    + intros d s [?|H1]%elem_mid; [simplify_eq; lia|]. eapply (pk_used _ HP d). by apply Hold.
  - split; [done|]. eapply agree_trans; [exact Hs1|]. eapply agree_trans.
    + eapply agree_mono; [|exact Hs2]. intros x. apply safe_mono.
      intros d s H1 _. rewrite elem_mid2. apply elem_mid in H1. tauto.
    + eapply agree_mono; [|exact Hs3]. intros x. by rewrite <- app_assoc.
Qed.

(** The code of the expanding branch. *)
Definition expand (c rc split_size : Z) (m : mem) : mem :=
  let m := free_list_remove h rc m in
  let m := if split_size <? chunk_size h rc m
           then free_list_add h (rc + split_size) (split_chunks h rc (rc + split_size) m) else m in
  set_chunk_used h c true (merge_chunks h c rc m).

Definition rest_of (c a sz : Z) : list chunk := if a <? sz then [(c + a, sz - a, false)] else [].

Lemma take_right l1 c sz b l2 fl m a :
  hstate [] (l1 ++ (c, sz, true) :: (c + sz, b, false) :: l2) fl m -> c <> 0 -> 0 < a <= b ->
  let m1 := free_list_remove h (c + sz) m in
  let m2 := if a <? chunk_size h (c + sz) m1
            then free_list_add h (c + sz + a) (split_chunks h (c + sz) (c + sz + a) m1) else m1 in
  (exists fl', hstate [c + sz] (l1 ++ (c, sz, true) :: (c + sz, a, false) :: rest_of (c + sz) a b ++ l2) fl' m2) /\
  agree (safe (l1 ++ (c, sz, true) :: l2)) m m2.
Proof.
  intros HS Hc Ha. cbv zeta. pose proof geom_facts as F.
  assert ((c + sz, b, false) ∈ l1 ++ (c, sz, true) :: (c + sz, b, false) :: l2) as Hin by (apply elem_mid2; auto).
  assert ((c, sz, true) ∈ l1 ++ (c, sz, true) :: (c + sz, b, false) :: l2) as Hinc by (apply elem_mid2; auto).
  pose proof (lay_pos _ _ _ _ _ (hs_lay _ _ _ _ HS) Hin) as Hp.
  pose proof (lay_pos _ _ _ _ _ (hs_lay _ _ _ _ HS) Hinc) as Hpc.
  destruct (hs_remove [] _ _ _ _ _ HS Hin) as (fl1 & HS1 & Hs1); [apply not_elem_of_nil|].
  set (m1 := free_list_remove h (c + sz) m) in *.
  rewrite (lay_chunk_size _ _ _ _ _ (hs_lay _ _ _ _ HS1) Hin). unfold rest_of.
  assert (agree (safe (l1 ++ (c, sz, true) :: l2)) m m1) as Hs1'.
  { eapply agree_mono; [|exact Hs1]. intros x. apply safe_mono. intros d s H1 _. rewrite elem_mid2. apply elem_mid in H1. tauto. }
  destruct (a <? b) eqn:E1.
  - replace (l1 ++ (c, sz, true) :: (c + sz, b, false) :: l2) with
      ((l1 ++ [(c, sz, true)]) ++ (c + sz, b, false) :: l2) in HS1 by (by rewrite <- app_assoc).
    destruct (hs_split [] _ _ _ _ _ _ _ a HS1 ltac:(lia) ltac:(lia)) as [HS2 Hs2].
    set (m2 := split_chunks h (c + sz) (c + sz + a) m1) in *.
    apply (hs_equiv _ [c + sz + a; c + sz]) in HS2; [|by apply Permutation_swap].
    destruct (hs_add [c + sz] _ _ _ (c + sz + a) (b - a) HS2) as (fl3 & HS3 & Hs3).
    { apply elem_mid2. auto. } { rewrite list_elem_of_singleton. lia. }
    split; [exists fl3; by rewrite <- app_assoc in HS3|].
    eapply agree_trans; [exact Hs1'|]. eapply agree_trans.
    + eapply agree_mono; [|exact Hs2]. intros x. apply safe_mono. intros d s H1 _.
      rewrite elem_mid, <- app_assoc. auto.
    + eapply agree_mono; [|exact Hs3]. intros x. apply safe_mono. intros d s H1 _.
      rewrite elem_mid2, <- app_assoc. auto.
  - assert (a = b) as -> by lia. cbn [app]. split; [by exists fl1|done].
Qed.

Lemma expand_spec l1 c sz b l2 m a :
  heap_inv (l1 ++ (c, sz, true) :: (c + sz, b, false) :: l2) m -> c <> 0 -> 0 < a <= b ->
  let m' := expand c (c + sz) a m in
  heap_inv (l1 ++ (c, sz + a, true) :: rest_of (c + sz) a b ++ l2) m' /\
  agree (safe (l1 ++ (c, sz, true) :: l2)) m m'.
Proof.
  intros [HP [fl HS]] Hc Ha. cbv zeta. unfold expand.
  destruct (take_right _ _ _ _ _ _ _ a HS Hc Ha) as [[fl1 HS1] Hs1].
  set (m2 := if a <? chunk_size h (c + sz) (free_list_remove h (c + sz) m) then _ else _) in *.
  clearbody m2. apply hs_take with (c := c) (sz := sz) in HS1; [|apply elem_mid2; auto].
  destruct (hs_merge _ _ _ _ _ _ _ _ _ HS1 Hc) as (HS2 & Hs2 & _).
  destruct (hs_used [] _ _ _ _ _ _ _ true HS2 Hc) as [HS3 Hs3].
  apply hs_drop with (sz := sz + a) in HS3; [|apply elem_mid; by left].
  assert ((c + sz, b, false) ∈ l1 ++ (c, sz, true) :: (c + sz, b, false) :: l2) as Hin by (apply elem_mid2; auto).
  assert (forall x, x ∈ l1 ++ l2 -> x ∈ l1 ++ (c, sz, true) :: (c + sz, b, false) :: l2) as Hold
    by (intros; apply elem_mid2; auto).
  assert (forall x, x ∈ l1 ++ rest_of (c + sz) a b ++ l2 -> x ∈ l1 ++ l2 \/ (x = (c + sz + a, b - a, false) /\ a < b)) as Hnew.
  { intros x. unfold rest_of. rewrite !elem_of_app. destruct (a <? b) eqn:E1.
    - rewrite list_elem_of_singleton. intuition lia.
    - rewrite elem_of_nil. tauto. }
  split; [split; [split|eauto]|].
  - intros d s s' [?|[H1|[H1 Hab]]%Hnew]%elem_mid [?|[H2|[H2 Hab']]%Hnew]%elem_mid; simplify_eq.
    + apply (pk_coal _ HP d s s'); by apply Hold.
    + replace ((l1 ++ (c, sz, true) :: (c + sz, b, false) :: l2)) with
        ((l1 ++ [(c, sz, true)]) ++ (c + sz, b, false) :: l2) in HS by (by rewrite <- app_assoc).
      pose proof (rest_apart _ _ _ _ _ _ d s false (hs_lay _ _ _ _ HS)) as HR.
      assert ((d, s, false) ∈ (l1 ++ [(c, sz, true)]) ++ l2) as HR' by (rewrite <- app_assoc; apply elem_mid; auto).
      specialize (HR HR'). lia.
    + apply (pk_coal _ HP (c + sz) b s'); [done|]. apply Hold.
      by replace (c + sz + b) with (c + sz + a + (b - a)) by lia.
    + lia.
  - assert (min_units <= sz) as Hmin by (eapply (pk_used _ HP c); apply elem_mid2; auto).
    intros d s [?|[H1|[H1 Hab]]%Hnew]%elem_mid; simplify_eq; [lia|]. eapply (pk_used _ HP d). by apply Hold.
  - assert (forall d s, (d, s, true) ∈ l1 ++ l2 -> (d, s, true) ∈ l1 ++ rest_of (c + sz) a b ++ l2) as Hu.
    { intros d s. rewrite !elem_of_app. tauto. }
    eapply agree_trans; [exact Hs1|]. eapply agree_trans.
    + eapply agree_mono; [|exact Hs2]. intros x. apply safe_mono. intros d s [?|H1]%elem_mid _; apply elem_mid; auto.
    + intros x Hx. apply Hs3. destruct Hx as [Hx|[Hx|(d & s & [?|H1]%elem_mid & Hd & Hx)]]; [by left|by right; left| |].
      * simplify_eq. right; right. exists c, (sz + a). split_and!; [apply elem_mid; auto|done|lia|lia].
      * right; right. exists d, s. split_and!; [apply elem_mid; auto|done|lia|lia].
Qed.

End Api.
End HeapApi.
