(* ===== verification/HeapSpec.v ===== *)
(** Reallocation and the theorems about the heap functions (lib/os/heap.c).

    The statements are about a heap with the chunks [cs]; [used cs] are the
    blocks its clients own.  They cover every call of [sys_heap_alloc],
    [sys_heap_aligned_alloc], [sys_heap_free] and [sys_heap_aligned_realloc]
    on a heap made by [sys_heap_init]. *)
From stdpp Require Import sets.
From S2P Require Import Prelude Mem Heap HeapInv HeapThm HeapApi.

Module HeapSpec.
Import Heap HeapInv HeapThm HeapApi.

Section Spec.
Context {cfg : heap_config} {g : geometry} {Hg : geometry_ok}.

#[local] Abbreviation h := base.
#[local] Abbreviation E := units.

(** ** Reallocation *)

(** The block of the chunk [c] was moved to [p'] with room for [n] bytes: its
    first bytes and everything the other used chunks hold are kept. *)
Definition realloc_done (l1 : list chunk) (c sz : Z) (l2 : list chunk) (p n p' : Z) (m m' : mem) : Prop :=
  exists cs' c' sz', heap_inv cs' m' /\ (c', sz', true) ∈ cs' /\ c' <> 0 /\
    points_to p' c' /\ p' + n <= h + 8 * (c' + sz') /\
    (forall d s, (d, s, true) ∈ l1 ++ l2 -> (d, s, true) ∈ cs') /\
    agree (safe (l1 ++ l2)) m m' /\
    (forall i, 0 <= i < n -> p + i < h + 8 * (c + sz) -> m' (p' + i) = m (p + i)).

Lemma aligned_case_facts cs n cs' c p m m' :
  lay m cs -> lay m' cs' -> aligned_case cs n cs' c p ->
  exists a, (c, a, true) ∈ cs' /\ c <> 0 /\ points_to p c /\ p + n <= h + 8 * (c + a) /\
    (forall d s, (d, s, true) ∈ cs -> (d, s, true) ∈ cs' /\ d <> c).
Proof.
  intros LA LA' [l1 c0 sz l2 c1 a q -> Hc Ha Hmin Hp Hend]. pose proof geom_facts as F. exists a.
  assert ((c0, sz, false) ∈ l1 ++ (c0, sz, false) :: l2) as Hin by (apply elem_mid; auto).
  pose proof (lay_pos _ _ _ _ _ LA Hin) as Hpos.
  assert (chunk0 <= c0) as Hc0 by (destruct Hpos as (_ & _ & [(_ & _ & ?)|?]); done).
  split_and!; [|lia|done|done|].
  - rewrite !elem_of_app. unfold carved. rewrite elem_of_cons. auto.
  - intros d s [?|Hd]%elem_mid; [simplify_eq|]. pose proof (rest_apart _ _ _ _ _ _ _ _ _ LA Hd).
    split; [|lia]. rewrite !elem_of_app in *. tauto.
Qed.

Lemma prev_size_eq c sz p m :
  geo m -> min_units <= sz -> 0 <= c -> c + sz <= E -> 8 * E < 2 ^ 32 -> points_to p c -> p < h + 8 * (c + sz) ->
  usize (chunksz_to_bytes h sz m - (p - data c)) = h + 8 * (c + sz) - p.
Proof.
  intros Hm Hs Hc He H32 Hp Hlt. pose proof geom_facts as F. unfold chunksz_to_bytes, CHUNK_UNIT, points_to, data in *.
  rewrite header_bytes by done.
  assert (hdr <= 8 * sz) by (destruct width_cases as [(_ & _ & -> & HU & _)|(_ & _ & -> & HU & _)]; rewrite HU in *; lia).
  rewrite (uwrap_small 32) by lia. rewrite (usize_fit (sz * 8 - hdr)) by lia. rewrite usize_fit by lia. lia.
Qed.

Lemma realloc_copy_spec l1 c sz l2 m p align A rew n :
  heap_inv (l1 ++ (c, sz, true) :: l2) m -> c <> 0 -> points_to p c -> p < h + 8 * (c + sz) ->
  alignment align A rew -> fits_address A -> 0 < n < 8 * E -> bidx (units_for A n) < buckets ->
  8 * E < 2 ^ 32 ->
  let '(p', m') := realloc_copy h p (p - data c) align n m in
  (p' = NULL /\ heap_inv (l1 ++ (c, sz, true) :: l2) m' /\ agree (safe (l1 ++ (c, sz, true) :: l2)) m m') \/
  (realloc_done l1 c sz l2 p n p' m m' /\ (p' + rew) mod A = 0).
Proof.
  intros HI Hc Hp Hlt Hal Hfit Hn Hb H32. pose proof geom_facts as F.
  set (cs := l1 ++ (c, sz, true) :: l2) in *.
  assert ((c, sz, true) ∈ cs) as Hin by (apply elem_mid; auto).
  pose proof (pk_used _ (proj1 HI) _ _ Hin) as Hmin.
  pose proof HI as [_ [fl [LA _ _]]]. pose proof (lay_pos _ _ _ _ _ LA Hin) as Hpos.
  unfold realloc_copy. rewrite (mem_to_chunkid_data p c) by (apply LA || lia || done).
  pose proof (aligned_spec cs m align A rew n HI Hal Hfit Hn Hb) as HR.
  destruct (sys_heap_aligned_alloc h align n m) as [p2 m1].
  destruct HR as [Hs [(-> & HI1 & _)|(cs2 & c2 & Hcase & HI2 & Hmod)]]; [left; done|].
  pose proof HI2 as [_ [fl2 [LA2 _ _]]].
  destruct (aligned_case_facts _ _ _ _ _ _ _ LA LA2 Hcase) as (a & Hin2 & Hc2 & Hp2 & Hend2 & Hkeep).
  pose proof (lay_pos _ _ _ _ _ LA2 Hin2) as Hpos2.
  pose proof (points_nonnull p2 c2 ltac:(lia) Hp2) as Hnn. replace (p2 =? NULL) with false by lia. cbn [negb].
  destruct (Hkeep _ _ Hin) as [HinC Hne].
  rewrite (lay_chunk_size _ _ _ _ _ LA2 HinC), (prev_size_eq c) by (apply LA2 || done || lia).
  set (k := Z.min (h + 8 * (c + sz) - p) n). set (m2 := memcpy p2 p k m1).
  assert (heap_inv cs2 m2) as HI3.
  { eapply user_write; [exact HI2|exact Hin2|done|]. intros x Hx. apply memcpy_other. unfold points_to in Hp2. lia. }
  pose proof (list_elem_of_split _ _ HinC) as (l1' & l2' & Heq). rewrite Heq in HI3.
  destruct (free_spec l1' c sz l2' m2 p HI3 Hc Hp) as [HI4 Hs4].
  assert (forall d s, (d, s, true) ∈ cs2 -> d <> c -> (d, s, true) ∈ l1' ++ l2') as Hrest.
  { intros d s Hd Hdc. rewrite Heq in Hd. apply elem_mid in Hd as [?|?]; [simplify_eq|done]. }
  assert (forall x, safe (l1 ++ l2) x -> safe cs x) as Hsub by (intros x; apply (safe_sub l1 l2 [_])).
  assert (forall x, safe (l1 ++ l2) x -> ~ p2 <= x < p2 + k) as Hout.
  { intros x Hx Hx2. unfold points_to, data in Hp2.
    destruct Hx as [Hx|[Hx|(d & s & Hd & Hd0 & Hx)]]; [lia|lia|].
    assert ((d, s, true) ∈ cs) as Hd' by (apply elem_mid; auto). destruct (Hkeep _ _ Hd') as [Hd2 Hdne].
    destruct (tiles_disj _ _ _ _ _ _ _ _ _ (lay_tiles _ _ LA2) Hin2 Hd2) as [(? & _)|Hdis]; [done|]. lia. }
  right. split; [|done]. exists (freed l1' c sz l2'), c2, a. split_and!; try done.
  - apply freed_used. apply Hrest; [done|auto].
  - intros d s Hd. apply freed_used. pose proof (rest_apart _ _ _ _ _ _ _ _ _ LA Hd).
    apply Hrest; [|lia]. apply Hkeep. apply elem_mid. auto.
  - intros x Hx. rewrite Hs4.
    + unfold m2. rewrite memcpy_other by auto. apply Hs. auto.
    + eapply safe_mono; [|exact Hx]. intros d s Hd _. pose proof (rest_apart _ _ _ _ _ _ _ _ _ LA Hd).
      apply Hrest; [|lia]. apply Hkeep. apply elem_mid. auto.
  - intros i Hi Hpi. unfold points_to, data in *. rewrite Hs4.
    + unfold m2, memcpy. replace (p2 <=? p2 + i) with true by lia. replace (p2 + i <? p2 + k) with true by lia.
      cbn [andb]. replace (p + (p2 + i - p2)) with (p + i) by lia. apply Hs. right; right. exists c, sz. split_and!; [done|done|lia|lia].
    + right; right. exists c2, a. split_and!; [apply Hrest; auto|done|lia|lia].
Qed.

(** The units that [n] bytes from [p] on take in the chunk [c]. *)
Definition need_at (p c n : Z) : Z := (hdr + (n + (p - data c)) + 7) / 8.

Lemma need_at_eq p c n m A :
  geo m -> fits_address A -> 0 < A -> 0 < n < 8 * E -> points_to p c ->
  bytes_to_chunksz h (usize (n + (p - data c))) m = need_at p c n /\
  min_units <= need_at p c n <= E + 2 /\ p + n <= h + 8 * (c + need_at p c n).
Proof.
  intros Hm [Hf _] HA Hn Hp. pose proof geom_facts as F. destruct Hg as [_ _ Hal _ _ _ _].
  assert (8 <= h) as Hh8 by (Z.to_euclidean_division_equations; lia).
  unfold points_to in Hp. unfold need_at. remember (p - data c) as gp eqn:Hgp'. assert (0 <= gp < 8) as Hgp by lia.
  assert (p = h + 8 * c + hdr + gp) as Hpe by (unfold data in *; lia). clear Hgp' Hp.
  assert (forall x, 0 <= x <= 8 * E + 25 -> usize x = x) as Hu by (intros x Hx; apply uwrap_small; lia).
  unfold bytes_to_chunksz, chunksz, CHUNK_UNIT. rewrite header_bytes by done.
  rewrite (Hu (n + gp)), (Hu (hdr + (n + gp))) by lia.
  replace (hdr + (n + gp) + 8 - 1) with (hdr + (n + gp) + 7) by lia. rewrite Hu by lia.
  assert (min_units <= (hdr + (n + gp) + 7) / 8 <= E + 2) as Hb.
  { destruct width_cases as [(_ & _ & -> & -> & _)|(_ & _ & -> & -> & _)]; Z.to_euclidean_division_equations; lia. }
  split_and!; [|lia|lia|Z.to_euclidean_division_equations; lia].
  apply uwrap_small. change (2 ^ 32) with 4294967296. lia.
Qed.

Lemma misaligned_false align A p :
  alignment align A 0 -> 0 <= p ->
  negb (align =? 0) && negb (Z.land p (align - 1) =? 0) = false -> (p + 0) mod A = 0 /\ 0 < A.
Proof.
  intros Hal Hp Hb. rewrite Z.add_0_r. inversion Hal as [|k Hk Ha|j k Hjk]; subst.
  - split; [apply Z.mod_1_r|lia].
  - replace (2 ^ k =? 0) with false in Hb by lia. cbn [negb andb] in Hb.
    apply negb_false_iff, Z.eqb_eq in Hb. split; [|lia].
    rewrite <- Z.land_ones by done. rewrite Z.ones_equiv. by replace (Z.pred (2 ^ k)) with (2 ^ k - 1) by lia.
  - assert (0 < 2 ^ j) by lia. lia.
Qed.

Lemma realloc_same l1 c sz l2 m p n :
  heap_inv (l1 ++ (c, sz, true) :: l2) m -> c <> 0 -> points_to p c -> p + n <= h + 8 * (c + sz) ->
  realloc_done l1 c sz l2 p n p m m.
Proof.
  intros HI Hc Hp He. exists (l1 ++ (c, sz, true) :: l2), c, sz. split_and!; try done.
  - apply elem_mid. auto.
  - intros d s Hd. apply elem_mid. auto.
Qed.

Lemma realloc_shrink l1 c sz l2 m p n a :
  heap_inv (l1 ++ (c, sz, true) :: l2) m -> c <> 0 -> points_to p c -> min_units <= a < sz ->
  p + n <= h + 8 * (c + a) ->
  realloc_done l1 c sz l2 p n p m (free_chunk h (c + a) (set_chunk_used h c true (split_chunks h c (c + a) m))).
Proof.
  intros HI Hc Hp Ha He. destruct (shrink_spec _ _ _ _ _ a HI Hc Ha) as [HI' Hs].
  eexists _, c, a. split_and!; [exact HI'| |done|done|done| | |].
  - apply freed_used. rewrite <- app_assoc. apply elem_mid. auto.
  - intros d s Hd. apply freed_used. rewrite <- app_assoc. apply elem_mid. auto.
  - eapply agree_mono; [|exact Hs]. intros x. apply (safe_sub l1 l2 [_]).
  - intros i Hi Hpi. apply Hs. right; right. exists c, a. unfold points_to, data in *.
    split_and!; [apply elem_mid; auto|done|lia|lia].
Qed.

Lemma realloc_expand l1 c sz b l2 m p n a :
  heap_inv (l1 ++ (c, sz, true) :: (c + sz, b, false) :: l2) m -> c <> 0 -> points_to p c -> sz < a <= sz + b ->
  p + n <= h + 8 * (c + a) ->
  realloc_done l1 c sz ((c + sz, b, false) :: l2) p n p m (expand c (c + sz) (a - sz) m).
Proof.
  intros HI Hc Hp Ha He. destruct (expand_spec _ _ _ _ _ _ (a - sz) HI Hc ltac:(lia)) as [HI' Hs].
  replace (sz + (a - sz)) with a in HI' by lia.
  assert (forall d s, (d, s, true) ∈ l1 ++ (c + sz, b, false) :: l2 -> (d, s, true) ∈ l1 ++ l2) as Hold.
  { intros d s [?|?]%elem_mid; [simplify_eq|done]. }
  eexists _, c, a. split_and!; [exact HI'| |done|done|done| | |].
  - apply elem_mid. auto.
  - intros d s Hd%Hold. apply elem_mid. right. rewrite !elem_of_app in *. tauto.
  - eapply agree_mono; [|exact Hs]. intros x. apply safe_mono. intros d s Hd _. apply elem_mid. auto.
  - intros i Hi Hpi. apply Hs. right; right. exists c, sz. unfold points_to, data in *.
    split_and!; [apply elem_mid; auto|done|lia|lia].
Qed.

(** The heap, the block and the arguments of a reallocation. *)
Record realloc_args (l1 : list chunk) (c sz : Z) (l2 : list chunk) (m : mem) (p align A n : Z) : Prop := {
  ra_inv : heap_inv (l1 ++ (c, sz, true) :: l2) m;
  ra_block : c <> 0 /\ points_to p c /\ p < h + 8 * (c + sz);
  ra_align : alignment align A 0 /\ fits_address A;
  ra_size : 0 < n < 8 * E /\ bidx (units_for A n) < buckets;
  ra_heap : 8 * E < 2 ^ 32
}.

Lemma realloc_spec l1 c sz l2 m p align A n :
  realloc_args l1 c sz l2 m p align A n ->
  let '(p', m') := sys_heap_aligned_realloc h p align n m in
  (p' = NULL /\ heap_inv (l1 ++ (c, sz, true) :: l2) m' /\ agree (safe (l1 ++ (c, sz, true) :: l2)) m m') \/
  (realloc_done l1 c sz l2 p n p' m m' /\ (p' + 0) mod A = 0).
Proof.
  intros [HI (Hc & Hp & Hlt) (Hal & Hfit) (Hn & Hb) H32]. pose proof geom_facts as F.
  set (cs := l1 ++ (c, sz, true) :: l2) in *.
  assert ((c, sz, true) ∈ cs) as Hin by (apply elem_mid; auto).
  pose proof HI as [HP [fl [LA _ _]]]. pose proof (lay_geo _ _ LA) as Hgeo.
  pose proof (lay_pos _ _ _ _ _ LA Hin) as Hpos.
  pose proof (points_nonnull p c ltac:(lia) Hp) as Hnn.
  assert (0 <= p) as Hp0 by (unfold points_to, data in Hp; lia).
  pose proof (realloc_copy_spec l1 c sz l2 m p align A 0 n HI Hc Hp Hlt Hal Hfit Hn Hb H32) as Hcopy.
  unfold sys_heap_aligned_realloc, size_too_big, CHUNK_UNIT. replace (p =? NULL) with false by lia.
  replace (n =? 0) with false by lia. rewrite Hgeo. replace (n / 8 >=? E) with false
    by (Z.to_euclidean_division_equations; lia). cbv zeta.
  rewrite (mem_to_chunkid_data p c) by (done || lia). rewrite chunk_mem_data by done.
  destruct (negb (align =? 0) && negb (Z.land p (align - 1) =? 0)) eqn:Emis; [done|].
  destruct (misaligned_false _ _ _ Hal Hp0 Emis) as [Hmod HA].
  destruct (need_at_eq p c n m A Hgeo Hfit HA Hn Hp) as (-> & Hneed & Hend).
  rewrite (lay_chunk_size _ _ _ _ _ LA Hin), (lay_right _ _ _ _ _ LA Hin).
  destruct (sz =? need_at p c n) eqn:E1.
  { apply Z.eqb_eq in E1. rewrite <- E1 in Hend. right. split; [by apply realloc_same|done]. }
  destruct (sz >? need_at p c n) eqn:E2.
  { right. split; [apply realloc_shrink; try done; lia|done]. }
  destruct l2 as [|[[d b] v] l2].
  { assert (c + sz = E) as He.
    { pose proof (lay_tiles _ _ LA) as Ht. apply tiles_app in Ht as (x & _ & Ht). simpl in Ht. lia. }
    rewrite He, (lay_end_used _ _ LA). cbn [negb andb]. exact Hcopy. }
  assert (d = c + sz) as ->.
  { pose proof (lay_tiles _ _ LA) as Ht. apply tiles_app in Ht as (x & _ & Ht). simpl in Ht. lia. }
  assert ((c + sz, b, v) ∈ cs) as Hin' by (apply elem_mid2; auto).
  pose proof (lay_pos _ _ _ _ _ LA Hin') as Hpos'.
  rewrite (lay_chunk_used _ _ _ _ _ LA Hin'), (lay_chunk_size _ _ _ _ _ LA Hin').
  rewrite (uwrap_small 32 (sz + b)) by (change (2 ^ 32) with 4294967296; lia).
  destruct v; cbn [negb andb]; [exact Hcopy|].
  destruct (sz + b >=? need_at p c n) eqn:E3; [|exact Hcopy].
  right. split; [|done]. fold (expand c (c + sz) (need_at p c n - sz) m).
  apply realloc_expand; try done. lia.
Qed.

(** ** Initialisation *)

Lemma clear_buckets_spec n i m :
  geo m -> 0 <= i -> i + Z.of_nat n <= buckets ->
  (forall b, 0 <= b < i -> bucket_next h b m = 0) ->
  let m' := clear_buckets h i n m in
  geo m' /\ avail_buckets h m' = avail_buckets h m /\
  (forall b, 0 <= b < i + Z.of_nat n -> bucket_next h b m' = 0) /\ (forall x, ~ in_meta x -> m' x = m x).
Proof.
  revert i m. induction n as [|n IH]; intros i m Hm Hi Hn Hz; cbn [clear_buckets].
  { split_and!; try done. intros b Hb. apply Hz. lia. }
  assert (0 <= i < buckets) as Hib by lia. assert (0 <= 0 < 2 ^ 32) as H0 by lia.
  destruct (bucket_write i 0 m Hm Hib H0) as (Hm1 & Hb1 & Ha1 & Hb1' & Hx1).
  destruct (IH (i + 1) _ Hm1 ltac:(lia) ltac:(lia)) as (Hm2 & Ha2 & Hb2 & Hx2).
  { intros b Hb. destruct (decide (b = i)) as [->|Hne]; [done|]. rewrite Hb1' by done. apply Hz. lia. }
  split_and!; [done|congruence|intros b Hb; apply Hb2; lia|].
  intros x Hx. by rewrite Hx2, Hx1.
Qed.

(** The chunks of a new heap. *)
Definition initial : list chunk := [(0, chunk0, true); (chunk0, E - chunk0, false)].

(** The header writes of [sys_heap_init()]. *)
Definition init_headers (m : mem) : mem :=
  let m := set_chunk_size h 0 chunk0 m in
  let m := set_left_chunk_size h 0 0 m in
  let m := set_chunk_used h 0 true m in
  let m := set_chunk_size h chunk0 (E - chunk0) m in
  let m := set_left_chunk_size h chunk0 chunk0 m in
  let m := set_chunk_size h E 0 m in
  let m := set_left_chunk_size h E (E - chunk0) m in
  set_chunk_used h E true m.

Lemma init_headers_lay m :
  geo m -> lay (init_headers m) initial /\ only_hdrs [0; 0; 0; chunk0; chunk0; E; E; E] m (init_headers m).
Proof.
  intros Hm. pose proof geom_facts as F.
  assert (writable 0 SIZE_AND_USED /\ writable 0 LEFT_SIZE) as [W00 W01] by (split; right; done).
  assert (forall f, writable chunk0 f /\ writable E f) as HW by (intros f; split; left; lia).
  unfold init_headers. cbv zeta.
  assert (0 <= chunk0 < field_max /\ 0 <= E - chunk0 < field_max /\ 0 <= 0 < field_max) as (R1 & R2 & R3) by lia.
  pose proof (set_size_wrote 0 chunk0 m Hm W00 R1) as W1. set (m1 := set_chunk_size h 0 chunk0 m) in *.
  pose proof (set_left_wrote 0 0 m1 (wr_geo _ _ _ _ _ W1) W01 R3) as W2. set (m2 := set_left_chunk_size h 0 0 m1) in *.
  assert (wrote 0 SIZE_AND_USED (2 * chunk0 + b2z true) m2 (set_chunk_used h 0 true m2)) as W3.
  { apply (set_used_wrote _ _ false); [apply W2|done|lia|].
    rewrite (wr_field _ _ _ _ _ W2), (wr_val _ _ _ _ _ W1) by field_ne. simpl. lia. }
  set (m3 := set_chunk_used h 0 true m2) in *.
  pose proof (set_size_wrote chunk0 (E - chunk0) m3 (wr_geo _ _ _ _ _ W3) (proj1 (HW _)) R2) as W4.
  set (m4 := set_chunk_size h chunk0 (E - chunk0) m3) in *.
  pose proof (set_left_wrote chunk0 chunk0 m4 (wr_geo _ _ _ _ _ W4) (proj1 (HW _)) R1) as W5.
  set (m5 := set_left_chunk_size h chunk0 chunk0 m4) in *.
  pose proof (set_size_wrote E 0 m5 (wr_geo _ _ _ _ _ W5) (proj2 (HW _)) R3) as W6.
  set (m6 := set_chunk_size h E 0 m5) in *.
  pose proof (set_left_wrote E (E - chunk0) m6 (wr_geo _ _ _ _ _ W6) (proj2 (HW _)) R2) as W7.
  set (m7 := set_left_chunk_size h E (E - chunk0) m6) in *.
  assert (wrote E SIZE_AND_USED (2 * 0 + b2z true) m7 (set_chunk_used h E true m7)) as W8.
  { apply (set_used_wrote _ _ false); [apply W7|apply HW|lia|].
    rewrite (wr_field _ _ _ _ _ W7), (wr_val _ _ _ _ _ W6) by field_ne. done. }
  set (m8 := set_chunk_used h E true m7) in *. clearbody m1 m2 m3 m4 m5 m6 m7 m8. split.
  - split; [apply W8|simpl; lia|by eexists| | | |].
    + intros c sz u. unfold initial. rewrite !elem_of_cons, elem_of_nil. intros [?|[?|[]]]; simplify_eq.
      * rewrite (wr_field _ _ _ _ _ W8), (wr_field _ _ _ _ _ W7), (wr_field _ _ _ _ _ W6),
          (wr_field _ _ _ _ _ W5), (wr_field _ _ _ _ _ W4) by field_ne. apply W3.
      * rewrite (wr_field _ _ _ _ _ W8), (wr_field _ _ _ _ _ W7), (wr_field _ _ _ _ _ W6),
          (wr_field _ _ _ _ _ W5) by field_ne. rewrite (wr_val _ _ _ _ _ W4). simpl. lia.
    + intros c sz u. unfold initial. rewrite !elem_of_cons, elem_of_nil. intros [?|[?|[]]]; simplify_eq.
      * rewrite (wr_field _ _ _ _ _ W8), (wr_field _ _ _ _ _ W7), (wr_field _ _ _ _ _ W6) by field_ne. apply W5.
      * replace (chunk0 + (E - chunk0)) with E by lia. rewrite (wr_field _ _ _ _ _ W8) by field_ne. apply W7.
    + rewrite (wr_field _ _ _ _ _ W8), (wr_field _ _ _ _ _ W7), (wr_field _ _ _ _ _ W6),
        (wr_field _ _ _ _ _ W5), (wr_field _ _ _ _ _ W4), (wr_field _ _ _ _ _ W3) by field_ne. apply W2.
    + rewrite (wr_val _ _ _ _ _ W8). done.
  - repeat match goal with |- only_hdrs (?c :: ?d :: ?l) _ _ => eapply (only_hdrs_trans [c] (d :: l));
      [eapply wrote_hdrs; [|eassumption]; done|] end.
    eapply wrote_hdrs; [|eassumption]; done.
Qed.

(** The constants of the heap that [sys_heap_init(heap, p, n)] makes. *)
Definition init_units (p n : Z) : Z :=
  u32 (usize (ROUND_DOWN (usize (p + usize (n - heap_footer_bytes n))) CHUNK_UNIT
              - ROUND_UP p CHUNK_UNIT) / CHUNK_UNIT).

Record init_args (p n : Z) : Prop := {
  ia_base : h = ROUND_UP p CHUNK_UNIT;
  ia_units : E = init_units p n;
  ia_chunk0 : chunk0 = chunksz (usize (sizeof_z_heap + buckets * sizeof_bucket))
}.

Lemma init_spec p n m :
  init_args p n ->
  let '(h', m') := sys_heap_init p n m in
  h' = h /\ heap_inv initial m' /\ (forall x, ~ h <= x < h + 8 * E + hdr -> m' x = m x).
Proof.
  intros [Hb Hu Hc]. pose proof geom_facts as F. unfold sys_heap_init. cbv zeta.
  fold (init_units p n). rewrite <- Hb, <- Hu.
  set (m1 := store 4 (h + 8) E m).
  assert (geo m1) as Hg1.
  { apply load_store_same. change (256 ^ Z.of_nat 4) with 4294967296. lia. }
  assert (0 <= 0 < 2 ^ 32) as H0 by lia.
  destruct (avail_write 0 m1 Hg1 H0) as (Hg2 & Ha2 & _ & Hx2). set (m2 := set_avail_buckets h 0 m1) in *.
  rewrite bucket_idx_geo by (done || change (2 ^ 32) with 4294967296; lia). fold buckets. rewrite <- Hc.
  destruct (clear_buckets_spec (Z.to_nat buckets) 0 m2 Hg2) as (Hg3 & Ha3 & Hb3 & Hx3); [lia|lia|lia|].
  rewrite Z2Nat.id in Hb3 by lia.
  set (m3 := clear_buckets h 0 (Z.to_nat buckets) m2) in *.
  rewrite (uwrap_small 32 (E - chunk0)) by (change (2 ^ 32) with 4294967296; lia).
  destruct (init_headers_lay m3 Hg3) as [LA Ho]. fold (init_headers m3). set (m4 := init_headers m3) in *.
  assert (hstate [chunk0] initial (fun _ => []) m4) as HS.
  { destruct Ho as (_ & Hmeta & _). split; [done| |].
    - split; [apply LA| | |done| |intros; constructor|].
      + intros b Hbb. rewrite (proj2 (meta_fields m3 m4 b Hmeta) Hbb). by apply Hb3.
      + intros b Hb'. rewrite (proj1 (meta_fields m3 m4 b Hmeta)), Ha3, Ha2, Z.bits_0.
        symmetry. apply bool_decide_eq_false. tauto.
      + intros b c _ Hin. by apply elem_of_nil in Hin.
      + intros b b' c _ _ Hin. by apply elem_of_nil in Hin.
    - intros b c Hbb. rewrite elem_of_nil. split; [done|]. intros (sz & Hin & _ & _ & HT).
      unfold initial in Hin. rewrite !elem_of_cons, elem_of_nil in Hin. apply HT.
      destruct Hin as [?|[?|[]]]; simplify_eq. left. }
  destruct (hs_add [] initial _ m4 chunk0 (E - chunk0) HS) as (fl & HS' & Hs); [right; left|apply not_elem_of_nil|].
  split; [done|]. split.
  - split; [split|eauto].
    + intros c sz sz'. unfold initial. rewrite !elem_of_cons, !elem_of_nil. intros [?|[?|[]]]; simplify_eq.
      intros [?|[?|[]]]; simplify_eq. lia.
    + intros c sz. unfold initial. rewrite !elem_of_cons, elem_of_nil. intros [?|[?|[]]]; simplify_eq. lia.
  - intros x Hx. rewrite Hs by (unfold safe; lia).
    destruct Ho as (_ & _ & Hxo). rewrite Hxo.
    + rewrite Hx3, Hx2; [|unfold in_meta, sizeof_z_heap, sizeof_bucket; lia..].
      apply store_other. lia.
    + intros c Hcin. unfold in_hdr. set_unfold. lia.
Qed.

(** ** The contract *)

(** The block of [n] bytes at [p] lies in the heap and meets no used chunk,
    headers and [struct z_heap] included. *)
Definition block_fresh (cs : list chunk) (p n : Z) : Prop :=
  h <= p /\ p + n <= h + 8 * E /\
  forall d s, (d, s, true) ∈ cs -> disjoint_regions p n (h + 8 * d) (8 * s).

Lemma aligned_case_fresh cs n cs' c p m :
  lay m cs -> 0 <= n -> aligned_case cs n cs' c p -> block_fresh cs p n.
Proof.
  intros LA Hn [l1 c0 sz l2 c1 a q -> Hc Ha Hmin Hp Hend]. pose proof geom_facts as F.
  assert ((c0, sz, false) ∈ l1 ++ (c0, sz, false) :: l2) as Hin by (apply elem_mid; auto).
  pose proof (lay_pos _ _ _ _ _ LA Hin) as Hpos. unfold points_to, data in Hp.
  split_and!; [lia|lia|]. intros d s [?|Hd]%elem_mid; [simplify_eq|].
  pose proof (rest_apart _ _ _ _ _ _ _ _ _ LA Hd). unfold disjoint_regions. lia.
Qed.

Lemma alloc_case_fresh cs n cs' p m :
  lay m cs -> 0 < n < 8 * E -> alloc_case cs (need n) cs' p -> block_fresh cs p n.
Proof.
  intros LA Hn [l1 c sz l2 -> Hsz]. pose proof geom_facts as F. pose proof (need_bounds n Hn) as [_ Hnb].
  assert ((c, sz, false) ∈ l1 ++ (c, sz, false) :: l2) as Hin by (apply elem_mid; auto).
  pose proof (lay_pos _ _ _ _ _ LA Hin) as Hpos. unfold data.
  split_and!; [lia|lia|]. intros d s [?|Hd]%elem_mid; [simplify_eq|].
  pose proof (rest_apart _ _ _ _ _ _ _ _ _ LA Hd). unfold disjoint_regions. lia.
Qed.

(** Freeing what was just carved out of a free chunk gives the chunk back. *)
Lemma freed_carved l1 c a sz l2 m :
  lay m (l1 ++ (c, sz, false) :: l2) -> packed (l1 ++ (c, sz, false) :: l2) -> 0 < a <= sz ->
  freed l1 c a ((if sz >? a then [(c + a, sz - a, false)] else []) ++ l2) = l1 ++ (c, sz, false) :: l2.
Proof.
  intros LA HP Ha. pose proof (lay_tiles _ _ LA) as Ht.
  assert ((c, sz, false) ∈ l1 ++ (c, sz, false) :: l2) as Hin by (apply elem_mid; auto).
  assert (join_right a ((if sz >? a then [(c + a, sz - a, false)] else []) ++ l2) = (sz, l2)) as HR.
  { destruct (sz >? a) eqn:E1; cbn [app join_right]; [by replace (a + (sz - a)) with sz by lia|].
    assert (a = sz) as -> by lia. destruct l2 as [|[[d b] v] l2]; [done|]. destruct v; [done|].
    exfalso. apply tiles_app in Ht as (x & _ & Ht). simpl in Ht. destruct Ht as (-> & _ & -> & _).
    eapply (pk_coal _ HP x sz b); [done|]. apply elem_mid2. auto. }
  assert (join_left l1 c sz = (l1, c, sz)) as HL.
  { unfold join_left. destruct l1 as [|[[d b] v] l1 _] using rev_ind; [done|].
    rewrite reverse_app, reverse_singleton. cbn [app]. destruct v; [done|]. exfalso.
    apply tiles_app in Ht as (x & Ht & Hx). apply tiles_app in Ht as (y & _ & Hy). simpl in *.
    destruct Hy as (-> & _ & <-). destruct Hx as (-> & _).
    eapply (pk_coal _ HP y b sz); [|done]. rewrite !elem_of_app, list_elem_of_singleton. auto. }
  unfold freed. by rewrite HR, HL.
Qed.

(** C4: [sys_heap_alloc] on a heap with the chunks [cs]: it returns NULL and
    keeps the chunks, in which case no free chunk of a larger size class
    exists, or it takes the first units of a free chunk that is large enough
    and returns its data, a block that meets no used chunk; the data of the
    used chunks and everything outside the heap is unchanged. *)
Theorem sys_heap_alloc_refines cs m n :
  heap_inv cs m -> 0 <= n -> (n < 8 * E -> bidx (need n) < buckets) ->
  let '(p, m') := sys_heap_alloc h n m in
  agree (safe cs) m m' /\
  ((p = NULL /\ heap_inv cs m' /\ (0 < n < 8 * E -> exhausted cs (need n))) \/
   (exists cs', alloc_case cs (need n) cs' p /\ heap_inv cs' m' /\ block_fresh cs p n)).
Proof.
  intros HI Hn Hb. pose proof HI as [_ [fl [LA _ _]]].
  destruct (decide (0 < n < 8 * E)) as [Hr|Hr].
  - pose proof (alloc_spec cs m n HI Hr ltac:(apply Hb; lia)) as HA.
    destruct (sys_heap_alloc h n m) as [p m']. destruct HA as [Hs [(? & ? & ?)|(cs' & Hc & HI')]]; split; auto.
    right. exists cs'. split_and!; [done|done|]. by eapply alloc_case_fresh.
  - unfold sys_heap_alloc, size_too_big, CHUNK_UNIT. rewrite (lay_geo _ _ LA).
    replace ((n =? 0) || (n / 8 >=? E)) with true; [split; [done|]; left; split_and!; [done|done|lia]|].
    symmetry. destruct (decide (n = 0)) as [->|Hn0]; [done|]. apply orb_true_iff. right.
    apply Z.geb_le. apply Z.div_le_lower_bound; lia.
Qed.

(** [sys_heap_aligned_alloc] returns a block at the requested boundary,
    rewound as requested, that meets no used chunk; the free units around it
    stay free, and nothing else changes.  It fails only when no free chunk of
    a larger size class than the padded request exists. *)
Theorem sys_heap_aligned_alloc_refines cs m align A rew n :
  heap_inv cs m -> alignment align A rew -> fits_address A -> 0 < n < 8 * E ->
  bidx (units_for A n) < buckets ->
  let '(p, m') := sys_heap_aligned_alloc h align n m in
  agree (safe cs) m m' /\
  ((p = NULL /\ heap_inv cs m' /\ exhausted cs (units_for A n)) \/
   (exists cs' c, aligned_case cs n cs' c p /\ heap_inv cs' m' /\ block_fresh cs p n /\ (p + rew) mod A = 0)).
Proof.
  intros HI Hal Hf Hn Hb. pose proof HI as [_ [fl [LA _ _]]].
  pose proof (aligned_spec cs m align A rew n HI Hal Hf Hn Hb) as HA.
  destruct (sys_heap_aligned_alloc h align n m) as [p m'].
  destruct HA as [Hs [?|(cs' & c & Hc & HI' & Hm)]]; (split; [done|]); [by left|].
  right. exists cs', c. split_and!; try done. eapply aligned_case_fresh; [done|lia|done].
Qed.

(** C24: [sys_heap_free] marks the chunk of the block free and merges it with
    free neighbours; the data of the other used chunks is unchanged, and
    freeing NULL does nothing. *)
Theorem sys_heap_free_refines l1 c sz l2 m p :
  heap_inv (l1 ++ (c, sz, true) :: l2) m -> c <> 0 -> points_to p c ->
  let m' := sys_heap_free h p m in
  heap_inv (freed l1 c sz l2) m' /\ agree (safe (l1 ++ l2)) m m' /\ sys_heap_free h NULL m = m.
Proof. intros HI Hc Hp. destruct (free_spec _ _ _ _ _ _ HI Hc Hp) as [HI' Hs]. auto. Qed.

(** Freeing a block right after its allocation gives the heap exactly the
    chunks it had before: no memory is lost and no fragment is left. *)
Theorem sys_heap_alloc_free_restores cs m n :
  heap_inv cs m -> 0 < n < 8 * E -> bidx (need n) < buckets ->
  let '(p, m') := sys_heap_alloc h n m in heap_inv cs (sys_heap_free h p m').
Proof.
  intros HI Hn Hb. pose proof HI as [HP [fl [LA _ _]]]. pose proof geom_facts as F.
  pose proof (alloc_spec cs m n HI Hn Hb) as HA. pose proof (need_bounds n Hn) as [Hnb _].
  destruct (sys_heap_alloc h n m) as [p m']. destruct HA as [Hs [(-> & HI' & _)|(cs' & Hc & HI')]]; [done|].
  destruct Hc as [l1 c sz l2 -> Hsz].
  assert ((c, sz, false) ∈ l1 ++ (c, sz, false) :: l2) as Hin by (apply elem_mid; auto).
  pose proof (lay_pos _ _ _ _ _ LA Hin) as Hpos.
  assert (c <> 0) as Hc0 by (intros ->; destruct Hpos as (_ & _ & [(_ & _ & ?)|?]); [done|lia]).
  unfold carved in HI'. cbn [app] in HI'.
  destruct (free_spec l1 c (need n) _ m' (data c) HI' Hc0) as [HI2 _]; [unfold points_to; lia|].
  rewrite (freed_carved l1 c (need n) sz l2 m) in HI2; [done|done|done|lia].
Qed.


(** [sys_heap_init] makes a heap with one free chunk behind its own
    structure and writes nothing outside the units it counts. *)
Theorem sys_heap_init_establishes p n m :
  init_args p n ->
  let '(h', m') := sys_heap_init p n m in
  h' = h /\ heap_inv initial m' /\ (forall x, ~ h <= x < h + 8 * E + hdr -> m' x = m x).
Proof. apply init_spec. Qed.

End Spec.

(** ** A concrete heap

    508 bytes at address 1000 on a 32 bit machine: 63 units, of which
    [struct z_heap] takes 5. *)
#[local] Instance demo_config : heap_config := {| SMALL_ONLY := false; BIG_ONLY := false; sizeof_ptr := 4 |}.
#[local] Instance demo_geometry : geometry := {| base := 1000; units := 63; chunk0 := 5 |}.

Lemma demo_ok : geometry_ok.
Proof. split; vm_compute; intuition congruence. Qed.
#[local] Existing Instance demo_ok.

Definition demo_mem : mem := (sys_heap_init 1000 508 (fun _ => 0)).2.
Definition demo_used : mem := (sys_heap_alloc 1000 20 demo_mem).2.

Lemma demo_args : init_args 1000 508.
Proof. split; vm_compute; reflexivity. Qed.

Lemma demo_inv : heap_inv [(0, 5, true); (5, 58, false)] demo_mem.
Proof.
  pose proof (init_spec 1000 508 (fun _ => 0) demo_args) as H. unfold demo_mem.
  destruct (sys_heap_init 1000 508 (fun _ => 0)) as [h' m']. by destruct H as (_ & H & _).
Qed.

Lemma demo_used_inv : heap_inv ([(0, 5, true)] ++ (5, 3, true) :: [(8, 55, false)]) demo_used.
Proof.
  assert ((sys_heap_alloc 1000 20 demo_mem).1 = 1044) as Hp by (vm_compute; reflexivity).
  pose proof (alloc_spec [(0, 5, true); (5, 58, false)] demo_mem 20 demo_inv) as H.
  unfold demo_used. change base with 1000 in H.
  destruct (sys_heap_alloc 1000 20 demo_mem) as [p m'].
  cbn [fst snd] in *. subst p. destruct H as [_ [(H & _)|(cs' & Hc & HI)]]; [done|done|done|].
  inversion Hc as [l1 c sz l2 Heq Hsz Hcs Hdata]. subst cs'.
  assert (c = 5) as -> by (unfold data in Hdata; change base with 1000 in Hdata; change hdr with 4 in Hdata; lia).
  assert (l1 = [(0, 5, true)] /\ sz = 58 /\ l2 = []) as (-> & -> & ->); [|exact HI].
  destruct l1 as [|x [|y l1]]; simpl in Heq; simplify_eq; [done|]. by destruct l1.
Qed.

Lemma sys_heap_alloc_refines_witness :
  agree (safe [(0, 5, true); (5, 58, false)]) demo_mem (sys_heap_alloc 1000 20 demo_mem).2.
Proof.
  pose proof (sys_heap_alloc_refines [(0, 5, true); (5, 58, false)] demo_mem 20 demo_inv ltac:(lia)
    ltac:(intros; vm_compute; reflexivity)) as H.
  change base with 1000 in H. destruct (sys_heap_alloc 1000 20 demo_mem) as [p m']. apply H.
Defined.

Lemma sys_heap_aligned_alloc_refines_witness :
  agree (safe [(0, 5, true); (5, 58, false)]) demo_mem (sys_heap_aligned_alloc 1000 (64 + 4) 20 demo_mem).2.
Proof.
  pose proof (sys_heap_aligned_alloc_refines [(0, 5, true); (5, 58, false)] demo_mem (64 + 4) 64 4 20 demo_inv
    (align_rewind 2 6 ltac:(lia)) ltac:(split; vm_compute; congruence) ltac:(split; reflexivity)
    ltac:(vm_compute; reflexivity)) as H.
  change base with 1000 in H. destruct (sys_heap_aligned_alloc 1000 (64 + 4) 20 demo_mem) as [p m']. apply H.
Defined.

Lemma sys_heap_free_refines_witness :
  heap_inv [(0, 5, true); (5, 58, false)] (sys_heap_free 1000 1044 demo_used).
Proof.
  destruct (sys_heap_free_refines [(0, 5, true)] 5 3 [(8, 55, false)] demo_used 1044 demo_used_inv) as [H _];
    [lia|split; vm_compute; congruence|exact H].
Defined.

Lemma sys_heap_alloc_free_restores_witness :
  heap_inv [(0, 5, true); (5, 58, false)]
    (sys_heap_free 1000 (sys_heap_alloc 1000 20 demo_mem).1 (sys_heap_alloc 1000 20 demo_mem).2).
Proof.
  pose proof (sys_heap_alloc_free_restores [(0, 5, true); (5, 58, false)] demo_mem 20 demo_inv
    ltac:(split; reflexivity) ltac:(vm_compute; reflexivity)) as H.
  change base with 1000 in H. destruct (sys_heap_alloc 1000 20 demo_mem) as [p m']. exact H.
Defined.


Lemma sys_heap_init_establishes_witness :
  (sys_heap_init 1000 508 (fun _ => 0)).1 = 1000 /\ heap_inv [(0, 5, true); (5, 58, false)] demo_mem.
Proof.
  pose proof (sys_heap_init_establishes 1000 508 (fun _ => 0) demo_args) as H. unfold demo_mem.
  destruct (sys_heap_init 1000 508 (fun _ => 0)) as [h' m']. by destruct H as (-> & H & _).
Defined.


End HeapSpec.
