(* ===== verification/TimeUnits.v ===== *)
(** Conversions between time units (include/zephyr/sys/time_units.h).

    [z_tmcvt] is the one function behind every [k_<unit>_to_<unit>_<mode>]
    conversion.  The model keeps the 64 and 32 bit arithmetic of the C code.
    The theorems show that each of its code paths computes the exact
    quotient, rounded as asked, when no intermediate value overflows. *)
From S2P Require Import Prelude.

Definition DIV_ROUND_UP (n d : Z) : Z := (n + d - 1) / d.

Section Conversion.

(** CONFIG_SYS_CLOCK_MAX_TIMEOUT_DAYS *)
Context (max_timeout_days : Z).

Definition Z_TMCVT_USE_FAST_ALGO (from_hz to_hz : Z) : bool :=
  u64 (DIV_ROUND_UP (max_timeout_days * 24 * 3600 * from_hz) UINT32_MAX * to_hz)
    <=? UINT32_MAX.

Definition z_tmcvt (t from_hz to_hz : Z) (const_hz result32 round_up round_off : bool) : Z :=
  let mul_ratio := const_hz && (to_hz >? from_hz) && (to_hz mod from_hz =? 0) in
  let div_ratio := const_hz && (from_hz >? to_hz) && (from_hz mod to_hz =? 0) in
  if from_hz =? to_hz then (if result32 then u32 t else t)
  else
    let rdivisor := if div_ratio then from_hz / to_hz else from_hz in
    let off := if mul_ratio then 0
               else if round_off then rdivisor / 2
               else if round_up then rdivisor - 1
               else 0 in
    if div_ratio then
      let t := u64 (t + off) in
      if result32 && (t <? 2 ^ 32) then u32 t / (from_hz / to_hz)
      else t / (from_hz / to_hz)
    else if mul_ratio then
      if result32 then u32 (u32 t * (to_hz / from_hz))
      else u64 (t * (to_hz / from_hz))
    else if result32 then u32 (u64 (u64 (t * to_hz) + off) / from_hz)
    else if const_hz && Z_TMCVT_USE_FAST_ALGO from_hz to_hz then
      u64 (u64 (t * to_hz) + off) / from_hz
    else
      u64 (u64 (t / from_hz * to_hz) + u64 (u64 (t mod from_hz * to_hz) + off) / from_hz).

Definition Z_HZ_ms : Z := 1000.
Definition Z_HZ_us : Z := 1000000.

(** CONFIG_SYS_CLOCK_TICKS_PER_SEC *)
Context (Z_HZ_ticks : Z).

(** The argument and the result of the 32 bit variants are [uint32_t]. *)
Definition k_ms_to_ticks_ceil32 (t : Z) : Z :=
  u32 (z_tmcvt (u32 t) Z_HZ_ms Z_HZ_ticks true true true false).
Definition k_us_to_ticks_ceil64 (t : Z) : Z :=
  z_tmcvt (u64 t) Z_HZ_us Z_HZ_ticks true false true false.
Definition k_ticks_to_ms_floor64 (t : Z) : Z :=
  z_tmcvt (u64 t) Z_HZ_ticks Z_HZ_ms true false false false.
Definition k_ticks_to_us_floor64 (t : Z) : Z :=
  z_tmcvt (u64 t) Z_HZ_ticks Z_HZ_us true false false false.

(** ** Exactness *)

(** The rounding offset of a conversion with divisor [d]. *)
Definition rounding (round_up round_off : bool) (d : Z) : Z :=
  if round_off then d / 2 else if round_up then d - 1 else 0.

(** The value the conversion stands for: the quotient [t * to / from],
    rounded down, up, or to the nearest integer. *)
Definition exact (t from_hz to_hz : Z) (round_up round_off : bool) : Z :=
  (t * to_hz + rounding round_up round_off from_hz) / from_hz.

Lemma exact_mul_ratio t from to ru ro :
  0 < from -> from < to -> to mod from = 0 ->
  exact t from to ru ro = t * (to / from).
Proof.
  intros Hf Hlt Hm. unfold exact, rounding.
  pose proof (Z.div_mod to from ltac:(lia)) as Hto. rewrite Hm, Z.add_0_r in Hto.
  generalize dependent (to / from). intros k ->.
  replace (t * (from * k)) with (t * k * from) by lia.
  rewrite Z.div_add_l by lia.
  assert ((if ro then from / 2 else if ru then from - 1 else 0) / from = 0) as ->; [|lia].
  apply Z.div_small. destruct ro, ru; Z.to_euclidean_division_equations; lia.
Qed.

(** Dividing numerator and divisor by the common factor [to] keeps the
    rounded quotient. *)
Lemma exact_div_ratio t from to ru ro :
  0 < to -> to < from -> from mod to = 0 ->
  exact t from to ru ro = (t + rounding ru ro (from / to)) / (from / to).
Proof.
  intros Hto Hlt Hm. unfold exact, rounding.
  pose proof (Z.div_mod from to ltac:(lia)) as Hfrom. rewrite Hm, Z.add_0_r in Hfrom.
  generalize dependent (from / to). intros k ->.
  assert (1 < k) by nia. rewrite <-Z.div_div by lia. f_equal.
  destruct ro; [|destruct ru].
  - replace (t * to + to * k / 2) with (to * k / 2 + t * to) by lia.
    rewrite Z.div_add by lia.
    rewrite Z.add_comm. f_equal. rewrite Z.div_div, (Z.mul_comm 2 to) by lia.
    rewrite <-Z.div_div, (Z.mul_comm to k), Z.div_mul by lia. done.
  - replace (t * to + (to * k - 1)) with ((to - 1) + (t + (k - 1)) * to) by lia.
    rewrite Z.div_add by lia. rewrite (Z.div_small (to - 1)) by lia. lia.
  - rewrite !Z.add_0_r. by rewrite Z.div_mul by lia.
Qed.

Lemma exact_split t from to ru ro :
  0 < from ->
  exact t from to ru ro
  = t / from * to + (t mod from * to + rounding ru ro from) / from.
Proof.
  intros Hf. unfold exact.
  replace (t * to + rounding ru ro from)
    with ((t mod from * to + rounding ru ro from) + t / from * to * from).
  - rewrite Z.div_add by lia. lia.
  - rewrite (Z.div_mod t from) at 3 by lia. lia.
Qed.

Lemma rounding_bounds ru ro d : 0 < d -> 0 <= rounding ru ro d < d.
Proof. unfold rounding. destruct ro, ru; intros; Z.to_euclidean_division_equations; lia. Qed.

Lemma u32_u64 x : u32 (u64 x) = u32 x.
Proof. unfold uwrap. change (2 ^ 64) with (2 ^ 32 * 2 ^ 32). rewrite Z.rem_mul_r by lia.
  rewrite Z.mul_comm, Z.mod_add by lia. by rewrite Z.mod_mod by lia. Qed.

Lemma u32_mul_l x y : u32 (u32 x * y) = u32 (x * y).
Proof. unfold uwrap. by rewrite Z.mul_mod_idemp_l by lia. Qed.

Lemma u32_idemp x : u32 (u32 x) = u32 x.
Proof. unfold uwrap. by rewrite Z.mod_mod by lia. Qed.

(** The 64 bit value before any truncation of the result. *)
Lemma z_tmcvt_exact64 t from to const_hz ru ro :
  0 <= t -> 0 < from < 2 ^ 32 -> 0 < to < 2 ^ 32 -> t * to + from < 2 ^ 64 ->
  t + from < 2 ^ 64 ->
  from <> to ->
  z_tmcvt t from to const_hz false ru ro = exact t from to ru ro.
Proof.
  intros Ht Hf Hto Hov Hov' Hne. unfold z_tmcvt.
  replace (from =? to) with false by lia.
  pose proof (rounding_bounds ru ro from ltac:(lia)) as Hro.
  destruct (const_hz && (to >? from) && (to mod from =? 0)) eqn:Emul;
    [apply andb_true_iff in Emul as [[-> Hgt]%andb_true_iff Hmod]|].
  { replace (from >? to) with false by lia. simpl.
    rewrite exact_mul_ratio by lia. apply uwrap_small.
    split; [apply Z.mul_nonneg_nonneg; [lia|apply Z.div_pos; lia]|].
    apply Z.le_lt_trans with (t * to); [|lia]. apply Z.mul_le_mono_nonneg_l; [lia|].
    apply Z.div_le_upper_bound; nia. }
  destruct (const_hz && (from >? to) && (from mod to =? 0)) eqn:Ediv;
    [apply andb_true_iff in Ediv as [[-> Hgt]%andb_true_iff Hmod]|].
  { simpl. rewrite exact_div_ratio by lia. unfold rounding.
    f_equal. apply uwrap_small.
    assert (from / to <= from) by (apply Z.div_le_upper_bound; nia).
    assert (0 < from / to) by (apply Z.div_str_pos; lia).
    pose proof (rounding_bounds ru ro (from / to) ltac:(lia)). unfold rounding in *. lia. }
  fold (rounding ru ro from).
  destruct (const_hz && Z_TMCVT_USE_FAST_ALGO from to).
  - unfold exact. rewrite (uwrap_small 64 (t * to)) by nia. by rewrite uwrap_small by nia.
  - rewrite exact_split by lia.
    pose proof (Z.mod_pos_bound t from ltac:(lia)).
    pose proof (Z.div_mod t from ltac:(lia)).
    assert (0 <= t / from) by (apply Z.div_pos; lia).
    assert (t mod from <= t) by (apply Z.mod_le; lia).
    assert (t mod from * to <= t * to) by nia.
    rewrite (uwrap_small 64 (t / from * to)) by nia.
    rewrite (uwrap_small 64 (t mod from * to)) by nia.
    rewrite (uwrap_small 64 (t mod from * to + _)) by nia.
    apply uwrap_small. rewrite <-exact_split by lia. unfold exact. split.
    + apply Z.div_pos; nia.
    + apply Z.div_lt_upper_bound; nia.
Qed.

(** The 32 bit variants agree with the 64 bit ones modulo [2^32]. *)
Lemma z_tmcvt_result32 t from to const_hz ru ro :
  0 <= t -> 0 < from < 2 ^ 32 -> 0 < to < 2 ^ 32 -> t * to + from < 2 ^ 64 ->
  t + from < 2 ^ 64 -> from <> to ->
  u32 (z_tmcvt t from to const_hz true ru ro) = u32 (exact t from to ru ro).
Proof.
  intros Ht Hf Hto Hov Hov' Hne.
  rewrite <-(z_tmcvt_exact64 t from to const_hz) by done. unfold z_tmcvt.
  replace (from =? to) with false by lia.
  destruct (const_hz && (from >? to) && (from mod to =? 0)) eqn:Ediv.
  - simpl. destruct (_ <? 2 ^ 32) eqn:Elt; [|done]. do 2 f_equal.
    apply uwrap_small. split; [apply uwrap_range; lia|lia].
  - destruct (const_hz && (to >? from) && (to mod from =? 0)) eqn:Emul.
    + by rewrite u32_idemp, u32_mul_l, u32_u64.
    + rewrite u32_idemp. destruct (const_hz && Z_TMCVT_USE_FAST_ALGO from to) eqn:Efast; [done|].
      pose proof (z_tmcvt_exact64 t from to const_hz ru ro ltac:(lia) Hf Hto Hov Hov' Hne) as H64.
      unfold z_tmcvt in H64. replace (from =? to) with false in H64 by lia.
      rewrite Ediv, Emul, Efast in H64. rewrite H64. unfold exact.
      pose proof (rounding_bounds ru ro from ltac:(lia)) as Hro.
      fold (rounding ru ro from). rewrite (uwrap_small 64 (t * to)) by nia.
      by rewrite (uwrap_small 64 (t * to + _)) by nia.
Qed.

End Conversion.

(** Every code path of [z_tmcvt] (the integer ratio paths, the fast path,
    the overflow avoiding path, and their 32 bit variants) returns the exact
    quotient [t * to_hz / from_hz] rounded as requested, whenever the full
    precision product fits in 64 bits; the 32 bit variants return it modulo
    2^32. *)
Theorem z_tmcvt_spec days t from_hz to_hz const_hz result32 round_up round_off :
  0 <= t -> 0 < from_hz < 2 ^ 32 -> 0 < to_hz < 2 ^ 32 ->
  t * to_hz + from_hz < 2 ^ 64 -> t + from_hz < 2 ^ 64 ->
  let r := z_tmcvt days t from_hz to_hz const_hz result32 round_up round_off in
  let e := exact t from_hz to_hz round_up round_off in
  if result32 then u32 r = u32 e else r = e.
Proof.
  intros Ht Hf Hto Hov Hov' r e. subst r e.
  destruct (decide (from_hz = to_hz)) as [->|Hne].
  - assert (exact t to_hz to_hz round_up round_off = t) as ->.
    { unfold exact. rewrite Z.div_add_l by lia.
      rewrite Z.div_small by (apply rounding_bounds; lia). lia. }
    unfold z_tmcvt. rewrite Z.eqb_refl. destruct result32; [apply u32_idemp|done].
  - destruct result32; [by apply z_tmcvt_result32|by apply z_tmcvt_exact64].
Qed.

Lemma z_tmcvt_spec_witness :
  z_tmcvt 365 12345 32768 1000 true false false false = 376
  /\ exact 12345 32768 1000 false false = 376.
Proof.
  pose proof (z_tmcvt_spec 365 12345 32768 1000 true false false false) as H.
  simpl in H. specialize (H ltac:(lia) ltac:(lia) ltac:(lia) ltac:(lia) ltac:(lia)).
  split; [rewrite H|]; reflexivity.
Defined.
