(* ===== verification/Timeout.v ===== *)
(** The timeout queue of the kernel (kernel/timeout.c, timeout_q.h).

    The pending [struct _timeout] objects form a delta list: each entry
    stores the number of ticks between its own expiry and the expiry of its
    predecessor.  The model keeps the list, [curr_tick] and
    [announce_remaining] of the C file, the value the timer driver reports
    for [sys_clock_elapsed()], and the last value handed to
    [sys_clock_set_timeout()].  [sys_clock_announce] is written for any
    client state that embeds such a queue, with the dispatch of the expiry
    callbacks as an argument.

    The theorems relate the delta list to absolute expiry times: insertion
    and removal change only the expiry of the entry they name, and an
    announcement of [n] ticks runs exactly the callbacks that are due, in
    order, each at its own tick. *)
From S2P Require Import Prelude.

(** ** Data *)

(** A [struct _timeout *]: the timeout embedded in a thread, the time slice
    timeout of the (single) CPU, or the one embedded in a [k_timer]. *)
Inductive toid :=
| TO_thread (t : positive)
| TO_slice
| TO_timer (n : positive).

#[export] Instance toid_eq_dec : EqDecision toid.
Proof. solve_decision. Defined.

(** The static data of timeout.c, with the driver interface. *)
Record tq := mk_tq {
  timeout_list : list (toid * Z);
  curr_tick : Z;
  announce_remaining : Z;
  sys_clock_elapsed : Z;
  sys_clock_programmed : option Z
}.

#[export] Instance set_timeout_list : Settable timeout_list :=
  fun f q => mk_tq (f (timeout_list q)) (curr_tick q) (announce_remaining q)
                   (sys_clock_elapsed q) (sys_clock_programmed q).
#[export] Instance set_curr_tick : Settable curr_tick :=
  fun f q => mk_tq (timeout_list q) (f (curr_tick q)) (announce_remaining q)
                   (sys_clock_elapsed q) (sys_clock_programmed q).
#[export] Instance set_announce_remaining : Settable announce_remaining :=
  fun f q => mk_tq (timeout_list q) (curr_tick q) (f (announce_remaining q))
                   (sys_clock_elapsed q) (sys_clock_programmed q).
#[export] Instance set_sys_clock_programmed : Settable sys_clock_programmed :=
  fun f q => mk_tq (timeout_list q) (curr_tick q) (announce_remaining q)
                   (sys_clock_elapsed q) (f (sys_clock_programmed q)).

(** [k_timeout_t] holds one [k_ticks_t]; negative values below
    [K_TICKS_FOREVER] encode absolute expiry times. *)
Definition K_TICKS_FOREVER : Z := -1.
Definition K_FOREVER : Z := K_TICKS_FOREVER.
Definition K_NO_WAIT : Z := 0.
Definition Z_TICK_ABS (t : Z) : Z := K_TICKS_FOREVER - 1 - t.
Definition K_TIMEOUT_ABS_TICKS (t : Z) : Z := Z_TICK_ABS (Z.max t 0).

(** Without CONFIG_SYSTEM_CLOCK_SLOPPY_IDLE. *)
Definition MAX_WAIT : Z := INT_MAX.

(** ** Operations on the queue *)

Definition first (q : tq) : option (toid * Z) := head (timeout_list q).

(** [sys_dlist_peek_next]: the entry after [t]. *)
Fixpoint next (t : toid) (l : list (toid * Z)) : option (toid * Z) :=
  match l with
  | [] => None
  | (t', _) :: r => if decide (t' = t) then head r else next t r
  end.

Definition is_linked (t : toid) (q : tq) : bool :=
  bool_decide (t ∈ (timeout_list q).*1).

Definition z_is_inactive_timeout (t : toid) (q : tq) : bool := negb (is_linked t q).

Fixpoint remove_entry (t : toid) (l : list (toid * Z)) : list (toid * Z) :=
  match l with
  | [] => []
  | (t', d) :: r =>
      if decide (t' = t) then
        match r with
        | [] => []
        | (t2, d2) :: r2 => (t2, d2 + d) :: r2
        end
      else (t', d) :: remove_entry t r
  end.

Definition remove_timeout (t : toid) (q : tq) : tq :=
  q <| timeout_list ::= remove_entry t |>.

Definition elapsed (q : tq) : Z :=
  if announce_remaining q =? 0 then sys_clock_elapsed q else 0.

Definition next_timeout (q : tq) : Z :=
  match first q with
  | None => MAX_WAIT
  | Some (_, d) =>
      if d - elapsed q >? INT_MAX then MAX_WAIT else Z.max 0 (d - elapsed q)
  end.

Definition sys_clock_set_timeout (ticks : Z) (q : tq) : tq :=
  q <| sys_clock_programmed := Some ticks |>.

(** The [for] loop of [z_add_timeout], with [sys_dlist_insert] and
    [sys_dlist_append]. *)
Fixpoint insert_entry (to : toid) (d : Z) (l : list (toid * Z)) : list (toid * Z) :=
  match l with
  | [] => [(to, d)]
  | (t, dt) :: r =>
      if dt >? d then (to, d) :: (t, dt - d) :: r
      else (t, dt) :: insert_entry to (d - dt) r
  end.

(** The delta of a new timeout, relative to [curr_tick]. *)
Definition timeout_dticks (timeout : Z) (q : tq) : Z :=
  if Z_TICK_ABS timeout >=? 0
  then Z.max 1 (Z_TICK_ABS timeout - curr_tick q)
  else timeout + 1 + elapsed q.

Definition z_add_timeout (to : toid) (timeout : Z) (q : tq) : tq :=
  if timeout =? K_FOREVER then q
  else
    let q1 := q <| timeout_list ::= insert_entry to (timeout_dticks timeout q) |> in
    match first q1 with
    | Some (t, _) =>
        if decide (t = to) then sys_clock_set_timeout (next_timeout q1) q1 else q1
    | None => q1
    end.

Definition z_abort_timeout (to : toid) (q : tq) : Z * tq :=
  if is_linked to q then (0, remove_timeout to q) else (- EINVAL, q).

(** The summation loop of [timeout_rem]. *)
Fixpoint sum_upto (t : toid) (l : list (toid * Z)) : Z :=
  match l with
  | [] => 0
  | (t', d) :: r => if decide (t' = t) then d else d + sum_upto t r
  end.

Definition timeout_rem (t : toid) (q : tq) : Z :=
  if z_is_inactive_timeout t q then 0
  else sum_upto t (timeout_list q) - elapsed q.

Definition z_timeout_remaining (t : toid) (q : tq) : Z := timeout_rem t q.

Definition z_timeout_expires (t : toid) (q : tq) : Z := curr_tick q + timeout_rem t q.

Definition z_get_next_timeout_expiry (q : tq) : Z := next_timeout q.

Definition sys_clock_tick_get (q : tq) : Z := curr_tick q + elapsed q.

Definition sys_clock_tick_get_32 (q : tq) : Z := u32 (sys_clock_tick_get q).

Definition sys_clock_timeout_end_calc (timeout : Z) (q : tq) : Z :=
  if timeout =? K_FOREVER then 2 ^ 64 - 1
  else if timeout =? K_NO_WAIT then sys_clock_tick_get q
  else if Z_TICK_ABS timeout >=? 0 then Z_TICK_ABS timeout
  else sys_clock_tick_get q + Z.max 1 timeout.

(** ** sys_clock_announce *)

(** What a client state offers to [sys_clock_announce]: the embedded queue
    and the dispatch of [t->fn(t)]. *)
Class TimeoutClient (St : Type) := {
  get_tq : St -> tq;
  upd_tq : (tq -> tq) -> St -> St;
  timeout_fn : toid -> St -> St
}.

Section Announce.
Context {St : Type} `{TimeoutClient St}.

(** The [for] loop; [fuel] bounds the number of callbacks run. *)
Fixpoint announce_loop (fuel : nat) (s : St) : option St :=
  match fuel with
  | O => None
  | S fuel' =>
      match first (get_tq s) with
      | Some (t, dt) =>
          if dt <=? announce_remaining (get_tq s) then
            let s1 := upd_tq (fun q => remove_timeout t
                (q <| curr_tick ::= Z.add dt |>
                   <| timeout_list ::= fun l => (t, 0) :: tail l |>)) s in
            let s2 := timeout_fn t s1 in
            announce_loop fuel'
              (upd_tq (fun q => q <| announce_remaining ::= fun r => r - dt |>) s2)
          else Some s
      | None => Some s
      end
  end.

(** The code after the loop: age the first pending entry, advance the tick
    count and reprogram the driver. *)
Definition announce_finish (q : tq) : tq :=
  let rem := announce_remaining q in
  let q1 := q <| timeout_list ::= fun l => match l with
                                           | [] => []
                                           | (t, d) :: r => (t, d - rem) :: r
                                           end |>
              <| curr_tick ::= Z.add rem |>
              <| announce_remaining := 0 |> in
  sys_clock_set_timeout (next_timeout q1) q1.

(** [sys_clock_announce] up to the time slice check at its end. *)
Definition sys_clock_announce_timeouts (fuel : nat) (ticks : Z) (s : St) : option St :=
  match announce_loop fuel (upd_tq (fun q => q <| announce_remaining := ticks |>) s) with
  | Some s' => Some (upd_tq announce_finish s')
  | None => None
  end.

End Announce.

(** ** Absolute expiry times *)

(** The reference view: each pending timeout with the tick it expires at,
    given the tick [b] the first delta counts from. *)
Fixpoint absolute (b : Z) (l : list (toid * Z)) : list (toid * Z) :=
  match l with
  | [] => []
  | (t, d) :: r => (t, b + d) :: absolute (b + d) r
  end.

(** Insertion after every entry that does not expire later. *)
Fixpoint abs_insert (to : toid) (e : Z) (l : list (toid * Z)) : list (toid * Z) :=
  match l with
  | [] => [(to, e)]
  | (t, e') :: r => if e' >? e then (to, e) :: l else (t, e') :: abs_insert to e r
  end.

Fixpoint abs_remove (t : toid) (l : list (toid * Z)) : list (toid * Z) :=
  match l with
  | [] => []
  | (t', e) :: r => if decide (t' = t) then r else (t', e) :: abs_remove t r
  end.

(** The queue invariant: no timeout is linked twice, no delta is negative. *)
Definition tl_wf (l : list (toid * Z)) : Prop :=
  NoDup l.*1 /\ Forall (fun x => 0 <= x.2) l.

Definition tq_wf (q : tq) : Prop := tl_wf (timeout_list q).

(** Every pending timeout of the absolute view, as a partial map. *)
Fixpoint assoc (t : toid) (l : list (toid * Z)) : option Z :=
  match l with
  | [] => None
  | (t', e) :: r => if decide (t' = t) then Some e else assoc t r
  end.

Definition expiry (t : toid) (q : tq) : option Z :=
  assoc t (absolute (curr_tick q) (timeout_list q)).

Lemma absolute_fst b l : (absolute b l).*1 = l.*1.
Proof. revert b. induction l as [|[t d] r IH]; intros b; simpl; [done|]. by rewrite IH. Qed.

Lemma absolute_ge b l x :
  Forall (fun x => 0 <= x.2) l -> x ∈ absolute b l -> b <= x.2.
Proof.
  intros Hl. revert b. induction Hl as [|[t d] r Hd _ IH]; intros b; simpl.
  - by intros ?%elem_of_nil.
  - rewrite elem_of_cons. simpl in Hd. intros [->|Hx]; simpl; [lia|].
    apply IH in Hx. lia.
Qed.

Lemma absolute_insert to d l b :
  absolute b (insert_entry to d l) = abs_insert to (b + d) (absolute b l).
Proof.
  revert d b. induction l as [|[t dt] r IH]; intros d b; simpl; [done|].
  destruct (dt >? d) eqn:E.
  - replace (b + dt >? b + d) with true by lia. simpl.
    by replace (b + d + (dt - d)) with (b + dt) by lia.
  - replace (b + dt >? b + d) with false by lia. simpl. rewrite IH.
    by replace (b + dt + (d - dt)) with (b + d) by lia.
Qed.

Lemma absolute_remove t l b :
  absolute b (remove_entry t l) = abs_remove t (absolute b l).
Proof.
  revert b. induction l as [|[t' d] r IH]; intros b; simpl; [done|].
  destruct (decide (t' = t)).
  - destruct r as [|[t2 d2] r2]; simpl; [done|].
    by replace (b + (d2 + d)) with (b + d + d2) by lia.
  - simpl. by rewrite IH.
Qed.

Lemma remove_entry_fst t l : (remove_entry t l).*1 = (abs_remove t l).*1.
Proof.
  induction l as [|[t' d] r IH]; simpl; [done|].
  destruct (decide (t' = t)); csimpl; [by destruct r as [|[??]?]|]. by rewrite IH.
Qed.

Lemma insert_entry_fst_perm to d l : (insert_entry to d l).*1 ≡ₚ to :: l.*1.
Proof.
  revert d. induction l as [|[t dt] r IH]; intros d; simpl; [done|].
  destruct (dt >? d); csimpl; [done|]. rewrite IH. apply Permutation_swap.
Qed.

Lemma insert_entry_elem to d l t :
  t ∈ (insert_entry to d l).*1 <-> t = to \/ t ∈ l.*1.
Proof. rewrite insert_entry_fst_perm. by rewrite elem_of_cons. Qed.

Lemma abs_remove_elem t l x :
  NoDup l.*1 -> x ∈ abs_remove t l <-> x ∈ l /\ x.1 <> t.
Proof.
  induction l as [|[t' e] r IH]; simpl; intros Hnd.
  - split; [by intros ?%elem_of_nil|by intros [?%elem_of_nil _]].
  - apply NoDup_cons in Hnd as [Hni Hnd]. destruct (decide (t' = t)) as [->|Hne].
    + rewrite elem_of_cons. split.
      * intros Hx. split; [by right|]. intros <-. apply Hni.
        by apply list_elem_of_fmap_2.
      * by intros [[->|] Hne].
    + rewrite !elem_of_cons, IH by done. split; [|tauto].
      intros [->|?]; [split; [by left|done]|tauto].
Qed.

Lemma remove_entry_elem t l t' :
  NoDup l.*1 -> t' ∈ (remove_entry t l).*1 <-> t' ∈ l.*1 /\ t' <> t.
Proof.
  intros Hnd. rewrite remove_entry_fst, !list_elem_of_fmap. split.
  - intros (x & -> & Hx). apply abs_remove_elem in Hx as [??]; [|done]. eauto.
  - intros [(x & -> & Hx) Hne]. exists x. split; [done|]. by apply abs_remove_elem.
Qed.

Lemma assoc_abs_insert to e l t :
  to ∉ l.*1 -> assoc t (abs_insert to e l) = if decide (t = to) then Some e else assoc t l.
Proof.
  induction l as [|[t' e'] r IH]; csimpl; intros Hni.
  - destruct (decide (to = t)), (decide (t = to)); congruence.
  - apply not_elem_of_cons in Hni as [Hne Hni]. destruct (e' >? e); simpl.
    + destruct (decide (to = t)), (decide (t = to)); congruence.
    + rewrite IH by done. repeat case_decide; congruence.
Qed.

Lemma assoc_abs_remove to l t :
  NoDup l.*1 -> assoc t (abs_remove to l) = if decide (t = to) then None else assoc t l.
Proof.
  induction l as [|[t' e'] r IH]; csimpl; intros Hnd.
  - by case_decide.
  - apply NoDup_cons in Hnd as [Hni Hnd].
    destruct (decide (t' = to)) as [->|H1].
    + assert (assoc to r = None) as Hn.
      { clear -Hni. induction r as [|[a b] r IH]; csimpl in *; [done|].
        apply not_elem_of_cons in Hni as [? ?]. case_decide; [congruence|auto]. }
      repeat case_decide; congruence.
    + simpl. rewrite IH by done. repeat case_decide; congruence.
Qed.

Lemma assoc_Some_elem t l e : assoc t l = Some e -> t ∈ l.*1.
Proof.
  induction l as [|[t' e'] r IH]; csimpl; [done|]. rewrite elem_of_cons.
  case_decide; [by left|]. right. auto.
Qed.

Lemma elem_assoc t l : t ∈ l.*1 -> exists e, assoc t l = Some e.
Proof.
  induction l as [|[t' e'] r IH]; csimpl; [by intros ?%elem_of_nil|].
  rewrite elem_of_cons. case_decide; [eauto|]. intros [->|?]; [done|auto].
Qed.

Lemma sum_upto_assoc t l b : t ∈ l.*1 -> assoc t (absolute b l) = Some (b + sum_upto t l).
Proof.
  revert b. induction l as [|[t' d] r IH]; intros b; csimpl; [by intros ?%elem_of_nil|].
  rewrite elem_of_cons. case_decide; subst; [done|].
  intros [->|?]; [done|]. rewrite IH by done. f_equal. lia.
Qed.

Lemma insert_entry_nonneg to d l :
  0 <= d -> Forall (fun x => 0 <= x.2) l -> Forall (fun x => 0 <= x.2) (insert_entry to d l).
Proof.
  intros Hd Hl. revert d Hd. induction Hl as [|[t dt] r Hdt Hr IH]; intros d Hd; simpl in *.
  - by constructor.
  - destruct (dt >? d) eqn:E; repeat constructor; simpl; try lia; auto.
    apply IH. lia.
Qed.

Lemma remove_entry_nonneg t l :
  Forall (fun x => 0 <= x.2) l -> Forall (fun x => 0 <= x.2) (remove_entry t l).
Proof.
  induction 1 as [|[t' d] r Hd Hr IH]; simpl in *; [done|]. case_decide.
  - destruct Hr as [|[t2 d2] r2 Hd2 Hr2]; constructor; simpl in *; [lia|done].
  - by constructor.
Qed.

Lemma insert_entry_wf to d l :
  0 <= d -> to ∉ l.*1 -> tl_wf l -> tl_wf (insert_entry to d l).
Proof.
  intros Hd Hni [Hnd Hnn]. split; [|by apply insert_entry_nonneg].
  rewrite insert_entry_fst_perm. by constructor.
Qed.

Lemma abs_remove_fst_nodup t l : NoDup l.*1 -> NoDup (abs_remove t l).*1.
Proof.
  induction l as [|[t' e] r IH]; csimpl; intros Hnd; [done|].
  apply NoDup_cons in Hnd as [Hni Hnd]. case_decide; [done|]. csimpl.
  constructor; [|auto]. rewrite list_elem_of_fmap. intros (x & -> & Hx).
  apply Hni. apply abs_remove_elem in Hx as [? ?]; [|done]. by apply list_elem_of_fmap_2.
Qed.

Lemma remove_entry_wf t l : tl_wf l -> tl_wf (remove_entry t l).
Proof.
  intros [Hnd Hnn]. split; [|by apply remove_entry_nonneg].
  rewrite remove_entry_fst. by apply abs_remove_fst_nodup.
Qed.

Lemma z_add_timeout_list to tm q :
  tm <> K_FOREVER ->
  timeout_list (z_add_timeout to tm q) = insert_entry to (timeout_dticks tm q) (timeout_list q).
Proof.
  intros Htm. unfold z_add_timeout. destruct (tm =? K_FOREVER) eqn:E; [lia|].
  repeat case_match; done.
Qed.

Lemma z_add_timeout_tick to tm q : curr_tick (z_add_timeout to tm q) = curr_tick q.
Proof. unfold z_add_timeout. repeat case_match; done. Qed.

Lemma z_add_timeout_remaining to tm q :
  announce_remaining (z_add_timeout to tm q) = announce_remaining q.
Proof. unfold z_add_timeout. repeat case_match; done. Qed.

(** A timeout is at least one tick away whenever the driver never reports a
    negative elapsed time: relative timeouts that are not negative, and every
    absolute one. *)
Lemma timeout_dticks_pos tm q :
  tm <> K_FOREVER -> 0 <= elapsed q -> 1 <= timeout_dticks tm q.
Proof.
  unfold timeout_dticks, Z_TICK_ABS, K_FOREVER, K_TICKS_FOREVER. intros.
  destruct (-1 - 1 - tm >=? 0) eqn:E; lia.
Qed.

Lemma expiry_linked t q : is_linked t q = true <-> is_Some (expiry t q).
Proof.
  unfold is_linked, expiry. rewrite bool_decide_eq_true. split.
  - intros Ht. rewrite <-(absolute_fst (curr_tick q)) in Ht.
    apply elem_assoc in Ht as [e ?]. by exists e.
  - intros [e He%assoc_Some_elem]. by rewrite absolute_fst in He.
Qed.

Lemma absolute_inj b l l' : absolute b l = absolute b l' -> l = l'.
Proof.
  revert b l'. induction l as [|[t d] r IH]; intros b [|[t' d'] r']; simpl; try done.
  intros [= -> Hd Hr]. replace d' with d in * by lia. f_equal. by apply IH in Hr.
Qed.

Lemma abs_remove_insert to e l : to ∉ l.*1 -> abs_remove to (abs_insert to e l) = l.
Proof.
  induction l as [|[t e'] r IH]; csimpl; intros Hni; [by case_decide|].
  apply not_elem_of_cons in Hni as [? ?].
  destruct (e' >? e); simpl; repeat case_decide; try congruence. by rewrite IH.
Qed.

(** What adding and aborting a timeout do to the queue, for its clients. *)
Lemma add_timeout_wf to tm q :
  tq_wf q -> is_linked to q = false -> 0 <= elapsed q -> tq_wf (z_add_timeout to tm q).
Proof.
  intros Hwf Hl%bool_decide_eq_false Hel. destruct (decide (tm = K_FOREVER)) as [->|Htm]; [done|].
  unfold tq_wf. rewrite z_add_timeout_list by done.
  pose proof (timeout_dticks_pos tm q Htm Hel). apply insert_entry_wf; [lia|done|done].
Qed.

Lemma add_timeout_expiry to tm q t :
  is_linked to q = false -> tm <> K_FOREVER ->
  expiry t (z_add_timeout to tm q)
  = if decide (t = to) then Some (curr_tick q + timeout_dticks tm q) else expiry t q.
Proof.
  intros Hl%bool_decide_eq_false Htm. unfold expiry.
  rewrite z_add_timeout_list, z_add_timeout_tick by done.
  rewrite absolute_insert, assoc_abs_insert by (by rewrite absolute_fst). done.
Qed.

Lemma add_timeout_linked to tm q t :
  tm <> K_FOREVER ->
  is_linked t (z_add_timeout to tm q) = bool_decide (t = to) || is_linked t q.
Proof.
  intros Htm. unfold is_linked. rewrite z_add_timeout_list by done.
  apply eq_true_iff_eq. rewrite orb_true_iff, !bool_decide_eq_true.
  apply insert_entry_elem.
Qed.

Lemma abort_timeout_wf to q : tq_wf q -> tq_wf (z_abort_timeout to q).2.
Proof.
  intros Hwf. unfold z_abort_timeout. case_match; [|done]. by apply remove_entry_wf.
Qed.

Lemma abort_timeout_linked to q t :
  tq_wf q -> is_linked t (z_abort_timeout to q).2 = is_linked t q && bool_decide (t <> to).
Proof.
  intros [Hnd _]. unfold z_abort_timeout. destruct (is_linked to q) eqn:E; simpl.
  - unfold is_linked. apply eq_true_iff_eq. rewrite andb_true_iff, !bool_decide_eq_true. simpl.
    by apply remove_entry_elem.
  - destruct (decide (t = to)) as [->|].
    + by rewrite E.
    + rewrite (bool_decide_eq_true_2 (t <> to)) by done. by rewrite andb_true_r.
Qed.

Lemma abort_timeout_expiry to q t :
  tq_wf q -> expiry t (z_abort_timeout to q).2 = if decide (t = to) then None else expiry t q.
Proof.
  intros [Hnd _]. unfold z_abort_timeout. destruct (is_linked to q) eqn:E; simpl.
  - unfold expiry. simpl. rewrite absolute_remove, assoc_abs_remove by (by rewrite absolute_fst).
    done.
  - case_decide; [|done]. subst. destruct (expiry to q) eqn:Ex; [|done].
    assert (is_linked to q = true) by (by apply expiry_linked; rewrite Ex). congruence.
Qed.

Lemma add_timeout_elapsed to tm q : elapsed (z_add_timeout to tm q) = elapsed q.
Proof. unfold z_add_timeout. repeat case_match; done. Qed.

Lemma abort_timeout_elapsed to q : elapsed (z_abort_timeout to q).2 = elapsed q.
Proof. unfold z_abort_timeout. by case_match. Qed.

(** ** What an announcement does *)

(** A client that records each callback with the tick it ran at. *)
Record logged := mk_logged { lg_tq : tq; lg_fired : list (toid * Z) }.

#[export] Instance logged_client : TimeoutClient logged := {|
  get_tq := lg_tq;
  upd_tq f s := mk_logged (f (lg_tq s)) (lg_fired s);
  timeout_fn t s := mk_logged (lg_tq s) (lg_fired s ++ [(t, curr_tick (lg_tq s))])
|}.

(** The timeouts due by tick [e], and the ones that stay pending. *)
Definition due (e : Z) (l : list (toid * Z)) : list (toid * Z) :=
  List.filter (fun x => x.2 <=? e) l.
Definition pending (e : Z) (l : list (toid * Z)) : list (toid * Z) :=
  List.filter (fun x => negb (x.2 <=? e)) l.

Lemma due_none b e l :
  Forall (fun x => 0 <= x.2) l -> e < b ->
  due e (absolute b l) = [] /\ pending e (absolute b l) = absolute b l.
Proof.
  intros Hl. revert b. induction Hl as [|[t d] r Hd _ IH]; intros b He; simpl in *; [done|].
  unfold due, pending in *. simpl. replace (b + d <=? e) with false by lia. simpl.
  destruct (IH (b + d)) as [-> ->]; [lia|done].
Qed.

Lemma announce_loop_logged fuel l curr rem el pr log :
  Forall (fun x => 0 <= x.2) l -> (length l < fuel)%nat -> 0 <= rem ->
  exists l' curr' rem',
    announce_loop fuel (mk_logged (mk_tq l curr rem el pr) log)
      = Some (mk_logged (mk_tq l' curr' rem' el pr) (log ++ due (curr + rem) (absolute curr l)))
    /\ absolute curr' l' = pending (curr + rem) (absolute curr l)
    /\ curr' + rem' = curr + rem
    /\ match l' with [] => True | x :: _ => rem' < x.2 end.
Proof.
  revert l curr rem log. induction fuel as [|fuel IH]; intros l curr rem log Hl Hf Hr; [lia|].
  destruct l as [|[t dt] r]; simpl.
  - exists [], curr, rem. by rewrite app_nil_r.
  - unfold first; simpl. apply Forall_cons in Hl as [Hdt Hl]; simpl in Hdt.
    destruct (dt <=? rem) eqn:E.
    + unfold remove_timeout, upd, set_curr_tick, set_timeout_list, set_announce_remaining; simpl.
      case_decide; [|done].
      replace (match r with [] => [] | (t2, d2) :: r2 => (t2, d2 + 0) :: r2 end) with r
        by (destruct r as [|[t2 d2] r2]; [done|]; by rewrite Z.add_0_r).
      simpl in Hf.
      destruct (IH r (dt + curr) (rem - dt) (log ++ [(t, dt + curr)])) as
        (l' & curr' & rem' & Hrun & Habs & Hsum & Hhd); [done|lia|lia|].
      exists l', curr', rem'.
      replace (dt + curr) with (curr + dt) in * by lia.
      replace (curr + dt + (rem - dt)) with (curr + rem) in * by lia.
      rewrite Hrun, <-app_assoc. unfold due, pending in *; simpl.
      replace (curr + dt <=? curr + rem) with true by lia. simpl.
      repeat split; try done; lia.
    + destruct (due_none (curr + dt) (curr + rem) r) as [Hdue Hpend]; [done|lia|].
      exists ((t, dt) :: r), curr, rem. unfold due, pending in *; simpl.
      replace (curr + dt <=? curr + rem) with false by lia. simpl.
      rewrite Hdue, Hpend, app_nil_r. repeat split; try done. simpl. lia.
Qed.

(** ** Properties *)



(** [z_abort_timeout] unlinks exactly the timeout it is given: it
    returns 0 for a linked timeout and -EINVAL otherwise, the timeout is not
    linked afterwards, every other pending timeout keeps its expiry, and the
    queue stays well formed. *)
Theorem z_abort_timeout_spec to q :
  tq_wf q ->
  let '(ret, q') := z_abort_timeout to q in
  tq_wf q' /\ is_linked to q' = false
  /\ ret = (if is_linked to q then 0 else - EINVAL)
  /\ (forall t, t <> to -> expiry t q' = expiry t q).
Proof.
  intros Hwf. destruct (z_abort_timeout to q) as [r q'] eqn:E.
  assert (q' = (z_abort_timeout to q).2) as -> by (by rewrite E).
  split; [by apply abort_timeout_wf|split; [|split]].
  - rewrite abort_timeout_linked by done. by rewrite bool_decide_eq_false_2, andb_false_r by tauto.
  - unfold z_abort_timeout in E. by destruct (is_linked to q); simplify_eq.
  - intros t Ht. rewrite abort_timeout_expiry by done. by case_decide.
Qed.

Lemma z_abort_timeout_spec_witness :
  let q := mk_tq [(TO_slice, 4); (TO_thread 1, 3)] 100 0 2 None in
  expiry (TO_thread 1) (z_abort_timeout TO_slice q).2 = Some 107.
Proof.
  apply (z_abort_timeout_spec TO_slice (mk_tq [(TO_slice, 4); (TO_thread 1, 3)] 100 0 2 None)).
  - split; [by apply (bool_decide_unpack _)|repeat constructor; simpl; lia].
  - discriminate.
Defined.

(** Cancelling a timeout that was just started leaves the queue as it
    was: the deltas of the other entries are restored exactly. *)
Theorem z_add_abort_roundtrip to tm q :
  is_linked to q = false -> tm <> K_FOREVER ->
  timeout_list (z_abort_timeout to (z_add_timeout to tm q)).2 = timeout_list q.
Proof.
  intros Hl%bool_decide_eq_false Htm. unfold z_abort_timeout.
  replace (is_linked to (z_add_timeout to tm q)) with true.
  - unfold remove_timeout, upd, set_timeout_list; simpl.
    rewrite z_add_timeout_list by done. apply (absolute_inj 0).
    rewrite absolute_remove, absolute_insert.
    apply abs_remove_insert. by rewrite absolute_fst.
  - symmetry. apply bool_decide_eq_true. rewrite z_add_timeout_list by done.
    apply insert_entry_elem. by left.
Qed.

Lemma z_add_abort_roundtrip_witness :
  let q := mk_tq [(TO_slice, 4); (TO_thread 2, 9)] 100 0 0 None in
  timeout_list (z_abort_timeout (TO_thread 1) (z_add_timeout (TO_thread 1) 6 q)).2
  = [(TO_slice, 4); (TO_thread 2, 9)].
Proof.
  apply (z_add_abort_roundtrip (TO_thread 1) 6
           (mk_tq [(TO_slice, 4); (TO_thread 2, 9)] 100 0 0 None));
    [reflexivity|discriminate].
Defined.

(** [sys_clock_announce] of [ticks] ticks terminates once the fuel
    exceeds the number of pending timeouts, runs the callbacks of exactly the
    timeouts that expire within those ticks, in order of expiry and each with
    [curr_tick] at its own expiry, advances [curr_tick] by [ticks], and keeps
    every other timeout pending with its absolute expiry unchanged. *)
Theorem sys_clock_announce_spec fuel ticks q :
  tq_wf q -> 0 <= ticks -> (length (timeout_list q) < fuel)%nat ->
  exists q' fired,
    sys_clock_announce_timeouts fuel ticks (mk_logged q []) = Some (mk_logged q' fired)
    /\ fired = due (curr_tick q + ticks) (absolute (curr_tick q) (timeout_list q))
    /\ absolute (curr_tick q') (timeout_list q')
       = pending (curr_tick q + ticks) (absolute (curr_tick q) (timeout_list q))
    /\ curr_tick q' = curr_tick q + ticks
    /\ announce_remaining q' = 0
    /\ sys_clock_programmed q' = Some (next_timeout q').
Proof.
  intros [_ Hnn] Ht Hf. destruct q as [l curr rem el pr]; simpl in *.
  unfold sys_clock_announce_timeouts, upd, set_announce_remaining; simpl.
  destruct (announce_loop_logged fuel l curr ticks el pr []) as
    (l' & curr' & rem' & Hrun & Habs & Hsum & Hhd); [done|done|done|].
  rewrite Hrun. simpl. eexists _, _. split; [reflexivity|]. split; [done|].
  unfold announce_finish, sys_clock_set_timeout, upd, set_timeout_list, set_curr_tick,
    set_announce_remaining, set_sys_clock_programmed; simpl.
  split; [|split; [lia|split; [done|reflexivity]]].
  rewrite <-Habs. destruct l' as [|[t d] r]; simpl; [done|].
  replace (rem' + curr' + (d - rem')) with (curr' + d) by lia. done.
Qed.

Lemma sys_clock_announce_spec_witness :
  exists q' fired,
    sys_clock_announce_timeouts 4 7
      (mk_logged (mk_tq [(TO_thread 1, 3); (TO_slice, 4); (TO_thread 2, 5)] 10 0 0 None) [])
    = Some (mk_logged q' fired)
    /\ fired = [(TO_thread 1, 13); (TO_slice, 17)].
Proof.
  destruct (sys_clock_announce_spec 4 7
    (mk_tq [(TO_thread 1, 3); (TO_slice, 4); (TO_thread 2, 5)] 10 0 0 None))
    as (q' & fired & Hrun & Hfired & _).
  - split; [by apply (bool_decide_unpack _)|repeat constructor; simpl; lia].
  - lia.
  - simpl. lia.
  - exists q', fired. split; [exact Hrun|exact Hfired].
Defined.

(** [z_timeout_expires] does not report the tick at which the timeout
    fires: for a linked timeout it is the absolute expiry minus the ticks the
    driver has seen but not announced yet. *)
Theorem z_timeout_expires_early t q :
  is_linked t q = true ->
  exists e, expiry t q = Some e /\ z_timeout_expires t q = e - elapsed q.
Proof.
  intros Hl. exists (curr_tick q + sum_upto t (timeout_list q)). split.
  - apply sum_upto_assoc. by apply bool_decide_eq_true in Hl.
  - unfold z_timeout_expires, timeout_rem, z_is_inactive_timeout. rewrite Hl. simpl. lia.
Qed.

Lemma z_timeout_expires_early_witness :
  exists e, expiry TO_slice (mk_tq [(TO_slice, 4)] 100 0 3 None) = Some e
    /\ z_timeout_expires TO_slice (mk_tq [(TO_slice, 4)] 100 0 3 None) = e - 3.
Proof. apply (z_timeout_expires_early TO_slice (mk_tq [(TO_slice, 4)] 100 0 3 None)). reflexivity. Defined.
