(* ===== verification/Kernel.v ===== *)
(** The kernel state and the control effects of kernel code.

    Data of include/zephyr/kernel/thread.h and kernel_structs.h, the
    predicates of kernel/include/ksched.h, and a monad for code that may be
    switched out in [z_swap()].  The configuration is the default one on a
    single CPU: CONFIG_SMP=n, CONFIG_USE_SWITCH=y, CONFIG_SCHED_DUMB,
    CONFIG_WAITQ_DUMB, CONFIG_TIMESLICING=y, CONFIG_NUM_METAIRQ_PRIORITIES=0,
    CONFIG_TIMEOUT_64BIT=y, CONFIG_EVENTS=y, no CONFIG_POLL, no
    CONFIG_USERSPACE, assertions and tracing off. *)
From S2P Require Import Prelude Timeout.

(** ** Threads *)

(** Addresses of [struct k_thread] and of [_wait_q_t] objects. *)
Abbreviation tid := positive.
Abbreviation wqid := positive.

Definition _THREAD_DUMMY : Z := BIT 0.
Definition _THREAD_PENDING : Z := BIT 1.
Definition _THREAD_PRESTART : Z := BIT 2.
Definition _THREAD_DEAD : Z := BIT 3.
Definition _THREAD_SUSPENDED : Z := BIT 4.
Definition _THREAD_ABORTING : Z := BIT 5.
Definition _THREAD_QUEUED : Z := BIT 7.
Definition _PREEMPT_THRESHOLD : Z := 128 - 1.
Definition K_ESSENTIAL : Z := BIT 0.

Definition CONFIG_PRIORITY_CEILING : Z := -127.

Record k_thread := mk_thread {
  prio : Z;                        (* int8_t *)
  sched_locked : Z;                (* uint8_t *)
  user_options : Z;
  thread_state : Z;                (* uint8_t, the _THREAD_* flags *)
  pended_on : option wqid;
  swap_data : Z;                   (* void * *)
  swap_retval : Z;
  join_queue : wqid;
  th_events : Z;
  event_options : Z;
  next_event_link : option tid;
  no_wake_on_timeout : bool
}.

#[export] Instance set_prio : Settable prio := fun f t =>
  mk_thread (f (prio t)) (sched_locked t) (user_options t) (thread_state t) (pended_on t)
    (swap_data t) (swap_retval t) (join_queue t) (th_events t) (event_options t)
    (next_event_link t) (no_wake_on_timeout t).
#[export] Instance set_sched_locked : Settable sched_locked := fun f t =>
  mk_thread (prio t) (f (sched_locked t)) (user_options t) (thread_state t) (pended_on t)
    (swap_data t) (swap_retval t) (join_queue t) (th_events t) (event_options t)
    (next_event_link t) (no_wake_on_timeout t).
#[export] Instance set_thread_state : Settable thread_state := fun f t =>
  mk_thread (prio t) (sched_locked t) (user_options t) (f (thread_state t)) (pended_on t)
    (swap_data t) (swap_retval t) (join_queue t) (th_events t) (event_options t)
    (next_event_link t) (no_wake_on_timeout t).
#[export] Instance set_pended_on : Settable pended_on := fun f t =>
  mk_thread (prio t) (sched_locked t) (user_options t) (thread_state t) (f (pended_on t))
    (swap_data t) (swap_retval t) (join_queue t) (th_events t) (event_options t)
    (next_event_link t) (no_wake_on_timeout t).
#[export] Instance set_swap_data : Settable swap_data := fun f t =>
  mk_thread (prio t) (sched_locked t) (user_options t) (thread_state t) (pended_on t)
    (f (swap_data t)) (swap_retval t) (join_queue t) (th_events t) (event_options t)
    (next_event_link t) (no_wake_on_timeout t).
#[export] Instance set_swap_retval : Settable swap_retval := fun f t =>
  mk_thread (prio t) (sched_locked t) (user_options t) (thread_state t) (pended_on t)
    (swap_data t) (f (swap_retval t)) (join_queue t) (th_events t) (event_options t)
    (next_event_link t) (no_wake_on_timeout t).
#[export] Instance set_th_events : Settable th_events := fun f t =>
  mk_thread (prio t) (sched_locked t) (user_options t) (thread_state t) (pended_on t)
    (swap_data t) (swap_retval t) (join_queue t) (f (th_events t)) (event_options t)
    (next_event_link t) (no_wake_on_timeout t).
#[export] Instance set_event_options : Settable event_options := fun f t =>
  mk_thread (prio t) (sched_locked t) (user_options t) (thread_state t) (pended_on t)
    (swap_data t) (swap_retval t) (join_queue t) (th_events t) (f (event_options t))
    (next_event_link t) (no_wake_on_timeout t).
#[export] Instance set_next_event_link : Settable next_event_link := fun f t =>
  mk_thread (prio t) (sched_locked t) (user_options t) (thread_state t) (pended_on t)
    (swap_data t) (swap_retval t) (join_queue t) (th_events t) (event_options t)
    (f (next_event_link t)) (no_wake_on_timeout t).
#[export] Instance set_no_wake_on_timeout : Settable no_wake_on_timeout := fun f t =>
  mk_thread (prio t) (sched_locked t) (user_options t) (thread_state t) (pended_on t)
    (swap_data t) (swap_retval t) (join_queue t) (th_events t) (event_options t)
    (next_event_link t) (f (no_wake_on_timeout t)).

(** The [union] of [prio] and [sched_locked] read as one 16 bit value. *)
Definition preempt (t : k_thread) : Z := sched_locked t * 256 + u8 (prio t).

(** ** The kernel structure *)

(** Memory holds one struct per thread address and one list per wait queue
    address; [ready_q.runq] and the wait queues are the [sys_dlist_t] lists
    of the thread nodes, head first. *)
Record kernel := mk_kernel {
  threads : tid -> k_thread;
  waitqs : wqid -> list tid;
  runq : list tid;                 (* _kernel.ready_q.runq *)
  cache : tid;                     (* _kernel.ready_q.cache *)
  current : tid;                   (* _current *)
  idle_thread : tid;
  in_isr : bool;                   (* arch_is_in_isr() *)
  irq_locked : bool;               (* local interrupts masked *)
  tmo : tq;                        (* static data of timeout.c *)
  slice_ticks : Z;
  slice_max_prio : Z;
  slice_expired : bool
}.

#[export] Instance set_threads : Settable threads := fun f k =>
  mk_kernel (f (threads k)) (waitqs k) (runq k) (cache k) (current k) (idle_thread k)
    (in_isr k) (irq_locked k) (tmo k) (slice_ticks k) (slice_max_prio k) (slice_expired k).
#[export] Instance set_waitqs : Settable waitqs := fun f k =>
  mk_kernel (threads k) (f (waitqs k)) (runq k) (cache k) (current k) (idle_thread k)
    (in_isr k) (irq_locked k) (tmo k) (slice_ticks k) (slice_max_prio k) (slice_expired k).
#[export] Instance set_runq : Settable runq := fun f k =>
  mk_kernel (threads k) (waitqs k) (f (runq k)) (cache k) (current k) (idle_thread k)
    (in_isr k) (irq_locked k) (tmo k) (slice_ticks k) (slice_max_prio k) (slice_expired k).
#[export] Instance set_cache : Settable cache := fun f k =>
  mk_kernel (threads k) (waitqs k) (runq k) (f (cache k)) (current k) (idle_thread k)
    (in_isr k) (irq_locked k) (tmo k) (slice_ticks k) (slice_max_prio k) (slice_expired k).
#[export] Instance set_current : Settable current := fun f k =>
  mk_kernel (threads k) (waitqs k) (runq k) (cache k) (f (current k)) (idle_thread k)
    (in_isr k) (irq_locked k) (tmo k) (slice_ticks k) (slice_max_prio k) (slice_expired k).
#[export] Instance set_in_isr : Settable in_isr := fun f k =>
  mk_kernel (threads k) (waitqs k) (runq k) (cache k) (current k) (idle_thread k)
    (f (in_isr k)) (irq_locked k) (tmo k) (slice_ticks k) (slice_max_prio k) (slice_expired k).
#[export] Instance set_irq_locked : Settable irq_locked := fun f k =>
  mk_kernel (threads k) (waitqs k) (runq k) (cache k) (current k) (idle_thread k)
    (in_isr k) (f (irq_locked k)) (tmo k) (slice_ticks k) (slice_max_prio k) (slice_expired k).
#[export] Instance set_tmo : Settable tmo := fun f k =>
  mk_kernel (threads k) (waitqs k) (runq k) (cache k) (current k) (idle_thread k)
    (in_isr k) (irq_locked k) (f (tmo k)) (slice_ticks k) (slice_max_prio k) (slice_expired k).
#[export] Instance set_slice_ticks : Settable slice_ticks := fun f k =>
  mk_kernel (threads k) (waitqs k) (runq k) (cache k) (current k) (idle_thread k)
    (in_isr k) (irq_locked k) (tmo k) (f (slice_ticks k)) (slice_max_prio k) (slice_expired k).
#[export] Instance set_slice_max_prio : Settable slice_max_prio := fun f k =>
  mk_kernel (threads k) (waitqs k) (runq k) (cache k) (current k) (idle_thread k)
    (in_isr k) (irq_locked k) (tmo k) (slice_ticks k) (f (slice_max_prio k)) (slice_expired k).
#[export] Instance set_slice_expired : Settable slice_expired := fun f k =>
  mk_kernel (threads k) (waitqs k) (runq k) (cache k) (current k) (idle_thread k)
    (in_isr k) (irq_locked k) (tmo k) (slice_ticks k) (slice_max_prio k) (f (slice_expired k)).

(** [thread->member = ...] and [wait_q->waitq = ...]. *)
Definition upd_thread (t : tid) (f : k_thread -> k_thread) (k : kernel) : kernel :=
  k <| threads ::= fun th => <[t := f (th t)]> th |>.
Definition upd_waitq (w : wqid) (f : list tid -> list tid) (k : kernel) : kernel :=
  k <| waitqs ::= fun wqs => <[w := f (wqs w)]> wqs |>.

(** ** ksched.h *)

Definition z_is_idle_thread_object (t : tid) (k : kernel) : bool :=
  bool_decide (t = idle_thread k).

Definition z_is_thread_state_set (t : k_thread) (state : Z) : bool :=
  flag_set (thread_state t) state.
Definition z_is_thread_suspended (t : k_thread) : bool :=
  flag_set (thread_state t) _THREAD_SUSPENDED.
Definition z_is_thread_pending (t : k_thread) : bool :=
  flag_set (thread_state t) _THREAD_PENDING.
Definition z_is_thread_queued (t : k_thread) : bool :=
  z_is_thread_state_set t _THREAD_QUEUED.
Definition z_has_thread_started (t : k_thread) : bool :=
  negb (flag_set (thread_state t) _THREAD_PRESTART).

Definition z_is_thread_prevented_from_running (t : k_thread) : bool :=
  flag_set (thread_state t)
    (Z.lor _THREAD_PENDING (Z.lor _THREAD_PRESTART (Z.lor _THREAD_DEAD
      (Z.lor _THREAD_DUMMY _THREAD_SUSPENDED)))).

Definition z_is_thread_timeout_active (t : tid) (k : kernel) : bool :=
  negb (z_is_inactive_timeout (TO_thread t) (tmo k)).

Definition z_is_thread_ready (t : tid) (k : kernel) : bool :=
  negb (z_is_thread_prevented_from_running (threads k t) || z_is_thread_timeout_active t k).

Definition set_state (f : Z) (t : k_thread) : k_thread :=
  t <| thread_state ::= fun s => Z.lor s f |>.
Definition clear_state (f : Z) (t : k_thread) : k_thread :=
  t <| thread_state ::= fun s => Z.land s (Z.lnot f) |>.

Definition z_mark_thread_as_suspended := set_state _THREAD_SUSPENDED.
Definition z_mark_thread_as_not_suspended := clear_state _THREAD_SUSPENDED.
Definition z_mark_thread_as_started := clear_state _THREAD_PRESTART.
Definition z_mark_thread_as_pending := set_state _THREAD_PENDING.
Definition z_mark_thread_as_not_pending := clear_state _THREAD_PENDING.

Definition z_is_prio_higher (prio1 prio2 : Z) : bool := prio1 <? prio2.
Definition z_is_under_prio_ceiling (p : Z) : bool := p >=? CONFIG_PRIORITY_CEILING.
Definition z_get_new_prio_with_ceiling (p : Z) : Z :=
  if z_is_under_prio_ceiling p then p else CONFIG_PRIORITY_CEILING.

Definition z_waitq_head (w : wqid) (k : kernel) : option tid := head (waitqs k w).

(** [arch_thread_return_value_set] and its variant with data
    (kernel_internal.h). *)
Definition arch_thread_return_value_set (t : tid) (v : Z) (k : kernel) : kernel :=
  upd_thread t (fun th => th <| swap_retval := v |>) k.
Definition z_thread_return_value_set_with_data (t : tid) (v data : Z) (k : kernel) : kernel :=
  upd_thread t (fun th => th <| swap_retval := v |> <| swap_data := data |>) k.

(** ** Code that can be switched out *)

(** A run of kernel code by one thread either finishes with a value, or
    gives up the CPU in [z_swap()] with the rest of its code as a
    continuation, to be entered when the scheduler makes the thread current
    again. *)
Inductive outcome (S A : Type) :=
| Done (a : A) (s : S)
| Swapped (s : S) (resume : S -> outcome S A).
Arguments Done {S A} a s.
Arguments Swapped {S A} s resume.

Definition M (S A : Type) : Type := S -> outcome S A.

Fixpoint obind {S A B} (r : outcome S A) (f : A -> M S B) : outcome S B :=
  match r with
  | Done a s => f a s
  | Swapped s k => Swapped s (fun s' => obind (k s') f)
  end.

Definition ret {S A} (a : A) : M S A := fun s => Done a s.
Definition bind {S A B} (m : M S A) (f : A -> M S B) : M S B := fun s => obind (m s) f.

Declare Scope kernel_scope.
Delimit Scope kernel_scope with kernel.
Notation "x <- m ;; c" := (bind m (fun x => c))
  (at level 100, m at next level, right associativity) : kernel_scope.
Notation "m ;; c" := (bind m (fun _ => c))
  (at level 100, c at level 200, right associativity) : kernel_scope.
#[global] Open Scope kernel_scope.

(** Kernel code runs on the kernel structure together with the object [O]
    the call works on. *)
Section Effects.
Context {O : Type}.

Definition kget {A} (f : kernel -> A) : M (kernel * O) A := fun s => Done (f s.1) s.
Definition kmod (f : kernel -> kernel) : M (kernel * O) unit :=
  fun s => Done tt (f s.1, s.2).
Definition kcall {A} (f : kernel -> A * kernel) : M (kernel * O) A :=
  fun s => let '(a, k) := f s.1 in Done a (k, s.2).
Definition oget {A} (f : O -> A) : M (kernel * O) A := fun s => Done (f s.2) s.
Definition omod (f : O -> O) : M (kernel * O) unit := fun s => Done tt (s.1, f s.2).

(** [k_spin_lock] on one CPU masks interrupts; the key says whether they were
    enabled, and [k_spin_unlock] restores that. *)
Definition k_spin_lock : M (kernel * O) bool :=
  fun s => Done (negb (irq_locked s.1)) (s.1 <| irq_locked := true |>, s.2).
Definition k_spin_unlock (key : bool) : M (kernel * O) unit :=
  kmod (fun k => k <| irq_locked := negb key |>).

End Effects.
