(* ===== verification/Sched.v ===== *)
(** The scheduler (kernel/sched.c, kernel/include/kswap.h), on one CPU.

    One definition per function of the C file, in its order: the priority
    queues, the ready queue and its cache, time slicing, pending and waking
    threads, priorities, rescheduling and the context switch, the thread API
    (yield, sleep, wakeup, suspend, resume, abort, join) and the wait/wake
    primitives.  Spinlocks that only guard one function have no effect on a
    single CPU beyond masking interrupts and are left out where the function
    does not reschedule. *)
From S2P Require Import Prelude TimeUnits Timeout Kernel.

(** ** Priorities and preemption *)

Definition is_preempt (t : k_thread) : bool := preempt t <=? _PREEMPT_THRESHOLD.

(** CONFIG_NUM_METAIRQ_PRIORITIES is 0. *)
Definition is_metairq (t : k_thread) : bool := false.

Definition z_sched_prio_cmp (thread_1 thread_2 : k_thread) : Z :=
  let b1 := prio thread_1 in
  let b2 := prio thread_2 in
  if negb (b1 =? b2) then b2 - b1 else 0.

Definition should_preempt (thread : tid) (preempt_ok : bool) (k : kernel) : bool :=
  if preempt_ok then true
  else if z_is_thread_prevented_from_running (threads k (current k)) then true
  else is_preempt (threads k (current k)) || is_metairq (threads k thread).

(** ** Priority queues *)

(** The loop inserts before the first entry of lower priority. *)
Fixpoint z_priq_dumb_add (th : tid -> k_thread) (thread : tid) (pq : list tid) : list tid :=
  match pq with
  | [] => [thread]
  | t :: r =>
      if z_sched_prio_cmp (th thread) (th t) >? 0 then thread :: pq
      else t :: z_priq_dumb_add th thread r
  end.

(** [sys_dlist_remove]. *)
Fixpoint z_priq_dumb_remove (thread : tid) (pq : list tid) : list tid :=
  match pq with
  | [] => []
  | t :: r => if decide (t = thread) then r else t :: z_priq_dumb_remove thread r
  end.

Definition z_priq_dumb_best (pq : list tid) : option tid := head pq.

Definition runq_add (thread : tid) (k : kernel) : kernel :=
  k <| runq ::= z_priq_dumb_add (threads k) thread |>.
Definition runq_remove (thread : tid) (k : kernel) : kernel :=
  k <| runq ::= z_priq_dumb_remove thread |>.
Definition runq_best (k : kernel) : option tid := z_priq_dumb_best (runq k).

Definition queue_thread (thread : tid) (k : kernel) : kernel :=
  runq_add thread (upd_thread thread (set_state _THREAD_QUEUED) k).

Definition dequeue_thread (thread : tid) (k : kernel) : kernel :=
  runq_remove thread (upd_thread thread (clear_state _THREAD_QUEUED) k).

Definition next_up (k : kernel) : tid :=
  match runq_best k with
  | Some thread => thread
  | None => idle_thread k
  end.

(** ** Time slicing *)

Definition slice_time (k : kernel) : Z := slice_ticks k.

Definition sliceable (thread : tid) (k : kernel) : bool :=
  let t := threads k thread in
  is_preempt t
  && negb (slice_time k =? 0)
  && negb (z_is_prio_higher (prio t) (slice_max_prio k))
  && negb (z_is_thread_prevented_from_running t)
  && negb (z_is_idle_thread_object thread k).

Definition slice_timeout (k : kernel) : kernel := k <| slice_expired := true |>.

Definition z_reset_time_slice (curr : tid) (k : kernel) : kernel :=
  let k1 := k <| tmo ::= fun q => (z_abort_timeout TO_slice q).2 |>
              <| slice_expired := false |> in
  if sliceable curr k1
  then k1 <| tmo ::= z_add_timeout TO_slice (slice_time k1 - 1) |>
  else k1.

Definition k_sched_time_slice_set (hz_ticks max_days slice p : Z) (k : kernel) : kernel :=
  let k1 := k <| slice_ticks := swrap 32 (k_ms_to_ticks_ceil32 max_days hz_ticks slice) |>
              <| slice_max_prio := p |> in
  z_reset_time_slice (current k1) k1.

(** ** The ready queue cache *)

Definition update_cache (preempt_ok : bool) (k : kernel) : kernel :=
  let thread := next_up k in
  if should_preempt thread preempt_ok k then
    let k1 := if decide (thread <> current k) then z_reset_time_slice thread k else k in
    k1 <| cache := thread |>
  else k <| cache := current k |>.

Definition move_thread_to_end_of_prio_q (thread : tid) (k : kernel) : kernel :=
  let k1 := if z_is_thread_queued (threads k thread) then dequeue_thread thread k else k in
  let k2 := queue_thread thread k1 in
  update_cache (bool_decide (thread = current k2)) k2.

Definition z_time_slice (k : kernel) : kernel :=
  let curr := current k in
  if slice_expired k && sliceable curr k then
    let k1 := if negb (z_is_thread_prevented_from_running (threads k curr))
              then move_thread_to_end_of_prio_q curr k else k in
    z_reset_time_slice curr k1
  else k.

Definition ready_thread (thread : tid) (k : kernel) : kernel :=
  if negb (z_is_thread_queued (threads k thread)) && z_is_thread_ready thread k
  then update_cache false (queue_thread thread k)
  else k.

Definition z_ready_thread (thread : tid) (k : kernel) : kernel := ready_thread thread k.

Definition z_move_thread_to_end_of_prio_q (thread : tid) (k : kernel) : kernel :=
  move_thread_to_end_of_prio_q thread k.

(** ** Pending and waking *)

Definition z_abort_thread_timeout (thread : tid) (k : kernel) : Z * kernel :=
  let '(ret, q) := z_abort_timeout (TO_thread thread) (tmo k) in (ret, k <| tmo := q |>).

Definition unready_thread (thread : tid) (k : kernel) : kernel :=
  let k1 := if z_is_thread_queued (threads k thread) then dequeue_thread thread k else k in
  update_cache (bool_decide (thread = current k1)) k1.

Definition add_to_waitq_locked (thread : tid) (wait_q : option wqid) (k : kernel) : kernel :=
  let k1 := upd_thread thread z_mark_thread_as_pending (unready_thread thread k) in
  match wait_q with
  | Some w =>
      let k2 := upd_thread thread (fun t => t <| pended_on := Some w |>) k1 in
      upd_waitq w (z_priq_dumb_add (threads k2) thread) k2
  | None => k1
  end.

Definition z_add_thread_timeout (thread : tid) (timeout : Z) (k : kernel) : kernel :=
  k <| tmo ::= z_add_timeout (TO_thread thread) timeout |>.

Definition add_thread_timeout (thread : tid) (timeout : Z) (k : kernel) : kernel :=
  if negb (timeout =? K_FOREVER) then z_add_thread_timeout thread timeout k else k.

Definition pend_locked (thread : tid) (wait_q : option wqid) (timeout : Z) (k : kernel)
  : kernel :=
  add_thread_timeout thread timeout (add_to_waitq_locked thread wait_q k).

Definition unpend_thread_no_timeout (thread : tid) (k : kernel) : kernel :=
  match pended_on (threads k thread) with
  | Some w =>
      upd_thread thread (fun t => z_mark_thread_as_not_pending t <| pended_on := None |>)
        (upd_waitq w (z_priq_dumb_remove thread) k)
  | None => k
  end.

Definition z_unpend_thread_no_timeout (thread : tid) (k : kernel) : kernel :=
  match pended_on (threads k thread) with
  | Some _ => unpend_thread_no_timeout thread k
  | None => k
  end.

Definition z_sched_wake_thread (thread : tid) (is_timeout : bool) (k : kernel) : kernel :=
  let t := threads k thread in
  let killed := flag_set (thread_state t) _THREAD_DEAD
                || flag_set (thread_state t) _THREAD_ABORTING in
  let do_nothing := no_wake_on_timeout t && is_timeout in
  let k1 := upd_thread thread (fun t => t <| no_wake_on_timeout := false |>) k in
  if do_nothing then k1
  else if negb killed then
    let k2 := match pended_on (threads k1 thread) with
              | Some _ => unpend_thread_no_timeout thread k1
              | None => k1
              end in
    let k3 := upd_thread thread z_mark_thread_as_started k2 in
    let k4 := if is_timeout then upd_thread thread z_mark_thread_as_not_suspended k3 else k3 in
    ready_thread thread k4
  else k1.

Definition z_thread_timeout (thread : tid) (k : kernel) : kernel :=
  z_sched_wake_thread thread true k.

Definition z_unpend1_no_timeout (wait_q : wqid) (k : kernel) : option tid * kernel :=
  match z_priq_dumb_best (waitqs k wait_q) with
  | Some thread => (Some thread, unpend_thread_no_timeout thread k)
  | None => (None, k)
  end.

Definition z_unpend_first_thread (wait_q : wqid) (k : kernel) : option tid * kernel :=
  match z_priq_dumb_best (waitqs k wait_q) with
  | Some thread =>
      (Some thread, (z_abort_thread_timeout thread (unpend_thread_no_timeout thread k)).2)
  | None => (None, k)
  end.

Definition z_unpend_thread (thread : tid) (k : kernel) : kernel :=
  (z_abort_thread_timeout thread (z_unpend_thread_no_timeout thread k)).2.

(** The [while] loop; each round removes the head of the wait queue, so the
    length of the queue is enough fuel. *)
Fixpoint unpend_all_loop (body : tid -> kernel -> kernel) (fuel : nat) (wait_q : wqid)
    (need_sched : bool) (k : kernel) : bool * kernel :=
  match fuel with
  | O => (need_sched, k)
  | S fuel' =>
      match z_waitq_head wait_q k with
      | Some thread => unpend_all_loop body fuel' wait_q true (body thread k)
      | None => (need_sched, k)
      end
  end.

Definition z_unpend_all (wait_q : wqid) (k : kernel) : bool * kernel :=
  unpend_all_loop (fun thread k => z_ready_thread thread (z_unpend_thread thread k))
    (length (waitqs k wait_q)) wait_q false k.

Definition unpend_all (wait_q : wqid) (k : kernel) : kernel :=
  (unpend_all_loop (fun thread k =>
      let k1 := unpend_thread_no_timeout thread k in
      let k2 := (z_abort_thread_timeout thread k1).2 in
      let k3 := arch_thread_return_value_set thread 0 k2 in
      ready_thread thread k3)
    (length (waitqs k wait_q)) wait_q false k).2.

(** ** Priorities *)

Definition z_set_prio (thread : tid) (p : Z) (k : kernel) : bool * kernel :=
  let need_sched := z_is_thread_ready thread k in
  if need_sched then
    let k1 := dequeue_thread thread k in
    let k2 := upd_thread thread (fun t => t <| prio := p |>) k1 in
    (true, update_cache true (queue_thread thread k2))
  else (false, upd_thread thread (fun t => t <| prio := p |>) k).

(** ** Rescheduling and the context switch *)

Section Resched.
Context {O : Type}.

Definition z_swap_next_thread (k : kernel) : tid := cache k.

(** [do_swap]: the code after [arch_switch()] runs when the thread is current
    again and returns its [swap_retval]. *)
Definition z_swap (key : bool) : M (kernel * O) Z := fun s =>
  let old_thread := current s.1 in
  let k1 := upd_thread old_thread (fun t => t <| swap_retval := - EAGAIN |>) s.1 in
  let new_thread := z_swap_next_thread k1 in
  let after (k : kernel) (o : O) :=
    Done (swap_retval (threads k old_thread)) (k <| irq_locked := negb key |>, o) in
  if decide (new_thread <> old_thread) then
    Swapped (z_reset_time_slice new_thread (k1 <| current := new_thread |>), s.2)
            (fun s' => after s'.1 s'.2)
  else after k1 s.2.

Definition z_swap_irqlock (key : bool) : M (kernel * O) Z := z_swap key.

Definition resched (key : bool) (k : kernel) : bool := key && negb (in_isr k).

Definition need_swap (k : kernel) : bool := bool_decide (cache k <> current k).

Definition z_reschedule (key : bool) : M (kernel * O) unit :=
  go <- kget (fun k => resched key k && need_swap k) ;;
  if (go : bool) then (_ <- z_swap key ;; ret tt) else k_spin_unlock key.

Definition z_reschedule_irqlock (key : bool) : M (kernel * O) unit :=
  go <- kget (resched key) ;;
  if (go : bool) then (_ <- z_swap_irqlock key ;; ret tt) else k_spin_unlock key.

Definition z_reschedule_unlocked : M (kernel * O) unit :=
  key <- k_spin_lock ;; z_reschedule_irqlock key.

Definition z_pend_curr (key : bool) (wait_q : wqid) (timeout : Z) : M (kernel * O) Z :=
  kmod (fun k => pend_locked (current k) (Some wait_q) timeout k) ;;
  z_swap key.

Definition z_thread_priority_set (thread : tid) (p : Z) : M (kernel * O) unit :=
  need_sched <- kcall (z_set_prio thread p) ;;
  unlocked <- kget (fun k => sched_locked (threads k (current k)) =? 0) ;;
  if need_sched && unlocked then z_reschedule_unlocked else ret tt.

Definition z_impl_k_thread_priority_set (thread : tid) (p : Z) : M (kernel * O) unit :=
  z_thread_priority_set thread p.

Definition z_impl_k_thread_priority_get (thread : tid) (k : kernel) : Z :=
  prio (threads k thread).

Definition k_sched_lock : M (kernel * O) unit :=
  kmod (fun k => upd_thread (current k) (fun t => t <| sched_locked ::= fun x => u8 (x - 1) |>) k).

Definition k_sched_unlock : M (kernel * O) unit :=
  kmod (fun k => update_cache false
    (upd_thread (current k) (fun t => t <| sched_locked ::= fun x => u8 (x + 1) |>) k)) ;;
  z_reschedule_unlocked.

(** Called on the way out of the outermost interrupt. *)
Definition z_get_next_switch_handle : M (kernel * O) unit :=
  kmod (fun k => k <| current := cache k |>).

(** ** Thread control *)

Definition z_sched_start (thread : tid) : M (kernel * O) unit :=
  key <- k_spin_lock ;;
  started <- kget (fun k => z_has_thread_started (threads k thread)) ;;
  if (started : bool) then k_spin_unlock key
  else
    kmod (fun k => ready_thread thread (upd_thread thread z_mark_thread_as_started k)) ;;
    z_reschedule key.

Definition z_impl_k_thread_suspend (thread : tid) : M (kernel * O) unit :=
  kmod (fun k => (z_abort_thread_timeout thread k).2) ;;
  kmod (fun k =>
    let k1 := if z_is_thread_queued (threads k thread) then dequeue_thread thread k else k in
    let k2 := upd_thread thread z_mark_thread_as_suspended k1 in
    update_cache (bool_decide (thread = current k2)) k2) ;;
  self <- kget (fun k => bool_decide (thread = current k)) ;;
  if (self : bool) then z_reschedule_unlocked else ret tt.

Definition z_impl_k_thread_resume (thread : tid) : M (kernel * O) unit :=
  key <- k_spin_lock ;;
  suspended <- kget (fun k => z_is_thread_suspended (threads k thread)) ;;
  if negb suspended then k_spin_unlock key
  else
    kmod (fun k => ready_thread thread (upd_thread thread z_mark_thread_as_not_suspended k)) ;;
    z_reschedule key.

Definition k_can_yield (pre_kernel : bool) (k : kernel) : bool :=
  negb (pre_kernel || in_isr k || z_is_idle_thread_object (current k) k).

Definition z_impl_k_yield : M (kernel * O) unit :=
  key <- k_spin_lock ;;
  kmod (fun k => update_cache true (queue_thread (current k) (dequeue_thread (current k) k))) ;;
  _ <- z_swap key ;; ret tt.

Definition z_tick_sleep (ticks : Z) : M (kernel * O) Z :=
  if ticks =? 0 then (z_impl_k_yield ;; ret 0)
  else
    now <- kget (fun k => sys_clock_tick_get_32 (tmo k)) ;;
    let expected_wakeup_ticks :=
      if Z_TICK_ABS ticks <=? 0 then u32 (ticks + now) else u32 (Z_TICK_ABS ticks) in
    key <- k_spin_lock ;;
    kmod (fun k => unready_thread (current k) k) ;;
    kmod (fun k => z_add_thread_timeout (current k) ticks k) ;;
    kmod (fun k => upd_thread (current k) z_mark_thread_as_suspended k) ;;
    _ <- z_swap key ;;
    now' <- kget (fun k => sys_clock_tick_get_32 (tmo k)) ;;
    let left := expected_wakeup_ticks - now' in
    ret (if left >? 0 then s32 left else 0).

Definition z_impl_k_sleep (hz_ticks max_days : Z) (timeout : Z) : M (kernel * O) Z :=
  if timeout =? K_FOREVER then
    self <- kget current ;;
    z_impl_k_thread_suspend self ;; ret (s32 K_TICKS_FOREVER)
  else
    ticks <- z_tick_sleep timeout ;;
    ret (s32 (k_ticks_to_ms_floor64 max_days hz_ticks ticks)).

Definition z_impl_k_usleep (hz_ticks max_days : Z) (us : Z) : M (kernel * O) Z :=
  ticks <- z_tick_sleep (s32 (k_us_to_ticks_ceil64 max_days hz_ticks us)) ;;
  ret (s32 (k_ticks_to_us_floor64 max_days hz_ticks ticks)).

Definition z_impl_k_wakeup (thread : tid) : M (kernel * O) unit :=
  pending <- kget (fun k => z_is_thread_pending (threads k thread)) ;;
  if (pending : bool) then ret tt
  else
    aborted <- kcall (z_abort_thread_timeout thread) ;;
    sleeping <- kget (fun k => thread_state (threads k thread) =? _THREAD_SUSPENDED) ;;
    if (aborted <? 0) && negb sleeping then ret tt
    else
      kmod (fun k => z_ready_thread thread (upd_thread thread z_mark_thread_as_not_suspended k)) ;;
      isr <- kget in_isr ;;
      if negb isr then z_reschedule_unlocked else ret tt.

Definition z_impl_k_is_preempt_thread (k : kernel) : bool :=
  negb (in_isr k) && is_preempt (threads k (current k)).

Definition end_thread (thread : tid) (k : kernel) : kernel :=
  if negb (flag_set (thread_state (threads k thread)) _THREAD_DEAD) then
    let k1 := upd_thread thread
                (fun t => clear_state _THREAD_ABORTING (set_state _THREAD_DEAD t)) k in
    let k2 := if z_is_thread_queued (threads k1 thread) then dequeue_thread thread k1 else k1 in
    let k3 := match pended_on (threads k2 thread) with
              | Some _ => unpend_thread_no_timeout thread k2
              | None => k2
              end in
    let k4 := (z_abort_thread_timeout thread k3).2 in
    let k5 := unpend_all (join_queue (threads k4 thread)) k4 in
    update_cache true k5
  else k.

(** [k_panic()] does not return; the result says whether it was reached. *)
Inductive abort_result := ABORT_RETURNED | ABORT_PANIC.

Definition z_thread_abort (thread : tid) : M (kernel * O) abort_result :=
  key <- k_spin_lock ;;
  essential <- kget (fun k => flag_set (user_options (threads k thread)) K_ESSENTIAL) ;;
  if (essential : bool) then (k_spin_unlock key ;; ret ABORT_PANIC)
  else
    dead <- kget (fun k => flag_set (thread_state (threads k thread)) _THREAD_DEAD) ;;
    if (dead : bool) then (k_spin_unlock key ;; ret ABORT_RETURNED)
    else
      kmod (end_thread thread) ;;
      self <- kget (fun k => bool_decide (thread = current k) && negb (in_isr k)) ;;
      (if (self : bool) then (_ <- z_swap key ;; ret tt) else ret tt) ;;
      k_spin_unlock key ;;
      ret ABORT_RETURNED.

Definition z_impl_k_thread_join (thread : tid) (timeout : Z) : M (kernel * O) Z :=
  key <- k_spin_lock ;;
  k <- kget (fun k => k) ;;
  if flag_set (thread_state (threads k thread)) _THREAD_DEAD then
    k_spin_unlock key ;; ret 0
  else if timeout =? K_NO_WAIT then
    k_spin_unlock key ;; ret (- EBUSY)
  else if bool_decide (thread = current k)
          || bool_decide (pended_on (threads k thread) = Some (join_queue (threads k (current k))))
  then k_spin_unlock key ;; ret (- EDEADLK)
  else
    kmod (fun k => add_to_waitq_locked (current k) (Some (join_queue (threads k thread))) k) ;;
    kmod (fun k => add_thread_timeout (current k) timeout k) ;;
    z_swap key.

(** ** Wait and wake primitives *)

Definition z_sched_wake (wait_q : wqid) (retval data : Z) (k : kernel) : bool * kernel :=
  match z_priq_dumb_best (waitqs k wait_q) with
  | Some thread =>
      let k1 := z_thread_return_value_set_with_data thread retval data k in
      let k2 := unpend_thread_no_timeout thread k1 in
      let k3 := (z_abort_thread_timeout thread k2).2 in
      (true, ready_thread thread k3)
  | None => (false, k)
  end.

Definition z_sched_wait (key : bool) (wait_q : wqid) (timeout : Z) : M (kernel * O) (Z * Z) :=
  r <- z_pend_curr key wait_q timeout ;;
  data <- kget (fun k => swap_data (threads k (current k))) ;;
  ret (r, data).

End Resched.

(** [_WAIT_Q_FOR_EACH] over the queue as it was found, stopping at the first
    nonzero status. *)
Fixpoint waitq_walk {D} (func : tid -> kernel * D -> Z * (kernel * D)) (l : list tid)
    (s : kernel * D) : Z * (kernel * D) :=
  match l with
  | [] => (0, s)
  | t :: r =>
      let '(status, s1) := func t s in
      if negb (status =? 0) then (status, s1) else waitq_walk func r s1
  end.

Definition z_sched_waitq_walk {D} (wait_q : wqid) (func : tid -> kernel * D -> Z * (kernel * D))
    (s : kernel * D) : Z * (kernel * D) :=
  waitq_walk func (waitqs s.1 wait_q) s.

(** The loop [while ((thread = z_unpend_first_thread(w)) != NULL) body]
    shared by the objects that wake all their waiters; the result counts the
    woken threads.  Each round shortens the queue, so its length is enough
    fuel. *)
Fixpoint unpend_first_loop (body : tid -> kernel -> kernel) (fuel : nat) (w : wqid)
    (woken : Z) (k : kernel) : Z * kernel :=
  match fuel with
  | O => (woken, k)
  | S fuel' =>
      match z_unpend_first_thread w k with
      | (Some t, k1) => unpend_first_loop body fuel' w (woken + 1) (body t k1)
      | (None, k1) => (woken, k1)
      end
  end.

(** The loop of [z_sched_wake_all]; the length of the queue is enough fuel. *)
Fixpoint wake_all_loop (fuel : nat) (wait_q : wqid) (retval data : Z) (woken : bool) (k : kernel) : bool * kernel :=
  match fuel with
  | O => (woken, k)
  | S fuel' =>
      match z_sched_wake wait_q retval data k with
      | (true, k1) => wake_all_loop fuel' wait_q retval data true k1
      | (false, k1) => (woken, k1)
      end
  end.

Definition z_sched_wake_all (wait_q : wqid) (retval data : Z) (k : kernel) : bool * kernel :=
  wake_all_loop (length (waitqs k wait_q)) wait_q retval data false k.

(** [z_waitq_init]. *)
Definition z_waitq_init (w : wqid) (k : kernel) : kernel := upd_waitq w (fun _ => []) k.
