(* ===== verification/SchedInv.v ===== *)
(** The scheduler invariant and its preservation.

    [kwf] says that the ready queue holds exactly the ready threads other
    than the idle thread, sorted by priority; that a thread is on a wait
    queue exactly when its [pended_on] names it, and is then marked pending;
    that the timeout queue is well formed; and that [ready_q.cache] is the
    head of the ready queue unless the current thread is running and cannot
    be preempted.  The lemmas show that every function of sched.c keeps it,
    [z_swap] and the interrupt return included, and that a context switch
    therefore always enters the highest priority ready thread. *)
From S2P Require Import Prelude TimeUnits Timeout Kernel Sched.

Create HintDb sched.

(** ** Thread state flags *)

Lemma testbit_set_state t n m :
  0 <= n -> Z.testbit (thread_state (set_state (BIT n) t)) m
            = Z.testbit (thread_state t) m || (m =? n).
Proof.
  intros Hn. unfold set_state, upd, set_thread_state; simpl.
  rewrite Z.lor_spec, BIT_pow, Z.pow2_bits_eqb, (Z.eqb_sym n m) by done. done.
Qed.

Lemma testbit_clear_state t n m :
  0 <= n -> 0 <= m -> Z.testbit (thread_state (clear_state (BIT n) t)) m
            = Z.testbit (thread_state t) m && negb (m =? n).
Proof.
  intros Hn Hm. unfold clear_state, upd, set_thread_state; simpl.
  rewrite Z.land_spec, Z.lnot_spec, BIT_pow, Z.pow2_bits_eqb, (Z.eqb_sym n m) by done. done.
Qed.

Lemma queued_bit t : z_is_thread_queued t = Z.testbit (thread_state t) 7.
Proof. by apply flag_set_BIT. Qed.
Lemma pending_bit t : z_is_thread_pending t = Z.testbit (thread_state t) 1.
Proof. by apply flag_set_BIT. Qed.
Lemma suspended_bit t : z_is_thread_suspended t = Z.testbit (thread_state t) 4.
Proof. by apply flag_set_BIT. Qed.
Lemma dead_bit t : flag_set (thread_state t) _THREAD_DEAD = Z.testbit (thread_state t) 3.
Proof. by apply flag_set_BIT. Qed.

Lemma flag_set_lor s f g : flag_set s (Z.lor f g) = flag_set s f || flag_set s g.
Proof.
  unfold flag_set. rewrite Z.land_lor_distr_r.
  destruct (Z.land s f =? 0) eqn:E1, (Z.land s g =? 0) eqn:E2; simpl;
    rewrite ?Z.eqb_eq, ?Z.eqb_neq in *.
  - by rewrite E1, E2.
  - rewrite E1, Z.lor_0_l. by apply negb_true_iff, Z.eqb_neq.
  - rewrite E2, Z.lor_0_r. by apply negb_true_iff, Z.eqb_neq.
  - apply negb_true_iff, Z.eqb_neq. intros [? ?]%Z.lor_eq_0_iff. done.
Qed.

Lemma prevented_bits t :
  z_is_thread_prevented_from_running t
  = Z.testbit (thread_state t) 1 || (Z.testbit (thread_state t) 2
    || (Z.testbit (thread_state t) 3 || (Z.testbit (thread_state t) 0
    || Z.testbit (thread_state t) 4))).
Proof.
  unfold z_is_thread_prevented_from_running. rewrite !flag_set_lor.
  unfold _THREAD_PENDING, _THREAD_PRESTART, _THREAD_DEAD, _THREAD_DUMMY, _THREAD_SUSPENDED.
  by rewrite !flag_set_BIT.
Qed.

Create Rewrite HintDb flags.
#[export] Hint Rewrite queued_bit pending_bit suspended_bit dead_bit prevented_bits : flags.

Ltac unfold_marks :=
  unfold z_mark_thread_as_suspended, z_mark_thread_as_not_suspended,
    z_mark_thread_as_started, z_mark_thread_as_pending, z_mark_thread_as_not_pending,
    _THREAD_DUMMY, _THREAD_PENDING, _THREAD_PRESTART, _THREAD_DEAD, _THREAD_SUSPENDED,
    _THREAD_ABORTING, _THREAD_QUEUED in *.

(** Turn flag tests and updates into booleans on the bits of the old state. *)
Ltac flags :=
  unfold_marks; autorewrite with flags in *;
  rewrite ?testbit_set_state, ?testbit_clear_state in * by lia; simpl in *.

(** ** Field lookups *)

Lemma threads_upd_thread t f k t' :
  threads (upd_thread t f k) t' = if decide (t' = t) then f (threads k t) else threads k t'.
Proof.
  unfold upd_thread, upd, set_threads; simpl. case_decide; subst.
  - by rewrite fn_lookup_insert.
  - by rewrite fn_lookup_insert_ne.
Qed.

Lemma waitqs_upd_waitq w f k w' :
  waitqs (upd_waitq w f k) w' = if decide (w' = w) then f (waitqs k w) else waitqs k w'.
Proof.
  unfold upd_waitq, upd, set_waitqs; simpl. case_decide; subst.
  - by rewrite fn_lookup_insert.
  - by rewrite fn_lookup_insert_ne.
Qed.

(** ** Priority queues *)

Section Priq.
Context (th : tid -> k_thread).

Definition prio_le (a b : tid) : Prop := prio (th a) <= prio (th b).

Lemma prio_cmp_pos a b : (z_sched_prio_cmp a b >? 0) = (prio a <? prio b).
Proof. unfold z_sched_prio_cmp. destruct (prio a =? prio b) eqn:E; simpl; lia. Qed.

Lemma priq_add_perm t l : z_priq_dumb_add th t l ≡ₚ t :: l.
Proof.
  induction l as [|a r IH]; simpl; [done|]. rewrite prio_cmp_pos.
  destruct (_ <? _); [done|]. rewrite IH. apply Permutation_swap.
Qed.

Lemma priq_add_elem t l x : x ∈ z_priq_dumb_add th t l <-> x = t \/ x ∈ l.
Proof. rewrite priq_add_perm. by rewrite elem_of_cons. Qed.

Lemma priq_add_nodup t l : t ∉ l -> NoDup l -> NoDup (z_priq_dumb_add th t l).
Proof. intros. rewrite priq_add_perm. by constructor. Qed.

Lemma priq_add_sorted t l :
  StronglySorted prio_le l -> StronglySorted prio_le (z_priq_dumb_add th t l).
Proof.
  induction 1 as [|a r Hr IH Ha]; simpl; [repeat constructor|]. rewrite prio_cmp_pos.
  destruct (prio (th t) <? prio (th a)) eqn:E.
  - constructor; [by constructor|]. constructor; [unfold prio_le; lia|].
    eapply Forall_impl; [exact Ha|]. unfold prio_le. simpl. intros; lia.
  - constructor; [done|]. apply Forall_forall. intros x Hx.
    apply priq_add_elem in Hx as [->|Hx]; [unfold prio_le; lia|].
    rewrite Forall_forall in Ha. by apply Ha.
Qed.

(** Insertion behind every thread of the same or a higher priority. *)
Lemma priq_add_fifo t l :
  StronglySorted prio_le l ->
  z_priq_dumb_add th t l
  = filter (fun x => prio (th x) <= prio (th t)) l ++ t ::
    filter (fun x => ~ prio (th x) <= prio (th t)) l.
Proof.
  induction 1 as [|a r Hr IH Ha]; simpl; [done|]. rewrite prio_cmp_pos.
  rewrite !filter_cons. destruct (prio (th t) <? prio (th a)) eqn:E.
  - assert (~ prio (th a) <= prio (th t)) by lia.
    rewrite decide_False, decide_True by done.
    assert (Hall : Forall (fun x => ~ prio (th x) <= prio (th t)) r).
    { eapply Forall_impl; [exact Ha|]. unfold prio_le; simpl; intros; lia. }
    rewrite (filter_none (fun x => prio (th x) <= prio (th t))) by done.
    by rewrite filter_all.
  - rewrite decide_True, decide_False by lia. simpl. by rewrite IH.
Qed.

End Priq.

Lemma priq_remove_elem t l x : NoDup l -> x ∈ z_priq_dumb_remove t l <-> x ∈ l /\ x <> t.
Proof.
  induction l as [|a r IH]; simpl; intros Hnd.
  - split; [by intros ?%elem_of_nil|by intros [?%elem_of_nil _]].
  - apply NoDup_cons in Hnd as [Hni Hnd]. case_decide; subst.
    + rewrite elem_of_cons. split; [intros Hx; split; [by right|by intros ->]|].
      by intros [[->|] ?].
    + rewrite !elem_of_cons, IH by done. split; [|tauto]. intros [->|?]; tauto.
Qed.

Lemma priq_remove_sublist t l : sublist (z_priq_dumb_remove t l) l.
Proof. induction l; simpl; [constructor|]. case_decide; by constructor. Qed.

Lemma priq_remove_nodup t l : NoDup l -> NoDup (z_priq_dumb_remove t l).
Proof. intros. eapply sublist_NoDup; [done|apply priq_remove_sublist]. Qed.

Lemma sublist_sorted {A} (R : A -> A -> Prop) l l' :
  sublist l l' -> StronglySorted R l' -> StronglySorted R l.
Proof.
  induction 1 as [|x l1 l2 Hs IH|x l1 l2 Hs IH]; intros Hl; [done| |].
  - apply StronglySorted_inv in Hl as [Hl Hx]. constructor; [by apply IH|].
    apply Forall_forall. intros y Hy. rewrite Forall_forall in Hx. apply Hx.
    eapply elem_of_submseteq; [done|by apply sublist_submseteq].
  - apply StronglySorted_inv in Hl as [Hl _]. by apply IH.
Qed.

Lemma priq_remove_sorted th t l :
  StronglySorted (prio_le th) l -> StronglySorted (prio_le th) (z_priq_dumb_remove t l).
Proof. apply sublist_sorted, priq_remove_sublist. Qed.

(** Only the priorities of the entries matter. *)
Lemma prio_le_ext th th' l :
  (forall t, t ∈ l -> prio (th' t) = prio (th t)) ->
  StronglySorted (prio_le th) l -> StronglySorted (prio_le th') l.
Proof.
  intros Hp. induction 1 as [|a r Hr IH Ha]; constructor.
  - apply IH. intros t Ht. apply Hp. by right.
  - apply Forall_forall. intros x Hx. rewrite Forall_forall in Ha.
    unfold prio_le. rewrite !Hp by (by left || by right). by apply Ha.
Qed.

(** ** The invariant *)

(** The queues agree with the thread records. *)
Record kbase (k : kernel) : Prop := {
  kb_nodup : NoDup (runq k);
  kb_sorted : StronglySorted (prio_le (threads k)) (runq k);
  kb_queued t : t ∈ runq k <-> z_is_thread_queued (threads k t) = true;
  kb_wq_nodup w : NoDup (waitqs k w);
  kb_wq t w : t ∈ waitqs k w <-> pended_on (threads k t) = Some w;
  kb_pending t : pended_on (threads k t) <> None <-> z_is_thread_pending (threads k t) = true;
  kb_idle : z_is_thread_prevented_from_running (threads k (idle_thread k)) = false;
  kb_idle_tmo : is_linked (TO_thread (idle_thread k)) (tmo k) = false;
  kb_tmo : tq_wf (tmo k);
  kb_elapsed : 0 <= elapsed (tmo k);
  kb_slice : 0 <= slice_ticks k;
  kb_quiet t : no_wake_on_timeout (threads k t) = false
               /\ Z.testbit (thread_state (threads k t)) 5 = false
}.

(** The ready queue holds the ready threads; [X] exempts threads in the
    middle of being made ready. *)
Record kready (X : tid -> Prop) (k : kernel) : Prop := {
  kr_ready t : z_is_thread_queued (threads k t) = true ->
               z_is_thread_ready t k = true /\ t <> idle_thread k;
  kr_queued t : ~ X t -> z_is_thread_ready t k = true -> t <> idle_thread k ->
                z_is_thread_queued (threads k t) = true
}.

(** The current thread is on no wait queue, and is not waiting for a timeout
    unless it has been suspended or killed. *)
Record kcur (k : kernel) : Prop := {
  kc_pended : pended_on (threads k (current k)) = None;
  kc_tmo : z_is_thread_prevented_from_running (threads k (current k)) = false ->
           is_linked (TO_thread (current k)) (tmo k) = false
}.

Definition none : tid -> Prop := fun _ => False.

(** The cached choice is the head of the ready queue, or the current thread
    if that is running and may not be preempted. *)
Definition cache_ok (k : kernel) : Prop :=
  cache k = next_up k
  \/ cache k = current k
     /\ z_is_thread_prevented_from_running (threads k (current k)) = false
     /\ is_preempt (threads k (current k)) = false.

Record kwf (k : kernel) : Prop := {
  kwf_base : kbase k;
  kwf_ready : kready none k;
  kwf_cur : kcur k;
  kwf_cache : cache_ok k
}.

(** [kwf] without the cache. *)
Record kcore (X : tid -> Prop) (k : kernel) : Prop := {
  kco_base : kbase k;
  kco_ready : kready X k;
  kco_cur : kcur k
}.

Lemma kwf_core k : kwf k -> kcore none k.
Proof. by intros [H1 H2 H3 H4]. Qed.

(** The invariant while [t] is being woken: it may be ready without being in
    the ready queue yet. *)
Record kwaking (t : tid) (k : kernel) : Prop := {
  kw_base : kbase k;
  kw_ready : kready (fun x => x = t) k;
  kw_cur : kcur k;
  kw_cache : cache_ok k;
  kw_idle : t <> idle_thread k
}.

Lemma ready_iff t k :
  z_is_thread_ready t k = true <->
  z_is_thread_prevented_from_running (threads k t) = false
  /\ is_linked (TO_thread t) (tmo k) = false.
Proof.
  unfold z_is_thread_ready, z_is_thread_timeout_active, z_is_inactive_timeout.
  rewrite negb_involutive, negb_true_iff, orb_false_iff. done.
Qed.

Lemma pended_not_queued k t :
  kbase k -> kready (fun x => x = t) k -> pended_on (threads k t) <> None ->
  z_is_thread_queued (threads k t) = false.
Proof.
  intros Hb Hr Hp. destruct (z_is_thread_queued _) eqn:E; [|done].
  apply (kr_ready _ _ Hr) in E as [[Hpr _]%ready_iff _].
  apply (kb_pending _ Hb) in Hp. flags. by rewrite Hp in Hpr.
Qed.

Lemma kready_weaken (X Y : tid -> Prop) k :
  (forall t, X t -> Y t) -> kready X k -> kready Y k.
Proof.
  intros HXY [H1 H2]. split; [done|]. intros t HY. apply H2. intros HX. by apply HY, HXY.
Qed.

(** Drop an exemption for a thread that is queued, not ready, or idle. *)
Lemma kready_strengthen t k :
  kready (fun x => x = t) k ->
  (z_is_thread_ready t k = true -> t <> idle_thread k -> z_is_thread_queued (threads k t) = true) ->
  kready none k.
Proof.
  intros [H1 H2] Ht. split; [done|]. intros t' _ Hr Hi.
  destruct (decide (t' = t)) as [->|]; auto.
Qed.

(** ** Changes that the invariant does not see *)

(** [same_sched k k']: the scheduler state is the same up to the cache, the
    time slice and its timeout, and the parts of the thread records that
    carry data.  [same_tmo] says so of the timeout queue. *)
Record same_tmo (q q' : tq) : Prop := {
  st_linked t : is_linked (TO_thread t) q' = is_linked (TO_thread t) q;
  st_expiry to : to <> TO_slice -> expiry to q' = expiry to q;
  st_elapsed : elapsed q' = elapsed q;
  st_remaining : announce_remaining q' = announce_remaining q;
  st_tick : curr_tick q' = curr_tick q;
  st_hw : sys_clock_elapsed q' = sys_clock_elapsed q;
  st_slice e : expiry TO_slice q' = Some e -> expiry TO_slice q = Some e \/ curr_tick q < e;
  st_wf : tq_wf q -> tq_wf q'
}.

Record same_thread (t t' : k_thread) : Prop := {
  sth_prio : prio t' = prio t;
  sth_locked : sched_locked t' = sched_locked t;
  sth_state : thread_state t' = thread_state t;
  sth_pended : pended_on t' = pended_on t;
  sth_join : join_queue t' = join_queue t;
  sth_nowake : no_wake_on_timeout t' = no_wake_on_timeout t
}.

Record same_sched (k k' : kernel) : Prop := {
  ss_threads t : same_thread (threads k t) (threads k' t);
  ss_waitqs w : waitqs k' w = waitqs k w;
  ss_runq : runq k' = runq k;
  ss_current : current k' = current k;
  ss_idle : idle_thread k' = idle_thread k;
  ss_in_isr : in_isr k' = in_isr k;
  ss_slice : slice_ticks k' = slice_ticks k;
  ss_tmo : same_tmo (tmo k) (tmo k')
}.

Lemma same_tmo_refl q : same_tmo q q.
Proof. split; auto. Qed.
Lemma same_thread_refl t : same_thread t t.
Proof. by split. Qed.
Lemma same_sched_refl k : same_sched k k.
Proof. split; auto using same_thread_refl, same_tmo_refl. Qed.

Lemma same_tmo_trans q1 q2 q3 : same_tmo q1 q2 -> same_tmo q2 q3 -> same_tmo q1 q3.
Proof.
  intros H1 H2. destruct H1, H2. split; intros; try congruence; auto.
  - rewrite st_expiry1, st_expiry0; auto.
  - destruct (st_slice1 e); [done|auto|right; congruence].
Qed.
Lemma same_thread_trans a b c : same_thread a b -> same_thread b c -> same_thread a c.
Proof. intros H1 H2. destruct H1, H2. split; congruence. Qed.
Lemma same_sched_trans a b c : same_sched a b -> same_sched b c -> same_sched a c.
Proof.
  intros H1 H2. destruct H1, H2.
  split; intros; eauto using same_thread_trans, same_tmo_trans; congruence.
Qed.

#[export] Hint Resolve same_tmo_refl same_thread_refl same_sched_refl : sched.

Section SameSched.
Context (k k' : kernel) (Hs : same_sched k k').

Lemma ss_state t : thread_state (threads k' t) = thread_state (threads k t).
Proof. apply Hs. Qed.

Lemma ss_queued t : z_is_thread_queued (threads k' t) = z_is_thread_queued (threads k t).
Proof. flags. by rewrite ss_state. Qed.

Lemma ss_prevented t :
  z_is_thread_prevented_from_running (threads k' t) = z_is_thread_prevented_from_running (threads k t).
Proof. flags. by rewrite ss_state. Qed.

Lemma ss_pending t : z_is_thread_pending (threads k' t) = z_is_thread_pending (threads k t).
Proof. flags. by rewrite ss_state. Qed.

Lemma ss_is_preempt t : is_preempt (threads k' t) = is_preempt (threads k t).
Proof.
  unfold is_preempt, preempt.
  by rewrite (sth_prio _ _ (ss_threads _ _ Hs t)), (sth_locked _ _ (ss_threads _ _ Hs t)).
Qed.

Lemma ss_ready t : z_is_thread_ready t k' = z_is_thread_ready t k.
Proof.
  apply eq_true_iff_eq. rewrite !ready_iff, ss_prevented, (st_linked _ _ (ss_tmo _ _ Hs)). done.
Qed.

Lemma ss_next_up : next_up k' = next_up k.
Proof.
  unfold next_up, runq_best. by rewrite (ss_runq _ _ Hs), (ss_idle _ _ Hs).
Qed.

Lemma kbase_same : kbase k -> kbase k'.
Proof.
  intros [H1 H2 H3 H4 H5 H6 H7 H8 H9 H10 H11 H12].
  pose proof (ss_threads _ _ Hs) as Ht. pose proof (ss_tmo _ _ Hs) as Htm.
  split.
  - by rewrite (ss_runq _ _ Hs).
  - rewrite (ss_runq _ _ Hs). eapply prio_le_ext; [|exact H2]. intros t _. apply Ht.
  - intros t. rewrite (ss_runq _ _ Hs), ss_queued. apply H3.
  - intros w. by rewrite (ss_waitqs _ _ Hs).
  - intros t w. rewrite (ss_waitqs _ _ Hs), (sth_pended _ _ (Ht t)). apply H5.
  - intros t. rewrite (sth_pended _ _ (Ht t)), ss_pending. apply H6.
  - by rewrite (ss_idle _ _ Hs), ss_prevented.
  - by rewrite (ss_idle _ _ Hs), (st_linked _ _ Htm).
  - by apply Htm.
  - by rewrite (st_elapsed _ _ Htm).
  - by rewrite (ss_slice _ _ Hs).
  - intros t. rewrite (sth_nowake _ _ (Ht t)), ss_state. apply H12.
Qed.

Lemma kready_same X : kready X k -> kready X k'.
Proof.
  intros [H1 H2]. split.
  - intros t. rewrite ss_queued, ss_ready, (ss_idle _ _ Hs). apply H1.
  - intros t. rewrite ss_queued, ss_ready, (ss_idle _ _ Hs). apply H2.
Qed.

Lemma kcur_same : kcur k -> kcur k'.
Proof.
  intros [H1 H2]. split; rewrite (ss_current _ _ Hs).
  - by rewrite (sth_pended _ _ (ss_threads _ _ Hs _)).
  - by rewrite ss_prevented, (st_linked _ _ (ss_tmo _ _ Hs)).
Qed.

Lemma cache_ok_same : cache k' = cache k -> cache_ok k -> cache_ok k'.
Proof.
  intros Hc. unfold cache_ok. rewrite Hc, ss_next_up, (ss_current _ _ Hs), ss_prevented, ss_is_preempt.
  done.
Qed.

Lemma kwf_same : cache k' = cache k -> kwf k -> kwf k'.
Proof.
  intros Hc [H1 H2 H3 H4].
  split; [by apply kbase_same|by apply kready_same|by apply kcur_same|by apply cache_ok_same].
Qed.

Lemma kwaking_same t : cache k' = cache k -> kwaking t k -> kwaking t k'.
Proof.
  intros Hc [H1 H2 H3 H4 H5]. split; [by apply kbase_same|by apply kready_same|by apply kcur_same|
    by apply cache_ok_same|by rewrite (ss_idle _ _ Hs)].
Qed.

End SameSched.

(** A change to data members of one thread. *)
Lemma upd_thread_same t f k :
  same_thread (threads k t) (f (threads k t)) -> same_sched k (upd_thread t f k).
Proof.
  intros Hf. split; try done; auto with sched. intros t'. rewrite threads_upd_thread.
  case_decide; subst; auto with sched.
Qed.

Lemma same_sched_irq b k : same_sched k (k <| irq_locked := b |>).
Proof. split; auto with sched. Qed.
#[export] Hint Resolve same_sched_irq : sched.

(** ** The time slice and the cache *)

Lemma abort_slice_same q : tq_wf q -> same_tmo q (z_abort_timeout TO_slice q).2.
Proof.
  intros Hwf. split.
  - intros t. rewrite abort_timeout_linked by done.
    rewrite (bool_decide_eq_true_2 (TO_thread t <> TO_slice)) by done. apply andb_true_r.
  - intros to Hto. rewrite abort_timeout_expiry by done. by case_decide.
  - apply abort_timeout_elapsed.
  - unfold z_abort_timeout. by case_match.
  - unfold z_abort_timeout. by case_match.
  - unfold z_abort_timeout. by case_match.
  - intros e. rewrite abort_timeout_expiry by done. by rewrite decide_True.
  - intros. by apply abort_timeout_wf.
Qed.

Lemma add_slice_same tm q :
  is_linked TO_slice q = false -> 0 <= elapsed q -> tm <> K_FOREVER ->
  same_tmo q (z_add_timeout TO_slice tm q).
Proof.
  intros Hl Hel Htm. split.
  - intros t. by rewrite add_timeout_linked.
  - intros to Hto. rewrite add_timeout_expiry by done. by case_decide.
  - apply add_timeout_elapsed.
  - apply z_add_timeout_remaining.
  - apply z_add_timeout_tick.
  - unfold z_add_timeout. by repeat case_match.
  - intros e. rewrite add_timeout_expiry, decide_True by done. intros [= <-].
    right. pose proof (timeout_dticks_pos tm q Htm Hel). lia.
  - intros. by apply add_timeout_wf.
Qed.

Lemma z_reset_time_slice_same t k :
  tq_wf (tmo k) -> 0 <= elapsed (tmo k) -> 0 <= slice_ticks k ->
  same_sched k (z_reset_time_slice t k).
Proof.
  intros Hwf Hel Hsl. pose proof (abort_slice_same _ Hwf) as Habort.
  unfold z_reset_time_slice. case_match eqn:E.
  - split; auto with sched. simpl. eapply same_tmo_trans; [exact Habort|].
    apply add_slice_same.
    + rewrite abort_timeout_linked by done.
      by rewrite bool_decide_eq_false_2, andb_false_r by tauto.
    + by rewrite abort_timeout_elapsed.
    + unfold sliceable, slice_time in *. simpl in *.
      rewrite !andb_true_iff in E. destruct E as [[[[_ Hne] _] _] _].
      unfold K_FOREVER, K_TICKS_FOREVER. apply negb_true_iff in Hne. lia.
  - split; auto with sched.
Qed.

Lemma z_reset_time_slice_cache t k : cache (z_reset_time_slice t k) = cache k.
Proof. unfold z_reset_time_slice. by case_match. Qed.

Lemma same_sched_cache c k : same_sched k (k <| cache := c |>).
Proof. split; auto with sched. Qed.

Lemma update_cache_same p k : kbase k -> same_sched k (update_cache p k).
Proof.
  intros Hb. unfold update_cache. destruct (should_preempt _ _ _); [|apply same_sched_cache].
  eapply same_sched_trans; [|apply same_sched_cache].
  case_decide; [|auto with sched].
  apply z_reset_time_slice_same; apply Hb.
Qed.

Lemma update_cache_ok p k : kbase k -> cache_ok (update_cache p k).
Proof.
  intros Hb. pose proof (update_cache_same p k Hb) as Hs.
  unfold cache_ok. rewrite (ss_next_up _ _ Hs), (ss_current _ _ Hs), (ss_prevented _ _ Hs),
    (ss_is_preempt _ _ Hs).
  unfold update_cache. destruct (should_preempt _ _ _) eqn:E; [by left|]. right.
  unfold should_preempt in E. simpl. repeat case_match; try done. apply orb_false_iff in E as [? ?].
  done.
Qed.

Lemma update_cache_base p k : kbase k -> kbase (update_cache p k).
Proof. intros Hb. eapply kbase_same; [by apply update_cache_same|done]. Qed.

Lemma update_cache_ready X p k : kbase k -> kready X k -> kready X (update_cache p k).
Proof. intros Hb. eapply kready_same. by apply update_cache_same. Qed.

Lemma update_cache_cur p k : kbase k -> kcur k -> kcur (update_cache p k).
Proof. intros Hb. eapply kcur_same. by apply update_cache_same. Qed.

Lemma update_cache_wf p k : kbase k -> kready none k -> kcur k -> kwf (update_cache p k).
Proof.
  intros Hb Hr Hc.
  split; auto using update_cache_base, update_cache_ready, update_cache_ok, update_cache_cur.
Qed.

(** ** Queueing *)

Lemma queue_threads t k t' :
  threads (queue_thread t k) t' = threads (upd_thread t (set_state _THREAD_QUEUED) k) t'.
Proof. done. Qed.

Lemma queue_prio t k t' : prio (threads (queue_thread t k) t') = prio (threads k t').
Proof. rewrite queue_threads, threads_upd_thread. by case_decide; subst. Qed.

(** [queue_thread] and [dequeue_thread] touch nothing but the flag of their
    thread and the queue. *)
Lemma queue_bit t k t' n :
  n <> 7 -> Z.testbit (thread_state (threads (queue_thread t k) t')) n
            = Z.testbit (thread_state (threads k t')) n.
Proof.
  intros Hn. rewrite queue_threads, threads_upd_thread. case_decide; subst; [|done].
  unfold _THREAD_QUEUED. rewrite testbit_set_state by lia.
  replace (n =? 7) with false by lia. by rewrite orb_false_r.
Qed.

Lemma queue_queued t k t' :
  z_is_thread_queued (threads (queue_thread t k) t')
  = bool_decide (t' = t) || z_is_thread_queued (threads k t').
Proof.
  rewrite queue_threads, threads_upd_thread. case_decide; subst; flags.
  - by rewrite bool_decide_eq_true_2, orb_true_r.
  - by rewrite bool_decide_eq_false_2.
Qed.

Lemma dequeue_threads t k t' :
  threads (dequeue_thread t k) t' = threads (upd_thread t (clear_state _THREAD_QUEUED) k) t'.
Proof. done. Qed.

Lemma dequeue_prio t k t' : prio (threads (dequeue_thread t k) t') = prio (threads k t').
Proof. rewrite dequeue_threads, threads_upd_thread. by case_decide; subst. Qed.

Lemma dequeue_bit t k t' n :
  0 <= n -> n <> 7 -> Z.testbit (thread_state (threads (dequeue_thread t k) t')) n
                      = Z.testbit (thread_state (threads k t')) n.
Proof.
  intros Hn0 Hn. rewrite dequeue_threads, threads_upd_thread. case_decide; subst; [|done].
  unfold _THREAD_QUEUED. rewrite testbit_clear_state by lia.
  replace (n =? 7) with false by lia. by rewrite andb_true_r.
Qed.

Lemma dequeue_queued t k t' :
  z_is_thread_queued (threads (dequeue_thread t k) t')
  = z_is_thread_queued (threads k t') && bool_decide (t' <> t).
Proof.
  rewrite dequeue_threads, threads_upd_thread. case_decide; subst; flags.
  - rewrite bool_decide_eq_false_2 by tauto. by rewrite !andb_false_r.
  - by rewrite bool_decide_eq_true_2, andb_true_r.
Qed.

Lemma queue_pended t k t' : pended_on (threads (queue_thread t k) t') = pended_on (threads k t').
Proof. rewrite queue_threads, threads_upd_thread. by case_decide; subst. Qed.
Lemma dequeue_pended t k t' : pended_on (threads (dequeue_thread t k) t') = pended_on (threads k t').
Proof. rewrite dequeue_threads, threads_upd_thread. by case_decide; subst. Qed.

Lemma queue_prevented t k t' :
  z_is_thread_prevented_from_running (threads (queue_thread t k) t')
  = z_is_thread_prevented_from_running (threads k t').
Proof. autorewrite with flags. by rewrite !queue_bit. Qed.
Lemma dequeue_prevented t k t' :
  z_is_thread_prevented_from_running (threads (dequeue_thread t k) t')
  = z_is_thread_prevented_from_running (threads k t').
Proof. autorewrite with flags. by rewrite !dequeue_bit. Qed.

Lemma queue_ready t k t' : z_is_thread_ready t' (queue_thread t k) = z_is_thread_ready t' k.
Proof. apply eq_true_iff_eq. by rewrite !ready_iff, queue_prevented. Qed.
Lemma dequeue_ready t k t' : z_is_thread_ready t' (dequeue_thread t k) = z_is_thread_ready t' k.
Proof. apply eq_true_iff_eq. by rewrite !ready_iff, dequeue_prevented. Qed.

Lemma queue_thread_base t k :
  kbase k -> z_is_thread_queued (threads k t) = false -> kbase (queue_thread t k).
Proof.
  intros [H1 H2 H3 H4 H5 H6 H7 H8 H9 H10 H11 H12] Hq.
  assert (t ∉ runq k) as Hni by (rewrite H3; congruence). split; try done.
  - by apply priq_add_nodup.
  - apply priq_add_sorted. eapply prio_le_ext; [|exact H2]. intros; apply queue_prio.
  - intros t'. rewrite queue_queued. etrans; [apply priq_add_elem|].
    rewrite orb_true_iff, bool_decide_eq_true, H3. done.
  - intros t' w. rewrite queue_pended. apply H5.
  - intros t'. rewrite queue_pended, H6, !pending_bit. by rewrite queue_bit.
  - by rewrite queue_prevented.
  - intros t'. rewrite queue_bit by done. rewrite queue_threads, threads_upd_thread.
    case_decide; subst; apply H12.
Qed.

Lemma dequeue_thread_base t k : kbase k -> kbase (dequeue_thread t k).
Proof.
  intros [H1 H2 H3 H4 H5 H6 H7 H8 H9 H10 H11 H12]. split; try done.
  - by apply priq_remove_nodup.
  - apply priq_remove_sorted. eapply prio_le_ext; [|exact H2]. intros; apply dequeue_prio.
  - intros t'. rewrite dequeue_queued. etrans; [by apply priq_remove_elem|].
    rewrite andb_true_iff, bool_decide_eq_true, H3. done.
  - intros t' w. rewrite dequeue_pended. apply H5.
  - intros t'. rewrite dequeue_pended, H6, !pending_bit. by rewrite dequeue_bit.
  - by rewrite dequeue_prevented.
  - intros t'. rewrite dequeue_bit by done. rewrite dequeue_threads, threads_upd_thread.
    case_decide; subst; apply H12.
Qed.

Lemma queue_thread_ready t k :
  kready (fun x => x = t) k -> z_is_thread_ready t k = true -> t <> idle_thread k ->
  kready none (queue_thread t k).
Proof.
  intros [H1 H2] Hr Hi. split.
  - intros t'. rewrite queue_queued, queue_ready.
    intros [->%bool_decide_eq_true|Hq]%orb_true_iff; [done|auto].
  - intros t' _. rewrite queue_queued, queue_ready, orb_true_iff, bool_decide_eq_true.
    intros. destruct (decide (t' = t)); [by left|right; by apply H2].
Qed.

Lemma queue_thread_cur t k : kcur k -> kcur (queue_thread t k).
Proof. intros [H1 H2]. split; [by rewrite queue_pended|]. by rewrite queue_prevented. Qed.

Lemma dequeue_thread_cur t k : kcur k -> kcur (dequeue_thread t k).
Proof. intros [H1 H2]. split; [by rewrite dequeue_pended|]. by rewrite dequeue_prevented. Qed.

Lemma dequeue_thread_ready X t k :
  kready X k -> kready (fun x => X x \/ x = t) (dequeue_thread t k).
Proof.
  intros [H1 H2]. split.
  - intros t'. rewrite dequeue_queued, dequeue_ready. intros [Hq _]%andb_true_iff. auto.
  - intros t' HX. rewrite dequeue_queued, dequeue_ready, andb_true_iff, bool_decide_eq_true.
    intros. split; [apply H2; tauto|tauto].
Qed.

(** ** Making a thread ready *)

Lemma ready_thread_core t k : kcore (fun x => x = t) k -> t <> idle_thread k -> kcore none (ready_thread t k).
Proof.
  intros [Hb Hr Hu] Hi. unfold ready_thread.
  destruct (z_is_thread_queued (threads k t)) eqn:Eq; simpl.
  { split; try done. by apply (kready_strengthen t). }
  destruct (z_is_thread_ready t k) eqn:Er.
  - apply kwf_core, update_cache_wf;
      [by apply queue_thread_base|by apply queue_thread_ready|by apply queue_thread_cur].
  - split; try done. apply (kready_strengthen t); [done|congruence].
Qed.

Lemma ready_thread_wf t k : kwaking t k -> kwf (ready_thread t k).
Proof.
  intros [Hb Hr Hu Hc Hi]. destruct (ready_thread_core t k) as [H1 H2 H3]; [by split|done|].
  split; try done. unfold ready_thread. case_match eqn:E; [|done].
  apply andb_true_iff in E as [Hq%negb_true_iff _].
  by apply update_cache_ok, queue_thread_base.
Qed.

Lemma kwf_waking t k : kwf k -> t <> idle_thread k -> kwaking t k.
Proof.
  intros [H1 H2 H3 H4] Hi. split; try done. eapply kready_weaken; [|exact H2]. done.
Qed.

(** ** Unpending *)

Lemma unpend_unfold t k w :
  pended_on (threads k t) = Some w ->
  unpend_thread_no_timeout t k
  = upd_thread t (fun x => z_mark_thread_as_not_pending x <| pended_on := None |>)
      (upd_waitq w (z_priq_dumb_remove t) k).
Proof. intros H. unfold unpend_thread_no_timeout. by rewrite H. Qed.

Lemma unpend_threads t k w t' :
  pended_on (threads k t) = Some w ->
  threads (unpend_thread_no_timeout t k) t'
  = if decide (t' = t) then z_mark_thread_as_not_pending (threads k t) <| pended_on := None |>
    else threads k t'.
Proof. intros H. rewrite (unpend_unfold t k w) by done. by rewrite threads_upd_thread. Qed.

Lemma unpend_waitqs t k w w' :
  pended_on (threads k t) = Some w ->
  waitqs (unpend_thread_no_timeout t k) w'
  = if decide (w' = w) then z_priq_dumb_remove t (waitqs k w) else waitqs k w'.
Proof.
  intros H. rewrite (unpend_unfold t k w) by done.
  change (waitqs (upd_thread t ?f ?x) w') with (waitqs x w'). by rewrite waitqs_upd_waitq.
Qed.

(** Unpending leaves the other threads and every flag but PENDING alone. *)
Lemma unpend_bit t k w t' n :
  pended_on (threads k t) = Some w -> 0 <= n ->
  Z.testbit (thread_state (threads (unpend_thread_no_timeout t k) t')) n
  = Z.testbit (thread_state (threads k t')) n && negb (bool_decide (t' = t) && (n =? 1)).
Proof.
  intros H Hn. rewrite (unpend_threads t k w) by done. case_decide; subst.
  - rewrite bool_decide_eq_true_2 by done. unfold_marks.
    change (thread_state (?x <| pended_on := None |>)) with (thread_state x).
    by rewrite testbit_clear_state.
  - rewrite bool_decide_eq_false_2 by done. by rewrite andb_true_r.
Qed.

Lemma unpend_ready t k w t' :
  pended_on (threads k t) = Some w ->
  z_is_thread_ready t' k = true -> z_is_thread_ready t' (unpend_thread_no_timeout t k) = true.
Proof.
  intros H. rewrite !ready_iff. intros [Hp Hl]. split.
  - autorewrite with flags in *. rewrite !(unpend_bit t k w) by done.
    rewrite !orb_false_iff in *. destruct Hp as (-> & -> & -> & -> & ->). done.
  - by rewrite (unpend_unfold t k w).
Qed.

Lemma unpend_other_ready t k w t' :
  pended_on (threads k t) = Some w -> t' <> t ->
  z_is_thread_ready t' (unpend_thread_no_timeout t k) = z_is_thread_ready t' k.
Proof.
  intros H Hne. unfold z_is_thread_ready. rewrite (unpend_threads t k w), decide_False by done.
  by rewrite (unpend_unfold t k w).
Qed.

Lemma unpend_queued t k w t' :
  pended_on (threads k t) = Some w ->
  z_is_thread_queued (threads (unpend_thread_no_timeout t k) t') = z_is_thread_queued (threads k t').
Proof.
  intros H. rewrite !queued_bit, (unpend_bit t k w) by done. simpl.
  by rewrite andb_false_r, andb_true_r.
Qed.

Lemma unpend_base t k w :
  kbase k -> pended_on (threads k t) = Some w -> kbase (unpend_thread_no_timeout t k).
Proof.
  intros [H1 H2 H3 H4 H5 H6 H7 H8 H9 H10 H11 H12] Hp.
  assert (Heq : forall (A : Type) (f : kernel -> A),
    (forall x y, f (upd_thread t x y) = f y) -> (forall x y, f (upd_waitq w x y) = f y) ->
    f (unpend_thread_no_timeout t k) = f k).
  { intros A f Hf1 Hf2. by rewrite (unpend_unfold t k w), Hf1, Hf2. }
  split; rewrite ?(Heq _ runq), ?(Heq _ tmo), ?(Heq _ idle_thread), ?(Heq _ slice_ticks) by done;
    try done.
  - eapply prio_le_ext; [|exact H2]. intros t' _. rewrite (unpend_threads t k w) by done.
    by case_decide; subst.
  - intros t'. rewrite (unpend_queued t k w) by done. apply H3.
  - intros w'. rewrite (unpend_waitqs t k w) by done.
    case_decide; [by apply priq_remove_nodup|done].
  - intros t' w'. rewrite (unpend_waitqs t k w), (unpend_threads t k w) by done.
    destruct (decide (w' = w)) as [->|], (decide (t' = t)) as [->|];
      try (rewrite priq_remove_elem by done); rewrite H5; simpl; intuition congruence.
  - intros t'. rewrite pending_bit, (unpend_bit t k w), (unpend_threads t k w) by done.
    case_decide; subst.
    + rewrite bool_decide_eq_true_2 by done. rewrite andb_false_r. simpl. split; [by intros []|done].
    + rewrite bool_decide_eq_false_2, andb_true_r, H6, pending_bit by done. done.
  - autorewrite with flags in *. rewrite !(unpend_bit t k w) by done.
    rewrite !orb_false_iff in *. destruct H7 as (-> & -> & -> & -> & ->). done.
  - intros t'. rewrite (unpend_bit t k w) by done. destruct (H12 t') as [Hn ->]. split; [|done].
    rewrite (unpend_threads t k w) by done. by case_decide; subst.
Qed.

Lemma pended_not_idle t k : kbase k -> pended_on (threads k t) <> None -> t <> idle_thread k.
Proof.
  intros Hb Hp%(kb_pending _ Hb) ->. pose proof (kb_idle _ Hb) as Hi. autorewrite with flags in *.
  by rewrite Hp in Hi.
Qed.

Lemma unpend_core t k w :
  kcore none k -> pended_on (threads k t) = Some w ->
  kcore (fun x => x = t) (unpend_thread_no_timeout t k).
Proof.
  intros [Hb [Hr1 Hr2] [Hc1 Hc2]] Hp.
  assert (Hpn : pended_on (threads k t) <> None) by congruence.
  assert (t <> current k) by congruence.
  assert (Hcur : current (unpend_thread_no_timeout t k) = current k)
    by (by rewrite (unpend_unfold t k w)).
  assert (Hidle : idle_thread (unpend_thread_no_timeout t k) = idle_thread k)
    by (by rewrite (unpend_unfold t k w)).
  assert (Hth : threads (unpend_thread_no_timeout t k) (current k) = threads k (current k))
    by (rewrite (unpend_threads t k w) by done; by rewrite decide_False).
  split.
  - by eapply unpend_base.
  - split; intros t'; rewrite (unpend_queued t k w), Hidle by done.
    + intros [Hr Hi]%Hr1. split; [by eapply unpend_ready|done].
    + intros Hne. rewrite (unpend_other_ready t k w) by done. apply Hr2. by intros [].
  - split; rewrite Hcur, Hth; [done|]. by rewrite (unpend_unfold t k w).
Qed.

Lemma unpend_waking t k w :
  kwf k -> pended_on (threads k t) = Some w -> kwaking t (unpend_thread_no_timeout t k).
Proof.
  intros Hk Hp. destruct (unpend_core t k w (kwf_core _ Hk) Hp) as [H1 H2 H3].
  assert (Hne : t <> current k).
  { intros ->. rewrite (kc_pended _ (kwf_cur _ Hk)) in Hp. done. }
  split; try done.
  - pose proof (kwf_cache _ Hk) as Hc. unfold cache_ok, next_up, runq_best in *.
    rewrite (unpend_threads t k w) by done. rewrite (unpend_unfold t k w) by done.
    change (current _) with (current k). by rewrite decide_False.
  - rewrite (unpend_unfold t k w) by done. change (idle_thread _) with (idle_thread k).
    apply pended_not_idle; [apply Hk|congruence].
Qed.

Lemma abort_thread_timeout_tmo t k :
  (z_abort_thread_timeout t k).2 = k <| tmo := (z_abort_timeout (TO_thread t) (tmo k)).2 |>.
Proof. unfold z_abort_thread_timeout. by destruct (z_abort_timeout _ _). Qed.

Lemma abort_timeout_core (X : tid -> Prop) t k :
  kcore X k -> kcore (fun x => X x \/ x = t) (z_abort_thread_timeout t k).2.
Proof.
  intros [[H1 H2 H3 H4 H5 H6 H7 H8 H9 H10 H11 H12] [Hr1 Hr2] [Hc1 Hc2]].
  rewrite abort_thread_timeout_tmo.
  assert (Hl : forall t', is_linked (TO_thread t') (z_abort_timeout (TO_thread t) (tmo k)).2
                          = is_linked (TO_thread t') (tmo k) && bool_decide (TO_thread t' <> TO_thread t))
    by (intros; by apply abort_timeout_linked).
  split; [split; try done| |].
  - simpl. by rewrite Hl, H8.
  - by apply abort_timeout_wf.
  - simpl. by rewrite abort_timeout_elapsed.
  - split; simpl; intros t'.
    + intros [[Hp Hl']%ready_iff Hi']%Hr1. split; [|done]. apply ready_iff. split; [done|].
      simpl. by rewrite Hl, Hl'.
    + intros Hne Hr. apply Hr2; [tauto|]. apply ready_iff. apply ready_iff in Hr as [Hp Hl'].
      split; [done|]. simpl in Hl'. rewrite Hl, bool_decide_eq_true_2 in Hl' by (intros [=]; tauto).
      by rewrite andb_true_r in Hl'.
  - split; simpl; [done|]. intros Hp. by rewrite Hl, Hc2.
Qed.

Lemma kcore_weaken (X Y : tid -> Prop) k : (forall t, X t -> Y t) -> kcore X k -> kcore Y k.
Proof. intros HXY [H1 H2 H3]. split; try done. by eapply kready_weaken. Qed.

Lemma abort_timeout_waking t k :
  kwaking t k -> kwaking t (z_abort_thread_timeout t k).2.
Proof.
  intros [H1 H2 H3 H4 H5]. destruct (abort_timeout_core (fun x => x = t) t k) as [A B C]; [by split|].
  rewrite abort_thread_timeout_tmo in *. split; try done.
  eapply kready_weaken; [|exact B]. simpl. tauto.
Qed.

(** ** Waking the first waiter *)

(** What making a thread ready leaves alone. *)
Record kframe (k k' : kernel) : Prop := {
  kf_waitqs : waitqs k' = waitqs k;
  kf_current : current k' = current k;
  kf_idle : idle_thread k' = idle_thread k;
  kf_in_isr : in_isr k' = in_isr k;
  kf_irq : irq_locked k' = irq_locked k;
  kf_tmo : tq_wf (tmo k) -> 0 <= elapsed (tmo k) -> 0 <= slice_ticks k ->
           same_tmo (tmo k) (tmo k');
  kf_slice : slice_ticks k' = slice_ticks k;
  kf_thread t : exists st, threads k' t = (threads k t) <| thread_state := st |>
                /\ forall n, 0 <= n -> n <> 7 ->
                     Z.testbit st n = Z.testbit (thread_state (threads k t)) n
}.

Lemma thread_state_id t : t <| thread_state := thread_state t |> = t.
Proof. by destruct t. Qed.

Lemma kframe_refl k : kframe k k.
Proof.
  split; auto using same_tmo_refl. intros t. exists (thread_state (threads k t)).
  by rewrite thread_state_id.
Qed.

Lemma kframe_trans a b c : kframe a b -> kframe b c -> kframe a c.
Proof.
  intros [A1 A2 A3 A4 A5 A6 A7 A8] [B1 B2 B3 B4 B5 B6 B7 B8]. split; try congruence.
  - intros Hw He Hs. pose proof (A6 Hw He Hs) as HA. eapply same_tmo_trans; [exact HA|].
    apply B6; [by apply HA|by rewrite (st_elapsed _ _ HA)|by rewrite A7].
  - intros t. destruct (A8 t) as (s1 & E1 & H1), (B8 t) as (s2 & E2 & H2).
    exists s2. split; [by rewrite E2, E1|]. intros n Hn Hn7. rewrite H2, E1 by done. by apply H1.
Qed.

Lemma update_cache_frame p k : kframe k (update_cache p k).
Proof.
  assert (Hr : forall t, kframe k (z_reset_time_slice t k)).
  { intros t. split; unfold z_reset_time_slice; try (by case_match).
    - intros. apply (ss_tmo _ _ (z_reset_time_slice_same t k H H0 H1)).
    - intros t'. exists (thread_state (threads k t')). case_match; by rewrite thread_state_id. }
  unfold update_cache. destruct (should_preempt _ _ _); [case_decide|];
    try (destruct (Hr (next_up k)) as [A1 A2 A3 A4 A5 A6 A7 A8]; by split);
    destruct (kframe_refl k) as [A1 A2 A3 A4 A5 A6 A7 A8]; by split.
Qed.

Lemma queue_thread_frame t k : kframe k (queue_thread t k).
Proof.
  split; auto using same_tmo_refl. intros t'. rewrite queue_threads, threads_upd_thread.
  case_decide; subst; [|exists (thread_state (threads k t')); by rewrite thread_state_id].
  exists (Z.lor (thread_state (threads k t)) _THREAD_QUEUED). split; [done|].
  intros n Hn Hn7. rewrite Z.lor_spec. unfold _THREAD_QUEUED.
  rewrite BIT_pow, Z.pow2_bits_eqb by lia. replace (7 =? n) with false by lia. apply orb_false_r.
Qed.

Lemma ready_thread_frame t k : kframe k (ready_thread t k).
Proof.
  unfold ready_thread. case_match; [|apply kframe_refl].
  eapply kframe_trans; [apply queue_thread_frame|apply update_cache_frame].
Qed.

Section KFrame.
Context (k k' : kernel) (Hf : kframe k k').

Lemma kf_pended t : pended_on (threads k' t) = pended_on (threads k t).
Proof. by destruct (kf_thread _ _ Hf t) as (s & -> & _). Qed.
Lemma kf_prio t : prio (threads k' t) = prio (threads k t).
Proof. by destruct (kf_thread _ _ Hf t) as (s & -> & _). Qed.
Lemma kf_swap_retval t : swap_retval (threads k' t) = swap_retval (threads k t).
Proof. by destruct (kf_thread _ _ Hf t) as (s & -> & _). Qed.
Lemma kf_swap_data t : swap_data (threads k' t) = swap_data (threads k t).
Proof. by destruct (kf_thread _ _ Hf t) as (s & -> & _). Qed.
End KFrame.

Lemma z_unpend_first_thread_some w k t k' :
  kwf k -> z_unpend_first_thread w k = (Some t, k') ->
  exists r, waitqs k w = t :: r
    /\ kwaking t k'
    /\ waitqs k' w = r
    /\ (forall w', w' <> w -> waitqs k' w' = waitqs k w')
    /\ current k' = current k /\ in_isr k' = in_isr k /\ irq_locked k' = irq_locked k
    /\ idle_thread k' = idle_thread k
    /\ t <> current k
    /\ threads k' t = z_mark_thread_as_not_pending (threads k t) <| pended_on := None |>
    /\ (forall t', t' <> t -> threads k' t' = threads k t')
    /\ is_linked (TO_thread t) (tmo k') = false.
Proof.
  intros Hk. unfold z_unpend_first_thread, z_priq_dumb_best.
  destruct (waitqs k w) as [|t0 r] eqn:Ew; simpl; [done|]. intros [= <- <-].
  assert (Hp : pended_on (threads k t0) = Some w).
  { apply (kb_wq _ (kwf_base _ Hk)). rewrite Ew. by left. }
  exists r. pose proof (unpend_waking t0 k w Hk Hp) as Hw.
  split; [done|split; [by apply abort_timeout_waking|]].
  rewrite abort_thread_timeout_tmo. simpl.
  split; [|split; [|repeat split]].
  - rewrite (unpend_waitqs t0 k w), decide_True by done. rewrite Ew. simpl. by case_decide.
  - intros w' Hw'. rewrite (unpend_waitqs t0 k w) by done. by rewrite decide_False.
  - by rewrite (unpend_unfold t0 k w).
  - by rewrite (unpend_unfold t0 k w).
  - by rewrite (unpend_unfold t0 k w).
  - by rewrite (unpend_unfold t0 k w).
  - intros ->. rewrite (kc_pended _ (kwf_cur _ Hk)) in Hp. done.
  - rewrite (unpend_threads t0 k w) by done. by case_decide.
  - intros t' Ht'. rewrite (unpend_threads t0 k w) by done. by case_decide.
  - rewrite abort_timeout_linked by apply (kw_base _ _ Hw).
    by rewrite bool_decide_eq_false_2, andb_false_r by tauto.
Qed.

Lemma z_unpend_first_thread_none w k k' :
  z_unpend_first_thread w k = (None, k') -> k' = k /\ waitqs k w = [].
Proof.
  unfold z_unpend_first_thread, z_priq_dumb_best.
  destruct (waitqs k w); simpl; intros; by simplify_eq.
Qed.

(** ** Switching *)

(** The state in which [z_swap] may be entered: as [kwf], except that the
    current thread may just have been pended or suspended. *)
Record kswap (k : kernel) : Prop := {
  ks_base : kbase k;
  ks_ready : kready none k;
  ks_cache : cache_ok k;
  ks_cur : kcur k \/ cache k = next_up k /\ current k <> next_up k
}.

Lemma kwf_kswap k : kwf k -> kswap k.
Proof. intros [H1 H2 H3 H4]. split; auto. Qed.

Lemma next_up_ready k : kbase k -> kready none k -> z_is_thread_ready (next_up k) k = true.
Proof.
  intros Hb Hr. unfold next_up, runq_best, z_priq_dumb_best.
  destruct (runq k) as [|t r] eqn:E; simpl.
  - apply ready_iff. split; apply Hb.
  - apply (kr_ready _ _ Hr). apply (kb_queued _ Hb). rewrite E. by left.
Qed.

Lemma ready_cur t k : kbase k -> z_is_thread_ready t k = true -> kcur (k <| current := t |>).
Proof.
  intros Hb [Hp Hl]%ready_iff. split; simpl; [|done].
  destruct (pended_on (threads k t)) eqn:E; [|done].
  assert (z_is_thread_pending (threads k t) = true) by (apply (kb_pending _ Hb); congruence).
  autorewrite with flags in *. by rewrite H in Hp.
Qed.

Lemma kbase_current t k : kbase k -> kbase (k <| current := t |>).
Proof. by intros [H1 H2 H3 H4 H5 H6 H7 H8 H9 H10 H11 H12]. Qed.

Lemma kready_current X t k : kready X k -> kready X (k <| current := t |>).
Proof. by intros [H1 H2]. Qed.

(** Switching to the cached thread. *)
Lemma switch_wf k :
  kswap k -> kwf (k <| current := cache k |>).
Proof.
  intros [Hb Hr Hc Hu]. split; [by apply kbase_current|by apply kready_current| |].
  - destruct Hc as [->|(Hcc & Hp & Hn)]; [by apply ready_cur, next_up_ready|].
    rewrite Hcc. destruct Hu as [[Hu1 Hu2]|[Hn1 Hn2]]; [by split|congruence].
  - unfold cache_ok, next_up, runq_best in *. simpl. destruct Hc as [Hc|(Hcc & Hp & Hn)]; [by left|].
    right. by rewrite Hcc.
Qed.

(** ** Runs of kernel code *)

(** The kernel is executing a runnable thread, outside interrupts. *)
Record krun (k : kernel) : Prop := {
  kru_wf : kwf k;
  kru_isr : in_isr k = false;
  kru_cur : z_is_thread_prevented_from_running (threads k (current k)) = false
}.

(** An object invariant that does not depend on the data members of threads,
    on who is running, or on the ready queue. *)
Definition stable {O} (J : kernel * O -> Prop) : Prop :=
  forall k k' o, (forall t, same_thread (threads k t) (threads k' t)) ->
    (forall w, waitqs k' w = waitqs k w) -> idle_thread k' = idle_thread k ->
    J (k, o) -> J (k', o).

(** An object invariant that may also depend on the data members that carry
    the result of a wait. *)
Definition steady {O} (J : kernel * O -> Prop) : Prop :=
  forall k k' o, (forall t, same_thread (threads k t) (threads k' t)) ->
    (forall t, swap_retval (threads k' t) = swap_retval (threads k t)
               /\ swap_data (threads k' t) = swap_data (threads k t)
               /\ th_events (threads k' t) = th_events (threads k t)
               /\ event_options (threads k' t) = event_options (threads k t)) ->
    (forall w, waitqs k' w = waitqs k w) -> idle_thread k' = idle_thread k ->
    J (k, o) -> J (k', o).

Lemma stable_steady {O} (J : kernel * O -> Prop) : stable J -> steady J.
Proof. intros HJ k k' o H1 _ H3 H4. by apply HJ. Qed.

(** [runs J self Q r]: the run [r] of thread [self] gives up the CPU only in
    states where the scheduler invariant and [J] hold and another thread is
    current, and, entered again in any such state with [self] current, ends
    with [Q]. *)
Fixpoint runs {O A} (J : kernel * O -> Prop) (self : tid)
    (Q : A -> kernel * O -> Prop) (r : outcome (kernel * O) A) : Prop :=
  match r with
  | Done a s => Q a s
  | Swapped s resume =>
      krun s.1 /\ J s /\ current s.1 <> self
      /\ forall s', krun s'.1 -> J s' -> current s'.1 = self -> runs J self Q (resume s')
  end.

Lemma runs_bind {O A B} (J : kernel * O -> Prop) self (Q : A -> kernel * O -> Prop)
    (Q' : B -> kernel * O -> Prop) r f :
  runs J self Q r -> (forall a s, Q a s -> runs J self Q' (f a s)) ->
  runs J self Q' (obind r f).
Proof.
  intros Hr Hf. induction r as [a s|s resume IH]; simpl in *; [by apply Hf|].
  destruct Hr as (H1 & H2 & H3 & H4). split_and!; try done. intros s' Hk HJ Hs.
  apply IH. by apply H4.
Qed.

Lemma runs_mono {O A} (J : kernel * O -> Prop) self (Q Q' : A -> kernel * O -> Prop) r :
  (forall a s, Q a s -> Q' a s) -> runs J self Q r -> runs J self Q' r.
Proof.
  intros HQ. induction r as [a s|s resume IH]; simpl; [apply HQ|].
  intros (H1 & H2 & H3 & H4). split_and!; try done. auto.
Qed.

Lemma stable_same {O} (J : kernel * O -> Prop) k k' o :
  stable J -> same_sched k k' -> J (k, o) -> J (k', o).
Proof. intros HJ Hs. apply HJ; apply Hs. Qed.

Lemma krun_same k k' : same_sched k k' -> cache k' = cache k -> krun k -> krun k'.
Proof.
  intros Hs Hc [H1 H2 H3]. split.
  - by eapply kwf_same.
  - by rewrite (ss_in_isr _ _ Hs).
  - by rewrite (ss_current _ _ Hs), (ss_prevented _ _ Hs).
Qed.

Lemma swap_retval_same t v k :
  same_sched k (upd_thread t (fun x => x <| swap_retval := v |>) k).
Proof. by apply upd_thread_same. Qed.

(** The state in which the CPU changes hands. *)
Definition swap_mark (k : kernel) : kernel :=
  upd_thread (current k) (fun t => t <| swap_retval := - EAGAIN |>) k.

Lemma steady_irq {O} (J : kernel * O -> Prop) b k o :
  steady J -> J (k, o) -> J (k <| irq_locked := b |>, o).
Proof. intros HJ. by apply HJ. Qed.

(** The run of a switch: the CPU goes to the cached thread, and control comes
    back with the return value the waker stored. *)
Lemma z_swap_runs_steady {O} (J : kernel * O -> Prop) key k o :
  steady J -> J (swap_mark k, o) -> kswap k -> in_isr k = false ->
  (cache k = current k -> z_is_thread_prevented_from_running (threads k (current k)) = false) ->
  runs J (current k)
    (fun r s' => krun s'.1 /\ J s' /\ current s'.1 = current k /\ irq_locked s'.1 = negb key
                 /\ r = swap_retval (threads s'.1 (current k)))
    (z_swap key (k, o)).
Proof.
  intros HJ HJk Hsw Hisr Hself. unfold swap_mark in HJk.
  set (self := current k) in *. unfold z_swap. cbn [fst snd]. cbv zeta. fold self.
  set (k1 := upd_thread self (fun t => t <| swap_retval := - EAGAIN |>) k) in *.
  assert (Hs1 : same_sched k k1) by apply swap_retval_same.
  assert (Hc1 : cache k1 = cache k) by done.
  assert (Hsw1 : kswap k1).
  { destruct Hsw as [A B C D]. split.
    - by eapply kbase_same.
    - by eapply kready_same.
    - by eapply cache_ok_same.
    - destruct D as [D|[D1 D2]]; [left; by eapply kcur_same|right].
      rewrite Hc1, (ss_next_up _ _ Hs1). done. }
  change (z_swap_next_thread _) with (cache k).
  assert (Hfin : forall k' o', krun k' -> J (k', o') -> current k' = self ->
    runs J self
      (fun r s' => krun s'.1 /\ J s' /\ current s'.1 = self /\ irq_locked s'.1 = negb key
                   /\ r = swap_retval (threads s'.1 self))
      (Done (swap_retval (threads k' self)) (k' <| irq_locked := negb key |>, o'))).
  { intros k' o' Hk' HJ' Hc'. simpl. pose proof (same_sched_irq (negb key) k') as Hs.
    split_and!; try done; [by eapply krun_same|by apply steady_irq]. }
  pose proof (switch_wf _ Hsw1) as Hwf. rewrite Hc1 in Hwf. case_decide as Hd.
  - set (k2 := k1 <| current := cache k |>) in *.
    pose proof (kwf_base _ Hwf) as Hb2.
    assert (Hs2 : same_sched k2 (z_reset_time_slice (cache k) k2))
      by (apply z_reset_time_slice_same; apply Hb2).
    split; [|split; [|split]].
    + apply (krun_same k2); [done|by apply z_reset_time_slice_cache|]. split; [done|done|].
      destruct (ks_cache _ Hsw) as [Hn|(Hn & _)]; [|by rewrite Hn in Hd].
      pose proof (next_up_ready _ (kwf_base _ Hwf) (kwf_ready _ Hwf)) as [Hp _]%ready_iff.
      simpl in *. rewrite Hn. by rewrite <-(ss_next_up _ _ Hs1).
    + apply (HJ k1); [apply Hs2| |apply Hs2|apply (ss_idle _ _ Hs2)|done].
      intros t. unfold z_reset_time_slice. by case_match.
    + change (current (z_reset_time_slice (cache k) k2) <> self). by rewrite (ss_current _ _ Hs2).
    + intros [k' o'] Hk' HJ' Hc'. by apply Hfin.
  - assert (Heq : cache k = self) by (destruct (decide (cache k = self)); tauto).
    apply Hfin; [|done|done].
    rewrite Heq in Hwf. split; [by destruct k|done|].
    change (current k1) with self. rewrite (ss_prevented _ _ Hs1). by apply Hself.
Qed.

Lemma z_swap_runs {O} (J : kernel * O -> Prop) key k o :
  stable J -> J (k, o) -> kswap k -> in_isr k = false ->
  (cache k = current k -> z_is_thread_prevented_from_running (threads k (current k)) = false) ->
  runs J (current k)
    (fun r s' => krun s'.1 /\ J s' /\ current s'.1 = current k /\ irq_locked s'.1 = negb key
                 /\ r = swap_retval (threads s'.1 (current k)))
    (z_swap key (k, o)).
Proof.
  intros HJ HJk. apply z_swap_runs_steady; [by apply stable_steady|].
  eapply stable_same; [done|apply swap_retval_same|done].
Qed.

(** ** Pending the current thread *)

Lemma dequeue_thread_frame t k : kframe k (dequeue_thread t k).
Proof.
  split; auto using same_tmo_refl. intros t'. rewrite dequeue_threads, threads_upd_thread.
  case_decide; subst; [|exists (thread_state (threads k t')); by rewrite thread_state_id].
  exists (Z.land (thread_state (threads k t)) (Z.lnot _THREAD_QUEUED)). split; [done|].
  intros n Hn Hn7. rewrite Z.land_spec, Z.lnot_spec by done. unfold _THREAD_QUEUED.
  rewrite BIT_pow, Z.pow2_bits_eqb by lia. replace (7 =? n) with false by lia. apply andb_true_r.
Qed.

Lemma kf_prevented k k' t :
  kframe k k' -> z_is_thread_prevented_from_running (threads k' t)
                 = z_is_thread_prevented_from_running (threads k t).
Proof.
  intros Hf. destruct (kf_thread _ _ Hf t) as (s & -> & Hs). autorewrite with flags.
  change (thread_state ((threads k t) <| thread_state := s |>)) with s. by rewrite !Hs.
Qed.

Lemma update_cache_true k : kbase k -> cache (update_cache true k) = next_up (update_cache true k).
Proof.
  intros Hb. rewrite (ss_next_up _ _ (update_cache_same true k Hb)). done.
Qed.

Lemma unready_frame t k : kframe k (unready_thread t k).
Proof.
  unfold unready_thread. eapply kframe_trans; [|apply update_cache_frame].
  case_match; [apply dequeue_thread_frame|apply kframe_refl].
Qed.

Lemma unready_spec t k :
  kbase k -> kready none k ->
  let k1 := unready_thread t k in
  kbase k1 /\ kready (fun x => x = t) k1 /\ z_is_thread_queued (threads k1 t) = false
  /\ cache_ok k1 /\ (t = current k -> cache k1 = next_up k1).
Proof.
  intros Hb Hr k1. subst k1. unfold unready_thread.
  set (k1 := if z_is_thread_queued (threads k t) then dequeue_thread t k else k).
  assert (kbase k1 /\ kready (fun x => x = t) k1 /\ z_is_thread_queued (threads k1 t) = false
          /\ current k1 = current k) as (H1 & H2 & H3 & H4).
  { subst k1. destruct (z_is_thread_queued (threads k t)) eqn:E; split_and!; try done.
    - by apply dequeue_thread_base.
    - eapply kready_weaken; [|by apply (dequeue_thread_ready none)]. unfold none. simpl. tauto.
    - rewrite dequeue_queued, (bool_decide_eq_false_2 (t <> t)) by tauto. apply andb_false_r.
    - by eapply kready_weaken; [|exact Hr]. }
  split_and!.
  - by apply update_cache_base.
  - by apply update_cache_ready.
  - by rewrite (ss_queued _ _ (update_cache_same _ _ H1)).
  - by apply update_cache_ok.
  - intros ->. rewrite H4, bool_decide_eq_true_2 by done. by apply update_cache_true.
Qed.

(** Marking a dequeued thread pending on [w]. *)
Definition pend_mark (t : tid) (w : wqid) (k : kernel) : kernel :=
  let k1 := upd_thread t z_mark_thread_as_pending k in
  let k2 := upd_thread t (fun x => x <| pended_on := Some w |>) k1 in
  upd_waitq w (z_priq_dumb_add (threads k2) t) k2.

Lemma add_to_waitq_mark t w k :
  add_to_waitq_locked t (Some w) k = pend_mark t w (unready_thread t k).
Proof. done. Qed.

Lemma pend_mark_threads t w k t' :
  threads (pend_mark t w k) t'
  = if decide (t' = t) then (z_mark_thread_as_pending (threads k t)) <| pended_on := Some w |>
    else threads k t'.
Proof.
  change (threads (pend_mark t w k)) with
    (threads (upd_thread t (fun x => x <| pended_on := Some w |>)
                (upd_thread t z_mark_thread_as_pending k))).
  rewrite !threads_upd_thread. repeat case_decide; congruence.
Qed.

Lemma pend_mark_waitqs t w k w' :
  exists th, (forall t', prio (th t') = prio (threads k t')) /\
  waitqs (pend_mark t w k) w'
  = if decide (w' = w) then z_priq_dumb_add th t (waitqs k w) else waitqs k w'.
Proof.
  unfold pend_mark. eexists. split; [|by rewrite waitqs_upd_waitq].
  intros t'. rewrite !threads_upd_thread. by repeat case_decide; subst.
Qed.

Lemma pend_mark_bit t w k t' n :
  0 <= n -> Z.testbit (thread_state (threads (pend_mark t w k) t')) n
            = Z.testbit (thread_state (threads k t')) n || (bool_decide (t' = t) && (n =? 1)).
Proof.
  intros Hn. rewrite pend_mark_threads. case_decide; subst.
  - rewrite bool_decide_eq_true_2 by done. unfold_marks.
    change (thread_state (?x <| pended_on := Some w |>)) with (thread_state x).
    by rewrite testbit_set_state.
  - rewrite bool_decide_eq_false_2 by done. by rewrite orb_false_r.
Qed.

Lemma pend_mark_prevented t w k t' :
  z_is_thread_prevented_from_running (threads (pend_mark t w k) t')
  = bool_decide (t' = t) || z_is_thread_prevented_from_running (threads k t').
Proof.
  autorewrite with flags. rewrite !pend_mark_bit by lia. simpl.
  rewrite !andb_false_r, !orb_false_r, andb_true_r. destruct (bool_decide (t' = t)); simpl.
  - by rewrite orb_true_r.
  - by rewrite orb_false_r.
Qed.

Lemma pend_mark_queued t w k t' :
  z_is_thread_queued (threads (pend_mark t w k) t') = z_is_thread_queued (threads k t').
Proof. rewrite !queued_bit, pend_mark_bit by lia. simpl. by rewrite andb_false_r, orb_false_r. Qed.

Lemma pend_mark_base t w k :
  kbase k -> pended_on (threads k t) = None -> t <> idle_thread k -> kbase (pend_mark t w k).
Proof.
  intros [H1 H2 H3 H4 H5 H6 H7 H8 H9 H10 H11 H12] Hp Hi.
  assert (Hni : forall w', t ∉ waitqs k w') by (intros w'; rewrite H5; congruence).
  split; try done.
  - eapply prio_le_ext; [|exact H2]. intros t' _. rewrite pend_mark_threads.
    by case_decide; subst.
  - intros t'. rewrite pend_mark_queued. apply H3.
  - intros w'. destruct (pend_mark_waitqs t w k w') as (th & _ & ->).
    case_decide; [by apply priq_add_nodup|done].
  - intros t' w'. destruct (pend_mark_waitqs t w k w') as (th & _ & ->).
    rewrite pend_mark_threads. destruct (decide (w' = w)) as [->|], (decide (t' = t)) as [->|];
      try (rewrite priq_add_elem); rewrite ?H5; simpl; intuition congruence.
  - intros t'. rewrite pending_bit, pend_mark_bit, pend_mark_threads by lia.
    case_decide; subst; [by rewrite bool_decide_eq_true_2, orb_true_r|].
    rewrite bool_decide_eq_false_2 by done. simpl. by rewrite orb_false_r, H6, pending_bit.
  - change (idle_thread (pend_mark t w k)) with (idle_thread k).
    rewrite pend_mark_prevented, H7. by rewrite bool_decide_eq_false_2.
  - intros t'. rewrite pend_mark_bit by done. destruct (H12 t') as [Hn ->].
    split; [|by rewrite andb_false_r]. rewrite pend_mark_threads. by case_decide; subst.
Qed.

Lemma pend_mark_ready t w k :
  kready (fun x => x = t) k -> z_is_thread_queued (threads k t) = false ->
  kready none (pend_mark t w k).
Proof.
  intros [H1 H2] Hq.
  assert (Hr : forall t', t' <> t -> z_is_thread_ready t' (pend_mark t w k) = z_is_thread_ready t' k).
  { intros t' Hne. apply eq_true_iff_eq. rewrite !ready_iff, pend_mark_prevented.
    by rewrite bool_decide_eq_false_2. }
  split; intros t'; rewrite pend_mark_queued.
  - intros Hq'. assert (t' <> t) by congruence. rewrite Hr by done. by apply H1.
  - intros _ Hrd. destruct (decide (t' = t)) as [->|Hne].
    + apply ready_iff in Hrd as [Hp _]. rewrite pend_mark_prevented in Hp.
      by rewrite bool_decide_eq_true_2 in Hp.
    + rewrite Hr in Hrd by done. by apply H2.
Qed.

Lemma add_thread_timeout_base t tm k :
  kbase k -> is_linked (TO_thread t) (tmo k) = false -> t <> idle_thread k ->
  kbase (add_thread_timeout t tm k).
Proof.
  intros Hb Hl Hi. unfold add_thread_timeout. destruct (tm =? K_FOREVER) eqn:E; simpl; [done|].
  destruct Hb as [H1 H2 H3 H4 H5 H6 H7 H8 H9 H10 H11 H12]. split; try done; simpl.
  - rewrite add_timeout_linked by (intros ->; done). by rewrite H8, bool_decide_eq_false_2 by congruence.
  - by apply add_timeout_wf.
  - by rewrite add_timeout_elapsed.
Qed.

Lemma add_thread_timeout_ready t tm k :
  kready none k -> z_is_thread_prevented_from_running (threads k t) = true ->
  kready none (add_thread_timeout t tm k).
Proof.
  intros [H1 H2] Hp. unfold add_thread_timeout. destruct (tm =? K_FOREVER) eqn:E; simpl; [done|].
  assert (Hr : forall t', z_is_thread_ready t' (z_add_thread_timeout t tm k) = z_is_thread_ready t' k).
  { intros t'. apply eq_true_iff_eq. rewrite !ready_iff. simpl.
    rewrite add_timeout_linked by (intros ->; done).
    destruct (decide (t' = t)) as [->|Hne]; [rewrite Hp; intuition congruence|].
    rewrite bool_decide_eq_false_2 by congruence. done. }
  split; intros t'; rewrite Hr; [apply H1|apply H2].
Qed.

(** The effect of [pend_locked] on the current thread, as seen by the owner
    of the wait queue. *)
Record pended (w : wqid) (k k' : kernel) : Prop := {
  pe_cur : current k' = current k;
  pe_idle : idle_thread k' = idle_thread k;
  pe_isr : in_isr k' = in_isr k;
  pe_irq : irq_locked k' = irq_locked k;
  pe_wq : exists th, (forall t, prio (th t) = prio (threads k t))
                     /\ waitqs k' w = z_priq_dumb_add th (current k) (waitqs k w);
  pe_wqs w' : w' <> w -> waitqs k' w' = waitqs k w';
  pe_pended : pended_on (threads k' (current k)) = Some w;
  pe_prio t : prio (threads k' t) = prio (threads k t);
  pe_data t : swap_data (threads k' t) = swap_data (threads k t);
  pe_other t : t <> current k -> exists st, threads k' t = (threads k t) <| thread_state := st |>;
  pe_self : exists st, threads k' (current k)
              = (threads k (current k)) <| thread_state := st |> <| pended_on := Some w |>;
  pe_bits t n : 0 <= n -> n <> 1 -> n <> 7 ->
    Z.testbit (thread_state (threads k' t)) n = Z.testbit (thread_state (threads k t)) n
}.

Lemma kready_tmo_unfold t k : kready none k -> z_is_thread_prevented_from_running (threads k t) = true ->
  z_is_thread_queued (threads k t) = false.
Proof.
  intros [H1 _] Hp. destruct (z_is_thread_queued _) eqn:E; [|done].
  apply H1 in E as [[Hp' _]%ready_iff _]. congruence.
Qed.

Lemma add_thread_timeout_threads t tm k : threads (add_thread_timeout t tm k) = threads k.
Proof. unfold add_thread_timeout. by case_match. Qed.
Lemma add_thread_timeout_waitqs t tm k : waitqs (add_thread_timeout t tm k) = waitqs k.
Proof. unfold add_thread_timeout. by case_match. Qed.

Lemma pend_locked_spec w tm k :
  krun k -> current k <> idle_thread k ->
  let k' := pend_locked (current k) (Some w) tm k in
  kswap k' /\ cache k' <> current k /\ pended w k k'.
Proof.
  intros [[Hb Hr Hu Hc] Hisr Hcur] Hi k'. subst k'. unfold pend_locked.
  rewrite add_to_waitq_mark. set (t := current k) in *.
  destruct (unready_spec t k Hb Hr) as (B1 & R1 & Q1 & C1 & N1).
  specialize (N1 eq_refl). pose proof (unready_frame t k) as F1.
  set (k1 := unready_thread t k) in *.
  assert (Hp1 : pended_on (threads k1 t) = None) by (rewrite (kf_pended _ _ F1); apply Hu).
  assert (Hi1 : t <> idle_thread k1) by (by rewrite (kf_idle _ _ F1)).
  pose proof (pend_mark_base t w k1 B1 Hp1 Hi1) as B2.
  pose proof (pend_mark_ready t w k1 R1 Q1) as R2.
  assert (Hpr : z_is_thread_prevented_from_running (threads (pend_mark t w k1) t) = true)
    by (rewrite pend_mark_prevented; by rewrite bool_decide_eq_true_2).
  assert (Hl1 : is_linked (TO_thread t) (tmo (pend_mark t w k1)) = false).
  { change (is_linked (TO_thread t) (tmo k1) = false).
    rewrite (st_linked _ _ (kf_tmo _ _ F1 (kb_tmo _ Hb) (kb_elapsed _ Hb) (kb_slice _ Hb))).
    by apply Hu. }
  pose proof (add_thread_timeout_base t tm _ B2 Hl1 Hi1) as B3.
  pose proof (add_thread_timeout_ready t tm _ R2 Hpr) as R3.
  assert (E : forall (A : Type) (f : kernel -> A), (forall q x, f (x <| tmo ::= q |>) = f x) ->
    f (add_thread_timeout t tm (pend_mark t w k1)) = f (pend_mark t w k1)).
  { intros A f Hf. unfold add_thread_timeout. case_match; [apply Hf|done]. }
  set (k3 := add_thread_timeout t tm (pend_mark t w k1)) in *.
  assert (Hcache : cache k3 = next_up k3).
  { unfold next_up, runq_best. rewrite (E _ cache), (E _ runq), (E _ idle_thread) by done.
    exact N1. }
  assert (Hne : next_up k3 <> t).
  { intros Heq. pose proof (next_up_ready k3 B3 R3) as [Hp _]%ready_iff.
    rewrite Heq in Hp. unfold k3 in Hp. rewrite add_thread_timeout_threads in Hp. congruence. }
  assert (Hcur3 : current k3 = t).
  { rewrite (E _ current) by done. apply (kf_current _ _ F1). }
  split; [|split; [congruence|]].
  - split; [done|done|by left|]. right. split; [done|]. rewrite Hcur3. congruence.
  - split.
    + done.
    + rewrite (E _ idle_thread) by done. apply (kf_idle _ _ F1).
    + rewrite (E _ in_isr) by done. apply (kf_in_isr _ _ F1).
    + rewrite (E _ irq_locked) by done. apply (kf_irq _ _ F1).
    + rewrite (E _ waitqs) by done. destruct (pend_mark_waitqs t w k1 w) as (th & Hth & ->).
      exists th. rewrite decide_True by done. rewrite (kf_waitqs _ _ F1). split; [|done].
      intros t'. rewrite Hth. apply (kf_prio _ _ F1).
    + intros w' Hw'. rewrite (E _ waitqs) by done. destruct (pend_mark_waitqs t w k1 w') as (th & _ & ->).
      rewrite decide_False by done. by rewrite (kf_waitqs _ _ F1).
    + rewrite (E _ threads), pend_mark_threads, decide_True by done. done.
    + intros t'. rewrite (E _ threads), pend_mark_threads by done.
      case_decide; subst; apply (kf_prio _ _ F1).
    + intros t'. rewrite (E _ threads), pend_mark_threads by done.
      case_decide; subst; apply (kf_swap_data _ _ F1).
    + intros t' Ht'. rewrite (E _ threads), pend_mark_threads, decide_False by done.
      destruct (kf_thread _ _ F1 t') as (st & -> & _). eauto.
    + rewrite (E _ threads), pend_mark_threads, decide_True by done.
      destruct (kf_thread _ _ F1 t) as (st & -> & _). eexists. reflexivity.
    + intros t' n Hn H1 H7. rewrite (E _ threads), pend_mark_threads by done.
      destruct (kf_thread _ _ F1 t') as (st & Et & Hst). case_decide; subst; rewrite ?Et; [|by apply Hst].
      change (thread_state (?x <| pended_on := Some w |>)) with (thread_state x).
      unfold z_mark_thread_as_pending, _THREAD_PENDING. rewrite testbit_set_state by lia.
      replace (n =? 1) with false by lia. rewrite orb_false_r. by apply Hst.
Qed.

(** The rule for [z_pend_curr]: the object invariant must hold once the
    caller is on the wait queue, and control returns with the value the waker
    stored, or -EAGAIN on a timeout. *)
Lemma z_pend_curr_runs_steady {O} (J : kernel * O -> Prop) key w tm k o :
  steady J -> krun k -> current k <> idle_thread k ->
  (forall k', pended w k k' -> J (swap_mark k', o)) ->
  runs J (current k)
    (fun r s' => krun s'.1 /\ J s' /\ current s'.1 = current k /\ irq_locked s'.1 = negb key
                 /\ r = swap_retval (threads s'.1 (current k)))
    (z_pend_curr key w tm (k, o)).
Proof.
  intros HJ Hk Hi Hpend. destruct (pend_locked_spec w tm k Hk Hi) as (Hsw & Hne & Hpe).
  unfold z_pend_curr, bind, kmod. cbn [obind fst snd].
  set (k' := pend_locked (current k) (Some w) tm k) in *. clearbody k'.
  rewrite <-(pe_cur _ _ _ Hpe). apply z_swap_runs_steady; try done.
  - by apply Hpend.
  - rewrite (pe_isr _ _ _ Hpe). apply Hk.
  - by rewrite (pe_cur _ _ _ Hpe).
Qed.

Lemma z_pend_curr_runs {O} (J : kernel * O -> Prop) key w tm k o :
  stable J -> krun k -> current k <> idle_thread k ->
  (forall k', pended w k k' -> J (k', o)) ->
  runs J (current k)
    (fun r s' => krun s'.1 /\ J s' /\ current s'.1 = current k /\ irq_locked s'.1 = negb key
                 /\ r = swap_retval (threads s'.1 (current k)))
    (z_pend_curr key w tm (k, o)).
Proof.
  intros HJ Hk Hi Hpend. apply z_pend_curr_runs_steady; try done; [by apply stable_steady|].
  intros k' Hk'. eapply stable_same; [done|apply swap_retval_same|by apply Hpend].
Qed.

(** ** Rescheduling *)

(** What a completed call leaves behind: the caller is current again, with
    interrupts masked as the key says. *)
Definition returned {O} (J : kernel * O -> Prop) (self : tid) (irq : bool) (s : kernel * O) : Prop :=
  krun s.1 /\ J s /\ current s.1 = self /\ irq_locked s.1 = irq.

Lemma k_spin_unlock_returned {O} (J : kernel * O -> Prop) key k o :
  stable J -> krun k -> J (k, o) ->
  returned J (current k) (negb key) (k <| irq_locked := negb key |>, o).
Proof.
  intros HJ Hk HJk. pose proof (same_sched_irq (negb key) k) as Hs. split_and!; try done.
  - by eapply krun_same.
  - by eapply stable_same.
Qed.

(** Rescheduling with an invariant on the results of waits; [J'] is what holds
    of the caller when it is not waiting. *)
Lemma z_reschedule_runs_steady {O} (J J' : kernel * O -> Prop) key k o :
  steady J -> (forall b x y, J' (x, y) -> J' (x <| irq_locked := b |>, y)) ->
  krun k -> J (swap_mark k, o) -> J' (k, o) ->
  (forall x y, J (x, y) -> current x = current k -> krun x -> J' (x, y)) ->
  runs J (current k) (fun _ s => krun s.1 /\ J' s /\ current s.1 = current k
                                  /\ irq_locked s.1 = negb key)
    (z_reschedule key (k, o)).
Proof.
  intros HJ Hirq Hk HJk HJ' Hback. unfold z_reschedule, bind, kget. cbn [obind fst snd].
  destruct (resched key k && need_swap k).
  - eapply runs_bind.
    + apply z_swap_runs_steady; try done; [by apply kwf_kswap, Hk|apply Hk|intros _; apply Hk].
    + intros r [x y] (H1 & H2 & H3 & H4 & _). simpl in *. split_and!; auto.
  - simpl. split_and!; auto. eapply krun_same; [apply same_sched_irq|done|done].
Qed.

Lemma z_reschedule_runs {O} (J : kernel * O -> Prop) key k o :
  stable J -> krun k -> J (k, o) ->
  runs J (current k) (fun _ => returned J (current k) (negb key)) (z_reschedule key (k, o)).
Proof.
  intros HJ Hk HJk. unfold z_reschedule, bind, kget. cbn [obind fst snd].
  destruct (resched key k && need_swap k).
  - eapply runs_bind.
    + apply z_swap_runs; try done; [by apply kwf_kswap, Hk|apply Hk|intros _; apply Hk].
    + intros r s (H1 & H2 & H3 & H4 & _). by split_and!.
  - by apply k_spin_unlock_returned.
Qed.

Lemma z_reschedule_unlocked_runs {O} (J : kernel * O -> Prop) k o :
  stable J -> krun k -> J (k, o) ->
  runs J (current k) (fun _ => returned J (current k) (irq_locked k)) (z_reschedule_unlocked (k, o)).
Proof.
  intros HJ Hk HJk. unfold z_reschedule_unlocked, z_reschedule_irqlock, bind, kget, k_spin_lock.
  cbn [obind fst snd]. pose proof (same_sched_irq true k) as Hs.
  assert (Hk' : krun (k <| irq_locked := true |>)) by (by eapply krun_same).
  assert (HJ' : J (k <| irq_locked := true |>, o)) by (by eapply stable_same).
  replace (returned J (current k) (irq_locked k))
    with (returned J (current k) (negb (negb (irq_locked k)))) by (by rewrite negb_involutive).
  change (current k) with (current (k <| irq_locked := true |>)). unfold z_swap_irqlock.
  destruct (resched _ _).
  - eapply runs_bind.
    + apply (z_swap_runs J (negb (irq_locked k)) (k <| irq_locked := true |>) o); try done;
        [by apply kwf_kswap, Hk'|apply Hk|intros _; apply Hk].
    + intros r s (H1 & H2 & H3 & H4 & _). by split_and!.
  - by apply (k_spin_unlock_returned J (negb (irq_locked k)) (k <| irq_locked := true |>) o).
Qed.

(** In interrupt context rescheduling is left to the interrupt return. *)
Lemma z_reschedule_isr {O} key (k : kernel) (o : O) :
  in_isr k = true -> z_reschedule key (k, o) = Done tt (k <| irq_locked := negb key |>, o).
Proof.
  intros Hi. unfold z_reschedule, bind, kget, resched. cbn [obind fst snd].
  by rewrite Hi, andb_false_r.
Qed.

(** ** Waking a thread whose data was set *)

Lemma arch_retval_waking t v u k :
  kwaking t k -> kwaking t (arch_thread_return_value_set u v k).
Proof. intros. by eapply kwaking_same; [apply swap_retval_same|..]. Qed.

Lemma retval_data_waking t v d u k :
  kwaking t k -> kwaking t (z_thread_return_value_set_with_data u v d k).
Proof. intros. by eapply kwaking_same; [by apply upd_thread_same|..]. Qed.

#[export] Hint Resolve ready_thread_wf arch_retval_waking retval_data_waking
  abort_timeout_waking : sched.

Lemma z_ready_thread_run t k :
  kwaking t k -> in_isr k = false ->
  z_is_thread_prevented_from_running (threads k (current k)) = false ->
  krun (z_ready_thread t k).
Proof.
  intros Hw Hi Hc. pose proof (ready_thread_frame t k) as Hf. split.
  - by apply ready_thread_wf.
  - unfold z_ready_thread. by rewrite (kf_in_isr _ _ Hf).
  - unfold z_ready_thread. by rewrite (kf_current _ _ Hf), (kf_prevented _ _ _ Hf).
Qed.

(** ** Waking the first waiter, with its return value *)

Lemma update_cache_threads p k : threads (update_cache p k) = threads k.
Proof.
  assert (Hz : forall t, threads (z_reset_time_slice t k) = threads k)
    by (intros; unfold z_reset_time_slice; by case_match).
  unfold update_cache. repeat case_match; try done; apply Hz.
Qed.

Lemma ready_thread_other t k t' : t' <> t -> threads (ready_thread t k) t' = threads k t'.
Proof.
  intros Hne. unfold ready_thread. case_match; [|done].
  rewrite update_cache_threads, queue_threads, threads_upd_thread. by rewrite decide_False.
Qed.

Lemma ready_thread_queued t k :
  kwaking t k -> z_is_thread_ready t k = true ->
  z_is_thread_queued (threads (ready_thread t k) t) = true.
Proof.
  intros Hw Hr. unfold ready_thread. rewrite Hr, andb_true_r.
  destruct (z_is_thread_queued (threads k t)) eqn:E; simpl; [done|].
  rewrite update_cache_threads, queue_queued. by rewrite bool_decide_eq_true_2.
Qed.

(** The state after the head [t] of wait queue [w] was unpended, had its
    swap data set, and was made ready. *)
Record woken (w : wqid) (t : tid) (v : Z) (k k' : kernel) : Prop := {
  wo_wf : kwf k';
  wo_cur : current k' = current k;
  wo_isr : in_isr k' = in_isr k;
  wo_irq : irq_locked k' = irq_locked k;
  wo_idle : idle_thread k' = idle_thread k;
  wo_wq : waitqs k w = t :: waitqs k' w;
  wo_wqs w' : w' <> w -> waitqs k' w' = waitqs k w';
  wo_not_cur : t <> current k;
  wo_pended : pended_on (threads k' t) = None;
  wo_retval : swap_retval (threads k' t) = v;
  wo_prio t' : prio (threads k' t') = prio (threads k t');
  wo_locked t' : sched_locked (threads k' t') = sched_locked (threads k t');
  wo_other t' : t' <> t -> threads k' t' = threads k t';
  wo_ready : z_is_thread_prevented_from_running (z_mark_thread_as_not_pending (threads k t)) = false ->
             t ∈ runq k'
}.

(** [k2] is the state after the data of the unpended thread was set. *)
Lemma wake_first_gen w t k k1 k2 v :
  kwf k -> z_unpend_first_thread w k = (Some t, k1) ->
  same_sched k1 k2 -> cache k2 = cache k1 -> irq_locked k2 = irq_locked k1 ->
  (forall t', t' <> t -> threads k2 t' = threads k1 t') -> swap_retval (threads k2 t) = v ->
  woken w t v k (z_ready_thread t k2).
Proof.
  intros Hk Hu Hs Hca Hirq Ho2 Hv. destruct (z_unpend_first_thread_some w k t k1 Hk Hu) as
    (r & Ew & Hw & Er & Hws & Hc & His & Hir & Hid & Hnc & Ht & Hot & Hl).
  assert (Hw2 : kwaking t k2) by (by eapply kwaking_same).
  pose proof (ready_thread_frame t k2) as F. unfold z_ready_thread.
  pose proof (ss_threads _ _ Hs t) as Hf.
  split.
  - by apply ready_thread_wf.
  - by rewrite (kf_current _ _ F), (ss_current _ _ Hs).
  - by rewrite (kf_in_isr _ _ F), (ss_in_isr _ _ Hs).
  - by rewrite (kf_irq _ _ F), Hirq.
  - by rewrite (kf_idle _ _ F), (ss_idle _ _ Hs).
  - rewrite (kf_waitqs _ _ F), (ss_waitqs _ _ Hs). by rewrite Er.
  - intros w' Hw'. rewrite (kf_waitqs _ _ F), (ss_waitqs _ _ Hs). by apply Hws.
  - done.
  - rewrite (kf_pended _ _ F), (sth_pended _ _ Hf), Ht. done.
  - by rewrite (kf_swap_retval _ _ F), Hv.
  - intros t'. rewrite (kf_prio _ _ F). destruct (decide (t' = t)) as [->|Hne].
    + by rewrite (sth_prio _ _ Hf), Ht.
    + rewrite Ho2, Hot; done.
  - intros t'. destruct (kf_thread _ _ F t') as (st & -> & _). destruct (decide (t' = t)) as [->|Hne].
    + simpl. by rewrite (sth_locked _ _ Hf), Ht.
    + rewrite Ho2, Hot; done.
  - intros t' Hne. rewrite ready_thread_other by done. rewrite Ho2 by done. by apply Hot.
  - intros Hp. apply (kb_queued _ (kwf_base _ (ready_thread_wf _ _ Hw2))).
    apply ready_thread_queued; [done|]. apply ready_iff. split.
    + autorewrite with flags. rewrite (sth_state _ _ Hf), Ht. autorewrite with flags in Hp. exact Hp.
    + by rewrite (st_linked _ _ (ss_tmo _ _ Hs)).
Qed.

Lemma wake_first w t k k1 v f :
  kwf k -> z_unpend_first_thread w k = (Some t, k1) ->
  (forall x, same_thread x (f x)) -> (forall x, swap_retval (f x) = v) ->
  woken w t v k (z_ready_thread t (upd_thread t f k1)).
Proof.
  intros Hk Hu Hf Hv. apply (wake_first_gen w t k k1); try done.
  - apply upd_thread_same, Hf.
  - intros t' Hne. by rewrite threads_upd_thread, decide_False.
  - by rewrite threads_upd_thread, decide_True, Hv.
Qed.

Lemma woken_run w t v k k' : woken w t v k k' -> krun k -> krun k'.
Proof.
  intros Hw [H1 H2 H3]. split.
  - apply Hw.
  - by rewrite (wo_isr _ _ _ _ _ Hw).
  - rewrite (wo_cur _ _ _ _ _ Hw), (wo_other _ _ _ _ _ Hw); [done|].
    apply not_eq_sym, (wo_not_cur _ _ _ _ _ Hw).
Qed.

(** ** Waking every waiter *)

(** After waking all of [w]. *)
Record all_woken (w : wqid) (v : Z) (k k' : kernel) : Prop := {
  aw_wf : kwf k';
  aw_cur : current k' = current k;
  aw_isr : in_isr k' = in_isr k;
  aw_irq : irq_locked k' = irq_locked k;
  aw_idle : idle_thread k' = idle_thread k;
  aw_wq : waitqs k' w = [];
  aw_wqs w' : w' <> w -> waitqs k' w' = waitqs k w';
  aw_woken t : t ∈ waitqs k w ->
    pended_on (threads k' t) = None /\ swap_retval (threads k' t) = v;
  aw_prio t : prio (threads k' t) = prio (threads k t);
  aw_other t : t ∉ waitqs k w -> threads k' t = threads k t
}.

Lemma all_woken_nil w v k : kwf k -> waitqs k w = [] -> all_woken w v k k.
Proof. intros Hk E. split; try done. rewrite E. by intros t ?%elem_of_nil. Qed.

Lemma all_woken_cons w t v k k2 k' :
  kwf k -> woken w t v k k2 -> all_woken w v k2 k' -> all_woken w v k k'.
Proof.
  intros Hk Hw [A1 A2 A3 A4 A5 A6 A7 A8 A9 A10].
  assert (Hnd : NoDup (t :: waitqs k2 w)) by (rewrite <-(wo_wq _ _ _ _ _ Hw); apply Hk).
  apply NoDup_cons in Hnd as [Hni _]. split.
  - done.
  - by rewrite A2, (wo_cur _ _ _ _ _ Hw).
  - by rewrite A3, (wo_isr _ _ _ _ _ Hw).
  - by rewrite A4, (wo_irq _ _ _ _ _ Hw).
  - by rewrite A5, (wo_idle _ _ _ _ _ Hw).
  - done.
  - intros w' Hw'. rewrite A7 by done. by apply (wo_wqs _ _ _ _ _ Hw).
  - intros t'. rewrite (wo_wq _ _ _ _ _ Hw), elem_of_cons. intros [->|Hin]; [|by apply A8].
    rewrite A10 by done. split; apply Hw.
  - intros t'. rewrite A9. apply (wo_prio _ _ _ _ _ Hw).
  - intros t'. rewrite (wo_wq _ _ _ _ _ Hw), not_elem_of_cons. intros [Hne Hni'].
    rewrite A10 by done. by apply (wo_other _ _ _ _ _ Hw).
Qed.

Lemma unpend_first_loop_spec (f : k_thread -> k_thread) v w n0 fuel k :
  kwf k -> (forall x, same_thread x (f x)) -> (forall x, swap_retval (f x) = v) ->
  (length (waitqs k w) <= fuel)%nat ->
  exists k', unpend_first_loop (fun t k => z_ready_thread t (upd_thread t f k)) fuel w n0 k
             = (n0 + Z.of_nat (length (waitqs k w)), k')
             /\ all_woken w v k k'.
Proof.
  intros Hk Hf Hv. revert n0 k Hk. induction fuel as [|fuel IH]; intros n0 k Hk Hlen; simpl.
  - assert (waitqs k w = []) as E by (apply nil_length_inv; lia).
    exists k. rewrite E. simpl. split; [f_equal; lia|by apply all_woken_nil].
  - destruct (z_unpend_first_thread w k) as [[t|] k1] eqn:Eu.
    + pose proof (wake_first w t k k1 v f Hk Eu Hf Hv) as Hw.
      set (k2 := z_ready_thread t (upd_thread t f k1)) in *.
      destruct (IH (n0 + 1) k2) as (k' & -> & Ha).
      { apply Hw. }
      { rewrite (wo_wq _ _ _ _ _ Hw) in Hlen. simpl in Hlen. lia. }
      exists k'. split; [rewrite (wo_wq _ _ _ _ _ Hw); simpl; f_equal; lia|].
      by eapply all_woken_cons.
    + apply z_unpend_first_thread_none in Eu as [-> E]. exists k. rewrite E. simpl.
      split; [f_equal; lia|by apply all_woken_nil].
Qed.

Lemma all_woken_run w v k k' : all_woken w v k k' -> krun k -> krun k'.
Proof.
  intros Hw [H1 H2 H3]. split.
  - apply Hw.
  - by rewrite (aw_isr _ _ _ _ Hw).
  - rewrite (aw_cur _ _ _ _ Hw), (aw_other _ _ _ _ Hw); [done|].
    rewrite (kb_wq _ (kwf_base _ H1)), (kc_pended _ (kwf_cur _ H1)). done.
Qed.

(** Rules for the lock at the start of an operation. *)
Lemma krun_irq b k : krun k -> krun (k <| irq_locked := b |>).
Proof. intros. by eapply krun_same; [apply same_sched_irq|..]. Qed.
Lemma kwf_irq b k : kwf k -> kwf (k <| irq_locked := b |>).
Proof. intros. by eapply kwf_same; [apply same_sched_irq|..]. Qed.
#[export] Hint Resolve krun_irq kwf_irq : sched.

(** Execute the straight-line part of an operation. *)
Ltac run_code :=
  unfold k_spin_lock, k_spin_unlock, bind, kget, kmod, kcall, oget, omod, ret;
  cbn [obind fst snd].

Lemma returned_negb {O} (J : kernel * O -> Prop) self b s :
  returned J self (negb (negb b)) s -> returned J self b s.
Proof. by rewrite negb_involutive. Qed.

(** Take the saved key as the caller's interrupt mask. *)
Ltac restore_key := eapply runs_mono; [intros ? ?; apply returned_negb|].
