(* ===== verification/SchedApi.v ===== *)
(** The thread API of kernel/sched.c keeps the scheduler invariant.

    Every entry point a thread can call (priority changes, yield, sleep,
    wakeup, suspend, resume, start, abort, join, the scheduler lock) and every
    entry point of the timer interrupt (thread timeouts, time slicing, the
    announcement of ticks) is shown to leave the ready queue, the wait queues,
    the timeout queue and the cached choice of the next thread consistent. *)
From S2P Require Import Prelude TimeUnits Timeout Kernel Sched SchedInv.

(** ** Changing the record of a thread that is not queued *)

(** What may change in a thread record outside the queues. *)
Record soft (x y : k_thread) : Prop := {
  so_pended : pended_on y = pended_on x;
  so_pending : z_is_thread_pending y = z_is_thread_pending x;
  so_queued : z_is_thread_queued y = z_is_thread_queued x;
  so_nowake : no_wake_on_timeout y = false;
  so_aborting : Z.testbit (thread_state y) 5 = false
}.

(** An exemption for one thread. *)
Abbreviation only t := (fun x => x = t).

Lemma upd_base_gen t f k :
  kbase k -> soft (threads k t) (f (threads k t)) ->
  (t ∈ runq k -> prio (f (threads k t)) = prio (threads k t)) ->
  (t = idle_thread k -> z_is_thread_prevented_from_running (f (threads k t)) = false) ->
  kbase (upd_thread t f k).
Proof.
  intros [H1 H2 H3 H4 H5 H6 H7 H8 H9 H10 H11 H12] [S1 S2 S3 S4 S5] Hp Hi.
  assert (Ht : forall t', threads (upd_thread t f k) t'
                          = if decide (t' = t) then f (threads k t) else threads k t')
    by (intros; apply threads_upd_thread).
  split; try done.
  - apply (prio_le_ext (threads k)); [|done]. intros t' Hin. rewrite Ht.
    case_decide; subst; auto.
  - intros t'. rewrite Ht. case_decide; subst; [rewrite S3|]; apply H3.
  - intros t' w. rewrite Ht. case_decide; subst; [rewrite S1|]; apply H5.
  - intros t'. rewrite Ht. case_decide; subst; [rewrite S1, S2|]; apply H6.
  - change (idle_thread _) with (idle_thread k). rewrite Ht. case_decide; auto.
  - intros t'. rewrite Ht. case_decide; subst; [done|apply H12].
Qed.

Lemma upd_base t f k :
  kbase k -> t ∉ runq k -> t <> idle_thread k -> soft (threads k t) (f (threads k t)) ->
  kbase (upd_thread t f k).
Proof. intros. by apply upd_base_gen. Qed.

Lemma upd_core t f k :
  kcore (only t) k -> z_is_thread_queued (threads k t) = false -> t <> idle_thread k ->
  soft (threads k t) (f (threads k t)) ->
  (t = current k -> z_is_thread_prevented_from_running (f (threads k t)) = false ->
   is_linked (TO_thread t) (tmo k) = false) ->
  kcore (only t) (upd_thread t f k).
Proof.
  intros [Hb [Hr1 Hr2] [Hc1 Hc2]] Hq Hi Hs Hcur.
  assert (Ht : forall t', threads (upd_thread t f k) t'
                          = if decide (t' = t) then f (threads k t) else threads k t')
    by (intros; apply threads_upd_thread).
  assert (Hrd : forall t', t' <> t -> z_is_thread_ready t' (upd_thread t f k) = z_is_thread_ready t' k).
  { intros t' Hne. apply eq_true_iff_eq. rewrite !ready_iff, Ht, decide_False by done. done. }
  split.
  - apply upd_base; try done. rewrite (kb_queued _ Hb), Hq. done.
  - split; intros t'; rewrite Ht; case_decide; subst.
    + rewrite (so_queued _ _ Hs), Hq. done.
    + rewrite Hrd by done. apply Hr1.
    + by intros [].
    + intros Hne. rewrite Hrd by done. by apply Hr2.
  - split; change (current (upd_thread t f k)) with (current k); rewrite Ht;
      destruct (decide (current k = t)) as [<-|]; auto.
    by rewrite (so_pended _ _ Hs).
Qed.

Lemma core_prevented t k :
  kcore (only t) k -> z_is_thread_prevented_from_running (threads k t) = true -> kcore none k.
Proof.
  intros [H1 H2 H3] Hp. split; try done. apply (kready_strengthen t); [done|].
  intros [Hp' _]%ready_iff. congruence.
Qed.

(** Changes that keep the record's scheduling fields. *)
Lemma same_core X k k' : same_sched k k' -> kcore X k -> kcore X k'.
Proof.
  intros Hs [H1 H2 H3].
  split; [by eapply kbase_same|by eapply kready_same|by eapply kcur_same].
Qed.

Lemma core_cache p k : kcore none k -> kwf (update_cache p k).
Proof. intros [H1 H2 H3]. by apply update_cache_wf. Qed.

(** ** Taking a thread off the ready queue *)

Definition dequeued (t : tid) (k : kernel) : kernel :=
  if z_is_thread_queued (threads k t) then dequeue_thread t k else k.

Lemma dequeued_frame t k : kframe k (dequeued t k).
Proof. unfold dequeued. case_match; [apply dequeue_thread_frame|apply kframe_refl]. Qed.

Lemma dequeued_queued t k : z_is_thread_queued (threads (dequeued t k) t) = false.
Proof.
  unfold dequeued. destruct (z_is_thread_queued (threads k t)) eqn:E; [|done].
  rewrite dequeue_queued, (bool_decide_eq_false_2 (t <> t)) by tauto. apply andb_false_r.
Qed.

Lemma dequeued_core (X : tid -> Prop) t k : (forall x, X x -> x = t) ->
  kcore X k -> kcore (only t) (dequeued t k).
Proof.
  intros HX [H1 H2 H3]. unfold dequeued. destruct (z_is_thread_queued (threads k t)) eqn:E.
  - split; [by apply dequeue_thread_base| |by apply dequeue_thread_cur].
    eapply kready_weaken; [|by apply (dequeue_thread_ready X)]. simpl. intros x [?|?]; auto.
  - split; [done| |done]. by eapply kready_weaken; [|exact H2].
Qed.

Lemma queue_core t k :
  kcore (only t) k -> z_is_thread_queued (threads k t) = false ->
  z_is_thread_ready t k = true -> t <> idle_thread k -> kcore none (queue_thread t k).
Proof.
  intros [H1 H2 H3] Hq Hr Hi.
  split; [by apply queue_thread_base|by apply queue_thread_ready|by apply queue_thread_cur].
Qed.

Lemma dequeued_ready t k t' : z_is_thread_ready t' (dequeued t k) = z_is_thread_ready t' k.
Proof. unfold dequeued. case_match; [apply dequeue_ready|done]. Qed.

(** The ready current thread moves behind its peers. *)
Lemma move_to_end_core t k :
  kcore none k -> z_is_thread_ready t k = true -> t <> idle_thread k ->
  kcore none (queue_thread t (dequeued t k)).
Proof.
  intros Hk Hr Hi. apply queue_core.
  - by apply (dequeued_core none).
  - apply dequeued_queued.
  - by rewrite dequeued_ready.
  - by rewrite (kf_idle _ _ (dequeued_frame t k)).
Qed.

Lemma cur_ready k : krun k -> z_is_thread_ready (current k) k = true.
Proof. intros [[_ _ [Hp Ht] _] _ Hc]. apply ready_iff. auto. Qed.

Lemma ready_queued k t :
  kwf k -> z_is_thread_ready t k = true -> t <> idle_thread k ->
  z_is_thread_queued (threads k t) = true.
Proof. intros Hk. apply (kr_queued _ _ (kwf_ready _ Hk)). intros []. Qed.

Lemma dequeued_thread t k : z_is_thread_queued (threads k t) = true -> dequeued t k = dequeue_thread t k.
Proof. unfold dequeued. by intros ->. Qed.

(** A thread-level change keeps the caller running. *)
Lemma frame_run k k' : kframe k k' -> kwf k' -> krun k -> krun k'.
Proof.
  intros Hf Hk' [H1 H2 H3]. split; [done|by rewrite (kf_in_isr _ _ Hf)|].
  by rewrite (kf_current _ _ Hf), (kf_prevented _ _ _ Hf).
Qed.

(** The CPU's own state, which only a switch changes. *)
Record kctx (k k' : kernel) : Prop := {
  cx_current : current k' = current k;
  cx_idle : idle_thread k' = idle_thread k;
  cx_isr : in_isr k' = in_isr k;
  cx_irq : irq_locked k' = irq_locked k
}.

Lemma kctx_trans a b c : kctx a b -> kctx b c -> kctx a c.
Proof. intros [] []. split; congruence. Qed.

Lemma frame_ctx k k' : kframe k k' -> kctx k k'.
Proof. intros []. by split. Qed.

Lemma upd_ctx t f k : kctx k (upd_thread t f k).
Proof. done. Qed.

Lemma abort_ctx t k : kctx k (z_abort_thread_timeout t k).2.
Proof. by rewrite abort_thread_timeout_tmo. Qed.

Lemma abort_threads t k : threads (z_abort_thread_timeout t k).2 = threads k.
Proof. by rewrite abort_thread_timeout_tmo. Qed.

#[export] Hint Resolve frame_ctx upd_ctx abort_ctx dequeued_frame queue_thread_frame
  update_cache_frame ready_thread_frame : sched.

(** The context of a composition of steps, the last step first. *)
Ltac ctx_step :=
  first [apply frame_ctx, update_cache_frame | apply frame_ctx, ready_thread_frame
        | apply frame_ctx, queue_thread_frame | apply frame_ctx, dequeued_frame
        | apply abort_ctx | apply upd_ctx].
Ltac ctx_peel := repeat (eapply kctx_trans; [|ctx_step]); try done.

Lemma ctx_run k k' : kctx k k' -> kwf k' ->
  z_is_thread_prevented_from_running (threads k' (current k)) = false -> krun k -> krun k'.
Proof.
  intros [C1 C2 C3 C4] Hk Hp [H1 H2 H3]. split; [done|congruence|by rewrite C1].
Qed.

Lemma abort_core t k : kcore none k -> kcore (only t) (z_abort_thread_timeout t k).2.
Proof.
  intros Hk. eapply kcore_weaken; [|by apply (abort_timeout_core none)]. by intros x [[]|].
Qed.

(** After [z_abort_thread_timeout(t)], [t] has no timeout. *)
Lemma abort_unlinked t k :
  tq_wf (tmo k) -> is_linked (TO_thread t) (tmo (z_abort_thread_timeout t k).2) = false.
Proof.
  intros Hw. rewrite abort_thread_timeout_tmo. simpl.
  rewrite abort_timeout_linked by apply Hw. by rewrite (bool_decide_eq_false_2 (_ <> _)), andb_false_r by tauto.
Qed.

(** ** Suspending, resuming, starting *)

Ltac soft_flags := split; flags; repeat match goal with
  | H : Z.testbit _ _ = false |- _ => rewrite H end; rewrite ?orb_false_r, ?andb_true_r; done.

Lemma suspend_soft x :
  no_wake_on_timeout x = false -> Z.testbit (thread_state x) 5 = false ->
  soft x (z_mark_thread_as_suspended x).
Proof. intros. soft_flags. Qed.

Lemma not_suspended_soft x :
  no_wake_on_timeout x = false -> Z.testbit (thread_state x) 5 = false ->
  soft x (z_mark_thread_as_not_suspended x).
Proof. intros. soft_flags. Qed.

Lemma started_soft x :
  no_wake_on_timeout x = false -> Z.testbit (thread_state x) 5 = false ->
  soft x (z_mark_thread_as_started x).
Proof. intros. soft_flags. Qed.

Lemma suspend_prevented x :
  z_is_thread_prevented_from_running (z_mark_thread_as_suspended x) = true.
Proof. flags. by rewrite !orb_true_r. Qed.

(** The part of [k_thread_suspend] that runs under the scheduler lock. *)
Definition suspend_locked (t : tid) (k : kernel) : kernel :=
  let k1 := upd_thread t z_mark_thread_as_suspended (dequeued t k) in
  update_cache (bool_decide (t = current k1)) k1.

Lemma suspend_locked_ctx t k : kctx k (suspend_locked t k).
Proof. unfold suspend_locked. ctx_peel. Qed.

Lemma suspend_locked_threads t k t' :
  z_is_thread_prevented_from_running (threads (suspend_locked t k) t')
  = bool_decide (t' = t) || z_is_thread_prevented_from_running (threads k t').
Proof.
  unfold suspend_locked. rewrite update_cache_threads, threads_upd_thread. case_decide; subst.
  - by rewrite suspend_prevented, bool_decide_eq_true_2.
  - rewrite bool_decide_eq_false_2 by done. by rewrite (kf_prevented _ _ _ (dequeued_frame t k)).
Qed.

Lemma suspend_locked_wf (X : tid -> Prop) t k :
  (forall x, X x -> x = t) -> kcore X k -> t <> idle_thread k ->
  kwf (suspend_locked t k)
  /\ (t = current k -> cache (suspend_locked t k) <> current k).
Proof.
  intros HX Hk Hi. pose proof (dequeued_core X t k HX Hk) as H1.
  pose proof (dequeued_frame t k) as F.
  assert (H2 : kcore none (upd_thread t z_mark_thread_as_suspended (dequeued t k))).
  { apply (core_prevented t);
      [|rewrite threads_upd_thread, decide_True by done; apply suspend_prevented].
    apply upd_core; [done|apply dequeued_queued|by rewrite (kf_idle _ _ F)| |].
    - apply suspend_soft; apply (kb_quiet _ (kco_base _ _ H1)).
    - by rewrite suspend_prevented. }
  unfold suspend_locked. set (k2 := upd_thread t _ _) in *. split; [by apply core_cache|].
  intros ->. change (current k2) with (current (dequeued (current k) k)).
  rewrite (kf_current _ _ F), bool_decide_eq_true_2, update_cache_true by (done || apply H2).
  intros E. pose proof (core_cache true _ H2) as Hw.
  pose proof (next_up_ready _ (kwf_base _ Hw) (kwf_ready _ Hw)) as [Hp _]%ready_iff.
  rewrite E, update_cache_threads in Hp. unfold k2 in Hp.
  rewrite threads_upd_thread, decide_True, suspend_prevented in Hp; done.
Qed.

(** ** Making a thread ready after clearing its flags *)

Lemma upd_waking t f k :
  kwaking t k -> z_is_thread_queued (threads k t) = false ->
  soft (threads k t) (f (threads k t)) ->
  (t = current k -> is_linked (TO_thread t) (tmo k) = false /\ cache k = next_up k) ->
  kwaking t (upd_thread t f k).
Proof.
  intros [W1 W2 W3 W4 W5] Hq Hs Hc.
  destruct (upd_core t f k) as [H1 H2 H3]; try done; [intros ->; by destruct Hc|].
  split; try done.
  unfold cache_ok, next_up, runq_best in *. destruct W4 as [W4|(E1 & E2 & E3)]; [by left|].
  destruct (decide (current k = t)) as [E|Hne]; [left; by apply Hc|].
  right. change (current (upd_thread t f k)) with (current k).
  rewrite threads_upd_thread, decide_False by done. done.
Qed.

Lemma ready_upd_run t f k k' :
  krun k -> kctx k k' -> threads k' (current k) = threads k (current k) ->
  kwaking t k' -> z_is_thread_queued (threads k' t) = false -> t <> current k ->
  soft (threads k' t) (f (threads k' t)) ->
  krun (ready_thread t (upd_thread t f k')) /\ kctx k (ready_thread t (upd_thread t f k')).
Proof.
  intros Hk C Ht Hw Hq Hne Hs.
  assert (C' : kctx k (ready_thread t (upd_thread t f k'))) by (eapply kctx_trans; [done|ctx_peel]).
  split; [|done]. apply (ctx_run k); try done.
  - apply ready_thread_wf, upd_waking; try done. by rewrite (cx_current _ _ C).
  - rewrite ready_thread_other by done. rewrite threads_upd_thread, decide_False by done.
    rewrite Ht. apply Hk.
Qed.

(** ** Sleeping *)

Lemma z_add_thread_timeout_eq t tm k : z_add_thread_timeout t tm k = add_thread_timeout t tm k.
Proof.
  unfold add_thread_timeout, z_add_thread_timeout, z_add_timeout.
  destruct (tm =? K_FOREVER); by destruct k.
Qed.

(** The state in which a sleeping thread gives up the CPU. *)
Definition sleep_locked (ticks : Z) (k : kernel) : kernel :=
  let t := current k in
  z_add_thread_timeout t ticks (upd_thread t z_mark_thread_as_suspended (unready_thread t k)).

Lemma unready_core t k : kcore none k -> kcore (only t) (unready_thread t k).
Proof.
  intros Hk. pose proof (dequeued_core none t k ltac:(by intros ? []) Hk) as [H1 H2 H3].
  split; [by apply update_cache_base|by apply update_cache_ready|by apply update_cache_cur].
Qed.

Lemma sleep_locked_wf ticks k :
  krun k -> current k <> idle_thread k ->
  kwf (sleep_locked ticks k) /\ cache (sleep_locked ticks k) <> current k
  /\ kctx k (sleep_locked ticks k).
Proof.
  intros [Hk Hisr Hcur] Hi. unfold sleep_locked. set (t := current k) in *.
  destruct (unready_spec t k (kwf_base _ Hk) (kwf_ready _ Hk)) as (_ & _ & Hq & _ & Hn).
  pose proof (unready_core t k (kwf_core _ Hk)) as H1. specialize (Hn eq_refl).
  pose proof (unready_frame t k) as F. set (k1 := unready_thread t k) in *.
  assert (Hl1 : is_linked (TO_thread t) (tmo k1) = false).
  { rewrite (st_linked _ _ (kf_tmo _ _ F (kb_tmo _ (kwf_base _ Hk)) (kb_elapsed _ (kwf_base _ Hk))
      (kb_slice _ (kwf_base _ Hk)))). by apply (kc_tmo _ (kwf_cur _ Hk)). }
  set (k2 := upd_thread t z_mark_thread_as_suspended k1).
  assert (Hp2 : z_is_thread_prevented_from_running (threads k2 t) = true)
    by (unfold k2; rewrite threads_upd_thread, decide_True by done; apply suspend_prevented).
  assert (Hi1 : t <> idle_thread k1) by (by rewrite (kf_idle _ _ F)).
  assert (H2 : kcore none k2).
  { apply (core_prevented t); [|done]. apply upd_core; try done.
    apply suspend_soft; apply (kb_quiet _ (kco_base _ _ H1)). }
  assert (C : kctx k k2) by (eapply kctx_trans; [apply frame_ctx, F|apply upd_ctx]).
  rewrite z_add_thread_timeout_eq. destruct H2 as [B2 R2 U2].
  assert (E : forall (A : Type) (f : kernel -> A), (forall q x, f (x <| tmo ::= q |>) = f x) ->
    f (add_thread_timeout t ticks k2) = f k2).
  { intros A f Hf. unfold add_thread_timeout. case_match; [apply Hf|done]. }
  pose proof (add_thread_timeout_base t ticks k2 B2 Hl1 Hi1) as B3.
  pose proof (add_thread_timeout_ready t ticks k2 R2 Hp2) as R3.
  set (k3 := add_thread_timeout t ticks k2) in *.
  assert (C3 : cache k3 = next_up k3).
  { unfold next_up, runq_best. rewrite (E _ cache), (E _ runq), (E _ idle_thread) by done. exact Hn. }
  assert (Cx : kctx k k3).
  { destruct C as [X1 X2 X3 X4]. split; [rewrite (E _ current)|rewrite (E _ idle_thread)
      |rewrite (E _ in_isr)|rewrite (E _ irq_locked)]; done. }
  assert (Hp3 : z_is_thread_prevented_from_running (threads k3 t) = true)
    by (by rewrite (E _ threads)).
  split_and!; [split; try done| |done].
  - split; rewrite (cx_current _ _ Cx).
    + rewrite (E _ threads) by done. fold t. rewrite <-(cx_current _ _ C : _ = t). apply U2.
    + fold t. congruence.
  - by left.
  - rewrite C3. intros Eq. pose proof (next_up_ready _ B3 R3) as [Hp _]%ready_iff. congruence.
Qed.

(** ** Priorities and the scheduler lock *)

Lemma prio_soft x p :
  no_wake_on_timeout x = false -> Z.testbit (thread_state x) 5 = false ->
  soft x (x <| prio := p |>).
Proof. by split. Qed.

Lemma set_prio_prevented t p k t' :
  z_is_thread_prevented_from_running (threads (z_set_prio t p k).2 t')
  = z_is_thread_prevented_from_running (threads k t').
Proof.
  unfold z_set_prio. destruct (z_is_thread_ready t k); cbn [snd].
  - rewrite update_cache_threads, queue_prevented, threads_upd_thread.
    case_decide; subst; apply (dequeue_prevented t k).
  - rewrite threads_upd_thread. by case_decide; subst.
Qed.

Lemma set_prio_wf t p k :
  kwf k -> t <> idle_thread k ->
  kwf (z_set_prio t p k).2 /\ kctx k (z_set_prio t p k).2.
Proof.
  intros Hk Hi. unfold z_set_prio. set (f := fun x => x <| prio := p |>).
  pose proof (kwf_waking t k Hk Hi) as [W1 W2 W3 W4 _].
  destruct (z_is_thread_ready t k) eqn:Er; cbn [snd].
  - rewrite <-(dequeued_thread _ _ (ready_queued _ _ Hk Er Hi)). split; [|ctx_peel].
    pose proof (dequeued_frame t k) as F.
    pose proof (dequeued_core none t k ltac:(by intros ? []) (kwf_core _ Hk)) as H1.
    assert (Hr1 : z_is_thread_ready t (dequeued t k) = true) by (by rewrite dequeued_ready).
    apply core_cache, queue_core.
    + apply upd_core; try done; [apply dequeued_queued|by rewrite (kf_idle _ _ F)| |].
      * apply prio_soft; apply (kb_quiet _ (kco_base _ _ H1)).
      * intros _ _. by apply ready_iff in Hr1 as [_ ?].
    + rewrite threads_upd_thread, decide_True by done. apply dequeued_queued.
    + apply ready_iff. rewrite threads_upd_thread, decide_True by done. by apply ready_iff in Hr1.
    + by rewrite (kf_idle _ _ F : idle_thread (upd_thread t f _) = _).
  - split; [|ctx_peel]. assert (Hq : z_is_thread_queued (threads k t) = false).
    { destruct (z_is_thread_queued _) eqn:E; [|done]. apply (kr_ready _ _ W2) in E as [? _]. congruence. }
    destruct (upd_core t f k) as [H1 H2 H3]; try done.
    { apply prio_soft; apply (kb_quiet _ W1). }
    { intros -> Hp. by apply (kc_tmo _ W3). }
    assert (Er' : z_is_thread_ready t (upd_thread t f k) <> true).
    { rewrite ready_iff, threads_upd_thread, decide_True by done. intros Hr.
      apply not_true_iff_false in Er. by apply Er, ready_iff. }
    split; try done; [by apply (kready_strengthen t)|].
    unfold cache_ok, next_up, runq_best in *. destruct W4 as [W4|(E1 & E2 & E3)]; [by left|].
    right. change (current (upd_thread t f k)) with (current k).
    rewrite threads_upd_thread. destruct (decide (current k = t)) as [<-|]; [|done].
    apply not_true_iff_false in Er. destruct Er. apply ready_iff. split; [done|].
    by apply (kc_tmo _ W3).
Qed.

(** Changes that no waiting thread can see: the wait queues and the results
    of waits stay as they are. *)
Record quiet (k k' : kernel) : Prop := {
  qu_ctx : kctx k k';
  qu_waitqs w : waitqs k' w = waitqs k w;
  qu_pended t : pended_on (threads k' t) = pended_on (threads k t);
  qu_retval t : swap_retval (threads k' t) = swap_retval (threads k t);
  qu_data t : swap_data (threads k' t) = swap_data (threads k t);
  qu_prevented t : z_is_thread_prevented_from_running (threads k' t)
                   = z_is_thread_prevented_from_running (threads k t)
}.

Lemma quiet_refl k : quiet k k.
Proof. done. Qed.

Lemma quiet_run k k' : quiet k k' -> kwf k' -> krun k -> krun k'.
Proof.
  intros Hq Hk' Hk. apply (ctx_run k); [apply Hq|done| |done]. rewrite (qu_prevented _ _ Hq). apply Hk.
Qed.

Lemma set_prio_threads t p k u :
  exists st, threads (z_set_prio t p k).2 u
  = if decide (u = t) then (threads k u) <| thread_state := st |> <| prio := p |> else threads k u.
Proof.
  unfold z_set_prio. destruct (z_is_thread_ready t k); cbn [snd].
  - rewrite update_cache_threads, queue_threads, threads_upd_thread. case_decide; subst.
    + rewrite threads_upd_thread, decide_True by done.
      rewrite dequeue_threads, threads_upd_thread, decide_True by done. by eexists.
    + rewrite threads_upd_thread, decide_False by done.
      rewrite dequeue_threads, threads_upd_thread, decide_False by done. by exists 0.
  - rewrite threads_upd_thread. case_decide; subst; [|by exists 0].
    exists (thread_state (threads k t)). by rewrite thread_state_id.
Qed.

Lemma set_prio_quiet t p k : kwf k -> t <> idle_thread k -> quiet k (z_set_prio t p k).2.
Proof.
  intros Hk Hi. destruct (set_prio_wf t p k Hk Hi) as [_ C].
  split; [done| |intros u; destruct (set_prio_threads t p k u) as [st ->]; by case_decide..
         |apply set_prio_prevented].
  intros w. unfold z_set_prio. destruct (z_is_thread_ready t k); cbn [snd]; [|done].
  by rewrite (kf_waitqs _ _ (update_cache_frame true _)).
Qed.

Lemma set_prio_prio t p k u :
  prio (threads (z_set_prio t p k).2 u) = if decide (u = t) then p else prio (threads k u).
Proof. destruct (set_prio_threads t p k u) as [st ->]. by case_decide. Qed.

(** [is_preempt] reads the union of the priority and the lock count. *)
Lemma is_preempt_iff t :
  -128 <= prio t < 128 -> 0 <= sched_locked t < 256 ->
  is_preempt t = true <-> sched_locked t = 0 /\ 0 <= prio t.
Proof.
  intros Hp Hl. unfold is_preempt, preempt, _PREEMPT_THRESHOLD, u8, uwrap.
  change (2 ^ 8) with 256. rewrite Z.leb_le. pose proof (Z.mod_pos_bound (prio t) 256).
  destruct (decide (0 <= prio t)).
  - rewrite Z.mod_small by lia. lia.
  - replace (prio t mod 256) with (prio t + 256); [lia|].
    apply (Z.mod_unique _ _ (-1)); lia.
Qed.

(** A change of [sched_locked] alone. *)
Lemma lock_core t g k :
  kcore none k -> kcore none (upd_thread t (fun x => x <| sched_locked ::= g |>) k).
Proof.
  intros [Hb [R1 R2] [C1 C2]].
  assert (Ht : forall t', exists l, threads (upd_thread t (fun x => x <| sched_locked ::= g |>) k) t'
                                    = (threads k t') <| sched_locked := l |>).
  { intros t'. rewrite threads_upd_thread. case_decide; subst; [by eexists|].
    exists (sched_locked (threads k t')). by destruct (threads k t'). }
  split.
  - apply upd_base_gen; try done; [by split; try apply Hb|intros ->; apply Hb].
  - split; intros t'; pose proof (R1 t') as H1; pose proof (R2 t') as H2;
      unfold z_is_thread_ready in *; destruct (Ht t') as [l ->]; done.
  - split; change (current (upd_thread t (fun x => x <| sched_locked ::= g |>) k)) with (current k);
      destruct (Ht (current k)) as [l ->]; done.
Qed.

Lemma lock_prevented t g k t' :
  z_is_thread_prevented_from_running (threads (upd_thread t (fun x => x <| sched_locked ::= g |>) k) t')
  = z_is_thread_prevented_from_running (threads k t').
Proof. rewrite threads_upd_thread. by case_decide; subst. Qed.

(** Taking the lock, from any count but the last one. *)
Lemma lock_wf k :
  kwf k -> -128 <= prio (threads k (current k)) < 128 ->
  0 <= sched_locked (threads k (current k)) < 256 ->
  sched_locked (threads k (current k)) <> 1 ->
  kwf (upd_thread (current k) (fun t => t <| sched_locked ::= fun x => u8 (x - 1) |>) k).
Proof.
  intros Hk Hp Hl H1. destruct (lock_core (current k) (fun x => u8 (x - 1)) k (kwf_core _ Hk)) as [A B C].
  split; try done. pose proof (kwf_cache _ Hk) as Hc.
  unfold cache_ok, next_up, runq_best in *. destruct Hc as [Hc|(E1 & E2 & E3)]; [by left|]. right.
  set (k' := upd_thread _ _ _) in *. change (current k') with (current k).
  split; [done|]. split; [by unfold k'; rewrite lock_prevented|].
  unfold k'. rewrite threads_upd_thread, decide_True by done. apply not_true_iff_false.
  rewrite is_preempt_iff; [|done|by apply uwrap_range]. simpl. intros [E0 _].
  unfold u8, uwrap in E0. change (2 ^ 8) with 256 in E0.
  destruct (decide (sched_locked (threads k (current k)) = 0)) as [E|].
  - by rewrite E in E0.
  - rewrite Z.mod_small in E0; lia.
Qed.

(** ** Ending a thread *)

Lemma frame_linked k k' u :
  kframe k k' -> kbase k -> is_linked (TO_thread u) (tmo k') = is_linked (TO_thread u) (tmo k).
Proof.
  intros F Hb. apply (st_linked _ _ (kf_tmo _ _ F (kb_tmo _ Hb) (kb_elapsed _ Hb) (kb_slice _ Hb))).
Qed.

(** One round of the loop in [unpend_all]. *)
Definition unpend_round (t : tid) (k : kernel) : kernel :=
  ready_thread t (arch_thread_return_value_set t 0
    (z_abort_thread_timeout t (unpend_thread_no_timeout t k)).2).

Lemma unpend_round_core w t r k :
  kcore none k -> waitqs k w = t :: r ->
  kcore none (unpend_round t k) /\ kctx k (unpend_round t k)
  /\ waitqs (unpend_round t k) w = r
  /\ (forall w', w' <> w -> waitqs (unpend_round t k) w' = waitqs k w')
  /\ (forall t', t' <> t -> threads (unpend_round t k) t' = threads k t')
  /\ swap_retval (threads (unpend_round t k) t) = 0
  /\ pended_on (threads (unpend_round t k) t) = None
  /\ forall u, is_linked (TO_thread u) (tmo k) = false ->
       is_linked (TO_thread u) (tmo (unpend_round t k)) = false.
Proof.
  intros Hk Ew.
  assert (Hp : pended_on (threads k t) = Some w)
    by (apply (kb_wq _ (kco_base _ _ Hk)); rewrite Ew; by left).
  assert (Hi : t <> idle_thread k) by (apply pended_not_idle; [apply Hk|congruence]).
  pose proof (unpend_core t k w Hk Hp) as H1.
  set (k1 := unpend_thread_no_timeout t k) in *.
  assert (C1 : kctx k k1) by (unfold k1; rewrite (unpend_unfold t k w) by done; done).
  assert (H2 : kcore (only t) (z_abort_thread_timeout t k1).2).
  { eapply kcore_weaken; [|by apply (abort_timeout_core (only t))]. simpl. tauto. }
  unfold unpend_round. fold k1. set (k2 := (z_abort_thread_timeout t k1).2) in *.
  set (k3 := arch_thread_return_value_set t 0 k2).
  assert (H3 : kcore (only t) k3) by (by apply (same_core _ k2); [apply swap_retval_same|]).
  assert (C3 : kctx k k3).
  { eapply kctx_trans; [exact C1|]. eapply kctx_trans; [apply abort_ctx|apply upd_ctx]. }
  pose proof (ready_thread_frame t k3) as F.
  assert (T3 : forall t', t' <> t -> threads k3 t' = threads k t').
  { intros t' Hne. unfold k3, arch_thread_return_value_set. rewrite threads_upd_thread, decide_False by done.
    unfold k2. rewrite abort_threads. unfold k1. by rewrite (unpend_threads t k w), decide_False. }
  assert (Q3 : waitqs k3 = waitqs k1)
    by (unfold k3, k2; rewrite abort_thread_timeout_tmo; done).
  assert (W3 : forall w', waitqs k3 w' = if decide (w' = w) then z_priq_dumb_remove t (waitqs k w)
                                         else waitqs k w')
    by (intros w'; rewrite Q3; apply (unpend_waitqs t k w w' Hp)).
  split_and!.
  - apply ready_thread_core; [done|by rewrite (cx_idle _ _ C3)].
  - eapply kctx_trans; [exact C3|auto with sched].
  - rewrite (kf_waitqs _ _ F), W3, decide_True, Ew by done. simpl. by rewrite decide_True.
  - intros w' Hw'. by rewrite (kf_waitqs _ _ F), W3, decide_False.
  - intros t' Hne. rewrite ready_thread_other by done. by apply T3.
  - rewrite (kf_swap_retval _ _ F). unfold k3, arch_thread_return_value_set.
    by rewrite threads_upd_thread, decide_True.
  - rewrite (kf_pended _ _ F). unfold k3, arch_thread_return_value_set.
    rewrite threads_upd_thread, decide_True by done. unfold k2. rewrite abort_threads.
    unfold k1. by rewrite (unpend_threads t k w), decide_True.
  - intros u Hu. rewrite (frame_linked k3) by (done || apply H3).
    change (tmo k3) with (tmo k2). unfold k2. rewrite abort_thread_timeout_tmo. simpl.
    rewrite abort_timeout_linked by apply H1. unfold k1.
    rewrite (unpend_unfold t k w) by done. simpl. by rewrite Hu.
Qed.

(** Every waiter of [w] has been released with return value 0. *)
Record released (w : wqid) (k k' : kernel) : Prop := {
  re_core : kcore none k';
  re_ctx : kctx k k';
  re_wq : waitqs k' w = [];
  re_wqs w' : w' <> w -> waitqs k' w' = waitqs k w';
  re_other t : t ∉ waitqs k w -> threads k' t = threads k t;
  re_woken t : t ∈ waitqs k w ->
    swap_retval (threads k' t) = 0 /\ pended_on (threads k' t) = None;
  re_tmo u : is_linked (TO_thread u) (tmo k) = false -> is_linked (TO_thread u) (tmo k') = false
}.

Lemma unpend_all_loop_spec w n b k :
  kcore none k -> length (waitqs k w) = n ->
  released w k (unpend_all_loop unpend_round n w b k).2.
Proof.
  revert b k. induction n as [|n IH]; intros b k Hk Hn.
  - apply nil_length_inv in Hn. simpl. split; try done. rewrite Hn. by intros t ?%elem_of_nil.
  - destruct (waitqs k w) as [|t r] eqn:Ew; [done|]. simpl. unfold z_waitq_head. rewrite Ew. simpl.
    destruct (unpend_round_core w t r k Hk Ew) as (H1 & H2 & H3 & H4 & H5 & H6 & H7 & H8).
    assert (Hni : t ∉ r).
    { pose proof (kb_wq_nodup _ (kco_base _ _ Hk) w) as Hnd. rewrite Ew in Hnd.
      by apply NoDup_cons in Hnd as [? _]. }
    set (k1 := unpend_round t k) in *.
    destruct (IH true k1 H1) as [R1 R2 R3 R4 R5 R6 R7]; [rewrite H3; simpl in Hn; lia|].
    rewrite H3 in *. split; try done.
    + by eapply kctx_trans.
    + intros w' Hw'. rewrite R4 by done. by apply H4.
    + intros t'. rewrite Ew, not_elem_of_cons. intros [Hne Hni']. rewrite R5 by done. by apply H5.
    + intros t'. rewrite Ew, elem_of_cons. intros [->|Hin]; [|by apply R6]. by rewrite R5.
    + auto.
Qed.

Lemma unpend_all_spec w k : kcore none k -> released w k (unpend_all w k).
Proof. intros Hk. by apply (unpend_all_loop_spec w _ false k). Qed.

(** The record of a thread that was killed. *)
Definition mark_dead (x : k_thread) : k_thread :=
  clear_state _THREAD_ABORTING (set_state _THREAD_DEAD x).

Lemma mark_dead_bit x n : 0 <= n -> n <> 3 -> n <> 5 ->
  Z.testbit (thread_state (mark_dead x)) n = Z.testbit (thread_state x) n.
Proof.
  intros. unfold mark_dead, _THREAD_ABORTING, _THREAD_DEAD.
  rewrite testbit_clear_state, testbit_set_state by lia.
  replace (n =? 3) with false by lia. replace (n =? 5) with false by lia.
  by rewrite orb_false_r, andb_true_r.
Qed.

Lemma mark_dead_dead x : Z.testbit (thread_state (mark_dead x)) 3 = true.
Proof.
  unfold mark_dead, _THREAD_ABORTING, _THREAD_DEAD.
  rewrite testbit_clear_state, testbit_set_state by lia. rewrite Z.eqb_refl, orb_true_r. done.
Qed.

Lemma dead_prevented x :
  Z.testbit (thread_state x) 3 = true -> z_is_thread_prevented_from_running x = true.
Proof. intros H. flags. rewrite H. by rewrite !orb_true_r. Qed.

Lemma mark_dead_soft x : no_wake_on_timeout x = false -> soft x (mark_dead x).
Proof.
  intros Hn. split; rewrite ?pending_bit, ?queued_bit; rewrite ?mark_dead_bit by lia; try done.
  unfold mark_dead, _THREAD_ABORTING. rewrite testbit_clear_state by lia. apply andb_false_r.
Qed.

(** The first steps of [end_thread]: marked dead, off the ready queue. *)
Lemma dead_core t k :
  kcore none k -> t <> idle_thread k -> kcore none (dequeued t (upd_thread t mark_dead k)).
Proof.
  intros [Hb [R1 R2] [U1 U2]] Hi. set (k1 := upd_thread t mark_dead k).
  assert (T1 : forall t', threads k1 t' = if decide (t' = t) then mark_dead (threads k t) else threads k t')
    by (intros; apply threads_upd_thread).
  assert (B1 : kbase k1) by (by apply upd_base_gen; [|apply mark_dead_soft, Hb|..]).
  assert (B2 : kbase (dequeued t k1)).
  { unfold dequeued. case_match; [by apply dequeue_thread_base|done]. }
  pose proof (dequeued_frame t k1) as F.
  assert (Hq : forall t', t' <> t -> z_is_thread_queued (threads (dequeued t k1) t')
                                     = z_is_thread_queued (threads k t')).
  { intros t' Hne. transitivity (z_is_thread_queued (threads k1 t')).
    - unfold dequeued. case_match; [|done].
      rewrite dequeue_queued, bool_decide_eq_true_2 by done. apply andb_true_r.
    - by rewrite T1, decide_False. }
  assert (Hr : forall t', t' <> t -> z_is_thread_ready t' (dequeued t k1) = z_is_thread_ready t' k).
  { intros t' Hne. rewrite dequeued_ready. unfold z_is_thread_ready. by rewrite T1, decide_False. }
  assert (Hd : z_is_thread_prevented_from_running (threads (dequeued t k1) t) = true).
  { rewrite (kf_prevented _ _ _ F), T1, decide_True by done. apply dead_prevented, mark_dead_dead. }
  split; [done| |].
  - split; intros t'; rewrite (kf_idle _ _ F); destruct (decide (t' = t)) as [->|Hne].
    + by rewrite dequeued_queued.
    + rewrite Hq, Hr by done. apply R1.
    + intros _ [Hp _]%ready_iff. congruence.
    + rewrite Hq, Hr by done. apply R2.
  - split; rewrite (kf_current _ _ F); change (current k1) with (current k).
    + rewrite (kf_pended _ _ F), T1. by case_decide as E; [rewrite E in U1|].
    + destruct (decide (current k = t)) as [->|Hne]; [congruence|].
      rewrite (kf_prevented _ _ _ F), T1, decide_False by done. intros Hp.
      assert (Ht : tmo (dequeued t k1) = tmo k) by (unfold dequeued; by case_match).
      rewrite Ht. by apply U2.
Qed.

(** The next steps: off its wait queue, without a timeout. *)
Definition detach (t : tid) (k : kernel) : kernel :=
  (z_abort_thread_timeout t
    (match pended_on (threads k t) with
     | Some _ => unpend_thread_no_timeout t k
     | None => k
     end)).2.

Lemma detach_core t k :
  kcore none k -> Z.testbit (thread_state (threads k t)) 3 = true ->
  kcore none (detach t k) /\ kctx k (detach t k)
  /\ (forall t', t' <> t -> threads (detach t k) t' = threads k t')
  /\ Z.testbit (thread_state (threads (detach t k) t)) 3 = true
  /\ pended_on (threads (detach t k) t) = None
  /\ join_queue (threads (detach t k) t) = join_queue (threads k t)
  /\ is_linked (TO_thread t) (tmo (detach t k)) = false
  /\ forall w, waitqs (detach t k) w = z_priq_dumb_remove t (waitqs k w).
Proof.
  intros Hk Hd. unfold detach.
  set (k1 := match pended_on (threads k t) with
             | Some _ => unpend_thread_no_timeout t k | None => k end).
  assert (kcore none k1 /\ kctx k k1 /\ (forall t', t' <> t -> threads k1 t' = threads k t')
    /\ Z.testbit (thread_state (threads k1 t)) 3 = true /\ pended_on (threads k1 t) = None
    /\ join_queue (threads k1 t) = join_queue (threads k t)
    /\ forall w, waitqs k1 w = z_priq_dumb_remove t (waitqs k w)) as (H1 & H2 & H3 & H4 & H5 & H6 & H7).
  { assert (Hrm : forall w, pended_on (threads k t) <> Some w ->
                    z_priq_dumb_remove t (waitqs k w) = waitqs k w).
    { intros w Hw. rewrite <-(kb_wq _ (kco_base _ _ Hk)) in Hw.
      induction (waitqs k w) as [|a l IH]; [done|]. simpl. apply not_elem_of_cons in Hw as [].
      rewrite decide_False by done. by rewrite IH. }
    subst k1. destruct (pended_on (threads k t)) as [w|] eqn:Hp; [|split_and!; try done;
      intros w; by rewrite Hrm].
    pose proof (unpend_core t k w Hk Hp) as Hc. pose proof (unpend_threads t k w) as Ht.
    pose proof (unpend_waitqs t k w) as Hw.
    assert (Hb : Z.testbit (thread_state (threads (unpend_thread_no_timeout t k) t)) 3 = true)
      by (rewrite (unpend_bit t k w), Hd by done; simpl; by rewrite andb_false_r).
    split_and!; try done.
    - by apply (core_prevented t); [|apply dead_prevented].
    - rewrite (unpend_unfold t k w) by done. done.
    - intros t' Hne. by rewrite Ht, decide_False.
    - by rewrite Ht, decide_True.
    - by rewrite Ht, decide_True.
    - intros w'. rewrite Hw by done. case_decide as E; [by rewrite E|].
      rewrite Hrm; [done|]. intros [=]. congruence. }
  split_and!; rewrite ?abort_threads; try done.
  - apply (core_prevented t); [by apply abort_core|]. rewrite abort_threads. by apply dead_prevented.
  - eapply kctx_trans; [exact H2|apply abort_ctx].
  - apply abort_unlinked, H1.
  - intros w. rewrite abort_thread_timeout_tmo. apply H7.
Qed.

(** What [end_thread] does to [t] and to the threads joining it. *)
Record ended (t : tid) (k k' : kernel) : Prop := {
  en_wf : kwf k';
  en_ctx : kctx k k';
  en_dead : Z.testbit (thread_state (threads k' t)) 3 = true;
  en_runq : t ∉ runq k';
  en_tmo : is_linked (TO_thread t) (tmo k') = false;
  en_pended : pended_on (threads k' t) = None;
  en_join : waitqs k' (join_queue (threads k t)) = [];
  en_joiners j : j <> t -> pended_on (threads k j) = Some (join_queue (threads k t)) ->
    swap_retval (threads k' j) = 0 /\ pended_on (threads k' j) = None;
  en_others j : j <> t -> pended_on (threads k j) <> Some (join_queue (threads k t)) ->
    threads k' j = threads k j;
  en_cache : cache k' <> t
}.

Lemma end_thread_eq t k :
  flag_set (thread_state (threads k t)) _THREAD_DEAD = false ->
  end_thread t k =
    let k4 := detach t (dequeued t (upd_thread t mark_dead k)) in
    update_cache true (unpend_all (join_queue (threads k4 t)) k4).
Proof. intros H. unfold end_thread. by rewrite H. Qed.

Lemma dequeued_mark_dead t k t' :
  t' <> t -> threads (dequeued t (upd_thread t mark_dead k)) t' = threads k t'.
Proof.
  intros Hne. unfold dequeued. case_match; rewrite ?dequeue_threads, !threads_upd_thread, ?decide_False; done.
Qed.

Lemma next_up_not_prevented t k :
  kwf k -> z_is_thread_prevented_from_running (threads k t) = true -> next_up k <> t.
Proof.
  intros Hk Hp E. pose proof (next_up_ready k (kwf_base _ Hk) (kwf_ready _ Hk)) as [Hp' _]%ready_iff.
  congruence.
Qed.

Lemma end_thread_spec t k :
  kwf k -> t <> idle_thread k ->
  flag_set (thread_state (threads k t)) _THREAD_DEAD = false ->
  ended t k (end_thread t k).
Proof.
  intros Hk Hi Hnd. rewrite end_thread_eq by done.
  pose proof (dead_core t k (kwf_core _ Hk) Hi) as H2.
  pose proof (dequeued_frame t (upd_thread t mark_dead k)) as F.
  set (k2 := dequeued t (upd_thread t mark_dead k)) in *.
  assert (Et : threads (upd_thread t mark_dead k) t = mark_dead (threads k t))
    by (by rewrite threads_upd_thread, decide_True).
  assert (Hd2 : Z.testbit (thread_state (threads k2 t)) 3 = true).
  { destruct (kf_thread _ _ F t) as (st & -> & Hst). change (thread_state _) with st.
    rewrite Hst, Et by lia. apply mark_dead_dead. }
  destruct (detach_core t k2 H2 Hd2) as (H4 & C4 & T4 & D4 & P4 & J4 & L4 & W4).
  set (k4 := detach t k2) in *. cbv zeta.
  assert (Ej : join_queue (threads k4 t) = join_queue (threads k t)).
  { rewrite J4. destruct (kf_thread _ _ F t) as (st & -> & _). by rewrite Et. }
  rewrite Ej. set (w := join_queue (threads k t)) in *.
  destruct (unpend_all_spec w k4 H4) as [R1 R2 R3 R4 R5 R6 R7].
  set (k5 := unpend_all w k4) in *.
  assert (Hni : t ∉ waitqs k4 w) by (rewrite (kb_wq _ (kco_base _ _ H4)), P4; done).
  pose proof (core_cache true k5 R1) as Hw. pose proof (update_cache_threads true k5) as T6.
  assert (Hd6 : Z.testbit (thread_state (threads (update_cache true k5) t)) 3 = true)
    by (by rewrite T6, R5).
  assert (T2 : forall j, j <> t -> threads k4 j = threads k j)
    by (intros; rewrite T4 by done; by apply dequeued_mark_dead).
  assert (Ew : forall j, j <> t -> j ∈ waitqs k4 w <-> pended_on (threads k j) = Some w).
  { intros j Hj. by rewrite (kb_wq _ (kco_base _ _ H4)), T2. }
  split; try done.
  - eapply kctx_trans; [|apply frame_ctx, update_cache_frame]. eapply kctx_trans; [|exact R2].
    eapply kctx_trans; [|exact C4]. eapply kctx_trans; [apply upd_ctx|apply frame_ctx, F].
  - rewrite (kb_queued _ (kwf_base _ Hw)).
    rewrite (kready_tmo_unfold t _ (kwf_ready _ Hw)); [done|by apply dead_prevented].
  - rewrite (frame_linked k5) by (apply update_cache_frame || apply R1). auto.
  - by rewrite T6, R5.
  - by rewrite (kf_waitqs _ _ (update_cache_frame true k5)).
  - intros j Hj Hp. rewrite T6. apply R6. by apply Ew.
  - intros j Hj Hp. rewrite T6, R5; [by apply T2|]. by rewrite Ew.
  - rewrite update_cache_true by apply R1. apply next_up_not_prevented; [done|by apply dead_prevented].
Qed.

(** ** Yielding *)

(** An object invariant that only depends on the wait queues and on which
    thread is the idle thread. *)
Definition waitq_only {O} (J : kernel * O -> Prop) : Prop :=
  forall k k' o, (forall w, waitqs k' w = waitqs k w) -> idle_thread k' = idle_thread k -> J (k, o) -> J (k', o).

Lemma waitq_only_stable {O} (J : kernel * O -> Prop) : waitq_only J -> stable J.
Proof. intros HJ k k' o _. apply HJ. Qed.

Lemma yield_runs {O} (J : kernel * O -> Prop) k o :
  waitq_only J -> krun k -> current k <> idle_thread k -> J (k, o) ->
  runs J (current k) (fun _ => returned J (current k) (irq_locked k)) (z_impl_k_yield (k, o)).
Proof.
  intros HJ Hk Hi Hj. unfold z_impl_k_yield. run_code. restore_key.
  set (k0 := k <| irq_locked := true |>). assert (Hk0 : krun k0) by (by apply krun_irq).
  assert (Hj0 : J (k0, o)) by (by apply (HJ k)).
  change (current k) with (current k0) in *. change (idle_thread k) with (idle_thread k0) in Hi.
  set (key := negb (irq_locked k)). clearbody key k0. pose proof (cur_ready _ Hk0) as Hr.
  rewrite <-(dequeued_thread _ _ (ready_queued _ _ (kru_wf _ Hk0) Hr Hi)).
  pose proof (move_to_end_core _ _ (kwf_core _ (kru_wf _ Hk0)) Hr Hi) as Hc.
  set (k1 := queue_thread (current k0) (dequeued (current k0) k0)) in *.
  assert (Hf : kframe k0 (update_cache true k1)).
  { eapply kframe_trans; [|apply update_cache_frame].
    eapply kframe_trans; [apply dequeued_frame|apply queue_thread_frame]. }
  pose proof (frame_run _ _ Hf (core_cache true _ Hc) Hk0) as Hrun.
  rewrite <-(kf_current _ _ Hf). eapply runs_bind.
  - apply z_swap_runs; [by apply waitq_only_stable| |apply kwf_kswap, Hrun|apply Hrun|intros _; apply Hrun].
    apply (HJ k0); [|apply Hf|done]. intros w. by rewrite (kf_waitqs _ _ Hf).
  - intros r s (H1 & H2 & H3 & H4 & _). by split_and!.
Qed.

(** ** Runs of the thread API *)

Section Api.
Context {O : Type}.

Definition anything (s : kernel * O) : Prop := True.

Lemma anything_stable : stable anything.
Proof. done. Qed.

(** The call gives up the CPU only in consistent states and comes back with
    the caller's interrupt mask. *)
Definition safe {A} (self : tid) (irq : bool) (r : outcome (kernel * O) A) : Prop :=
  runs anything self (fun _ => returned anything self irq) r.

Lemma safe_done {A} self irq (a : A) k o :
  krun k -> current k = self -> irq_locked k = irq -> safe self irq (Done a (k, o)).
Proof. intros. by split_and!. Qed.

Lemma safe_ret {A B} self irq (b : B) (r : outcome (kernel * O) A) :
  safe self irq r -> safe self irq (obind r (fun _ => ret b)).
Proof. intros Hr. eapply runs_bind; [exact Hr|]. by intros a s Hs. Qed.

Lemma safe_negb {A} self b (r : outcome (kernel * O) A) :
  safe self (negb (negb b)) r -> safe self b r.
Proof. by rewrite negb_involutive. Qed.

(** Taking the lock does not change the current thread. *)
Lemma safe_locked {A} k b (r : outcome (kernel * O) A) :
  safe (current (k <| irq_locked := true |>)) b r -> safe (current k) b r.
Proof. done. Qed.

Lemma swap_safe key k o :
  kswap k -> in_isr k = false ->
  (cache k = current k -> z_is_thread_prevented_from_running (threads k (current k)) = false) ->
  safe (current k) (negb key) (z_swap key (k, o)).
Proof.
  intros Hk Hi Hc. eapply runs_mono; [|by apply z_swap_runs].
  intros r s (H1 & H2 & H3 & H4 & _). by split_and!.
Qed.

Lemma reschedule_safe key k o : krun k -> safe (current k) (negb key) (z_reschedule key (k, o)).
Proof. intros. by apply z_reschedule_runs. Qed.

(** [z_reschedule_unlocked] also from the state of a thread that has just
    become unable to run. *)
Lemma reschedule_unlocked_safe k o :
  irq_locked k = false -> in_isr k = false -> kwf k ->
  (cache k = current k -> z_is_thread_prevented_from_running (threads k (current k)) = false) ->
  safe (current k) false (z_reschedule_unlocked (k, o)).
Proof.
  intros Hirq Hisr Hk Hc. unfold z_reschedule_unlocked, z_reschedule_irqlock. run_code.
  rewrite Hirq. unfold resched. simpl. rewrite Hisr. simpl. apply safe_ret.
  change (current k) with (current (k <| irq_locked := true |>)).
  change false with (negb true). apply swap_safe; try done. apply kwf_kswap; auto with sched.
Qed.

Lemma yield_safe k o :
  krun k -> current k <> idle_thread k ->
  safe (current k) (irq_locked k) (z_impl_k_yield (k, o)).
Proof. intros. by apply yield_runs. Qed.

Lemma suspend_safe t k o :
  krun k -> t <> idle_thread k -> irq_locked k = false ->
  safe (current k) false (z_impl_k_thread_suspend t (k, o)).
Proof.
  intros Hk Hi Hirq. unfold z_impl_k_thread_suspend. run_code.
  pose proof (abort_core t k (kwf_core _ (kru_wf _ Hk))) as H1.
  set (k1 := (z_abort_thread_timeout t k).2) in *.
  assert (C1 : kctx k k1) by apply abort_ctx.
  fold (dequeued t k1). fold (suspend_locked t k1).
  destruct (suspend_locked_wf (only t) t k1) as [H2 H3]; [done|done|by rewrite (cx_idle _ _ C1)|].
  pose proof (kctx_trans _ _ _ C1 (suspend_locked_ctx t k1)) as C2.
  pose proof (suspend_locked_threads t k1) as Hp.
  set (k2 := suspend_locked t k1) in *. clearbody k2. rewrite <-(cx_current _ _ C2).
  destruct (bool_decide (t = current k2)) eqn:E.
  - apply bool_decide_eq_true in E.
    apply reschedule_unlocked_safe; rewrite ?(cx_irq _ _ C2), ?(cx_isr _ _ C2); try done;
      [apply Hk|].
    intros Hc. exfalso. apply H3; rewrite (cx_current _ _ C1); [by rewrite E, (cx_current _ _ C2)|].
    by rewrite Hc, (cx_current _ _ C2).
  - apply bool_decide_eq_false in E. apply safe_done; [|done|by rewrite (cx_irq _ _ C2)].
    apply (ctx_run k); try done. rewrite Hp. unfold k1. rewrite abort_threads.
    rewrite (cx_current _ _ C2) in E. rewrite bool_decide_eq_false_2 by congruence. apply Hk.
Qed.

(** Clearing a flag that kept [t] from running, as resume and start do. *)
Lemma unblock_safe t f key k o :
  krun k -> z_is_thread_prevented_from_running (threads k t) = true ->
  (forall x, no_wake_on_timeout x = false -> Z.testbit (thread_state x) 5 = false -> soft x (f x)) ->
  safe (current k) (negb key) (z_reschedule key (ready_thread t (upd_thread t f k), o)).
Proof.
  intros Hk Hpr Hf.
  assert (Hi : t <> idle_thread k).
  { intros ->. rewrite (kb_idle _ (kwf_base _ (kru_wf _ Hk))) in Hpr. done. }
  assert (Hnc : t <> current k) by (intros ->; rewrite (kru_cur _ Hk) in Hpr; done).
  destruct (ready_upd_run t f k k) as [Hr C]; try done.
  - by apply kwf_waking; [apply Hk|].
  - by apply (kready_tmo_unfold t k (kwf_ready _ (kru_wf _ Hk))).
  - apply Hf; apply (kb_quiet _ (kwf_base _ (kru_wf _ Hk))).
  - rewrite <-(cx_current _ _ C). by apply reschedule_safe.
Qed.

Lemma resume_safe t k o :
  krun k -> safe (current k) (irq_locked k) (z_impl_k_thread_resume t (k, o)).
Proof.
  intros Hk. unfold z_impl_k_thread_resume. run_code. apply safe_negb.
  destruct (z_is_thread_suspended _) eqn:E; simpl.
  - apply (safe_locked k), (unblock_safe t z_mark_thread_as_not_suspended (negb (irq_locked k)));
      [by apply krun_irq| |exact not_suspended_soft].
    flags. rewrite E. by rewrite !orb_true_r.
  - apply safe_done; [auto with sched|done|done].
Qed.

Lemma start_safe t k o :
  krun k -> safe (current k) (irq_locked k) (z_sched_start t (k, o)).
Proof.
  intros Hk. unfold z_sched_start. run_code. apply safe_negb.
  destruct (z_has_thread_started _) eqn:E; simpl.
  - apply safe_done; [auto with sched|done|done].
  - apply (safe_locked k), (unblock_safe t z_mark_thread_as_started (negb (irq_locked k)));
      [by apply krun_irq| |exact started_soft].
    unfold z_has_thread_started, _THREAD_PRESTART in E. rewrite flag_set_BIT in E by lia.
    apply negb_false_iff in E. flags. rewrite E. by rewrite !orb_true_r.
Qed.

(** The end of [k_wakeup]. *)
Lemma wakeup_ready_safe t k k' o :
  krun k -> kctx k k' -> threads k' (current k) = threads k (current k) ->
  kwaking t k' -> z_is_thread_queued (threads k' t) = false -> t <> current k ->
  let k2 := ready_thread t (upd_thread t z_mark_thread_as_not_suspended k') in
  safe (current k) (irq_locked k)
    ((if negb (in_isr k2) then z_reschedule_unlocked else fun s => Done tt s) (k2, o)).
Proof.
  intros Hk C Ht Hw Hq Hne k2. subst k2.
  destruct (ready_upd_run t z_mark_thread_as_not_suspended k k') as [Hr C']; try done.
  { apply not_suspended_soft; apply (kb_quiet _ (kw_base _ _ Hw)). }
  rewrite (kru_isr _ Hr). rewrite <-(cx_current _ _ C'), <-(cx_irq _ _ C').
  by apply z_reschedule_unlocked_runs.
Qed.

Lemma linked_not_queued t k :
  kready none k -> is_linked (TO_thread t) (tmo k) = true -> z_is_thread_queued (threads k t) = false.
Proof.
  intros [H1 _] Hl. destruct (z_is_thread_queued _) eqn:E; [|done].
  apply H1 in E as [[_ Hl']%ready_iff _]. congruence.
Qed.

Lemma wakeup_safe t k o :
  krun k -> safe (current k) (irq_locked k) (z_impl_k_wakeup t (k, o)).
Proof.
  intros Hk. pose proof (kru_wf _ Hk) as Hw. unfold z_impl_k_wakeup. run_code.
  destruct (z_is_thread_pending (threads k t)) eqn:Ep; [by apply safe_done|].
  change (z_abort_thread_timeout t (k, o).1) with (z_abort_thread_timeout t k).
  destruct (is_linked (TO_thread t) (tmo k)) eqn:El.
  - assert (Hi : t <> idle_thread k)
      by (intros ->; rewrite (kb_idle_tmo _ (kwf_base _ Hw)) in El; done).
    assert (Hne : t <> current k).
    { intros ->. rewrite (kc_tmo _ (kwf_cur _ Hw) (kru_cur _ Hk)) in El. done. }
    pose proof (abort_timeout_waking t k (kwf_waking t k Hw Hi)) as Hk1.
    pose proof (abort_ctx t k) as C1. pose proof (abort_threads t k) as T1.
    assert (E0 : (z_abort_thread_timeout t k).1 = 0)
      by (unfold z_abort_thread_timeout, z_abort_timeout; by rewrite El).
    destruct (z_abort_thread_timeout t k) as [a k1]. cbn [fst snd obind] in *. subst a.
    change ((0 <? 0)) with false. cbn [andb].
    apply (wakeup_ready_safe t k k1); try done; rewrite T1; [done|].
    by apply linked_not_queued; [apply Hw|].
  - unfold z_abort_thread_timeout, z_abort_timeout. rewrite El. cbn [fst snd obind].
    assert (Ek : k <| tmo := tmo k |> = k) by (by destruct k). rewrite Ek.
    change (- EINVAL <? 0) with true. cbn [andb].
    destruct (_ =? _THREAD_SUSPENDED) eqn:Es; cbn [negb]; [|by apply safe_done].
    apply Z.eqb_eq in Es.
    assert (Hp : z_is_thread_prevented_from_running (threads k t) = true)
      by (unfold z_is_thread_prevented_from_running; by rewrite Es).
    apply (wakeup_ready_safe t k k); try done.
    + apply kwf_waking; [done|]. intros ->. by rewrite (kb_idle _ (kwf_base _ Hw)) in Hp.
    + by apply (kready_tmo_unfold t k (kwf_ready _ Hw)).
    + intros ->. by rewrite (kru_cur _ Hk) in Hp.
Qed.

Lemma tick_sleep_safe ticks k o :
  krun k -> current k <> idle_thread k ->
  safe (current k) (irq_locked k) (z_tick_sleep ticks (k, o)).
Proof.
  intros Hk Hi. unfold z_tick_sleep. destruct (ticks =? 0) eqn:E0.
  { by apply safe_ret, yield_safe. }
  run_code. set (k0 := k <| irq_locked := true |>).
  destruct (sleep_locked_wf ticks k0) as (H1 & H2 & H3); [by apply krun_irq|done|].
  apply safe_negb. change (current k) with (current k0).
  assert (Ek : upd_thread (current (z_add_thread_timeout (current (unready_thread (current k0) k0))
      ticks (unready_thread (current k0) k0))) z_mark_thread_as_suspended
      (z_add_thread_timeout (current (unready_thread (current k0) k0)) ticks
        (unready_thread (current k0) k0)) = sleep_locked ticks k0).
  { unfold sleep_locked. change (current (z_add_thread_timeout ?a ?b ?c)) with (current c).
    rewrite (kf_current _ _ (unready_frame (current k0) k0)). done. }
  rewrite Ek. clear Ek. set (k1 := sleep_locked ticks k0) in *. clearbody k1.
  rewrite <-(cx_current _ _ H3). eapply runs_bind.
  - apply swap_safe; [by apply kwf_kswap|rewrite (cx_isr _ _ H3); apply Hk|].
    rewrite (cx_current _ _ H3). done.
  - intros r s Hs. exact Hs.
Qed.

Lemma priority_set_safe t p k o :
  krun k -> t <> idle_thread k ->
  safe (current k) (irq_locked k) (z_impl_k_thread_priority_set t p (k, o)).
Proof.
  intros Hk Hi. unfold z_impl_k_thread_priority_set, z_thread_priority_set. run_code.
  change (z_set_prio t p (k, o).1) with (z_set_prio t p k).
  destruct (set_prio_wf t p k (kru_wf _ Hk) Hi) as [H1 C].
  pose proof (set_prio_prevented t p k (current k)) as Hp.
  destruct (z_set_prio t p k) as [b k']. cbn [fst snd obind] in *.
  assert (Hk' : krun k') by (apply (ctx_run k); try done; rewrite Hp; apply Hk).
  rewrite <-(cx_current _ _ C), <-(cx_irq _ _ C).
  destruct (b && _); [by apply z_reschedule_unlocked_runs|by apply safe_done].
Qed.

Lemma sched_lock_safe k o :
  krun k -> -128 <= prio (threads k (current k)) < 128 ->
  0 <= sched_locked (threads k (current k)) < 256 ->
  sched_locked (threads k (current k)) <> 1 ->
  safe (current k) (irq_locked k) (k_sched_lock (k, o)).
Proof.
  intros Hk Hp Hl H1. unfold k_sched_lock. run_code. apply safe_done; [|done|done].
  apply (ctx_run k); [done|by apply lock_wf; [apply Hk|..]| |done].
  rewrite lock_prevented. apply Hk.
Qed.

Lemma sched_unlock_safe k o :
  krun k -> safe (current k) (irq_locked k) (k_sched_unlock (k, o)).
Proof.
  intros Hk. unfold k_sched_unlock. run_code.
  set (k1 := upd_thread _ _ _). assert (C : kctx k (update_cache false k1)) by ctx_peel.
  rewrite <-(cx_current _ _ C), <-(cx_irq _ _ C).
  apply z_reschedule_unlocked_runs; [done| |done].
  apply (ctx_run k); try done; [by apply core_cache, lock_core, kwf_core, Hk|].
  rewrite update_cache_threads. unfold k1. rewrite lock_prevented. apply Hk.
Qed.

Lemma thread_abort_safe t k o :
  krun k -> t <> idle_thread k -> safe (current k) (irq_locked k) (z_thread_abort t (k, o)).
Proof.
  intros Hk Hi. unfold z_thread_abort. run_code. apply safe_negb, (safe_locked k).
  set (k0 := k <| irq_locked := true |>). assert (Hk0 : krun k0) by (by apply krun_irq).
  change (idle_thread k) with (idle_thread k0) in Hi. set (key := negb (irq_locked k)).
  clearbody k0 key. clear Hk k.
  destruct (flag_set (user_options _) _); [apply safe_done; [auto with sched|done|done]|].
  destruct (flag_set _ _THREAD_DEAD) eqn:Hd; [apply safe_done; [auto with sched|done|done]|].
  destruct (end_thread_spec t k0 (kru_wf _ Hk0) Hi Hd) as [E1 E2 E3 E4 E5 E6 E7 E8 E9 E10].
  cbn [obind fst snd]. set (k1 := end_thread t k0) in *. clearbody k1.
  rewrite (cx_isr _ _ E2), (kru_isr _ Hk0), andb_true_r, <-(cx_current _ _ E2).
  destruct (bool_decide (t = current k1)) eqn:Eb.
  - apply bool_decide_eq_true in Eb. eapply runs_bind.
    + apply safe_ret, (swap_safe key); [by apply kwf_kswap|by rewrite (cx_isr _ _ E2), (kru_isr _ Hk0)|].
      congruence.
    + intros [] s (S1 & S2 & S3 & S4). apply safe_done; [auto with sched|done|done].
  - apply bool_decide_eq_false in Eb. apply safe_done; [apply krun_irq|done|done].
    rewrite (cx_current _ _ E2) in Eb.
    apply (ctx_run k0); try done. rewrite E9; [apply Hk0|congruence|].
    rewrite (kc_pended _ (kwf_cur _ (kru_wf _ Hk0))). done.
Qed.

Lemma join_safe t tm k o :
  krun k -> current k <> idle_thread k ->
  safe (current k) (irq_locked k) (z_impl_k_thread_join t tm (k, o)).
Proof.
  intros Hk Hi. unfold z_impl_k_thread_join. run_code. apply safe_negb, (safe_locked k).
  set (k0 := k <| irq_locked := true |>). assert (Hk0 : krun k0) by (by apply krun_irq).
  change (idle_thread k) with (idle_thread k0) in Hi. change (current k) with (current k0) in Hi.
  set (key := negb (irq_locked k)). clearbody k0 key. clear Hk k.
  repeat (case_match; [apply safe_done; [auto with sched|done|done]|]).
  assert (Hc : current (add_to_waitq_locked (current k0) (Some (join_queue (threads k0 t))) k0) = current k0)
    by (rewrite add_to_waitq_mark; apply (kf_current _ _ (unready_frame (current k0) k0))).
  cbn [obind fst snd]. rewrite Hc.
  eapply runs_mono; [|by apply (z_pend_curr_runs anything key (join_queue (threads k0 t)) tm k0 o)].
  intros r s (A1 & A2 & A3 & A4 & _). by split_and!.
Qed.

End Api.

(** ** Rules for kernel objects with a stable invariant *)

Lemma unlock_id k : k <| irq_locked := true |> <| irq_locked := negb (negb (irq_locked k)) |> = k.
Proof. rewrite negb_involutive. by destruct k. Qed.

Section Objects.
Context {O : Type} (J : kernel * O -> Prop) (HJ : stable J).

(** The end of an operation that woke the first waiter. *)
Lemma woken_resched_runs w t v k k' (o : O) :
  krun k -> woken w t v (k <| irq_locked := true |>) k' -> J (k', o) ->
  runs J (current k) (fun _ => returned J (current k) (irq_locked k))
    (z_reschedule (negb (irq_locked k)) (k', o)).
Proof.
  intros Hk Hw HJ'. restore_key.
  replace (current k) with (current k') by apply (wo_cur _ _ _ _ _ Hw).
  apply z_reschedule_runs; [done|eapply woken_run; [done|by apply krun_irq]|done].
Qed.

(** The end of an operation that woke every waiter. *)
Lemma all_woken_resched_runs w v k k' (o : O) :
  krun k -> all_woken w v (k <| irq_locked := true |>) k' -> J (k', o) ->
  runs J (current k) (fun _ => returned J (current k) (irq_locked k))
    (z_reschedule (negb (irq_locked k)) (k', o)).
Proof.
  intros Hk Hw HJ'. restore_key.
  replace (current k) with (current k') by apply (aw_cur _ _ _ _ Hw).
  apply z_reschedule_runs; [done|eapply all_woken_run; [done|by apply krun_irq]|done].
Qed.

(** A wait that does not prepare any data. *)
Lemma pend_returned_runs w tm k (o : O) :
  krun k -> current k <> idle_thread k ->
  (forall k', pended w (k <| irq_locked := true |>) k' -> J (k', o)) ->
  runs J (current k)
    (fun r s => returned J (current k) (irq_locked k) s /\ r = swap_retval (threads s.1 (current k)))
    (z_pend_curr (negb (irq_locked k)) w tm (k <| irq_locked := true |>, o)).
Proof.
  intros Hk Hi Hp. set (k0 := k <| irq_locked := true |>) in *. change (current k) with (current k0).
  eapply runs_mono; [|apply (z_pend_curr_runs J _ w tm k0 o)]; [|done|by apply krun_irq|done|done].
  intros r s (R1 & R2 & R3 & R4 & R5). rewrite negb_involutive in R4. by split_and!.
Qed.
End Objects.

(** ** Taking threads out of a wait queue *)

Lemma filter_skip (t : tid) d (l : list tid) : t ∉ l -> filter (fun x => x ∉ d) l = filter (fun x => x ∉ t :: d) l.
Proof.
  induction l as [|x r IH]; [done|]. rewrite not_elem_of_cons, !filter_cons. intros [Hne Hni].
  rewrite <-IH by done. destruct (decide (x ∈ d)).
  - rewrite decide_False by tauto. rewrite decide_False; [done|]. intros Hx. apply Hx. by right.
  - rewrite decide_True by done. rewrite decide_True; [done|]. by apply not_elem_of_cons.
Qed.

Lemma priq_remove_filter t d (l : list tid) :
  NoDup l -> z_priq_dumb_remove t (filter (fun x => x ∉ d) l) = filter (fun x => x ∉ t :: d) l.
Proof.
  induction 1 as [|x r Hni Hnd IH]; [done|]. rewrite !filter_cons. destruct (decide (x ∈ d)) as [Hx|Hx].
  - rewrite decide_False by tauto. rewrite decide_False; [done|]. intros Hx'. apply Hx'. by right.
  - rewrite decide_True by done. cbn [z_priq_dumb_remove]. destruct (decide (x = t)) as [->|Hne].
    + rewrite decide_False by (rewrite elem_of_cons; tauto). by apply filter_skip.
    + rewrite decide_True by (rewrite elem_of_cons; tauto). by rewrite IH.
Qed.

(** ** [z_unpend_all] *)

(** After waking all of [w] without setting their return values. *)
Record all_readied (w : wqid) (k k' : kernel) : Prop := {
  ar_wf : kwf k';
  ar_cur : current k' = current k;
  ar_isr : in_isr k' = in_isr k;
  ar_irq : irq_locked k' = irq_locked k;
  ar_idle : idle_thread k' = idle_thread k;
  ar_wq : waitqs k' w = [];
  ar_wqs w' : w' <> w -> waitqs k' w' = waitqs k w';
  ar_woken t : t ∈ waitqs k w ->
    pended_on (threads k' t) = None /\ swap_retval (threads k' t) = swap_retval (threads k t);
  ar_other t : t ∉ waitqs k w -> threads k' t = threads k t
}.

Lemma unpend_head w t r k :
  kwf k -> waitqs k w = t :: r -> z_unpend_first_thread w k = (Some t, z_unpend_thread t k).
Proof.
  intros Hk Ew. unfold z_unpend_first_thread, z_unpend_thread, z_priq_dumb_best. rewrite Ew. simpl.
  assert (pended_on (threads k t) = Some w) as Hp by (apply (kb_wq _ (kwf_base _ Hk)); rewrite Ew; left).
  unfold z_unpend_thread_no_timeout. by rewrite Hp.
Qed.

Lemma unpend_retval t k : swap_retval (threads (z_unpend_thread t k) t) = swap_retval (threads k t).
Proof.
  unfold z_unpend_thread, z_unpend_thread_no_timeout, z_abort_thread_timeout. destruct (pended_on (threads k t)) as [w|] eqn:E.
  - unfold unpend_thread_no_timeout. rewrite E. destruct (z_abort_timeout _ _) as [? ?]. simpl.
    by rewrite fn_lookup_insert.
  - by destruct (z_abort_timeout _ _).
Qed.

Lemma z_unpend_all_spec w k :
  kwf k -> exists k', z_unpend_all w k = (negb (bool_decide (waitqs k w = [])), k') /\ all_readied w k k'.
Proof.
  unfold z_unpend_all.
  assert (forall n b k, kwf k -> length (waitqs k w) = n ->
    exists k', unpend_all_loop (fun thread k => z_ready_thread thread (z_unpend_thread thread k)) n w b k
      = (b || negb (bool_decide (waitqs k w = [])), k') /\ all_readied w k k') as Hloop.
  2:{ intros Hk. by apply (Hloop _ false). }
  clear k. induction n as [|n IH]; intros b k Hk Hn; simpl.
  - apply nil_length_inv in Hn. exists k. rewrite Hn. simpl. rewrite orb_false_r. split; [done|].
    split; try done. rewrite Hn. by intros t ?%elem_of_nil.
  - destruct (waitqs k w) as [|t r] eqn:Ew; [done|]. unfold z_waitq_head. rewrite Ew. simpl.
    pose proof (wake_first_gen w t k _ _ (swap_retval (threads k t)) Hk (unpend_head w t r k Hk Ew)
      (same_sched_refl _) eq_refl eq_refl (fun _ _ => eq_refl) (unpend_retval t k)) as Hw.
    set (k2 := z_ready_thread t (z_unpend_thread t k)) in *.
    assert (waitqs k2 w = r) as Er by (pose proof (wo_wq _ _ _ _ _ Hw) as E; rewrite Ew in E; by injection E).
    destruct (IH true k2) as (k' & E & [A1 A2 A3 A4 A5 A6 A7 A8 A9]); [apply Hw|rewrite Er; simpl in Hn; lia|].
    exists k'. rewrite E. simpl. rewrite orb_true_r. split; [done|].
    assert (Hnd : NoDup (t :: r)) by (rewrite <- Ew; apply Hk). apply NoDup_cons in Hnd as [Hni _].
    rewrite Er in A8, A9. split; try done.
    + by rewrite A2, (wo_cur _ _ _ _ _ Hw).
    + by rewrite A3, (wo_isr _ _ _ _ _ Hw).
    + by rewrite A4, (wo_irq _ _ _ _ _ Hw).
    + by rewrite A5, (wo_idle _ _ _ _ _ Hw).
    + intros w' Hw'. rewrite A7 by done. by apply (wo_wqs _ _ _ _ _ Hw).
    + intros t'. rewrite Ew, elem_of_cons. intros [->|Hin].
      * rewrite A9 by done. split; [apply Hw|apply (wo_retval _ _ _ _ _ Hw)].
      * destruct (A8 t' Hin) as [? ->]. split; [done|]. rewrite (wo_other _ _ _ _ _ Hw); [done|]. congruence.
    + intros t'. rewrite Ew, not_elem_of_cons. intros [Hne Hni'].
      rewrite A9 by done. by apply (wo_other _ _ _ _ _ Hw).
Qed.

Lemma all_readied_run w k k' : all_readied w k k' -> krun k -> krun k'.
Proof.
  intros Hw [H1 H2 H3]. split.
  - apply Hw.
  - by rewrite (ar_isr _ _ _ Hw).
  - rewrite (ar_cur _ _ _ Hw), (ar_other _ _ _ Hw); [done|].
    rewrite (kb_wq _ (kwf_base _ H1)), (kc_pended _ (kwf_cur _ H1)). done.
Qed.

Lemma all_readied_resched_runs {O} (J : kernel * O -> Prop) w k k' (o : O) :
  stable J -> krun k -> all_readied w (k <| irq_locked := true |>) k' -> J (k', o) ->
  runs J (current k) (fun _ => returned J (current k) (irq_locked k))
    (z_reschedule (negb (irq_locked k)) (k', o)).
Proof.
  intros HJ Hk Hw HJ'. restore_key.
  replace (current k) with (current k') by apply (ar_cur _ _ _ Hw).
  apply z_reschedule_runs; [done|eapply all_readied_run; [done|by apply krun_irq]|done].
Qed.

(** ** [z_sched_wake] *)

Lemma woken_from w t v g k k' :
  (forall x, same_thread x (g x)) -> woken w t v (upd_thread t g k) k' -> woken w t v k k'.
Proof.
  intros Hg [H1 H2 H3 H4 H5 H6 H7 H8 H9 H10 H11 H12 H13 H14]. split; try done.
  - intros t'. rewrite H11, threads_upd_thread. case_decide; [subst; apply Hg|done].
  - intros t'. rewrite H12, threads_upd_thread. case_decide; [subst; apply Hg|done].
  - intros t' Hne. rewrite H13, threads_upd_thread, decide_False by done. done.
  - intros Hp. apply H14. rewrite threads_upd_thread, decide_True by done.
    unfold z_is_thread_prevented_from_running, z_mark_thread_as_not_pending in *. simpl in *.
    by rewrite (sth_state _ _ (Hg _)).
Qed.

Lemma z_sched_wake_cases w v d k :
  kwf k ->
  match waitqs k w with
  | [] => z_sched_wake w v d k = (false, k)
  | t :: _ => exists k', z_sched_wake w v d k = (true, k') /\ woken w t v k k' /\ swap_data (threads k' t) = d
  end.
Proof.
  intros Hk. unfold z_sched_wake, z_priq_dumb_best. destruct (waitqs k w) as [|t r] eqn:Ew; [done|].
  cbn [head]. set (g := fun x => x <| swap_retval := v |> <| swap_data := d |>).
  change (z_thread_return_value_set_with_data t v d k) with (upd_thread t g k).
  assert (forall x, same_thread x (g x)) as Hg by done.
  set (k1 := upd_thread t g k). assert (kwf k1) as Hk1 by (eapply kwf_same; [by apply upd_thread_same|done|done]).
  assert (waitqs k1 w = t :: r) as Ew1 by done.
  assert (pended_on (threads k1 t) = Some w) as Hp by (apply (kb_wq _ (kwf_base _ Hk1)); rewrite Ew1; left).
  assert (z_unpend_first_thread w k1 = (Some t, (z_abort_thread_timeout t (unpend_thread_no_timeout t k1)).2)) as Hu
    by (unfold z_unpend_first_thread, z_priq_dumb_best; by rewrite Ew1).
  set (k2 := (z_abort_thread_timeout t (unpend_thread_no_timeout t k1)).2) in *.
  assert (threads k2 t = (z_mark_thread_as_not_pending (threads k1 t)) <| pended_on := None |>) as Et.
  { unfold k2, z_abort_thread_timeout. destruct (z_abort_timeout _ _) as [? ?]. simpl.
    unfold unpend_thread_no_timeout. rewrite Hp. by rewrite threads_upd_thread, decide_True. }
  assert (threads k1 t = g (threads k t)) as Eg by (unfold k1; by rewrite threads_upd_thread, decide_True).
  eexists. split; [reflexivity|]. split.
  - apply (woken_from w t v g); [done|]. apply (wake_first_gen w t k1 k2 k2 v Hk1 Hu); try done.
    + apply same_sched_refl.
    + by rewrite Et, Eg.
  - rewrite (kf_swap_data _ _ (ready_thread_frame t k2)). by rewrite Et, Eg.
Qed.

Lemma z_sched_wake_all_spec w v d k :
  kwf k -> exists k', z_sched_wake_all w v d k = (negb (bool_decide (waitqs k w = [])), k') /\ all_woken w v k k'.
Proof.
  unfold z_sched_wake_all.
  assert (forall n b k, kwf k -> length (waitqs k w) = n ->
    exists k', wake_all_loop n w v d b k = (b || negb (bool_decide (waitqs k w = [])), k') /\ all_woken w v k k') as Hloop.
  2:{ intros Hk. by apply (Hloop _ false). }
  clear k. induction n as [|n IH]; intros b k Hk Hn; simpl.
  - apply nil_length_inv in Hn. exists k. rewrite Hn. simpl. rewrite orb_false_r. split; [done|by apply all_woken_nil].
  - pose proof (z_sched_wake_cases w v d k Hk) as Hc. destruct (waitqs k w) as [|t r] eqn:Ew; [done|].
    destruct Hc as (k1 & -> & Hw & _).
    destruct (IH true k1) as (k' & E & Ha); [apply Hw| |].
    { pose proof (wo_wq _ _ _ _ _ Hw) as E. rewrite Ew in E. injection E as ->. simpl in Hn. lia. }
    exists k'. rewrite E. simpl. rewrite orb_true_r. split; [done|]. by eapply all_woken_cons.
Qed.

(** ** Code that does not switch *)

(** What code under a lock leaves of the context: the caller still runs, with
    the interrupt mask unchanged. *)
Record kin (k k' : kernel) : Prop := {
  ki_run : krun k';
  ki_cur : current k' = current k;
  ki_idle : idle_thread k' = idle_thread k;
  ki_irq : irq_locked k' = irq_locked k
}.

Lemma kin_refl k : krun k -> kin k k.
Proof. by split. Qed.

Lemma kin_trans a b c : kin a b -> kin b c -> kin a c.
Proof. intros [] []. split; [done|congruence..]. Qed.

Lemma woken_kin w t v k k' : krun k -> woken w t v k k' -> kin k k'.
Proof. intros Hk Hw. split; [by eapply woken_run|apply Hw..]. Qed.

Lemma all_woken_kin w v k k' : krun k -> all_woken w v k k' -> kin k k'.
Proof. intros Hk Hw. split; [by eapply all_woken_run|apply Hw..]. Qed.

Lemma kin_lock k : krun k -> krun (k <| irq_locked := true |>).
Proof. apply krun_irq. Qed.

Section Atomic.
Context {O : Type}.

(** The run ends without a switch, with [Q]. *)
Definition atomic {A} (k : kernel) (Q : A -> kernel * O -> Prop) (r : outcome (kernel * O) A) : Prop :=
  match r with
  | Done a s => kin k s.1 /\ Q a s
  | Swapped _ _ => False
  end.

Lemma atomic_bind {A B} k (Q : A -> kernel * O -> Prop) (Q' : B -> kernel * O -> Prop) r f :
  atomic k Q r -> (forall a k' o', kin k k' -> Q a (k', o') -> atomic k' Q' (f a (k', o'))) ->
  atomic k Q' (obind r f).
Proof.
  intros Hr Hf. destruct r as [a [k' o']|]; [|done]. destruct Hr as [Hk HQ]. simpl in *.
  specialize (Hf a k' o' Hk HQ). destruct (f a (k', o')); [|done]. destruct Hf. split; [by eapply kin_trans|done].
Qed.

Lemma atomic_mono {A} k (Q Q' : A -> kernel * O -> Prop) r :
  (forall a s, kin k s.1 -> Q a s -> Q' a s) -> atomic k Q r -> atomic k Q' r.
Proof. intros HQ. destruct r; [|done]. intros [? ?]. split; auto. Qed.

Lemma atomic_done {A} k (Q : A -> kernel * O -> Prop) a o : krun k -> Q a (k, o) -> atomic k Q (Done a (k, o)).
Proof. intros. split; [by apply kin_refl|done]. Qed.

Lemma atomic_assoc {A B C} k (Q : C -> kernel * O -> Prop) (r : outcome (kernel * O) A) (f : A -> M (kernel * O) B)
    (g : B -> M (kernel * O) C) :
  atomic k Q (obind r (fun a s => obind (f a s) g)) -> atomic k Q (obind (obind r f) g).
Proof. by destruct r. Qed.

(** Locked code that comes before code that may switch. *)
Lemma atomic_runs {A B} (J : kernel * O -> Prop) self k (Q : A -> kernel * O -> Prop)
    (Q' : B -> kernel * O -> Prop) r f :
  atomic k Q r -> (forall a k' o', kin k k' -> Q a (k', o') -> runs J self Q' (f a (k', o'))) ->
  runs J self Q' (obind r f).
Proof. intros Hr Hf. destruct r as [a [k' o']|]; [|done]. destruct Hr. by apply Hf. Qed.

(** A whole critical section. *)
Lemma atomic_section {A} (J : kernel * O -> Prop) k (Q : A -> kernel * O -> Prop) r :
  stable J -> atomic (k <| irq_locked := true |>) (fun a s => J s /\ Q a s) r ->
  (forall a k' o' b, Q a (k', o') -> Q a (k' <| irq_locked := b |>, o')) ->
  runs J (current k) (fun a s => returned J (current k) (irq_locked k) s /\ Q a s)
    (obind r (fun a s => obind (k_spin_unlock (negb (irq_locked k)) s) (fun _ s' => Done a s'))).
Proof.
  intros HJ Hr HQ. eapply atomic_runs; [exact Hr|]. intros a k' o' Hk [Hj Hq]. run_code. cbn [runs].
  pose proof (k_spin_unlock_returned J (negb (irq_locked k)) k' o' HJ (ki_run _ _ Hk) Hj) as Hret.
  rewrite negb_involutive in *. rewrite (ki_cur _ _ Hk) in Hret. split; [done|]. by apply HQ.
Qed.

End Atomic.

(** ** Knowledge that changes from switch to switch *)

(** Like [runs], where the thread chooses at every switch the fact [x] that
    the others keep until it runs again. *)
Fixpoint runs_in {X O A} (J : X -> kernel * O -> Prop) (self : tid)
    (Q : A -> kernel * O -> Prop) (r : outcome (kernel * O) A) : Prop :=
  match r with
  | Done a s => Q a s
  | Swapped s resume =>
      exists x, krun s.1 /\ J x s /\ current s.1 <> self
      /\ forall s', krun s'.1 -> J x s' -> current s'.1 = self -> runs_in J self Q (resume s')
  end.

Lemma runs_in_one {X O A} (J : X -> kernel * O -> Prop) x self (Q : A -> kernel * O -> Prop) r :
  runs (J x) self Q r -> runs_in J self Q r.
Proof.
  induction r as [a s|s resume IH]; simpl; [done|]. intros (H1 & H2 & H3 & H4). exists x. split_and!; auto.
Qed.

Lemma runs_in_mono {X O A} (J : X -> kernel * O -> Prop) self (Q Q' : A -> kernel * O -> Prop) r :
  (forall a s, Q a s -> Q' a s) -> runs_in J self Q r -> runs_in J self Q' r.
Proof.
  intros HQ. induction r as [a s|s resume IH]; simpl; [apply HQ|].
  intros (x & H1 & H2 & H3 & H4). exists x. split_and!; auto.
Qed.

Lemma runs_in_bind {X O A B} (J : X -> kernel * O -> Prop) self (Q : A -> kernel * O -> Prop)
    (Q' : B -> kernel * O -> Prop) r f :
  runs_in J self Q r -> (forall a s, Q a s -> runs_in J self Q' (f a s)) -> runs_in J self Q' (obind r f).
Proof.
  intros Hr Hf. induction r as [a s|s resume IH]; simpl in *; [by apply Hf|].
  destruct Hr as (x & H1 & H2 & H3 & H4). exists x. split_and!; auto.
Qed.

Lemma runs_in_assoc {X O A B C} (J : X -> kernel * O -> Prop) self (Q : C -> kernel * O -> Prop)
    (r : outcome (kernel * O) A) (f : A -> M (kernel * O) B) (g : B -> M (kernel * O) C) :
  runs_in J self Q (obind (obind r f) g) -> runs_in J self Q (obind r (fun a s => obind (f a s) g)).
Proof.
  induction r as [a s|s resume IH]; simpl; [done|]. intros (x & H1 & H2 & H3 & H4). exists x. split_and!; auto.
Qed.
