(* ===== verification/Demo.v ===== *)
(** A concrete kernel state on which the theorems about kernel objects are
    instantiated: thread 1 (priority 0) is running, thread 2 (priority -1)
    waits on wait queue 7 without a timeout, thread 3 is the idle thread, and
    every other thread record is dead. *)
From S2P Require Import Prelude Timeout Kernel Sched SchedInv.

Definition dead_thread : k_thread :=
  mk_thread 0 0 0 _THREAD_DEAD None 0 0 100 0 0 None false.
Definition running_thread : k_thread :=
  mk_thread 0 0 0 _THREAD_QUEUED None 0 0 101 0 0 None false.
Definition waiting_thread : k_thread :=
  mk_thread (-1) 0 0 _THREAD_PENDING (Some 7%positive) 0 0 102 0 0 None false.
Definition idle_record : k_thread :=
  mk_thread 15 0 0 0 None 0 0 103 0 0 None false.

Definition demo_threads (t : tid) : k_thread :=
  match t with
  | 1%positive => running_thread
  | 2%positive => waiting_thread
  | 3%positive => idle_record
  | _ => dead_thread
  end.

Definition demo_waitqs (w : wqid) : list tid :=
  match w with
  | 7%positive => [2%positive]
  | _ => []
  end.

Definition demo (isr : bool) : kernel :=
  mk_kernel demo_threads demo_waitqs [1%positive] 1 1 3 isr false
    (mk_tq [] 100 0 0 None) 10 0 false.

(** Case analysis on the three live threads. *)
Ltac demo_cases t :=
  destruct t as [[?|?|]|[?|?|]|].

Lemma demo_base isr : kbase (demo isr).
Proof.
  split.
  - apply NoDup_singleton.
  - repeat constructor.
  - intros t. simpl. rewrite list_elem_of_singleton. demo_cases t; by split.
  - intros w. simpl. unfold demo_waitqs. repeat case_match; try constructor;
      [by intros ?%elem_of_nil|constructor].
  - intros t w. simpl. unfold demo_waitqs. split.
    + repeat case_match; try (by intros ?%elem_of_nil). by intros ->%list_elem_of_singleton.
    + demo_cases t; simpl; try done. intros [= <-]. by left.
  - intros t. demo_cases t; simpl; try done; by split.
  - done.
  - done.
  - split; constructor.
  - done.
  - done.
  - intros t. by demo_cases t.
Qed.

Lemma demo_wf isr : kwf (demo isr).
Proof.
  split; [apply demo_base| | |by left].
  - split; intros t; demo_cases t; simpl; try done.
  - by split.
Qed.

Lemma demo_run : krun (demo false).
Proof. split; [apply demo_wf|done|done]. Qed.

(** A second state: thread 1 is running with priority [p1], thread 2 is ready
    with priority [p2]. *)
Definition pair_threads (p1 p2 : Z) (t : tid) : k_thread :=
  match t with
  | 1%positive => mk_thread p1 0 0 _THREAD_QUEUED None 0 0 101 0 0 None false
  | 2%positive => mk_thread p2 0 0 _THREAD_QUEUED None 0 0 102 0 0 None false
  | 3%positive => idle_record
  | _ => dead_thread
  end.

Definition pair (p1 p2 : Z) : kernel :=
  mk_kernel (pair_threads p1 p2) (fun _ => []) [1%positive; 2%positive] 1 1 3 false false
    (mk_tq [] 100 0 0 None) 10 0 false.

Lemma pair_run p1 p2 : p1 <= p2 -> krun (pair p1 p2).
Proof.
  intros Hp. split; [split|done|done].
  - split; try done.
    + by apply (bool_decide_unpack _).
    + repeat constructor. done.
    + intros t. simpl. rewrite !elem_of_cons, elem_of_nil. demo_cases t; split; simpl; try done; auto;
        intros [|[|]]; done.
    + intros w. apply NoDup_nil_2.
    + intros t w. simpl. rewrite elem_of_nil. demo_cases t; by split.
    + intros t. demo_cases t; simpl; by split.
    + split; constructor.
    + intros t. by demo_cases t.
  - split; intros t; demo_cases t; simpl; try done.
  - by split.
  - by left.
Qed.

(** A third state: thread 1 is running with priority 0, threads 2 and 3
    (priorities 3 and 5) wait on wait queue 7, thread 4 is the idle thread. *)
Definition two_threads (t : tid) : k_thread :=
  match t with
  | 1%positive => running_thread
  | 2%positive => mk_thread 3 0 0 _THREAD_PENDING (Some 7%positive) 0 0 102 0 0 None false
  | 3%positive => mk_thread 5 0 0 _THREAD_PENDING (Some 7%positive) 0 0 103 0 0 None false
  | 4%positive => idle_record
  | _ => dead_thread
  end.

Definition two_waitqs (w : wqid) : list tid :=
  match w with
  | 7%positive => [2%positive; 3%positive]
  | _ => []
  end.

Definition two_waiters : kernel :=
  mk_kernel two_threads two_waitqs [1%positive] 1 1 4 false false
    (mk_tq [] 100 0 0 None) 10 0 false.

Ltac two_cases t := destruct t as [[?|?|]|[?|[?|?|]|]|].

Lemma two_waiters_run : krun two_waiters.
Proof.
  split; [split|done|done].
  - split; try done.
    + apply NoDup_singleton.
    + repeat constructor.
    + intros t. simpl. rewrite list_elem_of_singleton. two_cases t; by split.
    + intros w. simpl. unfold two_waitqs. repeat case_match; by apply (bool_decide_unpack _).
    + intros t w. simpl. unfold two_waitqs. split.
      * repeat case_match; rewrite ?elem_of_cons, ?elem_of_nil; try done. by intros [->|[->|]].
      * two_cases t; simpl; try done; intros [= <-]; rewrite !elem_of_cons; auto.
    + intros t. two_cases t; simpl; try done; by split.
    + split; constructor.
    + intros t. by two_cases t.
  - split; intros t; two_cases t; simpl; try done.
  - by split.
  - by left.
Qed.
