(* ===== verification/Tick.v ===== *)
(** The timer interrupt: [sys_clock_announce] (kernel/timeout.c) running the
    timeout handlers of the scheduler, and the time slice check at its end.

    [Timeout.v] gives the announcement for any client; here the client is the
    kernel state, whose thread timeouts run [z_thread_timeout] and whose slice
    timeout runs [slice_timeout].  The theorem says that an announcement
    terminates, keeps the scheduler invariant, makes ready exactly the threads
    whose timeout is due, and leaves the others waiting with their expiry
    unchanged. *)
From S2P Require Import Prelude TimeUnits Timeout Kernel Sched SchedInv SchedApi Demo.

(** ** Expiry of a thread timeout *)

Lemma waking_prevented t k :
  kwaking t k -> z_is_thread_prevented_from_running (threads k t) = true -> kwf k.
Proof.
  intros [H1 H2 H3 H4 H5] Hp. destruct (core_prevented t k) as [A B C]; [by split|done|]. by split.
Qed.

(** [unpend_thread_no_timeout] if the thread is on a wait queue. *)
Lemma unpend_if_waking t k :
  kwaking t k -> z_is_thread_queued (threads k t) = false ->
  let k' := match pended_on (threads k t) with
            | Some _ => unpend_thread_no_timeout t k
            | None => k
            end in
  kwaking t k' /\ z_is_thread_queued (threads k' t) = false /\ kctx k k' /\ tmo k' = tmo k
  /\ cache k' = cache k /\ next_up k' = next_up k
  /\ (forall t', t' <> t -> threads k' t' = threads k t')
  /\ pended_on (threads k' t) = None
  /\ (forall n, 0 <= n -> n <> 1 ->
        Z.testbit (thread_state (threads k' t)) n = Z.testbit (thread_state (threads k t)) n).
Proof.
  intros Hw Hq. destruct (pended_on (threads k t)) as [w|] eqn:Hp; cbv zeta; [|by split_and!].
  assert (Hpr : z_is_thread_prevented_from_running (threads k t) = true).
  { assert (Hpe : z_is_thread_pending (threads k t) = true)
      by (apply (kb_pending _ (kw_base _ _ Hw)); congruence).
    flags. by rewrite Hpe. }
  pose proof (unpend_waking t k w (waking_prevented _ _ Hw Hpr) Hp) as Hw'.
  assert (Hbit : forall n, 0 <= n -> n <> 1 ->
    Z.testbit (thread_state (threads (unpend_thread_no_timeout t k) t)) n
    = Z.testbit (thread_state (threads k t)) n).
  { intros n Hn Hn1. rewrite (unpend_bit t k w) by done.
    replace (n =? 1) with false by lia. by rewrite andb_false_r, andb_true_r. }
  split_and!; try done.
  - by rewrite queued_bit, Hbit, <-queued_bit.
  - by rewrite (unpend_unfold t k w).
  - by rewrite (unpend_unfold t k w).
  - by rewrite (unpend_unfold t k w).
  - by rewrite (unpend_unfold t k w).
  - intros t' Hne. by rewrite (unpend_threads t k w), decide_False.
  - by rewrite (unpend_threads t k w), decide_True.
Qed.

(** The record after the handler: on no wait queue, started, not suspended. *)
Definition wake_flags (x : k_thread) : k_thread :=
  z_mark_thread_as_not_suspended (z_mark_thread_as_started x).

Lemma wake_flags_ready x :
  Z.testbit (thread_state x) 0 = false -> Z.testbit (thread_state x) 1 = false ->
  Z.testbit (thread_state x) 3 = false ->
  z_is_thread_prevented_from_running (wake_flags x) = false.
Proof.
  intros H0 H1 H3. unfold wake_flags. rewrite prevented_bits.
  unfold z_mark_thread_as_not_suspended, z_mark_thread_as_started, _THREAD_SUSPENDED, _THREAD_PRESTART.
  rewrite !testbit_clear_state by lia. rewrite H0, H1, H3. simpl. by rewrite !andb_false_r.
Qed.

Lemma nowake_same t k :
  no_wake_on_timeout (threads k t) = false ->
  same_sched k (upd_thread t (fun x => x <| no_wake_on_timeout := false |>) k).
Proof.
  intros Hn. split; auto using same_tmo_refl. intros t'. rewrite threads_upd_thread.
  case_decide; subst; by split.
Qed.

Lemma nowake_threads t k t' :
  no_wake_on_timeout (threads k t) = false ->
  threads (upd_thread t (fun x => x <| no_wake_on_timeout := false |>) k) t' = threads k t'.
Proof.
  intros Hn. rewrite threads_upd_thread. case_decide; subst; [|done].
  destruct (threads k t). simpl in Hn. by subst.
Qed.

(** What the handler of a thread timeout does. *)
Record expired (t : tid) (k k' : kernel) : Prop := {
  ex_wf : kwf k';
  ex_ctx : kctx k k';
  ex_tmo : same_tmo (tmo k) (tmo k');
  ex_other t' : t' <> t -> threads k' t' = threads k t';
  ex_ready : Z.testbit (thread_state (threads k t)) 3 = false ->
             Z.testbit (thread_state (threads k t)) 0 = false -> t ∈ runq k'
}.

Lemma thread_timeout_spec t k :
  kwaking t k -> z_is_thread_queued (threads k t) = false ->
  is_linked (TO_thread t) (tmo k) = false -> (t = current k -> cache k = next_up k) ->
  expired t k (z_thread_timeout t k).
Proof.
  intros Hw Hq Hl Hc. unfold z_thread_timeout, z_sched_wake_thread.
  destruct (kb_quiet _ (kw_base _ _ Hw) t) as [Hn H5]. rewrite Hn. cbn [andb].
  pose proof (nowake_same t k Hn) as Hs. pose proof (fun t' => nowake_threads t k t' Hn) as T0.
  set (k1 := upd_thread t (fun x => x <| no_wake_on_timeout := false |>) k) in *.
  assert (Hw1 : kwaking t k1) by (by eapply kwaking_same).
  unfold _THREAD_DEAD, _THREAD_ABORTING. rewrite !flag_set_BIT, H5, orb_false_r by done.
  destruct (Z.testbit (thread_state (threads k t)) 3) eqn:Hd; cbn [negb].
  { split; try done; [|apply Hs|congruence]. apply (waking_prevented t); [done|]. rewrite T0. by apply dead_prevented. }
  destruct (unpend_if_waking t k1 Hw1) as (W2 & Q2 & C2 & M2 & A2 & N2 & T2 & P2 & B2);
    [by rewrite T0|].
  set (k2 := match pended_on (threads k1 t) with
             | Some _ => unpend_thread_no_timeout t k1 | None => k1 end) in *.
  assert (Hcur : t = current k2 -> is_linked (TO_thread t) (tmo k2) = false /\ cache k2 = next_up k2).
  { rewrite M2, (cx_current _ _ C2), A2, N2. intros Ht. split; [done|]. by apply Hc. }
  assert (W3 : kwaking t (upd_thread t z_mark_thread_as_started k2)).
  { apply upd_waking; try done. apply started_soft; apply (kb_quiet _ (kw_base _ _ W2)). }
  set (k3 := upd_thread t z_mark_thread_as_started k2) in *.
  assert (T3 : threads k3 t = z_mark_thread_as_started (threads k2 t))
    by (unfold k3; by rewrite threads_upd_thread, decide_True).
  assert (Q3 : z_is_thread_queued (threads k3 t) = false).
  { rewrite T3. rewrite queued_bit in *. unfold z_mark_thread_as_started, _THREAD_PRESTART.
    rewrite testbit_clear_state, Q2 by lia. done. }
  assert (W4 : kwaking t (upd_thread t z_mark_thread_as_not_suspended k3)).
  { apply upd_waking; try done. apply not_suspended_soft; apply (kb_quiet _ (kw_base _ _ W3)). }
  set (k4 := upd_thread t z_mark_thread_as_not_suspended k3) in *.
  assert (T4 : threads k4 t = wake_flags (threads k2 t))
    by (unfold k4; by rewrite threads_upd_thread, decide_True, T3).
  pose proof (ready_thread_frame t k4) as F. split.
  - by apply ready_thread_wf.
  - eapply kctx_trans; [apply upd_ctx|]. eapply kctx_trans; [exact C2|]. clearbody k2. ctx_peel.
  - eapply same_tmo_trans; [|apply F; apply W4]. change (tmo k4) with (tmo k2). rewrite M2. apply Hs.
  - intros t' Hne. rewrite ready_thread_other by done. unfold k4, k3.
    by rewrite !threads_upd_thread, !decide_False, T2, T0.
  - intros _ H0. apply (kb_queued _ (kwf_base _ (ready_thread_wf _ _ W4))).
    apply ready_thread_queued; [done|]. apply ready_iff. rewrite T4. change (tmo k4) with (tmo k2).
    rewrite M2. split; [|done]. apply wake_flags_ready; rewrite ?B2, ?T0 by lia; try done.
    rewrite <-pending_bit. apply not_true_iff_false. rewrite <-(kb_pending _ (kw_base _ _ W2)). tauto.
Qed.

(** ** Removing the entry that expires *)

(** The queue handed to the handler of its first entry. *)
Definition popped (t : toid) (dt : Z) (q : tq) : tq :=
  remove_timeout t (q <| curr_tick ::= Z.add dt |>
                      <| timeout_list ::= fun l => (t, 0) :: tail l |>).

Lemma popped_abs t dt r q :
  timeout_list q = (t, dt) :: r ->
  absolute (curr_tick q) (timeout_list q)
  = (t, curr_tick q + dt) :: absolute (curr_tick (popped t dt q)) (timeout_list (popped t dt q)).
Proof.
  intros E. destruct q as [l c a h p]. simpl in *. subst l. simpl. rewrite decide_True by done.
  f_equal. rewrite (Z.add_comm dt c). destruct r as [|[t2 d2] r]; simpl; [done|].
  replace (c + dt + (d2 + 0)) with (c + dt + d2) by lia. done.
Qed.

Lemma popped_expiry t dt r q x :
  timeout_list q = (t, dt) :: r -> tq_wf q ->
  expiry x (popped t dt q) = if decide (x = t) then None else expiry x q.
Proof.
  intros E [Hnd _]. unfold expiry.
  rewrite <-(absolute_fst (curr_tick q)) in Hnd. rewrite (popped_abs t dt r q E) in *.
  set (l := absolute (curr_tick (popped t dt q)) (timeout_list (popped t dt q))) in *. clearbody l.
  csimpl in Hnd. apply NoDup_cons in Hnd as [Hni _]. simpl.
  destruct (decide (x = t)) as [->|Hne]; [|rewrite decide_False; [done|congruence]].
  destruct (assoc t l) eqn:Ea; [|done]. by apply assoc_Some_elem in Ea.
Qed.

Lemma popped_wf t dt r q :
  timeout_list q = (t, dt) :: r -> tq_wf q -> tq_wf (popped t dt q).
Proof.
  intros E [Hnd Hnn]. unfold tq_wf, popped. destruct q as [l c a h p]. cbn [timeout_list] in *. subst l.
  apply (remove_entry_wf t ((t, 0) :: r)). split; [done|]. inversion Hnn. by constructor.
Qed.

Lemma linked_expiry x q : is_linked x q = false <-> expiry x q = None.
Proof.
  rewrite <-not_true_iff_false, expiry_linked, eq_None_not_Some. done.
Qed.

Lemma popped_linked t dt r q x :
  timeout_list q = (t, dt) :: r -> tq_wf q ->
  is_linked x (popped t dt q) = is_linked x q && bool_decide (x <> t).
Proof.
  intros E Hw. apply eq_true_iff_eq. rewrite andb_true_iff, bool_decide_eq_true, !expiry_linked.
  rewrite (popped_expiry t dt r q x E Hw). case_decide; [|by split; [|intros []]].
  split; [by intros [? ?]|tauto].
Qed.

Lemma assoc_elem x l e : assoc x l = Some e -> (x, e) ∈ l.
Proof.
  induction l as [|[t' e'] r IH]; simpl; [done|]. rewrite elem_of_cons.
  case_decide; intros Ha; [left|right; auto]. by simplify_eq.
Qed.

(** The first entry is the earliest. *)
Lemma first_earliest t dt r q x e :
  timeout_list q = (t, dt) :: r -> tq_wf q -> expiry x q = Some e -> curr_tick q + dt <= e.
Proof.
  intros E Hw He. destruct (decide (x = t)) as [->|Hne].
  - unfold expiry in He. rewrite E in He. simpl in He. rewrite decide_True in He by done. by simplify_eq.
  - pose proof (popped_wf t dt r q E Hw) as [_ Hnn].
    rewrite <-(decide_False (P := x = t) None (expiry x q)) in He by done.
    rewrite <-(popped_expiry t dt r q x E Hw) in He.
    apply assoc_elem in He. pose proof (absolute_ge _ _ _ Hnn He) as Hge.
    unfold popped in Hge. simpl in Hge. lia.
Qed.

(** Fewer thread timeouts: the threads that lose theirs may become ready. *)
Lemma tmo_core (X : tid -> Prop) f k :
  kwf k -> tq_wf (f (tmo k)) -> 0 <= elapsed (f (tmo k)) ->
  (forall y, ~ X y -> is_linked (TO_thread y) (f (tmo k)) = is_linked (TO_thread y) (tmo k)) ->
  (forall y, is_linked (TO_thread y) (tmo k) = false -> is_linked (TO_thread y) (f (tmo k)) = false) ->
  kcore X (k <| tmo ::= f |>) /\ cache_ok (k <| tmo ::= f |>).
Proof.
  intros [[H1 H2 H3 H4 H5 H6 H7 H8 H9 H10 H11 H12] [R1 R2] [U1 U2] Hc] Hw He HX Hl.
  split; [split; [by split; auto| |by split; auto]|done].
  split; intros y.
  - intros [[Hp Hn]%ready_iff Hi]%R1. split; [|done]. apply ready_iff. split; [done|]. by apply Hl.
  - intros Hy [Hp Hn]%ready_iff Hi. apply R2; [by intros []| |done].
    apply ready_iff. split; [done|]. by rewrite <-HX.
Qed.

(** ** The end of an announcement *)

Lemma finish_abs q :
  absolute (curr_tick (announce_finish q)) (timeout_list (announce_finish q))
  = absolute (curr_tick q) (timeout_list q).
Proof.
  destruct q as [l c a h p]. simpl. destruct l as [|[t d] r]; simpl; [done|].
  replace (a + c + (d - a)) with (c + d) by lia. done.
Qed.

Lemma finish_expiry u q : expiry u (announce_finish q) = expiry u q.
Proof. unfold expiry. by rewrite finish_abs. Qed.

Lemma finish_linked u q : is_linked u (announce_finish q) = is_linked u q.
Proof. apply eq_true_iff_eq. by rewrite !expiry_linked, finish_expiry. Qed.

Lemma finish_wf q :
  (forall u e, expiry u q = Some e -> curr_tick q + announce_remaining q < e) ->
  tq_wf q -> tq_wf (announce_finish q).
Proof.
  intros Hd [Hnd Hnn]. split.
  - rewrite <-(absolute_fst (curr_tick (announce_finish q))), finish_abs. by rewrite absolute_fst.
  - destruct q as [l c a h p]. simpl in *. destruct l as [|[t d] r]; simpl; [done|].
    inversion Hnn; subst. constructor; [|done]. simpl in *.
    specialize (Hd t (c + d)). unfold expiry in Hd. simpl in Hd. rewrite decide_True in Hd by done.
    specialize (Hd eq_refl). lia.
Qed.

(** [z_time_slice] only moves the current thread behind its peers. *)
Record sliced (k k' : kernel) : Prop := {
  sl_wf : kwf k';
  sl_ctx : kctx k k';
  sl_tmo : same_tmo (tmo k) (tmo k');
  sl_queued t : z_is_thread_queued (threads k' t) = z_is_thread_queued (threads k t);
  sl_pended t : pended_on (threads k' t) = pended_on (threads k t)
}.

Lemma z_reset_time_slice_sliced t k k' : sliced k k' -> sliced k (z_reset_time_slice t k').
Proof.
  intros [H1 H2 H3 H4 H5]. pose proof (kwf_base _ H1) as Hb.
  pose proof (z_reset_time_slice_same t k' (kb_tmo _ Hb) (kb_elapsed _ Hb) (kb_slice _ Hb)) as Hs.
  split.
  - by apply (kwf_same _ _ Hs); [apply z_reset_time_slice_cache|].
  - destruct H2 as [A1 A2 A3 A4]. split; unfold z_reset_time_slice; by case_match.
  - eapply same_tmo_trans; [exact H3|apply Hs].
  - intros u. by rewrite (ss_queued _ _ Hs).
  - intros u. by rewrite (sth_pended _ _ (ss_threads _ _ Hs u)).
Qed.

Lemma z_time_slice_sliced k : kwf k -> sliced k (z_time_slice k).
Proof.
  intros Hk. unfold z_time_slice. destruct (slice_expired k && _) eqn:E;
    [|split; auto using same_tmo_refl; done].
  apply andb_true_iff in E as [_ Hs]. unfold sliceable in Hs. rewrite !andb_true_iff in Hs.
  destruct Hs as [[_ Hp] Hi]. rewrite Hp. apply negb_true_iff in Hp.
  assert (Hni : current k <> idle_thread k).
  { unfold z_is_idle_thread_object in Hi. apply negb_true_iff, bool_decide_eq_false in Hi. done. }
  assert (Hr : z_is_thread_ready (current k) k = true).
  { apply ready_iff. split; [done|]. by apply (kc_tmo _ (kwf_cur _ Hk)). }
  apply z_reset_time_slice_sliced. unfold move_thread_to_end_of_prio_q.
  fold (dequeued (current k) k). set (k2 := queue_thread (current k) (dequeued (current k) k)).
  pose proof (move_to_end_core _ _ (kwf_core _ Hk) Hr Hni) as Hc. fold k2 in Hc.
  assert (F : kframe k (update_cache (bool_decide (current k = current k2)) k2)).
  { eapply kframe_trans; [|apply update_cache_frame].
    eapply kframe_trans; [apply dequeued_frame|apply queue_thread_frame]. }
  split.
  - by apply core_cache.
  - by apply frame_ctx.
  - apply (kf_tmo _ _ F); apply Hk.
  - intros t. rewrite update_cache_threads. unfold k2. rewrite queue_queued.
    destruct (decide (t = current k)) as [->|Ht].
    { rewrite bool_decide_eq_true_2 by done. symmetry. by apply ready_queued. }
    rewrite bool_decide_eq_false_2 by done. unfold dequeued. case_match; [|done]. rewrite dequeue_queued, bool_decide_eq_true_2 by done.
    apply andb_true_r.
  - intros t. apply (kf_pended _ _ F).
Qed.

Lemma filter_mono {A} (P Q : A -> Prop) `{forall x, Decision (P x), forall x, Decision (Q x)} l :
  (forall x, P x -> Q x) -> (length (filter P l) <= length (filter Q l))%nat.
Proof.
  intros HPQ. induction l as [|a l IH]; [done|]. rewrite !filter_cons.
  repeat case_decide; simpl; try lia. exfalso. auto.
Qed.

Lemma filter_strict {A} (P Q : A -> Prop) `{forall x, Decision (P x), forall x, Decision (Q x)} l a :
  (forall x, P x -> Q x) -> a ∈ l -> Q a -> ~ P a ->
  (length (filter P l) < length (filter Q l))%nat.
Proof.
  intros HPQ Ha Hq Hp. induction l as [|b l IH]; [by apply elem_of_nil in Ha|].
  rewrite !filter_cons. pose proof (filter_mono P Q l HPQ).
  apply elem_of_cons in Ha as [->|Ha].
  - rewrite decide_False, decide_True by done. simpl. lia.
  - specialize (IH Ha). repeat case_decide; simpl; try lia. exfalso. auto.
Qed.

(** ** Announcing ticks to the kernel *)

Section Tick.
(** The handler of a [k_timer]. *)
Context (timer_fn : positive -> kernel -> kernel).

#[local] Instance kernel_timeouts : TimeoutClient kernel := {|
  get_tq := tmo;
  upd_tq f k := k <| tmo ::= f |>;
  timeout_fn to :=
    match to with
    | TO_thread t => z_thread_timeout t
    | TO_slice => slice_timeout
    | TO_timer n => timer_fn n
    end
|}.

Definition sys_clock_announce (fuel : nat) (ticks : Z) (k : kernel) : option kernel :=
  match sys_clock_announce_timeouts fuel ticks k with
  | Some k' => Some (z_time_slice k')
  | None => None
  end.

(** The loop invariant: ticks up to [T] are being announced, no [k_timer] is
    pending, and every pending timeout is in [U]. *)
Record announcing (U : list toid) (T : Z) (k : kernel) : Prop := {
  an_wf : kwf k;
  an_hw : 0 <= sys_clock_elapsed (tmo k);
  an_rem : 0 <= announce_remaining (tmo k);
  an_end : curr_tick (tmo k) + announce_remaining (tmo k) = T;
  an_timers n : is_linked (TO_timer n) (tmo k) = false;
  an_univ x : is_linked x (tmo k) = true -> x ∈ U
}.

(** A thread that [z_thread_timeout] can wake. *)
Definition alive (x : k_thread) : Prop :=
  Z.testbit (thread_state x) 3 = false /\ Z.testbit (thread_state x) 0 = false.

(** What announcing the ticks up to [T] does to thread [t]. *)
Definition announced (T : Z) (t : tid) (k k' : kernel) : Prop :=
  match expiry (TO_thread t) (tmo k) with
  | Some e =>
      if e <=? T then
        is_linked (TO_thread t) (tmo k') = false
        /\ (alive (threads k t) -> z_is_thread_queued (threads k' t) = true)
      else expiry (TO_thread t) (tmo k') = Some e /\ threads k' t = threads k t
  | None => is_linked (TO_thread t) (tmo k') = false /\ threads k' t = threads k t
  end.

(** The pending timeouts that expire now; the loop handles them before any
    later one. *)
Definition due_now (U : list toid) (q : tq) : nat :=
  length (filter (fun u => expiry u q = Some (curr_tick q)) U).

(** One round of the loop. *)
Definition round (x : toid) (dt : Z) (k : kernel) : kernel :=
  (timeout_fn x (k <| tmo ::= popped x dt |>))
    <| tmo ::= fun q => q <| announce_remaining ::= fun r => r - dt |> |>.

Lemma announce_loop_round fuel x dt r k :
  timeout_list (tmo k) = (x, dt) :: r -> dt <= announce_remaining (tmo k) ->
  announce_loop (S fuel) k = announce_loop fuel (round x dt k).
Proof.
  intros E Hd. cbn [announce_loop]. unfold first. cbn [get_tq kernel_timeouts]. rewrite E. cbn [head].
  replace (dt <=? announce_remaining (tmo k)) with true by lia. done.
Qed.

(** The handler, as the loop sees it. *)
Record handled (x : toid) (dt : Z) (k k2 : kernel) : Prop := {
  ha_wf : kwf k2;
  ha_tmo : same_tmo (popped x dt (tmo k)) (tmo k2);
  ha_other t : x <> TO_thread t -> threads k2 t = threads k t;
  ha_fired t : x = TO_thread t -> alive (threads k t) -> z_is_thread_queued (threads k2 t) = true
}.

Lemma handler_spec U T x dt r k :
  announcing U T k -> timeout_list (tmo k) = (x, dt) :: r ->
  handled x dt k (timeout_fn x (k <| tmo ::= popped x dt |>)).
Proof.
  intros [Hk Hhw Hrem Hend Htm HU] E. pose proof (kb_tmo _ (kwf_base _ Hk)) as Hq.
  assert (Hl : is_linked x (tmo k) = true).
  { unfold is_linked. rewrite E. csimpl. apply bool_decide_eq_true. by left. }
  destruct (tmo_core (fun y => x = TO_thread y) (popped x dt) k Hk) as [[C1 C2 C3] C4].
  { by eapply popped_wf. }
  { apply (kb_elapsed _ (kwf_base _ Hk)). }
  { intros y Hy. rewrite (popped_linked x dt r) by done.
    rewrite bool_decide_eq_true_2 by congruence. apply andb_true_r. }
  { intros y Hy. rewrite (popped_linked x dt r) by done. by rewrite Hy. }
  set (k1 := k <| tmo ::= popped x dt |>) in *. destruct x as [t| |n]; cbn [timeout_fn kernel_timeouts].
  - destruct (thread_timeout_spec t k1) as [E1 E2 E3 E4 E5].
    + split; try done; [eapply kready_weaken; [|exact C2]; simpl; congruence|].
      intros Ht. change (idle_thread k1) with (idle_thread k) in Ht.
      by rewrite Ht, (kb_idle_tmo _ (kwf_base _ Hk)) in Hl.
    + exact (linked_not_queued t k (kwf_ready _ Hk) Hl).
    + change (tmo k1) with (popped (TO_thread t) dt (tmo k)). rewrite (popped_linked _ dt r) by done.
      by rewrite (bool_decide_eq_false_2 (_ <> _)), andb_false_r by tauto.
    + intros Ht. destruct (kwf_cache _ Hk) as [Hc|(_ & Hp & _)]; [done|].
      change (current k1) with (current k) in Ht. by rewrite Ht, (kc_tmo _ (kwf_cur _ Hk) Hp) in Hl.
    + split; try done.
      * intros t' Hne. rewrite E4 by congruence. done.
      * intros t' [= <-] [A1 A2]. apply (kb_queued _ (kwf_base _ E1)). by apply E5.
  - assert (Hk1 : kwf k1).
    { split; try done. eapply kready_weaken; [|exact C2]. done. }
    assert (Hs : same_sched k1 (slice_timeout k1))
      by (split; auto using same_thread_refl, same_tmo_refl).
    split; try done; [by apply (kwf_same _ _ Hs)|apply same_tmo_refl].
  - by rewrite Htm in Hl.
Qed.

(** A round keeps the invariant, and what was due at the new tick was due
    before. *)
Lemma round_spec U T x dt r k :
  announcing U T k -> TO_slice ∈ U -> timeout_list (tmo k) = (x, dt) :: r ->
  dt <= announce_remaining (tmo k) ->
  let k' := round x dt k in
  announcing U T k'
  /\ announce_remaining (tmo k') = announce_remaining (tmo k) - dt
  /\ (forall u, expiry u (tmo k') = Some (curr_tick (tmo k')) ->
        expiry u (tmo k) = Some (curr_tick (tmo k) + dt) /\ u <> x)
  /\ (forall t, x <> TO_thread t ->
        expiry (TO_thread t) (tmo k') = expiry (TO_thread t) (tmo k) /\ threads k' t = threads k t)
  /\ (forall t, x = TO_thread t ->
        expiry (TO_thread t) (tmo k') = None
        /\ (alive (threads k t) -> z_is_thread_queued (threads k' t) = true)).
Proof.
  intros Han HU E Hd k'. destruct (handler_spec U T x dt r k Han E) as [A1 A2 A3 A4].
  destruct Han as [Hk Hhw Hrem Hend Htm Hun]. pose proof (kb_tmo _ (kwf_base _ Hk)) as Hq.
  unfold k', round. set (k2 := timeout_fn x (k <| tmo ::= popped x dt |>)) in *. clearbody k2. clear k'.
  set (g := fun q : tq => q <| announce_remaining ::= fun r => r - dt |>).
  assert (X : forall u, u <> TO_slice -> expiry u (g (tmo k2)) = if decide (u = x) then None else expiry u (tmo k)).
  { intros u Hu. change (expiry u (g (tmo k2))) with (expiry u (tmo k2)).
    rewrite (st_expiry _ _ A2) by done. by apply (popped_expiry x dt r). }
  assert (Hct : curr_tick (tmo k2) = curr_tick (tmo k) + dt)
    by (rewrite (st_tick _ _ A2); simpl; lia).
  assert (Hre : announce_remaining (tmo k2) = announce_remaining (tmo k)) by apply (st_remaining _ _ A2).
  assert (Hlk : forall u, is_linked u (tmo k2) = true -> u = TO_slice \/ is_linked u (tmo k) = true).
  { intros u [e He]%expiry_linked. destruct (decide (u = TO_slice)) as [|Hu]; [by left|right].
    change (expiry u (tmo k2)) with (expiry u (g (tmo k2))) in He. rewrite X in He by done.
    case_decide; [done|]. apply expiry_linked. eauto. }
  split_and!.
  - destruct (tmo_core none g k2 A1) as [[C1 C2 C3] C4]; try done.
    { apply A1. }
    { unfold elapsed, g. simpl. rewrite (st_hw _ _ A2). by case_match. }
    split; try done.
    + simpl. by rewrite (st_hw _ _ A2).
    + simpl. lia.
    + simpl. lia.
    + intros n. apply not_true_iff_false. intros [|Hl]%Hlk; [done|]. by rewrite Htm in Hl.
    + intros u [->|Hl]%Hlk; auto.
  - simpl. lia.
  - intros u. change (curr_tick (tmo (k2 <| tmo ::= g |>))) with (curr_tick (tmo k2)). rewrite Hct.
    intros He. destruct (decide (u = TO_slice)) as [->|Hu].
    + destruct (st_slice _ _ A2 _ He) as [Hp|Hlt].
      * rewrite (popped_expiry x dt r) in Hp by done. by case_decide.
      * simpl in Hlt. lia.
    + change (expiry u (g (tmo k2)) = Some (curr_tick (tmo k) + dt)) in He. rewrite X in He by done. by case_decide.
  - intros t Hne. split; [|by apply A3].
    change (expiry (TO_thread t) (g (tmo k2)) = expiry (TO_thread t) (tmo k)).
    rewrite X by done. rewrite decide_False; congruence.
  - intros t ->. split; [|by apply A4].
    change (expiry (TO_thread t) (g (tmo k2)) = None). rewrite X by done. by rewrite decide_True.
Qed.

Lemma due_now_bound U q : (due_now U q <= length U)%nat.
Proof. apply length_filter. Qed.

(** Rounds bound: every tick handles each pending timeout at most once. *)
Definition rounds (U : list toid) (q : tq) : Z :=
  announce_remaining q * (Z.of_nat (length U) + 1) + Z.of_nat (due_now U q).

Lemma rounds_decrease U T x dt r k :
  announcing U T k -> TO_slice ∈ U -> timeout_list (tmo k) = (x, dt) :: r ->
  dt <= announce_remaining (tmo k) -> rounds U (tmo (round x dt k)) < rounds U (tmo k).
Proof.
  intros Han HU E Hd. destruct (round_spec U T x dt r k Han HU E Hd) as (_ & Hr & Hdue & _).
  unfold rounds. rewrite Hr. set (q' := tmo (round x dt k)) in *. clearbody q'.
  pose proof (due_now_bound U q'). assert (0 <= dt).
  { destruct (kb_tmo _ (kwf_base _ (an_wf _ _ _ Han))) as [_ Hnn]. rewrite E in Hnn. by inversion Hnn. }
  destruct (decide (dt = 0)) as [->|]; [|nia].
  assert (due_now U q' < due_now U (tmo k))%nat; [|lia].
  apply (filter_strict _ _ U x).
  - intros u [Hu _]%Hdue. by rewrite Z.add_0_r in Hu.
  - apply (an_univ _ _ _ Han). unfold is_linked. rewrite E. csimpl. apply bool_decide_eq_true. by left.
  - unfold expiry. rewrite E. simpl. rewrite decide_True by done. f_equal. lia.
  - intros Hu%Hdue. tauto.
Qed.

Lemma announced_trans T t x dt r U k k' :
  announcing U T k -> TO_slice ∈ U -> timeout_list (tmo k) = (x, dt) :: r ->
  dt <= announce_remaining (tmo k) ->
  announced T t (round x dt k) k' -> announced T t k k'.
Proof.
  intros Han HU E Hd. destruct (round_spec U T x dt r k Han HU E Hd) as (_ & _ & _ & Ho & Hf).
  unfold announced. destruct (decide (x = TO_thread t)) as [->|Hne].
  - destruct (Hf t eq_refl) as [-> Hq]. intros [Hl Ht].
    assert (He : expiry (TO_thread t) (tmo k) = Some (curr_tick (tmo k) + dt)).
    { unfold expiry. rewrite E. simpl. by rewrite decide_True. }
    rewrite He. pose proof (an_end _ _ _ Han). replace (_ <=? T) with true by lia.
    rewrite Ht. auto.
  - destruct (Ho t Hne) as [-> ->]. done.
Qed.

Lemma announce_loop_spec U T fuel k :
  announcing U T k -> TO_slice ∈ U -> rounds U (tmo k) < Z.of_nat fuel ->
  exists k', announce_loop fuel k = Some k' /\ announcing U T k'
    /\ (forall u e, expiry u (tmo k') = Some e -> T < e)
    /\ forall t, announced T t k k'.
Proof.
  intros Han HU. revert k Han. induction fuel as [|fuel IH]; intros k Han Hf.
  { exfalso. unfold rounds in Hf. pose proof (an_rem _ _ _ Han). nia. }
  assert (Hstop : (forall u e, expiry u (tmo k) = Some e -> T < e) ->
    announcing U T k /\ (forall u e, expiry u (tmo k) = Some e -> T < e) /\ forall t, announced T t k k).
  { intros He. split_and!; try done. intros t. unfold announced.
    destruct (expiry (TO_thread t) (tmo k)) as [e|] eqn:Ee; [|by split; [apply linked_expiry|]].
    apply He in Ee. replace (e <=? T) with false by lia. done. }
  destruct (timeout_list (tmo k)) as [|[x dt] r] eqn:E.
  { exists k. split; [cbn [announce_loop]; unfold first; cbn [get_tq kernel_timeouts]; by rewrite E|].
    apply Hstop. intros u e. unfold expiry. by rewrite E. }
  destruct (decide (dt <= announce_remaining (tmo k))) as [Hd|Hd].
  - rewrite (announce_loop_round fuel x dt r) by done.
    destruct (round_spec U T x dt r k Han HU E Hd) as (Han' & _).
    pose proof (rounds_decrease U T x dt r k Han HU E Hd).
    destruct (IH (round x dt k) Han') as (k' & -> & H1 & H2 & H3); [lia|].
    exists k'. split_and!; try done. intros t. by eapply announced_trans.
  - exists k. split.
    { cbn [announce_loop]. unfold first. cbn [get_tq kernel_timeouts]. rewrite E. cbn [head].
      replace (dt <=? announce_remaining (tmo k)) with false by lia. done. }
    apply Hstop. intros u e He.
    pose proof (first_earliest x dt r _ u e E (kb_tmo _ (kwf_base _ (an_wf _ _ _ Han))) He).
    pose proof (an_end _ _ _ Han). lia.
Qed.

(** An announcement, from the idle state of the queue. *)
Lemma announce_spec fuel ticks k :
  kwf k -> announce_remaining (tmo k) = 0 -> 0 <= sys_clock_elapsed (tmo k) ->
  (forall n, is_linked (TO_timer n) (tmo k) = false) -> 0 <= ticks ->
  (ticks + 1) * (Z.of_nat (length (timeout_list (tmo k))) + 2) <= Z.of_nat fuel ->
  exists k1, sys_clock_announce_timeouts fuel ticks k = Some k1
    /\ kwf k1 /\ curr_tick (tmo k1) = curr_tick (tmo k) + ticks
    /\ announce_remaining (tmo k1) = 0
    /\ forall t, announced (curr_tick (tmo k) + ticks) t k k1.
Proof.
  intros Hk Hr Hhw Htm Ht Hf. unfold sys_clock_announce_timeouts.
  set (g := fun q : tq => q <| announce_remaining := ticks |>).
  set (U := TO_slice :: (timeout_list (tmo k)).*1). set (T := curr_tick (tmo k) + ticks).
  assert (Ha : announcing U T (k <| tmo ::= g |>)).
  { destruct (tmo_core none g k Hk) as [[C1 C2 C3] C4]; try done.
    { apply Hk. }
    { unfold elapsed, g. simpl. by case_match. }
    split; try done. intros x Hx. right. by apply bool_decide_eq_true in Hx. }
  destruct (announce_loop_spec U T fuel _ Ha) as (k1 & E1 & A1 & L1 & D1).
  { by left. }
  { unfold rounds. pose proof (due_now_bound U (tmo (k <| tmo ::= g |>))).
    change (announce_remaining (tmo (k <| tmo ::= g |>))) with ticks.
    assert (length U = S (length (timeout_list (tmo k)))) by (unfold U; simpl; by rewrite length_fmap).
    nia. }
  change (upd_tq g k) with (k <| tmo ::= g |>). rewrite E1. eexists. split; [done|].
  destruct A1 as [W1 H1 R1 N1 M1 U1].
  destruct (tmo_core none announce_finish k1 W1) as [[C1 C2 C3] C4].
  { apply finish_wf; [|apply W1]. intros u e He%L1. lia. }
  { unfold elapsed, announce_finish. simpl. done. }
  { intros y _. apply finish_linked. }
  { intros y. by rewrite finish_linked. }
  split_and!; [done|simpl; lia|done|].
  intros t. specialize (D1 t). unfold announced in *.
  change (expiry (TO_thread t) (tmo (k <| tmo ::= g |>))) with (expiry (TO_thread t) (tmo k)) in D1.
  change (tmo (upd_tq announce_finish k1)) with (announce_finish (tmo k1)).
  by rewrite finish_linked, finish_expiry.
Qed.

End Tick.

