(* ===== verification/SchedThm.v ===== *)
(** The contract of the scheduler (kernel/sched.c), from the invariant.

    A context switch enters the ready thread of highest priority; a thread
    API call keeps the invariant and comes back to its caller; yielding is
    round robin among threads of one priority; ending a thread releases
    everything that waits for it.  Two theorems record where
    [k_thread_priority_set] departs from its documentation. *)
From S2P Require Import Prelude TimeUnits Timeout Kernel Sched SchedInv SchedApi Demo.

(** ** The thread API as a whole *)

Inductive thread_op :=
| OP_YIELD
| OP_SLEEP (ticks : Z)
| OP_WAKEUP (t : tid)
| OP_SUSPEND (t : tid)
| OP_RESUME (t : tid)
| OP_START (t : tid)
| OP_PRIORITY_SET (t : tid) (p : Z)
| OP_SCHED_LOCK
| OP_SCHED_UNLOCK
| OP_ABORT (t : tid)
| OP_JOIN (t : tid) (timeout : Z).

Definition run_thread_op {O} (op : thread_op) : M (kernel * O) unit :=
  match op with
  | OP_YIELD => z_impl_k_yield
  | OP_SLEEP ticks => _ <- z_tick_sleep ticks ;; ret tt
  | OP_WAKEUP t => z_impl_k_wakeup t
  | OP_SUSPEND t => z_impl_k_thread_suspend t
  | OP_RESUME t => z_impl_k_thread_resume t
  | OP_START t => z_sched_start t
  | OP_PRIORITY_SET t p => z_impl_k_thread_priority_set t p
  | OP_SCHED_LOCK => k_sched_lock
  | OP_SCHED_UNLOCK => k_sched_unlock
  | OP_ABORT t => _ <- z_thread_abort t ;; ret tt
  | OP_JOIN t timeout => _ <- z_impl_k_thread_join t timeout ;; ret tt
  end.

(** The conditions the functions assert. *)
Definition op_allowed (op : thread_op) (k : kernel) : Prop :=
  match op with
  | OP_YIELD | OP_SLEEP _ | OP_JOIN _ _ => current k <> idle_thread k
  | OP_SUSPEND t => t <> idle_thread k /\ irq_locked k = false
  | OP_PRIORITY_SET t _ | OP_ABORT t => t <> idle_thread k
  | OP_SCHED_LOCK =>
      let c := threads k (current k) in
      -128 <= prio c < 128 /\ 0 <= sched_locked c < 256 /\ sched_locked c <> 1
  | OP_WAKEUP _ | OP_RESUME _ | OP_START _ | OP_SCHED_UNLOCK => True
  end.

(** C1: every call of the thread API made by a running thread gives up the
    CPU only in states where the scheduler invariant holds and another thread
    has been switched to, and, whenever the caller is switched to again in
    such a state, returns to it with the invariant intact and the interrupt
    mask it had at the call. *)
Theorem thread_api_safe {O} op k (o : O) :
  krun k -> op_allowed op k ->
  runs (fun _ => True) (current k)
    (fun _ s => krun s.1 /\ current s.1 = current k /\ irq_locked s.1 = irq_locked k)
    (run_thread_op op (k, o)).
Proof.
  intros Hk Hop. apply (runs_mono anything _ (fun _ => returned anything (current k) (irq_locked k)));
    [by intros [] s (H1 & _ & H3 & H4)|].
  change (safe (current k) (irq_locked k) (run_thread_op op (k, o))). destruct op; simpl in Hop.
  - by apply yield_safe.
  - by apply safe_ret, tick_sleep_safe.
  - by apply wakeup_safe.
  - destruct Hop as [Hi Hirq]. rewrite Hirq. by apply suspend_safe.
  - by apply resume_safe.
  - by apply start_safe.
  - by apply priority_set_safe.
  - destruct Hop as (H1 & H2 & H3). by apply sched_lock_safe.
  - by apply sched_unlock_safe.
  - by apply safe_ret, thread_abort_safe.
  - by apply safe_ret, join_safe.
Qed.

Lemma thread_api_safe_witness :
  op_allowed (OP_SLEEP 5) (demo false)
  /\ runs (fun _ => True) 1%positive
       (fun _ s => krun s.1 /\ current s.1 = 1%positive /\ irq_locked s.1 = false)
       (run_thread_op (OP_SLEEP 5) (demo false, tt)).
Proof.
  split; [discriminate|].
  apply (thread_api_safe (OP_SLEEP 5) (demo false) tt); [exact demo_run|discriminate].
Defined.

(** ** Who runs next *)

Lemma next_up_best k t :
  kbase k -> kready none k -> z_is_thread_ready t k = true -> t <> idle_thread k ->
  next_up k <> idle_thread k /\ prio (threads k (next_up k)) <= prio (threads k t).
Proof.
  intros Hb Hr Ht Hi.
  assert (Hin : t ∈ runq k).
  { apply (kb_queued _ Hb), (kr_queued _ _ Hr); [by intros []|done|done]. }
  pose proof (kb_sorted _ Hb) as Hs. pose proof (fun x => proj1 (kb_queued _ Hb x)) as Hq.
  unfold next_up, runq_best, z_priq_dumb_best. destruct (runq k) as [|h r]; [by apply elem_of_nil in Hin|].
  simpl. split; [apply (kr_ready _ _ Hr), Hq; by left|].
  apply StronglySorted_inv in Hs as [_ Hall].
  apply elem_of_cons in Hin as [->|Hin]; [lia|]. rewrite Forall_forall in Hall. by apply Hall.
Qed.

(** C23: when a running thread gives up the CPU, the thread that is switched
    to is ready, and no other ready thread has a higher priority; the idle
    thread is entered only if nothing else is ready. *)
Theorem z_swap_highest_priority {O} key k (o : O) s resume :
  kswap k -> z_swap key (k, o) = Swapped s resume ->
  z_is_thread_ready (current s.1) s.1 = true
  /\ forall t, z_is_thread_ready t s.1 = true -> t <> idle_thread s.1 ->
       current s.1 <> idle_thread s.1
       /\ prio (threads s.1 (current s.1)) <= prio (threads s.1 t).
Proof.
  intros Hk E. unfold z_swap in E. cbn [fst snd] in E. cbv zeta in E.
  change (z_swap_next_thread _) with (cache k) in E. case_decide as Hd; [|done].
  destruct (ks_cache _ Hk) as [Hc|(Hc & _)]; [|by rewrite Hc in Hd].
  pose proof (swap_retval_same (current k) (- EAGAIN) k) as Hs1.
  set (k1 := upd_thread (current k) _ k) in *. injection E as <- _. cbn [fst].
  set (k2 := k1 <| current := cache k |>).
  assert (Hb : kbase k2) by (by apply kbase_current, (kbase_same k); [|apply Hk]).
  assert (Hr : kready none k2) by (by apply kready_current, (kready_same k); [|apply Hk]).
  pose proof (z_reset_time_slice_same (cache k) k2 (kb_tmo _ Hb) (kb_elapsed _ Hb) (kb_slice _ Hb)) as Hs2.
  set (k3 := z_reset_time_slice (cache k) k2) in *. clearbody k3.
  assert (E3 : current k3 = next_up k3).
  { rewrite (ss_current _ _ Hs2), (ss_next_up _ _ Hs2). simpl. rewrite Hc.
    by rewrite <-(ss_next_up _ _ Hs1). }
  assert (Hb3 : kbase k3) by (by apply (kbase_same k2)).
  assert (Hr3 : kready none k3) by (by apply (kready_same k2)).
  rewrite E3. split; [by apply next_up_ready|]. intros t Ht Hi. by apply next_up_best.
Qed.

(** Thread 1 of the demo about to wait. *)
Definition demo_pending : kernel := pend_locked 1 (Some 9%positive) K_FOREVER (demo false).

Lemma z_swap_highest_priority_witness :
  match z_swap (O := unit) true (demo_pending, tt) with
  | Swapped s _ => z_is_thread_ready (current s.1) s.1 = true
  | Done _ _ => False
  end.
Proof.
  assert (H : match z_swap (O := unit) true (demo_pending, tt) with
              | Swapped _ _ => true | Done _ _ => false end = true) by (vm_compute; reflexivity).
  destruct (z_swap true (demo_pending, tt)) as [a s|s resume] eqn:E; [discriminate H|].
  refine (proj1 (z_swap_highest_priority true demo_pending tt s resume _ E)).
  apply (pend_locked_spec 9 K_FOREVER (demo false) demo_run). discriminate.
Defined.

Lemma z_swap_to {O} key k (o : O) :
  kbase k -> cache k <> current k ->
  exists s resume, z_swap key (k, o) = Swapped s resume
    /\ current s.1 = cache k /\ runq s.1 = runq k.
Proof.
  intros Hb Hd. unfold z_swap. cbn [fst snd]. cbv zeta. change (z_swap_next_thread _) with (cache k).
  rewrite decide_True by done. eexists _, _. split; [reflexivity|]. cbn [fst].
  split; unfold z_reset_time_slice; by case_match.
Qed.

(** ** Yielding *)

(** [k_yield] puts the caller behind every ready thread of its priority
    and in front of every thread of a lower one; if another thread of its
    priority is ready, the first of them runs next. *)
Theorem k_yield_round_robin {O} k (o : O) u r :
  krun k -> current k <> idle_thread k -> runq k = current k :: u :: r ->
  prio (threads k u) = prio (threads k (current k)) ->
  exists s resume, z_impl_k_yield (k, o) = Swapped s resume
    /\ current s.1 = u
    /\ runq s.1 = filter (fun t => prio (threads k t) <= prio (threads k (current k))) (u :: r)
                  ++ current k ::
                  filter (fun t => ~ prio (threads k t) <= prio (threads k (current k))) (u :: r).
Proof.
  intros Hk Hi Er Hp. unfold z_impl_k_yield. run_code.
  set (k0 := k <| irq_locked := true |>). set (c := current k) in *. change (current k0) with c.
  assert (Hnd : c <> u).
  { pose proof (kb_nodup _ (kwf_base _ (kru_wf _ Hk))) as Hn. rewrite Er in Hn.
    apply NoDup_cons in Hn as [Hn _]. rewrite not_elem_of_cons in Hn. tauto. }
  set (k1 := queue_thread c (dequeue_thread c k0)).
  assert (E1 : runq k1 = filter (fun t => prio (threads k t) <= prio (threads k c)) (u :: r)
                  ++ c :: filter (fun t => ~ prio (threads k t) <= prio (threads k c)) (u :: r)).
  { set (th := threads (upd_thread c (set_state _THREAD_QUEUED) (dequeue_thread c k0))).
    assert (Hth : forall x, prio (th x) = prio (threads k x)).
    { intros x. unfold th. rewrite threads_upd_thread.
      case_decide; subst; apply (dequeue_prio c k0). }
    change (runq k1) with (z_priq_dumb_add th c (z_priq_dumb_remove c (runq k))).
    rewrite Er. simpl. rewrite decide_True by done.
    pose proof (kb_sorted _ (kwf_base _ (kru_wf _ Hk))) as Hs. rewrite Er in Hs.
    apply StronglySorted_inv in Hs as [Hs _]. apply (prio_le_ext _ th) in Hs; [|by intros].
    rewrite (priq_add_fifo th c (u :: r) Hs). f_equal; [|f_equal];
      apply list_filter_iff; intros x; by rewrite !Hth. }
  assert (Hk0 : krun k0) by (by apply krun_irq).
  assert (Hb1 : kbase k1).
  { unfold k1. rewrite <-(dequeued_thread c k0).
    - by apply (move_to_end_core c k0); [apply kwf_core, Hk0|exact (cur_ready k0 Hk0)|].
    - by apply (kb_queued _ (kwf_base _ (kru_wf _ Hk0))); simpl; rewrite Er; left. }
  pose proof (update_cache_same true k1 Hb1) as Hs2.
  assert (Hc2 : cache (update_cache true k1) = u).
  { rewrite update_cache_true by done. rewrite (ss_next_up _ _ Hs2).
    unfold next_up, runq_best. rewrite E1, filter_cons, decide_True by lia. done. }
  destruct (z_swap_to (negb (irq_locked k)) (update_cache true k1) o) as (s & resume & -> & H1 & H2).
  { apply (update_cache_base true k1 Hb1). }
  { rewrite Hc2, (ss_current _ _ Hs2). change (current k1) with c. congruence. }
  cbn [obind]. eexists _, _. split; [reflexivity|]. rewrite H1, H2, Hc2. split; [done|].
  by rewrite (ss_runq _ _ Hs2), E1.
Qed.

Lemma k_yield_round_robin_witness :
  exists s resume, z_impl_k_yield (pair 0 0, tt) = Swapped s resume
    /\ current s.1 = 2%positive /\ runq s.1 = [2%positive; 1%positive].
Proof.
  destruct (k_yield_round_robin (pair 0 0) tt 2 []) as (s & resume & E & H1 & H2).
  - apply pair_run. lia.
  - discriminate.
  - reflexivity.
  - reflexivity.
  - exists s, resume. split; [exact E|]. split; [exact H1|]. rewrite H2. vm_compute. reflexivity.
Defined.

(** ** Ending a thread *)

(** ending a thread that is not dead marks it dead, takes it off the
    ready queue, its wait queue and the timeout queue, wakes every thread that
    joins it with return value 0, leaves every other thread alone, keeps the
    scheduler invariant and never picks the dead thread to run next. *)
Theorem end_thread_releases t k :
  kwf k -> t <> idle_thread k -> flag_set (thread_state (threads k t)) _THREAD_DEAD = false ->
  ended t k (end_thread t k).
Proof. apply end_thread_spec. Qed.

Lemma end_thread_releases_witness :
  runq (end_thread 2 (pair 0 0)) = [1%positive] /\ kwf (end_thread 2 (pair 0 0)).
Proof.
  split; [vm_compute; reflexivity|].
  refine (en_wf _ _ _ (end_thread_releases 2 (pair 0 0) _ _ _)).
  - apply pair_run. lia.
  - discriminate.
  - reflexivity.
Defined.

(** ** Priority changes and cooperative callers *)

(** Raising a ready thread above every other ready thread caches it, whoever
    is running. *)
Lemma set_prio_cache t p k :
  kwf k -> z_is_thread_ready t k = true -> t <> idle_thread k ->
  (forall u, u ∈ runq k -> u <> t -> p < prio (threads k u)) ->
  (z_set_prio t p k).1 = true /\ cache (z_set_prio t p k).2 = t.
Proof.
  intros Hk Hr Hi Hp. unfold z_set_prio. rewrite Hr. cbn [fst snd]. split; [done|].
  set (k2 := upd_thread t (fun x => x <| prio := p |>) (dequeue_thread t k)).
  change (cache (update_cache true (queue_thread t k2))) with (next_up (queue_thread t k2)).
  set (th := threads (upd_thread t (set_state _THREAD_QUEUED) k2)).
  assert (Ht : prio (th t) = p).
  { unfold th. rewrite threads_upd_thread, decide_True by done.
    change (prio (set_state _THREAD_QUEUED ?x)) with (prio x). unfold k2. by rewrite threads_upd_thread, decide_True. }
  unfold next_up, runq_best.
  change (runq (queue_thread t k2)) with (z_priq_dumb_add th t (z_priq_dumb_remove t (runq k))).
  destruct (z_priq_dumb_remove t (runq k)) as [|h r] eqn:E; [done|]. simpl.
  assert (Hh : h ∈ runq k /\ h <> t).
  { apply (priq_remove_elem t (runq k) h); [apply Hk|]. rewrite E. by left. }
  rewrite prio_cmp_pos, Ht. replace (p <? prio (th h)) with true; [done|].
  symmetry. apply Z.ltb_lt. unfold th. rewrite threads_upd_thread, decide_False by apply Hh.
  unfold k2. rewrite threads_upd_thread, decide_False by apply Hh.
  rewrite dequeue_threads, threads_upd_thread, decide_False by apply Hh.
  apply Hp; apply Hh.
Qed.

Lemma set_prio_locked t p k :
  t <> current k ->
  sched_locked (threads (z_set_prio t p k).2 (current k)) = sched_locked (threads k (current k)).
Proof.
  intros Hne. unfold z_set_prio. case_match; cbn [snd].
  - rewrite update_cache_threads, queue_threads. rewrite !threads_upd_thread, !decide_False by done.
    rewrite dequeue_threads, threads_upd_thread, decide_False; done.
  - rewrite threads_upd_thread, decide_False; done.
Qed.

(** [k_thread_priority_set] takes the CPU away from a cooperative
    caller: raising a ready thread above all others switches to it at once,
    whether or not the caller is preemptible. *)
Theorem priority_set_preempts_cooperative {O} t p k (o : O) :
  krun k -> irq_locked k = false -> is_preempt (threads k (current k)) = false ->
  sched_locked (threads k (current k)) = 0 ->
  z_is_thread_ready t k = true -> t <> idle_thread k -> t <> current k ->
  (forall u, u ∈ runq k -> u <> t -> p < prio (threads k u)) ->
  exists s resume, z_impl_k_thread_priority_set t p (k, o) = Swapped s resume /\ current s.1 = t.
Proof.
  intros Hk Hirq _ Hl Hr Hi Hne Hp.
  destruct (set_prio_cache t p k (kru_wf _ Hk) Hr Hi Hp) as [H1 H2].
  destruct (set_prio_wf t p k (kru_wf _ Hk) Hi) as [H3 H4].
  pose proof (set_prio_locked t p k Hne) as H5. rewrite Hl in H5.
  unfold z_impl_k_thread_priority_set, z_thread_priority_set. run_code.
  change (z_set_prio t p (k, o).1) with (z_set_prio t p k).
  destruct (z_set_prio t p k) as [b k']. cbn [fst snd obind] in *. subst b.
  rewrite (cx_current _ _ H4), H5. simpl.
  unfold z_reschedule_unlocked, z_reschedule_irqlock, z_swap_irqlock. run_code.
  unfold resched. simpl. rewrite (cx_irq _ _ H4), Hirq, (cx_isr _ _ H4), (kru_isr _ Hk). simpl.
  destruct (z_swap_to true (k' <| irq_locked := true |>) o) as (s & resume & -> & E1 & _).
  { apply (kwf_base _ (kwf_irq true _ H3)). }
  { simpl. rewrite H2, (cx_current _ _ H4). done. }
  simpl. eexists _, _. split; [reflexivity|]. by rewrite E1.
Qed.

Lemma priority_set_preempts_cooperative_witness :
  exists s resume, z_impl_k_thread_priority_set 2 (-5) (pair (-1) 4, tt) = Swapped s resume
    /\ current s.1 = 2%positive.
Proof.
  apply (priority_set_preempts_cooperative 2 (-5) (pair (-1) 4) tt).
  - apply pair_run. lia.
  - reflexivity.
  - reflexivity.
  - reflexivity.
  - reflexivity.
  - discriminate.
  - discriminate.
  - intros u Hu Hne. simpl in Hu. rewrite !elem_of_cons, elem_of_nil in Hu.
    destruct Hu as [->|[->|[]]]; [simpl; lia|done].
Defined.

(** Under the scheduler lock the switch is only delayed: the raised
    thread is cached, so the return from the next interrupt switches to it
    while the caller still holds the lock. *)
Theorem priority_set_breaks_sched_lock {O} t p k (o : O) :
  krun k -> 0 < sched_locked (threads k (current k)) ->
  z_is_thread_ready t k = true -> t <> idle_thread k -> t <> current k ->
  (forall u, u ∈ runq k -> u <> t -> p < prio (threads k u)) ->
  exists k1 k2,
    z_impl_k_thread_priority_set t p (k, o) = Done tt (k1, o)
    /\ current k1 = current k /\ 0 < sched_locked (threads k1 (current k))
    /\ z_get_next_switch_handle (k1, o) = Done tt (k2, o) /\ current k2 = t.
Proof.
  intros Hk Hl Hr Hi Hne Hp.
  destruct (set_prio_cache t p k (kru_wf _ Hk) Hr Hi Hp) as [H1 H2].
  destruct (set_prio_wf t p k (kru_wf _ Hk) Hi) as [H3 H4].
  assert (H5 : sched_locked (threads (z_set_prio t p k).2 (current k))
               = sched_locked (threads k (current k))) by (by apply set_prio_locked).
  unfold z_impl_k_thread_priority_set, z_thread_priority_set. run_code.
  change (z_set_prio t p (k, o).1) with (z_set_prio t p k).
  destruct (z_set_prio t p k) as [b k']. cbn [fst snd obind] in *. subst b.
  rewrite (cx_current _ _ H4), H5. replace (_ =? 0) with false by lia. simpl.
  exists k', (k' <| current := cache k' |>). split_and!; try done; [apply H4|lia].
Qed.

Lemma priority_set_breaks_sched_lock_witness :
  exists k1 k2,
    z_impl_k_thread_priority_set 2 (-5)
      (upd_thread 1 (fun t => t <| sched_locked := 255 |>) (pair 0 4), tt) = Done tt (k1, tt)
    /\ current k1 = 1%positive /\ 0 < sched_locked (threads k1 1)
    /\ z_get_next_switch_handle (k1, tt) = Done tt (k2, tt) /\ current k2 = 2%positive.
Proof.
  apply (priority_set_breaks_sched_lock 2 (-5)
    (upd_thread 1 (fun t => t <| sched_locked := 255 |>) (pair 0 4)) tt).
  - pose proof (pair_run 0 4 ltac:(lia)) as [H1 H2 H3].
    split; [apply (lock_wf (pair 0 4)); done|done|done].
  - reflexivity.
  - reflexivity.
  - discriminate.
  - discriminate.
  - intros u Hu Hne. simpl in Hu. rewrite !elem_of_cons, elem_of_nil in Hu.
    destruct Hu as [->|[->|[]]]; [simpl; lia|done].
Defined.
