(* ===== verification/Sem.v ===== *)
(** Kernel semaphores (kernel/sem.c).

    The object is [struct k_sem]; its wait queue lives in the kernel
    structure.  The invariant says that the count stays within the limit and
    that no thread waits while units are available.  The theorems show that
    every operation keeps it together with the scheduler invariant, and what
    each operation does on each of its branches. *)
From S2P Require Import Prelude Timeout Kernel Sched SchedInv SchedApi Demo.

Module Sem.

Record k_sem := mk_sem {
  wait_q : wqid;
  count : Z;
  limit : Z
}.

#[export] Instance set_count : Settable count :=
  fun f s => mk_sem (wait_q s) (f (count s)) (limit s).
#[export] Instance set_limit : Settable limit :=
  fun f s => mk_sem (wait_q s) (count s) (f (limit s)).

Definition K_SEM_MAX_LIMIT : Z := UINT32_MAX.

(** The [struct k_sem] that the operations are called on, as a part of a
    larger state. *)
Class sem_place (O : Type) := {
  sem_of : O -> k_sem;
  sem_upd : (k_sem -> k_sem) -> O -> O
}.

#[export] Instance sem_itself : sem_place k_sem := {| sem_of s := s; sem_upd f := f |}.

Section Code.
Context {O : Type} {P : sem_place O}.

Definition z_impl_k_sem_init (initial_count lim : Z) : M (kernel * O) Z :=
  if (lim =? 0) || (lim >? K_SEM_MAX_LIMIT) || (initial_count >? lim) then ret (- EINVAL)
  else
    omod (sem_upd (fun s => s <| count := initial_count |> <| limit := lim |>)) ;;
    w <- oget (fun o => wait_q (sem_of o)) ;;
    kmod (z_waitq_init w) ;;
    ret 0.

Definition z_impl_k_sem_give : M (kernel * O) unit :=
  key <- k_spin_lock ;;
  w <- oget (fun o => wait_q (sem_of o)) ;;
  thread <- kcall (z_unpend_first_thread w) ;;
  match thread with
  | Some t =>
      kmod (arch_thread_return_value_set t 0) ;;
      kmod (z_ready_thread t) ;;
      z_reschedule key
  | None =>
      omod (sem_upd (fun s => s <| count ::= fun c => c + (if negb (c =? limit s) then 1 else 0) |>)) ;;
      (* handle_poll_events() is false without CONFIG_POLL *)
      k_spin_unlock key
  end.

Definition z_impl_k_sem_take (timeout : Z) : M (kernel * O) Z :=
  key <- k_spin_lock ;;
  c <- oget (fun o => count (sem_of o)) ;;
  if c >? 0 then
    omod (sem_upd (fun s => s <| count ::= fun c => c - 1 |>)) ;;
    k_spin_unlock key ;;
    ret 0
  else if timeout =? K_NO_WAIT then
    k_spin_unlock key ;;
    ret (- EBUSY)
  else
    w <- oget (fun o => wait_q (sem_of o)) ;;
    z_pend_curr key w timeout.

Definition z_impl_k_sem_reset : M (kernel * O) unit :=
  key <- k_spin_lock ;;
  w <- oget (fun o => wait_q (sem_of o)) ;;
  _ <- kcall (fun k => unpend_first_loop
         (fun t k => z_ready_thread t (arch_thread_return_value_set t (- EAGAIN) k))
         (length (waitqs k w)) w 0 k) ;;
  omod (sem_upd (fun s => s <| count := 0 |>)) ;;
  z_reschedule key.

End Code.

Ltac sem_code := run_code; cbn [sem_of sem_upd sem_itself].

Definition z_impl_k_sem_count_get (s : k_sem) : Z := count s.

(** ** Invariant *)

Record inv (s : kernel * k_sem) : Prop := {
  inv_limit : 0 < limit s.2 <= K_SEM_MAX_LIMIT;
  inv_count : 0 <= count s.2 <= limit s.2;
  inv_wait : 0 < count s.2 -> waitqs s.1 (wait_q s.2) = []
}.

Lemma sem_inv_stable : stable inv.
Proof. intros k k' o _ Hw _ [H1 H2 H3]. split; try done. simpl in *. by rewrite Hw. Qed.

(** The operations, as one type. *)
Inductive op := Give | Take (timeout : Z) | Reset.

Definition run_op (o : op) : M (kernel * k_sem) Z :=
  match o with
  | Give => z_impl_k_sem_give ;; ret 0
  | Take timeout => z_impl_k_sem_take timeout
  | Reset => z_impl_k_sem_reset ;; ret 0
  end.

Section Giving.
Context {O : Type} {P : sem_place O}.

Lemma give_place_runs (J : kernel * O -> Prop) k (o : O) :
  stable J -> krun k ->
  (waitqs k (wait_q (sem_of o)) = [] ->
     J (k, sem_upd (fun s => s <| count ::= fun c => c + (if negb (c =? limit s) then 1 else 0) |>) o)) ->
  (forall t k', woken (wait_q (sem_of o)) t 0 (k <| irq_locked := true |>) k' -> J (k', o)) ->
  runs J (current k) (fun _ => returned J (current k) (irq_locked k)) (z_impl_k_sem_give (k, o)).
Proof.
  intros HJ Hk Hnone Hsome. unfold z_impl_k_sem_give. run_code. set (k0 := k <| irq_locked := true |>) in *.
  destruct (z_unpend_first_thread (wait_q (sem_of o)) k0) as [[t|] k1] eqn:Eu; cbn [obind fst snd].
  - pose proof (wake_first _ _ _ _ 0 (fun x => x <| swap_retval := 0 |>) (kru_wf _ (krun_irq _ _ Hk)) Eu
      ltac:(done) ltac:(done)) as Hw.
    eapply (woken_resched_runs J HJ); [done|exact Hw|]. by eapply Hsome.
  - apply z_unpend_first_thread_none in Eu as [-> Ew]. cbn [runs]. unfold k0. rewrite unlock_id. by split_and!; auto.
Qed.

End Giving.

Lemma inv_irq b k o : inv (k, o) -> inv (k <| irq_locked := b |>, o).
Proof. by intros [H1 H2 H3]. Qed.

Lemma give_runs k o :
  krun k -> inv (k, o) ->
  runs inv (current k) (fun _ => returned inv (current k) (irq_locked k)) (z_impl_k_sem_give (k, o)).
Proof.
  intros Hk [H1 H2 H3]. apply give_place_runs; [apply sem_inv_stable|done| |]; cbn [sem_of sem_upd sem_itself].
  - intros Ew. split; simpl in *; [done| |done]. destruct (count o =? limit o) eqn:E; simpl; lia.
  - intros t k' Hw. split; try done. simpl in *. intros Hc%H3. pose proof (wo_wq _ _ _ _ _ Hw) as E. simpl in E. by rewrite Hc in E.
Qed.

Lemma take_runs tm k o :
  krun k -> inv (k, o) -> current k <> idle_thread k ->
  runs inv (current k)
    (fun r s' => returned inv (current k) (irq_locked k) s'
       /\ (0 < count o -> r = 0 /\ s' = (k, o <| count := count o - 1 |>))
       /\ (count o = 0 -> tm = K_NO_WAIT -> r = - EBUSY /\ s' = (k, o))
       /\ (count o = 0 -> tm <> K_NO_WAIT -> r = swap_retval (threads s'.1 (current k))))
    (z_impl_k_sem_take tm (k, o)).
Proof.
  intros Hk HJ Hi. unfold z_impl_k_sem_take. sem_code.
  assert (Hid : k <| irq_locked := true |> <| irq_locked := negb (negb (irq_locked k)) |> = k)
    by (rewrite negb_involutive; by destruct k).
  destruct (count o >? 0) eqn:Ec; [|destruct (tm =? K_NO_WAIT) eqn:Et]; cbn [obind fst snd runs].
  - assert (0 < count o) by lia. rewrite Hid. unfold returned. split_and!; try done; [|lia..].
    destruct HJ as [H1 H2 H3]. split; simpl in *; [done|lia|]. intros _. apply H3. lia.
  - rewrite Hid. unfold returned. split_and!; try done; lia.
  - assert (count o <= 0) by lia.
    set (k0 := k <| irq_locked := true |>) in *. eapply runs_mono; cycle 1.
    + apply (z_pend_curr_runs inv (negb (irq_locked k)) (wait_q o) tm k0 o);
        [apply sem_inv_stable|by apply krun_irq|done|].
      intros k' _. destruct HJ as [H1 H2 H3]. split; simpl in *; [done|done|lia].
    + intros r s (R1 & R2 & R3 & R4 & R5). rewrite negb_involutive in R4.
      unfold returned. split_and!; try done; lia.
Qed.

Lemma reset_runs k o :
  krun k -> inv (k, o) ->
  runs inv (current k) (fun _ => returned inv (current k) (irq_locked k)) (z_impl_k_sem_reset (k, o)).
Proof.
  intros Hk HJ. unfold z_impl_k_sem_reset. sem_code.
  set (k0 := k <| irq_locked := true |>). assert (Hk0 : krun k0) by (by apply krun_irq).
  restore_key.
  destruct (unpend_first_loop_spec (fun x => x <| swap_retval := - EAGAIN |>) (- EAGAIN)
              (wait_q o) 0 (length (waitqs k0 (wait_q o))) k0) as (k' & E & Hw);
    [apply Hk0|done|done|done|].
  unfold arch_thread_return_value_set. rewrite E. cbn [obind fst snd].
  change (current k) with (current k0). rewrite <-(aw_cur _ _ _ _ Hw).
  apply z_reschedule_runs; [apply sem_inv_stable|by eapply all_woken_run|].
  destruct HJ as [H1 H2 H3]. split; simpl in *; [done|lia|lia].
Qed.

(** ** For code that has a semaphore in a larger state *)

Section Place.
Context {O : Type} {P : sem_place O}.

(** Giving with interrupts masked does not switch. *)
Lemma give_masked k (o : O) :
  kwf k -> irq_locked k = true ->
  match waitqs k (wait_q (sem_of o)) with
  | [] => z_impl_k_sem_give (k, o)
          = Done tt (k, sem_upd (fun s => s <| count ::= fun c => c + (if negb (c =? limit s) then 1 else 0) |>) o)
  | t :: _ => exists k', z_impl_k_sem_give (k, o) = Done tt (k', o) /\ woken (wait_q (sem_of o)) t 0 k k'
  end.
Proof.
  intros Hk Hirq. unfold z_impl_k_sem_give. run_code.
  assert (k <| irq_locked := true |> = k) as -> by (destruct k; simpl in *; by subst). rewrite Hirq.
  destruct (z_unpend_first_thread (wait_q (sem_of o)) k) as [[t|] k1] eqn:Eu; cbn [obind fst snd].
  - pose proof (wake_first _ _ _ _ 0 (fun x => x <| swap_retval := 0 |>) Hk Eu ltac:(done) ltac:(done)) as Hw.
    rewrite (wo_wq _ _ _ _ _ Hw). eexists. split; [|exact Hw].
    unfold z_reschedule, resched. run_code. cbn [andb negb]. do 2 f_equal.
    pose proof (wo_irq _ _ _ _ _ Hw) as E. rewrite Hirq in E. revert E. unfold arch_thread_return_value_set.
    destruct (z_ready_thread _ _). simpl. by intros ->.
  - apply z_unpend_first_thread_none in Eu as [-> ->]. cbn [negb]. do 2 f_equal. destruct k; simpl in *; by subst.
Qed.

Lemma take_place_runs (J : kernel * O -> Prop) tm k (o : O) :
  stable J -> krun k -> current k <> idle_thread k -> J (k, o) ->
  (0 < count (sem_of o) -> J (k, sem_upd (fun s => s <| count ::= fun c => c - 1 |>) o)) ->
  (count (sem_of o) <= 0 -> forall k', pended (wait_q (sem_of o)) (k <| irq_locked := true |>) k' -> J (k', o)) ->
  runs J (current k) (fun _ => returned J (current k) (irq_locked k)) (z_impl_k_sem_take tm (k, o)).
Proof.
  intros HJ Hk Hi HJ0 Htake Hwait. unfold z_impl_k_sem_take. run_code.
  destruct (count (sem_of o) >? 0) eqn:Ec; [|destruct (tm =? K_NO_WAIT)]; cbn [obind fst snd runs].
  - rewrite unlock_id. split_and!; try done. apply Htake. lia.
  - rewrite unlock_id. by split_and!.
  - eapply runs_mono; [|apply (pend_returned_runs J HJ)]; [by intros r s [? _]|done|done|].
    intros k' Hk'. apply Hwait; [lia|done].
Qed.

(** Taking an unavailable semaphore waits. *)
Lemma take_wait_runs (J : kernel * O -> Prop) tm k (o : O) :
  stable J -> krun k -> current k <> idle_thread k -> count (sem_of o) = 0 -> tm <> K_NO_WAIT ->
  (forall k', pended (wait_q (sem_of o)) (k <| irq_locked := true |>) k' -> J (k', o)) ->
  runs J (current k) (fun _ => returned J (current k) (irq_locked k)) (z_impl_k_sem_take tm (k, o)).
Proof.
  intros HJ Hk Hi Hc Htm Hwait. unfold z_impl_k_sem_take. run_code. rewrite Hc. cbn [Z.gtb Z.compare].
  replace (tm =? K_NO_WAIT) with false by (symmetry; by apply Z.eqb_neq). run_code.
  eapply runs_mono; [|apply (pend_returned_runs J HJ)]; [by intros r s [? _]|done..].
Qed.

End Place.

(** ** Properties *)

(** Every semaphore operation, in any thread context, gives up the CPU
    only in states that satisfy the scheduler invariant and the semaphore
    invariant (count within the limit, no waiter while units are available),
    and returns to its caller in such a state with the interrupt mask
    restored. *)
Theorem k_sem_ops_safe (o : op) k sem :
  krun k -> inv (k, sem) -> current k <> idle_thread k ->
  runs inv (current k) (fun _ => returned inv (current k) (irq_locked k)) (run_op o (k, sem)).
Proof.
  intros Hk HJ Hi. destruct o as [|tm|]; simpl.
  - unfold bind. eapply runs_bind; [by apply give_runs|done].
  - eapply runs_mono; [|by apply take_runs]. by intros r s [? _].
  - unfold bind. eapply runs_bind; [by apply reset_runs|done].
Qed.

Lemma k_sem_ops_safe_witness :
  runs inv 1 (fun _ => returned inv 1 false) (run_op Give (demo false, mk_sem 7 0 5)).
Proof.
  apply (k_sem_ops_safe Give (demo false) (mk_sem 7 0 5)); [apply demo_run| |discriminate].
  split; simpl; unfold K_SEM_MAX_LIMIT, UINT32_MAX; lia.
Defined.

(** [k_sem_take] takes a unit and returns 0 at once when one is
    available; with none available it returns -EBUSY under K_NO_WAIT and
    leaves everything unchanged, and otherwise pends the caller and returns
    the value its waker stored. *)
Theorem k_sem_take_spec tm k sem :
  krun k -> inv (k, sem) -> current k <> idle_thread k ->
  runs inv (current k)
    (fun r s' => returned inv (current k) (irq_locked k) s'
       /\ (0 < count sem -> r = 0 /\ s' = (k, sem <| count := count sem - 1 |>))
       /\ (count sem = 0 -> tm = K_NO_WAIT -> r = - EBUSY /\ s' = (k, sem))
       /\ (count sem = 0 -> tm <> K_NO_WAIT -> r = swap_retval (threads s'.1 (current k))))
    (z_impl_k_sem_take tm (k, sem)).
Proof. apply take_runs. Qed.

Lemma k_sem_take_spec_witness :
  runs inv 1
    (fun r s' => returned inv 1 false s'
       /\ (0 < 0 -> r = 0 /\ s' = (demo false, mk_sem 7 (-1) 5))
       /\ (0 = 0 -> 20 = K_NO_WAIT -> r = - EBUSY /\ s' = (demo false, mk_sem 7 0 5))
       /\ (0 = 0 -> 20 <> K_NO_WAIT -> r = swap_retval (threads s'.1 1)))
    (z_impl_k_sem_take 20 (demo false, mk_sem 7 0 5)).
Proof.
  apply (k_sem_take_spec 20 (demo false) (mk_sem 7 0 5)); [apply demo_run| |discriminate].
  split; simpl; unfold K_SEM_MAX_LIMIT, UINT32_MAX; lia.
Defined.

(** [k_sem_give] from an interrupt handler: with waiters, the first one
    leaves the wait queue, its pending take will return 0, it enters the
    ready queue (unless it is suspended as well) and the count stays; without
    waiters the count goes up by one, saturating at the limit. *)
Theorem k_sem_give_isr k sem :
  kwf k -> inv (k, sem) -> in_isr k = true ->
  exists k' sem',
    z_impl_k_sem_give (k, sem) = Done tt (k', sem')
    /\ kwf k' /\ inv (k', sem') /\ irq_locked k' = irq_locked k
    /\ match waitqs k (wait_q sem) with
       | t :: r =>
           sem' = sem /\ waitqs k' (wait_q sem) = r
           /\ pended_on (threads k' t) = None /\ swap_retval (threads k' t) = 0
           /\ (z_is_thread_prevented_from_running (z_mark_thread_as_not_pending (threads k t)) = false
               -> t ∈ runq k')
       | [] => k' = k /\ sem' = sem <| count := Z.min (count sem + 1) (limit sem) |>
       end.
Proof.
  intros Hk HJ Hi. unfold z_impl_k_sem_give. sem_code.
  set (k0 := k <| irq_locked := true |>).
  assert (Hk0 : kwf k0) by (by apply kwf_irq).
  destruct (z_unpend_first_thread (wait_q sem) k0) as [[t|] k1] eqn:Eu; cbn [obind fst snd].
  - pose proof (wake_first _ _ _ _ 0 (fun x => x <| swap_retval := 0 |>) Hk0 Eu) as Hw.
    specialize (Hw ltac:(done) ltac:(done)).
    unfold arch_thread_return_value_set. set (k2 := z_ready_thread _ _) in *.
    rewrite z_reschedule_isr by (by rewrite (wo_isr _ _ _ _ _ Hw)).
    eexists _, sem. split; [reflexivity|]. change (waitqs k (wait_q sem)) with (waitqs k0 (wait_q sem)).
    rewrite (wo_wq _ _ _ _ _ Hw). split_and!; try done.
    + apply kwf_irq, Hw.
    + destruct HJ as [H1 H2 H3]. split; try done. simpl in *. intros Hc%H3.
      pose proof (wo_wq _ _ _ _ _ Hw) as E. simpl in E. by rewrite Hc in E.
    + apply negb_involutive.
    + apply (wo_pended _ _ _ _ _ Hw).
    + apply (wo_retval _ _ _ _ _ Hw).
    + apply (wo_ready _ _ _ _ _ Hw).
  - apply z_unpend_first_thread_none in Eu as [-> Ew].
    change (waitqs k (wait_q sem)) with (waitqs k0 (wait_q sem)). rewrite Ew.
    assert (Hid : k0 <| irq_locked := negb (negb (irq_locked k)) |> = k)
      by (rewrite negb_involutive; by destruct k).
    rewrite Hid. destruct HJ as [H1 H2 H3]. simpl in *.
    eexists _, _. split; [reflexivity|]. split_and!; try done.
    + split; simpl; [done| |done]. destruct (count sem =? limit sem) eqn:E; simpl; lia.
    + unfold upd, set_count. f_equal. destruct (count sem =? limit sem) eqn:E; simpl; lia.
Qed.

Lemma k_sem_give_isr_witness :
  exists k' sem', z_impl_k_sem_give (demo true, mk_sem 7 0 5) = Done tt (k', sem')
    /\ swap_retval (threads k' 2) = 0 /\ waitqs k' 7 = [].
Proof.
  destruct (k_sem_give_isr (demo true) (mk_sem 7 0 5)) as (k' & sem' & H1 & _ & _ & _ & H2).
  - apply demo_wf.
  - split; simpl; unfold K_SEM_MAX_LIMIT, UINT32_MAX; lia.
  - reflexivity.
  - exists k', sem'. destruct H2 as (_ & H2 & _ & H3 & _). split; [exact H1|].
    split; [exact H3|exact H2].
Defined.

(** [k_sem_reset] from an interrupt handler terminates, wakes every
    waiter with -EAGAIN, empties the wait queue and sets the count to 0. *)
Theorem k_sem_reset_isr k sem :
  kwf k -> inv (k, sem) -> in_isr k = true ->
  exists k',
    z_impl_k_sem_reset (k, sem) = Done tt (k', sem <| count := 0 |>)
    /\ kwf k' /\ waitqs k' (wait_q sem) = []
    /\ forall t, t ∈ waitqs k (wait_q sem) ->
         pended_on (threads k' t) = None /\ swap_retval (threads k' t) = - EAGAIN.
Proof.
  intros Hk HJ Hi. unfold z_impl_k_sem_reset. sem_code.
  set (k0 := k <| irq_locked := true |>). assert (Hk0 : kwf k0) by (by apply kwf_irq).
  destruct (unpend_first_loop_spec (fun x => x <| swap_retval := - EAGAIN |>) (- EAGAIN)
              (wait_q sem) 0 (length (waitqs k0 (wait_q sem))) k0) as (k' & E & Hw); try done.
  unfold arch_thread_return_value_set. rewrite E. cbn [obind fst snd].
  rewrite z_reschedule_isr by (by rewrite (aw_isr _ _ _ _ Hw)).
  eexists. split; [reflexivity|]. split_and!.
  - apply kwf_irq, Hw.
  - apply Hw.
  - apply (aw_woken _ _ _ _ Hw).
Qed.

Lemma k_sem_reset_isr_witness :
  exists k', z_impl_k_sem_reset (demo true, mk_sem 7 0 5) = Done tt (k', mk_sem 7 0 5)
    /\ swap_retval (threads k' 2) = - EAGAIN.
Proof.
  destruct (k_sem_reset_isr (demo true) (mk_sem 7 0 5)) as (k' & H1 & _ & _ & H2).
  - apply demo_wf.
  - split; simpl; unfold K_SEM_MAX_LIMIT, UINT32_MAX; lia.
  - reflexivity.
  - exists k'. split; [exact H1|]. apply H2. left.
Defined.

End Sem.
