(* ===== verification/Mutex.v ===== *)
(** Mutexes with priority inheritance (kernel/mutex.c).

    The object is [struct k_mutex]; its wait queue lives in the kernel
    structure.  A thread that waits in [k_mutex_lock] is followed by
    [waiting]: it is still on the wait queue, or it timed out, or the unlocking
    thread has made it the owner.  The theorems are stated for any set [W] of
    such waiters, so they compose: each operation keeps the mutex consistent
    and keeps its promise to every thread of [W]. *)
From S2P Require Import Prelude Timeout Kernel Sched SchedInv SchedApi Demo.

Module Mutex.

Record k_mutex := mk_mutex {
  wait_q : wqid;
  owner : option tid;
  lock_count : Z;                  (* uint32_t *)
  owner_orig_prio : Z
}.

#[export] Instance set_owner : Settable owner :=
  fun f m => mk_mutex (wait_q m) (f (owner m)) (lock_count m) (owner_orig_prio m).
#[export] Instance set_lock_count : Settable lock_count :=
  fun f m => mk_mutex (wait_q m) (owner m) (f (lock_count m)) (owner_orig_prio m).
#[export] Instance set_owner_orig_prio : Settable owner_orig_prio :=
  fun f m => mk_mutex (wait_q m) (owner m) (lock_count m) (f (owner_orig_prio m)).

Definition z_impl_k_mutex_init : M (kernel * k_mutex) Z :=
  omod (fun m => m <| owner := None |> <| lock_count := 0 |>) ;;
  w <- oget wait_q ;;
  kmod (z_waitq_init w) ;;
  ret 0.

Definition new_prio_for_inheritance (target limit : Z) : Z :=
  let new_prio := if z_is_prio_higher target limit then target else limit in
  z_get_new_prio_with_ceiling new_prio.

(** The callers have checked that the mutex has an owner. *)
Definition adjust_owner_prio (new_prio : Z) : M (kernel * k_mutex) bool :=
  o <- oget owner ;;
  match o with
  | Some t =>
      p <- kget (fun k => prio (threads k t)) ;;
      if negb (p =? new_prio) then kcall (z_set_prio t new_prio) else ret false
  | None => ret false
  end.

(** The end of [k_mutex_lock] after a timeout. *)
Definition lock_timed_out (resched : bool) : M (kernel * k_mutex) Z :=
  key <- k_spin_lock ;;
  m <- oget (fun m => m) ;;
  resched <- match owner m with
             | Some _ =>
                 waiter <- kget (z_waitq_head (wait_q m)) ;;
                 new_prio <- kget (fun k => match waiter with
                   | Some t => new_prio_for_inheritance (prio (threads k t)) (owner_orig_prio m)
                   | None => owner_orig_prio m
                   end) ;;
                 r <- adjust_owner_prio new_prio ;;
                 ret (r || resched)
             | None => ret resched
             end ;;
  (if (resched : bool) then z_reschedule key else k_spin_unlock key) ;;
  ret (- EAGAIN).

Definition z_impl_k_mutex_lock (timeout : Z) : M (kernel * k_mutex) Z :=
  key <- k_spin_lock ;;
  cur <- kget current ;;
  m <- oget (fun m => m) ;;
  if (lock_count m =? 0) || bool_decide (owner m = Some cur) then
    p <- kget (fun k => prio (threads k cur)) ;;
    omod (fun m => m <| owner_orig_prio := if lock_count m =? 0 then p else owner_orig_prio m |>
                     <| lock_count ::= fun c => u32 (c + 1) |>
                     <| owner := Some cur |>) ;;
    k_spin_unlock key ;;
    ret 0
  else if timeout =? K_NO_WAIT then
    k_spin_unlock key ;;
    ret (- EBUSY)
  else
    match owner m with
    | None => ret (- EINVAL)       (* not reached: [lock_count] is not 0 *)
    | Some o =>
        new_prio <- kget (fun k => new_prio_for_inheritance (prio (threads k cur)) (prio (threads k o))) ;;
        higher <- kget (fun k => z_is_prio_higher new_prio (prio (threads k o))) ;;
        resched <- (if (higher : bool) then adjust_owner_prio new_prio else ret false) ;;
        got_mutex <- z_pend_curr key (wait_q m) timeout ;;
        if got_mutex =? 0 then ret 0 else lock_timed_out resched
    end.

Definition z_impl_k_mutex_unlock : M (kernel * k_mutex) Z :=
  cur <- kget current ;;
  m <- oget (fun m => m) ;;
  match owner m with
  | None => ret (- EINVAL)
  | Some o =>
      if negb (bool_decide (o = cur)) then ret (- EPERM)
      else if lock_count m >? 1 then
        omod (fun m => m <| lock_count ::= fun c => c - 1 |>) ;;
        ret 0
      else
        key <- k_spin_lock ;;
        _ <- adjust_owner_prio (owner_orig_prio m) ;;
        new_owner <- kcall (z_unpend_first_thread (wait_q m)) ;;
        omod (fun m => m <| owner := new_owner |>) ;;
        match new_owner with
        | Some t =>
            p <- kget (fun k => prio (threads k t)) ;;
            omod (fun m => m <| owner_orig_prio := p |>) ;;
            kmod (arch_thread_return_value_set t 0) ;;
            kmod (z_ready_thread t) ;;
            z_reschedule key ;;
            ret 0
        | None =>
            omod (fun m => m <| lock_count := 0 |>) ;;
            k_spin_unlock key ;;
            ret 0
        end
  end.

(** ** Invariant *)

Record inv (s : kernel * k_mutex) : Prop := {
  inv_count : 0 <= lock_count s.2 <= UINT32_MAX;
  inv_owner : (lock_count s.2 = 0) <-> (owner s.2 = None);
  inv_free : owner s.2 = None -> waitqs s.1 (wait_q s.2) = [];
  inv_busy t : owner s.2 = Some t -> (t ∉ waitqs s.1 (wait_q s.2)) /\ t <> idle_thread s.1
}.

(** Where thread [u] is after it began to wait for the mutex. *)
Definition waiting (u : tid) (s : kernel * k_mutex) : Prop :=
  pended_on (threads s.1 u) = Some (wait_q s.2)
  \/ swap_retval (threads s.1 u) = - EAGAIN
  \/ swap_retval (threads s.1 u) = 0 /\ owner s.2 = Some u.

(** The mutex is consistent and the threads of [W] are waiting for it. *)
Definition with_waiters (W : list tid) (s : kernel * k_mutex) : Prop :=
  inv s /\ forall u, u ∈ W -> waiting u s.

Lemma inv_steady k k' m :
  (forall w, waitqs k' w = waitqs k w) -> idle_thread k' = idle_thread k ->
  inv (k, m) -> inv (k', m).
Proof. intros Hw Hi [H1 H2 H3 H4]. split; try done; simpl in *; rewrite Hw, ?Hi; done. Qed.

Lemma with_waiters_steady W : steady (with_waiters W).
Proof.
  intros k k' m Ht Hd Hw Hi [H1 H2]. split; [by eapply inv_steady|].
  intros u Hu. destruct (Hd u) as [Hr _]. unfold waiting in *. simpl in *.
  rewrite (sth_pended _ _ (Ht u)), Hr. by apply H2.
Qed.

Lemma with_waiters_quiet W k k' m :
  quiet k k' -> with_waiters W (k, m) -> with_waiters W (k', m).
Proof.
  intros Hq [H1 H2]. split; [eapply inv_steady; [apply Hq|apply Hq|done]|].
  intros u Hu. specialize (H2 u Hu). unfold waiting in *. simpl in *.
  by rewrite (qu_pended _ _ Hq), (qu_retval _ _ Hq).
Qed.

(** ** Adjusting the owner's priority *)

Lemma adjust_spec p t k m :
  krun k -> owner m = Some t -> t <> idle_thread k ->
  exists b k', adjust_owner_prio p (k, m) = Done b (k', m) /\ krun k' /\ quiet k k'
    /\ forall u, prio (threads k' u) = if decide (u = t) then p else prio (threads k u).
Proof.
  intros Hk Ho Hi. unfold adjust_owner_prio. run_code. rewrite Ho. cbn [obind fst snd].
  destruct (prio (threads k t) =? p) eqn:E; cbn [negb].
  - exists false, k. split; [done|]. split; [done|]. split; [apply quiet_refl|].
    intros u. case_decide; [subst; lia|done].
  - change (z_set_prio t p (k, m).1) with (z_set_prio t p k).
    pose proof (set_prio_quiet t p k (kru_wf _ Hk) Hi) as Hq.
    destruct (set_prio_wf t p k (kru_wf _ Hk) Hi) as [Hw _].
    pose proof (set_prio_prio t p k) as Hp. destruct (z_set_prio t p k) as [b k'].
    exists b, k'. split_and!; try done. by eapply quiet_run.
Qed.

(** What a wait for the mutex by the current thread does to it. *)
Lemma pend_waiters W k k' m o :
  with_waiters W (k, m) -> current k ∉ W -> owner m = Some o -> o <> current k ->
  pended (wait_q m) k k' -> with_waiters (current k :: W) (swap_mark k', m).
Proof.
  intros [[H1 H2 H3 H4] HW] Hni Ho Hne Hp. simpl in *.
  destruct (pe_wq _ _ _ Hp) as (th & _ & Ew).
  assert (Ht : forall u, u <> current k -> threads (swap_mark k') u = threads k' u).
  { intros u Hu. unfold swap_mark. by rewrite threads_upd_thread, decide_False by (by rewrite (pe_cur _ _ _ Hp)). }
  split.
  - split; try done; simpl; [congruence|]. intros t Ht'. destruct (H4 t Ht') as [Hnt Hti].
    change (waitqs (swap_mark k')) with (waitqs k'). rewrite Ew, (pe_idle _ _ _ Hp).
    rewrite priq_add_elem. split; [|done]. intros [->|]; [congruence|done].
  - intros u [->|Hu]%elem_of_cons.
    + left. unfold swap_mark. rewrite <-(pe_cur _ _ _ Hp) at 1. simpl fst.
      rewrite threads_upd_thread, decide_True by done. simpl.
      rewrite (pe_cur _ _ _ Hp). apply (pe_pended _ _ _ Hp).
    + assert (u <> current k) by (by intros ->). unfold waiting. simpl fst. rewrite Ht by done.
      destruct (pe_other _ _ _ Hp u) as [st ->]; [done|]. by apply HW.
Qed.

Lemma mark_waiters W k m :
  with_waiters W (k, m) -> with_waiters (current k :: W) (swap_mark k, m).
Proof.
  intros [[H1 H2 H3 H4] HW]. split; [by split|]. intros u [->|Hu]%elem_of_cons.
  - right; left. unfold swap_mark. simpl fst. by rewrite threads_upd_thread, decide_True.
  - destruct (decide (u = current k)) as [->|Hne].
    + right; left. unfold swap_mark. simpl fst. by rewrite threads_upd_thread, decide_True.
    + unfold waiting, swap_mark. simpl fst. rewrite threads_upd_thread, decide_False by done. by apply HW.
Qed.

Lemma waiters_drop u W s : with_waiters (u :: W) s -> with_waiters W s.
Proof. intros [H1 H2]. split; [done|]. intros v Hv. apply H2. by right. Qed.

(** What an operation of the current thread leaves behind. *)
Definition left_with (W : list tid) (self : tid) (irq : bool) (s : kernel * k_mutex) : Prop :=
  krun s.1 /\ with_waiters W s /\ current s.1 = self /\ irq_locked s.1 = irq.

Lemma waiters_irq W b k m : with_waiters W (k, m) -> with_waiters W (k <| irq_locked := b |>, m).
Proof. intros [[H1 H2 H3 H4] H]. by split. Qed.

Lemma reschedule_waiters W key k m :
  krun k -> with_waiters W (k, m) ->
  runs (with_waiters (current k :: W)) (current k) (fun _ => left_with W (current k) (negb key))
    (z_reschedule key (k, m)).
Proof.
  intros Hk HW. apply (z_reschedule_runs_steady _ (with_waiters W)); try done.
  - apply with_waiters_steady.
  - intros b x y. apply waiters_irq.
  - by apply mark_waiters.
  - intros x y Hx _ _. by eapply waiters_drop.
Qed.

Lemma unlock_left W key k m :
  krun k -> with_waiters W (k, m) ->
  left_with W (current k) (negb key) (k <| irq_locked := negb key |>, m).
Proof. intros. split_and!; [by apply krun_irq|by apply waiters_irq|done|done]. Qed.

Lemma timed_out_runs W resched k m :
  krun k -> with_waiters W (k, m) -> current k ∉ W ->
  runs (with_waiters (current k :: W)) (current k)
    (fun r s => r = - EAGAIN /\ left_with W (current k) (irq_locked k) s)
    (lock_timed_out resched (k, m)).
Proof.
  intros Hk HW Hni. unfold lock_timed_out. run_code.
  set (k0 := k <| irq_locked := true |>). set (key := negb (irq_locked k)).
  assert (Hend : forall b k' , krun k' -> with_waiters W (k', m) -> current k' = current k ->
    runs (with_waiters (current k :: W)) (current k)
      (fun r s => r = - EAGAIN /\ left_with W (current k) (irq_locked k) s)
      (obind ((if (b : bool) then z_reschedule key
               else fun s : kernel * k_mutex => Done tt (s.1 <| irq_locked := negb key |>, s.2)) (k', m))
             (fun _ s => Done (- EAGAIN) s))).
  { intros b k' Hk' HW' Hc. rewrite <-Hc. rewrite <-(negb_involutive (irq_locked k)). fold key.
    eapply runs_bind; [|intros a s Hs; exact (conj eq_refl Hs)].
    destruct b; [by apply reschedule_waiters|by apply unlock_left]. }
  assert (Hk0 : krun k0) by (by apply krun_irq).
  assert (HW0 : with_waiters W (k0, m)) by (by apply waiters_irq).
  destruct (owner m) as [o|] eqn:Ho; cbn [obind fst snd]; [|by apply Hend].
  set (p := match z_waitq_head (wait_q m) k0 with Some t => _ | None => _ end).
  destruct (adjust_spec p o k0 m) as (b & k' & -> & Hk' & Hq & _); [done|done| |].
  { by apply (inv_busy _ (proj1 HW0)). }
  cbn [obind fst snd]. apply Hend; [done|by eapply with_waiters_quiet|].
  by rewrite (cx_current _ _ (qu_ctx _ _ Hq)).
Qed.

(** The result of [k_mutex_lock] for its caller. *)
Definition lock_result (W : list tid) (self : tid) (irq : bool) (tm r : Z) (s : kernel * k_mutex) : Prop :=
  left_with W self irq s
  /\ (r = 0 \/ r = - EBUSY \/ r = - EAGAIN)
  /\ (r = 0 -> owner s.2 = Some self /\ 0 < lock_count s.2)
  /\ (r = - EBUSY -> tm = K_NO_WAIT).

Lemma owned_count k m t : inv (k, m) -> owner m = Some t -> 0 < lock_count m.
Proof.
  intros [H1 H2 _ _] Ho. simpl in *. destruct (decide (lock_count m = 0)) as [E|]; [|lia].
  apply H2 in E. congruence.
Qed.

(** The mutex is free, or owned by the caller. *)
Lemma lock_take W k m p :
  with_waiters W (k, m) -> current k ∉ W -> current k <> idle_thread k ->
  owner m = None \/ owner m = Some (current k) /\ lock_count m < UINT32_MAX ->
  u32 (lock_count m + 1) = lock_count m + 1
  /\ with_waiters W (k, m <| owner_orig_prio := p |> <| lock_count := lock_count m + 1 |>
                           <| owner := Some (current k) |>).
Proof.
  intros [[H1 H2 H3 H4] HW] Hni Hi Ho. simpl in *.
  assert (Hmax : lock_count m + 1 <= UINT32_MAX).
  { destruct Ho as [Ho|[_ Ho]]; [apply H2 in Ho; unfold UINT32_MAX; lia|lia]. }
  split; [apply uwrap_small; change (2 ^ 32) with (UINT32_MAX + 1); lia|]. split.
  - split; simpl; [lia|split; [lia|done]|done|]. intros t [= <-]. split; [|done].
    destruct Ho as [Ho|[Ho _]]; [|by apply H4]. rewrite (H3 Ho). apply not_elem_of_nil.
  - intros u Hu. destruct (HW u Hu) as [?|[?|[? ?]]]; [by left|by right; left|].
    simpl in *. destruct Ho as [Ho|[Ho _]]; [congruence|]. exfalso. apply Hni. congruence.
Qed.

(** The wait for the owner. *)
Lemma lock_pend_runs W tm key b o k m :
  krun k -> with_waiters W (k, m) -> current k ∉ W -> current k <> idle_thread k ->
  owner m = Some o -> o <> current k ->
  runs (with_waiters (current k :: W)) (current k) (lock_result W (current k) (negb key) tm)
    (obind (z_pend_curr key (wait_q m) tm (k, m))
       (fun g => if g =? 0 then fun s => Done 0 s else lock_timed_out b)).
Proof.
  intros Hk HW Hni Hi Ho Hne. eapply runs_bind.
  - apply z_pend_curr_runs_steady; [apply with_waiters_steady|done|done|].
    intros k' Hp. by apply (pend_waiters W k k' m o).
  - intros r [k2 m2] (R1 & R2 & R3 & R4 & R5). cbn [fst snd] in *.
    assert (Hr : r = - EAGAIN \/ r = 0 /\ owner m2 = Some (current k)).
    { destruct (proj2 R2 (current k) ltac:(by left)) as [Hp|[Hp|[Hp Ho2]]]; simpl in *.
      - rewrite <-R3 in Hp. rewrite (kc_pended _ (kwf_cur _ (kru_wf _ R1))) in Hp. done.
      - left. congruence.
      - right. split; congruence. }
    destruct Hr as [->|[-> Ho2]]; simpl.
    + rewrite <-R3, <-R4. rewrite <-R3 in R2, Hni. eapply runs_mono;
        [|apply timed_out_runs; [done|by eapply waiters_drop|done]].
      intros r s [-> Hs]. split_and!; [done|by right; right|done|done].
    + split_and!; try done; [unfold left_with; split_and!; try done; by eapply waiters_drop|by left|].
      intros _. split; [done|]. by apply (owned_count k2 m2 (current k)); [apply R2|].
Qed.

Lemma lock_runs W tm k m :
  krun k -> with_waiters W (k, m) -> current k ∉ W -> current k <> idle_thread k ->
  (owner m = Some (current k) -> lock_count m < UINT32_MAX) ->
  runs (with_waiters (current k :: W)) (current k) (lock_result W (current k) (irq_locked k) tm)
    (z_impl_k_mutex_lock tm (k, m)).
Proof.
  intros Hk HW Hni Hi Hov. pose proof (proj1 HW) as [H1 H2 H3 H4]. simpl in *.
  unfold z_impl_k_mutex_lock. run_code.
  assert (Hid : k <| irq_locked := true |> <| irq_locked := negb (negb (irq_locked k)) |> = k)
    by (rewrite negb_involutive; by destruct k).
  set (k0 := k <| irq_locked := true |>) in *. change (current k0) with (current k).
  destruct ((lock_count m =? 0) || _) eqn:E1; cbn [obind fst snd].
  { rewrite Hid. set (p := if lock_count m =? 0 then _ else _).
    destruct (lock_take W k m p) as [Hlc Ht]; try done.
    { apply orb_true_iff in E1 as [E1|E1%bool_decide_eq_true]; [left; apply H2; lia|auto]. }
    cbn [runs]. unfold upd, set_lock_count, set_owner, set_owner_orig_prio in *. simpl in *. rewrite Hlc.
    split_and!; try done; [by left|]. intros _. split; [done|]. simpl. lia. }
  apply orb_false_iff in E1 as [E1 E2]. apply bool_decide_eq_false in E2.
  destruct (tm =? K_NO_WAIT) eqn:E3; cbn [obind fst snd].
  { rewrite Hid. cbn [runs]. unfold lock_result, left_with.
    split_and!; try done; [by right; left|intros _; by apply Z.eqb_eq]. }
  destruct (owner m) as [o|] eqn:Ho; [|exfalso; rewrite (proj2 H2 eq_refl) in E1; done].
  assert (Hk0 : krun k0) by (by apply krun_irq).
  assert (HW0 : with_waiters W (k0, m)) by (by apply waiters_irq).
  assert (Hne : o <> current k) by congruence.
  cbn [obind fst snd]. set (np := new_prio_for_inheritance _ _).
  assert (Ekey : irq_locked k = negb (negb (irq_locked k))) by (by rewrite negb_involutive).
  set (key := negb (irq_locked k)) in *. rewrite Ekey.
  destruct (z_is_prio_higher np (prio (threads k0 o))).
  - destruct (adjust_spec np o k0 m) as (b & k1 & -> & Hk1 & Hq & _); [done|done|by apply H4|].
    cbn [obind fst snd]. destruct (qu_ctx _ _ Hq) as [C1 C2 _ _].
    change (current k0) with (current k) in C1. rewrite <-C1 in *.
    apply (lock_pend_runs W tm key b o k1 m); try done.
    + by eapply with_waiters_quiet.
    + by rewrite C2.
  - by apply (lock_pend_runs W tm key false o k0 m).
Qed.

(** ** Unlocking *)

(** The state in which the mutex has been passed to its first waiter. *)
Record handed (W : list tid) (t : tid) (k : kernel) (m : k_mutex) (k' : kernel) (m' : k_mutex) : Prop := {
  hd_run : krun k';
  hd_waiters : with_waiters W (k', m');
  hd_ctx : kctx k k';
  hd_owner : owner m' = Some t;
  hd_wait_q : wait_q m' = wait_q m;
  hd_count : lock_count m' = lock_count m;
  hd_orig : owner_orig_prio m' = prio (threads k' t);
  hd_queue : waitqs k (wait_q m) = t :: waitqs k' (wait_q m);
  hd_pended : pended_on (threads k' t) = None;
  hd_retval : swap_retval (threads k' t) = 0;
  hd_prio u : prio (threads k' u)
              = if decide (u = current k) then owner_orig_prio m else prio (threads k u)
}.

Lemma handover W k m t r k1 k2 :
  krun k -> with_waiters W (k, m) -> current k ∉ W -> owner m = Some (current k) ->
  waitqs k (wait_q m) = t :: r ->
  krun k1 -> quiet k k1 ->
  (forall u, prio (threads k1 u) = if decide (u = current k) then owner_orig_prio m else prio (threads k u)) ->
  z_unpend_first_thread (wait_q m) k1 = (Some t, k2) ->
  handed W t k m (z_ready_thread t (arch_thread_return_value_set t 0 k2))
    (m <| owner := Some t |> <| owner_orig_prio := prio (threads k2 t) |>).
Proof.
  intros Hk [[I1 I2 I3 I4] HW] Hni Ho Ew Hk1 Hq Hp Eu. simpl in *.
  pose proof (wake_first _ _ _ _ 0 (fun x => x <| swap_retval := 0 |>) (kru_wf _ Hk1) Eu) as Hw.
  specialize (Hw ltac:(done) ltac:(done)). unfold arch_thread_return_value_set.
  assert (Hp2 : prio (threads k2 t) = prio (threads k1 t)).
  { destruct (z_unpend_first_thread_some _ _ _ _ (kru_wf _ Hk1) Eu)
      as (? & _ & _ & _ & _ & _ & _ & _ & _ & _ & -> & _). done. }
  set (k3 := z_ready_thread t _) in *. destruct Hw as [W1 W2 W3 W4 W5 W6 W7 W8 W9 W10 W11 W12 W13 W14].
  assert (Eq : waitqs k (wait_q m) = t :: waitqs k3 (wait_q m)) by (rewrite <-(qu_waitqs _ _ Hq); done).
  assert (Hnd : t ∉ waitqs k3 (wait_q m)).
  { pose proof (kb_wq_nodup _ (kwf_base _ (kru_wf _ Hk)) (wait_q m)) as Hn. rewrite Eq in Hn.
    by apply NoDup_cons in Hn as [? _]. }
  assert (C : kctx k k3).
  { destruct (qu_ctx _ _ Hq) as [A1 A2 A3 A4]. split; congruence. }
  split; try done.
  - by eapply woken_run; [split|].
  - split.
    + split; simpl; [done| |done|].
      * split; [|done]. intros E%I2. congruence.
      * intros t' [= <-]. split; [done|]. rewrite (cx_idle _ _ C).
        apply pended_not_idle; [apply Hk|]. rewrite (proj1 (kb_wq _ (kwf_base _ (kru_wf _ Hk)) t (wait_q m)));
          [done|]. rewrite Ew. by left.
    + intros u Hu. unfold waiting. simpl. destruct (decide (u = t)) as [->|Hne]; [by right; right|].
      rewrite W13 by done. rewrite (qu_pended _ _ Hq), (qu_retval _ _ Hq).
      destruct (HW u Hu) as [?|[?|[? ?]]]; [by left|by right; left|]. exfalso. apply Hni. simpl in *. congruence.
  - simpl. by rewrite W11.
  - intros u. by rewrite W11.
Qed.

Lemma unlock_free W k m k1 :
  with_waiters W (k, m) -> current k ∉ W -> owner m = Some (current k) ->
  waitqs k (wait_q m) = [] -> quiet k k1 ->
  with_waiters W (k1, m <| owner := None |> <| lock_count := 0 |>).
Proof.
  intros HW Hni Ho Ew Hq. destruct (with_waiters_quiet _ _ _ _ Hq HW) as [[I1 I2 I3 I4] HW1]. split.
  - split; simpl; [unfold UINT32_MAX; lia|done| |done]. intros _. by rewrite (qu_waitqs _ _ Hq).
  - intros u Hu. destruct (HW1 u Hu) as [?|[?|[? ?]]]; [by left|by right; left|].
    exfalso. apply Hni. simpl in *. congruence.
Qed.

Lemma unlock_handover W k m t r :
  krun k -> with_waiters W (k, m) -> current k ∉ W -> owner m = Some (current k) ->
  lock_count m = 1 -> waitqs k (wait_q m) = t :: r ->
  exists k' m', handed W t (k <| irq_locked := true |>) m k' m'
    /\ z_impl_k_mutex_unlock (k, m)
       = obind (z_reschedule (negb (irq_locked k)) (k', m')) (fun _ => ret 0).
Proof.
  intros Hk HW Hni Ho Hc Ew. unfold z_impl_k_mutex_unlock. run_code. rewrite Ho.
  rewrite (bool_decide_eq_true_2 (current k = current k)) by done. cbn [negb].
  replace (lock_count m >? 1) with false by lia. cbn [obind fst snd]. set (k0 := k <| irq_locked := true |>).
  assert (Hk0 : krun k0) by (by apply krun_irq).
  destruct (adjust_spec (owner_orig_prio m) (current k) k0 m) as (b & k1 & -> & Hk1 & Hq & Hp);
    [done|done|by apply (inv_busy _ (proj1 HW))|].
  cbn [obind fst snd]. destruct (z_unpend_first_thread (wait_q m) k1) as [o k2] eqn:Eu.
  assert (Ew1 : waitqs k1 (wait_q m) = t :: r) by (rewrite (qu_waitqs _ _ Hq); done).
  assert (o = Some t) as ->.
  { unfold z_unpend_first_thread, z_priq_dumb_best in Eu. rewrite Ew1 in Eu. by simplify_eq/=. }
  cbn [obind fst snd]. eexists _, _. split; [|reflexivity].
  eapply (handover W k0); try done. by apply waiters_irq.
Qed.

Lemma unlock_last W k m :
  krun k -> with_waiters W (k, m) -> current k ∉ W -> owner m = Some (current k) ->
  lock_count m = 1 -> waitqs k (wait_q m) = [] ->
  exists k' m', left_with W (current k) (irq_locked k) (k', m')
    /\ z_impl_k_mutex_unlock (k, m) = Done 0 (k', m')
    /\ owner m' = None /\ lock_count m' = 0 /\ wait_q m' = wait_q m
    /\ idle_thread k' = idle_thread k.
Proof.
  intros Hk HW Hni Ho Hc Ew. unfold z_impl_k_mutex_unlock. run_code. rewrite Ho.
  rewrite (bool_decide_eq_true_2 (current k = current k)) by done. cbn [negb].
  replace (lock_count m >? 1) with false by lia. cbn [obind fst snd].
  set (k0 := k <| irq_locked := true |>). assert (Hk0 : krun k0) by (by apply krun_irq).
  destruct (adjust_spec (owner_orig_prio m) (current k) k0 m) as (b & k1 & -> & Hk1 & Hq & Hp);
    [done|done|by apply (inv_busy _ (proj1 HW))|].
  cbn [obind fst snd]. unfold z_unpend_first_thread, z_priq_dumb_best.
  rewrite (qu_waitqs _ _ Hq). change (waitqs k0 (wait_q m)) with (waitqs k (wait_q m)). rewrite Ew.
  cbn [head obind fst snd]. destruct (qu_ctx _ _ Hq) as [C1 C2 C3 C4].
  eexists _, _. split; [|split; [reflexivity|by split_and!]]. unfold left_with. split_and!; try done.
  - by apply krun_irq.
  - apply waiters_irq. eapply unlock_free; [by apply waiters_irq|done|done|done|exact Hq].
  - simpl. apply negb_involutive.
Qed.

Lemma unlock_runs W k m :
  krun k -> with_waiters W (k, m) -> current k ∉ W ->
  runs (with_waiters (current k :: W)) (current k)
    (fun r s => left_with W (current k) (irq_locked k) s
       /\ (r = - EINVAL <-> owner m = None)
       /\ (r = - EPERM <-> exists o, owner m = Some o /\ o <> current k)
       /\ (r = 0 <-> owner m = Some (current k))
       /\ (r <> 0 -> s = (k, m)))
    (z_impl_k_mutex_unlock (k, m)).
Proof.
  intros Hk HW Hni. pose proof (proj1 HW) as [H1 H2 H3 H4]. simpl in *.
  destruct (owner m) as [o|] eqn:Ho.
  2: { unfold z_impl_k_mutex_unlock. run_code. rewrite Ho. cbn [obind fst snd runs]. unfold left_with.
       split_and!; try done. by split; [|intros (? & ? & ?)]. }
  destruct (decide (o = current k)) as [->|Hne].
  2: { unfold z_impl_k_mutex_unlock. run_code. rewrite Ho, bool_decide_eq_false_2 by done.
       cbn [negb obind fst snd runs]. unfold left_with. split_and!; try done; [by split; eauto|].
       split; [done|]. intros [=]. congruence. }
  assert (Hpost : forall s, left_with W (current k) (irq_locked k) s ->
    left_with W (current k) (irq_locked k) s
       /\ (0 = - EINVAL <-> Some (current k) = None)
       /\ (0 = - EPERM <-> exists o, Some (current k) = Some o /\ o <> current k)
       /\ (0 = 0 <-> Some (current k) = Some (current k))
       /\ (0 <> 0 -> s = (k, m))).
  { intros s Hs. split_and!; try done. split; [done|]. intros (? & [= <-] & ?). done. }
  destruct (decide (lock_count m = 1)) as [E1|E1].
  - destruct (waitqs k (wait_q m)) as [|t r] eqn:Ew.
    + destruct (unlock_last W k m) as (k' & m' & Hl & -> & _); try done. by apply Hpost.
    + destruct (unlock_handover W k m t r) as (k' & m' & Hh & ->); try done.
      eapply runs_bind; [|intros a s Hs; apply Hpost, Hs].
      assert (Ekey : irq_locked k = negb (negb (irq_locked k))) by (by rewrite negb_involutive).
      set (key := negb (irq_locked k)) in *. rewrite Ekey.
      replace (current k) with (current k') by apply (cx_current _ _ (hd_ctx _ _ _ _ _ _ Hh)).
      apply reschedule_waiters; apply Hh.
  - assert (Hc : (lock_count m >? 1) = true)
      by (pose proof (owned_count k m _ (proj1 HW) Ho); apply Z.gtb_lt; lia).
    unfold z_impl_k_mutex_unlock. run_code. rewrite Ho, bool_decide_eq_true_2 by done. cbn [negb].
    rewrite Hc. cbn [obind fst snd runs]. apply Hpost. split_and!; try done. split; [|apply HW].
    split; simpl; [lia|split; [lia|congruence]|congruence|]. rewrite Ho. apply H4.
Qed.

(** ** Properties *)

(** C5: [k_mutex_lock] gives mutual exclusion: for any set [W] of other
    threads waiting for the mutex, it keeps the mutex and scheduler invariants
    at every point where the CPU changes hands, it returns 0 only with the
    caller as the owner, -EBUSY only for K_NO_WAIT and -EAGAIN otherwise, and
    no thread of [W] that was given the mutex loses it. *)
Theorem k_mutex_lock_excludes W tm k m :
  krun k -> with_waiters W (k, m) -> current k ∉ W -> current k <> idle_thread k ->
  (owner m = Some (current k) -> lock_count m < UINT32_MAX) ->
  runs (with_waiters (current k :: W)) (current k) (lock_result W (current k) (irq_locked k) tm)
    (z_impl_k_mutex_lock tm (k, m)).
Proof. apply lock_runs. Qed.

Definition demo_mutex : k_mutex := mk_mutex 7 (Some 1%positive) 1 0.
Definition free_mutex : k_mutex := mk_mutex 8 None 0 0.

Lemma k_mutex_lock_excludes_witness :
  runs (with_waiters [1%positive]) 1 (lock_result [] 1 false K_FOREVER)
    (z_impl_k_mutex_lock K_FOREVER (demo false, free_mutex)).
Proof.
  apply (k_mutex_lock_excludes [] K_FOREVER (demo false) free_mutex); try done.
  - exact demo_run.
  - split; [|by intros u Hu%elem_of_nil]. by split.
  - apply not_elem_of_nil.
Defined.

(** [k_mutex_unlock] returns -EINVAL for a free mutex and -EPERM for one
    the caller does not own, changing nothing, and 0 otherwise; in every case
    the mutex and scheduler invariants and the promise to the waiting threads
    [W] are kept. *)
Theorem k_mutex_unlock_safe W k m :
  krun k -> with_waiters W (k, m) -> current k ∉ W ->
  runs (with_waiters (current k :: W)) (current k)
    (fun r s => left_with W (current k) (irq_locked k) s
       /\ (r = - EINVAL <-> owner m = None)
       /\ (r = - EPERM <-> exists o, owner m = Some o /\ o <> current k)
       /\ (r = 0 <-> owner m = Some (current k))
       /\ (r <> 0 -> s = (k, m)))
    (z_impl_k_mutex_unlock (k, m)).
Proof. apply unlock_runs. Qed.

Lemma demo_mutex_waiters : with_waiters [] (demo false, demo_mutex).
Proof.
  split; [|by intros u Hu%elem_of_nil]. split; simpl; [unfold UINT32_MAX; lia|done|done|].
  intros t [= <-]. split; [|done]. by intros ?%list_elem_of_singleton.
Qed.

Lemma k_mutex_unlock_safe_witness :
  runs (with_waiters [1%positive]) 1
    (fun r s => left_with [] 1 false s
       /\ (r = - EINVAL <-> owner demo_mutex = None)
       /\ (r = - EPERM <-> exists o, owner demo_mutex = Some o /\ o <> 1%positive)
       /\ (r = 0 <-> owner demo_mutex = Some 1%positive)
       /\ (r <> 0 -> s = (demo false, demo_mutex)))
    (z_impl_k_mutex_unlock (demo false, demo_mutex)).
Proof.
  apply (k_mutex_unlock_safe [] (demo false) demo_mutex).
  - exact demo_run.
  - exact demo_mutex_waiters.
  - apply not_elem_of_nil.
Defined.

(** unlocking for the last time hands the mutex to the first waiter: the
    caller's priority goes back to what it was before inheritance, the waiter
    leaves the wait queue as the owner with return value 0, and the call ends
    with a rescheduling point. *)
Theorem k_mutex_unlock_handover W k m t r :
  krun k -> with_waiters W (k, m) -> current k ∉ W -> owner m = Some (current k) ->
  lock_count m = 1 -> waitqs k (wait_q m) = t :: r ->
  exists k' m', handed W t (k <| irq_locked := true |>) m k' m'
    /\ z_impl_k_mutex_unlock (k, m)
       = obind (z_reschedule (negb (irq_locked k)) (k', m')) (fun _ => ret 0).
Proof. apply unlock_handover. Qed.

Lemma k_mutex_unlock_handover_witness :
  exists k' m', owner m' = Some 2%positive /\ swap_retval (threads k' 2) = 0
    /\ z_impl_k_mutex_unlock (demo false, demo_mutex)
       = obind (z_reschedule true (k', m')) (fun _ => ret 0).
Proof.
  destruct (k_mutex_unlock_handover [] (demo false) demo_mutex 2 []) as (k' & m' & Hh & E).
  - exact demo_run.
  - exact demo_mutex_waiters.
  - apply not_elem_of_nil.
  - reflexivity.
  - reflexivity.
  - reflexivity.
  - exists k', m'. split; [apply Hh|]. split; [apply Hh|exact E].
Defined.

(** priority inheritance: a caller that has to wait does so only after
    the owner runs with at least the caller's priority (limited by
    CONFIG_PRIORITY_CEILING); the owner is never made less urgent, and no
    other thread's priority changes. *)
Theorem k_mutex_lock_inherits tm k m o :
  krun k -> inv (k, m) -> owner m = Some o -> o <> current k -> tm <> K_NO_WAIT ->
  exists k' b,
    z_impl_k_mutex_lock tm (k, m)
    = obind (z_pend_curr (negb (irq_locked k)) (wait_q m) tm (k', m))
        (fun g => if g =? 0 then ret 0 else lock_timed_out b)
    /\ krun k'
    /\ prio (threads k' o) <= Z.max (prio (threads k (current k))) CONFIG_PRIORITY_CEILING
    /\ prio (threads k' o) <= prio (threads k o)
    /\ forall u, u <> o -> prio (threads k' u) = prio (threads k u).
Proof.
  intros Hk Hinv Ho Hne Htm. unfold z_impl_k_mutex_lock. run_code.
  set (k0 := k <| irq_locked := true |>). assert (Hk0 : krun k0) by (by apply krun_irq).
  change (current k0) with (current k).
  replace (lock_count m =? 0) with false by (pose proof (owned_count k m o Hinv Ho); lia).
  rewrite bool_decide_eq_false_2 by congruence. replace (tm =? K_NO_WAIT) with false by lia.
  rewrite Ho. cbn [orb obind fst snd]. change (threads k0) with (threads k).
  set (np := new_prio_for_inheritance _ _).
  assert (Hnp : np = Z.max (Z.min (prio (threads k (current k))) (prio (threads k o)))
                       CONFIG_PRIORITY_CEILING).
  { unfold np, new_prio_for_inheritance, z_get_new_prio_with_ceiling, z_is_under_prio_ceiling,
      z_is_prio_higher. repeat case_match; lia. }
  unfold z_is_prio_higher. destruct (np <? prio (threads k o)) eqn:E.
  - destruct (adjust_spec np o k0 m) as (b & k1 & -> & Hk1 & Hq & Hp); [done|done|by apply (inv_busy _ Hinv)|].
    exists k1, b. cbn [obind fst snd]. split_and!; try done.
    + rewrite Hp, decide_True by done. lia.
    + rewrite Hp, decide_True by done. lia.
    + intros u Hu. by rewrite Hp, decide_False.
  - exists k0, false. cbn [obind fst snd]. change (threads k0) with (threads k). split_and!; try done; lia.
Qed.

Lemma k_mutex_lock_inherits_witness :
  exists k' b,
    z_impl_k_mutex_lock K_FOREVER (pair 0 4, mk_mutex 7 (Some 2%positive) 1 4)
    = obind (z_pend_curr true 7 K_FOREVER (k', mk_mutex 7 (Some 2%positive) 1 4))
        (fun g => if g =? 0 then ret 0 else lock_timed_out b)
    /\ prio (threads k' 2) <= 0.
Proof.
  destruct (k_mutex_lock_inherits K_FOREVER (pair 0 4) (mk_mutex 7 (Some 2%positive) 1 4) 2)
    as (k' & b & E & _ & H & _).
  - apply pair_run. lia.
  - split; simpl; [unfold UINT32_MAX; lia|done|done|]. intros t [= <-]. split; [apply not_elem_of_nil|done].
  - reflexivity.
  - discriminate.
  - discriminate.
  - exists k', b. split; [exact E|exact H].
Defined.

(** The mutex is not always handed to the most urgent waiter: when the
    priority of a waiting thread [b] is raised above that of the first waiter
    [c], the wait queue keeps its order, [c] becomes the owner, and the first
    remaining waiter is more urgent than the new owner. *)
Theorem k_mutex_unlock_ignores_raised_waiter k m b c p r :
  krun k -> with_waiters [] (k, m) -> owner m = Some (current k) -> lock_count m = 1 ->
  waitqs k (wait_q m) = c :: b :: r -> p < prio (threads k c) ->
  exists k' m',
    z_impl_k_mutex_unlock ((z_set_prio b p k).2, m)
      = obind (z_reschedule (negb (irq_locked k)) (k', m')) (fun _ => ret 0)
    /\ owner m' = Some c /\ head (waitqs k' (wait_q m)) = Some b
    /\ prio (threads k' b) < prio (threads k' c).
Proof.
  intros Hk HW Ho Hc Ew Hp. pose proof (kwf_base _ (kru_wf _ Hk)) as Hb.
  assert (Hin : forall x, x = c \/ x = b -> pended_on (threads k x) = Some (wait_q m)).
  { intros x Hx. apply (kb_wq _ Hb). rewrite Ew, !elem_of_cons. tauto. }
  assert (Hne : forall x, x = c \/ x = b -> x <> current k).
  { intros x Hx ->. specialize (Hin _ Hx). by rewrite (kc_pended _ (kwf_cur _ (kru_wf _ Hk))) in Hin. }
  assert (Hcb : c <> b).
  { pose proof (kb_wq_nodup _ Hb (wait_q m)) as Hn. rewrite Ew in Hn.
    apply NoDup_cons in Hn as [Hn _]. rewrite not_elem_of_cons in Hn. tauto. }
  assert (Hi : b <> idle_thread k) by (apply pended_not_idle; [done|rewrite Hin; auto]).
  pose proof (set_prio_quiet b p k (kru_wf _ Hk) Hi) as Hq.
  destruct (set_prio_wf b p k (kru_wf _ Hk) Hi) as [Hw1 C1].
  pose proof (set_prio_prio b p k) as Hpr. set (k1 := (z_set_prio b p k).2) in *. clearbody k1.
  destruct (unlock_handover [] k1 m c (b :: r)) as (k' & m' & Hh & E); try done.
  - by eapply quiet_run.
  - by eapply with_waiters_quiet.
  - apply not_elem_of_nil.
  - by rewrite (cx_current _ _ C1).
  - by rewrite (qu_waitqs _ _ Hq).
  - exists k', m'. rewrite (cx_irq _ _ C1) in E. split; [done|]. split; [apply Hh|].
    pose proof (hd_queue _ _ _ _ _ _ Hh) as Hqu. simpl in Hqu. rewrite (qu_waitqs _ _ Hq), Ew in Hqu.
    split; [by injection Hqu as <-|].
    rewrite !(hd_prio _ _ _ _ _ _ Hh). simpl. rewrite (cx_current _ _ C1).
    rewrite !decide_False by (apply Hne; auto). rewrite !Hpr, decide_True, decide_False by done. done.
Qed.

Lemma k_mutex_unlock_ignores_raised_waiter_witness :
  exists k' m',
    z_impl_k_mutex_unlock ((z_set_prio 3 1 two_waiters).2, demo_mutex)
      = obind (z_reschedule true (k', m')) (fun _ => ret 0)
    /\ owner m' = Some 2%positive /\ head (waitqs k' 7) = Some 3%positive
    /\ prio (threads k' 3) < prio (threads k' 2).
Proof.
  apply (k_mutex_unlock_ignores_raised_waiter two_waiters demo_mutex 3 2 1 []).
  - exact two_waiters_run.
  - split; [|by intros u Hu%elem_of_nil]. split; simpl; [unfold UINT32_MAX; lia|done|done|].
    intros t [= <-]. split; [|done]. rewrite !elem_of_cons, elem_of_nil. by intros [|[|]].
  - reflexivity.
  - reflexivity.
  - reflexivity.
  - simpl. lia.
Defined.

End Mutex.
