(* ===== verification/MsgQ.v ===== *)
(** Message queues (kernel/msg_q.c).

    The object is [struct k_msgq] with the memory its pointers address.  The
    abstraction [messages] reads the ring buffer as a list of messages, and
    the theorems say that the operations implement a bounded FIFO of
    messages: [put] appends, [get] removes the first, a waiting thread is
    served directly through the buffer its [swap_data] points to. *)
From S2P Require Import Prelude Mem Timeout Kernel Sched SchedInv SchedApi Demo.

Module MsgQ.

Record k_msgq := mk_msgq {
  wait_q : wqid;
  msg_size : Z;                    (* size_t *)
  max_msgs : Z;                    (* uint32_t *)
  buffer_start : Z;
  buffer_end : Z;
  read_ptr : Z;
  write_ptr : Z;
  used_msgs : Z;                   (* uint32_t *)
  flags : Z
}.

#[export] Instance set_read_ptr : Settable read_ptr := fun f q =>
  mk_msgq (wait_q q) (msg_size q) (max_msgs q) (buffer_start q) (buffer_end q)
    (f (read_ptr q)) (write_ptr q) (used_msgs q) (flags q).
#[export] Instance set_write_ptr : Settable write_ptr := fun f q =>
  mk_msgq (wait_q q) (msg_size q) (max_msgs q) (buffer_start q) (buffer_end q)
    (read_ptr q) (f (write_ptr q)) (used_msgs q) (flags q).
#[export] Instance set_used_msgs : Settable used_msgs := fun f q =>
  mk_msgq (wait_q q) (msg_size q) (max_msgs q) (buffer_start q) (buffer_end q)
    (read_ptr q) (write_ptr q) (f (used_msgs q)) (flags q).
#[export] Instance set_flags : Settable flags := fun f q =>
  mk_msgq (wait_q q) (msg_size q) (max_msgs q) (buffer_start q) (buffer_end q)
    (read_ptr q) (write_ptr q) (used_msgs q) (f (flags q)).

Definition K_MSGQ_FLAG_ALLOC : Z := BIT 0.

(** The queue and the memory. *)
Abbreviation St := (kernel * (k_msgq * mem))%type.

Definition qget {A} (f : k_msgq -> A) : M St A := oget (fun o => f o.1).
Definition qmod (f : k_msgq -> k_msgq) : M St unit := omod (fun o => (f o.1, o.2)).
Definition copy (dst src n : Z) : M St unit := omod (fun o => (o.1, memcpy dst src n o.2)).

Definition k_msgq_init (buffer size max : Z) : M St unit :=
  w <- qget wait_q ;;
  qmod (fun _ => mk_msgq w size max buffer (buffer + max * size) buffer buffer 0 0) ;;
  kmod (z_waitq_init w).

(** [z_thread_malloc] is an argument; SIZE_MAX is that of a 32 bit target. *)
Definition z_impl_k_msgq_alloc_init (z_thread_malloc : Z -> option Z) (size max : Z) : M St Z :=
  if size * max >? UINT32_MAX then ret (- EINVAL)
  else
    match z_thread_malloc (size * max) with
    | Some buffer =>
        k_msgq_init buffer size max ;;
        qmod (fun q => q <| flags := K_MSGQ_FLAG_ALLOC |>) ;;
        ret 0
    | None => ret (- ENOMEM)
    end.

Definition k_msgq_cleanup : M St Z :=
  w <- qget wait_q ;;
  waiter <- kget (z_waitq_head w) ;;
  match waiter with
  | Some _ => ret (- EBUSY)
  | None =>
      qmod (fun q => if flag_set (flags q) K_MSGQ_FLAG_ALLOC
                     then q <| flags ::= fun f => Z.land f (Z.lnot K_MSGQ_FLAG_ALLOC) |> else q) ;;
      ret 0
  end.

(** [write_ptr += msg_size] with the wrap at the end of the buffer, and the
    same for [read_ptr]. *)
Definition advance (p : Z) (q : k_msgq) : Z :=
  let p' := p + msg_size q in
  if p' =? buffer_end q then buffer_start q else p'.

Definition z_impl_k_msgq_put (data : Z) (timeout : Z) : M St Z :=
  key <- k_spin_lock ;;
  q <- qget (fun q => q) ;;
  if used_msgs q <? max_msgs q then
    pending_thread <- kcall (z_unpend_first_thread (wait_q q)) ;;
    match pending_thread with
    | Some t =>
        dst <- kget (fun k => swap_data (threads k t)) ;;
        copy dst data (msg_size q) ;;
        kmod (arch_thread_return_value_set t 0) ;;
        kmod (z_ready_thread t) ;;
        z_reschedule key ;;
        ret 0
    | None =>
        copy (write_ptr q) data (msg_size q) ;;
        qmod (fun q => q <| write_ptr := advance (write_ptr q) q |>
                         <| used_msgs ::= fun u => u + 1 |>) ;;
        k_spin_unlock key ;;
        ret 0
    end
  else if timeout =? K_NO_WAIT then
    k_spin_unlock key ;;
    ret (- ENOMSG)
  else
    kmod (fun k => upd_thread (current k) (fun t => t <| swap_data := data |>) k) ;;
    z_pend_curr key (wait_q q) timeout.

Record k_msgq_attrs := { at_msg_size : Z; at_max_msgs : Z; at_used_msgs : Z }.
Definition z_impl_k_msgq_get_attrs (q : k_msgq) : k_msgq_attrs :=
  {| at_msg_size := msg_size q; at_max_msgs := max_msgs q; at_used_msgs := used_msgs q |}.

Definition z_impl_k_msgq_get (data : Z) (timeout : Z) : M St Z :=
  key <- k_spin_lock ;;
  q <- qget (fun q => q) ;;
  if used_msgs q >? 0 then
    copy data (read_ptr q) (msg_size q) ;;
    qmod (fun q => q <| read_ptr := advance (read_ptr q) q |>
                     <| used_msgs ::= fun u => u - 1 |>) ;;
    pending_thread <- kcall (z_unpend_first_thread (wait_q q)) ;;
    match pending_thread with
    | Some t =>
        src <- kget (fun k => swap_data (threads k t)) ;;
        copy (write_ptr q) src (msg_size q) ;;
        qmod (fun q => q <| write_ptr := advance (write_ptr q) q |>
                         <| used_msgs ::= fun u => u + 1 |>) ;;
        kmod (arch_thread_return_value_set t 0) ;;
        kmod (z_ready_thread t) ;;
        z_reschedule key ;;
        ret 0
    | None =>
        k_spin_unlock key ;;
        ret 0
    end
  else if timeout =? K_NO_WAIT then
    k_spin_unlock key ;;
    ret (- ENOMSG)
  else
    kmod (fun k => upd_thread (current k) (fun t => t <| swap_data := data |>) k) ;;
    z_pend_curr key (wait_q q) timeout.

Definition z_impl_k_msgq_peek (data : Z) : M St Z :=
  key <- k_spin_lock ;;
  q <- qget (fun q => q) ;;
  if used_msgs q >? 0 then
    copy data (read_ptr q) (msg_size q) ;;
    k_spin_unlock key ;;
    ret 0
  else
    k_spin_unlock key ;;
    ret (- ENOMSG).

Definition z_impl_k_msgq_peek_at (data idx : Z) : M St Z :=
  key <- k_spin_lock ;;
  q <- qget (fun q => q) ;;
  if used_msgs q >? idx then
    let bytes_to_end := u32 (buffer_end q - read_ptr q) in
    let byte_offset := u32 (idx * msg_size q) in
    let '(start_addr, byte_offset) :=
      if bytes_to_end <=? byte_offset
      then (buffer_start q, u32 (byte_offset - bytes_to_end))
      else (read_ptr q, byte_offset) in
    copy data (start_addr + byte_offset) (msg_size q) ;;
    k_spin_unlock key ;;
    ret 0
  else
    k_spin_unlock key ;;
    ret (- ENOMSG).

Definition z_impl_k_msgq_purge : M St unit :=
  key <- k_spin_lock ;;
  w <- qget wait_q ;;
  _ <- kcall (fun k => unpend_first_loop
         (fun t k => z_ready_thread t (arch_thread_return_value_set t (- ENOMSG) k))
         (length (waitqs k w)) w 0 k) ;;
  qmod (fun q => q <| used_msgs := 0 |> <| read_ptr := write_ptr q |>) ;;
  z_reschedule key.

Definition z_impl_k_msgq_num_free_get (q : k_msgq) : Z := max_msgs q - used_msgs q.
Definition z_impl_k_msgq_num_used_get (q : k_msgq) : Z := used_msgs q.

(** ** The abstract queue *)

(** Slot number [i] of the ring, counted from [read_ptr]. *)
Definition read_index (q : k_msgq) : Z := (read_ptr q - buffer_start q) / msg_size q.
Definition slot (q : k_msgq) (i : Z) : Z :=
  buffer_start q + ((read_index q + i) mod max_msgs q) * msg_size q.

Definition messages (o : k_msgq * mem) : list (list Z) :=
  (fun i => bytes o.2 (slot o.1 i) (msg_size o.1)) <$> seqZ 0 (used_msgs o.1).

(** The representation invariant. *)
Record wf (q : k_msgq) : Prop := {
  wf_size : 0 < msg_size q;
  wf_max : 0 < max_msgs q;
  wf_fits : max_msgs q * msg_size q <= UINT32_MAX;
  wf_used : 0 <= used_msgs q <= max_msgs q;
  wf_end : buffer_end q = buffer_start q + max_msgs q * msg_size q;
  wf_read : exists r, 0 <= r < max_msgs q /\ read_ptr q = buffer_start q + r * msg_size q;
  wf_write : write_ptr q = slot q (used_msgs q)
}.

(** Threads wait only for an empty or for a full queue. *)
Record inv (s : St) : Prop := {
  inv_wf : wf s.2.1;
  inv_wait : waitqs s.1 (wait_q s.2.1) <> [] ->
             used_msgs s.2.1 = 0 \/ used_msgs s.2.1 = max_msgs s.2.1
}.

Lemma msgq_inv_stable : stable inv.
Proof. intros k k' o _ Hw _ [H1 H2]. split; [done|]. simpl in *. by rewrite Hw. Qed.

(** ** The ring *)

Lemma read_index_eq q r :
  0 < msg_size q -> read_ptr q = buffer_start q + r * msg_size q -> read_index q = r.
Proof.
  intros Hs Hr. unfold read_index. rewrite Hr.
  replace (buffer_start q + r * msg_size q - buffer_start q) with (r * msg_size q) by lia.
  apply Z.div_mul. lia.
Qed.

Lemma slot_range q i :
  wf q -> buffer_start q <= slot q i /\ slot q i + msg_size q <= buffer_end q.
Proof.
  intros Hw. destruct Hw. rewrite wf_end0. unfold slot.
  pose proof (Z.mod_pos_bound (read_index q + i) (max_msgs q) ltac:(done)). nia.
Qed.

Lemma slot_advance q i : wf q -> advance (slot q i) q = slot q (i + 1).
Proof.
  intros Hw. destruct Hw. unfold advance, slot. rewrite wf_end0.
  set (n := max_msgs q) in *. set (a := (read_index q + i) mod n).
  pose proof (Z.mod_pos_bound (read_index q + i) n ltac:(done)) as Ha. fold a in Ha.
  replace (read_index q + (i + 1)) with (read_index q + i + 1) by lia.
  rewrite <-Z.add_mod_idemp_l by lia. fold a. destruct (decide (a + 1 = n)) as [E|E].
  - rewrite E, Z.mod_same by lia. replace (_ =? _) with true by (symmetry; apply Z.eqb_eq; nia). lia.
  - rewrite Z.mod_small by lia. replace (_ =? _) with false by (symmetry; apply Z.eqb_neq; nia). lia.
Qed.

Lemma slot_read q : wf q -> read_ptr q = slot q 0.
Proof.
  intros Hw. destruct Hw. destruct wf_read0 as (r & Hr & E). unfold slot.
  rewrite (read_index_eq q r) by done. rewrite Z.add_0_r, Z.mod_small by done. done.
Qed.

Lemma slot_disjoint q i j :
  wf q -> i < j < i + max_msgs q ->
  disjoint_regions (slot q i) (msg_size q) (slot q j) (msg_size q).
Proof.
  intros Hw Hij. destruct Hw. unfold disjoint_regions, slot. set (n := max_msgs q) in *.
  set (a := (read_index q + i) mod n). set (b := (read_index q + j) mod n).
  assert (Hne : a <> b).
  { unfold a, b. intros E.
    assert (Hm : (j - i) mod n = 0).
    { replace (j - i) with (read_index q + j - (read_index q + i)) by lia.
      rewrite Zminus_mod, E, Z.sub_diag. apply Z.mod_0_l. lia. }
    rewrite Z.mod_small in Hm by lia. lia. }
  nia.
Qed.

(** [write_ptr] and [used_msgs] after a message was copied in. *)
Definition pushed (q : k_msgq) : k_msgq :=
  q <| write_ptr := advance (write_ptr q) q |> <| used_msgs ::= fun u => u + 1 |>.
(** [read_ptr] and [used_msgs] after a message was copied out. *)
Definition popped (q : k_msgq) : k_msgq :=
  q <| read_ptr := advance (read_ptr q) q |> <| used_msgs ::= fun u => u - 1 |>.

Lemma pushed_slot q i : slot (pushed q) i = slot q i.
Proof. done. Qed.

Lemma pushed_wf q : wf q -> used_msgs q < max_msgs q -> wf (pushed q).
Proof.
  intros Hw Hu. pose proof (slot_advance q (used_msgs q) Hw) as Ha. destruct Hw.
  split; try done; simpl; [lia|]. rewrite wf_write0, Ha. done.
Qed.

Lemma push_messages q m src :
  wf q -> used_msgs q < max_msgs q ->
  messages (pushed q, memcpy (write_ptr q) src (msg_size q) m)
  = messages (q, m) ++ [bytes m src (msg_size q)].
Proof.
  intros Hw Hu. unfold messages. simpl.
  pose proof (wf_used q Hw). rewrite seqZ_app by lia. rewrite fmap_app. f_equal.
  - apply list_fmap_ext. intros j x Hx. apply lookup_seqZ in Hx as [-> Hj].
    rewrite pushed_slot, (wf_write q Hw). apply bytes_memcpy_other.
    pose proof (slot_disjoint q (0 + Z.of_nat j) (used_msgs q) Hw ltac:(lia)) as Hd. unfold disjoint_regions in *. lia.
  - change (seqZ (0 + used_msgs q) 1) with [0 + used_msgs q]. cbn [fmap list_fmap].
    rewrite pushed_slot, Z.add_0_l, <-(wf_write q Hw). by rewrite bytes_memcpy.
Qed.

Lemma popped_index q : wf q -> read_index (popped q) = (read_index q + 1) mod max_msgs q.
Proof.
  intros Hw. unfold read_index at 1. simpl. rewrite (slot_read q Hw), (slot_advance q 0 Hw).
  unfold slot. replace (read_index q + (0 + 1)) with (read_index q + 1) by lia.
  set (x := (read_index q + 1) mod max_msgs q).
  replace (buffer_start q + x * msg_size q - buffer_start q) with (x * msg_size q) by lia.
  apply Z.div_mul. pose proof (wf_size q Hw). lia.
Qed.

Lemma popped_slot q i : wf q -> slot (popped q) i = slot q (i + 1).
Proof.
  intros Hw. unfold slot. rewrite popped_index by done. simpl.
  rewrite Z.add_mod_idemp_l by (pose proof (wf_max q Hw); lia).
  by replace (read_index q + 1 + i) with (read_index q + (i + 1)) by lia.
Qed.

Lemma msgq_popped_wf q : wf q -> 0 < used_msgs q -> wf (popped q).
Proof.
  intros Hw Hu. pose proof (popped_index q Hw) as Hi. pose proof (popped_slot q) as Hs.
  pose proof (slot_read q Hw) as Hr. pose proof (slot_advance q 0 Hw) as Ha.
  destruct Hw as [W1 W2 W3 W4 W5 W6 W7]. split; try done; simpl; [lia| |].
  - exists ((read_index q + 1) mod max_msgs q). split; [by apply Z.mod_pos_bound|].
    rewrite Hr, Ha. unfold slot. by replace (read_index q + (0 + 1)) with (read_index q + 1) by lia.
  - rewrite Hs by done. rewrite W7. f_equal. lia.
Qed.

(** The buffer of a caller does not overlap the ring. *)
Definition outside (q : k_msgq) (p : Z) : Prop :=
  disjoint_regions p (msg_size q) (buffer_start q) (max_msgs q * msg_size q).

Lemma outside_slot q p i : wf q -> outside q p -> disjoint_regions p (msg_size q) (slot q i) (msg_size q).
Proof.
  intros Hw Ho. pose proof (slot_range q i Hw) as Hr. rewrite (wf_end q Hw) in Hr.
  unfold outside, disjoint_regions in *. lia.
Qed.

Lemma outside_messages q m p src :
  wf q -> outside q p -> messages (q, memcpy p src (msg_size q) m) = messages (q, m).
Proof.
  intros Hw Ho. unfold messages. apply list_fmap_ext. intros j x _. simpl.
  by apply bytes_memcpy_other, outside_slot.
Qed.

Lemma pop_messages q m :
  wf q -> 0 < used_msgs q ->
  messages (q, m) = bytes m (read_ptr q) (msg_size q) :: messages (popped q, m).
Proof.
  intros Hw Hu. unfold messages. simpl. rewrite seqZ_cons by done. rewrite fmap_cons. f_equal.
  - by rewrite (slot_read q Hw).
  - replace (Z.succ 0) with (1 + 0) by lia. replace (Z.pred (used_msgs q)) with (used_msgs q - 1) by lia.
    rewrite <-(fmap_add_seqZ 1 0), <-list_fmap_compose. apply list_fmap_ext. intros j x _. simpl.
    rewrite popped_slot by done. by replace (1 + x) with (x + 1) by lia.
Qed.

Lemma messages_length o : 0 <= used_msgs o.1 -> Z.of_nat (length (messages o)) = used_msgs o.1.
Proof. intros H. unfold messages. rewrite length_fmap, length_seqZ. lia. Qed.

Lemma messages_nil q m : used_msgs q = 0 -> messages (q, m) = [].
Proof. intros H. unfold messages. simpl. by rewrite H. Qed.

(** ** What the operations do *)

Section Ops.
Context (k : kernel) (q : k_msgq) (m : mem).
Let key := negb (irq_locked k).
Let k0 := k <| irq_locked := true |>.
Let size := msg_size q.

Lemma unlocked_id : k0 <| irq_locked := negb key |> = k.
Proof. unfold k0, key. rewrite negb_involutive. by destruct k. Qed.

(** Which branch of [k_msgq_put] runs, and its result. *)
Inductive put_case (data tm : Z) : outcome St Z -> Prop :=
| put_queued :
    used_msgs q < max_msgs q -> waitqs k (wait_q q) = [] ->
    wf (pushed q) ->
    messages (pushed q, memcpy (write_ptr q) data size m) = messages (q, m) ++ [bytes m data size] ->
    put_case data tm (Done 0 (k, (pushed q, memcpy (write_ptr q) data size m)))
| put_handed t k' :
    used_msgs q = 0 -> woken (wait_q q) t 0 k0 k' ->
    bytes (memcpy (swap_data (threads k t)) data size m) (swap_data (threads k t)) size
      = bytes m data size ->
    put_case data tm
      (obind (z_reschedule key (k', (q, memcpy (swap_data (threads k t)) data size m))) (fun _ => ret 0))
| put_full :
    used_msgs q = max_msgs q -> tm = K_NO_WAIT -> put_case data tm (Done (- ENOMSG) (k, (q, m)))
| put_waits :
    used_msgs q = max_msgs q -> tm <> K_NO_WAIT ->
    put_case data tm
      (z_pend_curr key (wait_q q) tm
         (upd_thread (current k) (fun t => t <| swap_data := data |>) k0, (q, m))).

Lemma put_cases data tm :
  kwf k -> inv (k, (q, m)) -> put_case data tm (z_impl_k_msgq_put data tm (k, (q, m))).
Proof.
  intros Hk [Hw Hq]. simpl in *. unfold z_impl_k_msgq_put, qget, qmod, copy. run_code.
  assert (Hk0 : kwf k0) by (by apply kwf_irq). pose proof unlocked_id as Hid.
  change (k <| irq_locked := true |>) with k0. change (negb (irq_locked k)) with key.
  destruct (used_msgs q <? max_msgs q) eqn:Eu; cbn [obind fst snd].
  - destruct (z_unpend_first_thread (wait_q q) k0) as [[t|] k1] eqn:Et; cbn [obind fst snd].
    + pose proof (wake_first _ _ _ _ 0 (fun x => x <| swap_retval := 0 |>) Hk0 Et
        ltac:(done) ltac:(done)) as Hwo.
      assert (Ed : swap_data (threads k1 t) = swap_data (threads k t)).
      { destruct (z_unpend_first_thread_some _ _ _ _ Hk0 Et)
          as (? & _ & _ & _ & _ & _ & _ & _ & _ & _ & -> & _). done. }
      rewrite Ed. eapply put_handed; [|exact Hwo|apply bytes_memcpy].
      assert (Hne : waitqs k (wait_q q) <> []).
      { pose proof (wo_wq _ _ _ _ _ Hwo) as E. change (waitqs k0) with (waitqs k) in E. by rewrite E. }
      destruct (Hq Hne); [done|lia].
    + apply z_unpend_first_thread_none in Et as [-> Ew]. rewrite Hid.
      apply put_queued; [lia|done|apply pushed_wf; [done|lia]|apply push_messages; [done|lia]].
  - pose proof (wf_used q Hw). destruct (tm =? K_NO_WAIT) eqn:Etm; cbn [obind fst snd].
    + rewrite Hid. apply put_full; lia.
    + apply put_waits; lia.
Qed.

(** Which branch of [k_msgq_get] runs, and its result. *)
Inductive get_case (data tm : Z) : outcome St Z -> Prop :=
| get_taken x m' :
    waitqs k (wait_q q) = [] -> wf (popped q) ->
    messages (q, m) = x :: messages (popped q, m') -> bytes m' data size = x ->
    get_case data tm (Done 0 (k, (popped q, m')))
| get_refilled t k' x m1 m' :
    used_msgs q = max_msgs q -> woken (wait_q q) t 0 k0 k' -> wf (pushed (popped q)) ->
    m1 = memcpy data (read_ptr q) size m ->
    messages (q, m) = x :: messages (popped q, m1) -> bytes m1 data size = x ->
    messages (pushed (popped q), m')
      = messages (popped q, m1) ++ [bytes m1 (swap_data (threads k t)) size] ->
    get_case data tm
      (obind (z_reschedule key (k', (pushed (popped q), m'))) (fun _ => ret 0))
| get_empty :
    used_msgs q = 0 -> tm = K_NO_WAIT -> get_case data tm (Done (- ENOMSG) (k, (q, m)))
| get_waits :
    used_msgs q = 0 -> tm <> K_NO_WAIT ->
    get_case data tm
      (z_pend_curr key (wait_q q) tm
         (upd_thread (current k) (fun t => t <| swap_data := data |>) k0, (q, m))).

Lemma get_cases data tm :
  kwf k -> inv (k, (q, m)) -> outside q data ->
  get_case data tm (z_impl_k_msgq_get data tm (k, (q, m))).
Proof.
  intros Hk [Hw Hq] Hout. simpl in *. unfold z_impl_k_msgq_get, qget, qmod, copy. run_code.
  assert (Hk0 : kwf k0) by (by apply kwf_irq). pose proof unlocked_id as Hid.
  change (k <| irq_locked := true |>) with k0. change (negb (irq_locked k)) with key.
  pose proof (wf_used q Hw).
  destruct (used_msgs q >? 0) eqn:Eu; cbn [obind fst snd].
  - assert (0 < used_msgs q) by lia.
    set (m1 := memcpy data (read_ptr q) (msg_size q) m).
    assert (Em : messages (q, m) = bytes m1 data size :: messages (popped q, m1)).
    { rewrite pop_messages by done. unfold m1. rewrite bytes_memcpy. f_equal.
      symmetry. by apply (outside_messages (popped q)); [apply msgq_popped_wf|]. }
    fold (popped q).
    destruct (z_unpend_first_thread (wait_q q) k0) as [[t|] k1] eqn:Et; cbn [obind fst snd].
    + pose proof (wake_first _ _ _ _ 0 (fun x => x <| swap_retval := 0 |>) Hk0 Et
        ltac:(done) ltac:(done)) as Hwo.
      assert (Ed : swap_data (threads k1 t) = swap_data (threads k t)).
      { destruct (z_unpend_first_thread_some _ _ _ _ Hk0 Et)
          as (? & _ & _ & _ & _ & _ & _ & _ & _ & _ & -> & _). done. }
      assert (Hne : waitqs k (wait_q q) <> []).
      { pose proof (wo_wq _ _ _ _ _ Hwo) as E. change (waitqs k0) with (waitqs k) in E. by rewrite E. }
      rewrite Ed. fold (pushed (popped q)).
      destruct (Hq Hne) as [?|Hfull]; [lia|].
      assert (used_msgs (popped q) < max_msgs (popped q)) by (simpl; lia).
      pose proof (msgq_popped_wf q Hw ltac:(done)) as Hpw.
      eapply get_refilled; [done|exact Hwo|by apply pushed_wf|reflexivity|exact Em|done|].
      by apply (push_messages (popped q)).
    + apply z_unpend_first_thread_none in Et as [-> Ew]. rewrite Hid.
      eapply get_taken; [done|by apply msgq_popped_wf|exact Em|done].
  - destruct (tm =? K_NO_WAIT) eqn:Etm; cbn [obind fst snd].
    + rewrite Hid. apply get_empty; lia.
    + apply get_waits; lia.
Qed.
End Ops.

(** ** Safety *)

Lemma swap_data_run d k :
  krun k -> krun (upd_thread (current k) (fun t => t <| swap_data := d |>) k).
Proof. intros Hk. apply (krun_same k); [by apply upd_thread_same|done|done]. Qed.

Lemma pend_runs data tm k q m :
  krun k -> inv (k, (q, m)) -> current k <> idle_thread k ->
  used_msgs q = 0 \/ used_msgs q = max_msgs q ->
  runs inv (current k) (fun _ => returned inv (current k) (irq_locked k))
    (z_pend_curr (negb (irq_locked k)) (wait_q q) tm
       (upd_thread (current k) (fun t => t <| swap_data := data |>) (k <| irq_locked := true |>), (q, m))).
Proof.
  intros Hk HJ Hi Hu. restore_key.
  pose proof (swap_data_run data _ (krun_irq true _ Hk)) as Hk1.
  change (current (k <| irq_locked := true |>)) with (current k) in Hk1.
  set (k1 := upd_thread (current k) _ _) in *. change (current k) with (current k1).
  eapply runs_mono; [|apply z_pend_curr_runs; [apply msgq_inv_stable|done|done|]].
  - intros r s (R1 & R2 & R3 & R4 & _). by split_and!.
  - intros k' _. split; [apply HJ|done].
Qed.

Lemma resched_runs w t v k k' (o : k_msgq * mem) :
  krun k -> woken w t v (k <| irq_locked := true |>) k' -> inv (k', o) ->
  runs inv (current k) (fun _ => returned inv (current k) (irq_locked k))
    (obind (z_reschedule (negb (irq_locked k)) (k', o)) (fun _ => ret 0)).
Proof.
  intros Hk Hw HJ. restore_key. eapply runs_bind; [|by intros a s Hs; exact Hs].
  replace (current k) with (current k') by apply (wo_cur _ _ _ _ _ Hw).
  apply z_reschedule_runs; [apply msgq_inv_stable|eapply woken_run; [done|by apply krun_irq]|done].
Qed.

Lemma put_runs data tm k q m :
  krun k -> inv (k, (q, m)) -> current k <> idle_thread k ->
  runs inv (current k) (fun _ => returned inv (current k) (irq_locked k))
    (z_impl_k_msgq_put data tm (k, (q, m))).
Proof.
  intros Hk HJ Hi. destruct (put_cases k q m data tm (kru_wf _ Hk) HJ) as [Hu Ew Hw Hm|t k' Hu Hwo Hb|Hu Ht|Hu Ht].
  - split; [apply Hk|]. split; [|done]. split; [done|]. simpl. by rewrite Ew.
  - eapply resched_runs; [done|exact Hwo|]. split; [apply HJ|auto].
  - by split_and!.
  - by apply pend_runs; [| | |right].
Qed.

Lemma msgq_get_runs data tm k q m :
  krun k -> inv (k, (q, m)) -> current k <> idle_thread k -> outside q data ->
  runs inv (current k) (fun _ => returned inv (current k) (irq_locked k))
    (z_impl_k_msgq_get data tm (k, (q, m))).
Proof.
  intros Hk HJ Hi Ho. destruct (get_cases k q m data tm (kru_wf _ Hk) HJ Ho)
    as [x m' Ew Hw Hm Hb|t k' x m1 m' Hu Hwo Hw _ Hm Hb Hm'|Hu Ht|Hu Ht].
  - split; [apply Hk|]. split; [|done]. split; [done|]. simpl. by rewrite Ew.
  - eapply resched_runs; [done|exact Hwo|]. split; [done|]. intros _. right. simpl. lia.
  - by split_and!.
  - by apply pend_runs; [| | |left].
Qed.

Lemma purged_wf q : wf q -> wf (q <| used_msgs := 0 |> <| read_ptr := write_ptr q |>).
Proof.
  intros Hw. pose proof (Z.mod_pos_bound (read_index q + used_msgs q) (max_msgs q) (wf_max q Hw)) as Hb.
  destruct Hw as [W1 W2 W3 W4 W5 W6 W7]. set (q' := q <| used_msgs := 0 |> <| read_ptr := write_ptr q |>).
  assert (Hr : read_ptr q' = buffer_start q + ((read_index q + used_msgs q) mod max_msgs q) * msg_size q)
    by (simpl; rewrite W7; done).
  split; try done; simpl; [lia|by eexists; split; [|exact Hr]|].
  unfold slot. simpl. rewrite (read_index_eq q' _ W1 Hr). simpl. rewrite Z.add_0_r, Z.mod_mod by lia.
  rewrite W7. done.
Qed.

Lemma purge_eq k q m :
  kwf k ->
  exists k', all_woken (wait_q q) (- ENOMSG) (k <| irq_locked := true |>) k'
    /\ z_impl_k_msgq_purge (k, (q, m))
       = z_reschedule (negb (irq_locked k))
           (k', (q <| used_msgs := 0 |> <| read_ptr := write_ptr q |>, m)).
Proof.
  intros Hk. unfold z_impl_k_msgq_purge, qget, qmod. run_code.
  set (k0 := k <| irq_locked := true |>).
  destruct (unpend_first_loop_spec (fun x => x <| swap_retval := - ENOMSG |>) (- ENOMSG)
              (wait_q q) 0 (length (waitqs k0 (wait_q q))) k0) as (k' & E & Hw);
    [by apply kwf_irq|done|done|done|].
  unfold arch_thread_return_value_set. rewrite E. cbn [obind fst snd]. by exists k'.
Qed.

Lemma purge_runs k q m :
  krun k -> inv (k, (q, m)) ->
  runs inv (current k) (fun _ => returned inv (current k) (irq_locked k))
    (z_impl_k_msgq_purge (k, (q, m))).
Proof.
  intros Hk HJ. destruct (purge_eq k q m (kru_wf _ Hk)) as (k' & Hw & ->). restore_key.
  replace (current k) with (current k') by apply (aw_cur _ _ _ _ Hw).
  apply z_reschedule_runs; [apply msgq_inv_stable|eapply all_woken_run; [done|by apply krun_irq]|].
  split; [apply purged_wf, HJ|by left].
Qed.

(** ** Peeking *)

(** The address computed by [k_msgq_peek_at]. *)
Definition peek_addr (q : k_msgq) (idx : Z) : Z :=
  let bytes_to_end := u32 (buffer_end q - read_ptr q) in
  let byte_offset := u32 (idx * msg_size q) in
  if bytes_to_end <=? byte_offset then buffer_start q + u32 (byte_offset - bytes_to_end)
  else read_ptr q + byte_offset.

Lemma peek_addr_slot q idx : wf q -> 0 <= idx < used_msgs q -> peek_addr q idx = slot q idx.
Proof.
  intros Hw Hi. destruct Hw as [W1 W2 W3 W4 W5 (r & Hr & W6) W7].
  assert (Hsm : forall x, 0 <= x <= max_msgs q * msg_size q -> u32 x = x)
    by (intros x Hx; apply uwrap_small; change (2 ^ 32) with (UINT32_MAX + 1); lia).
  unfold peek_addr, slot. rewrite (read_index_eq q r) by done. rewrite W5, W6.
  rewrite (Hsm (buffer_start q + max_msgs q * msg_size q - (buffer_start q + r * msg_size q))) by nia.
  rewrite (Hsm (idx * msg_size q)) by nia.
  destruct (_ <=? _) eqn:E.
  - assert (max_msgs q <= r + idx) by nia. rewrite Hsm by nia.
    replace ((r + idx) mod max_msgs q) with (r + idx - max_msgs q); [lia|].
    apply (Z.mod_unique _ _ 1); lia.
  - assert (r + idx < max_msgs q) by nia. rewrite Z.mod_small by lia. lia.
Qed.

Lemma peek_at_eq data idx k q m :
  z_impl_k_msgq_peek_at data idx (k, (q, m))
  = if used_msgs q >? idx
    then Done 0 (k, (q, memcpy data (peek_addr q idx) (msg_size q) m))
    else Done (- ENOMSG) (k, (q, m)).
Proof.
  unfold z_impl_k_msgq_peek_at, qget, copy. run_code.
  assert (Hid : k <| irq_locked := true |> <| irq_locked := negb (negb (irq_locked k)) |> = k)
    by (rewrite negb_involutive; by destruct k).
  destruct (used_msgs q >? idx); cbn [obind fst snd]; [|by rewrite Hid].
  unfold peek_addr. destruct (_ <=? _); cbn [obind fst snd]; by rewrite Hid.
Qed.

(** ** Properties *)

(** C18: [k_msgq_put] implements "append to a bounded FIFO": with room and no
    reader waiting the message read from [data] becomes the last of the queue;
    with a reader waiting (the queue is then empty) the message is copied to
    the reader's buffer, the first reader is woken with 0 and the call ends
    with a rescheduling point; on a full queue it fails with -ENOMSG under
    K_NO_WAIT and otherwise waits with its own buffer in [swap_data]. *)
Theorem k_msgq_put_refines data tm k q m :
  kwf k -> inv (k, (q, m)) -> put_case k q m data tm (z_impl_k_msgq_put data tm (k, (q, m))).
Proof. apply put_cases. Qed.

Definition demo_msgq : k_msgq := mk_msgq 8 4 2 1000 1008 1004 1004 0 0.

Lemma demo_msgq_inv : inv (demo false, (demo_msgq, fun a => a)).
Proof.
  split; [|by left]. split; simpl; try lia.
  - unfold UINT32_MAX. lia.
  - exists 1. lia.
  - reflexivity.
Qed.

Lemma k_msgq_put_refines_witness :
  put_case (demo false) demo_msgq (fun a => a) 2000 K_NO_WAIT
    (z_impl_k_msgq_put 2000 K_NO_WAIT (demo false, (demo_msgq, fun a => a))).
Proof.
  apply (k_msgq_put_refines 2000 K_NO_WAIT (demo false) demo_msgq (fun a => a));
    [apply demo_wf|exact demo_msgq_inv].
Defined.

(** [k_msgq_get] implements "remove the first message": it is copied to
    [data]; a writer that waits because the queue is full then has its message
    appended and is woken with 0; an empty queue gives -ENOMSG under K_NO_WAIT
    and otherwise a wait with [data] in [swap_data]. *)
Theorem k_msgq_get_refines data tm k q m :
  kwf k -> inv (k, (q, m)) -> outside q data ->
  get_case k q m data tm (z_impl_k_msgq_get data tm (k, (q, m))).
Proof. apply get_cases. Qed.

Lemma k_msgq_get_refines_witness :
  get_case (demo false) demo_msgq (fun a => a) 2000 K_NO_WAIT
    (z_impl_k_msgq_get 2000 K_NO_WAIT (demo false, (demo_msgq, fun a => a))).
Proof.
  apply (k_msgq_get_refines 2000 K_NO_WAIT (demo false) demo_msgq (fun a => a));
    [apply demo_wf|exact demo_msgq_inv|]. right. simpl. lia.
Defined.

(** [k_msgq_peek_at] copies message number [idx] of the queue to [data]
    without changing the queue, however the ring wraps around, and fails with
    -ENOMSG past the end. *)
Theorem k_msgq_peek_at_spec data idx k q m :
  inv (k, (q, m)) -> outside q data -> 0 <= idx ->
  exists r m', z_impl_k_msgq_peek_at data idx (k, (q, m)) = Done r (k, (q, m'))
    /\ messages (q, m') = messages (q, m)
    /\ match messages (q, m) !! Z.to_nat idx with
       | Some x => r = 0 /\ bytes m' data (msg_size q) = x
       | None => r = - ENOMSG
       end.
Proof.
  intros [Hw _] Ho Hi. simpl in Hw. rewrite peek_at_eq. destruct (used_msgs q >? idx) eqn:E.
  - eexists _, _. split; [reflexivity|]. split; [by apply outside_messages|].
    rewrite peek_addr_slot by (done || lia). unfold messages. rewrite list_lookup_fmap. simpl.
    rewrite lookup_seqZ_lt by lia. simpl. split; [done|].
    rewrite bytes_memcpy. do 2 f_equal. lia.
  - eexists _, _. split; [reflexivity|]. split; [done|]. rewrite lookup_ge_None_2; [done|].
    pose proof (wf_used q Hw). pose proof (messages_length (q, m) ltac:(simpl; lia)). simpl in *. lia.
Qed.

Lemma k_msgq_peek_at_spec_witness :
  exists r m',
    z_impl_k_msgq_peek_at 2000 1 (demo false, (mk_msgq 8 4 2 1000 1008 1004 1004 2 0, fun a => a))
      = Done r (demo false, (mk_msgq 8 4 2 1000 1008 1004 1004 2 0, m'))
    /\ bytes m' 2000 4 = [1000; 1001; 1002; 1003].
Proof.
  destruct (k_msgq_peek_at_spec 2000 1 (demo false) (mk_msgq 8 4 2 1000 1008 1004 1004 2 0) (fun a => a))
    as (r & m' & E & _ & H).
  - split; [|by right]. split; simpl; try lia; [unfold UINT32_MAX; lia|exists 1; lia|reflexivity].
  - right. simpl. lia.
  - lia.
  - exists r, m'. split; [exact E|]. apply H.
Defined.

Inductive op := Put (data tm : Z) | Get (data tm : Z) | Purge.

Definition run_op (o : op) : M St Z :=
  match o with
  | Put data tm => z_impl_k_msgq_put data tm
  | Get data tm => z_impl_k_msgq_get data tm
  | Purge => z_impl_k_msgq_purge ;; ret 0
  end.

(** every message queue operation gives up the CPU only in states where
    the ring is well formed, threads wait only for an empty or a full queue
    and the scheduler invariant holds, and returns to its caller in such a
    state. *)
Theorem k_msgq_ops_safe (o : op) k q m :
  krun k -> inv (k, (q, m)) -> current k <> idle_thread k ->
  match o with Get data _ => outside q data | _ => True end ->
  runs inv (current k) (fun _ => returned inv (current k) (irq_locked k)) (run_op o (k, (q, m))).
Proof.
  intros Hk HJ Hi Ho. destruct o as [data tm|data tm|].
  - by apply put_runs.
  - by apply msgq_get_runs.
  - eapply runs_bind; [by apply purge_runs|]. intros a s Hs. exact Hs.
Qed.

Lemma k_msgq_ops_safe_witness :
  runs inv 1 (fun _ => returned inv 1 false)
    (run_op (Get 2000 K_FOREVER) (demo false, (demo_msgq, fun a => a))).
Proof.
  apply (k_msgq_ops_safe (Get 2000 K_FOREVER) (demo false) demo_msgq (fun a => a)).
  - exact demo_run.
  - exact demo_msgq_inv.
  - discriminate.
  - right. simpl. lia.
Defined.

(** [k_msgq_purge] of an empty queue fails the threads that wait to read:
    every reader is woken with -ENOMSG, whatever timeout it passed. *)
Theorem k_msgq_purge_fails_readers k q m t :
  kwf k -> used_msgs q = 0 -> t ∈ waitqs k (wait_q q) ->
  exists k' q',
    z_impl_k_msgq_purge (k, (q, m)) = z_reschedule (negb (irq_locked k)) (k', (q', m))
    /\ pended_on (threads k' t) = None /\ swap_retval (threads k' t) = - ENOMSG.
Proof.
  intros Hk _ Ht. destruct (purge_eq k q m Hk) as (k' & Hw & E).
  eexists _, _. split; [exact E|]. by apply (aw_woken _ _ _ _ Hw).
Qed.

Lemma k_msgq_purge_fails_readers_witness :
  exists k' q',
    z_impl_k_msgq_purge (demo false, (mk_msgq 7 4 2 1000 1008 1000 1000 0 0, fun a => a))
      = z_reschedule true (k', (q', fun a => a))
    /\ pended_on (threads k' 2) = None /\ swap_retval (threads k' 2) = - ENOMSG.
Proof.
  apply (k_msgq_purge_fails_readers (demo false) (mk_msgq 7 4 2 1000 1008 1000 1000 0 0) (fun a => a) 2).
  - apply demo_wf.
  - reflexivity.
  - left.
Defined.

End MsgQ.
