(* ===== verification/GenList.v ===== *)
(** Singly linked lists, generic in the representation of a link (the macros
    of include/zephyr/sys/list_gen.h).

    The macros build the operations from two functions of the list type, one
    that reads the link of a node and one that writes it; here these are the
    class [links].  [list_is L w l] says that the list [L] in the memory [w]
    links exactly the nodes [l], in that order; each operation is shown to do
    on [l] what it is named for, by writing links of these nodes only.
    [SFList] and [SList] are the two instances. *)
From stdpp Require Import sets.
From S2P Require Import Prelude.

Definition gl_NULL : Z := 0.

Record genlist := mk_genlist { gl_head : Z; gl_tail : Z }.

(** [z_<node>_next_peek] and [z_<node>_next_set]. *)
Class links (W : Type) := {
  next_peek : Z -> W -> Z;
  next_set : Z -> Z -> W -> W
}.

Section Code.
Context {W : Type} {N : links W}.

Definition genlist_init : genlist := mk_genlist gl_NULL gl_NULL.

Definition genlist_is_empty (L : genlist) : bool := gl_head L =? gl_NULL.

Definition genlist_peek_next_no_check (node : Z) (w : W) : Z := next_peek node w.

Definition genlist_peek_next (node : Z) (w : W) : Z :=
  if negb (node =? gl_NULL) then genlist_peek_next_no_check node w else gl_NULL.

Definition genlist_prepend (node : Z) (s : genlist * W) : genlist * W :=
  let '(L, w) := s in
  let w := next_set node (gl_head L) w in
  (mk_genlist node (if gl_tail L =? gl_NULL then node else gl_tail L), w).

Definition genlist_append (node : Z) (s : genlist * W) : genlist * W :=
  let '(L, w) := s in
  let w := next_set node gl_NULL w in
  if gl_tail L =? gl_NULL then (mk_genlist node node, w)
  else (mk_genlist (gl_head L) node, next_set (gl_tail L) node w).

Definition genlist_append_list (head tail : Z) (s : genlist * W) : genlist * W :=
  let '(L, w) := s in
  if (head =? gl_NULL) || (tail =? gl_NULL) then s
  else if gl_tail L =? gl_NULL then (mk_genlist head tail, w)
  else (mk_genlist (gl_head L) tail, next_set (gl_tail L) head w).

(** The second list of the result is the emptied [list_to_append]. *)
Definition genlist_merge (to_append : genlist) (s : genlist * W) : genlist * genlist * W :=
  let '(L, w) := genlist_append_list (gl_head to_append) (gl_tail to_append) s in
  (L, genlist_init, w).

Definition genlist_insert (prev node : Z) (s : genlist * W) : genlist * W :=
  let '(L, w) := s in
  if prev =? gl_NULL then genlist_prepend node s
  else if next_peek prev w =? gl_NULL then genlist_append node s
  else
    let w := next_set node (next_peek prev w) w in
    (L, next_set prev node w).

Definition genlist_get_not_empty (s : genlist * W) : Z * (genlist * W) :=
  let '(L, w) := s in
  let node := gl_head L in
  let head := next_peek node w in
  (node, (mk_genlist head (if gl_tail L =? node then head else gl_tail L), w)).

Definition genlist_get (s : genlist * W) : Z * (genlist * W) :=
  if genlist_is_empty s.1 then (gl_NULL, s) else genlist_get_not_empty s.

Definition genlist_remove (prev_node node : Z) (s : genlist * W) : genlist * W :=
  let '(L, w) := s in
  let '(L, w) :=
    if prev_node =? gl_NULL then
      let head := next_peek node w in
      (mk_genlist head (if gl_tail L =? node then head else gl_tail L), w)
    else
      (mk_genlist (gl_head L) (if gl_tail L =? node then prev_node else gl_tail L),
       next_set prev_node (next_peek node w) w) in
  (L, next_set node gl_NULL w).

(** The search of [find_and_remove], from [test] on, with the node before it;
    [None] when [fuel] nodes were not enough. *)
Fixpoint find_from (fuel : nat) (prev test node : Z) (w : W) : option (option Z) :=
  match fuel with
  | O => None
  | S fuel =>
      if test =? gl_NULL then Some None
      else if test =? node then Some (Some prev)
      else find_from fuel test (genlist_peek_next test w) node w
  end.

Definition genlist_find_and_remove (fuel : nat) (node : Z) (s : genlist * W) : option (bool * (genlist * W)) :=
  match find_from fuel gl_NULL (gl_head s.1) node s.2 with
  | None => None
  | Some None => Some (false, s)
  | Some (Some prev) => Some (true, genlist_remove prev node s)
  end.

End Code.

(** ** What a list holds *)

(** [child_ok] are the values that a link can hold. *)
Class links_laws {W} (N : links W) := {
  child_ok : Z -> Prop;
  child_null : child_ok gl_NULL;
  peek_set_eq x c w : child_ok c -> next_peek x (next_set x c w) = c;
  peek_set_ne x y c w : x <> y -> next_peek y (next_set x c w) = next_peek y w
}.

Section Laws.
Context {W : Type} {N : links W} {HN : links_laws N}.

Definition link_ok (x : Z) : Prop := 0 < x /\ child_ok x.

(** Following the links from [p] passes the nodes [l] and arrives at [q]. *)
Fixpoint seg (w : W) (p : Z) (l : list Z) (q : Z) : Prop :=
  match l with
  | [] => p = q
  | x :: r => p = x /\ seg w (next_peek x w) r q
  end.

Record list_is (L : genlist) (w : W) (l : list Z) : Prop := {
  li_seg : seg w (gl_head L) l gl_NULL;
  li_tail : gl_tail L = default gl_NULL (list.last l);
  li_nodup : NoDup l;
  li_ok : Forall link_ok l
}.

(** [w'] comes from [w] by writing links of the nodes [l]. *)
Inductive linked_by (l : list Z) (w : W) : W -> Prop :=
| linked_none : linked_by l w w
| linked_set x c w' : linked_by l w w' -> x ∈ l -> child_ok c -> linked_by l w (next_set x c w').

Lemma linked_one l w x c : x ∈ l -> child_ok c -> linked_by l w (next_set x c w).
Proof. intros. apply linked_set; [constructor|done..]. Qed.

Lemma linked_two l w x c y d :
  x ∈ l -> y ∈ l -> child_ok c -> child_ok d -> linked_by l w (next_set y d (next_set x c w)).
Proof. intros. apply linked_set; [by apply linked_one|done..]. Qed.

Lemma linked_weaken l l' w w' : (forall x, x ∈ l -> x ∈ l') -> linked_by l w w' -> linked_by l' w w'.
Proof. intros Hl. induction 1; [constructor|apply linked_set; auto]. Qed.

Lemma linked_peek l w w' x : x ∉ l -> linked_by l w w' -> next_peek x w' = next_peek x w.
Proof.
  intros Hx. induction 1 as [|y c w' _ IH Hy _]; [done|]. rewrite peek_set_ne; [done|]. intros ->. done.
Qed.

(** ** Segments *)

Lemma seg_app w p a b q : seg w p (a ++ b) q <-> exists m, seg w p a m /\ seg w m b q.
Proof.
  revert p. induction a as [|x a IH]; intros p; simpl.
  - split; [by exists p|]. by intros (m & <- & H).
  - rewrite IH. split; [intros (-> & m & H1 & H2); by exists m|].
    intros (m & [-> H1] & H2). split; [done|by exists m].
Qed.

Lemma seg_frame w w' p l q :
  (forall x, x ∈ l -> next_peek x w' = next_peek x w) -> seg w p l q -> seg w' p l q.
Proof.
  revert p. induction l as [|x l IH]; intros p Hw; simpl; [done|]. intros [-> H].
  split; [done|]. rewrite Hw by left. apply IH; [|done]. intros y Hy. apply Hw. by right.
Qed.

Lemma seg_set_other w p l q x c : x ∉ l -> seg w p l q -> seg (next_set x c w) p l q.
Proof. intros Hx. apply seg_frame. intros y Hy. apply peek_set_ne. intros ->. done. Qed.

(** The last link of a segment redirected. *)
Lemma seg_redirect w p l x q q' :
  x ∉ l -> child_ok q' -> seg w p (l ++ [x]) q -> seg (next_set x q' w) p (l ++ [x]) q'.
Proof.
  intros Hx Hq. rewrite !seg_app. intros (m & H1 & [-> H2]). exists x.
  split; [by apply seg_set_other|]. split; [done|]. by apply peek_set_eq.
Qed.

Lemma list_head L w l : list_is L w l -> gl_head L = default gl_NULL (head l).
Proof. intros [H _ _ _]. destruct l; simpl in *; [done|]. by destruct H. Qed.

Lemma link_ok_child x : link_ok x -> child_ok x.
Proof. by intros [_ H]. Qed.

Lemma link_ok_ne x : link_ok x -> (x =? gl_NULL) = false.
Proof. intros [H _]. unfold gl_NULL. lia. Qed.

Lemma list_empty L w l : list_is L w l -> genlist_is_empty L = true <-> l = [].
Proof.
  intros H. unfold genlist_is_empty. rewrite (list_head _ _ _ H). destruct l as [|x l]; simpl; [done|].
  rewrite link_ok_ne; [done|]. by apply (Forall_inv (li_ok _ _ _ H)).
Qed.

Lemma list_tail_null L w l : list_is L w l -> (gl_tail L =? gl_NULL) = true <-> l = [].
Proof.
  intros H. rewrite (li_tail _ _ _ H). destruct l as [|x l _] using rev_ind; [done|].
  rewrite last_snoc. simpl. rewrite link_ok_ne; [split; [done|]; by destruct l|].
  pose proof (li_ok _ _ _ H) as Hf. apply Forall_app in Hf as [_ Hf]. by apply Forall_inv in Hf.
Qed.

Lemma head_child L w l : list_is L w l -> child_ok (gl_head L).
Proof.
  intros H. rewrite (list_head _ _ _ H). destruct l as [|x l]; [apply child_null|]. simpl.
  apply link_ok_child, (Forall_inv (li_ok _ _ _ H)).
Qed.

Lemma list_snoc L w l :
  list_is L w l -> (gl_tail L =? gl_NULL) = false ->
  exists r y, l = r ++ [y] /\ gl_tail L = y /\ link_ok y /\ (y ∉ r).
Proof.
  intros [_ Ht Hn Hf] E. rewrite Ht in E. destruct l as [|y r _] using rev_ind; [done|].
  rewrite last_snoc in Ht. exists r, y. split_and!; [done|done| |].
  - apply Forall_app in Hf as [_ Hf]. by apply Forall_inv in Hf.
  - apply NoDup_app in Hn as (_ & Hn & _). intros Hy. apply (Hn y Hy). left.
Qed.

(** A list is not affected by changes outside its nodes. *)
Lemma list_frame L w w' l :
  (forall x, x ∈ l -> next_peek x w' = next_peek x w) -> list_is L w l -> list_is L w' l.
Proof. intros Hw [H1 H2 H3 H4]. split; try done. by eapply seg_frame. Qed.

Lemma list_linked_frame L w w' l n :
  linked_by n w w' -> n ## l -> list_is L w l -> list_is L w' l.
Proof. intros Hn Hd. apply list_frame. intros x Hx. eapply linked_peek; [|done]. set_solver. Qed.

Lemma init_is w : list_is genlist_init w [].
Proof. split; [done|done|constructor|constructor]. Qed.

(** ** Operations *)

Lemma gen_prepend_spec L w l x :
  list_is L w l -> link_ok x -> x ∉ l ->
  let '(L', w') := genlist_prepend x (L, w) in list_is L' w' (x :: l) /\ linked_by [x] w w'.
Proof.
  intros H Hx Hl. simpl. pose proof (head_child _ _ _ H) as Hh.
  split; [|apply linked_one; [left|done]]. split; simpl.
  - split; [done|]. rewrite peek_set_eq by done. apply seg_set_other; [done|apply H].
  - destruct (_ =? _) eqn:E.
    + by rewrite (proj1 (list_tail_null _ _ _ H) E).
    + rewrite (li_tail _ _ _ H) in *. by destruct l as [|y l].
  - constructor; [done|apply H].
  - constructor; [done|apply H].
Qed.

Lemma gen_append_spec L w l x :
  list_is L w l -> link_ok x -> x ∉ l ->
  let '(L', w') := genlist_append x (L, w) in list_is L' w' (l ++ [x]) /\ linked_by (x :: l) w w'.
Proof.
  intros H Hx Hl. unfold genlist_append. pose proof child_null as H0. destruct (_ =? _) eqn:E.
  - rewrite (proj1 (list_tail_null _ _ _ H) E). split; [|apply linked_one; [left|done]].
    split; simpl; [|done|apply NoDup_singleton|by apply Forall_singleton].
    split; [done|]. by apply peek_set_eq.
  - destruct (list_snoc _ _ _ H E) as (r & y & -> & -> & Hy & Hyr).
    split; [|apply linked_two; [left|right; apply elem_of_app; right; left|done|apply Hx]].
    apply not_elem_of_app in Hl as [Hxl Hxy]. apply not_elem_of_cons in Hxy as [Hxy _].
    split; simpl.
    + apply seg_app. exists x. split.
      * eapply seg_redirect; [done|apply Hx|]. apply seg_set_other; [set_solver|apply H].
      * split; [done|]. rewrite peek_set_ne by done. by apply peek_set_eq.
    + by rewrite last_snoc.
    + apply NoDup_app. split_and!; [apply H|set_solver|apply NoDup_singleton].
    + apply Forall_app. split; [apply H|by constructor].
Qed.

(** A chain that ends in NULL, as [append_list] takes it. *)
Lemma gen_append_list_spec L w l l' :
  list_is L w l -> list_is (mk_genlist (default 0 (head l')) (default 0 (list.last l'))) w l' ->
  l ## l' -> l' <> [] ->
  let '(L', w') := genlist_append_list (default 0 (head l')) (default 0 (list.last l')) (L, w) in
  list_is L' w' (l ++ l') /\ linked_by l w w'.
Proof.
  intros H H' Hd Hne. unfold genlist_append_list.
  pose proof (list_empty _ _ _ H') as He. pose proof (list_tail_null _ _ _ H') as Ht.
  unfold genlist_is_empty in He. simpl in He, Ht.
  destruct (_ =? gl_NULL) eqn:E1; [by destruct Hne; apply He|]. clear E1.
  destruct (_ =? gl_NULL) eqn:E1; [by destruct Hne; apply Ht|]. simpl.
  destruct (gl_tail L =? gl_NULL) eqn:E.
  - rewrite (proj1 (list_tail_null _ _ _ H) E). split; [done|constructor].
  - destruct (list_snoc _ _ _ H E) as (r & y & -> & -> & Hy & Hyr).
    pose proof (head_child _ _ _ H') as Hh. simpl in Hh.
    split; [|apply linked_one; [apply elem_of_app; right; left|done]].
    split; simpl.
    + apply seg_app. eexists. split; [eapply seg_redirect; [done|done|apply H]|].
      apply seg_set_other; [set_solver|]. apply H'.
    + rewrite last_app. by destruct (list.last l') eqn:El; [|apply last_None in El].
    + apply NoDup_app. split_and!; [apply H|set_solver|apply H'].
    + apply Forall_app. split; [apply H|apply H'].
Qed.

(** The two lists around a node of a list. *)
Lemma list_around L w a p b :
  list_is L w (a ++ p :: b) ->
  seg w (gl_head L) a p /\ seg w (next_peek p w) b gl_NULL
  /\ link_ok p /\ (p ∉ a) /\ (p ∉ b) /\ a ## b /\ next_peek p w = default gl_NULL (head b).
Proof.
  intros [Hs _ Hn Hf]. apply seg_app in Hs as (m & H1 & [-> H2]).
  apply NoDup_app in Hn as (_ & Hn & Hb). apply NoDup_cons in Hb as [Hpb Hb].
  apply Forall_app in Hf as [_ Hf]. apply Forall_inv in Hf. split_and!; try done.
  - intros Hp. apply (Hn p Hp). left.
  - intros x Hx Hxb. apply (Hn x Hx). by right.
  - destruct b as [|y b]; [done|]. by destruct H2 as [-> _].
Qed.

Lemma last_insert (a b : list Z) p x : b <> [] -> list.last (a ++ p :: x :: b) = list.last (a ++ p :: b).
Proof. intros Hb. destruct b as [|y b]; [done|]. rewrite !last_app. done. Qed.

Lemma NoDup_insert (a b : list Z) p x :
  NoDup (a ++ p :: b) -> x ∉ a ++ p :: b -> NoDup (a ++ p :: x :: b).
Proof.
  intros H Hx. apply (NoDup_Permutation_proper _ (x :: a ++ p :: b)); [|by constructor].
  change (p :: x :: b) with ([p] ++ x :: b). by rewrite app_assoc, <-Permutation_middle, <-app_assoc.
Qed.

Lemma gen_insert_spec L w a p b x :
  list_is L w (a ++ p :: b) -> link_ok x -> x ∉ a ++ p :: b ->
  let '(L', w') := genlist_insert p x (L, w) in
  list_is L' w' (a ++ p :: x :: b) /\ linked_by (x :: a ++ p :: b) w w'.
Proof.
  intros H Hx Hl. destruct (list_around _ _ _ _ _ H) as (Ha & Hb & Hp & Hpa & Hpb & Hab & En).
  unfold genlist_insert. rewrite (link_ok_ne p) by done. rewrite En.
  destruct b as [|y b]; simpl default.
  { simpl. replace (a ++ [p; x]) with ((a ++ [p]) ++ [x]) by (by rewrite <-app_assoc). by apply gen_append_spec. }
  assert (Hy : link_ok y).
  { pose proof (li_ok _ _ _ H) as Hf. rewrite Forall_app, !Forall_cons in Hf. apply Hf. }
  rewrite (link_ok_ne y) by done. assert (Hpx : p <> x) by set_solver.
  split; [|apply linked_two; [set_solver|set_solver|apply Hy|apply Hx]].
  split; simpl.
  - apply seg_app. exists p. split; [apply seg_set_other; [done|]; apply seg_set_other; [set_solver|done]|].
    split; [done|]. rewrite peek_set_eq by apply Hx. split; [done|].
    rewrite peek_set_ne, peek_set_eq by first [done|apply Hy].
    rewrite En in Hb. do 2 (apply (seg_set_other _ _ (y :: b)); [set_solver|]). apply Hb.
  - rewrite (li_tail _ _ _ H). by rewrite (last_insert a (y :: b) p x).
  - by apply NoDup_insert; [apply H|].
  - pose proof (li_ok _ _ _ H) as Hf. rewrite !Forall_app, !Forall_cons in *. naive_solver.
Qed.

Lemma gen_get_spec L w x l :
  list_is L w (x :: l) ->
  let '(y, (L', w')) := genlist_get_not_empty (L, w) in y = x /\ w' = w /\ list_is L' w l.
Proof.
  intros [[Hx Hs] Ht Hn Hf]. simpl. rewrite Hx. split_and!; [done|done|].
  apply NoDup_cons in Hn as [Hxl Hn]. apply Forall_cons in Hf as [Hx' Hf].
  split; simpl; [done| |done|done]. rewrite Ht.
  destruct l as [|y l _] using rev_ind; [simpl; rewrite Z.eqb_refl; by simpl in Hs|].
  rewrite app_comm_cons, !last_snoc. simpl. destruct (y =? x) eqn:E; [|done].
  apply Z.eqb_eq in E as ->. set_solver.
Qed.

(** [get] in terms of the nodes. *)
Lemma gen_get_cases L w l :
  list_is L w l ->
  match l with
  | [] => genlist_get (L, w) = (gl_NULL, (L, w))
  | x :: r => x <> gl_NULL /\ exists L', genlist_get (L, w) = (x, (L', w)) /\ list_is L' w r
  end.
Proof.
  intros H. unfold genlist_get. cbn [fst]. pose proof (list_empty _ _ _ H) as He. destruct l as [|x r].
  - by rewrite (proj2 He eq_refl).
  - pose proof (li_ok _ _ _ H) as Hf. apply Forall_cons in Hf as [[Hx _] _].
    destruct (genlist_is_empty L); [by destruct He as [He _]; specialize (He eq_refl)|].
    pose proof (gen_get_spec _ _ _ _ H) as Hg. destruct (genlist_get_not_empty (L, w)) as [y [L' w']].
    destruct Hg as (-> & -> & Hg). split; [unfold gl_NULL; lia|]. by exists L'.
Qed.

(** ** Search *)

(** The node before the first one of [l], when [prev] is before the list. *)
Definition before (prev : Z) (a : list Z) : Z := default prev (list.last a).

Lemma find_from_spec w node l prev p fuel :
  seg w p l gl_NULL -> Forall link_ok l -> NoDup l -> (length l < fuel)%nat ->
  (node ∉ l -> find_from fuel prev p node w = Some None)
  /\ (forall a b, l = a ++ node :: b -> find_from fuel prev p node w = Some (Some (before prev a))).
Proof.
  revert prev p fuel. induction l as [|x l IH]; intros prev p fuel Hs Hf Hn Hl.
  - simpl in *. subst p. destruct fuel as [|fuel]; [lia|]. split; [done|]. intros [|? a] b E; done.
  - destruct Hs as [-> Hs]. apply Forall_cons in Hf as [Hx Hf]. apply NoDup_cons in Hn as [Hxl Hn].
    destruct fuel as [|fuel]; simpl in *; [lia|]. unfold genlist_peek_next, genlist_peek_next_no_check.
    rewrite (link_ok_ne x Hx). cbn [negb].
    destruct (IH x (next_peek x w) fuel Hs Hf Hn ltac:(lia)) as [IH1 IH2].
    destruct (x =? node) eqn:E.
    + apply Z.eqb_eq in E as ->. split; [set_solver|]. intros [|y a] b Eb; simplify_eq/=; [done|]. set_solver.
    + split; [intros Hnode; apply IH1; set_solver|]. intros [|y a] b Eb; simplify_eq/=; [lia|].
      rewrite (IH2 a b) by done. unfold before. do 2 f_equal. rewrite last_cons. by destruct (list.last a).
Qed.

Lemma gen_remove_spec L w a x b :
  list_is L w (a ++ x :: b) ->
  let '(L', w') := genlist_remove (before gl_NULL a) x (L, w) in
  list_is L' w' (a ++ b) /\ linked_by (a ++ x :: b) w w'.
Proof.
  intros H. destruct (list_around _ _ _ _ _ H) as (Ha & Hb & Hx & Hxa & Hxb & Hab & En).
  pose proof (li_tail _ _ _ H) as Ht. pose proof (li_nodup _ _ _ H) as Hn. pose proof (li_ok _ _ _ H) as Hf.
  pose proof child_null as H0.
  assert (Hnb : child_ok (next_peek x w)).
  { rewrite En. destruct b as [|y b]; [done|]. rewrite Forall_app, !Forall_cons in Hf. apply link_ok_child, Hf. }
  assert (Htx : (gl_tail L =? x) = bool_decide (b = [])).
  { rewrite Ht. destruct b as [|y b _] using rev_ind; [rewrite last_snoc; simpl; by rewrite Z.eqb_refl|].
    rewrite app_comm_cons, app_assoc, last_snoc. simpl. rewrite bool_decide_false by (by destruct b).
    apply Z.eqb_neq. set_solver. }
  unfold before, genlist_remove. rewrite Htx.
  destruct a as [|p a _] using rev_ind.
  - simpl. split; [|apply linked_one; [left|done]].
    apply (list_frame _ w); [intros y Hy; apply peek_set_ne; set_solver|].
    rewrite Forall_app, Forall_cons in Hf. apply NoDup_app in Hn as (_ & _ & Hn). apply NoDup_cons in Hn as [_ Hn].
    split; simpl; [by rewrite En in *| |done|apply Hf].
    rewrite bool_decide_decide. destruct (decide (b = [])) as [->|Hne]; [done|].
    rewrite Ht. simpl. destruct b; done.
  - rewrite last_snoc. simpl default.
    assert (Hp : link_ok p) by (rewrite !Forall_app, Forall_singleton in Hf; apply Hf).
    rewrite (link_ok_ne p Hp). apply NoDup_app in Hn as (Hna & Hnab & Hnb').
    apply NoDup_cons in Hnb' as [_ Hnb']. assert (Hpa : p ∉ a) by (apply NoDup_app in Hna; set_solver).
    split; [|apply linked_two; [set_solver|set_solver|done|done]].
    split; simpl.
    + apply seg_app. eexists. split; [apply seg_set_other; [done|]; by eapply seg_redirect|].
      apply seg_set_other; [done|]. apply seg_set_other; [set_solver|done].
    + rewrite Ht, bool_decide_decide. destruct (decide (b = [])) as [->|Hne]; [by rewrite app_nil_r, last_snoc|].
      rewrite !last_app. by destruct b.
    + apply NoDup_app. split_and!; [done|set_solver|done].
    + rewrite Forall_app, Forall_cons in Hf. apply Forall_app. split; apply Hf.
Qed.

(** With a step for every node and one more, the search ends, and removes the
    node exactly when it is there. *)
Lemma gen_find_and_remove_spec fuel L w l x :
  list_is L w l -> (length l < fuel)%nat ->
  (x ∉ l -> genlist_find_and_remove fuel x (L, w) = Some (false, (L, w)))
  /\ (forall a b, l = a ++ x :: b ->
      exists L' w', genlist_find_and_remove fuel x (L, w) = Some (true, (L', w'))
                    /\ list_is L' w' (a ++ b) /\ linked_by l w w').
Proof.
  intros H Hl. unfold genlist_find_and_remove. cbn [fst snd].
  destruct (find_from_spec w x l gl_NULL (gl_head L) fuel) as [H1 H2]; try apply H; [done|].
  split; [intros Hx; by rewrite H1|]. intros a b ->. rewrite (H2 a b) by done. cbv iota.
  pose proof (gen_remove_spec _ _ _ _ _ H) as Hr. destruct (genlist_remove _ _ _) as [L' w'].
  exists L', w'. by split.
Qed.

End Laws.
