(* ===== verification/SFList.v ===== *)
(** Flagged singly linked lists (include/zephyr/sys/sflist.h, instances of the
    macros of include/zephyr/sys/list_gen.h).

    A node is the address of a word of memory that holds the address of the
    next node in its upper bits and two flag bits in its lower ones.
    [sflist_is L w l] says that the list [L] in the memory [w] links exactly
    the nodes [l], in that order; each operation does on [l] what it is named
    for, without touching a flag or a word of another node. *)
From stdpp Require Import sets.
From S2P Require Import Prelude GenList.

(** The pointer sized words of memory, by address. *)
Abbreviation words := (Z -> Z).

Abbreviation sys_sflist := genlist.
Abbreviation mk_sflist := mk_genlist.
Abbreviation sf_head := gl_head.
Abbreviation sf_tail := gl_tail.
Abbreviation sf_NULL := gl_NULL.

Definition SYS_SFLIST_FLAGS_MASK : Z := 3.

Definition z_sfnode_next_peek (node : Z) (w : words) : Z :=
  Z.land (w node) (Z.lnot SYS_SFLIST_FLAGS_MASK).

Definition sys_sfnode_flags_get (node : Z) (w : words) : Z :=
  Z.land (w node) SYS_SFLIST_FLAGS_MASK.

Definition z_sfnode_next_set (parent child : Z) (w : words) : words :=
  <[parent := Z.lor (sys_sfnode_flags_get parent w) child]> w.

Definition sys_sfnode_init (node flags : Z) (w : words) : words := <[node := flags]> w.

Definition sys_sfnode_flags_set (node flags : Z) (w : words) : words :=
  <[node := Z.lor (z_sfnode_next_peek node w) flags]> w.

Definition sfnode_links : links words := {| next_peek := z_sfnode_next_peek; next_set := z_sfnode_next_set |}.
#[local] Existing Instance sfnode_links.

Definition sys_sflist_init : sys_sflist := genlist_init.
Definition sys_sflist_is_empty : sys_sflist -> bool := genlist_is_empty.
Definition sys_sflist_peek_next : Z -> words -> Z := genlist_peek_next.
Definition sys_sflist_prepend : Z -> sys_sflist * words -> sys_sflist * words := genlist_prepend.
Definition sys_sflist_append : Z -> sys_sflist * words -> sys_sflist * words := genlist_append.
Definition sys_sflist_append_list : Z -> Z -> sys_sflist * words -> sys_sflist * words := genlist_append_list.
Definition sys_sflist_insert : Z -> Z -> sys_sflist * words -> sys_sflist * words := genlist_insert.
Definition sys_sflist_get_not_empty : sys_sflist * words -> Z * (sys_sflist * words) := genlist_get_not_empty.
Definition sys_sflist_get : sys_sflist * words -> Z * (sys_sflist * words) := genlist_get.
Definition sys_sflist_remove : Z -> Z -> sys_sflist * words -> sys_sflist * words := genlist_remove.
Definition sys_sflist_find_and_remove :
  nat -> Z -> sys_sflist * words -> option (bool * (sys_sflist * words)) := genlist_find_and_remove.

(** ** The links of one word *)

Lemma aligned_peek c : Z.land c SYS_SFLIST_FLAGS_MASK = 0 -> Z.land c (Z.lnot SYS_SFLIST_FLAGS_MASK) = c.
Proof.
  intros H. rewrite <-Z.ldiff_land. rewrite <-(Z.lor_ldiff_and c SYS_SFLIST_FLAGS_MASK) at 2.
  by rewrite H, Z.lor_0_r.
Qed.

Lemma next_set_eq x c w :
  Z.land c SYS_SFLIST_FLAGS_MASK = 0 -> z_sfnode_next_peek x (z_sfnode_next_set x c w) = c.
Proof.
  intros H. unfold z_sfnode_next_peek, z_sfnode_next_set, sys_sfnode_flags_get.
  rewrite fn_lookup_insert, Z.land_lor_distr_l, (aligned_peek c) by done.
  by rewrite <-Z.land_assoc, Z.land_lnot_diag, Z.land_0_r.
Qed.

Lemma next_set_ne x y c w : x <> y -> z_sfnode_next_peek y (z_sfnode_next_set x c w) = z_sfnode_next_peek y w.
Proof. intros H. unfold z_sfnode_next_peek, z_sfnode_next_set. by rewrite fn_lookup_insert_ne. Qed.

Lemma next_set_flags x y c w :
  Z.land c SYS_SFLIST_FLAGS_MASK = 0 ->
  sys_sfnode_flags_get y (z_sfnode_next_set x c w) = sys_sfnode_flags_get y w.
Proof.
  intros H. unfold z_sfnode_next_set. destruct (decide (x = y)) as [->|Hne]; unfold sys_sfnode_flags_get.
  - by rewrite fn_lookup_insert, Z.land_lor_distr_l, H, Z.lor_0_r, <-Z.land_assoc, Z.land_diag.
  - by rewrite fn_lookup_insert_ne.
Qed.

#[export] Instance sfnode_laws : links_laws sfnode_links := {|
  child_ok c := Z.land c SYS_SFLIST_FLAGS_MASK = 0;
  child_null := eq_refl;
  peek_set_eq := next_set_eq;
  peek_set_ne := next_set_ne
|}.

(** ** What a list holds *)

(** The address of a node: not null, and free for the flags. *)
Abbreviation node_ok := (@link_ok words sfnode_links sfnode_laws).
Abbreviation sflist_is := (@list_is words sfnode_links sfnode_laws).
Abbreviation si_seg := (@li_seg words sfnode_links sfnode_laws).
Abbreviation si_tail := (@li_tail words sfnode_links sfnode_laws).
Abbreviation si_nodup := (@li_nodup words sfnode_links sfnode_laws).
Abbreviation si_ok := (@li_ok words sfnode_links sfnode_laws).

Lemma node_ok_land x : node_ok x -> Z.land x SYS_SFLIST_FLAGS_MASK = 0.
Proof. by intros [_ H]. Qed.

Lemma node_ok_ne x : node_ok x -> (x =? sf_NULL) = false.
Proof. apply link_ok_ne. Qed.

(** Only links of the nodes [l] differ between [w] and [w']. *)
Definition relinked (l : list Z) (w w' : words) : Prop :=
  (forall x, sys_sfnode_flags_get x w' = sys_sfnode_flags_get x w)
  /\ (forall x, x ∉ l -> w' x = w x).

Lemma linked_relinked l w w' : linked_by l w w' -> relinked l w w'.
Proof.
  induction 1 as [|x c w' _ [F W] Hx Hc]; [done|]. split.
  - intros y. rewrite <-F. by apply next_set_flags.
  - intros y Hy. cbn. unfold z_sfnode_next_set. rewrite fn_lookup_insert_ne; [by apply W|]. intros ->. done.
Qed.

Lemma relinked_weaken l l' w w' : (forall x, x ∈ l -> x ∈ l') -> relinked l w w' -> relinked l' w w'.
Proof. intros Hl [F W]. split; [done|]. intros x Hx. apply W. auto. Qed.

Lemma sflist_empty L w l : sflist_is L w l -> sys_sflist_is_empty L = true <-> l = [].
Proof. apply list_empty. Qed.

Lemma sflist_tail_null L w l : sflist_is L w l -> (sf_tail L =? sf_NULL) = true <-> l = [].
Proof. apply list_tail_null. Qed.

Lemma sflist_frame L w w' l :
  (forall x, x ∈ l -> w' x = w x) -> sflist_is L w l -> sflist_is L w' l.
Proof. intros Hw. apply list_frame. intros x Hx. cbn. unfold z_sfnode_next_peek. by rewrite Hw. Qed.

(** ** Operations *)

Lemma prepend_spec L w l x :
  sflist_is L w l -> node_ok x -> x ∉ l ->
  let '(L', w') := sys_sflist_prepend x (L, w) in
  sflist_is L' w' (x :: l) /\ relinked (x :: l) w w'.
Proof.
  intros H Hx Hl. unfold sys_sflist_prepend. pose proof (gen_prepend_spec _ _ _ _ H Hx Hl) as Hs.
  destruct (genlist_prepend _ _) as [L' w']. destruct Hs as [? Hr]. split; [done|].
  eapply relinked_weaken; [|by apply linked_relinked]. set_solver.
Qed.

Lemma append_spec L w l x :
  sflist_is L w l -> node_ok x -> x ∉ l ->
  let '(L', w') := sys_sflist_append x (L, w) in
  sflist_is L' w' (l ++ [x]) /\ relinked (x :: l) w w'.
Proof.
  intros H Hx Hl. unfold sys_sflist_append. pose proof (gen_append_spec _ _ _ _ H Hx Hl) as Hs.
  destruct (genlist_append _ _) as [L' w']. destruct Hs as [? Hr]. split; [done|by apply linked_relinked].
Qed.

(** A chain that ends in [sf_NULL], as [sys_sflist_append_list] takes it. *)
Lemma append_list_spec L w l l' :
  sflist_is L w l -> sflist_is (mk_sflist (default 0 (head l')) (default 0 (list.last l'))) w l' ->
  l ## l' -> l' <> [] ->
  let '(L', w') := sys_sflist_append_list (default 0 (head l')) (default 0 (list.last l')) (L, w) in
  sflist_is L' w' (l ++ l') /\ relinked l w w'.
Proof.
  intros H H' Hd Hne. unfold sys_sflist_append_list. pose proof (gen_append_list_spec _ _ _ _ H H' Hd Hne) as Hs.
  destruct (genlist_append_list _ _ _) as [L' w']. destruct Hs as [? Hr]. split; [done|by apply linked_relinked].
Qed.

Lemma insert_spec L w a p b x :
  sflist_is L w (a ++ p :: b) -> node_ok x -> x ∉ a ++ p :: b ->
  let '(L', w') := sys_sflist_insert p x (L, w) in
  sflist_is L' w' (a ++ p :: x :: b) /\ relinked (x :: a ++ p :: b) w w'.
Proof.
  intros H Hx Hl. unfold sys_sflist_insert. pose proof (gen_insert_spec _ _ _ _ _ _ H Hx Hl) as Hs.
  destruct (genlist_insert _ _ _) as [L' w']. destruct Hs as [? Hr]. split; [done|by apply linked_relinked].
Qed.

Lemma get_spec L w x l :
  sflist_is L w (x :: l) ->
  let '(y, (L', w')) := sys_sflist_get_not_empty (L, w) in
  y = x /\ w' = w /\ sflist_is L' w l.
Proof. apply gen_get_spec. Qed.

(** With a step for every node and one more, the search ends, and removes the
    node exactly when it is there. *)
Lemma find_and_remove_spec fuel L w l x :
  sflist_is L w l -> (length l < fuel)%nat ->
  (x ∉ l -> sys_sflist_find_and_remove fuel x (L, w) = Some (false, (L, w)))
  /\ (forall a b, l = a ++ x :: b ->
      exists L' w', sys_sflist_find_and_remove fuel x (L, w) = Some (true, (L', w'))
                    /\ sflist_is L' w' (a ++ b) /\ relinked l w w').
Proof.
  intros H Hl. destruct (gen_find_and_remove_spec fuel L w l x H Hl) as [H1 H2]. split; [done|].
  intros a b Hab. destruct (H2 a b Hab) as (L' & w' & ? & ? & Hr). exists L', w'. split_and!; try done.
  by apply linked_relinked.
Qed.
