(* ===== verification/SList.v ===== *)
(** Singly linked lists (include/zephyr/sys/slist.h, instances of the macros of
    include/zephyr/sys/list_gen.h).

    A node is an address; the memory of the links maps the address of a node
    to the address of the next one.  [slist_is L w l] says that the list [L]
    links exactly the nodes [l], in that order. *)
From stdpp Require Import sets.
From S2P Require Import Prelude GenList.

(** The member [next] of the nodes, by address. *)
Abbreviation snodes := (Z -> Z).
Abbreviation sys_slist := genlist.

Definition z_snode_next_peek (node : Z) (w : snodes) : Z := w node.
Definition z_snode_next_set (parent child : Z) (w : snodes) : snodes := <[parent := child]> w.

Definition snode_links : links snodes := {| next_peek := z_snode_next_peek; next_set := z_snode_next_set |}.
#[local] Existing Instance snode_links.

Definition sys_slist_init : sys_slist := genlist_init.
Definition sys_slist_is_empty : sys_slist -> bool := genlist_is_empty.
Definition sys_slist_peek_head (L : sys_slist) : Z := gl_head L.
Definition sys_slist_peek_tail (L : sys_slist) : Z := gl_tail L.
Definition sys_slist_peek_next_no_check : Z -> snodes -> Z := genlist_peek_next_no_check.
Definition sys_slist_peek_next : Z -> snodes -> Z := genlist_peek_next.
Definition sys_slist_prepend : Z -> sys_slist * snodes -> sys_slist * snodes := genlist_prepend.
Definition sys_slist_append : Z -> sys_slist * snodes -> sys_slist * snodes := genlist_append.
Definition sys_slist_append_list : Z -> Z -> sys_slist * snodes -> sys_slist * snodes := genlist_append_list.
Definition sys_slist_merge_slist : sys_slist -> sys_slist * snodes -> sys_slist * sys_slist * snodes := genlist_merge.
Definition sys_slist_insert : Z -> Z -> sys_slist * snodes -> sys_slist * snodes := genlist_insert.
Definition sys_slist_get_not_empty : sys_slist * snodes -> Z * (sys_slist * snodes) := genlist_get_not_empty.
Definition sys_slist_get : sys_slist * snodes -> Z * (sys_slist * snodes) := genlist_get.
Definition sys_slist_remove : Z -> Z -> sys_slist * snodes -> sys_slist * snodes := genlist_remove.
Definition sys_slist_find_and_remove :
  nat -> Z -> sys_slist * snodes -> option (bool * (sys_slist * snodes)) := genlist_find_and_remove.

Lemma snode_set_eq x c w : True -> z_snode_next_peek x (z_snode_next_set x c w) = c.
Proof. intros _. apply fn_lookup_insert. Qed.

Lemma snode_set_ne x y c w : x <> y -> z_snode_next_peek y (z_snode_next_set x c w) = z_snode_next_peek y w.
Proof. intros H. unfold z_snode_next_peek, z_snode_next_set. by rewrite fn_lookup_insert_ne. Qed.

#[export] Instance snode_laws : links_laws snode_links := {|
  child_ok c := True;
  child_null := I;
  peek_set_eq := snode_set_eq;
  peek_set_ne := snode_set_ne
|}.

Abbreviation slist_is := (@list_is snodes snode_links snode_laws).
Abbreviation slinked := (@linked_by snodes snode_links snode_laws).

Lemma snode_ok x : 0 < x -> @link_ok snodes snode_links snode_laws x.
Proof. by split. Qed.

Lemma slinked_other l w w' x : x ∉ l -> slinked l w w' -> w' x = w x.
Proof. intros Hx Hl. apply (linked_peek _ _ _ _ Hx Hl). Qed.

Lemma slist_pos L w l x : slist_is L w l -> x ∈ l -> 0 < x.
Proof. intros H Hx. pose proof (li_ok _ _ _ H) as Hf. rewrite Forall_forall in Hf. by apply Hf. Qed.
