(* ===== verification/Stack.v ===== *)
(** Kernel stacks (kernel/stack.c).

    [base], [next] and [top] are pointers to cells of type [stack_data_t];
    the model counts them in cells and keeps the cell memory.  The
    abstraction reads the used cells as a list, last pushed last; the
    theorems say that the operations implement a bounded LIFO whose pushes
    serve waiting threads first. *)
From S2P Require Import Prelude Timeout Kernel Sched SchedInv SchedApi Demo.

Module Stack.

Record k_stack := mk_stack {
  wait_q : wqid;
  base : Z;
  next : Z;
  top : Z;
  flags : Z
}.

#[export] Instance set_base : Settable base :=
  fun f s => mk_stack (wait_q s) (f (base s)) (next s) (top s) (flags s).
#[export] Instance set_next : Settable next :=
  fun f s => mk_stack (wait_q s) (base s) (f (next s)) (top s) (flags s).
#[export] Instance set_top : Settable top :=
  fun f s => mk_stack (wait_q s) (base s) (next s) (f (top s)) (flags s).
#[export] Instance set_flags : Settable flags :=
  fun f s => mk_stack (wait_q s) (base s) (next s) (top s) (f (flags s)).

Definition K_STACK_FLAG_ALLOC : Z := 1.

(** The stack and the cells. *)
Abbreviation St := (kernel * (k_stack * (Z -> Z)))%type.

Definition sget {A} (f : k_stack -> A) : M St A := oget (fun o => f o.1).
Definition smod (f : k_stack -> k_stack) : M St unit := omod (fun o => (f o.1, o.2)).

Definition k_stack_init (buffer num_entries : Z) : M St unit :=
  w <- sget wait_q ;;
  kmod (z_waitq_init w) ;;
  smod (fun s => s <| next := buffer |> <| base := buffer |>) ;;
  smod (fun s => s <| top := base s + num_entries |>).

(** [z_thread_malloc] is an argument (in cells). *)
Definition z_impl_k_stack_alloc_init (z_thread_malloc : Z -> option Z) (num_entries : Z) : M St Z :=
  match z_thread_malloc num_entries with
  | Some buffer =>
      k_stack_init buffer num_entries ;;
      smod (fun s => s <| flags := K_STACK_FLAG_ALLOC |>) ;;
      ret 0
  | None => ret (- ENOMEM)
  end.

Definition k_stack_cleanup : M St Z :=
  w <- sget wait_q ;;
  waiter <- kget (z_waitq_head w) ;;
  match waiter with
  | Some _ => ret (- EAGAIN)
  | None =>
      smod (fun s => if flag_set (flags s) K_STACK_FLAG_ALLOC
                     then s <| base := 0 |>
                            <| flags ::= fun f => Z.land f (Z.lnot K_STACK_FLAG_ALLOC) |>
                     else s) ;;
      ret 0
  end.

Definition z_impl_k_stack_push (data : Z) : M St Z :=
  key <- k_spin_lock ;;
  s <- sget (fun s => s) ;;
  if next s =? top s then
    k_spin_unlock key ;;
    ret (- ENOMEM)
  else
    first_pending_thread <- kcall (z_unpend_first_thread (wait_q s)) ;;
    match first_pending_thread with
    | Some t =>
        kmod (z_thread_return_value_set_with_data t 0 data) ;;
        kmod (z_ready_thread t) ;;
        z_reschedule key ;;
        ret 0
    | None =>
        omod (fun o => (o.1 <| next ::= fun n => n + 1 |>, <[next o.1 := data]> o.2)) ;;
        k_spin_unlock key ;;
        ret 0
    end.

(** The second component is the value stored through [data]. *)
Definition z_impl_k_stack_pop (timeout : Z) : M St (Z * option Z) :=
  key <- k_spin_lock ;;
  s <- sget (fun s => s) ;;
  if next s >? base s then
    smod (fun s => s <| next ::= fun n => n - 1 |>) ;;
    data <- oget (fun o => o.2 (next o.1)) ;;
    k_spin_unlock key ;;
    ret (0, Some data)
  else if timeout =? K_NO_WAIT then
    k_spin_unlock key ;;
    ret (- EBUSY, None)
  else
    result <- z_pend_curr key (wait_q s) timeout ;;
    if result =? - EAGAIN then ret (- EAGAIN, None)
    else
      data <- kget (fun k => swap_data (threads k (current k))) ;;
      ret (0, Some data).

(** ** Abstraction and invariant *)

Definition contents (o : k_stack * (Z -> Z)) : list Z :=
  (fun i => o.2 (base o.1 + i)) <$> seqZ 0 (next o.1 - base o.1).

Record inv (s : St) : Prop := {
  inv_ptrs : base s.2.1 <= next s.2.1 <= top s.2.1;
  inv_wait : waitqs s.1 (wait_q s.2.1) <> [] -> next s.2.1 = base s.2.1
}.

Lemma stack_inv_stable : stable inv.
Proof. intros k k' o _ Hw _ [H1 H2]. split; [done|]. simpl in *. by rewrite Hw. Qed.

Lemma contents_push s c x :
  base s <= next s ->
  contents (s <| next ::= fun n => n + 1 |>, <[next s := x]> c) = contents (s, c) ++ [x].
Proof.
  intros Hb. unfold contents. simpl.
  replace (next s + 1 - base s) with (next s - base s + 1) by lia.
  rewrite seqZ_app by lia. rewrite fmap_app. f_equal.
  - apply list_fmap_ext. intros i y Hy. apply lookup_seqZ in Hy as [-> Hi].
    rewrite fn_lookup_insert_ne by lia. done.
  - change (seqZ (0 + (next s - base s)) 1) with [0 + (next s - base s)]. cbn [fmap list_fmap].
    replace (base s + (0 + (next s - base s))) with (next s) by lia. by rewrite fn_lookup_insert.
Qed.

Lemma contents_pop s c :
  base s < next s ->
  contents (s, c) = contents (s <| next ::= fun n => n - 1 |>, c) ++ [c (next s - 1)].
Proof.
  intros Hb. unfold contents. simpl.
  replace (next s - base s) with (next s - 1 - base s + 1) by lia.
  rewrite seqZ_app by lia. rewrite fmap_app. f_equal.
  change (seqZ (0 + (next s - 1 - base s)) 1) with [0 + (next s - 1 - base s)]. cbn [fmap list_fmap].
  do 2 f_equal. lia.
Qed.

(** ** Operations *)

Section Ops.
Context (k : kernel) (s : k_stack) (c : Z -> Z).

Inductive push_case (data : Z) : outcome St Z -> Prop :=
| push_full : next s = top s -> push_case data (Done (- ENOMEM) (k, (s, c)))
| push_stored s' c' :
    next s < top s -> waitqs k (wait_q s) = [] -> inv (k, (s', c')) ->
    contents (s', c') = contents (s, c) ++ [data] ->
    push_case data (Done 0 (k, (s', c')))
| push_handed t k' :
    contents (s, c) = [] -> woken (wait_q s) t 0 (k <| irq_locked := true |>) k' ->
    swap_data (threads k' t) = data ->
    push_case data (obind (z_reschedule (negb (irq_locked k)) (k', (s, c))) (fun _ => ret 0)).

Lemma push_cases data :
  kwf k -> inv (k, (s, c)) -> push_case data (z_impl_k_stack_push data (k, (s, c))).
Proof.
  intros Hk [Hp Hq]. simpl in *. unfold z_impl_k_stack_push, sget. run_code.
  set (k0 := k <| irq_locked := true |>). assert (Hk0 : kwf k0) by (by apply kwf_irq).
  destruct (next s =? top s) eqn:E; cbn [obind fst snd].
  { rewrite unlock_id. apply push_full. lia. }
  destruct (z_unpend_first_thread (wait_q s) k0) as [[t|] k1] eqn:Et; cbn [obind fst snd].
  - pose proof (wake_first _ _ _ _ 0 (fun x => x <| swap_retval := 0 |> <| swap_data := data |>) Hk0 Et
      ltac:(done) ltac:(done)) as Hwo.
    apply (push_handed data t).
    + assert (Hne : waitqs k (wait_q s) <> []).
      { pose proof (wo_wq _ _ _ _ _ Hwo) as E'. change (waitqs k0) with (waitqs k) in E'. by rewrite E'. }
      unfold contents. simpl. by rewrite (Hq Hne), Z.sub_diag.
    + exact Hwo.
    + unfold z_ready_thread. rewrite (kf_swap_data _ _ (ready_thread_frame t _)).
      unfold z_thread_return_value_set_with_data. by rewrite threads_upd_thread, decide_True.
  - apply z_unpend_first_thread_none in Et as [-> Ew]. rewrite unlock_id.
    apply push_stored; [lia|done| |apply contents_push; lia].
    split; simpl; [lia|]. change (waitqs k0) with (waitqs k) in Ew. by rewrite Ew.
Qed.
End Ops.

(** The result of [k_stack_pop]. *)
Definition pop_result (tm : Z) (k : kernel) (s : k_stack) (c : Z -> Z) (r : Z * option Z) (s' : St) : Prop :=
  match list.last (contents (s, c)) with
  | Some x => r = (0, Some x) /\ s'.1 = k /\ contents (s, c) = contents s'.2 ++ [x]
  | None =>
      if tm =? K_NO_WAIT then r = (- EBUSY, None) /\ s' = (k, (s, c))
      else if swap_retval (threads s'.1 (current k)) =? - EAGAIN then r = (- EAGAIN, None)
      else r = (0, Some (swap_data (threads s'.1 (current k))))
  end.

Lemma contents_empty s c : next s = base s -> contents (s, c) = [].
Proof. intros E. unfold contents. simpl. by rewrite E, Z.sub_diag. Qed.

Lemma pop_runs tm k s c :
  krun k -> inv (k, (s, c)) -> current k <> idle_thread k ->
  runs inv (current k)
    (fun r s' => returned inv (current k) (irq_locked k) s' /\ pop_result tm k s c r s')
    (z_impl_k_stack_pop tm (k, (s, c))).
Proof.
  intros Hk HJ Hi. pose proof HJ as [Hp Hq]. simpl in *.
  unfold z_impl_k_stack_pop, sget, smod. run_code.
  destruct (next s >? base s) eqn:E; cbn [obind fst snd].
  - rewrite unlock_id. cbn [runs]. pose proof (contents_pop s c ltac:(lia)) as Ec. unfold pop_result.
    rewrite Ec, last_snoc. split; [|done]. unfold returned. split_and!; try done.
    split; simpl; [lia|]. intros Hw%Hq. lia.
  - assert (Ec : contents (s, c) = []) by (apply contents_empty; lia).
    unfold pop_result. rewrite Ec. simpl list.last. destruct (tm =? K_NO_WAIT) eqn:Et; cbn [obind fst snd].
    + rewrite unlock_id. cbn [runs]. unfold returned. by split_and!.
    + eapply runs_bind; [apply (pend_returned_runs inv stack_inv_stable)|]; try done.
      * intros k' _. split; [done|]. simpl. lia.
      * intros r [k' o'] [Hr ->]. cbn [fst snd] in *.
        destruct Hr as (R1 & R2 & R3 & R4). simpl in R3.
        destruct (_ =? - EAGAIN) eqn:Er; cbn [obind fst snd runs]; rewrite ?R3; unfold returned; split_and!; rewrite ?Er; done.
Qed.

Lemma push_runs data k s c :
  krun k -> inv (k, (s, c)) ->
  runs inv (current k) (fun _ => returned inv (current k) (irq_locked k))
    (z_impl_k_stack_push data (k, (s, c))).
Proof.
  intros Hk HJ. destruct (push_cases k s c data (kru_wf _ Hk) HJ) as [E|s' c' E Ew Hs Hc|t k' Hc Hw Hd].
  - by split_and!.
  - split; [apply Hk|]. by split.
  - eapply runs_bind; [|by intros a x Hx; exact Hx].
    eapply woken_resched_runs; [apply stack_inv_stable|done|exact Hw|]. split; [apply HJ|]. simpl. intros _.
    destruct HJ as [Hp Hq]. apply Hq. simpl. pose proof (wo_wq _ _ _ _ _ Hw) as E.
    change (waitqs (k <| irq_locked := true |>)) with (waitqs k) in E. by rewrite E.
Qed.

(** ** Properties *)

(** [k_stack_push] fails with -ENOMEM on a full stack; otherwise it
    appends the value, or, if a thread waits (the stack is then empty), hands
    it to the first waiter through [swap_data] with return value 0. *)
Theorem k_stack_push_refines data k s c :
  kwf k -> inv (k, (s, c)) -> push_case k s c data (z_impl_k_stack_push data (k, (s, c))).
Proof. apply push_cases. Qed.

Lemma k_stack_push_refines_witness :
  push_case (demo false) (mk_stack 7 10 10 20 0) (fun _ => 0) 5
    (z_impl_k_stack_push 5 (demo false, (mk_stack 7 10 10 20 0, fun _ => 0))).
Proof.
  apply (k_stack_push_refines 5 (demo false) (mk_stack 7 10 10 20 0) (fun _ => 0)); [apply demo_wf|].
  split; simpl; [lia|done].
Defined.
(** [k_stack_pop] returns the last value pushed and removes it; on an
    empty stack it returns -EBUSY under K_NO_WAIT, and otherwise waits and
    returns what a push handed over, or -EAGAIN; the stack and scheduler
    invariants hold whenever the CPU changes hands. *)
Theorem k_stack_pop_refines tm k s c :
  krun k -> inv (k, (s, c)) -> current k <> idle_thread k ->
  runs inv (current k)
    (fun r s' => returned inv (current k) (irq_locked k) s' /\ pop_result tm k s c r s')
    (z_impl_k_stack_pop tm (k, (s, c))).
Proof. apply pop_runs. Qed.

Lemma k_stack_pop_refines_witness :
  runs inv 1
    (fun r s' => returned inv 1 false s' /\ pop_result K_NO_WAIT (demo false) (mk_stack 8 10 12 20 0) (fun a => a) r s')
    (z_impl_k_stack_pop K_NO_WAIT (demo false, (mk_stack 8 10 12 20 0, fun a => a))).
Proof.
  apply (k_stack_pop_refines K_NO_WAIT (demo false) (mk_stack 8 10 12 20 0) (fun a => a)).
  - exact demo_run.
  - split; simpl; [lia|done].
  - discriminate.
Defined.

End Stack.
