(* ===== verification/MemSlab.v ===== *)
(** Memory slabs (kernel/mem_slab.c).

    The free blocks of a slab are linked through their own first words; the
    model keeps the words of memory.  [owns A s] says that the blocks of the
    slab are split between the chain of free blocks and the list [A] of blocks
    handed out.  The theorems show that allocation moves one block from the
    chain to [A] and freeing moves it back, or passes it to a waiting thread,
    so no block is ever handed out twice. *)
From S2P Require Import Prelude Timeout Kernel Sched SchedInv SchedApi Demo.

Module MemSlab.

Record k_mem_slab := mk_slab {
  wait_q : wqid;
  num_blocks : Z;
  block_size : Z;
  buffer : Z;
  free_list : Z;
  num_used : Z
}.

#[export] Instance set_free_list : Settable free_list := fun f s =>
  mk_slab (wait_q s) (num_blocks s) (block_size s) (buffer s) (f (free_list s)) (num_used s).
#[export] Instance set_num_used : Settable num_used := fun f s =>
  mk_slab (wait_q s) (num_blocks s) (block_size s) (buffer s) (free_list s) (f (num_used s)).

Definition NULL : Z := 0.
(** The size of a pointer on a 32 bit target. *)
Definition PTR_SIZE : Z := 4.

(** The slab and the pointer sized words of memory. *)
Abbreviation words := (Z -> Z).
Abbreviation St := (kernel * (k_mem_slab * words))%type.

(** The loop of [create_free_list]. *)
Fixpoint link_blocks (n : nat) (p size head : Z) (w : words) : Z * words :=
  match n with
  | O => (head, w)
  | S n' => link_blocks n' (p + size) size p (<[p := head]> w)
  end.

Definition create_free_list (o : k_mem_slab * words) : Z * (k_mem_slab * words) :=
  let '(slab, w) := o in
  if negb (Z.land (Z.lor (block_size slab) (buffer slab)) (PTR_SIZE - 1) =? 0) then (- EINVAL, o)
  else
    let '(head, w') :=
      link_blocks (Z.to_nat (num_blocks slab)) (buffer slab) (block_size slab) NULL w in
    (0, (slab <| free_list := head |>, w')).

Definition k_mem_slab_init (buf size num : Z) : M St Z :=
  omod (fun o => (mk_slab (wait_q o.1) num size buf (free_list o.1) 0, o.2)) ;;
  rc <- (fun s => let '(rc, o) := create_free_list s.2 in Done rc (s.1, o)) ;;
  if rc <? 0 then ret rc
  else
    w <- oget (fun o => wait_q o.1) ;;
    kmod (z_waitq_init w) ;;
    ret rc.

(** The second component is the value stored through [mem]. *)
Definition k_mem_slab_alloc (timeout : Z) : M St (Z * option Z) :=
  key <- k_spin_lock ;;
  fl <- oget (fun o => free_list o.1) ;;
  if negb (fl =? NULL) then
    omod (fun o => (o.1 <| free_list := o.2 fl |> <| num_used ::= fun n => n + 1 |>, o.2)) ;;
    k_spin_unlock key ;;
    ret (0, Some fl)
  else if timeout =? K_NO_WAIT then
    k_spin_unlock key ;;
    ret (- ENOMEM, Some NULL)
  else
    w <- oget (fun o => wait_q o.1) ;;
    result <- z_pend_curr key w timeout ;;
    if result =? 0 then
      mem <- kget (fun k => swap_data (threads k (current k))) ;;
      ret (result, Some mem)
    else ret (result, None).

(** [mem] is the block, [*mem] in C. *)
Definition k_mem_slab_free (mem : Z) : M St unit :=
  key <- k_spin_lock ;;
  slab <- oget (fun o => o.1) ;;
  pending_thread <- (if free_list slab =? NULL
                     then kcall (z_unpend_first_thread (wait_q slab)) else ret None) ;;
  match pending_thread with
  | Some t =>
      kmod (z_thread_return_value_set_with_data t 0 mem) ;;
      kmod (z_ready_thread t) ;;
      z_reschedule key
  | None =>
      omod (fun o => (o.1 <| free_list := mem |> <| num_used ::= fun n => n - 1 |>,
                      <[mem := free_list o.1]> o.2)) ;;
      k_spin_unlock key
  end.

Record sys_memory_stats := mk_stats { free_bytes : Z; allocated_bytes : Z; max_allocated_bytes : Z }.

Definition k_mem_slab_runtime_stats_get (slab : k_mem_slab) : sys_memory_stats :=
  mk_stats ((num_blocks slab - num_used slab) * block_size slab) (num_used slab * block_size slab) 0.

(** ** Ownership of blocks *)

Definition blocks (slab : k_mem_slab) : list Z :=
  (fun i => buffer slab + i * block_size slab) <$> seqZ 0 (num_blocks slab).

(** The blocks linked from [p]. *)
Fixpoint chain (w : words) (p : Z) (l : list Z) : Prop :=
  match l with
  | [] => p = NULL
  | b :: r => p = b /\ b <> NULL /\ chain w (w b) r
  end.

Record owns (A : list Z) (s : St) : Prop := {
  ow_size : 0 < block_size s.2.1;
  ow_count : 0 <= num_blocks s.2.1;
  ow_free : exists free, chain s.2.2 (free_list s.2.1) free
                         /\ free ++ A ≡ₚ blocks s.2.1
                         /\ (waitqs s.1 (wait_q s.2.1) <> [] -> free = []);
  ow_used : num_used s.2.1 = Z.of_nat (length A)
}.

Definition inv (s : St) : Prop := exists A, owns A s.

Lemma owns_stable A : stable (owns A).
Proof.
  intros k k' o _ Hw _ [H1 H2 (f & H3 & H4 & H5) H6]. split; try done.
  exists f. simpl in *. by rewrite Hw.
Qed.

Lemma slab_inv_stable : stable inv.
Proof. intros k k' o H1 H2 H3 [A HA]. exists A. by eapply owns_stable. Qed.

Lemma blocks_nodup slab : 0 < block_size slab -> NoDup (blocks slab).
Proof.
  intros Hs. unfold blocks. apply NoDup_fmap_2_strong; [|apply NoDup_seqZ].
  intros x y _ _ E. nia.
Qed.

Lemma chain_insert w p l b v : b ∉ l -> chain w p l -> chain (<[b := v]> w) p l.
Proof.
  revert p. induction l as [|a l IH]; intros p Hb; simpl; [done|].
  apply not_elem_of_cons in Hb as [Hne Hb]. intros (-> & Hn & Hc). split_and!; try done.
  rewrite fn_lookup_insert_ne by done. by apply IH.
Qed.

Lemma chain_null w l : chain w NULL l -> l = [].
Proof. destruct l as [|b l]; [done|]. simpl. intros (-> & Hn & _). done. Qed.

(** ** Initialisation *)

Lemma link_blocks_spec n p size head w l :
  0 < size -> 0 < p -> chain w head l -> Forall (fun b => b < p) l ->
  let '(h, w') := link_blocks n p size head w in
  chain w' h (reverse ((fun i => p + i * size) <$> seqZ 0 (Z.of_nat n)) ++ l).
Proof.
  intros Hs. revert p head w l. induction n as [|n IH]; intros p head w l Hp Hc Hl; [done|].
  cbn [link_blocks]. specialize (IH (p + size) p (<[p := head]> w) (p :: l)).
  assert (Hni : p ∉ l) by (intros Hin; rewrite Forall_forall in Hl; specialize (Hl p Hin); simpl in Hl; lia).
  destruct (link_blocks n (p + size) size p (<[p := head]> w)) as [h w'].
  rewrite seqZ_cons by lia. rewrite fmap_cons, reverse_cons, <-app_assoc. simpl.
  replace (p + 0 * size) with p by lia.
  replace (Z.pred (Z.of_nat (S n))) with (Z.of_nat n) by lia.
  replace (Z.succ 0) with (1 + 0) by lia. rewrite <-(fmap_add_seqZ 1 0), <-list_fmap_compose.
  replace ((fun i => p + i * size) ∘ Z.add 1 <$> seqZ 0 (Z.of_nat n))
    with ((fun i => p + size + i * size) <$> seqZ 0 (Z.of_nat n))
    by (apply list_fmap_ext; intros i x _; simpl; lia).
  apply IH; [lia| |].
  - simpl. split_and!; [done|unfold NULL; lia|]. rewrite fn_lookup_insert. by apply chain_insert.
  - constructor; [lia|]. eapply Forall_impl; [exact Hl|]. simpl. lia.
Qed.

Lemma init_owns buf size num k slab w :
  0 < size -> 0 < buf -> 0 <= num -> Z.land (Z.lor size buf) (PTR_SIZE - 1) = 0 ->
  exists o', k_mem_slab_init buf size num (k, (slab, w)) = Done 0 (z_waitq_init (wait_q slab) k, o')
    /\ owns [] (z_waitq_init (wait_q slab) k, o').
Proof.
  intros Hs Hb Hn Ha. unfold k_mem_slab_init. run_code. unfold create_free_list. simpl.
  rewrite Ha. simpl. pose proof (link_blocks_spec (Z.to_nat num) buf size NULL w [] Hs Hb eq_refl
    (Forall_nil_2 _)) as Hc.
  destruct (link_blocks _ _ _ _ _) as [h w']. simpl. eexists. split; [reflexivity|].
  split; [done|done| |done].
  eexists. split; [exact Hc|]. rewrite !app_nil_r, Z2Nat.id by done. split; [by rewrite reverse_Permutation|].
  cbn [fst snd wait_q]. unfold z_waitq_init. by rewrite waitqs_upd_waitq, decide_True.
Qed.

(** ** Allocation *)

Inductive alloc_case (A : list Z) (k : kernel) (slab : k_mem_slab) (w : words) (tm : Z)
  : outcome St (Z * option Z) -> Prop :=
| alloc_taken b slab' :
    b ∈ blocks slab -> b ∉ A -> owns (b :: A) (k, (slab', w)) -> blocks slab' = blocks slab ->
    alloc_case A k slab w tm (Done (0, Some b) (k, (slab', w)))
| alloc_empty :
    A ≡ₚ blocks slab -> tm = K_NO_WAIT ->
    alloc_case A k slab w tm (Done (- ENOMEM, Some NULL) (k, (slab, w)))
| alloc_waits :
    A ≡ₚ blocks slab -> tm <> K_NO_WAIT ->
    alloc_case A k slab w tm
      (obind (z_pend_curr (negb (irq_locked k)) (wait_q slab) tm (k <| irq_locked := true |>, (slab, w)))
         (fun r => if r =? 0
                   then mem <- kget (fun k => swap_data (threads k (current k))) ;; ret (r, Some mem)
                   else ret (r, None))).

Lemma alloc_cases A k slab w tm :
  owns A (k, (slab, w)) -> alloc_case A k slab w tm (k_mem_slab_alloc tm (k, (slab, w))).
Proof.
  intros [H1 H2 (free & Hc & Hp & Hw) H4]. simpl in *. unfold k_mem_slab_alloc. run_code.
  destruct (free_list slab =? NULL) eqn:E; cbn [negb].
  - apply Z.eqb_eq in E. rewrite E in Hc. apply chain_null in Hc as ->. simpl in Hp.
    destruct (tm =? K_NO_WAIT) eqn:Et; cbn [obind fst snd].
    + rewrite unlock_id. apply alloc_empty; [done|lia].
    + apply alloc_waits; [done|lia].
  - apply Z.eqb_neq in E. destruct free as [|b free]; [done|]. simpl in Hc. destruct Hc as (Eb & Hn & Hc).
    cbn [obind fst snd]. rewrite unlock_id, Eb.
    pose proof (blocks_nodup slab H1) as Hnd. rewrite <-Hp in Hnd. simpl in Hnd.
    apply NoDup_cons in Hnd as [Hni _].
    apply alloc_taken; [rewrite <-Hp; by left|intros ?; apply Hni; apply elem_of_app; by right| |done].
    split; simpl; [done|done| |lia]. exists free. split; [done|]. split.
    + rewrite <-Hp. simpl. by rewrite Permutation_middle.
    + intros Hne%Hw. done.
Qed.

(** ** Freeing *)

Inductive free_case (A : list Z) (k : kernel) (slab : k_mem_slab) (w : words) (b : Z)
  : outcome St unit -> Prop :=
| free_linked A' slab' w' :
    A ≡ₚ b :: A' -> owns A' (k, (slab', w')) -> blocks slab' = blocks slab ->
    free_case A k slab w b (Done tt (k, (slab', w')))
| free_handed t k' :
    woken (wait_q slab) t 0 (k <| irq_locked := true |>) k' -> swap_data (threads k' t) = b ->
    owns A (k', (slab, w)) ->
    free_case A k slab w b (z_reschedule (negb (irq_locked k)) (k', (slab, w))).

Lemma free_link A A' k slab w b :
  owns A (k, (slab, w)) -> A ≡ₚ b :: A' -> b <> NULL ->
  waitqs k (wait_q slab) = [] \/ free_list slab <> NULL ->
  owns A' (k, (slab <| free_list := b |> <| num_used ::= fun n => n - 1 |>, <[b := free_list slab]> w)).
Proof.
  intros [H1 H2 (free & Hc & Hp & Hw) H4] HA Hn He. simpl in *.
  pose proof (blocks_nodup slab H1) as Hnd. rewrite <-Hp, HA in Hnd.
  assert (Hni : b ∉ free).
  { intros Hin. apply NoDup_app in Hnd as (_ & Hd & _). apply (Hd b Hin). by left. }
  split; simpl; [done|done| |].
  - exists (b :: free). split; [simpl; split_and!; [done|done|]; rewrite fn_lookup_insert; by apply chain_insert|].
    split; [|].
    + rewrite <-Hp, HA. simpl. by rewrite Permutation_middle.
    + intros Hne. destruct He as [He|He]; [done|]. rewrite (Hw Hne) in Hc. done.
  - rewrite H4, HA. simpl. lia.
Qed.

Lemma free_cases A k slab w b :
  kwf k -> owns A (k, (slab, w)) -> b ∈ A -> 0 < buffer slab ->
  free_case A k slab w b (k_mem_slab_free b (k, (slab, w))).
Proof.
  intros Hk Ho Hb Hbuf. pose proof Ho as [H1 H2 (free & Hc & Hp & Hw) H4]. simpl in *.
  destruct (elem_of_Permutation A b) as [Hex _]. destruct (Hex Hb) as [A' HA].
  assert (Hn : b <> NULL).
  { assert (Hin : b ∈ blocks slab) by (rewrite <-Hp; apply elem_of_app; by right).
    unfold blocks in Hin. apply list_elem_of_fmap in Hin as (i & -> & Hi). apply elem_of_seqZ in Hi.
    unfold NULL. nia. }
  unfold k_mem_slab_free. run_code.
  set (k0 := k <| irq_locked := true |>). assert (Hk0 : kwf k0) by (by apply kwf_irq).
  assert (Hlink : waitqs k (wait_q slab) = [] \/ free_list slab <> NULL -> free_case A k slab w b
    (Done tt (k0 <| irq_locked := negb (negb (irq_locked k)) |>,
      (slab <| free_list := b |> <| num_used ::= fun n => n - 1 |>, <[b := free_list slab]> w)))).
  { intros He. unfold k0. rewrite unlock_id. eapply free_linked; [exact HA|by eapply free_link|done]. }
  destruct (free_list slab =? NULL) eqn:E.
  - destruct (z_unpend_first_thread (wait_q slab) k0) as [[t|] k1] eqn:Et; cbn [obind fst snd].
    + pose proof (wake_first _ _ _ _ 0 (fun x => x <| swap_retval := 0 |> <| swap_data := b |>) Hk0 Et
        ltac:(done) ltac:(done)) as Hwo.
      rewrite Et. cbn [obind fst snd]. eapply free_handed; [exact Hwo| |].
      * unfold z_ready_thread. rewrite (kf_swap_data _ _ (ready_thread_frame t _)).
        unfold z_thread_return_value_set_with_data. by rewrite threads_upd_thread, decide_True.
      * split; try done. exists free. split_and!; try done. simpl. intros _. apply Hw.
        pose proof (wo_wq _ _ _ _ _ Hwo) as E'. change (waitqs k0) with (waitqs k) in E'. by rewrite E'.
    + rewrite Et. cbn [obind fst snd].
      apply z_unpend_first_thread_none in Et as [-> Ew]. apply Hlink. by left.
  - apply Hlink. right. by apply Z.eqb_neq.
Qed.

(** ** Safety *)

Lemma alloc_runs tm k slab w :
  krun k -> inv (k, (slab, w)) -> current k <> idle_thread k ->
  runs inv (current k) (fun _ => returned inv (current k) (irq_locked k))
    (k_mem_slab_alloc tm (k, (slab, w))).
Proof.
  intros Hk [A HA] Hi. destruct (alloc_cases A k slab w tm HA) as [b slab' Hb Hni Ho _|Hp Ht|Hp Ht].
  - split_and!; try done. by exists (b :: A).
  - split_and!; try done. by exists A.
  - eapply runs_bind; [apply (pend_returned_runs inv slab_inv_stable)|]; try done.
    + intros k' _. exists A. destruct HA as [H1 H2 (free & Hc & Hf & Hw) H4]. split; try done.
      exists free. split_and!; try done. intros _. simpl in *.
      assert (Hl : length (free ++ A) = length A) by (by rewrite Hf, Hp).
      rewrite length_app in Hl. apply nil_length_inv. lia.
    + intros r s [Hr _]. by destruct (r =? 0).
Qed.

Lemma free_runs b k slab w A :
  krun k -> owns A (k, (slab, w)) -> b ∈ A -> 0 < buffer slab ->
  runs inv (current k) (fun _ => returned inv (current k) (irq_locked k))
    (k_mem_slab_free b (k, (slab, w))).
Proof.
  intros Hk HA Hb Hbuf. destruct (free_cases A k slab w b (kru_wf _ Hk) HA Hb Hbuf)
    as [A' slab' w' Hp Ho _|t k' Hw Hd Ho].
  - split_and!; try done. by exists A'.
  - eapply woken_resched_runs; [apply slab_inv_stable|done|exact Hw|by exists A].
Qed.

(** ** Properties *)

(** [k_mem_slab_init] of an aligned buffer links every block into the
    free list exactly once and hands out none. *)
Theorem k_mem_slab_init_links buf size num k slab w :
  0 < size -> 0 < buf -> 0 <= num -> Z.land (Z.lor size buf) (PTR_SIZE - 1) = 0 ->
  exists o', k_mem_slab_init buf size num (k, (slab, w)) = Done 0 (z_waitq_init (wait_q slab) k, o')
    /\ owns [] (z_waitq_init (wait_q slab) k, o').
Proof. apply init_owns. Qed.

Lemma k_mem_slab_init_links_witness :
  exists o', k_mem_slab_init 1000 16 3 (demo false, (mk_slab 8 0 0 0 0 0, fun _ => 0))
             = Done 0 (z_waitq_init 8 (demo false), o')
    /\ owns [] (z_waitq_init 8 (demo false), o').
Proof.
  apply (k_mem_slab_init_links 1000 16 3 (demo false) (mk_slab 8 0 0 0 0 0) (fun _ => 0));
    [lia|lia|lia|reflexivity].
Defined.

(** [k_mem_slab_alloc] hands out a block of the slab that nobody holds,
    and afterwards that block is held; with every block held it returns
    -ENOMEM and NULL under K_NO_WAIT and otherwise waits. *)
Theorem k_mem_slab_alloc_fresh A k slab w tm :
  owns A (k, (slab, w)) -> alloc_case A k slab w tm (k_mem_slab_alloc tm (k, (slab, w))).
Proof. apply alloc_cases. Qed.

Lemma k_mem_slab_alloc_fresh_witness :
  alloc_case [] (demo false) (mk_slab 8 1 16 1000 1000 0) (fun _ => 0) K_NO_WAIT
    (k_mem_slab_alloc K_NO_WAIT (demo false, (mk_slab 8 1 16 1000 1000 0, fun _ => 0))).
Proof.
  apply (k_mem_slab_alloc_fresh [] (demo false) (mk_slab 8 1 16 1000 1000 0) (fun _ => 0) K_NO_WAIT).
  split; simpl; [lia|lia| |lia]. exists [1000]. by split_and!.
Defined.

(** [k_mem_slab_free] of a held block puts it back on the free list, or,
    if a thread waits (no block is free then), passes it to the first waiter,
    which wakes up with 0 and the block in [swap_data]; no other block changes
    hands. *)
Theorem k_mem_slab_free_returns A k slab w b :
  kwf k -> owns A (k, (slab, w)) -> b ∈ A -> 0 < buffer slab ->
  free_case A k slab w b (k_mem_slab_free b (k, (slab, w))).
Proof. apply free_cases. Qed.

Lemma k_mem_slab_free_returns_witness :
  free_case [1000] (demo false) (mk_slab 7 1 16 1000 0 1) (fun _ => 0) 1000
    (k_mem_slab_free 1000 (demo false, (mk_slab 7 1 16 1000 0 1, fun _ => 0))).
Proof.
  apply (k_mem_slab_free_returns [1000] (demo false) (mk_slab 7 1 16 1000 0 1) (fun _ => 0) 1000).
  - apply demo_wf.
  - split; simpl; [lia|lia| |lia]. exists []. by split_and!.
  - by left.
  - simpl. lia.
Defined.

End MemSlab.
