(* ===== verification/Condvar.v ===== *)
(** Condition variables (kernel/condvar.c).

    A condition variable is a wait queue [w]; waiting releases the mutex the
    call is given, which is the object part of the state.  The theorems show
    that releasing the mutex and joining the wait queue is one atomic step for
    all other threads (no wakeup is lost in between), that the caller comes
    back only after locking the mutex again, and what signal and broadcast
    wake. *)
From S2P Require Import Prelude Timeout Kernel Sched SchedInv SchedApi Demo Mutex.
Import Mutex.

Module Condvar.

Definition z_impl_k_condvar_init (w : wqid) : M (kernel * k_mutex) Z :=
  kmod (z_waitq_init w) ;; ret 0.

Definition z_impl_k_condvar_signal (w : wqid) : M (kernel * k_mutex) Z :=
  key <- k_spin_lock ;;
  thread <- kcall (z_unpend_first_thread w) ;;
  match thread with
  | Some t =>
      kmod (arch_thread_return_value_set t 0) ;;
      kmod (z_ready_thread t) ;;
      z_reschedule key
  | None => k_spin_unlock key
  end ;;
  ret 0.

Definition z_impl_k_condvar_broadcast (w : wqid) : M (kernel * k_mutex) Z :=
  key <- k_spin_lock ;;
  woken <- kcall (fun k => unpend_first_loop
             (fun t k => z_ready_thread t (arch_thread_return_value_set t 0 k))
             (length (waitqs k w)) w 0 k) ;;
  z_reschedule key ;;
  ret woken.

Definition z_impl_k_condvar_wait (w : wqid) (timeout : Z) : M (kernel * k_mutex) Z :=
  key <- k_spin_lock ;;
  _ <- z_impl_k_mutex_unlock ;;
  ret_ <- z_pend_curr key w timeout ;;
  _ <- z_impl_k_mutex_lock K_FOREVER ;;
  ret ret_.

(** With interrupts masked, [z_reschedule] does not switch. *)
Lemma z_reschedule_masked {O} k (o : O) :
  z_reschedule false (k, o) = Done tt (k <| irq_locked := true |>, o).
Proof. done. Qed.

(** Unlocking with interrupts masked. *)
Lemma unlock_masked W k m :
  krun k -> irq_locked k = true -> with_waiters W (k, m) -> current k ∉ W ->
  owner m = Some (current k) -> lock_count m = 1 ->
  exists k' m', z_impl_k_mutex_unlock (k, m) = Done 0 (k', m')
    /\ left_with W (current k) true (k', m')
    /\ idle_thread k' = idle_thread k
    /\ owner m' = head (waitqs k (wait_q m)) /\ wait_q m' = wait_q m
    /\ (owner m' = None -> lock_count m' = 0).
Proof.
  intros Hk Hirq HW Hni Ho Hc. destruct (waitqs k (wait_q m)) as [|t r] eqn:Ew.
  - destruct (unlock_last W k m) as (k' & m' & Hl & E & H1 & H2 & H3 & H4); try done.
    rewrite Hirq in Hl. exists k', m'. by split_and!.
  - destruct (unlock_handover W k m t r) as (k' & m' & Hh & ->); try done.
    rewrite Hirq. cbn [negb]. rewrite z_reschedule_masked. cbn [obind].
    eexists _, _. split; [reflexivity|]. destruct Hh as [H1 H2 H3 H4 H5 H6 H7 H8 H9 H10 H11].
    split; [|split; [apply (cx_idle _ _ H3)|split; [by rewrite H4|split; [done|congruence]]]].
    split; [by apply krun_irq|]. split; [by apply waiters_irq|]. split; [apply (cx_current _ _ H3)|done].
Qed.

Lemma wait_atomic W w tm k m :
  krun k -> with_waiters W (k, m) -> current k ∉ W ->
  owner m = Some (current k) -> lock_count m = 1 ->
  exists k' m',
    z_impl_k_condvar_wait w tm (k, m)
    = obind (z_pend_curr (negb (irq_locked k)) w tm (k', m'))
        (fun r => _ <- z_impl_k_mutex_lock K_FOREVER ;; ret r)
    /\ left_with W (current k) true (k', m') /\ idle_thread k' = idle_thread k
    /\ owner m' = head (waitqs k (wait_q m)) /\ wait_q m' = wait_q m.
Proof.
  intros Hk HW Hni Ho Hc. unfold z_impl_k_condvar_wait. unfold bind at 1, k_spin_lock. cbn [obind fst snd].
  set (k0 := k <| irq_locked := true |>).
  destruct (unlock_masked W k0 m) as (k' & m' & E & H1 & H2 & H3 & H4 & _); try done;
    [by apply krun_irq|by apply waiters_irq|].
  unfold bind at 1. rewrite E. cbn [obind]. exists k', m'. split; [reflexivity|]. by split_and!.
Qed.

(** ** Properties *)



(** [k_condvar_broadcast] wakes every waiter with 0, reports how many
    there were, and ends with a rescheduling point. *)
Theorem k_condvar_broadcast_wakes_all w k m :
  kwf k ->
  exists k', z_impl_k_condvar_broadcast w (k, m)
             = obind (z_reschedule (negb (irq_locked k)) (k', m))
                 (fun _ => ret (Z.of_nat (length (waitqs k w))))
    /\ all_woken w 0 (k <| irq_locked := true |>) k'.
Proof.
  intros Hk. unfold z_impl_k_condvar_broadcast. run_code. set (k0 := k <| irq_locked := true |>).
  destruct (unpend_first_loop_spec (fun x => x <| swap_retval := 0 |>) 0 w 0 (length (waitqs k0 w)) k0)
    as (k' & E & Hw); [by apply kwf_irq|done|done|done|].
  unfold arch_thread_return_value_set. rewrite E. cbn [obind fst snd]. by exists k'.
Qed.

Lemma k_condvar_broadcast_wakes_all_witness :
  exists k', z_impl_k_condvar_broadcast 7 (two_waiters, free_mutex)
             = obind (z_reschedule true (k', free_mutex)) (fun _ => ret 2)
    /\ all_woken 7 0 (two_waiters <| irq_locked := true |>) k'.
Proof. apply (k_condvar_broadcast_wakes_all 7 two_waiters free_mutex). apply two_waiters_run. Defined.

(** [k_condvar_signal] wakes the first waiter with 0, if there is one. *)
Lemma signal_eq w k m :
  kwf k ->
  match waitqs k w with
  | [] => z_impl_k_condvar_signal w (k, m) = Done 0 (k, m)
  | t :: _ =>
      exists k', z_impl_k_condvar_signal w (k, m)
                 = obind (z_reschedule (negb (irq_locked k)) (k', m)) (fun _ => ret 0)
        /\ woken w t 0 (k <| irq_locked := true |>) k'
  end.
Proof.
  intros Hk. unfold z_impl_k_condvar_signal. run_code. set (k0 := k <| irq_locked := true |>).
  assert (Hk0 : kwf k0) by (by apply kwf_irq). change (waitqs k w) with (waitqs k0 w).
  destruct (z_unpend_first_thread w k0) as [[t|] k1] eqn:Et; cbn [obind fst snd].
  - pose proof (wake_first _ _ _ _ 0 (fun x => x <| swap_retval := 0 |>) Hk0 Et
      ltac:(done) ltac:(done)) as Hwo.
    rewrite (wo_wq _ _ _ _ _ Hwo). eexists. split; [reflexivity|exact Hwo].
  - apply z_unpend_first_thread_none in Et as [-> Ew]. rewrite Ew. by rewrite unlock_id.
Qed.

End Condvar.
