(* ===== verification/Queue.v ===== *)
(** Kernel queues (kernel/queue.c), the base of k_fifo and k_lifo.

    A queue links data items through their own first word, or through a node
    allocated for the item and flagged in its link.  The model keeps the words
    of memory and the list of calls of [k_free]; the allocator is an argument.
    [holds l s] says which nodes are linked, [items] what data they carry. *)
From stdpp Require Import sets.
From S2P Require Import Prelude Timeout Kernel Sched SchedInv SchedApi Demo GenList SFList.

Module Queue.

Record k_queue := mk_queue { data_q : sys_sflist; wait_q : wqid }.

(** The memory the queue links and the nodes it has freed. *)
Record store := mk_store { cells : words; freed : list Z }.

Abbreviation St := (kernel * (k_queue * store))%type.

(** An [alloc_node] is a link and, one pointer further, the data. *)
Definition PTR_SIZE : Z := 4.
Definition anode_data (anode : Z) : Z := anode + PTR_SIZE.
Definition sizeof_alloc_node : Z := 2 * PTR_SIZE.

Definition k_free (p : Z) (m : store) : store := mk_store (cells m) (p :: freed m).

Definition z_queue_node_peek (node : Z) (needs_free : bool) (m : store) : Z * store :=
  if negb (node =? sf_NULL) && negb (sys_sfnode_flags_get node (cells m) =? 0) then
    (cells m (anode_data node), if needs_free then k_free node m else m)
  else (node, m).

Definition z_impl_k_queue_init : M St unit :=
  omod (fun o => (mk_queue sys_sflist_init (wait_q o.1), o.2)) ;;
  w <- oget (fun o => wait_q o.1) ;;
  kmod (z_waitq_init w).

Definition prepare_thread_to_run (t : tid) (data : Z) (k : kernel) : kernel :=
  z_ready_thread t (z_thread_return_value_set_with_data t 0 data k).

Definition z_impl_k_queue_cancel_wait : M St unit :=
  key <- k_spin_lock ;;
  w <- oget (fun o => wait_q o.1) ;;
  first_pending_thread <- kcall (z_unpend_first_thread w) ;;
  match first_pending_thread with
  | Some t => kmod (prepare_thread_to_run t sf_NULL)
  | None => ret tt
  end ;;
  z_reschedule key.

Definition put_word (a v : Z) : M St unit :=
  omod (fun o => (o.1, mk_store (<[a := v]> (cells o.2)) (freed o.2))).

Definition insert_node (prev node : Z) : M St unit :=
  omod (fun o => let '(L, c) := sys_sflist_insert prev node (data_q o.1, cells o.2) in
                 (mk_queue L (wait_q o.1), mk_store c (freed o.2))).

Definition queue_insert (z_thread_malloc : Z -> option Z) (prev data : Z) (alloc is_append : bool) : M St Z :=
  key <- k_spin_lock ;;
  q <- oget (fun o => o.1) ;;
  let prev := if is_append then sf_tail (data_q q) else prev in
  first_pending_thread <- kcall (z_unpend_first_thread (wait_q q)) ;;
  match first_pending_thread with
  | Some t =>
      kmod (prepare_thread_to_run t data) ;;
      z_reschedule key ;;
      ret 0
  | None =>
      if alloc then
        match z_thread_malloc sizeof_alloc_node with
        | None => k_spin_unlock key ;; ret (- ENOMEM)
        | Some anode =>
            put_word (anode_data anode) data ;;
            put_word anode 1 ;;
            insert_node prev anode ;;
            z_reschedule key ;;
            ret 0
        end
      else
        put_word data 0 ;;
        insert_node prev data ;;
        z_reschedule key ;;
        ret 0
  end.

(** The operations that do not allocate ignore the allocator. *)
Definition no_malloc (_ : Z) : option Z := None.

Definition k_queue_insert (prev data : Z) : M St unit :=
  _ <- queue_insert no_malloc prev data false false ;; ret tt.
Definition k_queue_append (data : Z) : M St unit :=
  _ <- queue_insert no_malloc sf_NULL data false true ;; ret tt.
Definition k_queue_prepend (data : Z) : M St unit :=
  _ <- queue_insert no_malloc sf_NULL data false false ;; ret tt.
Definition z_impl_k_queue_alloc_append (malloc : Z -> option Z) (data : Z) : M St Z :=
  queue_insert malloc sf_NULL data true true.
Definition z_impl_k_queue_alloc_prepend (malloc : Z -> option Z) (data : Z) : M St Z :=
  queue_insert malloc sf_NULL data true false.

(** The loop of [k_queue_append_list]; [fuel] bounds the number of waiters. *)
Fixpoint hand_over (fuel : nat) (w : wqid) (c : words) (head : Z) (thread : option tid) (k : kernel)
    : Z * kernel :=
  match fuel, thread with
  | S fuel, Some t =>
      if head =? sf_NULL then (head, k)
      else
        let k := prepare_thread_to_run t head k in
        let head := c head in
        let '(thread, k) := z_unpend_first_thread w k in
        hand_over fuel w c head thread k
  | _, _ => (head, k)
  end.

Definition k_queue_append_list (head tail : Z) : M St Z :=
  if (head =? sf_NULL) || (tail =? sf_NULL) then ret (- EINVAL)
  else
    key <- k_spin_lock ;;
    o <- oget (fun o => o) ;;
    fuel <- kget (fun k => S (length (waitqs k (wait_q o.1)))) ;;
    thread <- kcall (z_unpend_first_thread (wait_q o.1)) ;;
    head <- kcall (hand_over fuel (wait_q o.1) (cells o.2) head thread) ;;
    omod (fun o => if head =? sf_NULL then o else
                   let '(L, c) := sys_sflist_append_list head tail (data_q o.1, cells o.2) in
                   (mk_queue L (wait_q o.1), mk_store c (freed o.2))) ;;
    z_reschedule key ;;
    ret 0.

(** [list] is a [sys_slist_t]; the second component is its value afterwards. *)
Definition k_queue_merge_slist (list : Z * Z) : M St (Z * (Z * Z)) :=
  if list.1 =? sf_NULL then ret (- EINVAL, list)
  else
    r <- k_queue_append_list list.1 list.2 ;;
    if negb (r =? 0) then ret (r, list) else ret (0, (sf_NULL, sf_NULL)).

Definition z_impl_k_queue_get (timeout : Z) : M St Z :=
  key <- k_spin_lock ;;
  q <- oget (fun o => o.1) ;;
  if negb (sys_sflist_is_empty (data_q q)) then
    data <- (fun s => let '(node, (L, c)) := sys_sflist_get_not_empty (data_q s.2.1, cells s.2.2) in
                      let '(data, m) := z_queue_node_peek node true (mk_store c (freed s.2.2)) in
                      Done data (s.1, (mk_queue L (wait_q s.2.1), m))) ;;
    k_spin_unlock key ;;
    ret data
  else if timeout =? K_NO_WAIT then
    k_spin_unlock key ;;
    ret sf_NULL
  else
    r <- z_pend_curr key (wait_q q) timeout ;;
    data <- kget (fun k => swap_data (threads k (current k))) ;;
    ret (if negb (r =? 0) then sf_NULL else data).

(** [None] when [fuel] steps do not reach the end of the list. *)
Definition k_queue_remove (fuel : nat) (data : Z) : M St (option bool) :=
  fun s =>
    match sys_sflist_find_and_remove fuel data (data_q s.2.1, cells s.2.2) with
    | None => Done None s
    | Some (r, (L, c)) => Done (Some r) (s.1, (mk_queue L (wait_q s.2.1), mk_store c (freed s.2.2)))
    end.

Definition k_queue_unique_append (fuel : nat) (data : Z) : M St (option bool) :=
  test <- oget (fun o => find_from (N := sfnode_links) fuel sf_NULL (sf_head (data_q o.1)) data (cells o.2)) ;;
  match test with
  | None => ret None
  | Some (Some _) => ret (Some false)
  | Some None => k_queue_append data ;; ret (Some true)
  end.

Definition z_impl_k_queue_peek_head (q : k_queue) (m : store) : Z :=
  (z_queue_node_peek (sf_head (data_q q)) false m).1.
Definition z_impl_k_queue_peek_tail (q : k_queue) (m : store) : Z :=
  (z_queue_node_peek (sf_tail (data_q q)) false m).1.
Definition z_impl_k_queue_is_empty (q : k_queue) : bool := sys_sflist_is_empty (data_q q).

(** ** Abstraction and invariant *)

(** The data a node carries. *)
Definition entry (c : words) (x : Z) : Z :=
  if sys_sfnode_flags_get x c =? 0 then x else c (anode_data x).

Definition items (c : words) (l : list Z) : list Z := entry c <$> l.

(** [x] can be linked beside the nodes [l]: it is none of them, nor the data
    word of one. *)
Record linkable (c : words) (l : list Z) (x : Z) : Prop := {
  li_ok : node_ok x;
  li_fresh : x ∉ l;
  li_data y : y ∈ l -> sys_sfnode_flags_get y c <> 0 -> anode_data y <> x
}.

Record holds (l : list Z) (s : St) : Prop := {
  ho_list : sflist_is (data_q s.2.1) (cells s.2.2) l;
  ho_data x : x ∈ l -> sys_sfnode_flags_get x (cells s.2.2) <> 0 -> anode_data x ∉ l;
  ho_wait : waitqs s.1 (wait_q s.2.1) <> [] -> l = []
}.

Definition inv (s : St) : Prop := exists l, holds l s.

Lemma queue_inv_stable : stable inv.
Proof.
  intros k k' o _ Hw _ (l & [H1 H2 H3]). exists l. split; [done|done|]. simpl in *. by rewrite Hw.
Qed.

(** Relinking nodes keeps what they carry. *)
Lemma items_relinked c c' l n :
  relinked n c c' -> (forall x, x ∈ l -> sys_sfnode_flags_get x c <> 0 -> anode_data x ∉ n) ->
  items c' l = items c l.
Proof.
  intros [Hf Hw] Hd. apply list_fmap_ext. intros i x Hx%list_elem_of_lookup_2. unfold entry. rewrite Hf.
  destruct (_ =? 0) eqn:E; [done|]. apply Hw, Hd; [done|]. lia.
Qed.

(** Where [queue_insert] puts an item: after [a], before [b]. *)
Definition place (prev : Z) (is_append : bool) (a b : list Z) : Prop :=
  if is_append then b = [] else prev = default sf_NULL (list.last a).

Lemma insert_place L c a b x prev is_append :
  sflist_is L c (a ++ b) -> linkable c (a ++ b) x -> place prev is_append a b ->
  let '(L', c') := sys_sflist_insert (if is_append then sf_tail L else prev) x (L, c) in
  sflist_is L' c' (a ++ x :: b) /\ relinked (x :: a ++ b) c c'.
Proof.
  intros H [Hx Hl _] Hp.
  replace (if is_append then sf_tail L else prev) with (default sf_NULL (list.last a)).
  2:{ unfold place in Hp. destruct is_append; [|done]. subst b. rewrite (si_tail _ _ _ H). by rewrite app_nil_r. }
  destruct a as [|p a _] using rev_ind; [by apply prepend_spec|].
  rewrite last_snoc. rewrite <-!app_assoc in *. by apply insert_spec.
Qed.

(** Linking a node that was written for [data]. *)
Lemma link_spec k q m c1 a b x data prev is_append :
  let c := cells m in
  holds (a ++ b) (k, (q, m)) -> waitqs k (wait_q q) = [] ->
  place prev is_append a b -> linkable c (a ++ b) x ->
  (forall y, y ∈ a ++ b -> c1 y = c y) ->
  (forall y, y ∈ a ++ b -> sys_sfnode_flags_get y c <> 0 -> c1 (anode_data y) = c (anode_data y)) ->
  entry c1 x = data -> (sys_sfnode_flags_get x c1 <> 0 -> anode_data x ∉ x :: a ++ b) ->
  let '(L', c') := sys_sflist_insert (if is_append then sf_tail (data_q q) else prev) x (data_q q, c1) in
  holds (a ++ x :: b) (k, (mk_queue L' (wait_q q), mk_store c' (freed m)))
  /\ items c' (a ++ x :: b) = items c a ++ data :: items c b.
Proof.
  intros c [Hl Hd _] Hw Hp [Hx1 Hx2 Hx3] Hc1 Hc1d Hex Hxd. simpl in Hl, Hd. fold c in Hl, Hd.
  assert (Hl1 : sflist_is (data_q q) c1 (a ++ b)) by (by eapply sflist_frame).
  assert (Hfl : forall y, y ∈ a ++ b -> sys_sfnode_flags_get y c1 = sys_sfnode_flags_get y c)
    by (intros y Hy; unfold sys_sfnode_flags_get; by rewrite Hc1).
  assert (Hli : linkable c1 (a ++ b) x).
  { split; [done|done|]. intros y Hy. rewrite Hfl by done. by apply Hx3. }
  pose proof (insert_place (data_q q) c1 a b x prev is_append Hl1 Hli Hp) as Hi.
  destruct (sys_sflist_insert _ _ _) as [L' c']. destruct Hi as [Hi Hr].
  assert (Hdata : forall y, y ∈ a ++ x :: b -> sys_sfnode_flags_get y c1 <> 0 -> anode_data y ∉ x :: a ++ b).
  { intros y Hy Hfy. destruct (decide (y = x)) as [->|Hyx]; [by apply Hxd|].
    assert (Hyab : y ∈ a ++ b) by set_solver. rewrite Hfl in Hfy by done. apply not_elem_of_cons. split; auto. }
  split.
  - split; simpl; [done| |by rewrite Hw].
    intros y Hy. destruct Hr as [-> _]. intros Hfy. specialize (Hdata y Hy Hfy). set_solver.
  - rewrite (items_relinked c1 c' _ _ Hr Hdata). unfold items. rewrite fmap_app, fmap_cons, Hex.
    assert (He : forall y, y ∈ a ++ b -> entry c1 y = entry c y).
    { intros y Hy. unfold entry. rewrite Hfl by done. destruct (_ =? 0) eqn:E; [done|]. apply Hc1d; [done|]. lia. }
    f_equal; [|f_equal]; apply list_fmap_ext; intros i y Hy%list_elem_of_lookup_2; apply He; set_solver.
Qed.

(** What [queue_insert] needs of the node it links: the item itself, or what
    the allocator returned. *)
Definition node_free (malloc : Z -> option Z) (alloc : bool) (data : Z) (c : words) (l : list Z) : Prop :=
  if alloc then
    forall n, malloc sizeof_alloc_node = Some n ->
      linkable c l n /\ (anode_data n ∉ l)
      /\ forall y, y ∈ l -> sys_sfnode_flags_get y c <> 0 -> anode_data y <> anode_data n
  else linkable c l data.

Lemma anode_data_ne n : anode_data n <> n.
Proof. unfold anode_data, PTR_SIZE. lia. Qed.

Lemma alloc_cells malloc data c l n :
  malloc sizeof_alloc_node = Some n -> node_free malloc true data c l ->
  let c1 := <[n := 1]> (<[anode_data n := data]> c) in
  linkable c l n
  /\ (forall y, y ∈ l -> c1 y = c y)
  /\ (forall y, y ∈ l -> sys_sfnode_flags_get y c <> 0 -> c1 (anode_data y) = c (anode_data y))
  /\ entry c1 n = data /\ (anode_data n ∉ n :: l).
Proof.
  intros En Hf. destruct (Hf n En) as (Hl & Hd & Hdd). pose proof Hl as [H1 H2 H3].
  pose proof (anode_data_ne n). split_and!; [done|..]; cbv zeta.
  - intros y Hy. rewrite !fn_lookup_insert_ne; [done| |]; intros <-; contradiction.
  - intros y Hy Hfy. specialize (H3 y Hy Hfy). specialize (Hdd y Hy Hfy).
    rewrite !fn_lookup_insert_ne; congruence.
  - unfold entry, sys_sfnode_flags_get. rewrite fn_lookup_insert. simpl.
    by rewrite fn_lookup_insert_ne, fn_lookup_insert by done.
  - apply not_elem_of_cons. done.
Qed.

Section Insert.
Context (k : kernel) (q : k_queue) (m : store) (malloc : Z -> option Z).
Context (prev data : Z) (alloc is_append : bool) (a b : list Z).

Inductive insert_case : outcome St Z -> Prop :=
| ins_handed t k' :
    a ++ b = [] -> woken (wait_q q) t 0 (k <| irq_locked := true |>) k' ->
    swap_data (threads k' t) = data ->
    insert_case (obind (z_reschedule (negb (irq_locked k)) (k', (q, m))) (fun _ => ret 0))
| ins_nomem :
    alloc = true -> malloc sizeof_alloc_node = None -> insert_case (Done (- ENOMEM) (k, (q, m)))
| ins_stored x q' c' :
    waitqs k (wait_q q) = [] -> (if alloc then malloc sizeof_alloc_node = Some x else x = data) ->
    holds (a ++ x :: b) (k, (q', mk_store c' (freed m))) ->
    items c' (a ++ x :: b) = items (cells m) a ++ data :: items (cells m) b ->
    insert_case (obind (z_reschedule (negb (irq_locked k))
                          (k <| irq_locked := true |>, (q', mk_store c' (freed m)))) (fun _ => ret 0)).

Lemma insert_cases :
  kwf k -> holds (a ++ b) (k, (q, m)) -> place prev is_append a b ->
  node_free malloc alloc data (cells m) (a ++ b) ->
  insert_case (queue_insert malloc prev data alloc is_append (k, (q, m))).
Proof.
  intros Hk HJ Hp Hf. unfold queue_insert, put_word, insert_node. run_code.
  set (k0 := k <| irq_locked := true |>). assert (Hk0 : kwf k0) by (by apply kwf_irq).
  destruct (z_unpend_first_thread (wait_q q) k0) as [[t|] k1] eqn:Et; cbn [obind fst snd].
  - pose proof (wake_first _ _ _ _ 0 (fun x => x <| swap_retval := 0 |> <| swap_data := data |>) Hk0 Et
      ltac:(done) ltac:(done)) as Hwo.
    apply (ins_handed t); [|exact Hwo|].
    + apply (ho_wait _ _ HJ). simpl. pose proof (wo_wq _ _ _ _ _ Hwo) as E'.
      change (waitqs k0) with (waitqs k) in E'. by rewrite E'.
    + unfold prepare_thread_to_run, z_ready_thread. rewrite (kf_swap_data _ _ (ready_thread_frame t _)).
      unfold z_thread_return_value_set_with_data. by rewrite threads_upd_thread, decide_True.
  - apply z_unpend_first_thread_none in Et as [-> Ew].
    destruct alloc eqn:Ea; [destruct (malloc sizeof_alloc_node) as [n|] eqn:En|]; cbn [obind fst snd cells freed].
    + destruct (alloc_cells _ _ _ _ n En Hf) as (Hli & Hc1 & Hc2 & Hc3 & Hc4).
      epose proof (link_spec k q m _ a b n data prev is_append HJ Ew Hp Hli Hc1 Hc2 Hc3 (fun _ => Hc4)) as Hi.
      destruct (sys_sflist_insert _ _ _) as [L' c'] eqn:Ei. destruct Hi as [Hi1 Hi2].
      by apply (ins_stored n); rewrite ?Ea.
    + rewrite unlock_id. by apply ins_nomem.
    + assert (Hc1 : forall y, y ∈ a ++ b -> (<[data := 0]> (cells m) : words) y = cells m y).
      { intros y Hy. rewrite fn_lookup_insert_ne; [done|]. intros <-. by apply (li_fresh _ _ _ Hf). }
      epose proof (link_spec k q m (<[data := 0]> (cells m)) a b data data prev is_append HJ Ew Hp Hf Hc1) as Hi.
      destruct (sys_sflist_insert _ _ _) as [L' c'] eqn:Ei. destruct Hi as [Hi1 Hi2].
      * intros y Hy Hfy. rewrite fn_lookup_insert_ne; [done|]. apply not_eq_sym. by apply (li_data _ _ _ Hf).
      * unfold entry, sys_sfnode_flags_get. by rewrite fn_lookup_insert.
      * unfold sys_sfnode_flags_get. by rewrite fn_lookup_insert.
      * by apply (ins_stored data); rewrite ?Ea.
Qed.

Lemma insert_runs :
  krun k -> holds (a ++ b) (k, (q, m)) -> place prev is_append a b ->
  node_free malloc alloc data (cells m) (a ++ b) ->
  runs inv (current k) (fun _ => returned inv (current k) (irq_locked k))
    (queue_insert malloc prev data alloc is_append (k, (q, m))).
Proof.
  intros Hk HJ Hp Hf. destruct insert_cases as [t k' E Hw Hd|Ha Hm|x q' c' Hw Hx Hh Hi]; try done; [apply Hk|..].
  - eapply runs_bind; [|by intros r x Hx; exact Hx].
    eapply woken_resched_runs; [apply queue_inv_stable|done|exact Hw|]. exists []. rewrite E in HJ.
    destruct HJ as [H1 H2 H3]. split; done.
  - split_and!; try done. by exists (a ++ b).
  - eapply runs_bind; [|by intros r s Hs; exact Hs]. restore_key.
    change (current k) with (current (k <| irq_locked := true |>)).
    apply z_reschedule_runs; [apply queue_inv_stable|by apply krun_irq|]. exists (a ++ x :: b).
    destruct Hh as [H1 H2 H3]. by split.
Qed.
End Insert.

(** The result of [k_queue_get] on a queue that holds the nodes [l]. *)
Definition get_result (tm : Z) (k : kernel) (q : k_queue) (m : store) (l : list Z) (r : Z) (s : St) : Prop :=
  match l with
  | x :: l' =>
      r = entry (cells m) x /\ s.1 = k /\ holds l' s /\ items (cells s.2.2) l' = items (cells m) l'
      /\ freed s.2.2 = (if sys_sfnode_flags_get x (cells m) =? 0 then freed m else x :: freed m)
  | [] =>
      if tm =? K_NO_WAIT then r = sf_NULL /\ s = (k, (q, m))
      else r = (if swap_retval (threads s.1 (current k)) =? 0
                then swap_data (threads s.1 (current k)) else sf_NULL)
  end.

Lemma node_peek_spec x fr m :
  node_ok x ->
  z_queue_node_peek x fr m
  = (entry (cells m) x,
     mk_store (cells m) (if fr && negb (sys_sfnode_flags_get x (cells m) =? 0) then x :: freed m else freed m)).
Proof.
  intros Hx. unfold z_queue_node_peek, entry. rewrite node_ok_ne by done. cbn [negb andb].
  destruct (_ =? 0) eqn:E; cbn [negb andb]; rewrite ?andb_false_r; [by destruct m|].
  destruct fr; [done|]. by destruct m.
Qed.

Lemma queue_get_runs tm k q m l :
  krun k -> holds l (k, (q, m)) -> current k <> idle_thread k ->
  runs inv (current k)
    (fun r s => returned inv (current k) (irq_locked k) s /\ get_result tm k q m l r s)
    (z_impl_k_queue_get tm (k, (q, m))).
Proof.
  intros Hk HJ Hi. pose proof HJ as [Hl Hd Hw]. cbn [fst snd] in Hl, Hd, Hw.
  unfold z_impl_k_queue_get. run_code. pose proof (sflist_empty _ _ _ Hl) as He.
  destruct l as [|x l]; unfold get_result.
  - rewrite (proj2 He eq_refl). cbn [negb]. destruct (tm =? K_NO_WAIT) eqn:Et; cbn [obind fst snd].
    + rewrite unlock_id. split; [|done]. unfold returned. split_and!; try done. by exists [].
    + eapply runs_bind; [apply (pend_returned_runs inv queue_inv_stable)|]; try done.
      * intros k' _. exists []. by split.
      * intros r [k' o'] [Hr ->]. cbn [fst snd obind runs] in *. split; [done|].
        destruct Hr as (_ & _ & Hc & _). simpl in Hc. rewrite Hc. by destruct (_ =? 0).
  - destruct (sys_sflist_is_empty (data_q q)); [by destruct He as [He _]; specialize (He eq_refl)|].
    cbn [negb]. cbn [obind fst snd].
    pose proof (get_spec _ _ _ _ Hl) as Hg. destruct (sys_sflist_get_not_empty _) as [y [L' c']].
    destruct Hg as (-> & -> & Hg). pose proof (Forall_inv (si_ok _ _ _ Hl)) as Hx.
    rewrite node_peek_spec by done. cbn [obind fst snd]. rewrite unlock_id. cbn [cells freed].
    assert (Hh : forall fr, holds l (k, (mk_queue L' (wait_q q), mk_store (cells m) fr))).
    { intros fr. split; simpl; [done| |by intros ?%Hw].
      intros z Hz Hfz Hin. by apply (Hd z); [right|done|right]. }
    cbn [runs]. split; [unfold returned; split_and!; try done; by exists l|].
    split; [done|]. split; [done|]. split; [apply Hh|]. split; [done|]. cbn [cells freed snd].
    by destruct (_ =? 0).
Qed.

(** ** Lists of items *)

(** A chain of unflagged nodes, as the caller of [k_queue_append_list] links it. *)
Definition chain (c : words) (l : list Z) : Prop :=
  sflist_is (mk_sflist (default sf_NULL (head l)) (default sf_NULL (list.last l))) c l
  /\ forall x, x ∈ l -> sys_sfnode_flags_get x c = 0.

Lemma chain_inv c x l :
  chain c (x :: l) -> node_ok x /\ c x = default sf_NULL (head l) /\ chain c l.
Proof.
  intros [[[_ Hs] Ht Hn Hf] Hfl]. simpl in Hs.
  apply NoDup_cons in Hn as [Hxl Hn]. apply Forall_cons in Hf as [Hx Hf].
  assert (E : z_sfnode_next_peek x c = c x) by (apply aligned_peek, Hfl; left).
  assert (E' : c x = default sf_NULL (head l)).
  { rewrite <-E. destruct l as [|y l]; [done|]. by destruct Hs as [-> _]. }
  split_and!; [done|done|]. split; [|intros y Hy; apply Hfl; by right]. by split; simpl; [rewrite <-E', <-E|..].
Qed.

Lemma prepare_eq t x k :
  prepare_thread_to_run t x k
  = z_ready_thread t (upd_thread t (fun y => y <| swap_retval := 0 |> <| swap_data := x |>) k).
Proof. done. Qed.

Lemma prepare_data t x k : swap_data (threads (prepare_thread_to_run t x k) t) = x.
Proof.
  unfold prepare_thread_to_run, z_ready_thread. rewrite (kf_swap_data _ _ (ready_thread_frame t _)).
  unfold z_thread_return_value_set_with_data. by rewrite threads_upd_thread, decide_True.
Qed.

(** One round: the first waiter takes the first item. *)
Lemma hand_over_round w k t k1 x :
  kwf k -> z_unpend_first_thread w k = (Some t, k1) ->
  woken w t 0 k (prepare_thread_to_run t x k1)
  /\ swap_data (threads (prepare_thread_to_run t x k1) t) = x.
Proof.
  intros Hk Et. split; [|apply prepare_data]. rewrite prepare_eq. by eapply wake_first.
Qed.

(** With at least as many items as waiters, the waiters take the first items
    in order and the rest is left. *)
Lemma hand_over_spec fuel w c l k :
  kwf k -> chain c l -> (length (waitqs k w) <= length l)%nat -> (length (waitqs k w) < fuel)%nat ->
  exists k', (let '(th, k1) := z_unpend_first_thread w k in
              hand_over fuel w c (default sf_NULL (head l)) th k1)
             = (default sf_NULL (head (drop (length (waitqs k w)) l)), k')
    /\ all_woken w 0 k k' /\ chain c (drop (length (waitqs k w)) l)
    /\ (forall i t, waitqs k w !! i = Some t -> l !! i = Some (swap_data (threads k' t))).
Proof.
  revert l k. induction fuel as [|fuel IH]; intros l k Hk Hc Hlen Hfuel; [lia|].
  destruct (z_unpend_first_thread w k) as [[t|] k1] eqn:Et; simpl.
  - destruct l as [|x l].
    { apply z_unpend_first_thread_some in Et as (r & E & _); [|done]. rewrite E in Hlen. simpl in Hlen. lia. }
    destruct (chain_inv _ _ _ Hc) as (Hx & Ex & Hc'). simpl default. rewrite node_ok_ne by done.
    destruct (hand_over_round _ _ _ _ x Hk Et) as [Hwo Hda].
    set (k2 := prepare_thread_to_run t x k1) in *. rewrite Ex. pose proof (wo_wq _ _ _ _ _ Hwo) as Ew.
    rewrite Ew in *. simpl in Hlen, Hfuel.
    destruct (IH l k2) as (k' & E & Ha & Hch & Hd); [apply Hwo|done|lia|lia|].
    exists k'. split_and!; [exact E|by eapply all_woken_cons|done|].
    intros [|i] t' Ht'; simpl in Ht'; [|by apply (Hd i)]. injection Ht' as <-. simpl.
    rewrite (aw_other _ _ _ _ Ha); [by rewrite Hda|].
    pose proof (kb_wq_nodup _ (kwf_base _ Hk) w) as Hn. rewrite Ew in Hn. by apply NoDup_cons in Hn as [? _].
  - apply z_unpend_first_thread_none in Et as [-> E]. exists k. rewrite E. simpl.
    split_and!; [done|by apply all_woken_nil|by rewrite drop_0|done].
Qed.

(** A thread that no queue knows, although nothing keeps it from running. *)
Record lost (t : tid) (k : kernel) : Prop := {
  lo_pended : pended_on (threads k t) = None;
  lo_wq w : t ∉ waitqs k w;
  lo_runq : t ∉ runq k;
  lo_tmo : is_linked (TO_thread t) (tmo k) = false
}.

Lemma unpend_lost w t k k1 : kwf k -> z_unpend_first_thread w k = (Some t, k1) -> lost t k1.
Proof.
  intros Hk Et. apply z_unpend_first_thread_some in Et as
    (r & E & Hw & Er & Hws & Hc & His & Hir & Hid & Hnc & Ht & Hot & Hl); [|done].
  pose proof (kw_base _ _ Hw) as Hb.
  assert (Hp : pended_on (threads k1 t) = None) by (by rewrite Ht).
  assert (Hpk : pended_on (threads k t) = Some w) by (apply (kb_wq _ (kwf_base _ Hk)); rewrite E; left).
  split; [done| | |done].
  - intros w'. rewrite (kb_wq _ Hb), Hp. done.
  - rewrite (kb_queued _ Hb), Ht. assert (Hq : z_is_thread_queued (threads k t) = false).
    { apply pended_not_queued; [apply Hk| |by rewrite Hpk]. eapply kready_weaken; [|apply Hk]. done. }
    flags. by rewrite Hq.
Qed.

(** With more waiters than items, the first waiter that gets no item is lost. *)
Lemma hand_over_lost fuel w c l k ws t ws' :
  kwf k -> chain c l -> waitqs k w = ws ++ t :: ws' -> length ws = length l -> (length l < fuel)%nat ->
  exists k', (let '(th, k1) := z_unpend_first_thread w k in
              hand_over fuel w c (default sf_NULL (head l)) th k1) = (sf_NULL, k')
    /\ lost t k'.
Proof.
  revert fuel k ws. induction l as [|x l IH]; intros fuel k ws Hk Hc Ew Hlen Hfuel;
    (destruct fuel as [|fuel]; [lia|]); destruct ws as [|t0 ws]; try done; simpl in Ew.
  - destruct (z_unpend_first_thread w k) as [[t1|] k1] eqn:Et.
    2:{ apply z_unpend_first_thread_none in Et as [_ E]. congruence. }
    pose proof (unpend_lost _ _ _ _ Hk Et) as Hlo.
    apply z_unpend_first_thread_some in Et as (r & E & _); [|done]. rewrite Ew in E. injection E as <- _. by exists k1.
  - destruct (chain_inv _ _ _ Hc) as (Hx & Ex & Hc').
    destruct (z_unpend_first_thread w k) as [[t1|] k1] eqn:Et.
    2:{ apply z_unpend_first_thread_none in Et as [_ E]. congruence. }
    destruct (hand_over_round _ _ _ _ x Hk Et) as [Hwo _]. simpl. rewrite node_ok_ne by done.
    set (k2 := prepare_thread_to_run t1 x k1) in *. rewrite Ex. pose proof (wo_wq _ _ _ _ _ Hwo) as Ew2.
    simpl in *. apply (IH fuel k2 ws); [apply Hwo|done|congruence|lia|lia].
Qed.

Lemma drop_last (l : list Z) n : drop n l <> [] -> list.last (drop n l) = list.last l.
Proof.
  intros H. rewrite <-(take_drop n l) at 2. rewrite last_app. destruct (list.last (drop n l)) eqn:E; [done|].
  by apply last_None in E.
Qed.

Section AppendList.
Context (k : kernel) (q : k_queue) (m : store) (l l2 : list Z).
Context (Hk : kwf k) (HJ : holds l (k, (q, m))) (Hc : chain (cells m) l2) (Hne : l2 <> []).

Let head2 := default sf_NULL (head l2).
Let tail2 := default sf_NULL (list.last l2).

(** What the call does before the list is appended. *)
Lemma append_list_start :
  k_queue_append_list head2 tail2 (k, (q, m))
  = let '(th, k1) := z_unpend_first_thread (wait_q q) (k <| irq_locked := true |>) in
    let '(h, k2) := hand_over (S (length (waitqs k (wait_q q)))) (wait_q q) (cells m) head2 th k1 in
    obind (z_reschedule (negb (irq_locked k))
             (k2, if h =? sf_NULL then (q, m) else
                  let '(L, c) := sys_sflist_append_list h tail2 (data_q q, cells m) in
                  (mk_queue L (wait_q q), mk_store c (freed m)))) (fun _ => ret 0).
Proof.
  destruct Hc as [Hl _]. pose proof (sflist_empty _ _ _ Hl) as He. pose proof (sflist_tail_null _ _ _ Hl) as Ht.
  unfold sys_sflist_is_empty, genlist_is_empty in He. cbn [sf_head sf_tail] in He, Ht. fold head2 in He. fold tail2 in Ht.
  unfold k_queue_append_list.
  destruct (head2 =? sf_NULL); [by destruct Hne; apply He|]. destruct (tail2 =? sf_NULL); [by destruct Hne; apply Ht|].
  cbn [orb]. run_code. change (waitqs (k <| irq_locked := true |>)) with (waitqs k).
  destruct (z_unpend_first_thread _ _) as [th k1]. cbn [obind fst snd].
  destruct (hand_over _ _ _ _ _ _) as [h k2]. cbn [obind fst snd]. done.
Qed.

Lemma append_list_hands_over :
  l ## l2 -> (forall x, x ∈ l -> sys_sfnode_flags_get x (cells m) <> 0 -> anode_data x ∉ l2) ->
  let n := length (waitqs k (wait_q q)) in
  (n <= length l2)%nat ->
  exists k' q' c',
    k_queue_append_list head2 tail2 (k, (q, m))
    = obind (z_reschedule (negb (irq_locked k)) (k', (q', mk_store c' (freed m)))) (fun _ => ret 0)
    /\ all_woken (wait_q q) 0 (k <| irq_locked := true |>) k'
    /\ (forall i t, waitqs k (wait_q q) !! i = Some t -> l2 !! i = Some (swap_data (threads k' t)))
    /\ holds (l ++ drop n l2) (k', (q', mk_store c' (freed m)))
    /\ items c' (l ++ drop n l2) = items (cells m) l ++ drop n l2.
Proof.
  intros Hdis Hdd n Hn. rewrite append_list_start. set (k0 := k <| irq_locked := true |>).
  destruct (hand_over_spec (S n) (wait_q q) (cells m) l2 k0) as (k' & E & Ha & Hch & Hd);
    [by apply kwf_irq|done|done|change (waitqs k0) with (waitqs k); lia|].
  change (waitqs k0) with (waitqs k) in E, Hch, Hd. fold n in E, Hch.
  destruct (z_unpend_first_thread (wait_q q) k0) as [th k1]. change (length (waitqs k (wait_q q))) with n.
  unfold head2 at 1. rewrite E. destruct Hch as [Hch Hfl]. pose proof HJ as [Hl Hdata Hw]. cbn [fst snd] in Hl, Hdata, Hw.
  assert (Hrest : items (cells m) (drop n l2) = drop n l2).
  { unfold items. rewrite <-(list_fmap_id (drop n l2)) at 2. apply list_fmap_ext.
    intros i x Hx%list_elem_of_lookup_2. unfold entry. by rewrite Hfl. }
  destruct (decide (drop n l2 = [])) as [Edr|Hdr].
  - rewrite Edr. cbn [default from_option head]. exists k', q, (cells m). rewrite app_nil_r.
    assert (El : l = []).
    { apply Hw. intros Ew. apply Hne. unfold n in Edr. by rewrite Ew in Edr. }
    split_and!; [by destruct m|done|done| |by rewrite app_nil_r]. by split; [|..].
  - assert (Hsub : forall x, x ∈ drop n l2 -> x ∈ l2) by (intros x Hx; rewrite <-(take_drop n l2); apply elem_of_app; by right).
    pose proof (append_list_spec _ _ _ _ Hl Hch ltac:(set_solver) Hdr) as Hap. unfold tail2.
    rewrite (drop_last l2 n Hdr) in Hap. pose proof (sflist_empty _ _ _ Hch) as He.
    unfold sys_sflist_is_empty, genlist_is_empty in He. cbn [sf_head] in He. change sf_NULL with 0 in *.
    destruct (default 0 (head (drop n l2)) =? 0); [by destruct Hdr; apply He|].
    destruct (sys_sflist_append_list _ _ _) as [L' c']. destruct Hap as [Hap Hrl].
    exists k', (mk_queue L' (wait_q q)), c'. split_and!; [done|done|done| |].
    + split; simpl; [done| |by rewrite (aw_wq _ _ _ _ Ha)].
      intros x. destruct Hrl as [-> _]. intros [Hx|Hx]%elem_of_app Hfx; [|by rewrite Hfl in Hfx].
      specialize (Hdata x Hx Hfx). specialize (Hdd x Hx Hfx). set_solver.
    + rewrite (items_relinked (cells m) c' _ _ Hrl); [unfold items; rewrite fmap_app; by f_equal|].
      intros x [Hx|Hx]%elem_of_app Hfx; [by apply Hdata|by rewrite Hfl in Hfx].
Qed.

Lemma append_list_loses ws t ws' :
  waitqs k (wait_q q) = ws ++ t :: ws' -> length ws = length l2 ->
  exists k', k_queue_append_list head2 tail2 (k, (q, m))
             = obind (z_reschedule (negb (irq_locked k)) (k', (q, m))) (fun _ => ret 0)
    /\ lost t k'.
Proof.
  intros Ew Hlen. rewrite append_list_start. set (k0 := k <| irq_locked := true |>).
  destruct (hand_over_lost (S (length (waitqs k (wait_q q)))) (wait_q q) (cells m) l2 k0 ws t ws')
    as (k' & E & Hlo); [by apply kwf_irq|done|done|done|rewrite Ew, length_app; simpl; lia|].
  destruct (z_unpend_first_thread (wait_q q) k0) as [th k1]. unfold head2 at 1. rewrite E.
  by exists k'.
Qed.
End AppendList.

(** [k_queue_remove] with enough fuel: the item is unlinked exactly when it is
    in the queue, and the other items keep their order. *)
Lemma remove_spec_queue fuel k q m l x :
  holds l (k, (q, m)) -> (length l < fuel)%nat ->
  (x ∉ l -> exists q', k_queue_remove fuel x (k, (q, m)) = Done (Some false) (k, (q', m)) /\ holds l (k, (q', m)))
  /\ (forall a b, l = a ++ x :: b ->
      exists q' c', k_queue_remove fuel x (k, (q, m)) = Done (Some true) (k, (q', mk_store c' (freed m)))
        /\ holds (a ++ b) (k, (q', mk_store c' (freed m)))
        /\ items c' (a ++ b) = items (cells m) (a ++ b)).
Proof.
  intros HJ Hf. pose proof HJ as [Hl Hd Hw]. cbn [fst snd] in *. unfold k_queue_remove. cbn [fst snd].
  destruct (find_and_remove_spec fuel _ _ _ x Hl Hf) as [H1 H2]. split.
  - intros Hx. rewrite (H1 Hx). exists q. split; [|done]. by destruct q, m.
  - intros a b ->. destruct (H2 a b eq_refl) as (L' & c' & -> & Hl' & Hr).
    assert (Hsub : forall y, y ∈ a ++ b -> y ∈ a ++ x :: b) by set_solver.
    exists (mk_queue L' (wait_q q)), c'. split_and!; [done| |].
    + split; simpl; [done| |].
      * intros y Hy. destruct Hr as [-> _]. intros Hfy Hin. by apply (Hd y (Hsub y Hy) Hfy), Hsub.
      * intros H%Hw. by destruct a.
    + eapply items_relinked; [exact Hr|]. intros y Hy Hfy. by apply Hd; [apply Hsub|].
Qed.

(** ** Properties *)

(** C22: [queue_insert], the body of k_queue_append, k_queue_prepend,
    k_queue_insert and their allocating variants: a waiting thread gets the
    item with return value 0; otherwise the item is linked exactly at the
    place asked for, all other items stay as they are, and only a failed
    allocation is reported as -ENOMEM; the queue and scheduler invariants hold
    whenever the CPU changes hands. *)
Theorem k_queue_insert_refines malloc prev data alloc is_append a b k q m :
  krun k -> holds (a ++ b) (k, (q, m)) -> place prev is_append a b ->
  node_free malloc alloc data (cells m) (a ++ b) ->
  let r := queue_insert malloc prev data alloc is_append (k, (q, m)) in
  insert_case k q m malloc data alloc a b r
  /\ runs inv (current k) (fun _ => returned inv (current k) (irq_locked k)) r.
Proof.
  intros Hk HJ Hp Hf r. split; [by apply insert_cases; [apply Hk|..]|by eapply insert_runs].
Qed.

Definition demo_queue : k_queue := mk_queue (mk_sflist 16 16) 8.
Definition zero_store : store := mk_store (fun _ => 0) [].

Lemma demo_queue_holds : holds [16] (demo false, (demo_queue, zero_store)).
Proof.
  split; simpl; [|done|done]. split; simpl; [done|done|apply NoDup_singleton|by repeat constructor].
Qed.

Lemma k_queue_insert_refines_witness :
  insert_case (demo false) demo_queue zero_store no_malloc 32 false [16] []
    (queue_insert no_malloc 0 32 false true (demo false, (demo_queue, zero_store))).
Proof.
  apply (k_queue_insert_refines no_malloc 0 32 false true [16] []).
  - exact demo_run.
  - exact demo_queue_holds.
  - reflexivity.
  - split; [split; done|set_solver|done].
Defined.

(** [k_queue_get] returns the item of the first node, unlinks and frees
    exactly that node (allocated nodes only), and leaves the other items; on
    an empty queue it returns NULL under K_NO_WAIT and otherwise waits and
    returns what an insertion handed over, or NULL. *)
Theorem k_queue_get_refines tm k q m l :
  krun k -> holds l (k, (q, m)) -> current k <> idle_thread k ->
  runs inv (current k)
    (fun r s => returned inv (current k) (irq_locked k) s /\ get_result tm k q m l r s)
    (z_impl_k_queue_get tm (k, (q, m))).
Proof. apply queue_get_runs. Qed.

Lemma k_queue_get_refines_witness :
  runs inv 1
    (fun r s => returned inv 1 false s /\ get_result K_FOREVER (demo false) demo_queue zero_store [16] r s)
    (z_impl_k_queue_get K_FOREVER (demo false, (demo_queue, zero_store))).
Proof.
  apply (k_queue_get_refines K_FOREVER (demo false) demo_queue zero_store [16]).
  - exact demo_run.
  - exact demo_queue_holds.
  - discriminate.
Defined.

(** [k_queue_append_list] with at least as many items as waiting threads
    gives the first items to the waiters in order and appends the rest. *)
Theorem k_queue_append_list_spec k q m l l2 :
  kwf k -> holds l (k, (q, m)) -> chain (cells m) l2 -> l2 <> [] ->
  l ## l2 -> (forall x, x ∈ l -> sys_sfnode_flags_get x (cells m) <> 0 -> anode_data x ∉ l2) ->
  let n := length (waitqs k (wait_q q)) in
  (n <= length l2)%nat ->
  exists k' q' c',
    k_queue_append_list (default 0 (head l2)) (default 0 (list.last l2)) (k, (q, m))
    = obind (z_reschedule (negb (irq_locked k)) (k', (q', mk_store c' (freed m)))) (fun _ => ret 0)
    /\ all_woken (wait_q q) 0 (k <| irq_locked := true |>) k'
    /\ (forall i t, waitqs k (wait_q q) !! i = Some t -> l2 !! i = Some (swap_data (threads k' t)))
    /\ holds (l ++ drop n l2) (k', (q', mk_store c' (freed m)))
    /\ items c' (l ++ drop n l2) = items (cells m) l ++ drop n l2.
Proof. apply append_list_hands_over. Qed.

Definition empty_queue : k_queue := mk_queue (mk_sflist 0 0) 7.
Definition chain_store : store := mk_store (fun a => if a <? 48 then a + 16 else 0) [].

Lemma empty_queue_holds m : holds [] (two_waiters, (empty_queue, m)).
Proof.
  split; simpl; [|by intros x ?%elem_of_nil|done]. split; simpl; [done|done|apply NoDup_nil_2|done].
Qed.

Lemma chain_store_chain : chain (cells chain_store) [16; 32; 48].
Proof.
  split; [split; simpl; [done|done| |by repeat constructor]|].
  - apply (bool_decide_unpack (NoDup [16; 32; 48])). reflexivity.
  - intros x Hx. repeat (apply elem_of_cons in Hx as [->|Hx]; [done|]). by apply elem_of_nil in Hx.
Qed.

Lemma k_queue_append_list_spec_witness :
  exists k' q' c',
    k_queue_append_list 16 48 (two_waiters, (empty_queue, chain_store))
    = obind (z_reschedule true (k', (q', mk_store c' []))) (fun _ => ret 0)
    /\ swap_data (threads k' 3) = 32 /\ items c' [48] = [48].
Proof.
  destruct (k_queue_append_list_spec two_waiters empty_queue chain_store [] [16; 32; 48])
    as (k' & q' & c' & E & _ & Hd & _ & Hi).
  - apply two_waiters_run.
  - apply empty_queue_holds.
  - exact chain_store_chain.
  - discriminate.
  - intros x Hx. by apply elem_of_nil in Hx.
  - intros x Hx. by apply elem_of_nil in Hx.
  - vm_compute. lia.
  - exists k', q', c'. split; [exact E|split; [|exact Hi]]. specialize (Hd 1%nat 3%positive eq_refl).
    by injection Hd.
Defined.

(** C36: [k_queue_append_list] with fewer items than waiting threads takes one
    waiter too many off the wait queue: it gets no item and is made ready by
    nobody, so it is in no wait queue, not in the ready queue, and without a
    timeout. *)
Theorem k_queue_append_list_loses_waiter k q m l2 ws t ws' :
  kwf k -> chain (cells m) l2 -> l2 <> [] ->
  waitqs k (wait_q q) = ws ++ t :: ws' -> length ws = length l2 ->
  exists k', k_queue_append_list (default 0 (head l2)) (default 0 (list.last l2)) (k, (q, m))
             = obind (z_reschedule (negb (irq_locked k)) (k', (q, m))) (fun _ => ret 0)
    /\ lost t k'.
Proof. intros Hk Hc Hne Ew Hl. by eapply append_list_loses. Qed.

Lemma k_queue_append_list_loses_waiter_witness :
  exists k', k_queue_append_list 16 16 (two_waiters, (empty_queue, zero_store))
             = obind (z_reschedule true (k', (empty_queue, zero_store))) (fun _ => ret 0)
    /\ lost 3 k'.
Proof.
  apply (k_queue_append_list_loses_waiter two_waiters empty_queue zero_store [16] [2%positive] 3 []).
  - apply two_waiters_run.
  - split; [split; simpl; [done|done|apply NoDup_singleton|by repeat constructor]|].
    intros x Hx. by apply list_elem_of_singleton in Hx as ->.
  - discriminate.
  - reflexivity.
  - reflexivity.
Defined.

End Queue.
