(* ===== verification/KTimer.v ===== *)
(** Kernel timers (kernel/timer.c).

    A [k_timer] is a timeout of the queue of Timeout.v, identified by [n], and
    the data of the struct; the user's expiry and stop functions are
    arguments.  The theorems cover the expiry handler run by
    [sys_clock_announce]: a periodic timer expires exactly once per period,
    whatever number of ticks is announced at a time, except that the handler
    of a timeout that is not the first one of the last announced tick reads
    the clock of the driver and shifts the period. *)
From S2P Require Import Prelude TimeUnits Timeout Kernel Sched SchedInv SchedApi Demo Tick.

Module KTimer.

Record k_timer := mk_timer {
  wait_q : wqid;
  period : Z;
  status : Z
}.

#[export] Instance set_period : Settable period := fun f x => mk_timer (wait_q x) (f (period x)) (status x).
#[export] Instance set_status : Settable status := fun f x => mk_timer (wait_q x) (period x) (f (status x)).

Abbreviation St := (kernel * k_timer)%type.

Section KTimer.
(** The timer, and its user functions. *)
Context (n : positive) (expiry_fn stop_fn : option (St -> St)).

Definition call_fn (f : St -> St) : M St unit := fun s => Done tt (f s).

Definition z_timer_expiration_handler : M St unit :=
  key <- k_spin_lock ;;
  linked <- kget (fun k => is_linked (TO_timer n) (tmo k)) ;;
  if (linked : bool) then k_spin_unlock key
  else
    p <- oget period ;;
    (if negb (p =? K_NO_WAIT) && negb (p =? K_FOREVER) then
       let next := Z.max (p - 1) 0 in
       kmod (fun k =>
         let next := K_TIMEOUT_ABS_TICKS (sys_clock_tick_get (tmo k) + 1 + next) in
         k <| tmo ::= z_add_timeout (TO_timer n) next |>)
     else ret tt) ;;
    omod (fun x => x <| status ::= fun v => u32 (v + 1) |>) ;;
    key <- match expiry_fn with
           | Some f => k_spin_unlock key ;; call_fn f ;; k_spin_lock
           | None => ret key
           end ;;
    w <- oget wait_q ;;
    thread <- kget (z_waitq_head w) ;;
    match thread with
    | None => k_spin_unlock key
    | Some t =>
        kmod (z_unpend_thread_no_timeout t) ;;
        kmod (arch_thread_return_value_set t 0) ;;
        k_spin_unlock key ;;
        kmod (z_ready_thread t)
    end.

(** [z_init_timeout] marks the timeout as not linked, which the caller of
    [k_timer_init] guarantees. *)
Definition k_timer_init : M St unit :=
  omod (fun x => x <| status := 0 |>) ;;
  w <- oget wait_q ;;
  kmod (z_waitq_init w).

Definition z_impl_k_timer_start (duration per : Z) : M St unit :=
  if duration =? K_FOREVER then ret tt
  else
    let duration := if Z_TICK_ABS duration <? 0 then Z.max (duration - 1) 0 else duration in
    kmod (fun k => k <| tmo := (z_abort_timeout (TO_timer n) (tmo k)).2 |>) ;;
    omod (fun x => x <| period := per |> <| status := 0 |>) ;;
    kmod (fun k => k <| tmo ::= z_add_timeout (TO_timer n) duration |>).

Definition z_impl_k_timer_stop : M St unit :=
  r <- kcall (fun k => let '(r, q) := z_abort_timeout (TO_timer n) (tmo k) in (r, k <| tmo := q |>)) ;;
  if negb (r =? 0) then ret tt
  else
    match stop_fn with Some f => call_fn f | None => ret tt end ;;
    w <- oget wait_q ;;
    pending_thread <- kcall (z_unpend1_no_timeout w) ;;
    match pending_thread with
    | Some t => kmod (z_ready_thread t) ;; z_reschedule_unlocked
    | None => ret tt
    end.

Definition z_impl_k_timer_status_get : M St Z :=
  key <- k_spin_lock ;;
  result <- oget status ;;
  omod (fun x => x <| status := 0 |>) ;;
  k_spin_unlock key ;;
  ret result.

(** With CONFIG_MULTITHREADING. *)
Definition z_impl_k_timer_status_sync : M St Z :=
  key <- k_spin_lock ;;
  result <- oget status ;;
  kr <- (if result =? 0 then
           inactive <- kget (fun k => z_is_inactive_timeout (TO_timer n) (tmo k)) ;;
           if negb inactive then
             w <- oget wait_q ;;
             _ <- z_pend_curr key w K_FOREVER ;;
             key <- k_spin_lock ;;
             result <- oget status ;;
             ret (key, result)
           else ret (key, result)
         else ret (key, result)) ;;
  omod (fun x => x <| status := 0 |>) ;;
  k_spin_unlock (fst kr) ;;
  ret (snd kr).

Definition z_impl_k_timer_expires_ticks (k : kernel) : Z := z_timeout_expires (TO_timer n) (tmo k).
Definition z_impl_k_timer_remaining_ticks (k : kernel) : Z := z_timeout_remaining (TO_timer n) (tmo k).

(** The timer interrupt with this timer among the timeouts; the handlers of
    the other timers do not change the model of this one. *)
Context (other_timer : positive -> kernel -> kernel).

Definition finish (o : outcome St unit) : St :=
  match o with Done _ s => s | Swapped s _ => s end.

#[local] Instance timer_timeouts : TimeoutClient St := {|
  get_tq s := tmo s.1;
  upd_tq f s := (s.1 <| tmo ::= f |>, s.2);
  timeout_fn to s :=
    match to with
    | TO_thread t => (z_thread_timeout t s.1, s.2)
    | TO_slice => (slice_timeout s.1, s.2)
    | TO_timer i =>
        if decide (i = n) then finish (z_timer_expiration_handler s) else (other_timer i s.1, s.2)
    end
|}.

Definition announce_timers (fuel : nat) (ticks : Z) (s : St) : option St :=
  sys_clock_announce_timeouts fuel ticks s.

(** ** The expiry handler *)

Lemma abs_dticks t q : 0 <= t -> timeout_dticks (K_TIMEOUT_ABS_TICKS t) q = Z.max 1 (t - curr_tick q).
Proof.
  intros Ht. unfold timeout_dticks, K_TIMEOUT_ABS_TICKS, Z_TICK_ABS, K_TICKS_FOREVER.
  rewrite Z.max_l by done. replace (-1 - 1 - (-1 - 1 - t)) with t by lia.
  destruct (t >=? 0) eqn:E; lia.
Qed.

(** The timeout of the next period. *)
Definition rearm (p : Z) (q : tq) : tq :=
  z_add_timeout (TO_timer n) (K_TIMEOUT_ABS_TICKS (sys_clock_tick_get q + 1 + Z.max (p - 1) 0)) q.

Lemma abs_not_forever t : K_TIMEOUT_ABS_TICKS t <> K_FOREVER.
Proof. unfold K_TIMEOUT_ABS_TICKS, Z_TICK_ABS, K_FOREVER, K_TICKS_FOREVER. lia. Qed.

Lemma rearm_expiry p q y :
  1 <= p -> 0 <= curr_tick q -> 0 <= elapsed q -> is_linked (TO_timer n) q = false ->
  expiry y (rearm p q)
  = if decide (y = TO_timer n) then Some (curr_tick q + elapsed q + p) else expiry y q.
Proof.
  intros Hp Hc He Hl. unfold rearm, sys_clock_tick_get.
  rewrite add_timeout_expiry by (done || apply abs_not_forever).
  rewrite abs_dticks by lia. destruct (decide (y = TO_timer n)); [|done]. f_equal. lia.
Qed.

(** The handler of a timer that nobody waits for and that has no expiry
    function. *)
Lemma handler_idle k x :
  expiry_fn = None -> is_linked (TO_timer n) (tmo k) = false -> waitqs k (wait_q x) = [] -> 1 <= period x ->
  z_timer_expiration_handler (k, x)
  = Done tt (k <| tmo ::= rearm (period x) |>, x <| status ::= fun v => u32 (v + 1) |>).
Proof.
  intros Hf Hl Hw Hp. unfold z_timer_expiration_handler. rewrite Hf. run_code.
  change (tmo (k <| irq_locked := true |>)) with (tmo k). rewrite Hl. cbn [obind fst snd].
  replace (period x =? K_NO_WAIT) with false by (unfold K_NO_WAIT; lia).
  replace (period x =? K_FOREVER) with false by (unfold K_FOREVER, K_TICKS_FOREVER; lia).
  cbn [negb andb obind fst snd]. unfold z_waitq_head. destruct k, x. simpl in *. rewrite Hw. simpl.
  by rewrite negb_involutive.
Qed.

(** ** A periodic timer through an announcement *)

(** How often a timer that expires at [e] and then every [p] ticks expires up
    to [T]. *)
Definition fires (e p T : Z) : Z := if e <=? T then (T - e) / p + 1 else 0.

Lemma fires_next e p T : 1 <= p -> e <= T -> fires e p T = 1 + fires (e + p) p T.
Proof.
  intros Hp He. unfold fires. replace (e <=? T) with true by lia.
  destruct (e + p <=? T) eqn:E.
  - replace (T - e) with (T - (e + p) + 1 * p) by lia. rewrite Z.div_add by lia. lia.
  - rewrite Z.div_small by lia. lia.
Qed.

Lemma fires_nonneg e p T : 1 <= p -> 0 <= fires e p T.
Proof. intros Hp. unfold fires. destruct (e <=? T) eqn:E; [|lia]. pose proof (Z.div_pos (T - e) p). lia. Qed.

Lemma u32_add a b : u32 (u32 a + b) = u32 (a + b).
Proof. unfold uwrap. by rewrite Z.add_mod_idemp_l. Qed.

(** The loop invariant: ticks up to [T] are being announced, and of the
    timeouts due by then only the timer at [e] is left. *)
Record only_due (T e : Z) (q : tq) : Prop := {
  od_wf : tq_wf q;
  od_tick : 0 <= curr_tick q < e;
  od_rem : 0 <= announce_remaining q;
  od_T : curr_tick q + announce_remaining q = T;
  od_timer : expiry (TO_timer n) q = Some e;
  od_other y e' : y <> TO_timer n -> expiry y q = Some e' -> T < e'
}.

Lemma only_due_first T e q :
  only_due T e q -> exists t dt r, timeout_list q = (t, dt) :: r
    /\ (dt <= announce_remaining q <-> e <= T) /\ (e <= T -> t = TO_timer n /\ dt = e - curr_tick q).
Proof.
  intros [Hw Ht Hr HT Hti Ho]. destruct (timeout_list q) as [|[t dt] r] eqn:E.
  { unfold expiry in Hti. by rewrite E in Hti. }
  exists t, dt, r. split; [done|]. pose proof (first_earliest _ _ _ _ _ _ E Hw Hti) as Hf.
  assert (Et : expiry t q = Some (curr_tick q + dt)).
  { unfold expiry. rewrite E. simpl. by rewrite decide_True. }
  destruct (decide (t = TO_timer n)) as [->|Hne].
  - rewrite Hti in Et. injection Et as Et. split; [lia|]. intros _. split; [done|lia].
  - specialize (Ho _ _ Hne Et). split; lia.
Qed.

Lemma only_due_round T e p q dt r :
  only_due T e q -> 1 <= p -> e <= T -> timeout_list q = (TO_timer n, dt) :: r -> dt = e - curr_tick q ->
  let q' := (rearm p (popped (TO_timer n) dt q)) <| announce_remaining ::= fun x => x - dt |> in
  is_linked (TO_timer n) (popped (TO_timer n) dt q) = false /\ only_due T (e + p) q'
  /\ (forall y, y <> TO_timer n -> expiry y q' = expiry y q).
Proof.
  intros [Hw Ht Hr HT Hti Ho] Hp He E Hdt q'. set (q1 := popped (TO_timer n) dt q).
  assert (Hl : is_linked (TO_timer n) q1 = false).
  { unfold q1. rewrite (popped_linked _ _ _ _ _ E Hw), bool_decide_false, andb_false_r by tauto. done. }
  assert (Hc : curr_tick q1 = e) by (unfold q1, popped; simpl; lia).
  assert (Hrem : announce_remaining q1 = announce_remaining q) by done.
  assert (Hel : elapsed q1 = 0).
  { unfold elapsed. rewrite Hrem. by replace (announce_remaining q =? 0) with false by lia. }
  assert (Hexp : forall y, expiry y q' = if decide (y = TO_timer n) then Some (e + p) else expiry y q).
  { intros y. change (expiry y q') with (expiry y (rearm p q1)). rewrite rearm_expiry by (done || lia).
    rewrite Hc, Hel. destruct (decide _) as [->|Hy]; [f_equal; lia|].
    unfold q1. rewrite (popped_expiry _ _ _ _ _ E Hw). by rewrite decide_False. }
  assert (Htk : curr_tick q' = e).
  { change (curr_tick q') with (curr_tick (rearm p q1)). unfold rearm. by rewrite z_add_timeout_tick. }
  assert (Hr' : announce_remaining q' = announce_remaining q - dt).
  { change (announce_remaining q') with (announce_remaining (rearm p q1) - dt). unfold rearm.
    by rewrite z_add_timeout_remaining. }
  split_and!; [done| |intros y Hy; by rewrite Hexp, decide_False].
  split.
  - change (tq_wf (rearm p q1)). apply add_timeout_wf; [by eapply popped_wf|done|lia].
  - lia.
  - lia.
  - lia.
  - by rewrite Hexp, decide_True.
  - intros y e' Hy. rewrite Hexp, decide_False by done. by apply Ho.
Qed.

Section Periodic.
Context (Hfn : expiry_fn = None).

Lemma periodic_loop fuel T e k x :
  only_due T e (tmo k) -> waitqs k (wait_q x) = [] -> 1 <= period x -> u32 (status x) = status x ->
  fires e (period x) T < Z.of_nat fuel ->
  exists q', announce_loop fuel (k, x)
      = Some (k <| tmo := q' |>, x <| status := u32 (status x + fires e (period x) T) |>)
    /\ only_due T (e + fires e (period x) T * period x) q' /\ T < e + fires e (period x) T * period x
    /\ (forall y, y <> TO_timer n -> expiry y q' = expiry y (tmo k)).
Proof.
  revert e k x. induction fuel as [|fuel IH]; intros e k x Hd Hw Hp Hs Hf.
  { pose proof (fires_nonneg e (period x) T Hp). lia. }
  destruct (only_due_first _ _ _ Hd) as (t & dt & r & E & Hdt & Ht).
  cbn [announce_loop]. unfold first. cbn [get_tq timer_timeouts fst]. rewrite E. cbn [head].
  destruct (dt <=? announce_remaining (tmo k)) eqn:Er.
  - assert (He : e <= T) by (apply Hdt; lia). destruct (Ht He) as [-> Hdt'].
    destruct (only_due_round _ _ (period x) _ _ _ Hd Hp He E Hdt') as (Hl & Hd' & Ho).
    fold (popped (TO_timer n) dt). cbn [upd_tq timeout_fn timer_timeouts]. rewrite decide_True by done.
    change (fun q => remove_timeout (TO_timer n) _) with (popped (TO_timer n) dt).
    rewrite handler_idle by done. cbn [finish fst snd].
    rewrite (fires_next e) in * by done.
    destruct (IH (e + period x) (k <| tmo ::= popped (TO_timer n) dt |> <| tmo ::= rearm (period x) |>
        <| tmo ::= fun q => q <| announce_remaining ::= fun r => r - dt |> |>)
        (x <| status ::= fun v => u32 (v + 1) |>)) as (q' & E' & Hq & HT & Hy); try done.
    + simpl. rewrite <-(Z.add_0_r (u32 (status x + 1))), u32_add. by rewrite !Z.add_0_r.
    + change (period (x <| status ::= _ |>)) with (period x). lia.
    + change (period (x <| status ::= _ |>)) with (period x) in *. exists q'. split_and!.
      * rewrite E'. do 2 f_equal. destruct x as [w p v]. cbv [upd set_status]. cbn [wait_q period status].
        f_equal. rewrite u32_add. f_equal. lia.
      * by replace (e + (1 + fires (e + period x) (period x) T) * period x)
          with (e + period x + fires (e + period x) (period x) T * period x) by lia.
      * lia.
      * intros y Hny. rewrite Hy by done. by apply Ho.
  - assert (He : T < e) by (destruct (decide (e <= T)) as [He|]; [apply Hdt in He|]; lia).
    unfold fires. replace (e <=? T) with false by lia. exists (tmo k). rewrite !Z.add_0_r.
    split_and!; [|done|lia|done]. rewrite Hs. by destruct k, x.
Qed.

Lemma announce_periodic fuel ticks e k x :
  tq_wf (tmo k) -> 0 <= curr_tick (tmo k) < e -> 0 <= ticks ->
  expiry (TO_timer n) (tmo k) = Some e ->
  (forall y e', y <> TO_timer n -> expiry y (tmo k) = Some e' -> curr_tick (tmo k) + ticks < e') ->
  waitqs k (wait_q x) = [] -> 1 <= period x -> u32 (status x) = status x ->
  let N := fires e (period x) (curr_tick (tmo k) + ticks) in
  N < Z.of_nat fuel ->
  exists k', announce_timers fuel ticks (k, x) = Some (k', x <| status := u32 (status x + N) |>)
    /\ tq_wf (tmo k') /\ curr_tick (tmo k') = curr_tick (tmo k) + ticks
    /\ curr_tick (tmo k') < e + N * period x /\ expiry (TO_timer n) (tmo k') = Some (e + N * period x)
    /\ (forall y, y <> TO_timer n -> expiry y (tmo k') = expiry y (tmo k)).
Proof.
  intros Hw Hc Ht He Ho Hq Hp Hs N Hf. unfold announce_timers, sys_clock_announce_timeouts.
  set (k0 := k <| tmo ::= fun q => q <| announce_remaining := ticks |> |>).
  change (upd_tq _ (k, x)) with (k0, x).
  destruct (periodic_loop fuel (curr_tick (tmo k) + ticks) e k0 x) as (q' & -> & [Hq1 Hq2 Hq3 Hq4 Hq5 Hq6] & HT & Hy);
    [by split|done|done|done|done|].
  eexists. split; [reflexivity|]. fold N in Hq2, Hq5, HT.
  cbn [upd_tq timer_timeouts fst snd].
  change (tmo (k0 <| tmo := q' |> <| tmo ::= announce_finish |>)) with (announce_finish q').
  assert (Ecur : curr_tick (announce_finish q') = curr_tick (tmo k) + ticks) by (simpl; lia).
  split_and!.
  - apply finish_wf; [|done]. intros y e' Hye. rewrite Hq4. destruct (decide (y = TO_timer n)) as [->|Hne].
    + rewrite Hq5 in Hye. injection Hye as <-. done.
    + by eapply Hq6.
  - done.
  - lia.
  - by rewrite finish_expiry.
  - intros y Hne. rewrite finish_expiry, Hy by done. done.
Qed.

Lemma loop_step fuel k x t dt r :
  timeout_list (tmo k) = (t, dt) :: r -> dt <= announce_remaining (tmo k) ->
  announce_loop (S fuel) (k, x)
  = announce_loop fuel (upd_tq (fun q => q <| announce_remaining ::= fun r => r - dt |>)
                          (timeout_fn t (k <| tmo ::= popped t dt |>, x))).
Proof.
  intros E Hd. cbn [announce_loop]. unfold first. cbn [get_tq timer_timeouts fst]. rewrite E. cbn [head].
  by replace (dt <=? announce_remaining (tmo k)) with true by lia.
Qed.

Lemma loop_stop fuel k x t dt r :
  timeout_list (tmo k) = (t, dt) :: r -> announce_remaining (tmo k) < dt ->
  announce_loop (S fuel) (k, x) = Some (k, x).
Proof.
  intros E Hd. cbn [announce_loop]. unfold first. cbn [get_tq timer_timeouts fst]. rewrite E. cbn [head].
  by replace (dt <=? announce_remaining (tmo k)) with false by lia.
Qed.

Lemma rearm_list p q :
  1 <= p -> 0 <= curr_tick q -> 0 <= elapsed q -> timeout_list q = [] ->
  timeout_list (rearm p q) = [(TO_timer n, elapsed q + p)].
Proof.
  intros Hp Hc He Hl. unfold rearm, sys_clock_tick_get. rewrite z_add_timeout_list by apply abs_not_forever.
  rewrite Hl, abs_dticks by lia. simpl. do 2 f_equal. lia.
Qed.

Lemma popped_hd t dt d0 r c a h pr :
  popped t dt (mk_tq ((t, d0) :: r) c a h pr)
  = mk_tq (match r with [] => [] | (t2, d2) :: r' => (t2, d2 + 0) :: r' end) (dt + c) a h pr.
Proof.
  unfold popped, remove_timeout, upd, set_timeout_list, set_curr_tick. cbn [timeout_list tail remove_entry curr_tick].
  by rewrite decide_True by done.
Qed.

Lemma tmo_upd f k : tmo (k <| tmo ::= f |>) = f (tmo k).
Proof. done. Qed.
Lemma tmo_slice b k : tmo (k <| slice_expired := b |>) = tmo k.
Proof. done. Qed.
Lemma waitqs_tmo f k : waitqs (k <| tmo ::= f |>) = waitqs k.
Proof. done. Qed.
Lemma waitqs_slice b k : waitqs (k <| slice_expired := b |>) = waitqs k.
Proof. done. Qed.

(** The rounds of the loop that run the slice timeout and another timeout of
    the same tick. *)
Lemma slice_round fuel d c el pr t k x :
  tmo k = mk_tq [(TO_slice, d); (t, 0)] c d el pr ->
  exists k', announce_loop (S fuel) (k, x) = announce_loop fuel (k', x)
    /\ tmo k' = mk_tq [(t, 0)] (d + c) (d - d) el pr /\ waitqs k' = waitqs k.
Proof.
  intros E. rewrite (loop_step _ _ _ TO_slice d [(t, 0)]); [|by rewrite E|rewrite E; simpl; lia].
  cbn [upd_tq timeout_fn timer_timeouts fst snd]. unfold slice_timeout. eexists. split; [reflexivity|].
  rewrite !tmo_upd, tmo_slice, tmo_upd, waitqs_tmo, waitqs_slice, waitqs_tmo, E, popped_hd. done.
Qed.

Lemma timer_round fuel c el pr k x :
  tmo k = mk_tq [(TO_timer n, 0)] c 0 el pr -> 0 <= c -> 0 <= el -> waitqs k (wait_q x) = [] -> 1 <= period x ->
  exists k', announce_loop (S fuel) (k, x) = announce_loop fuel (k', x <| status ::= fun v => u32 (v + 1) |>)
    /\ timeout_list (tmo k') = [(TO_timer n, el + period x)] /\ announce_remaining (tmo k') = 0
    /\ curr_tick (tmo k') = c.
Proof.
  intros E Hc Hel Hw Hp. rewrite (loop_step _ _ _ (TO_timer n) 0 []); [|by rewrite E|rewrite E; simpl; lia].
  cbn [upd_tq timeout_fn timer_timeouts fst snd]. rewrite decide_True by done.
  set (k2 := k <| tmo ::= popped (TO_timer n) 0 |>).
  assert (E2 : tmo k2 = mk_tq [] c 0 el pr) by (unfold k2; by rewrite tmo_upd, E, popped_hd).
  assert (Hw2 : waitqs k2 (wait_q x) = []) by (unfold k2; by rewrite waitqs_tmo). clearbody k2.
  rewrite handler_idle by (done || by rewrite E2). cbn [finish fst snd]. eexists. split; [reflexivity|].
  rewrite !tmo_upd. assert (El2 : elapsed (tmo k2) = el) by (by rewrite E2).
  change (timeout_list (?q <| announce_remaining ::= _ |>)) with (timeout_list q).
  rewrite rearm_list by (rewrite ?El2; by rewrite ?E2). rewrite El2. split; [done|].
  split; simpl; unfold rearm; [rewrite z_add_timeout_remaining|rewrite z_add_timeout_tick]; by rewrite E2.
Qed.

(** A timer that is due on the same tick as the timeout before it. *)
Lemma announce_shifted d c r el pr k x :
  tmo k = mk_tq [(TO_slice, d); (TO_timer n, 0)] c r el pr -> 0 < d -> 0 <= c -> 0 <= el ->
  waitqs k (wait_q x) = [] -> 1 <= period x ->
  exists k', announce_timers 3 d (k, x) = Some (k', x <| status ::= fun v => u32 (v + 1) |>)
    /\ curr_tick (tmo k') = c + d /\ expiry (TO_timer n) (tmo k') = Some (c + d + el + period x).
Proof.
  intros E Hd Hc Hel Hw Hp. unfold announce_timers, sys_clock_announce_timeouts. cbn [upd_tq timer_timeouts fst snd].
  destruct (slice_round 2 d c el pr (TO_timer n) (k <| tmo ::= fun q => q <| announce_remaining := d |> |>) x)
    as (k1 & -> & E1 & W1); [by rewrite tmo_upd, E|]. rewrite waitqs_tmo in W1. rewrite Z.sub_diag in E1.
  destruct (timer_round 1 (d + c) el pr k1 x) as (k2 & -> & L2 & R2 & C2); [done|lia|done|by rewrite W1|done|].
  rewrite (loop_stop _ _ _ _ _ _ L2) by lia. eexists. split; [reflexivity|]. cbn [fst].
  rewrite tmo_upd. split; [simpl; lia|]. rewrite finish_expiry. unfold expiry. rewrite L2, C2. simpl.
  rewrite decide_True by done. f_equal. lia.
Qed.
End Periodic.

(** ** Starting and synchronising *)

Lemma start_expiry duration per k x :
  tq_wf (tmo k) -> 0 <= elapsed (tmo k) -> 0 <= duration ->
  exists k', z_impl_k_timer_start duration per (k, x) = Done tt (k', x <| period := per |> <| status := 0 |>)
    /\ expiry (TO_timer n) (tmo k') = Some (sys_clock_tick_get (tmo k) + Z.max 1 duration)
    /\ (forall y, y <> TO_timer n -> expiry y (tmo k') = expiry y (tmo k)).
Proof.
  intros Hw He Hd. unfold z_impl_k_timer_start.
  replace (duration =? K_FOREVER) with false by (unfold K_FOREVER, K_TICKS_FOREVER; lia).
  replace (Z_TICK_ABS duration <? 0) with true by (unfold Z_TICK_ABS, K_TICKS_FOREVER; lia). run_code.
  eexists. split; [reflexivity|]. rewrite tmo_upd.
  set (q1 := (z_abort_timeout (TO_timer n) (tmo k)).2).
  rewrite (tmo_upd (fun _ => q1)).
  assert (Hl : is_linked (TO_timer n) q1 = false).
  { unfold q1. rewrite abort_timeout_linked, bool_decide_false, andb_false_r by tauto. done. }
  assert (Hq1 : curr_tick q1 = curr_tick (tmo k) /\ elapsed q1 = elapsed (tmo k)).
  { unfold q1, z_abort_timeout. destruct (is_linked (TO_timer n) (tmo k)); done. }
  assert (Hne : Z.max (duration - 1) 0 <> K_FOREVER) by (unfold K_FOREVER, K_TICKS_FOREVER; lia).
  split.
  - rewrite add_timeout_expiry, decide_True by done. destruct Hq1 as [-> Hq1]. unfold timeout_dticks.
    replace (_ >=? 0) with false by (unfold Z_TICK_ABS, K_TICKS_FOREVER; lia).
    rewrite Hq1. unfold sys_clock_tick_get. f_equal. lia.
  - intros y Hy. rewrite add_timeout_expiry, decide_False by done. unfold q1.
    by rewrite abort_timeout_expiry, decide_False.
Qed.

Lemma status_sync_runs (J : St -> Prop) k x :
  stable J -> (forall k' x', J (k', x') -> J (k', x' <| status := 0 |>)) -> krun k ->
  current k <> idle_thread k -> J (k, x) ->
  (forall k', pended (wait_q x) (k <| irq_locked := true |>) k' -> J (k', x)) ->
  runs J (current k)
    (fun r s => returned J (current k) (irq_locked k) s /\ status s.2 = 0
       /\ ((status x <> 0 \/ is_linked (TO_timer n) (tmo k) = false) -> r = status x))
    (z_impl_k_timer_status_sync (k, x)).
Proof.
  intros HJ H0 Hk Hi HJk Hp. unfold z_impl_k_timer_status_sync. run_code. unfold z_is_inactive_timeout.
  destruct (status x =? 0) eqn:Es; cbn [obind fst snd].
  2:{ rewrite unlock_id. split; [|done]. unfold returned. split_and!; try done. by apply H0. }
  change (tmo (k <| irq_locked := true |>)) with (tmo k).
  destruct (is_linked (TO_timer n) (tmo k)) eqn:El;
    [change (negb (negb true)) with true|change (negb (negb false)) with false]; cbn [obind fst snd].
  2:{ rewrite unlock_id. split; [|done]. unfold returned. split_and!; try done. by apply H0. }
  apply (runs_bind J _ (fun kr s => exists s0, returned J (current k) (irq_locked k) s0
    /\ s = (s0.1 <| irq_locked := true |>, s0.2) /\ kr = (negb (irq_locked s0.1), status s0.2))).
  - eapply runs_bind; [by apply (pend_returned_runs J HJ)|]. intros r s0 [Hr _]. cbn [runs]. by exists s0.
  - intros kr s (s0 & (R1 & R2 & R3 & R4) & -> & ->). destruct s0 as [k' x']. cbn [fst snd] in *.
    rewrite unlock_id. split; [|split; [done|]].
    + unfold returned. split_and!; try done. by apply H0.
    + intros [?|?]; [lia|done].
Qed.

End KTimer.

(** ** Properties *)


Definition ticking (q : tq) : kernel := (demo true) <| tmo := q |>.


(** The handler of a periodic timer that expires on the last announced
    tick, after another timeout of the same tick, starts the next period at
    the time of the driver instead of the time of the expiry: with [el] ticks
    elapsed since the announcement the period is [el] ticks too long. *)
Theorem k_timer_shared_tick_shifts n other d c r el pr k x :
  tmo k = mk_tq [(TO_slice, d); (TO_timer n, 0)] c r el pr -> 0 < d -> 0 <= c -> 0 <= el ->
  waitqs k (wait_q x) = [] -> 1 <= period x ->
  exists k', announce_timers n None other 3 d (k, x) = Some (k', x <| status ::= fun v => u32 (v + 1) |>)
    /\ curr_tick (tmo k') = c + d /\ expiry (TO_timer n) (tmo k') = Some (c + d + el + period x).
Proof. by apply announce_shifted. Qed.

Lemma k_timer_shared_tick_shifts_witness :
  exists k', announce_timers 1 None (fun _ k => k) 3 5
               (ticking (mk_tq [(TO_slice, 5); (TO_timer 1, 0)] 100 0 2 None), mk_timer 8 10 0)
             = Some (k', mk_timer 8 10 1)
    /\ curr_tick (tmo k') = 105 /\ expiry (TO_timer 1) (tmo k') = Some 117.
Proof.
  apply (k_timer_shared_tick_shifts 1 (fun _ k => k) 5 100 0 2 None
           (ticking (mk_tq [(TO_slice, 5); (TO_timer 1, 0)] 100 0 2 None)) (mk_timer 8 10 0));
    first [reflexivity|simpl; lia].
Defined.

(** [k_timer_start] with a relative duration makes the timer expire after
    that many ticks from now, but at least one, clears its status, replaces an
    earlier start, and affects no other timeout. *)
Theorem k_timer_start_spec n duration per k x :
  tq_wf (tmo k) -> 0 <= elapsed (tmo k) -> 0 <= duration ->
  exists k', z_impl_k_timer_start n duration per (k, x) = Done tt (k', x <| period := per |> <| status := 0 |>)
    /\ expiry (TO_timer n) (tmo k') = Some (sys_clock_tick_get (tmo k) + Z.max 1 duration)
    /\ (forall y, y <> TO_timer n -> expiry y (tmo k') = expiry y (tmo k)).
Proof. apply (start_expiry n (fun _ k => k)). Qed.

Lemma k_timer_start_spec_witness :
  exists k', z_impl_k_timer_start 1 7 0 (ticking (mk_tq [(TO_timer 1, 3)] 100 0 2 None), mk_timer 8 2 4)
             = Done tt (k', mk_timer 8 0 0)
    /\ expiry (TO_timer 1) (tmo k') = Some 109.
Proof.
  destruct (k_timer_start_spec 1 7 0 (ticking (mk_tq [(TO_timer 1, 3)] 100 0 2 None)) (mk_timer 8 2 4))
    as (k' & E & H & _).
  - split; [apply NoDup_singleton|by repeat constructor].
  - vm_compute. discriminate.
  - lia.
  - exists k'. split; [exact E|exact H].
Defined.

End KTimer.
