(* ===== verification/Events.v ===== *)
(** Event objects (kernel/events.c).

    A thread waits for any or for all events of a set; posting collects the
    waiters whose condition is met in a list linked through their thread
    records, then wakes them one after the other.  While a thread is on that
    list its record is marked so that an expiring timeout leaves it alone.
    The theorems show that a post wakes exactly the waiters whose condition
    the new events meet, that no thread waits for a condition that holds, and
    that a wait comes back with events that satisfy it. *)
From Stdlib Require Import FunctionalExtensionality.
From S2P Require Import Prelude Timeout Kernel Sched SchedInv SchedApi Demo.

Module Events.

Definition K_EVENT_WAIT_ANY : Z := 0x00.
Definition K_EVENT_WAIT_ALL : Z := 0x01.
Definition K_EVENT_WAIT_MASK : Z := 0x01.
Definition K_EVENT_WAIT_RESET : Z := 0x02.

Record k_event := mk_event {
  wait_q : wqid;
  events : Z                       (* uint32_t *)
}.

#[export] Instance set_events : Settable events :=
  fun f e => mk_event (wait_q e) (f (events e)).

Record event_walk_data := mk_walk {
  walk_head : option tid;
  walk_events : Z
}.

#[export] Instance set_walk_head : Settable walk_head :=
  fun f d => mk_walk (f (walk_head d)) (walk_events d).

Definition z_impl_k_event_init : M (kernel * k_event) unit :=
  omod (fun e => e <| events := 0 |>) ;;
  w <- oget wait_q ;;
  kmod (z_waitq_init w).

Definition are_wait_conditions_met (desired current_ wait_condition : Z) : bool :=
  let match_ := Z.land current_ desired in
  if wait_condition =? K_EVENT_WAIT_ALL then match_ =? desired
  else negb (match_ =? 0).

Definition event_walk_op (thread : tid) (s : kernel * event_walk_data)
    : Z * (kernel * event_walk_data) :=
  let '(k, event_data) := s in
  let wait_condition := Z.land (event_options (threads k thread)) K_EVENT_WAIT_MASK in
  if are_wait_conditions_met (th_events (threads k thread)) (walk_events event_data) wait_condition
  then
    let k1 := upd_thread thread (fun t => t <| no_wake_on_timeout := true |>) k in
    let k2 := upd_thread thread (fun t => t <| next_event_link := walk_head event_data |>) k1 in
    (0, ((z_abort_thread_timeout thread k2).2, event_data <| walk_head := Some thread |>))
  else (0, s).

(** The [do ... while (thread != NULL)] of a post.  The list holds each waiter
    at most once, so the length of the wait queue is enough fuel. *)
Fixpoint event_wake_loop (fuel : nat) (thread : tid) (ev : Z) (k : kernel) : kernel :=
  match fuel with
  | O => k
  | S fuel' =>
      let k1 := arch_thread_return_value_set thread 0 k in
      let k2 := upd_thread thread (fun t => t <| th_events := ev |>) k1 in
      let next := next_event_link (threads k2 thread) in
      let k3 := z_sched_wake_thread thread false k2 in
      match next with
      | Some t => event_wake_loop fuel' t ev k3
      | None => k3
      end
  end.

Definition k_event_post_internal (ev events_mask : Z) : M (kernel * k_event) unit :=
  key <- k_spin_lock ;;
  old <- oget events ;;
  let ev := Z.lor (Z.land old (Z.lnot events_mask)) (Z.land ev events_mask) in
  omod (fun e => e <| events := ev |>) ;;
  w <- oget wait_q ;;
  kmod (fun k =>
    let '(_, (k1, data)) := z_sched_waitq_walk w event_walk_op (k, mk_walk None ev) in
    match walk_head data with
    | Some thread => event_wake_loop (length (waitqs k w)) thread ev k1
    | None => k1
    end) ;;
  z_reschedule key.

Definition z_impl_k_event_post (ev : Z) : M (kernel * k_event) unit :=
  k_event_post_internal ev ev.

Definition z_impl_k_event_set (ev : Z) : M (kernel * k_event) unit :=
  k_event_post_internal ev UINT32_MAX.

Definition z_impl_k_event_set_masked (ev events_mask : Z) : M (kernel * k_event) unit :=
  k_event_post_internal ev events_mask.

Definition z_impl_k_event_clear (ev : Z) : M (kernel * k_event) unit :=
  k_event_post_internal 0 ev.

Definition k_event_wait_internal (ev options timeout : Z) : M (kernel * k_event) Z :=
  if ev =? 0 then ret 0 else
  let wait_condition := Z.land options K_EVENT_WAIT_MASK in
  thread <- kget current ;;
  key <- k_spin_lock ;;
  (if negb (Z.land options K_EVENT_WAIT_RESET =? 0)
   then omod (fun e => e <| events := 0 |>) else ret tt) ;;
  cur <- oget events ;;
  if are_wait_conditions_met ev cur wait_condition then
    k_spin_unlock key ;;
    ret (Z.land cur ev)
  else if timeout =? K_NO_WAIT then
    k_spin_unlock key ;;
    ret (Z.land 0 ev)
  else
    kmod (upd_thread thread (fun t => t <| th_events := ev |>)) ;;
    kmod (upd_thread thread (fun t => t <| event_options := options |>)) ;;
    w <- oget wait_q ;;
    r <- z_pend_curr key w timeout ;;
    if r =? 0 then
      rv <- kget (fun k => th_events (threads k thread)) ;;
      ret (Z.land rv ev)
    else ret (Z.land 0 ev).

Definition z_impl_k_event_wait (ev : Z) (reset : bool) (timeout : Z) : M (kernel * k_event) Z :=
  k_event_wait_internal ev (if reset then K_EVENT_WAIT_RESET else 0) timeout.

Definition z_impl_k_event_wait_all (ev : Z) (reset : bool) (timeout : Z) : M (kernel * k_event) Z :=
  k_event_wait_internal ev
    (if reset then Z.lor K_EVENT_WAIT_RESET K_EVENT_WAIT_ALL else K_EVENT_WAIT_ALL) timeout.

(** ** The kernel without the marks of a post in progress *)

(** The scheduler invariant does not hold while records are marked; it holds
    of the state with the marks taken away, on which the code does the same. *)
Definition quieted (k : kernel) : kernel :=
  k <| threads := fun t => (threads k t) <| no_wake_on_timeout := false |> |>.

Lemma quieted_upd t f k :
  (forall x, (f x) <| no_wake_on_timeout := false |> = f (x <| no_wake_on_timeout := false |>)) ->
  quieted (upd_thread t f k) = upd_thread t f (quieted k).
Proof.
  intros Hf. unfold quieted, upd_thread, upd, set_threads. cbn. f_equal.
  apply functional_extensionality. intros t'. unfold insert, fn_insert. destruct (decide (t = t')) as [<-|Hne]; [apply Hf|done].
Qed.

Lemma priq_add_prio th th' t l :
  (forall x, prio (th' x) = prio (th x)) -> z_priq_dumb_add th' t l = z_priq_dumb_add th t l.
Proof.
  intros Hp. induction l as [|x r IH]; simpl; [done|]. unfold z_sched_prio_cmp. by rewrite IH, !Hp.
Qed.

Lemma quieted_ready t k : quieted (ready_thread t k) = ready_thread t (quieted k).
Proof.
  assert (Hq : forall x, quieted (queue_thread x k) = queue_thread x (quieted k)).
  { intros x. unfold queue_thread, runq_add. rewrite <-(quieted_upd x (set_state _THREAD_QUEUED)) by done.
    set (k1 := upd_thread x (set_state _THREAD_QUEUED) k). unfold quieted, upd, set_threads, set_runq. cbn. f_equal.
    symmetry. by apply priq_add_prio. }
  assert (Hr : forall x y, quieted (z_reset_time_slice x y) = z_reset_time_slice x (quieted y)).
  { intros x y. unfold z_reset_time_slice. cbv zeta.
    match goal with |- quieted (if ?b then _ else _) = _ => change (sliceable x _) with b at 2; by destruct b end. }
  assert (Hu : forall b y, quieted (update_cache b y) = update_cache b (quieted y)).
  { intros b y. unfold update_cache. change (should_preempt (next_up (quieted y)) b (quieted y)) with (should_preempt (next_up y) b y).
    destruct (should_preempt _ _ _); [|done]. change (next_up (quieted y)) with (next_up y).
    change (current (quieted y)) with (current y). case_decide; [|done].
    rewrite <-Hr. done. }
  unfold ready_thread. change (z_is_thread_ready t (quieted k)) with (z_is_thread_ready t k).
  change (z_is_thread_queued (threads (quieted k) t)) with (z_is_thread_queued (threads k t)).
  case_match; [|done]. by rewrite Hu, Hq.
Qed.

Lemma quieted_unpend t k : quieted (unpend_thread_no_timeout t k) = unpend_thread_no_timeout t (quieted k).
Proof.
  unfold unpend_thread_no_timeout. change (pended_on (threads (quieted k) t)) with (pended_on (threads k t)).
  case_match; [|done]. by rewrite quieted_upd.
Qed.

Lemma quieted_wake t k :
  quieted (z_sched_wake_thread t false k) = z_sched_wake_thread t false (quieted k).
Proof.
  unfold z_sched_wake_thread. rewrite !andb_false_r.
  change (thread_state (threads (quieted k) t)) with (thread_state (threads k t)).
  rewrite <-(quieted_upd t (fun x => x <| no_wake_on_timeout := false |>)) by done.
  set (k1 := upd_thread t (fun x => x <| no_wake_on_timeout := false |>) k).
  destruct (negb _); [|done].
  rewrite quieted_ready, quieted_upd by done. do 2 f_equal.
  change (pended_on (threads (quieted k1) t)) with (pended_on (threads k1 t)).
  case_match; [apply quieted_unpend|done].
Qed.

(** ** Waking one thread of a wait queue *)

(** The state after [z_sched_wake_thread] took [t] from wait queue [w]. *)
Record plucked (w : wqid) (t : tid) (k k' : kernel) : Prop := {
  pl_wf : kwf k';
  pl_cur : current k' = current k;
  pl_isr : in_isr k' = in_isr k;
  pl_irq : irq_locked k' = irq_locked k;
  pl_idle : idle_thread k' = idle_thread k;
  pl_wq : waitqs k' w = z_priq_dumb_remove t (waitqs k w);
  pl_wqs w' : w' <> w -> waitqs k' w' = waitqs k w';
  pl_linked x : is_linked (TO_thread x) (tmo k') = is_linked (TO_thread x) (tmo k);
  pl_thread : exists st, threads k' t = (threads k t) <| thread_state := st |> <| pended_on := None |>;
  pl_other t' : t' <> t -> threads k' t' = threads k t';
  pl_ready : Z.testbit (thread_state (threads k t)) 0 = false ->
             Z.testbit (thread_state (threads k t)) 4 = false -> t ∈ runq k'
}.

Lemma unmarked_id t k :
  no_wake_on_timeout (threads k t) = false ->
  upd_thread t (fun x => x <| no_wake_on_timeout := false |>) k = k.
Proof.
  intros Hn. unfold upd_thread, upd, set_threads. destruct k as [th]. f_equal. cbn in *.
  apply functional_extensionality. intros t'. unfold insert, fn_insert.
  destruct (decide (t = t')) as [<-|]; [|done]. destruct (th t). cbn in *. by subst.
Qed.

Lemma wake_thread_plucked w t k :
  kwf k -> pended_on (threads k t) = Some w -> is_linked (TO_thread t) (tmo k) = false ->
  Z.testbit (thread_state (threads k t)) 3 = false ->
  plucked w t k (z_sched_wake_thread t false k).
Proof.
  intros Hk Hp Hl Hd. destruct (kb_quiet _ (kwf_base _ Hk) t) as [Hn H5].
  unfold z_sched_wake_thread. rewrite andb_false_r, (unmarked_id t k Hn), Hp.
  unfold _THREAD_DEAD, _THREAD_ABORTING. rewrite !flag_set_BIT, H5, Hd by done. cbn [orb negb].
  assert (Hbit : forall n, 0 <= n -> Z.testbit (thread_state (threads (unpend_thread_no_timeout t k) t)) n
    = Z.testbit (thread_state (threads k t)) n && negb (n =? 1)).
  { intros n Hn0. rewrite (unpend_bit t k w) by done. by rewrite bool_decide_eq_true_2. }
  pose proof (unpend_waking t k w Hk Hp) as W1. pose proof (unpend_threads t k w) as T1. specialize (fun t' => T1 t' Hp).
  assert (Ew : forall w', waitqs (unpend_thread_no_timeout t k) w' = if decide (w' = w) then z_priq_dumb_remove t (waitqs k w) else waitqs k w').
  { intros w'. rewrite (unpend_unfold t k w) by done. apply waitqs_upd_waitq. }
  assert (Ef : forall {A} (f : kernel -> A), (forall x y z, f (upd_thread x y z) = f z) -> (forall x y z, f (upd_waitq x y z) = f z) ->
    f (unpend_thread_no_timeout t k) = f k).
  { intros A f H1 H2. rewrite (unpend_unfold t k w) by done. by rewrite H1, H2. }
  set (k1 := unpend_thread_no_timeout t k) in *. clearbody k1.
  assert (Hne : t <> current k1).
  { rewrite (Ef _ current) by done. intros ->. by rewrite (kc_pended _ (kwf_cur _ Hk)) in Hp. }
  assert (Q1 : z_is_thread_queued (threads k1 t) = false).
  { rewrite queued_bit, Hbit, <-queued_bit by done. rewrite (pended_not_queued k t); [done|apply Hk| |congruence].
    eapply kready_weaken; [|apply Hk]. done. }
  assert (W2 : kwaking t (upd_thread t z_mark_thread_as_started k1)).
  { apply upd_waking; try done. apply started_soft; apply (kb_quiet _ (kw_base _ _ W1)). }
  set (k2 := upd_thread t z_mark_thread_as_started k1) in *.
  assert (T2 : forall t', threads k2 t' = if decide (t' = t) then z_mark_thread_as_started (threads k1 t) else threads k1 t')
    by (intros; apply threads_upd_thread).
  pose proof (ready_thread_frame t k2) as F. split.
  - by apply ready_thread_wf.
  - rewrite (kf_current _ _ F). by apply (Ef _ current).
  - rewrite (kf_in_isr _ _ F). by apply (Ef _ in_isr).
  - rewrite (kf_irq _ _ F). by apply (Ef _ irq_locked).
  - rewrite (kf_idle _ _ F). by apply (Ef _ idle_thread).
  - rewrite (kf_waitqs _ _ F). change (waitqs k2) with (waitqs k1). by rewrite Ew, decide_True.
  - intros w' Hw'. rewrite (kf_waitqs _ _ F). change (waitqs k2) with (waitqs k1). by rewrite Ew, decide_False.
  - intros x. rewrite (st_linked (tmo k2)) by (apply F; apply (kw_base _ _ W2)). change (tmo k2) with (tmo k1).
    by rewrite (Ef _ tmo).
  - destruct (kf_thread _ _ F t) as (st & -> & _). exists st. by rewrite T2, decide_True, T1, decide_True.
  - intros t' Ht'. by rewrite ready_thread_other, T2, decide_False, T1, decide_False.
  - intros H0 H4. apply (kb_queued _ (kwf_base _ (ready_thread_wf _ _ W2))). apply ready_thread_queued; [done|].
    apply ready_iff. change (tmo k2) with (tmo k1). rewrite (Ef _ tmo) by done. split; [|done].
    rewrite T2, decide_True, prevented_bits by done. unfold z_mark_thread_as_started, _THREAD_PRESTART.
    rewrite !testbit_clear_state, !Hbit, H0, H4, Hd by lia. simpl. by rewrite !andb_false_r.
Qed.

Lemma unmarked_thread x : no_wake_on_timeout x = false -> x <| no_wake_on_timeout := false |> = x.
Proof. destruct x. cbn. by intros ->. Qed.

Lemma wake_other t k t' : t' <> t -> threads (z_sched_wake_thread t false k) t' = threads k t'.
Proof.
  intros Hne. unfold z_sched_wake_thread. rewrite andb_false_r.
  set (k1 := upd_thread t (fun x => x <| no_wake_on_timeout := false |>) k).
  assert (E1 : threads k1 t' = threads k t') by (unfold k1; by rewrite threads_upd_thread, decide_False).
  clearbody k1. case_match; [|done]. rewrite ready_thread_other, threads_upd_thread, decide_False by done.
  destruct (pended_on (threads k1 t)) as [w|] eqn:Ep; [|done].
  by rewrite (unpend_threads t k1 w), decide_False.
Qed.

Lemma wake_unmarks t k : no_wake_on_timeout (threads (z_sched_wake_thread t false k) t) = false.
Proof.
  unfold z_sched_wake_thread. rewrite andb_false_r.
  set (k1 := upd_thread t (fun x => x <| no_wake_on_timeout := false |>) k).
  assert (E1 : no_wake_on_timeout (threads k1 t) = false) by (unfold k1; by rewrite threads_upd_thread, decide_True).
  clearbody k1. case_match; [|done].
  match goal with |- context [ready_thread t ?x] => destruct (kf_thread _ _ (ready_thread_frame t x) t) as (st & -> & _) end.
  change (no_wake_on_timeout (?x <| thread_state := st |>)) with (no_wake_on_timeout x).
  rewrite threads_upd_thread, decide_True by done.
  change (no_wake_on_timeout (z_mark_thread_as_started ?x)) with (no_wake_on_timeout x).
  destruct (pended_on (threads k1 t)) as [w|] eqn:Ep; [|done].
  by rewrite (unpend_threads t k1 w), decide_True.
Qed.

(** ** Posting *)

(** Whether the condition that thread record [x] waits for holds of the
    events [ev]. *)
Definition satisfied (ev : Z) (x : k_thread) : bool :=
  are_wait_conditions_met (th_events x) ev (Z.land (event_options x) K_EVENT_WAIT_MASK).

(** The threads from [h] along [next_event_link]. *)
Fixpoint event_list (k : kernel) (h : option tid) (l : list tid) : Prop :=
  match l with
  | [] => h = None
  | t :: r => h = Some t /\ event_list k (next_event_link (threads k t)) r
  end.

Lemma event_list_ext k k' h l :
  (forall t, t ∈ l -> next_event_link (threads k' t) = next_event_link (threads k t)) ->
  event_list k h l -> event_list k' h l.
Proof.
  revert h. induction l as [|t r IH]; simpl; intros h He; [done|]. intros [-> Hl]. split; [done|].
  rewrite He by (by left). apply IH; [|done]. intros t' Ht'. apply He. by right.
Qed.

Section Post.
Context (w : wqid) (ev : Z) (k : kernel).
Context (Hk : kwf k) (Halive : forall t, t ∈ waitqs k w -> Z.testbit (thread_state (threads k t)) 3 = false).

(** A post that began in [k] and has come to [k']: the threads [l] are marked,
    the threads [d] have been woken. *)
Record posting (l d : list tid) (k' : kernel) : Prop := {
  po_wf : kwf (quieted k');
  po_cur : current k' = current k;
  po_isr : in_isr k' = in_isr k;
  po_irq : irq_locked k' = irq_locked k;
  po_idle : idle_thread k' = idle_thread k;
  po_wq : waitqs k' w = filter (fun t => t ∉ d) (waitqs k w);
  po_wqs w' : w' <> w -> waitqs k' w' = waitqs k w';
  po_marked t : t ∈ l -> is_linked (TO_thread t) (tmo k') = false
    /\ exists nx, threads k' t = (threads k t) <| no_wake_on_timeout := true |> <| next_event_link := nx |>;
  po_done t : t ∈ d -> exists st nx,
    threads k' t = (threads k t) <| thread_state := st |> <| pended_on := None |> <| swap_retval := 0 |>
                     <| th_events := ev |> <| next_event_link := nx |>;
  po_ready t : t ∈ d -> Z.testbit (thread_state (threads k t)) 0 = false ->
    Z.testbit (thread_state (threads k t)) 4 = false -> t ∈ runq k';
  po_other t : t ∉ l -> t ∉ d -> threads k' t = threads k t
}.

Lemma abort_pended_wf t k' :
  kwf k' -> pended_on (threads k' t) = Some w -> kwf (z_abort_thread_timeout t k').2.
Proof.
  intros Hk' Hp. destruct (core_prevented t (z_abort_thread_timeout t k').2) as [H1 H2 H3].
  - apply abort_core, kwf_core, Hk'.
  - rewrite abort_threads. assert (z_is_thread_pending (threads k' t) = true) as Hpe
      by (apply (kb_pending _ (kwf_base _ Hk')); congruence). flags. by rewrite Hpe.
  - split; try done. rewrite abort_thread_timeout_tmo. apply (kwf_cache _ Hk').
Qed.

Lemma quieted_mark t nx k' :
  quieted (upd_thread t (fun t => t <| next_event_link := nx |>)
             (upd_thread t (fun t => t <| no_wake_on_timeout := true |>) k'))
  = upd_thread t (fun t => t <| next_event_link := nx |>) (quieted k').
Proof.
  rewrite quieted_upd by done. f_equal. unfold quieted, upd_thread, upd, set_threads. cbn. f_equal.
  apply functional_extensionality. intros t'. unfold insert, fn_insert.
  by destruct (decide (t = t')) as [<-|].
Qed.

(** One thread is put on the list. *)
Lemma mark_posting l t nx k' :
  posting l [] k' -> t ∈ waitqs k w -> t ∉ l ->
  posting (t :: l) []
    (z_abort_thread_timeout t (upd_thread t (fun t => t <| next_event_link := nx |>)
       (upd_thread t (fun t => t <| no_wake_on_timeout := true |>) k'))).2.
Proof.
  intros [P1 P2 P3 P4 P5 P6 P7 P8 P9 P10 P11] Ht Hl.
  pose proof (P11 t Hl (not_elem_of_nil _)) as Et.
  set (k1 := upd_thread t (fun t => t <| next_event_link := nx |>)
       (upd_thread t (fun t => t <| no_wake_on_timeout := true |>) k')).
  assert (T1 : forall t', threads k1 t' = if decide (t' = t)
    then (threads k t) <| no_wake_on_timeout := true |> <| next_event_link := nx |> else threads k' t').
  { intros t'. unfold k1. rewrite !threads_upd_thread, (decide_True _ _ (eq_refl t)), Et. by case_decide. }
  assert (Hq : kwf (quieted k1)).
  { unfold k1. rewrite quieted_mark. by eapply kwf_same; [by apply upd_thread_same|..]. }
  assert (Hp : pended_on (threads (quieted k1) t) = Some w).
  { change (pended_on (threads k1 t) = Some w). rewrite T1, decide_True by done. by apply (kb_wq _ (kwf_base _ Hk)). }
  assert (Htq : tq_wf (tmo k1)) by apply (kb_tmo _ (kwf_base _ Hq)).
  pose proof (abort_pended_wf t (quieted k1) Hq Hp) as Hwf. rewrite !abort_thread_timeout_tmo in *.
  split; try done.
  - intros t' [->|Ht']%elem_of_cons.
    + cbn [threads tmo upd set_tmo]. split; [|exists nx; by rewrite T1, decide_True]. rewrite abort_timeout_linked by done.
      by rewrite (bool_decide_eq_false_2 (_ <> _)), andb_false_r by tauto.
    + destruct (P8 t' Ht') as (E1 & E2). split.
      * cbn [threads tmo upd set_tmo]. rewrite abort_timeout_linked by done. change (tmo k1) with (tmo k'). by rewrite E1.
      * cbn [threads tmo upd set_tmo]. rewrite T1, decide_False; [done|]. by intros ->.
  - by intros t' ?%elem_of_nil.
  - intros t' [Hne Hl']%not_elem_of_cons _. cbn [threads tmo upd set_tmo]. rewrite T1, decide_False by done. apply P11; [done|apply not_elem_of_nil].
Qed.

Lemma walk_posting r l h k' :
  posting l [] k' -> event_list k' h l -> NoDup r -> (forall t, t ∈ r -> t ∈ waitqs k w /\ t ∉ l) ->
  exists k1 h1, waitq_walk event_walk_op r (k', mk_walk h ev) = (0, (k1, mk_walk h1 ev))
    /\ posting (reverse (filter (fun t => satisfied ev (threads k t) = true) r) ++ l) [] k1
    /\ event_list k1 h1 (reverse (filter (fun t => satisfied ev (threads k t) = true) r) ++ l).
Proof.
  revert l h k'. induction r as [|t r IH]; intros l h k' Hp Hh Hnd Hr; [by exists k', h|].
  apply NoDup_cons in Hnd as [Hni Hnd]. destruct (Hr t) as [Hw Hl]; [by left|].
  cbn [waitq_walk]. unfold event_walk_op at 1. cbn [walk_events walk_head].
  rewrite (po_other _ _ _ Hp t Hl (not_elem_of_nil _)). fold (satisfied ev (threads k t)).
  rewrite filter_cons. destruct (satisfied ev (threads k t)) eqn:Es; cycle 1.
  { rewrite decide_False by done. apply IH; try done. intros t' Ht'. apply Hr. by right. }
  rewrite decide_True, reverse_cons, <-app_assoc by done. cbn [Z.eqb negb]. apply IH.
  - by apply mark_posting.
  - split; [done|]. rewrite abort_threads, !threads_upd_thread, decide_True by done. cbn.
    eapply event_list_ext; [|exact Hh]. intros t' Ht'. rewrite abort_threads, !threads_upd_thread, !decide_False; [done| |]; by intros ->.
  - done.
  - intros t' Ht'. destruct (Hr t') as [H1 H2]; [by right|]. split; [done|].
    apply not_elem_of_cons. split; [by intros ->|done].
Qed.

(** One thread of the list is woken. *)
Lemma wake_posting t l d k' :
  posting (t :: l) d k' -> t ∈ waitqs k w -> t ∉ d -> t ∉ l ->
  posting l (t :: d)
    (z_sched_wake_thread t false
       (upd_thread t (fun t => t <| th_events := ev |>) (arch_thread_return_value_set t 0 k'))).
Proof.
  intros [P1 P2 P3 P4 P5 P6 P7 P8 P9 P10 P11] Ht Hd Hl.
  destruct (P8 t) as (Hlk & nx & Et); [by left|].
  set (k2 := upd_thread t (fun t => t <| th_events := ev |>) (arch_thread_return_value_set t 0 k')).
  assert (T2 : forall t', threads k2 t' = if decide (t' = t)
    then (threads k' t) <| swap_retval := 0 |> <| th_events := ev |> else threads k' t').
  { intros t'. unfold k2, arch_thread_return_value_set. rewrite !threads_upd_thread, (decide_True _ _ (eq_refl t)). by case_decide. }
  assert (Hq : kwf (quieted k2)).
  { unfold k2, arch_thread_return_value_set. rewrite !quieted_upd by done.
    eapply kwf_same; [by apply upd_thread_same|done|]. by eapply kwf_same; [by apply upd_thread_same|..]. }
  destruct (wake_thread_plucked w t (quieted k2)) as [L1 L2 L3 L4 L5 L6 L7 L8 L9 L10 L11]; [done| |done| |].
  { change (pended_on (threads k2 t) = Some w). rewrite T2, decide_True, Et by done. by apply (kb_wq _ (kwf_base _ Hk)). }
  { change (Z.testbit (thread_state (threads k2 t)) 3 = false). rewrite T2, decide_True, Et by done. by apply Halive. }
  rewrite <-quieted_wake in *. pose proof (wake_unmarks t k2) as U. pose proof (wake_other t k2) as O2.
  change (runq (quieted ?x)) with (runq x) in L11.
  set (k3 := z_sched_wake_thread t false k2) in *. clearbody k3.
  assert (T3 : exists st, threads k3 t
    = (threads k t) <| thread_state := st |> <| pended_on := None |> <| swap_retval := 0 |>
        <| th_events := ev |> <| next_event_link := nx |>).
  { destruct L9 as [st Hst]. exists st. change (threads (quieted k3) t) with ((threads k3 t) <| no_wake_on_timeout := false |>) in Hst.
    rewrite (unmarked_thread (threads k3 t) U) in Hst. rewrite Hst.
    change (threads (quieted k2) t) with ((threads k2 t) <| no_wake_on_timeout := false |>).
    rewrite T2, decide_True, Et by done. destruct (kb_quiet _ (kwf_base _ Hk) t) as [Hn _].
    destruct (threads k t). cbn in *. by subst. }
  split; try done.
  - exact (eq_trans L2 P2).
  - exact (eq_trans L3 P3).
  - exact (eq_trans L4 P4).
  - exact (eq_trans L5 P5).
  - etransitivity; [exact L6|]. change (waitqs (quieted k2) w) with (waitqs k' w). rewrite P6. apply priq_remove_filter. apply (kb_wq_nodup _ (kwf_base _ Hk)).
  - intros w' Hw'. change (waitqs k3 w') with (waitqs (quieted k3) w'). rewrite L7 by done. by apply P7.
  - intros t' Ht'. assert (t' <> t) by (by intros ->). destruct (P8 t') as (E1 & E2); [by right|]. split.
    + change (tmo k3) with (tmo (quieted k3)). by rewrite L8.
    + by rewrite O2, T2, decide_False.
  - intros t' [->|Ht']%elem_of_cons; [destruct T3 as [st E]; by exists st, nx|].
    rewrite O2, T2, decide_False by (by intros ->). by apply P9.
  - intros t' [->|Ht']%elem_of_cons.
    + intros H0 H4. apply L11; change (thread_state (threads (quieted k2) t)) with (thread_state (threads k2 t));
        by rewrite T2, decide_True, Et.
    + intros H0 H4. assert (t' <> t) by (by intros ->). apply (kb_queued _ (kwf_base _ L1) t').
      change (z_is_thread_queued (threads k3 t') = true). rewrite O2, T2, decide_False by done.
      apply (kb_queued _ (kwf_base _ P1) t'). by apply P10.
  - intros t' Hl' [Hne Hd']%not_elem_of_cons. rewrite O2, T2, decide_False by done. apply P11; [|done].
    by apply not_elem_of_cons.
Qed.

Lemma loop_posting l t d fuel k' :
  posting (t :: l) d k' -> event_list k' (next_event_link (threads k' t)) l -> NoDup (t :: l ++ d) ->
  (forall x, x ∈ t :: l -> x ∈ waitqs k w) -> (length l < fuel)%nat ->
  posting [] (reverse (t :: l) ++ d) (event_wake_loop fuel t ev k').
Proof.
  revert t d fuel k'. induction l as [|t2 l IH]; intros t d [|fuel] k' Hp Hl Hnd Hin Hf; try (simpl in Hf; lia);
    apply NoDup_cons in Hnd as [Hni Hnd]; apply not_elem_of_app in Hni as [Hni1 Hni2];
    pose proof (wake_posting t _ d k' Hp (Hin t (list_elem_of_here _ _)) Hni2 Hni1) as Hp';
    cbn [event_wake_loop];
    set (k2 := upd_thread t (fun x => x <| th_events := ev |>) (arch_thread_return_value_set t 0 k')) in *;
    assert (Hnx : forall x, next_event_link (threads k2 x) = next_event_link (threads k' x))
      by (intros x; unfold k2, arch_thread_return_value_set; rewrite !threads_upd_thread; repeat case_decide; by subst);
    rewrite Hnx.
  - simpl in Hl. by rewrite Hl.
  - destruct Hl as [-> Hl]. rewrite reverse_cons, <-app_assoc. apply IH; try done.
    + apply not_elem_of_cons in Hni1 as [Hne Hni1].
      rewrite wake_other, Hnx by done. eapply event_list_ext; [|exact Hl].
      intros x Hx. rewrite wake_other, Hnx; [done|]. by intros ->.
    + change (NoDup ((t2 :: l) ++ t :: d)). rewrite <-Permutation_middle. apply NoDup_cons. rewrite not_elem_of_app. done.
    + intros x Hx. apply Hin. by right.
    + simpl in Hf. lia.
Qed.

Lemma posting_start : posting [] [] k.
Proof.
  assert (Hn : forall t, no_wake_on_timeout (threads k t) = false) by (intros; apply (kb_quiet _ (kwf_base _ Hk))).
  split; try done; try (by intros t ?%elem_of_nil).
  - apply (kwf_same k); [|done|exact Hk]. by split; try apply same_tmo_refl.
  - symmetry. clear. induction (waitqs k w) as [|t r IH]; [done|]. rewrite filter_cons, decide_True by apply not_elem_of_nil. f_equal. exact IH.
Qed.

(** A post of [ev] that began in [k] and ended in [k']: exactly the waiters
    whose condition holds have left the queue, each with the events, and the
    others keep their order. *)
Record posted (k' : kernel) : Prop := {
  ps_wf : kwf k';
  ps_cur : current k' = current k;
  ps_isr : in_isr k' = in_isr k;
  ps_irq : irq_locked k' = irq_locked k;
  ps_idle : idle_thread k' = idle_thread k;
  ps_wq : waitqs k' w = filter (fun t => satisfied ev (threads k t) = false) (waitqs k w);
  ps_wqs w' : w' <> w -> waitqs k' w' = waitqs k w';
  ps_woken t : t ∈ waitqs k w -> satisfied ev (threads k t) = true -> exists st nx,
    threads k' t = (threads k t) <| thread_state := st |> <| pended_on := None |> <| swap_retval := 0 |>
                     <| th_events := ev |> <| next_event_link := nx |>;
  ps_ready t : t ∈ waitqs k w -> satisfied ev (threads k t) = true ->
    Z.testbit (thread_state (threads k t)) 0 = false ->
    Z.testbit (thread_state (threads k t)) 4 = false -> t ∈ runq k';
  ps_other t : t ∉ waitqs k w \/ satisfied ev (threads k t) = false -> threads k' t = threads k t
}.

Lemma posting_end k' :
  posting [] (filter (fun t => satisfied ev (threads k t) = true) (waitqs k w)) k' -> posted k'.
Proof.
  set (D := filter _ _). assert (HD : forall t, t ∈ D <-> t ∈ waitqs k w /\ satisfied ev (threads k t) = true)
    by (intros t; unfold D; rewrite list_elem_of_filter; tauto).
  intros [P1 P2 P3 P4 P5 P6 P7 P8 P9 P10 P11].
  assert (Hn : forall t, no_wake_on_timeout (threads k' t) = false).
  { intros t. destruct (decide (t ∈ D)) as [Ht|Ht].
    - destruct (P9 t Ht) as (st & nx & ->). apply (kb_quiet _ (kwf_base _ Hk)).
    - rewrite P11 by (done || apply not_elem_of_nil). apply (kb_quiet _ (kwf_base _ Hk)). }
  split; try done.
  - apply (kwf_same (quieted k')); [|done|exact P1]. by split; try apply same_tmo_refl.
  - rewrite P6. clearbody D. clear -HD. assert (Hin : forall t, t ∈ waitqs k w -> (t ∉ D <-> satisfied ev (threads k t) = false)).
    { intros t Ht. rewrite HD. destruct (satisfied ev (threads k t)); intuition congruence. }
    clear HD. induction (waitqs k w) as [|t r IH]; [done|]. rewrite !filter_cons.
    rewrite IH by (intros; apply Hin; by right). specialize (Hin t (list_elem_of_here _ _)).
    do 2 case_decide; tauto.
  - intros t H1 H2. apply P9, HD. done.
  - intros t H1 H2. apply P10, HD. done.
  - intros t Ht. apply P11; [apply not_elem_of_nil|]. rewrite HD. intros [H1 H2]. destruct Ht; congruence.
Qed.

End Post.

Lemma post_posted w ev k :
  kwf k -> (forall t, t ∈ waitqs k w -> Z.testbit (thread_state (threads k t)) 3 = false) ->
  posted w ev k
    (let '(_, (k1, data)) := z_sched_waitq_walk w event_walk_op (k, mk_walk None ev) in
     match walk_head data with
     | Some thread => event_wake_loop (length (waitqs k w)) thread ev k1
     | None => k1
     end).
Proof.
  intros Hk Ha. pose proof (kb_wq_nodup _ (kwf_base _ Hk) w) as Hnd. unfold z_sched_waitq_walk. cbn [fst].
  destruct (walk_posting w ev k Hk (waitqs k w) [] None k (posting_start w ev k Hk)) as (k1 & h1 & -> & Hp & Hl); try done.
  { intros t Ht. split; [done|apply not_elem_of_nil]. }
  cbn [walk_head]. rewrite app_nil_r in *. apply posting_end; [done|].
  set (F := filter _ _) in *.
  assert (HF : forall t, t ∈ reverse F -> t ∈ waitqs k w)
    by (intros t; unfold F; rewrite elem_of_reverse, list_elem_of_filter; tauto).
  assert (HlF : (length (reverse F) <= length (waitqs k w))%nat) by (rewrite length_reverse; apply length_filter).
  assert (HnF : NoDup (reverse F)) by (rewrite reverse_Permutation; by apply NoDup_filter).
  rewrite <-(reverse_involutive F). destruct (reverse F) as [|t l]; destruct h1 as [h|]; try done.
  - destruct Hl as [[= ->] Hl]. rewrite <-(app_nil_r (reverse (t :: l))). apply loop_posting; try done. by rewrite app_nil_r.
  - by destruct Hl.
Qed.

(** ** Invariant *)

(** No thread waits for a condition that holds. *)
Record inv (s : kernel * k_event) : Prop := {
  inv_range : 0 <= events s.2 <= UINT32_MAX;
  inv_alive t : t ∈ waitqs s.1 (wait_q s.2) -> Z.testbit (thread_state (threads s.1 t)) 3 = false;
  inv_wants t : t ∈ waitqs s.1 (wait_q s.2) -> th_events (threads s.1 t) <> 0;
  inv_unmet t : t ∈ waitqs s.1 (wait_q s.2) -> satisfied (events s.2) (threads s.1 t) = false
}.

(** Thread [t] began to wait for the events [d] with [options]: it is still on
    the queue, or it has left the queue, and if that was due to a post then
    with events that satisfy it. *)
Record awaiting (t : tid) (d options : Z) (s : kernel * k_event) : Prop := {
  aw_pended : pended_on (threads s.1 t) = Some (wait_q s.2) ->
    th_events (threads s.1 t) = d /\ event_options (threads s.1 t) = options
    /\ swap_retval (threads s.1 t) = - EAGAIN;
  aw_left : pended_on (threads s.1 t) <> Some (wait_q s.2) -> swap_retval (threads s.1 t) = 0 ->
    are_wait_conditions_met d (th_events (threads s.1 t)) (Z.land options K_EVENT_WAIT_MASK) = true
}.

Definition with_waiters (W : tid -> option (Z * Z)) (s : kernel * k_event) : Prop :=
  inv s /\ forall t d options, W t = Some (d, options) -> awaiting t d options s.

Lemma with_waiters_ext W k k' e :
  (forall t, same_thread (threads k t) (threads k' t)) ->
  (forall t, W t <> None -> swap_retval (threads k' t) = swap_retval (threads k t)) ->
  (forall t, th_events (threads k' t) = th_events (threads k t)
             /\ event_options (threads k' t) = event_options (threads k t)) ->
  (forall w, waitqs k' w = waitqs k w) -> with_waiters W (k, e) -> with_waiters W (k', e).
Proof.
  intros Ht Hs He Hw [[H1 H2 H3 H4] H5]. split.
  - split; cbn [fst snd] in *; [done|..]; intros t; rewrite Hw; intros Hin; destruct (He t) as [E1 E2]; auto.
    + rewrite (sth_state _ _ (Ht t)). auto.
    + rewrite E1. auto.
    + unfold satisfied. rewrite E1, E2. by apply H4.
  - intros t d opt HW. destruct (H5 t d opt HW) as [A1 A2]. destruct (He t) as [E1 E2].
    split; cbn [fst snd] in *; rewrite (sth_pended _ _ (Ht t)), E1, (Hs t) by congruence; rewrite ?E2; auto.
Qed.

Lemma waiters_steady W : steady (with_waiters W).
Proof.
  intros k k' e Ht Hd Hw Hi. apply with_waiters_ext; try done; intros t; [intros _|]; apply Hd.
Qed.

Lemma event_waiters_irq b W k e : with_waiters W (k, e) -> with_waiters W (k <| irq_locked := b |>, e).
Proof. by apply with_waiters_ext. Qed.

Lemma waiters_mark W k e : W (current k) = None -> with_waiters W (k, e) -> with_waiters W (swap_mark k, e).
Proof.
  intros Hc. apply with_waiters_ext; try done; unfold swap_mark.
  - intros t. rewrite threads_upd_thread. by case_decide; subst.
  - intros t Ht. rewrite threads_upd_thread, decide_False; [done|]. by intros ->.
  - intros t. rewrite threads_upd_thread. by case_decide; subst.
Qed.

(** A post keeps the invariant, for the new events. *)
Lemma posted_waiters W ev k k' e :
  0 <= ev <= UINT32_MAX -> kwf k ->
  posted (wait_q e) ev k k' -> with_waiters W (k, e) -> with_waiters W (k', e <| events := ev |>).
Proof.
  intros Hev Hk Hp [[H1 H2 H3 H4] H5]. cbn [fst snd] in *.
  assert (Hin : forall t, t ∈ waitqs k' (wait_q e) ->
    t ∈ waitqs k (wait_q e) /\ satisfied ev (threads k t) = false /\ threads k' t = threads k t).
  { intros t. rewrite (ps_wq _ _ _ _ Hp), list_elem_of_filter. intros [Es Ht]. split_and!; try done.
    apply (ps_other _ _ _ _ Hp). by right. }
  split.
  - split; cbn [fst snd] in *; [done|..]; intros t Ht; change (wait_q (e <| events := ev |>)) with (wait_q e) in Ht;
      destruct (Hin t Ht) as (A1 & A2 & ->); auto.
  - intros t d opt HW. destruct (H5 t d opt HW) as [A1 A2]. cbn [fst snd] in *.
    change (wait_q (e <| events := ev |>)) with (wait_q e).
    destruct (decide (t ∈ waitqs k (wait_q e))) as [Ht|Ht];
      [destruct (satisfied ev (threads k t)) eqn:Es|]; cycle 1;
      [split; cbn [fst snd]; change (wait_q (e <| events := ev |>)) with (wait_q e);
       rewrite (ps_other _ _ _ _ Hp) by tauto; done..|].
    destruct (ps_woken _ _ _ _ Hp t Ht Es) as (st & nx & Et). destruct A1 as (E1 & E2 & E3).
    { by apply (kb_wq _ (kwf_base _ Hk)). }
    split; cbn [fst snd]; rewrite Et; cbn; [done|]. intros _ _. unfold satisfied in Es. by rewrite E1, E2 in Es.
Qed.

Lemma waiters_reset W k e : with_waiters W (k, e) -> with_waiters W (k, e <| events := 0 |>).
Proof.
  intros [[H1 H2 H3 H4] H5]. split; [split; try done|intros t d opt HW; by destruct (H5 t d opt HW)].
  intros t Ht. specialize (H3 t Ht). cbn [fst snd] in *. unfold satisfied, are_wait_conditions_met.
  change (events (e <| events := 0 |>)) with 0. rewrite Z.land_0_l. case_match; [|done].
  apply Z.eqb_neq. congruence.
Qed.

(** The current thread joins the wait queue. *)
Lemma event_pend_waiters W k k' e d options :
  krun k -> with_waiters W (k, e) -> d <> 0 ->
  th_events (threads k (current k)) = d -> event_options (threads k (current k)) = options ->
  are_wait_conditions_met d (events e) (Z.land options K_EVENT_WAIT_MASK) = false ->
  pended (wait_q e) k k' ->
  with_waiters (<[current k := Some (d, options)]> W) (swap_mark k', e).
Proof.
  intros Hk [[H1 H2 H3 H4] H5] Hd Hev Hopt Hun Hp. cbn [fst snd] in *.
  destruct (pe_wq _ _ _ Hp) as (th & _ & Ew). destruct (pe_self _ _ _ Hp) as [st Est].
  assert (T : forall t, exists st, threads (swap_mark k') t = if decide (t = current k)
    then (threads k (current k)) <| thread_state := st |> <| pended_on := Some (wait_q e) |> <| swap_retval := - EAGAIN |>
    else (threads k t) <| thread_state := st |>).
  { intros t. unfold swap_mark. rewrite (pe_cur _ _ _ Hp), threads_upd_thread. case_decide; [exists st; by rewrite Est|].
    by apply (pe_other _ _ _ Hp). }
  assert (Hin : forall t, t ∈ waitqs (swap_mark k') (wait_q e) -> t = current k \/ t <> current k /\ t ∈ waitqs k (wait_q e)).
  { intros t. change (waitqs (swap_mark k')) with (waitqs k'). rewrite Ew, priq_add_elem. destruct (decide (t = current k)); tauto. }
  assert (Hb : Z.testbit (thread_state (threads k (current k))) 3 = false).
  { pose proof (kru_cur _ Hk) as Hc. rewrite prevented_bits in Hc. by destruct (Z.testbit _ 3); rewrite ?orb_true_r in Hc. }
  split.
  - split; cbn [fst snd]; [done|..]; intros t Ht; apply Hin in Ht; destruct (T t) as [st' Et].
    + unfold swap_mark. rewrite (pe_cur _ _ _ Hp), threads_upd_thread.
      assert (Z.testbit (thread_state (threads k' t)) 3 = false)
        by (rewrite (pe_bits _ _ _ Hp) by lia; destruct Ht as [->|[_ Ht]]; auto).
      by case_decide; subst.
    + rewrite Et. destruct Ht as [->|[Hne Ht]]; [rewrite decide_True by done; by rewrite <-Hev in Hd|].
      rewrite decide_False by done. by apply H3.
    + rewrite Et. destruct Ht as [->|[Hne Ht]]; [rewrite decide_True by done|rewrite decide_False by done; by apply H4].
      unfold satisfied. cbn. by rewrite Hev, Hopt.
  - intros t d' opt'. destruct (T t) as [st' Et]. destruct (decide (t = current k)) as [->|Hne].
    + rewrite fn_lookup_insert. intros [= <- <-].
      split; cbn [fst snd]; rewrite Et; cbn; done.
    + rewrite fn_lookup_insert_ne by done. intros HW. destruct (H5 t d' opt' HW) as [A1 A2].
      split; cbn [fst snd]; rewrite Et; auto.
Qed.

(** ** Runs of the operations *)

(** The events after a post of [ev] under [mask]. *)
Definition merged (old ev mask : Z) : Z := Z.lor (Z.land old (Z.lnot mask)) (Z.land ev mask).

Lemma merged_range old ev mask :
  0 <= old <= UINT32_MAX -> 0 <= ev <= UINT32_MAX -> 0 <= mask -> 0 <= merged old ev mask <= UINT32_MAX.
Proof.
  intros Ho He Hm. unfold merged. assert (H0 : 0 <= Z.lor (Z.land old (Z.lnot mask)) (Z.land ev mask)).
  { apply Z.lor_nonneg. split; apply Z.land_nonneg; lia. }
  change UINT32_MAX with (2 ^ 32 - 1) in *.
  assert (0 <= Z.lor (Z.land old (Z.lnot mask)) (Z.land ev mask) < 2 ^ 32); [|lia]. apply bits_below; [lia|done|].
  intros i Hi. rewrite Z.lor_spec, !Z.land_spec, (bits_above 32 old), (bits_above 32 ev) by lia. done.
Qed.

Lemma post_eq ev mask k e :
  kwf k -> inv (k, e) ->
  exists k', k_event_post_internal ev mask (k, e)
             = z_reschedule (negb (irq_locked k)) (k', e <| events := merged (events e) ev mask |>)
    /\ posted (wait_q e) (merged (events e) ev mask) (k <| irq_locked := true |>) k'.
Proof.
  intros Hk HJ. unfold k_event_post_internal. run_code. fold (merged (events e) ev mask).
  eexists. split; [reflexivity|]. apply post_posted; [by apply kwf_irq|]. apply HJ.
Qed.

Lemma posted_run w ev k k' : posted w ev k k' -> krun k -> krun k'.
Proof.
  intros Hp [H1 H2 H3]. split; [apply Hp|by rewrite (ps_isr _ _ _ _ Hp)|].
  rewrite (ps_cur _ _ _ _ Hp), (ps_other _ _ _ _ Hp); [done|]. left.
  rewrite (kb_wq _ (kwf_base _ H1)), (kc_pended _ (kwf_cur _ H1)). done.
Qed.

Lemma post_runs W ev mask k e :
  krun k -> with_waiters W (k, e) -> W (current k) = None -> 0 <= ev <= UINT32_MAX -> 0 <= mask ->
  runs (with_waiters W) (current k) (fun _ => returned (with_waiters W) (current k) (irq_locked k))
    (k_event_post_internal ev mask (k, e)).
Proof.
  intros Hk HJ Hself Hev Hm. destruct (post_eq ev mask k e) as (k' & -> & Hp); [apply Hk|apply HJ|].
  assert (HJ' : with_waiters W (k', e <| events := merged (events e) ev mask |>)).
  { eapply posted_waiters; [|apply kwf_irq, Hk|exact Hp|by apply event_waiters_irq]. apply merged_range; try done. apply HJ. }
  pose proof (ps_cur _ _ _ _ Hp) as Hc. cbn in Hc. restore_key. rewrite <-Hc. eapply runs_mono; cycle 1.
  - apply (z_reschedule_runs_steady (with_waiters W) (with_waiters W)).
    + apply waiters_steady.
    + intros b x y. apply event_waiters_irq.
    + eapply posted_run; [exact Hp|by apply krun_irq].
    + apply waiters_mark; [by rewrite Hc|done].
    + done.
    + done.
  - intros r s (R1 & R2 & R3 & R4). by split_and!.
Qed.

(** The event object as a wait finds it. *)
Definition after_reset (options : Z) (e : k_event) : k_event :=
  if negb (Z.land options K_EVENT_WAIT_RESET =? 0) then e <| events := 0 |> else e.

Definition met (ev options cur : Z) : bool :=
  are_wait_conditions_met ev cur (Z.land options K_EVENT_WAIT_MASK).

Lemma met_masked ev options cur : met ev options cur = met ev options (Z.land cur ev).
Proof.
  unfold met, are_wait_conditions_met. by rewrite <-Z.land_assoc, Z.land_diag.
Qed.

(** What a wait for [ev] returns, to a caller that is back in [s']. *)
Definition wait_result (W : tid -> option (Z * Z)) (ev options tm : Z) (k : kernel) (e : k_event)
    (r : Z) (s' : kernel * k_event) : Prop :=
  let e0 := after_reset options e in
  returned (with_waiters W) (current k) (irq_locked k) s'
  /\ (met ev options (events e0) = true -> r = Z.land (events e0) ev /\ s' = (k, e0))
  /\ (met ev options (events e0) = false -> tm = K_NO_WAIT -> r = 0 /\ s' = (k, e0))
  /\ (met ev options (events e0) = false -> tm <> K_NO_WAIT ->
      if swap_retval (threads s'.1 (current k)) =? 0
      then met ev options r = true /\ r = Z.land (th_events (threads s'.1 (current k))) ev
      else r = 0).

(** The caller's wanted events are stored in its record. *)
Definition want (ev options : Z) (k : kernel) : kernel :=
  upd_thread (current k) (fun t => t <| event_options := options |>)
    (upd_thread (current k) (fun t => t <| th_events := ev |>) k).

Lemma want_threads ev options k t :
  threads (want ev options k) t
  = if decide (t = current k) then (threads k t) <| th_events := ev |> <| event_options := options |> else threads k t.
Proof. unfold want. rewrite !threads_upd_thread. repeat case_decide; by subst. Qed.

Lemma want_run ev options k : krun k -> krun (want ev options k).
Proof.
  intros Hk. eapply krun_same; [by apply upd_thread_same|done|]. by eapply krun_same; [by apply upd_thread_same|..].
Qed.

Lemma want_waiters W ev options k e :
  krun k -> W (current k) = None -> with_waiters W (k, e) -> with_waiters W (want ev options k, e).
Proof.
  intros Hk Hself [[H1 H2 H3 H4] H5]. cbn [fst snd] in *.
  assert (T : forall t, t ∈ waitqs k (wait_q e) -> threads (want ev options k) t = threads k t).
  { intros t Ht. rewrite want_threads, decide_False; [done|]. intros ->. revert Ht.
    rewrite (kb_wq _ (kwf_base _ (kru_wf _ Hk))), (kc_pended _ (kwf_cur _ (kru_wf _ Hk))). done. }
  split.
  - split; cbn [fst snd]; [done|..]; intros t Ht; rewrite T by done; auto.
  - intros t d opt HW. destruct (H5 t d opt HW) as [A1 A2].
    assert (Et : threads (want ev options k) t = threads k t) by (rewrite want_threads, decide_False; [done|]; intros ->; congruence).
    split; cbn [fst snd]; rewrite Et; done.
Qed.

(** The wait of a caller whose condition does not hold. *)
Lemma wait_pend_runs W ev options key tm k e :
  krun k -> with_waiters W (k, e) -> W (current k) = None -> current k <> idle_thread k -> ev <> 0 ->
  met ev options (events e) = false ->
  runs (with_waiters (<[current k := Some (ev, options)]> W)) (current k)
    (fun r s => returned (with_waiters W) (current k) (negb key) s
       /\ r = swap_retval (threads s.1 (current k))
       /\ (r = 0 -> met ev options (th_events (threads s.1 (current k))) = true))
    (z_pend_curr key (wait_q e) tm (want ev options k, e)).
Proof.
  intros Hk HJ Hself Hi Hev Hun. eapply runs_mono; cycle 1.
  - apply (z_pend_curr_runs_steady (with_waiters (<[current k := Some (ev, options)]> W)) key _ tm (want ev options k));
      [apply waiters_steady|by apply want_run|done|].
    intros k' Hp. change (current k) with (current (want ev options k)).
    apply (event_pend_waiters W (want ev options k)); try done; [by apply want_run|by apply want_waiters|..];
      change (current (want ev options k)) with (current k); by rewrite want_threads, decide_True.
  - intros r [k' e'] (R1 & [R2 R2'] & R3 & R4 & R5). cbn [fst snd] in *. change (current (want ev options k)) with (current k) in *.
    split_and!; try done.
    + split; [done|]. split; [|done]. split; [done|]. intros t d opt HW. apply R2'. rewrite fn_lookup_insert_ne; [done|]. congruence.
    + intros Hr. destruct (R2' (current k) ev options) as [_ A2]; [apply fn_lookup_insert|].
      apply A2; cbn [fst]; [|by rewrite <-R5]. rewrite <-R3, (kc_pended _ (kwf_cur _ (kru_wf _ R1))). done.
Qed.

Lemma wait_runs W ev options tm k e :
  krun k -> with_waiters W (k, e) -> W (current k) = None -> current k <> idle_thread k -> ev <> 0 ->
  runs (with_waiters (<[current k := Some (ev, options)]> W)) (current k)
    (wait_result W ev options tm k e) (k_event_wait_internal ev options tm (k, e)).
Proof.
  intros Hk HJ Hself Hi Hev. unfold k_event_wait_internal, wait_result.
  replace (ev =? 0) with false by lia. run_code.
  assert (HJ0 : with_waiters W (k, after_reset options e)) by (unfold after_reset; case_match; [by apply waiters_reset|done]).
  match goal with |- context [obind ?m _] =>
    assert (m = Done tt (k <| irq_locked := true |>, after_reset options e)) as -> by (unfold after_reset; by case_match) end.
  set (e0 := after_reset options e) in *. cbn [obind fst snd]. fold (met ev options (events e0)).
  destruct (met ev options (events e0)) eqn:Em; [|destruct (tm =? K_NO_WAIT) eqn:Et]; cbn [obind fst snd].
  - cbn [runs]. rewrite unlock_id. by split_and!.
  - cbn [runs]. rewrite unlock_id. split_and!; try done. lia.
  - change (upd_thread _ _ _) with (want ev options (k <| irq_locked := true |>)) at 1.
    pose proof (wait_pend_runs W ev options (negb (irq_locked k)) tm (k <| irq_locked := true |>) e0
      (krun_irq _ _ Hk) (event_waiters_irq _ _ _ _ HJ0) Hself Hi Hev Em) as Hr.
    change (current (k <| irq_locked := true |>)) with (current k) in Hr. rewrite negb_involutive in Hr.
    eapply runs_bind; [exact Hr|]. intros r s (R1 & -> & R2).
    destruct (swap_retval (threads s.1 (current k)) =? 0) eqn:Er; cbn [runs];
      (split; [done|split; [done|split; [lia|intros _ _; rewrite Er]]]); [|done].
    split; [|done]. rewrite <-met_masked. apply R2. lia.
Qed.

(** The operations, as one type. *)
Inductive op :=
  | Post (ev : Z)
  | Set_ (ev : Z)
  | Set_masked (ev events_mask : Z)
  | Clear (ev : Z)
  | Wait (ev : Z) (reset : bool) (timeout : Z)
  | Wait_all (ev : Z) (reset : bool) (timeout : Z).

Definition run_op (o : op) : M (kernel * k_event) Z :=
  match o with
  | Post ev => z_impl_k_event_post ev ;; ret 0
  | Set_ ev => z_impl_k_event_set ev ;; ret 0
  | Set_masked ev events_mask => z_impl_k_event_set_masked ev events_mask ;; ret 0
  | Clear ev => z_impl_k_event_clear ev ;; ret 0
  | Wait ev reset timeout => z_impl_k_event_wait ev reset timeout
  | Wait_all ev reset timeout => z_impl_k_event_wait_all ev reset timeout
  end.

(** The arguments have 32 bits. *)
Definition op_ok (o : op) : Prop :=
  match o with
  | Set_masked ev events_mask => 0 <= ev <= UINT32_MAX /\ 0 <= events_mask <= UINT32_MAX
  | Post ev | Set_ ev | Clear ev | Wait ev _ _ | Wait_all ev _ _ => 0 <= ev <= UINT32_MAX
  end.

Definition wait_options (all reset : bool) : Z :=
  Z.lor (if reset then K_EVENT_WAIT_RESET else 0) (if all then K_EVENT_WAIT_ALL else K_EVENT_WAIT_ANY).

(** The waits in progress while thread [self] runs [o]. *)
Definition watch (self : tid) (o : op) (W : tid -> option (Z * Z)) : tid -> option (Z * Z) :=
  match o with
  | Wait ev reset _ => <[self := Some (ev, wait_options false reset)]> W
  | Wait_all ev reset _ => <[self := Some (ev, wait_options true reset)]> W
  | _ => W
  end.

Lemma wait_none_runs J W options tm k e :
  krun k -> with_waiters W (k, e) ->
  runs J (current k) (fun _ => returned (with_waiters W) (current k) (irq_locked k))
    (k_event_wait_internal 0 options tm (k, e)).
Proof. intros Hk HJ. cbn. by split_and!. Qed.

Lemma wait_safe W ev options tm k e :
  krun k -> with_waiters W (k, e) -> W (current k) = None -> current k <> idle_thread k ->
  runs (with_waiters (<[current k := Some (ev, options)]> W)) (current k)
    (fun _ => returned (with_waiters W) (current k) (irq_locked k))
    (k_event_wait_internal ev options tm (k, e)).
Proof.
  intros Hk HJ Hself Hi. destruct (decide (ev = 0)) as [->|Hev]; [by apply wait_none_runs|].
  eapply runs_mono; [|by apply wait_runs]. by intros r s [? _].
Qed.

(** A new event object has no events and no waiters. *)
Lemma init_inv k e :
  exists k', z_impl_k_event_init (k, e) = Done tt (k', e <| events := 0 |>)
    /\ inv (k', e <| events := 0 |>).
Proof.
  eexists. split; [reflexivity|]. unfold z_waitq_init.
  split; cbn [fst snd]; [done|..]; intros t; change (wait_q (e <| events := 0 |>)) with (wait_q e);
    rewrite waitqs_upd_waitq, decide_True by done; by intros ?%elem_of_nil.
Qed.

(** ** A concrete system *)

(** Thread 2 waits on queue 7 for both of the events 4 and 2. *)
Definition event_demo : kernel :=
  upd_thread 2 (fun t => t <| th_events := 6 |> <| event_options := 1 |> <| swap_retval := - EAGAIN |>) (demo false).

Lemma event_demo_run : krun event_demo.
Proof. eapply krun_same; [by apply upd_thread_same|done|exact demo_run]. Qed.

Definition demo_waits : tid -> option (Z * Z) := <[2%positive := Some (6, 1)]> (fun _ => None).

Lemma event_demo_waiters : with_waiters demo_waits (event_demo, mk_event 7 4).
Proof.
  unfold demo_waits.
  split.
  - split; cbn [fst snd wait_q events]; [done|..]; intros t Ht;
      change (waitqs event_demo 7) with [2%positive] in Ht; apply list_elem_of_singleton in Ht as ->; done.
  - intros t d options. destruct (decide (t = 2%positive)) as [->|Hne].
    + rewrite fn_lookup_insert. intros [= <- <-]. by split.
    + by rewrite fn_lookup_insert_ne.
Qed.

(** ** Properties *)

(** C10: A post of events under a mask replaces the masked bits of the object,
    takes from the wait queue exactly the threads whose condition the new
    events meet, giving each the result 0, the events, and a place in the ready
    queue unless it is suspended as well, leaves the other waiters in their
    order with their records untouched, and ends with a rescheduling point. *)
Theorem k_event_post_wakes ev mask k e :
  kwf k -> inv (k, e) ->
  exists k', k_event_post_internal ev mask (k, e)
             = z_reschedule (negb (irq_locked k)) (k', e <| events := merged (events e) ev mask |>)
    /\ posted (wait_q e) (merged (events e) ev mask) (k <| irq_locked := true |>) k'.
Proof. apply post_eq. Qed.

Lemma k_event_post_wakes_witness :
  exists k', k_event_post_internal 2 2 (event_demo, mk_event 7 4)
             = z_reschedule (negb (irq_locked event_demo))
                 (k', (mk_event 7 4) <| events := merged (events (mk_event 7 4)) 2 2 |>)
    /\ waitqs k' 7 = [] /\ th_events (threads k' 2) = 6 /\ 2%positive ∈ runq k'.
Proof.
  destruct (k_event_post_wakes 2 2 event_demo (mk_event 7 4)) as (k' & E & Hp).
  - apply event_demo_run.
  - apply event_demo_waiters.
  - exists k'. split; [exact E|].
    assert (Hin : 2%positive ∈ waitqs (event_demo <| irq_locked := true |>) 7) by (apply list_elem_of_singleton; reflexivity).
    change (merged (events (mk_event 7 4)) 2 2) with 6 in Hp.
    split; [etransitivity; [exact (ps_wq _ _ _ _ Hp)|vm_compute; reflexivity]|].
    split; [|apply (ps_ready _ _ _ _ Hp 2); [exact Hin|vm_compute; reflexivity..]].
    destruct (ps_woken _ _ _ _ Hp 2 Hin) as (st & nx & Et); [vm_compute; reflexivity|]. rewrite Et. reflexivity.
Defined.

(** C19: Every operation on an event object gives up the CPU only in states
    that satisfy the scheduler invariant and the event invariant (no thread
    waits for a condition that holds, and each thread that a post released
    was given events that satisfy it), and returns to its caller in such a
    state with the interrupt mask restored. *)
Theorem k_event_ops_safe (o : op) W k e :
  krun k -> with_waiters W (k, e) -> W (current k) = None -> current k <> idle_thread k -> op_ok o ->
  runs (with_waiters (watch (current k) o W)) (current k)
    (fun _ => returned (with_waiters W) (current k) (irq_locked k)) (run_op o (k, e)).
Proof.
  intros Hk HJ Hself Hi Hok.
  assert (Hpost : forall ev mask, 0 <= ev <= UINT32_MAX -> 0 <= mask ->
    runs (with_waiters W) (current k) (fun _ => returned (with_waiters W) (current k) (irq_locked k))
      ((k_event_post_internal ev mask ;; ret 0) (k, e))).
  { intros ev mask Hev Hm. unfold bind. eapply runs_bind; [by apply post_runs|done]. }
  destruct o as [ev|ev|ev mask|ev|ev reset tm|ev reset tm]; cbn [run_op watch op_ok] in Hok |- *;
    try (assert (0 <= ev) by lia).
  - unfold z_impl_k_event_post. by apply (Hpost ev ev).
  - unfold z_impl_k_event_set. by apply (Hpost ev UINT32_MAX).
  - unfold z_impl_k_event_set_masked. apply (Hpost ev mask); lia.
  - unfold z_impl_k_event_clear. by apply (Hpost 0 ev).
  - unfold z_impl_k_event_wait.
    replace (if reset then K_EVENT_WAIT_RESET else 0) with (wait_options false reset) by (by destruct reset). by apply wait_safe.
  - unfold z_impl_k_event_wait_all.
    replace (if reset then Z.lor K_EVENT_WAIT_RESET K_EVENT_WAIT_ALL else K_EVENT_WAIT_ALL)
      with (wait_options true reset) by (by destruct reset). by apply wait_safe.
Qed.

Lemma k_event_ops_safe_witness :
  runs (with_waiters (watch (current event_demo) (Post 2) demo_waits)) (current event_demo)
    (fun _ => returned (with_waiters demo_waits) (current event_demo) (irq_locked event_demo))
    (run_op (Post 2) (event_demo, mk_event 7 4)).
Proof.
  apply (k_event_ops_safe (Post 2) demo_waits event_demo (mk_event 7 4)).
  - apply event_demo_run.
  - apply event_demo_waiters.
  - reflexivity.
  - discriminate.
  - split; [lia|]. unfold UINT32_MAX. lia.
Defined.

(** A wait for a nonempty set of events, after the reset it may ask for,
    returns at once with the matching events when its condition holds, and
    with 0 when it does not and the caller does not want to wait; otherwise
    it returns 0 after a timeout, and after a post it returns the matching
    part of the events that were posted, which satisfies the condition:
    nonzero for any, all of the set for all. *)
Theorem k_event_wait_spec W ev options tm k e :
  krun k -> with_waiters W (k, e) -> W (current k) = None -> current k <> idle_thread k -> ev <> 0 ->
  runs (with_waiters (<[current k := Some (ev, options)]> W)) (current k)
    (wait_result W ev options tm k e) (k_event_wait_internal ev options tm (k, e)).
Proof. apply wait_runs. Qed.

Lemma k_event_wait_spec_witness :
  runs (with_waiters (<[current event_demo := Some (8, 0)]> demo_waits)) (current event_demo)
    (wait_result demo_waits 8 0 20 event_demo (mk_event 7 4))
    (k_event_wait_internal 8 0 20 (event_demo, mk_event 7 4)).
Proof.
  apply (k_event_wait_spec demo_waits 8 0 20 event_demo (mk_event 7 4)).
  - apply event_demo_run.
  - apply event_demo_waiters.
  - reflexivity.
  - discriminate.
  - discriminate.
Defined.

End Events.
