(* ===== verification/Pipes.v ===== *)
(** Pipes (kernel/pipes.c).

    A pipe moves bytes between the buffers of threads and a ring of its own
    through lists of descriptors.  The object holds [struct k_pipe], the
    descriptors and the memory that they address.  A descriptor is named by
    its address: each thread has one in its record, and the caller has three
    on its stack, which are in use only while it holds the lock.

    The theorems follow the bytes.  A list of descriptors stands for the list
    of the addresses it covers, and the copy loops move the values of one
    list of addresses to another.  A read takes a prefix of the stream that
    the ring and then the waiting writers hold, and a write puts a prefix of
    the caller's data first into the buffers of the waiting readers and then
    into the ring.  The sums of lengths do not wrap: the buffers are regions
    of one address space. *)
From S2P Require Import Prelude Mem Timeout Kernel Sched SchedInv SchedApi Demo.

Module Pipes.

Definition EIO : Z := 5.
Definition NULL : Z := 0.
Definition SIZE_MAX : Z := UINT32_MAX.
Definition K_PIPE_FLAG_ALLOC : Z := BIT 0.

Record k_pipe := mk_pipe {
  buffer : Z;
  size : Z;                        (* size_t, as the next three *)
  bytes_used : Z;
  read_index : Z;
  write_index : Z;
  readers : wqid;
  writers : wqid;
  flags : Z
}.

(** [struct _pipe_desc]; the node that links it into a list is its address. *)
Record pipe_desc := mk_desc {
  d_buffer : Z;
  bytes_to_xfer : Z;               (* size_t *)
  thread : option tid
}.

Record pobj := mk_pobj {
  pipe : k_pipe;
  descs : Z -> pipe_desc;
  memory : mem
}.

#[export] Instance set_bytes_used : Settable bytes_used := fun f p =>
  mk_pipe (buffer p) (size p) (f (bytes_used p)) (read_index p) (write_index p) (readers p) (writers p) (flags p).
#[export] Instance set_read_index : Settable read_index := fun f p =>
  mk_pipe (buffer p) (size p) (bytes_used p) (f (read_index p)) (write_index p) (readers p) (writers p) (flags p).
#[export] Instance set_write_index : Settable write_index := fun f p =>
  mk_pipe (buffer p) (size p) (bytes_used p) (read_index p) (f (write_index p)) (readers p) (writers p) (flags p).
#[export] Instance set_flags : Settable flags := fun f p =>
  mk_pipe (buffer p) (size p) (bytes_used p) (read_index p) (write_index p) (readers p) (writers p) (f (flags p)).
#[export] Instance set_d_buffer : Settable d_buffer := fun f d =>
  mk_desc (f (d_buffer d)) (bytes_to_xfer d) (thread d).
#[export] Instance set_bytes_to_xfer : Settable bytes_to_xfer := fun f d =>
  mk_desc (d_buffer d) (f (bytes_to_xfer d)) (thread d).
#[export] Instance set_pipe : Settable pipe := fun f o => mk_pobj (f (pipe o)) (descs o) (memory o).
#[export] Instance set_descs : Settable descs := fun f o => mk_pobj (pipe o) (f (descs o)) (memory o).
#[export] Instance set_memory : Settable memory := fun f o => mk_pobj (pipe o) (descs o) (f (memory o)).

(** [&thread->pipe_desc], and [pipe_desc] and [isr_desc] on the stack. *)
Definition thread_desc (t : tid) : Z := Z.pos t.
Definition pipe_desc_0 : Z := -1.
Definition pipe_desc_1 : Z := -2.
Definition isr_desc : Z := -3.

Abbreviation St := (kernel * pobj)%type.

Definition pget {A} (f : k_pipe -> A) : M St A := oget (fun o => f (pipe o)).
(** A piece of code without a switch. *)
Definition act {A} (f : St -> A * St) : M St A := fun s => let '(a, s') := f s in Done a s'.

Definition k_pipe_init (buf sz : Z) : M St unit :=
  p <- pget (fun p => p) ;;
  omod (fun o => o <| pipe := mk_pipe buf sz 0 0 0 (readers p) (writers p) 0 |>) ;;
  kmod (z_waitq_init (writers p)) ;;
  kmod (z_waitq_init (readers p)).

(** [z_thread_malloc] and [k_free] are arguments. *)
Definition z_impl_k_pipe_alloc_init (z_thread_malloc : Z -> M St Z) (sz : Z) : M St Z :=
  if negb (sz =? 0) then
    buf <- z_thread_malloc sz ;;
    if negb (buf =? NULL) then
      k_pipe_init buf sz ;;
      omod (fun o => o <| pipe ::= fun p => p <| flags := K_PIPE_FLAG_ALLOC |> |>) ;;
      ret 0
    else ret (- ENOMEM)
  else
    k_pipe_init NULL 0 ;;
    ret 0.

Definition k_pipe_cleanup (k_free : Z -> M St unit) : M St Z :=
  key <- k_spin_lock ;;
  p <- pget (fun p => p) ;;
  r <- kget (z_waitq_head (readers p)) ;;
  w <- kget (z_waitq_head (writers p)) ;;
  match r, w with
  | None, None =>
      (if flag_set (flags p) K_PIPE_FLAG_ALLOC then
         k_free (buffer p) ;;
         omod (fun o => o <| pipe ::= fun p =>
           mk_pipe NULL 0 0 0 0 (readers p) (writers p) (Z.ldiff (flags p) K_PIPE_FLAG_ALLOC) |>)
       else ret tt) ;;
      k_spin_unlock key ;;
      ret 0
  | _, _ =>
      k_spin_unlock key ;;
      ret (- EAGAIN)
  end.

(** The number of bytes, and the memory. *)
Definition pipe_xfer (dest dest_size src src_size : Z) (m : mem) : Z * mem :=
  let num_bytes := Z.min dest_size src_size in
  if dest =? NULL then (num_bytes, m) else (num_bytes, memcpy dest src num_bytes m).

Record waitq_walk_data := mk_walk {
  list_ : list Z;
  bytes_requested : Z;
  bytes_available : Z
}.

Definition pipe_walk_op (ds : Z -> pipe_desc) (t : tid) (s : kernel * waitq_walk_data) :
    Z * (kernel * waitq_walk_data) :=
  let '(k, wd) := s in
  let desc := swap_data (threads k t) in
  let wd := mk_walk (list_ wd ++ [desc]) (bytes_requested wd) (bytes_available wd + bytes_to_xfer (ds desc)) in
  (if bytes_requested wd <=? bytes_available wd then 1 else 0, (k, wd)).

(** The list, with the waiters appended, and the number of bytes. *)
Definition pipe_waiter_list_populate (l : list Z) (wait_q : wqid) (n : Z) (s : St) : list Z * Z :=
  let '(_, (_, wd)) := z_sched_waitq_walk wait_q (pipe_walk_op (descs s.2)) (s.1, mk_walk l n 0) in
  (list_ wd, bytes_available wd).

(** The list, the number of bytes, and the descriptors. *)
Definition pipe_buffer_list_populate (l : list Z) (buf sz start end_ : Z) (ds : Z -> pipe_desc) :
    list Z * Z * (Z -> pipe_desc) :=
  if start <? end_ then
    (l ++ [pipe_desc_0], end_ - start, <[pipe_desc_0 := mk_desc (buf + start) (end_ - start) None]> ds)
  else
    (l ++ [pipe_desc_0; pipe_desc_1], sz - start + end_,
     <[pipe_desc_1 := mk_desc buf end_ None]> (<[pipe_desc_0 := mk_desc (buf + start) (sz - start) None]> ds)).

Definition pipe_return_code (min_xfer bytes_remaining bytes_requested : Z) : Z :=
  if min_xfer <=? bytes_requested - bytes_remaining then 0 else - EAGAIN.

(** [desc->buffer += n; desc->bytes_to_xfer -= n] *)
Definition advance (n : Z) (d : pipe_desc) : pipe_desc :=
  d <| d_buffer ::= fun b => b + n |> <| bytes_to_xfer ::= fun x => x - n |>.

(** [index += n; if (index >= size) index -= size] *)
Definition wrap (sz i : Z) : Z := if sz <=? i then i - sz else i.

(** The thread's request has been satisfied. *)
Definition release_thread (t : tid) (k : kernel) : kernel := z_ready_thread t (z_unpend_thread t k).

(** One pass of the loop of [pipe_write]: the number of bytes, whether a
    thread was made ready, and the state. *)
Definition write_pass (src dest : Z) (s : St) : Z * bool * St :=
  let '(k, o) := s in
  let sd := descs o src in
  let dd := descs o dest in
  let '(n, m) := pipe_xfer (d_buffer dd) (bytes_to_xfer dd) (d_buffer sd) (bytes_to_xfer sd) (memory o) in
  let dd := advance n dd in
  let o := o <| memory := m |> <| descs ::= fun ds => <[src := advance n sd]> (<[dest := dd]> ds) |> in
  match thread dd with
  | None =>
      (n, false, (k, o <| pipe ::= fun p => p <| bytes_used ::= fun u => u + n |>
                                              <| write_index ::= fun i => wrap (size p) (i + n) |> |>))
  | Some t => if bytes_to_xfer dd =? 0 then (n, true, (release_thread t k, o)) else (n, false, (k, o))
  end.

(** The loop, on the descriptors at hand (the heads of the lists) and the rest
    of the lists.  Every pass uses up a descriptor. *)
Fixpoint write_loop (fuel : nat) (srcs dests : list Z) (n : Z) (resched : bool) (s : St) : Z * bool * St :=
  match fuel, srcs, dests with
  | S fuel', src :: srcs', dest :: dests' =>
      let '(copied, woke, s) := write_pass src dest s in
      let srcs := if bytes_to_xfer (descs s.2 src) =? 0 then srcs' else srcs in
      let dests := if bytes_to_xfer (descs s.2 dest) =? 0 then dests' else dests in
      write_loop fuel' srcs dests (n + copied) (resched || woke) s
  | _, _, _ => (n, resched, s)
  end.

Definition pipe_write (src_list dest_list : list Z) (resched : bool) (s : St) : Z * bool * St :=
  write_loop (length src_list + length dest_list) src_list dest_list 0 resched s.

(** [if (reschedule_needed) z_reschedule(...) else k_spin_unlock(...)] *)
Definition leave (resched key : bool) : M St unit :=
  if resched then z_reschedule key else k_spin_unlock key.

(** The destinations of a write, and the number of bytes they can take. *)
Definition put_dests (n : Z) (s : St) : list Z * Z * St :=
  let p := pipe s.2 in
  let '(l, can) := pipe_waiter_list_populate [] (readers p) n s in
  if negb (bytes_used p =? size p) then
    let '(l, more, ds) := pipe_buffer_list_populate l (buffer p) (size p) (write_index p) (read_index p) (descs s.2) in
    (l, can + more, (s.1, s.2 <| descs := ds |>))
  else (l, can, s).

(** The result code and [*bytes_written]; none is written for bad arguments. *)
Definition z_impl_k_pipe_put (data bytes_to_write min_xfer timeout : Z) : M St (Z * option Z) :=
  if min_xfer >? bytes_to_write then ret (- EINVAL, None)
  else
    key <- k_spin_lock ;;
    d <- act (fun s => let '(l, can, s) := put_dests bytes_to_write s in ((l, can), s)) ;;
    if (d.2 <? min_xfer) && (timeout =? K_NO_WAIT) then
      k_spin_unlock key ;;
      ret (- EIO, Some 0)
    else
      self <- kget current ;;
      isr <- kget in_isr ;;
      let src := if isr then isr_desc else thread_desc self in
      omod (fun o => o <| descs ::= fun ds => <[src := mk_desc data bytes_to_write (Some self)]> ds |>) ;;
      w <- act (fun s => let '(n, r, s) := pipe_write [src] d.1 false s in ((n, r), s)) ;;
      let '(written, resched) := w in
      if (written =? bytes_to_write) || (timeout =? K_NO_WAIT) || ((min_xfer <=? written) && (0 <? min_xfer)) then
        leave resched key ;;
        ret (0, Some written)
      else
        kmod (upd_thread self (fun t => t <| swap_data := src |>)) ;;
        wq <- pget writers ;;
        z_pend_curr key wq timeout ;;
        key <- k_spin_lock ;;
        k_spin_unlock key ;;
        left <- oget (fun o => bytes_to_xfer (descs o src)) ;;
        ret (pipe_return_code min_xfer left bytes_to_write, Some (bytes_to_write - left)).

(** One pass of the loop of [pipe_get_internal]. *)
Definition read_pass (src dest : Z) (s : St) : Z * bool * St :=
  let '(k, o) := s in
  let sd := descs o src in
  let dd := descs o dest in
  let '(n, m) := pipe_xfer (d_buffer dd) (bytes_to_xfer dd) (d_buffer sd) (bytes_to_xfer sd) (memory o) in
  let sd := advance n sd in
  let dd := dd <| d_buffer ::= fun b => if b =? NULL then b else b + n |> <| bytes_to_xfer ::= fun x => x - n |> in
  let o := o <| memory := m |> <| descs ::= fun ds => <[dest := dd]> (<[src := sd]> ds) |> in
  match thread sd with
  | None =>
      (n, false, (k, o <| pipe ::= fun p => p <| bytes_used ::= fun u => u - n |>
                                              <| read_index ::= fun i => wrap (size p) (i + n) |> |>))
  | Some t => if bytes_to_xfer sd =? 0 then (n, true, (release_thread t k, o)) else (n, false, (k, o))
  end.

Fixpoint read_loop (srcs : list Z) (dest : Z) (n : Z) (resched : bool) (s : St) : Z * bool * St :=
  match srcs with
  | [] => (n, resched, s)
  | src :: srcs' =>
      let '(copied, woke, s) := read_pass src dest s in
      read_loop srcs' dest (n + copied) (resched || woke) s
  end.

(** The sources of a read, and the number of bytes they have. *)
Definition get_srcs (n : Z) (s : St) : list Z * Z * St :=
  let p := pipe s.2 in
  let '(l, can, s) :=
    if negb (bytes_used p =? 0) then
      let '(l, can, ds) := pipe_buffer_list_populate [] (buffer p) (size p) (read_index p) (write_index p) (descs s.2) in
      (l, can, (s.1, s.2 <| descs := ds |>))
    else ([], 0, s) in
  let '(l, more) := pipe_waiter_list_populate l (writers p) n s in
  (l, can + more, s).

(** The pipe is filled again from the waiting writers. *)
Definition refill (resched : bool) (s : St) : bool * St :=
  let p := pipe s.2 in
  if negb (bytes_used p =? size p) then
    let '(srcs, _) := pipe_waiter_list_populate [] (writers p) (size p - bytes_used p) s in
    let '(dests, _, ds) := pipe_buffer_list_populate [] (buffer p) (size p) (write_index p) (read_index p) (descs s.2) in
    let '(_, resched, s) := pipe_write srcs dests resched (s.1, s.2 <| descs := ds |>) in
    (resched, s)
  else (resched, s).

(** Called with the lock held. *)
Definition pipe_get_internal (key : bool) (data bytes_to_read min_xfer timeout : Z) : M St (Z * Z) :=
  d <- act (fun s => let '(l, can, s) := get_srcs bytes_to_read s in ((l, can), s)) ;;
  if (d.2 <? min_xfer) && (timeout =? K_NO_WAIT) then
    k_spin_unlock key ;;
    ret (- EIO, 0)
  else
    self <- kget current ;;
    isr <- kget in_isr ;;
    let dest := if isr then isr_desc else thread_desc self in
    omod (fun o => o <| descs ::= fun ds => <[dest := mk_desc data bytes_to_read (Some self)]> ds |>) ;;
    r <- act (fun s =>
      let '(n, resched, s) := read_loop d.1 dest 0 false s in
      let '(resched, s) := refill resched s in
      ((n, resched), s)) ;;
    let '(num_bytes_read, resched) := r in
    if (num_bytes_read =? bytes_to_read) || (timeout =? K_NO_WAIT) ||
       ((min_xfer <=? num_bytes_read) && (0 <? min_xfer)) then
      leave resched key ;;
      ret (0, num_bytes_read)
    else
      kmod (upd_thread self (fun t => t <| swap_data := dest |>)) ;;
      wq <- pget readers ;;
      z_pend_curr key wq timeout ;;
      key <- k_spin_lock ;;
      k_spin_unlock key ;;
      left <- oget (fun o => bytes_to_xfer (descs o dest)) ;;
      ret (pipe_return_code min_xfer left bytes_to_read, bytes_to_read - left).

Definition z_impl_k_pipe_get (data bytes_to_read min_xfer timeout : Z) : M St (Z * option Z) :=
  if min_xfer >? bytes_to_read then ret (- EINVAL, None)
  else
    key <- k_spin_lock ;;
    r <- pipe_get_internal key data bytes_to_read min_xfer timeout ;;
    ret (r.1, Some r.2).

Definition z_impl_k_pipe_flush : M St unit :=
  key <- k_spin_lock ;;
  pipe_get_internal key NULL SIZE_MAX 0 K_NO_WAIT ;;
  ret tt.

Definition z_impl_k_pipe_buffer_flush : M St unit :=
  key <- k_spin_lock ;;
  p <- pget (fun p => p) ;;
  if negb (buffer p =? NULL) then
    pipe_get_internal key NULL (size p) 0 K_NO_WAIT ;;
    ret tt
  else k_spin_unlock key.

Definition z_impl_k_pipe_read_avail (p : k_pipe) : Z :=
  if (buffer p =? NULL) || (size p =? 0) then 0
  else if read_index p =? write_index p then bytes_used p
  else if read_index p <? write_index p then write_index p - read_index p
  else size p - (read_index p - write_index p).

Definition z_impl_k_pipe_write_avail (p : k_pipe) : Z :=
  if (buffer p =? NULL) || (size p =? 0) then 0
  else if write_index p =? read_index p then size p - bytes_used p
  else if write_index p <? read_index p then read_index p - write_index p
  else size p - (write_index p - read_index p).

(** ** Threads whose requests are satisfied *)

(** [ts] have been taken from wait queue [w] and made ready. *)
Record released (w : wqid) (ts : list tid) (k k' : kernel) : Prop := {
  re_wf : kwf k';
  re_cur : current k' = current k;
  re_isr : in_isr k' = in_isr k;
  re_irq : irq_locked k' = irq_locked k;
  re_idle : idle_thread k' = idle_thread k;
  re_wq : waitqs k' w = filter (fun t => t ∉ ts) (waitqs k w);
  re_wqs w' : w' <> w -> waitqs k' w' = waitqs k w';
  re_data t : swap_data (threads k' t) = swap_data (threads k t);
  re_woken t : t ∈ ts -> pended_on (threads k' t) = None;
  re_other t : t ∉ ts -> threads k' t = threads k t
}.

Definition release_all (ts : list tid) (k : kernel) : kernel := fold_left (fun k t => release_thread t k) ts k.

Lemma filter_nothing (l : list tid) : filter (fun t => t ∉ []) l = l.
Proof. apply filter_all. apply Forall_forall. intros t _. apply not_elem_of_nil. Qed.

Lemma release_thread_released w t k :
  kwf k -> t ∈ waitqs k w -> released w [t] k (release_thread t k).
Proof.
  intros Hk Ht. assert (Hp : pended_on (threads k t) = Some w) by (by apply (kb_wq _ (kwf_base _ Hk))).
  unfold release_thread, z_ready_thread, z_unpend_thread, z_unpend_thread_no_timeout. rewrite Hp.
  set (k1 := unpend_thread_no_timeout t k). set (k2 := (z_abort_thread_timeout t k1).2).
  assert (Hw : kwaking t k2) by (by apply abort_timeout_waking, (unpend_waking t k w)).
  pose proof (ready_thread_frame t k2) as F.
  assert (Hf : forall {A} (f : kernel -> A), (forall x y, f (y <| tmo := x |>) = f y) ->
    (forall x y z, f (upd_thread x y z) = f z) -> (forall x y z, f (upd_waitq x y z) = f z) -> f k2 = f k).
  { intros A f H1 H2 H3. unfold k2. rewrite abort_thread_timeout_tmo, H1. unfold k1.
    by rewrite (unpend_unfold t k w), H2, H3. }
  assert (Ht2 : forall t', threads k2 t' = threads k1 t') by (intros; unfold k2; by rewrite abort_threads).
  assert (Ht1 := fun t' => unpend_threads t k w t' Hp). fold k1 in Ht1.
  assert (Hq : forall w', waitqs k2 w' = if decide (w' = w) then z_priq_dumb_remove t (waitqs k w) else waitqs k w').
  { intros w'. unfold k2. rewrite abort_thread_timeout_tmo. unfold k1. rewrite (unpend_unfold t k w) by done.
    apply waitqs_upd_waitq. }
  split.
  - by apply ready_thread_wf.
  - rewrite (kf_current _ _ F). by apply (Hf _ current).
  - rewrite (kf_in_isr _ _ F). by apply (Hf _ in_isr).
  - rewrite (kf_irq _ _ F). by apply (Hf _ irq_locked).
  - rewrite (kf_idle _ _ F). by apply (Hf _ idle_thread).
  - rewrite (kf_waitqs _ _ F), Hq, decide_True by done. rewrite <-(filter_nothing (waitqs k w)) at 1.
    apply priq_remove_filter, (kb_wq_nodup _ (kwf_base _ Hk)).
  - intros w' Hne. by rewrite (kf_waitqs _ _ F), Hq, decide_False.
  - intros t'. destruct (kf_thread _ _ F t') as (st & -> & _). cbn. rewrite Ht2, Ht1. by case_decide; subst.
  - intros t' ->%list_elem_of_singleton. destruct (kf_thread _ _ F t) as (st & -> & _). cbn.
    by rewrite Ht2, Ht1, decide_True.
  - intros t' Hne%not_elem_of_cons. destruct Hne as [Hne _]. by rewrite ready_thread_other, Ht2, Ht1, decide_False.
Qed.

Lemma released_trans w ts us k k1 k2 :
  released w ts k k1 -> released w us k1 k2 -> released w (ts ++ us) k k2.
Proof.
  intros [A1 A2 A3 A4 A5 A6 A7 A8 A9 A10] [B1 B2 B3 B4 B5 B6 B7 B8 B9 B10]. split; try congruence.
  - rewrite B6, A6, list_filter_filter. apply list_filter_iff. intros t. rewrite not_elem_of_app. tauto.
  - intros w' Hw. by rewrite B7, A7.
  - intros t Ht. destruct (decide (t ∈ us)); [by apply B9|]. rewrite B10 by done. apply A9. rewrite elem_of_app in Ht. tauto.
  - intros t [Hts Hus]%not_elem_of_app. by rewrite B10, A10.
Qed.

Lemma released_nil w k : kwf k -> released w [] k k.
Proof. intros Hk. split; try done; [by rewrite filter_nothing|]. by intros t ?%elem_of_nil. Qed.

(** ** Bytes by their addresses *)

(** The values at the addresses [A] have been moved to the addresses [B]. *)
Definition moved (m m' : mem) (A B : list Z) : Prop :=
  m' <$> B = m <$> A /\ forall x, x ∉ B -> m' x = m x.

Lemma values_ext (m m' : mem) (L : list Z) : (forall x, x ∈ L -> m' x = m x) -> m' <$> L = m <$> L.
Proof. intros H. apply list_fmap_ext. intros i x Hx. apply H. by eapply list_elem_of_lookup_2. Qed.

Lemma moved_other m m' A B (L : list Z) : moved m m' A B -> (forall x, x ∈ L -> x ∉ B) -> m' <$> L = m <$> L.
Proof. intros [_ H] Hd. apply values_ext. auto. Qed.

Lemma moved_nil m : moved m m [] [].
Proof. done. Qed.

Lemma moved_app m m1 m2 A1 B1 A2 B2 :
  moved m m1 A1 B1 -> moved m1 m2 A2 B2 ->
  (forall x, x ∈ A2 -> x ∉ B1) -> (forall x, x ∈ B1 -> x ∉ B2) ->
  moved m m2 (A1 ++ A2) (B1 ++ B2).
Proof.
  intros [H1 O1] [H2 O2] Hab Hbb. split.
  - rewrite !fmap_app. f_equal.
    + rewrite <-H1. apply values_ext. auto.
    + rewrite H2. apply values_ext. auto.
  - intros x [Hx1 Hx2]%not_elem_of_app. by rewrite O2, O1.
Qed.

Lemma elem_of_region x a n : x ∈ seqZ a n <-> a <= x < a + n.
Proof. rewrite elem_of_seqZ. lia. Qed.

Lemma memcpy_moved m d s n : moved m (memcpy d s n m) (seqZ s n) (seqZ d n).
Proof.
  split.
  - apply list_eq. intros i. rewrite !list_lookup_fmap. destruct (decide (Z.of_nat i < n)) as [Hi|Hi].
    + rewrite !lookup_seqZ_lt by lia. cbn. f_equal. unfold memcpy.
      replace (d <=? d + Z.of_nat i) with true by lia. replace (d + Z.of_nat i <? d + n) with true by lia.
      cbn. f_equal. lia.
    + by rewrite !lookup_seqZ_ge by lia.
  - intros x Hx. apply memcpy_other. by rewrite elem_of_region in Hx.
Qed.

Lemma seqZ_split a n k : 0 <= k <= n -> seqZ a n = seqZ a k ++ seqZ (a + k) (n - k).
Proof. intros H. rewrite <-seqZ_app by lia. f_equal. lia. Qed.

Lemma length_seqZ' a n : 0 <= n -> Z.of_nat (length (seqZ a n)) = n.
Proof. intros. rewrite length_seqZ. lia. Qed.

(** The addresses that a list of descriptors covers. *)
Definition addrs (d : pipe_desc) : list Z := seqZ (d_buffer d) (bytes_to_xfer d).
Definition cover (ds : Z -> pipe_desc) (l : list Z) : list Z := concat ((fun i => addrs (ds i)) <$> l).

Lemma cover_cons ds i l : cover ds (i :: l) = addrs (ds i) ++ cover ds l.
Proof. done. Qed.

Lemma cover_app ds l l' : cover ds (l ++ l') = cover ds l ++ cover ds l'.
Proof. unfold cover. by rewrite fmap_app, concat_app. Qed.

Lemma cover_ext ds ds' l : (forall i, i ∈ l -> ds' i = ds i) -> cover ds' l = cover ds l.
Proof.
  intros H. unfold cover. f_equal. apply list_fmap_ext. intros j i Hi. f_equal. apply H.
  by eapply list_elem_of_lookup_2.
Qed.

Lemma addrs_empty d : bytes_to_xfer d = 0 -> addrs d = [].
Proof. unfold addrs. by intros ->. Qed.

(** A descriptor after [n] of its bytes were moved. *)
Lemma addrs_advance d n :
  0 <= n <= bytes_to_xfer d -> addrs d = seqZ (d_buffer d) n ++ addrs (advance n d).
Proof. intros H. unfold addrs. rewrite (seqZ_split _ _ n) by done. done. Qed.

Lemma elem_of_cover ds l x : x ∈ cover ds l <-> exists i, i ∈ l /\ x ∈ addrs (ds i).
Proof.
  unfold cover. rewrite list_elem_of_In, in_concat. split.
  - intros (L & HL & Hx). apply list_elem_of_In in HL. apply list_elem_of_In in Hx. apply list_elem_of_fmap in HL as (i & -> & Hi). by exists i.
  - intros (i & Hi & Hx). exists (addrs (ds i)). rewrite <-!list_elem_of_In. split; [|done].
    apply list_elem_of_fmap. by exists i.
Qed.

(** ** The copy loop of [pipe_write] *)

(** The list without its first descriptor if that one is used up. *)
Definition trim (ds : Z -> pipe_desc) (l : list Z) : list Z :=
  match l with
  | [] => []
  | i :: l' => if bytes_to_xfer (ds i) =? 0 then l' else l
  end.

Lemma cover_trim ds l : cover ds (trim ds l) = cover ds l.
Proof.
  destruct l as [|i l]; [done|]. cbn [trim]. destruct (Z.eqb_spec (bytes_to_xfer (ds i)) 0) as [H|]; [|done].
  by rewrite cover_cons, addrs_empty.
Qed.

Lemma elem_of_trim ds l i : i ∈ trim ds l -> i ∈ l.
Proof. destruct l as [|j l]; [done|]. cbn. case_match; [by right|done]. Qed.

Lemma NoDup_trim ds l : NoDup l -> NoDup (trim ds l).
Proof. destruct l as [|j l]; [done|]. cbn. rewrite NoDup_cons. intros [? ?]. case_match; [done|by constructor]. Qed.

(** What stays untouched outside the shorter list has the same cover. *)
Lemma cover_untrim ds ds' l :
  NoDup l -> (forall i, i ∈ l -> i ∉ trim ds l -> ds' i = ds i) -> cover ds' (trim ds l) = cover ds' l.
Proof.
  destruct l as [|j l]; [done|]. cbn [trim]. intros [Hj _]%NoDup_cons.
  destruct (Z.eqb_spec (bytes_to_xfer (ds j)) 0) as [H0|]; [|done]. intros H.
  rewrite cover_cons, (H j) by (done || by left). by rewrite addrs_empty.
Qed.

(** Lists between which bytes can be copied. *)
Record lists_ok (ds : Z -> pipe_desc) (srcs dests : list Z) : Prop := {
  lo_nodup : NoDup (srcs ++ dests);
  lo_pos i : i ∈ srcs ++ dests -> 0 <= bytes_to_xfer (ds i);
  lo_null i : i ∈ dests -> 0 < d_buffer (ds i);
  lo_apart x : x ∈ cover ds srcs -> x ∉ cover ds dests;
  lo_dest : NoDup (cover ds dests)
}.

Definition both {A B} (a : list A) (b : list B) : nat := Nat.min (length a) (length b).

(** The outcome for the data: as many bytes as both sides allow are moved. *)
Record data_moved (srcs dests : list Z) (ds ds' : Z -> pipe_desc) (m m' : mem) : Prop := {
  dm_mem : let c := both (cover ds srcs) (cover ds dests) in
           moved m m' (take c (cover ds srcs)) (take c (cover ds dests));
  dm_src : cover ds' srcs = drop (both (cover ds srcs) (cover ds dests)) (cover ds srcs);
  dm_dest : cover ds' dests = drop (both (cover ds srcs) (cover ds dests)) (cover ds dests);
  dm_other i : i ∉ srcs ++ dests -> ds' i = ds i;
  dm_thread i : thread (ds' i) = thread (ds i);
  dm_pos i : i ∈ srcs ++ dests -> 0 <= bytes_to_xfer (ds' i);
  dm_buf i : d_buffer (ds i) <= d_buffer (ds' i)
}.

Lemma data_moved_nothing srcs dests ds m :
  lists_ok ds srcs dests -> srcs = [] \/ dests = [] -> data_moved srcs dests ds ds m m.
Proof.
  intros Hok H.
  assert (Hc : both (cover ds srcs) (cover ds dests) = 0%nat) by (destruct H; subst; cbn; unfold both; cbn; lia).
  split; try rewrite Hc; try done. apply Hok.
Qed.

Section Pass.
Context (ds : Z -> pipe_desc) (m : mem) (src dest : Z) (srcs dests : list Z).
Hypothesis Hok : lists_ok ds (src :: srcs) (dest :: dests).

Let n := Z.min (bytes_to_xfer (ds dest)) (bytes_to_xfer (ds src)).
Let ds1 := <[src := advance n (ds src)]> (<[dest := advance n (ds dest)]> ds).

Lemma pass_range : 0 <= n <= bytes_to_xfer (ds src) /\ n <= bytes_to_xfer (ds dest).
Proof.
  pose proof (lo_pos _ _ _ Hok src). pose proof (lo_pos _ _ _ Hok dest).
  assert (src ∈ (src :: srcs) ++ dest :: dests) by (by left).
  assert (dest ∈ (src :: srcs) ++ dest :: dests) by (rewrite elem_of_app; right; by left).
  unfold n. naive_solver lia.
Qed.

Lemma pass_names :
  src <> dest /\ src ∉ srcs /\ src ∉ dests /\ dest ∉ srcs /\ dest ∉ dests /\ NoDup srcs /\ NoDup dests /\
  (forall i, i ∈ srcs -> i ∉ dests).
Proof.
  destruct (NoDup_app (src :: srcs) (dest :: dests)) as [H _].
  destruct (H (lo_nodup _ _ _ Hok)) as ([H1 H2]%NoDup_cons & H3 & [H4 H5]%NoDup_cons).
  assert (H6 := H3 src ltac:(by left)). apply not_elem_of_cons in H6 as [? ?]. split_and!; try done.
  - intros Hd. apply (H3 dest); [by right|by left].
  - intros i Hi Hd. apply (H3 i); by right.
Qed.

Lemma pass_src : ds1 src = advance n (ds src).
Proof. unfold ds1. by rewrite fn_lookup_insert. Qed.

Lemma pass_dest : ds1 dest = advance n (ds dest).
Proof. unfold ds1. rewrite fn_lookup_insert_ne by apply pass_names. by rewrite fn_lookup_insert. Qed.

Lemma pass_other i : i <> src -> i <> dest -> ds1 i = ds i.
Proof. intros. unfold ds1. by rewrite !fn_lookup_insert_ne. Qed.

Lemma pass_cover_srcs : cover ds (src :: srcs) = seqZ (d_buffer (ds src)) n ++ cover ds1 (src :: srcs).
Proof.
  destruct pass_names as (?&?&?&?&_). rewrite !cover_cons, pass_src, app_assoc, <-addrs_advance by apply pass_range.
  f_equal. symmetry. apply cover_ext. intros i Hi. apply pass_other; by intros ->.
Qed.

Lemma pass_cover_part L :
  (forall i, i ∈ L -> i ∈ dests) ->
  cover ds (dest :: L) = seqZ (d_buffer (ds dest)) n ++ cover ds1 (dest :: L).
Proof.
  intros HL. destruct pass_names as (?&?&?&?&?&_). pose proof pass_range.
  rewrite !cover_cons, pass_dest, app_assoc, <-addrs_advance by lia.
  f_equal. symmetry. apply cover_ext. intros i Hi%HL. apply pass_other; by intros ->.
Qed.

Lemma pass_cover_dests : cover ds (dest :: dests) = seqZ (d_buffer (ds dest)) n ++ cover ds1 (dest :: dests).
Proof. by apply pass_cover_part. Qed.

Lemma pass_lists_ok : lists_ok ds1 (trim ds1 (src :: srcs)) (trim ds1 (dest :: dests)).
Proof.
  pose proof pass_range as Hn. destruct pass_names as (?&?&?&?&?&?&?&?).
  pose proof pass_cover_srcs as Hs. pose proof pass_cover_dests as Hd. split.
  - apply NoDup_app. split_and!; [apply NoDup_trim; by constructor| |apply NoDup_trim; by constructor].
    intros i Hi%elem_of_trim Hj%elem_of_trim. pose proof (lo_nodup _ _ _ Hok) as Hnd.
    apply NoDup_app in Hnd as (_ & Hx & _). by apply (Hx i).
  - intros i Hi. assert (i ∈ (src :: srcs) ++ dest :: dests) as Hi'.
    { rewrite elem_of_app in Hi |- *. destruct Hi as [Hi|Hi]; apply elem_of_trim in Hi; auto. }
    destruct (decide (i = src)) as [->|]; [rewrite pass_src; cbn; lia|].
    destruct (decide (i = dest)) as [->|]; [rewrite pass_dest; cbn; lia|].
    rewrite pass_other by done. by apply (lo_pos _ _ _ Hok).
  - intros i Hi%elem_of_trim. assert (Hp := lo_null _ _ _ Hok i Hi).
    destruct (decide (i = dest)) as [->|]; [rewrite pass_dest; cbn; lia|].
    rewrite pass_other; [done| |done]. intros ->. by apply elem_of_cons in Hi as [?|?].
  - intros x. rewrite !cover_trim. intros Hx. intros Hy. apply (lo_apart _ _ _ Hok x).
    + rewrite Hs, elem_of_app. by right.
    + rewrite Hd, elem_of_app. by right.
  - rewrite cover_trim. pose proof (lo_dest _ _ _ Hok) as Hnd. rewrite Hd in Hnd.
    by apply NoDup_app in Hnd as (_ & _ & ?).
Qed.

Lemma pass_both :
  both (cover ds (src :: srcs)) (cover ds (dest :: dests)) =
  (Z.to_nat n + both (cover ds1 (src :: srcs)) (cover ds1 (dest :: dests)))%nat.
Proof.
  rewrite pass_cover_srcs, pass_cover_dests. unfold both. rewrite !length_app, !length_seqZ. lia.
Qed.

(** A descriptor is used up. *)
Lemma pass_progress :
  (length (trim ds1 (src :: srcs)) + length (trim ds1 (dest :: dests)) < length (src :: srcs) + length (dest :: dests))%nat.
Proof.
  pose proof pass_range. cbn [trim]. rewrite pass_src, pass_dest. cbn [advance bytes_to_xfer upd set_bytes_to_xfer set_d_buffer].
  destruct (Z.eqb_spec (bytes_to_xfer (ds src) - n) 0), (Z.eqb_spec (bytes_to_xfer (ds dest) - n) 0);
    cbn [length]; lia.
Qed.

(** The rest of the loop completes the pass. *)
Lemma pass_data ds' m' :
  data_moved (trim ds1 (src :: srcs)) (trim ds1 (dest :: dests)) ds1 ds'
    (memcpy (d_buffer (ds dest)) (d_buffer (ds src)) n m) m' ->
  data_moved (src :: srcs) (dest :: dests) ds ds' m m'.
Proof.
  pose proof pass_range as Hn. pose proof pass_names as (Hne&?&?&?&?&?&?&?).
  pose proof pass_cover_srcs as Hs. pose proof pass_cover_dests as Hd. pose proof pass_both as Hb.
  intros [M1 M2 M3 M4 M5 M6 M7]. rewrite !cover_trim in M1, M2, M3.
  set (c1 := both (cover ds1 (src :: srcs)) (cover ds1 (dest :: dests))) in *.
  assert (Hin : forall i, i ∉ (src :: srcs) ++ dest :: dests -> i ∉ trim ds1 (src :: srcs) ++ trim ds1 (dest :: dests)).
  { intros i Hi. rewrite !elem_of_app in *. intros [Hx|Hx]; apply elem_of_trim in Hx; tauto. }
  assert (Hlen : forall a, length (seqZ a n) = Z.to_nat n) by (intros; by rewrite length_seqZ).
  assert (Hso : forall i, i ∈ src :: srcs -> i ∉ dest :: dests).
  { intros i Hi. pose proof (lo_nodup _ _ _ Hok) as Hnd. apply NoDup_app in Hnd as (_ & Hx & _). by apply Hx. }
  split.
  - cbv zeta. rewrite Hb, Hs, Hd. rewrite <-(Hlen (d_buffer (ds src))) at 1. rewrite take_app_add.
    rewrite <-(Hlen (d_buffer (ds dest))). rewrite take_app_add.
    eapply moved_app; [apply memcpy_moved|exact M1|..].
    + intros x Hx%elem_of_take. destruct Hx as (j & Hj & _). apply list_elem_of_lookup_2 in Hj. intros Hx.
      apply (lo_apart _ _ _ Hok x); [rewrite Hs, elem_of_app; by right|rewrite Hd, elem_of_app; by left].
    + intros x Hx Hx2%elem_of_take. destruct Hx2 as (j & Hj & _). apply list_elem_of_lookup_2 in Hj.
      pose proof (lo_dest _ _ _ Hok) as Hnd. rewrite Hd in Hnd. apply NoDup_app in Hnd as (_ & Hx' & _). by apply (Hx' x).
  - rewrite <-(cover_untrim ds1 ds' (src :: srcs)).
    + rewrite M2, Hb, Hs. rewrite <-(Hlen (d_buffer (ds src))). by rewrite drop_app_add.
    + by constructor.
    + intros i Hi Hi'. apply M4. rewrite elem_of_app. intros [?|Hx%elem_of_trim]; [done|]. by apply (Hso i).
  - rewrite <-(cover_untrim ds1 ds' (dest :: dests)).
    + rewrite M3, Hb, Hd. rewrite <-(Hlen (d_buffer (ds dest))). by rewrite drop_app_add.
    + by constructor.
    + intros i Hi Hi'. apply M4. rewrite elem_of_app. intros [Hx%elem_of_trim|?]; [|done]. by apply (Hso i).
  - intros i Hi. rewrite M4 by (by apply Hin). apply pass_other; intros ->; apply Hi; rewrite elem_of_app; [left|right]; by left.
  - intros i. rewrite M5. destruct (decide (i = src)) as [->|]; [by rewrite pass_src|].
    destruct (decide (i = dest)) as [->|]; [by rewrite pass_dest|]. by rewrite pass_other.
  - intros i Hi. destruct (decide (i ∈ trim ds1 (src :: srcs) ++ trim ds1 (dest :: dests))) as [|Hn']; [by apply M6|].
    rewrite M4 by done. destruct (decide (i = src)) as [->|]; [rewrite pass_src; cbn; lia|].
    destruct (decide (i = dest)) as [->|]; [rewrite pass_dest; cbn; lia|].
    rewrite pass_other by done. by apply (lo_pos _ _ _ Hok).
  - intros i. etransitivity; [|apply M7]. destruct (decide (i = src)) as [->|]; [rewrite pass_src; cbn; lia|].
    destruct (decide (i = dest)) as [->|]; [rewrite pass_dest; cbn; lia|]. by rewrite pass_other.
Qed.

End Pass.

(** ** The ring *)

(** The descriptors [R] of free (or of used) space of the ring, from index [i]
    on: each lies within the ring and ends where the next one starts. *)
Fixpoint ring_from (buf sz : Z) (ds : Z -> pipe_desc) (R : list Z) (i : Z) : Prop :=
  match R with
  | [] => True
  | d :: R' =>
      thread (ds d) = None /\ d_buffer (ds d) = buf + i /\ 0 <= i < sz /\
      0 <= bytes_to_xfer (ds d) <= sz - i /\
      ring_from buf sz ds R' (wrap sz (i + bytes_to_xfer (ds d)))
  end.

Lemma ring_from_ext buf sz ds ds' R i :
  (forall d, d ∈ R -> ds' d = ds d) -> ring_from buf sz ds R i -> ring_from buf sz ds' R i.
Proof.
  revert i. induction R as [|d R IH]; intros i H; cbn; [done|]. rewrite (H d) by (by left).
  intros (?&?&?&?&?). do 4 (split; [done|]). apply IH; [|done]. intros x Hx. apply H. by right.
Qed.

Lemma wrap_small sz i : i < sz -> wrap sz i = i.
Proof. intros H. unfold wrap. by destruct (Z.leb_spec sz i); [lia|]. Qed.

Lemma wrap_mod sz i : 0 <= i < 2 * sz -> wrap sz i = i mod sz.
Proof.
  intros H. unfold wrap. destruct (Z.leb_spec sz i); [|by rewrite Z.mod_small by lia].
  symmetry. rewrite <-(Z.mod_small (i - sz) sz) by lia.
  replace i with (i - sz + 1 * sz) at 1 by lia. apply Z.mod_add. lia.
Qed.

(** The state of the ring after [c] more bytes were written, or were read. *)
Definition filled (c : Z) (p : k_pipe) : k_pipe :=
  p <| bytes_used ::= fun u => u + c |> <| write_index ::= fun i => (i + c) mod size p |>.
Definition drained (c : Z) (p : k_pipe) : k_pipe :=
  p <| bytes_used ::= fun u => u - c |> <| read_index ::= fun i => (i + c) mod size p |>.

Definition index_ok (p : k_pipe) (i : Z) : Prop := 0 <= i < size p \/ (size p = 0 /\ i = 0).

Lemma filled_0 p : index_ok p (write_index p) -> filled 0 p = p.
Proof.
  intros Hi. destruct p as [b s u r w rd wr f]. unfold filled, index_ok, upd, set_bytes_used, set_write_index in *.
  cbn in *. rewrite !Z.add_0_r. f_equal. destruct Hi as [?|[-> ->]]; [by apply Z.mod_small|done].
Qed.

Lemma filled_add p a b : filled b (filled a p) = filled (a + b) p.
Proof.
  destruct p as [bf s u r w rd wr f]. unfold filled, upd, set_bytes_used, set_write_index. cbn. f_equal; [lia|].
  destruct (Z.eq_dec s 0) as [->|]; [rewrite !Zmod_0_r; lia|]. rewrite Z.add_mod_idemp_l by done. f_equal. lia.
Qed.

(** ** What [pipe_write] does *)

(** The threads whose requests have been satisfied, in the order of [T]. *)
Definition satisfied (ds : Z -> pipe_desc) (T : list Z) : list tid :=
  omap (fun i => if bytes_to_xfer (ds i) =? 0 then thread (ds i) else None) T.

(** [T] are waiting threads, [R] free space of the ring. *)
Record targets (k : kernel) (o : pobj) (w : wqid) (T R : list Z) : Prop := {
  ta_thread i : i ∈ T -> 0 < bytes_to_xfer (descs o i) /\ exists t, thread (descs o i) = Some t /\ t ∈ waitqs k w;
  ta_threads i j t : i ∈ T -> j ∈ T -> thread (descs o i) = Some t -> thread (descs o j) = Some t -> i = j;
  ta_ring : ring_from (buffer (pipe o)) (size (pipe o)) (descs o) R (write_index (pipe o));
  ta_index : index_ok (pipe o) (write_index (pipe o))
}.

(** Bytes that went past the threads [T] into the ring. *)
Definition ring_part (c : nat) (ds : Z -> pipe_desc) (T : list Z) : Z := Z.of_nat (c - length (cover ds T)).

Record wrote (w : wqid) (srcs T R : list Z) (k : kernel) (o : pobj) (k' : kernel) (o' : pobj) : Prop := {
  w_data : data_moved srcs (T ++ R) (descs o) (descs o') (memory o) (memory o');
  w_pipe : pipe o' = filled (ring_part (both (cover (descs o) srcs) (cover (descs o) (T ++ R))) (descs o) T) (pipe o);
  w_rest : cover (descs o') T =
           drop (both (cover (descs o) srcs) (cover (descs o) (T ++ R))) (cover (descs o) T);
  w_kernel : released w (satisfied (descs o') T) k k'
}.

(** One pass, on a copy of [n] bytes. *)
Definition passed (src dest : Z) (o : pobj) : pobj :=
  let n := Z.min (bytes_to_xfer (descs o dest)) (bytes_to_xfer (descs o src)) in
  o <| memory ::= memcpy (d_buffer (descs o dest)) (d_buffer (descs o src)) n |>
    <| descs ::= fun ds => <[src := advance n (ds src)]> (<[dest := advance n (ds dest)]> ds) |>.

Lemma write_pass_thread src dest t k o :
  0 < d_buffer (descs o dest) -> src <> dest -> thread (descs o dest) = Some t ->
  let n := Z.min (bytes_to_xfer (descs o dest)) (bytes_to_xfer (descs o src)) in
  write_pass src dest (k, o) =
  (n, bytes_to_xfer (descs (passed src dest o) dest) =? 0,
   (if bytes_to_xfer (descs (passed src dest o) dest) =? 0 then release_thread t k else k, passed src dest o)).
Proof.
  intros Hd Hne Ht n. unfold write_pass, pipe_xfer. destruct (Z.eqb_spec (d_buffer (descs o dest)) NULL) as [Hz|_].
  { unfold NULL in Hz. lia. }
  cbn. fold n. rewrite Ht. rewrite fn_lookup_insert_ne, fn_lookup_insert by done. cbn. by destruct (_ =? 0).
Qed.

Lemma write_pass_ring src dest k o :
  0 < d_buffer (descs o dest) -> thread (descs o dest) = None ->
  let n := Z.min (bytes_to_xfer (descs o dest)) (bytes_to_xfer (descs o src)) in
  write_pass src dest (k, o) =
  (n, false, (k, (passed src dest o) <| pipe ::= fun p => p <| bytes_used ::= fun u => u + n |>
                                         <| write_index ::= fun i => wrap (size p) (i + n) |> |>)).
Proof.
  intros Hd Ht n. unfold write_pass, pipe_xfer. destruct (Z.eqb_spec (d_buffer (descs o dest)) NULL) as [Hz|_].
  { unfold NULL in Hz. lia. }
  cbn. fold n. by rewrite Ht.
Qed.

Lemma satisfied_none ds T : (forall i, i ∈ T -> 0 < bytes_to_xfer (ds i)) -> satisfied ds T = [].
Proof.
  induction T as [|i T IH]; intros H; [done|]. cbn. assert (0 < bytes_to_xfer (ds i)) by (apply H; by left).
  destruct (Z.eqb_spec (bytes_to_xfer (ds i)) 0); [lia|]. apply IH. intros j Hj. apply H. by right.
Qed.

Lemma write_loop_done w srcs T R k o :
  kwf k -> lists_ok (descs o) srcs (T ++ R) -> targets k o w T R -> srcs = [] \/ T ++ R = [] ->
  both (cover (descs o) srcs) (cover (descs o) (T ++ R)) = 0%nat /\ satisfied (descs o) T = [] /\
  wrote w srcs T R k o k o.
Proof.
  intros Hk Hok Hta He.
  assert (Hb : both (cover (descs o) srcs) (cover (descs o) (T ++ R)) = 0%nat).
  { destruct He as [-> | ->]; unfold both; cbn; lia. }
  assert (Hs : satisfied (descs o) T = []) by (apply satisfied_none; intros i Hi; by apply (ta_thread _ _ _ _ _ Hta)).
  split_and!; [done|done|]. split.
  - by apply data_moved_nothing.
  - rewrite Hb. unfold ring_part. cbn. symmetry. apply filled_0, Hta.
  - by rewrite Hb.
  - rewrite Hs. by apply released_nil.
Qed.

Section Step.
Context (w : wqid) (src dest : Z) (srcs : list Z) (k : kernel) (o : pobj).
Hypothesis Hk : kwf k.

(** The pass served the first waiting thread. *)
Lemma thread_targets T R t :
  lists_ok (descs o) (src :: srcs) (dest :: T ++ R) -> targets k o w (dest :: T) R ->
  thread (descs o dest) = Some t ->
  targets (if bytes_to_xfer (descs (passed src dest o) dest) =? 0 then release_thread t k else k)
    (passed src dest o) w (trim (descs (passed src dest o)) (dest :: T)) R.
Proof.
  intros Hok Hta Ht. pose proof (pass_names _ _ _ _ _ Hok) as (Hne&_&Hs2&_&Hd2&_).
  rewrite elem_of_app in Hs2, Hd2.
  assert (Hds : forall i, i ∈ T \/ i ∈ R -> descs (passed src dest o) i = descs o i).
  { intros i Hi. apply pass_other; intros ->; tauto. }
  pose proof (pass_dest _ _ _ _ _ Hok) as Hpd.
  change (descs (passed src dest o) dest = advance
    (Z.min (bytes_to_xfer (descs o dest)) (bytes_to_xfer (descs o src))) (descs o dest)) in Hpd.
  destruct (ta_thread _ _ _ _ _ Hta dest) as (Hpos & t' & Ht' & Hin); [by left|]. rewrite Ht in Ht'. injection Ht' as <-.
  split.
  - intros i Hi. cbn [trim] in Hi.
    destruct (Z.eqb_spec (bytes_to_xfer (descs (passed src dest o) dest)) 0) as [H0|H0].
    + rewrite Hds by auto. destruct (ta_thread _ _ _ _ _ Hta i) as (Hi' & u & Hu & Huin); [by right|]. split; [done|].
      exists u. split; [done|]. rewrite (re_wq _ _ _ _ (release_thread_released w t k Hk Hin)).
      apply list_elem_of_filter. split; [|done]. intros ->%list_elem_of_singleton.
      assert (i = dest) as -> by (apply (ta_threads _ _ _ _ _ Hta i dest t); [by right|by left|done|done]). tauto.
    + apply elem_of_cons in Hi as [->|Hi].
      * split; [|exists t; split; [|done]].
        -- pose proof (pass_range _ _ _ _ _ Hok). rewrite Hpd in H0 |- *. cbn in *. lia.
        -- by rewrite Hpd.
      * rewrite Hds by auto. apply (ta_thread _ _ _ _ _ Hta). by right.
  - intros i j u Hi%elem_of_trim Hj%elem_of_trim.
    assert (Hth : forall x, x ∈ dest :: T -> thread (descs (passed src dest o) x) = thread (descs o x)).
    { intros x [->|Hx]%elem_of_cons; [by rewrite Hpd|by rewrite Hds by auto]. }
    rewrite !Hth by done. by apply (ta_threads _ _ _ _ _ Hta).
  - apply (ring_from_ext _ _ (descs o)); [auto|]. apply Hta.
  - apply Hta.
Qed.

(** The pass wrote to the ring. *)
Definition ringed (o1 : pobj) (n : Z) : pobj :=
  o1 <| pipe ::= fun p => p <| bytes_used ::= fun u => u + n |>
                            <| write_index ::= fun i => wrap (size p) (i + n) |> |>.

Lemma ring_targets R :
  let n := Z.min (bytes_to_xfer (descs o dest)) (bytes_to_xfer (descs o src)) in
  let o1 := ringed (passed src dest o) n in
  lists_ok (descs o) (src :: srcs) (dest :: R) -> targets k o w [] (dest :: R) ->
  targets k o1 w [] (trim (descs o1) (dest :: R)) /\ pipe o1 = filled n (pipe o).
Proof.
  intros n o1 Hok Hta. pose proof (pass_names _ _ _ _ _ Hok) as (Hne&_&Hs2&_&Hd2&_).
  pose proof (pass_range _ _ _ _ _ Hok) as Hr. fold n in Hr.
  assert (Hpd : descs o1 dest = advance n (descs o dest)) by apply (pass_dest _ _ _ _ _ Hok).
  assert (Hds : forall i, i ∈ R -> descs o1 i = descs o i).
  { intros i Hi. apply pass_other; intros ->; tauto. }
  destruct (ta_ring _ _ _ _ _ Hta) as (Hth&Hbuf&Hi&Hlen&Hrest).
  assert (Hp : pipe o1 = filled n (pipe o)).
  { unfold filled, o1, ringed, upd, set_write_index, set_bytes_used, set_pipe. cbn. by rewrite wrap_mod by lia. }
  assert (Hwi : write_index (pipe o1) = wrap (size (pipe o)) (write_index (pipe o) + n)) by done.
  split; [|done]. split; [by intros ? ?%elem_of_nil|by intros ? ? ? ?%elem_of_nil|..].
  - cbn [trim]. change (buffer (pipe o1)) with (buffer (pipe o)). change (size (pipe o1)) with (size (pipe o)).
    rewrite Hwi. destruct (Z.eqb_spec (bytes_to_xfer (descs o1 dest)) 0) as [H0|H0]; rewrite Hpd in H0; cbn in H0.
    + apply (ring_from_ext _ _ (descs o)); [done|].
      by replace n with (bytes_to_xfer (descs o dest)) by lia.
    + rewrite wrap_small by lia. cbn [ring_from]. rewrite Hpd. cbn.
      split; [done|]. split; [lia|]. split; [lia|]. split; [lia|].
      replace (write_index (pipe o) + n + (bytes_to_xfer (descs o dest) - n))
        with (write_index (pipe o) + bytes_to_xfer (descs o dest)) by lia.
      by apply (ring_from_ext _ _ (descs o)).
  - left. rewrite Hwi. change (size (pipe o1)) with (size (pipe o)). rewrite wrap_mod by lia. apply Z.mod_pos_bound. lia.
Qed.

End Step.

Lemma trim_app ds i T R : trim ds (i :: T ++ R) = trim ds (i :: T) ++ R.
Proof. cbn. by destruct (_ =? 0). Qed.

Definition is_nil {A} (l : list A) : bool := match l with [] => true | _ => false end.

(** A satisfied thread is among those that the whole loop satisfies. *)
Lemma satisfied_trim ds1 ds' i T :
  NoDup (i :: T) -> (forall j, j ∉ trim ds1 (i :: T) -> j ∈ i :: T -> ds' j = ds1 j) ->
  satisfied ds' (i :: T) =
  (if bytes_to_xfer (ds1 i) =? 0 then match thread (ds1 i) with Some t => [t] | None => [] end else []) ++
  satisfied ds' (trim ds1 (i :: T)).
Proof.
  intros [Hi _]%NoDup_cons H. cbn [trim] in *. destruct (Z.eqb_spec (bytes_to_xfer (ds1 i)) 0) as [H0|H0]; [|done].
  cbn. rewrite (H i) by (done || by left). rewrite H0. cbn. by destruct (thread (ds1 i)).
Qed.

Lemma released_one w t k ts k' b :
  kwf k -> (b = true -> t ∈ waitqs k w) ->
  released w ts (if b : bool then release_thread t k else k) k' ->
  released w ((if b then [t] else []) ++ ts) k k'.
Proof.
  intros Hk Ht Hr. destruct b; [|done]. eapply released_trans; [|done]. apply release_thread_released; auto.
Qed.

Lemma write_loop_spec w fuel srcs T R n0 r0 k o :
  (length srcs + length (T ++ R) <= fuel)%nat ->
  kwf k -> lists_ok (descs o) srcs (T ++ R) -> targets k o w T R ->
  exists k' o',
    write_loop fuel srcs (T ++ R) n0 r0 (k, o) =
      (n0 + Z.of_nat (both (cover (descs o) srcs) (cover (descs o) (T ++ R))),
       r0 || negb (is_nil (satisfied (descs o') T)), (k', o')) /\
    wrote w srcs T R k o k' o'.
Proof.
  revert srcs T R n0 r0 k o. induction fuel as [|fuel IH]; intros srcs T R n0 r0 k o Hfuel Hk Hok Hta.
  { destruct (write_loop_done w srcs T R k o Hk Hok Hta) as (Hb & Hs & Hw).
    { left. destruct srcs; [done|]. cbn in Hfuel. lia. }
    exists k, o. rewrite Hb, Hs. cbn. by rewrite orb_false_r, Z.add_0_r. }
  destruct (decide (srcs = [] \/ T ++ R = [])) as [He|He].
  { destruct (write_loop_done w srcs T R k o Hk Hok Hta He) as (Hb & Hs & Hw).
    exists k, o. rewrite Hb, Hs. cbn [is_nil negb]. rewrite orb_false_r, Z.add_0_r. split; [|done].
    destruct He as [-> | ->]; [done|]. by destruct srcs. }
  destruct srcs as [|src srcs]; [tauto|]. destruct T as [|dest T].
  - destruct R as [|dest R]; [cbn in He; tauto|]. cbn [app] in *.
    destruct (ring_targets w src dest srcs k o R Hok Hta) as [Hta1 Hp1].
    set (n := Z.min _ _) in *. set (o1 := ringed (passed src dest o) n) in *.
    pose proof (pass_lists_ok _ _ _ _ _ Hok) as Hok1. pose proof (pass_both _ _ _ _ _ Hok) as Hb. fold n in Hok1, Hb.
    pose proof (pass_range _ _ _ _ _ Hok) as Hr. fold n in Hr.
    change (<[src:=advance n (descs o src)]> (<[dest:=advance n (descs o dest)]> (descs o))) with (descs o1) in Hok1, Hb.
    destruct (IH (trim (descs o1) (src :: srcs)) [] (trim (descs o1) (dest :: R)) (n0 + n) (r0 || false) k o1) as (k'&o'&Hl&Hw).
    { pose proof (pass_progress (descs o) src dest srcs R Hok). cbn in *. lia. }
    { done. } { done. } { done. }
    exists k', o'. split.
    + cbn [write_loop]. rewrite (write_pass_ring src dest k o (lo_null _ _ _ Hok dest ltac:(by left))
        (proj1 (ta_ring _ _ _ _ _ Hta))).
      fold n. change (_ <| pipe ::= _ |>) with o1. cbn [app] in Hl. rewrite !cover_trim in Hl.
      etransitivity; [exact Hl|]. rewrite Hb, orb_false_r. do 2 f_equal. lia.
    + destruct Hw as [W1 W2 Wr W3]. cbn [app] in *. split.
      * by apply (pass_data _ _ _ _ _ _ Hok).
      * cbn [app]. rewrite W2, Hp1, filled_add. f_equal. rewrite !cover_trim, Hb. unfold ring_part. change (cover (descs o) []) with (@nil Z). change (cover (descs o1) []) with (@nil Z). cbn [length]. lia.
      * change (cover (descs o) []) with (@nil Z). by rewrite drop_nil.
      * done.
  - cbn [app] in *. destruct (ta_thread _ _ _ _ _ Hta dest) as (Hpos & t & Ht & Hin); [by left|].
    pose proof (thread_targets w src dest srcs k o Hk T R t Hok Hta Ht) as Hta1.
    set (n := Z.min (bytes_to_xfer (descs o dest)) (bytes_to_xfer (descs o src))). set (o1 := passed src dest o) in *.
    pose proof (pass_lists_ok _ _ _ _ _ Hok) as Hok1. pose proof (pass_both _ _ _ _ _ Hok) as Hb. fold n in Hok1, Hb.
    pose proof (pass_range _ _ _ _ _ Hok) as Hr. fold n in Hr. pose proof (pass_names _ _ _ _ _ Hok) as (Hne&_&_&_&_&_&Hnd&_).
    change (<[src:=advance n (descs o src)]> (<[dest:=advance n (descs o dest)]> (descs o))) with (descs o1) in Hok1, Hb.
    set (b := bytes_to_xfer (descs o1 dest) =? 0) in *. set (k1 := if b then release_thread t k else k) in *.
    assert (Hk1 : kwf k1) by (unfold k1; destruct b; [apply (release_thread_released w t k Hk Hin)|done]).
    rewrite (trim_app (descs o1) dest T R) in Hok1.
    destruct (IH (trim (descs o1) (src :: srcs)) (trim (descs o1) (dest :: T)) R (n0 + n) (r0 || b) k1 o1) as (k'&o'&Hl&Hw).
    { pose proof (pass_progress (descs o) src dest srcs (T ++ R) Hok) as Hpr. rewrite (trim_app _ dest T R) in Hpr. cbn in *. lia. }
    { done. } { done. } { done. }
    assert (Hcov : forall L, cover L (trim (descs o1) (dest :: T) ++ R) = cover L (trim (descs o1) (dest :: T ++ R)))
      by (intros; by rewrite (trim_app _ dest T R)).
    pose proof (lo_nodup _ _ _ Hok) as Hall. apply NoDup_app in Hall as (_ & Hsd & Hdd).
    change (dest :: T ++ R) with ((dest :: T) ++ R) in Hdd. apply NoDup_app in Hdd as (HT & HTR & _).
    assert (Hsame : forall j, j ∉ trim (descs o1) (dest :: T) -> j ∈ dest :: T -> descs o' j = descs o1 j).
    { intros j Hj Hj'. apply (dm_other _ _ _ _ _ _ (w_data _ _ _ _ _ _ _ _ Hw)).
      rewrite !elem_of_app. intros [Hx%elem_of_trim|[?|Hx]]; [|done|by apply (HTR j)].
      apply (Hsd j Hx). apply (elem_of_app (dest :: T) R j). by left. }
    assert (Hsat : satisfied (descs o') (dest :: T) = (if b then [t] else []) ++ satisfied (descs o') (trim (descs o1) (dest :: T))).
    { rewrite (satisfied_trim (descs o1)) by done.
      fold b. replace (thread (descs o1 dest)) with (Some t); [done|].
      symmetry. rewrite <-Ht. unfold o1, passed. cbn. by rewrite (pass_dest _ _ _ _ _ Hok). }
    exists k', o'. split.
    + cbn [write_loop]. rewrite (write_pass_thread src dest t k o (lo_null _ _ _ Hok dest ltac:(by left)) Hne Ht).
      fold n o1 b k1. transitivity (write_loop fuel (trim (descs o1) (src :: srcs)) (trim (descs o1) (dest :: T ++ R))
        (n0 + n) (r0 || b) (k1, o1)); [done|]. rewrite (trim_app (descs o1) dest T R), Hl.
      rewrite Hcov, !cover_trim, Hb, Hsat. f_equal. f_equal; [lia|]. destruct b; cbn; by rewrite ?orb_true_r, ?orb_false_r.
    + pose proof (pass_cover_part _ _ _ _ _ Hok T ltac:(intros i Hi; rewrite elem_of_app; by left)) as Hcp. fold n in Hcp.
      change (<[src:=advance n (descs o src)]> (<[dest:=advance n (descs o dest)]> (descs o))) with (descs o1) in Hcp.
      destruct Hw as [W1 W2 Wr W3]. split; change ((dest :: T) ++ R) with (dest :: T ++ R).
      * rewrite <-(trim_app (descs o1) dest T R) in W1. by apply (pass_data _ _ _ _ _ _ Hok).
      * rewrite W2. f_equal. rewrite Hcov, !cover_trim, Hb. unfold ring_part.
        rewrite Hcp, cover_trim, length_app, length_seqZ. lia.
      * rewrite Hcov, !cover_trim, (cover_untrim (descs o1)) in Wr by auto. rewrite Wr, Hb, Hcp.
        replace (Z.to_nat n) with (length (seqZ (d_buffer (descs o dest)) n)) by (by rewrite length_seqZ).
        by rewrite drop_app_add.
      * rewrite Hsat. by apply released_one.
Qed.

(** ** The copy loop of a read *)

(** The destination after [n] bytes; it stays [NULL] when the data is thrown
    away. *)
Definition advance_dest (n : Z) (d : pipe_desc) : pipe_desc :=
  d <| d_buffer ::= fun b => if b =? NULL then b else b + n |> <| bytes_to_xfer ::= fun x => x - n |>.

Definition copied (dest src n : Z) (m : mem) : mem := if dest =? NULL then m else memcpy dest src n m.

(** One pass, on [n] bytes. *)
Definition taken (src dest : Z) (o : pobj) : pobj :=
  let n := Z.min (bytes_to_xfer (descs o dest)) (bytes_to_xfer (descs o src)) in
  o <| memory ::= copied (d_buffer (descs o dest)) (d_buffer (descs o src)) n |>
    <| descs ::= fun ds => <[dest := advance_dest n (ds dest)]> (<[src := advance n (ds src)]> ds) |>.

Lemma read_pass_thread src dest t k o :
  src <> dest -> thread (descs o src) = Some t ->
  let n := Z.min (bytes_to_xfer (descs o dest)) (bytes_to_xfer (descs o src)) in
  read_pass src dest (k, o) =
  (n, bytes_to_xfer (descs (taken src dest o) src) =? 0,
   (if bytes_to_xfer (descs (taken src dest o) src) =? 0 then release_thread t k else k, taken src dest o)).
Proof.
  intros Hne Ht n. unfold read_pass, pipe_xfer, taken, copied. cbn.
  rewrite fn_lookup_insert_ne, fn_lookup_insert by done. cbn. fold n.
  destruct (d_buffer (descs o dest) =? NULL); cbn; rewrite Ht; by destruct (_ =? 0).
Qed.

Lemma read_pass_ring src dest k o :
  thread (descs o src) = None ->
  let n := Z.min (bytes_to_xfer (descs o dest)) (bytes_to_xfer (descs o src)) in
  read_pass src dest (k, o) =
  (n, false, (k, (taken src dest o) <| pipe ::= fun p => p <| bytes_used ::= fun u => u - n |>
                                         <| read_index ::= fun i => wrap (size p) (i + n) |> |>)).
Proof.
  intros Ht n. unfold read_pass, pipe_xfer, taken, copied. cbn. fold n.
  destruct (d_buffer (descs o dest) =? NULL); cbn; by rewrite Ht.
Qed.

(** The addresses that a read writes: none when the data is thrown away. *)
Definition targets_of (d : pipe_desc) (c : Z) : list Z := if d_buffer d =? NULL then [] else seqZ (d_buffer d) c.

(** The number of bytes a read of [srcs] into [dest] moves. *)
Definition amount (ds : Z -> pipe_desc) (srcs : list Z) (dest : Z) : nat :=
  Nat.min (length (cover ds srcs)) (Z.to_nat (bytes_to_xfer (ds dest))).

Record data_read (srcs : list Z) (dest : Z) (ds ds' : Z -> pipe_desc) (m m' : mem) : Prop := {
  dr_mem : let c := amount ds srcs dest in
           if d_buffer (ds dest) =? NULL then m' = m
           else moved m m' (take c (cover ds srcs)) (seqZ (d_buffer (ds dest)) (Z.of_nat c));
  dr_src : cover ds' srcs = drop (amount ds srcs dest) (cover ds srcs);
  dr_dest : ds' dest = advance_dest (Z.of_nat (amount ds srcs dest)) (ds dest);
  dr_other i : i <> dest -> i ∉ srcs -> ds' i = ds i;
  dr_thread i : thread (ds' i) = thread (ds i);
  dr_pos i : i ∈ srcs -> 0 <= bytes_to_xfer (ds' i);
  dr_buf i : d_buffer (ds i) <= d_buffer (ds' i)
}.

(** What a read may be asked for. *)
Record read_ok (ds : Z -> pipe_desc) (srcs : list Z) (dest : Z) : Prop := {
  ro_nodup : NoDup (dest :: srcs);
  ro_pos i : i ∈ dest :: srcs -> 0 <= bytes_to_xfer (ds i);
  ro_null : 0 <= d_buffer (ds dest);
  ro_apart x : d_buffer (ds dest) <> NULL -> x ∈ cover ds srcs -> x ∉ addrs (ds dest)
}.

Section Take.
Context (ds : Z -> pipe_desc) (m : mem) (src dest : Z) (srcs : list Z).
Hypothesis Hok : read_ok ds (src :: srcs) dest.

Let n := Z.min (bytes_to_xfer (ds dest)) (bytes_to_xfer (ds src)).
Let ds1 := <[dest := advance_dest n (ds dest)]> (<[src := advance n (ds src)]> ds).

Lemma take_range : 0 <= n <= bytes_to_xfer (ds src) /\ n <= bytes_to_xfer (ds dest).
Proof.
  pose proof (ro_pos _ _ _ Hok src). pose proof (ro_pos _ _ _ Hok dest).
  assert (src ∈ dest :: src :: srcs) by (by right; left). assert (dest ∈ dest :: src :: srcs) by (by left).
  unfold n. naive_solver lia.
Qed.

Lemma take_names : src <> dest /\ src ∉ srcs /\ dest ∉ srcs /\ NoDup srcs.
Proof.
  destruct (NoDup_cons dest (src :: srcs)) as [H _]. destruct (H (ro_nodup _ _ _ Hok)) as [H1 [H2 H3]%NoDup_cons].
  apply not_elem_of_cons in H1 as [? ?]. by split_and!.
Qed.

Lemma take_src : ds1 src = advance n (ds src).
Proof. unfold ds1. rewrite fn_lookup_insert_ne by (symmetry; apply take_names). by rewrite fn_lookup_insert. Qed.

Lemma take_dest : ds1 dest = advance_dest n (ds dest).
Proof. unfold ds1. by rewrite fn_lookup_insert. Qed.

Lemma take_other i : i <> src -> i <> dest -> ds1 i = ds i.
Proof. intros. unfold ds1. by rewrite !fn_lookup_insert_ne. Qed.

Lemma take_rest : cover ds1 srcs = cover ds srcs.
Proof. destruct take_names as (?&?&?&?). apply cover_ext. intros i Hi. apply take_other; by intros ->. Qed.

Lemma take_amount : amount ds (src :: srcs) dest = (Z.to_nat n + amount ds1 srcs dest)%nat.
Proof.
  pose proof take_range. unfold amount. rewrite take_dest, take_rest, cover_cons, length_app. unfold addrs.
  rewrite length_seqZ. cbn. unfold n in *. lia.
Qed.

Lemma take_ok : read_ok ds1 srcs dest.
Proof.
  pose proof take_range as Hn. destruct take_names as (?&?&?&?). split.
  - by constructor.
  - intros i Hi. destruct (decide (i = dest)) as [->|]; [rewrite take_dest; cbn; lia|].
    destruct (decide (i = src)) as [->|]; [rewrite take_src; cbn; lia|].
    rewrite take_other by done. apply (ro_pos _ _ _ Hok). apply elem_of_cons in Hi as [?|?]; [done|by right; right].
  - rewrite take_dest. cbn. pose proof (ro_null _ _ _ Hok). destruct (_ =? NULL); lia.
  - intros x. rewrite take_dest, take_rest. unfold addrs. cbn. destruct (Z.eqb_spec (d_buffer (ds dest)) NULL) as [E|E]; [done|].
    intros _ Hx. rewrite elem_of_region. intros Hr. apply (ro_apart _ _ _ Hok x E).
    + rewrite cover_cons, elem_of_app. by right.
    + unfold addrs. rewrite elem_of_region. lia.
Qed.

Lemma take_data ds' m' :
  data_read srcs dest ds1 ds' (copied (d_buffer (ds dest)) (d_buffer (ds src)) n m) m' ->
  data_read (src :: srcs) dest ds ds' m m'.
Proof.
  pose proof take_range as Hn. pose proof take_names as (Hne&Hs&Hd&_). pose proof take_amount as Ha.
  intros [R1 R2 R3 R4 R5 R6 R7]. rewrite take_rest in R1, R2. rewrite take_dest in R1, R3.
  assert (Hsrc : ds' src = advance n (ds src)) by (rewrite R4 by done; apply take_src).
  assert (Hcov : cover ds (src :: srcs) = seqZ (d_buffer (ds src)) n ++ addrs (advance n (ds src)) ++ cover ds srcs)
    by (rewrite cover_cons, app_assoc; f_equal; apply addrs_advance; lia).
  (* either the source is used up, or the destination is *)
  assert (Hcase : addrs (advance n (ds src)) = [] \/ amount ds1 srcs dest = 0%nat).
  { destruct (Z.le_ge_cases (bytes_to_xfer (ds src)) (bytes_to_xfer (ds dest))).
    - left. apply addrs_empty. cbn. unfold n. lia.
    - right. unfold amount. rewrite take_dest. cbn. unfold n. lia. }
  assert (Htake : take (amount ds (src :: srcs) dest) (cover ds (src :: srcs)) =
    seqZ (d_buffer (ds src)) n ++ take (amount ds1 srcs dest) (cover ds srcs)).
  { rewrite Ha, Hcov. replace (Z.to_nat n) with (length (seqZ (d_buffer (ds src)) n)) by (by rewrite length_seqZ).
    rewrite take_app_add. destruct Hcase as [-> | ->]; [done|by rewrite !take_0]. }
  assert (Hdrop : drop (amount ds (src :: srcs) dest) (cover ds (src :: srcs)) =
    addrs (advance n (ds src)) ++ drop (amount ds1 srcs dest) (cover ds srcs)).
  { rewrite Ha, Hcov. replace (Z.to_nat n) with (length (seqZ (d_buffer (ds src)) n)) by (by rewrite length_seqZ).
    rewrite drop_app_add. destruct Hcase as [-> | ->]; [done|by rewrite !drop_0]. }
  split.
  - cbv zeta. rewrite Htake. unfold copied in R1. cbn in R1.
    destruct (Z.eqb_spec (d_buffer (ds dest)) NULL) as [E|E]; [by rewrite E in R1|].
    replace (d_buffer (ds dest) + n =? NULL) with false in R1
      by (pose proof (ro_null _ _ _ Hok); unfold NULL in *; lia).
    rewrite Ha. rewrite (seqZ_split _ (Z.of_nat (Z.to_nat n + amount ds1 srcs dest)) n) by lia.
    replace (Z.of_nat (Z.to_nat n + amount ds1 srcs dest) - n) with (Z.of_nat (amount ds1 srcs dest)) by lia.
    eapply moved_app; [apply memcpy_moved|exact R1|..].
    + intros x Hx%elem_of_take. destruct Hx as (j & Hj & _). apply list_elem_of_lookup_2 in Hj.
      rewrite elem_of_region. intros Hr. apply (ro_apart _ _ _ Hok x E).
      * rewrite cover_cons, elem_of_app. by right.
      * unfold addrs. rewrite elem_of_region. lia.
    + intros x. rewrite !elem_of_region. lia.
  - rewrite Hdrop, cover_cons, Hsrc, R2. done.
  - rewrite R3, Ha. unfold advance_dest, upd, set_d_buffer, set_bytes_to_xfer. cbn. f_equal.
    + destruct (Z.eqb_spec (d_buffer (ds dest)) NULL) as [E|E]; [by rewrite E|].
      replace (d_buffer (ds dest) + n =? NULL) with false by (pose proof (ro_null _ _ _ Hok); unfold NULL in *; lia). lia.
    + lia.
  - intros i Hi [? ?]%not_elem_of_cons. rewrite R4 by done. by apply take_other.
  - intros i. rewrite R5. destruct (decide (i = dest)) as [->|]; [by rewrite take_dest|].
    destruct (decide (i = src)) as [->|]; [by rewrite take_src|]. by rewrite take_other.
  - intros i [->|Hi]%elem_of_cons; [rewrite Hsrc; cbn; lia|by apply R6].
  - intros i. etransitivity; [|apply R7]. destruct (decide (i = dest)) as [->|].
    + rewrite take_dest. cbn. destruct (d_buffer (ds dest) =? NULL); lia.
    + destruct (decide (i = src)) as [->|]; [rewrite take_src; cbn; lia|]. by rewrite take_other.
Qed.

End Take.

(** ** What a read does *)

Lemma drained_0 p : index_ok p (read_index p) -> drained 0 p = p.
Proof.
  intros Hi. destruct p as [b s u r w rd wr f]. unfold drained, index_ok, upd, set_bytes_used, set_read_index in *.
  cbn in *. rewrite Z.add_0_r, Z.sub_0_r. f_equal. destruct Hi as [?|[-> ->]]; [by apply Z.mod_small|done].
Qed.

Lemma drained_add p a b : drained b (drained a p) = drained (a + b) p.
Proof.
  destruct p as [bf s u r w rd wr f]. unfold drained, upd, set_bytes_used, set_read_index. cbn. f_equal; [lia|].
  destruct (Z.eq_dec s 0) as [->|]; [rewrite !Zmod_0_r; lia|]. rewrite Z.add_mod_idemp_l by done. f_equal. lia.
Qed.

(** [R] is used space of the ring, [T] are waiting threads. *)
Record sources (k : kernel) (o : pobj) (w : wqid) (R T : list Z) (dest : Z) : Prop := {
  so_thread i : i ∈ T -> exists t, thread (descs o i) = Some t /\ t ∈ waitqs k w;
  so_threads i j t : i ∈ T -> j ∈ T -> thread (descs o i) = Some t -> thread (descs o j) = Some t -> i = j;
  so_none i : i ∈ R -> thread (descs o i) = None;
  so_ring : 0 < bytes_to_xfer (descs o dest) ->
            ring_from (buffer (pipe o)) (size (pipe o)) (descs o) R (read_index (pipe o));
  so_index : index_ok (pipe o) (read_index (pipe o));
  so_empty : size (pipe o) = 0 -> R = []
}.

Record was_read (w : wqid) (R T : list Z) (dest : Z) (k : kernel) (o : pobj) (k' : kernel) (o' : pobj) : Prop := {
  g_data : data_read (R ++ T) dest (descs o) (descs o') (memory o) (memory o');
  g_pipe : pipe o' = drained (Z.of_nat (Nat.min (amount (descs o) (R ++ T) dest) (length (cover (descs o) R)))) (pipe o);
  g_rest : cover (descs o') T =
           drop (amount (descs o) (R ++ T) dest - length (cover (descs o) R)) (cover (descs o) T);
  g_kernel : released w (satisfied (descs o') T) k k'
}.

Lemma data_read_nothing dest ds m :
  0 <= bytes_to_xfer (ds dest) -> data_read [] dest ds ds m m.
Proof.
  intros H. split; try done.
  - unfold amount. cbn. destruct (_ =? NULL); [done|apply moved_nil].
  - unfold amount, advance_dest, upd, set_d_buffer, set_bytes_to_xfer. cbn. rewrite Z.add_0_r, Z.sub_0_r.
    destruct (ds dest) as [b x u]. cbn. f_equal. by destruct (b =? NULL).
  - by intros i ?%elem_of_nil.
Qed.

Lemma read_loop_threads w T dest n0 r0 k o :
  kwf k -> read_ok (descs o) T dest -> sources k o w [] T dest ->
  exists k' o',
    read_loop T dest n0 r0 (k, o) =
      (n0 + Z.of_nat (amount (descs o) T dest), r0 || negb (is_nil (satisfied (descs o') T)), (k', o')) /\
    data_read T dest (descs o) (descs o') (memory o) (memory o') /\ pipe o' = pipe o /\
    released w (satisfied (descs o') T) k k'.
Proof.
  revert n0 r0 k o. induction T as [|src T IH]; intros n0 r0 k o Hk Hok Hso.
  { exists k, o. unfold amount. cbn. rewrite Z.add_0_r, orb_false_r. split; [done|].
    split; [|split; [done|by apply released_nil]]. apply data_read_nothing. apply (ro_pos _ _ _ Hok). by left. }
  pose proof (take_names _ _ _ _ Hok) as (Hne & HsT & HdT & _).
  destruct (so_thread _ _ _ _ _ _ Hso src) as (t & Ht & Hin); [by left|].
  set (n := Z.min (bytes_to_xfer (descs o dest)) (bytes_to_xfer (descs o src))). set (o1 := taken src dest o).
  set (b := bytes_to_xfer (descs o1 src) =? 0). set (k1 := if b then release_thread t k else k).
  assert (Hds : forall i, i ∈ T -> descs o1 i = descs o i).
  { intros i Hi. apply (take_other (descs o) src dest); intros ->; tauto. }
  assert (Hk1 : kwf k1 /\ forall u, u ∈ waitqs k w -> u <> t -> u ∈ waitqs k1 w).
  { unfold k1. destruct b; [|done]. pose proof (release_thread_released w t k Hk Hin) as Hrel. split; [apply Hrel|].
    intros u Hu Hut. rewrite (re_wq _ _ _ _ Hrel). apply list_elem_of_filter. split; [|done].
    by intros ->%list_elem_of_singleton. }
  destruct (IH (n0 + n) (r0 || b) k1 o1) as (k'&o'&Hl&Hd&Hp&Hr).
  { apply Hk1. } { apply (take_ok _ _ _ _ Hok). }
  { split; try done.
    - intros i Hi. destruct (so_thread _ _ _ _ _ _ Hso i) as (u & Hu & Huin); [by right|]. exists u.
      rewrite Hds by done. split; [done|]. apply Hk1; [done|]. intros ->.
      assert (i = src) as -> by (apply (so_threads _ _ _ _ _ _ Hso i src t); [by right|by left|done|done]). done.
    - intros i j u Hi Hj. rewrite !Hds by done. apply (so_threads _ _ _ _ _ _ Hso); by right.
    - by intros i ?%elem_of_nil.
    - apply (so_index _ _ _ _ _ _ Hso). }
  assert (Hsat : satisfied (descs o') (src :: T) = (if b then [t] else []) ++ satisfied (descs o') T).
  { cbn. rewrite (dr_other _ _ _ _ _ _ Hd) by done. fold b. destruct b; [|done].
    replace (thread (descs o1 src)) with (Some t); [done|]. symmetry. rewrite <-Ht.
    unfold o1, taken. cbn. by rewrite (take_src _ _ _ _ Hok). }
  exists k', o'. split_and!.
  - cbn [read_loop]. rewrite (read_pass_thread src dest t k o Hne Ht). fold n o1 b k1. rewrite Hl, Hsat.
    pose proof (take_amount _ _ _ _ Hok) as Ha. pose proof (take_range _ _ _ _ Hok) as Hrg. fold n in Ha, Hrg.
    change (<[dest:=advance_dest n (descs o dest)]> (<[src:=advance n (descs o src)]> (descs o))) with (descs o1) in Ha.
    rewrite Ha. f_equal. f_equal; [lia|]. destruct b; cbn; by rewrite ?orb_true_r, ?orb_false_r.
  - by apply (take_data _ _ _ _ _ Hok).
  - done.
  - rewrite Hsat. by apply released_one.
Qed.

Lemma read_loop_spec w R T dest n0 r0 k o :
  kwf k -> read_ok (descs o) (R ++ T) dest -> sources k o w R T dest ->
  exists k' o',
    read_loop (R ++ T) dest n0 r0 (k, o) =
      (n0 + Z.of_nat (amount (descs o) (R ++ T) dest), r0 || negb (is_nil (satisfied (descs o') T)), (k', o')) /\
    was_read w R T dest k o k' o'.
Proof.
  revert n0 r0 k o. induction R as [|src R IH]; intros n0 r0 k o Hk Hok Hso; cbn [app] in *.
  { destruct (read_loop_threads w T dest n0 r0 k o Hk Hok Hso) as (k'&o'&Hl&Hd&Hp&Hr).
    exists k', o'. split; [done|]. split; [done| | |done]; cbn.
    - rewrite Nat.min_0_r, Hp. symmetry. apply drained_0, Hso.
    - rewrite Nat.sub_0_r. apply Hd. }
  pose proof (take_names _ _ _ _ Hok) as (Hne & HsT & HdT & _).
  pose proof (take_amount _ _ _ _ Hok) as Ha. pose proof (take_range _ _ _ _ Hok) as Hrg.
  set (n := Z.min (bytes_to_xfer (descs o dest)) (bytes_to_xfer (descs o src))) in *.
  set (o1 := (taken src dest o) <| pipe ::= fun p => p <| bytes_used ::= fun u => u - n |>
                                         <| read_index ::= fun i => wrap (size p) (i + n) |> |>).
  change (<[dest:=advance_dest n (descs o dest)]> (<[src:=advance n (descs o src)]> (descs o))) with (descs o1) in Ha.
  assert (Hds : forall i, i ∈ R \/ i ∈ T -> descs o1 i = descs o i).
  { intros i Hi. rewrite <-elem_of_app in Hi. apply (take_other (descs o) src dest); intros ->; tauto. }
  assert (Hdest : descs o1 dest = advance_dest n (descs o dest)) by apply take_dest.
  assert (Hix : 0 <= read_index (pipe o) < size (pipe o)).
  { destruct (so_index _ _ _ _ _ _ Hso) as [|[Hz _]]; [done|]. by pose proof (so_empty _ _ _ _ _ _ Hso Hz). }
  assert (Hseg : 0 < bytes_to_xfer (descs o dest) -> bytes_to_xfer (descs o src) <= size (pipe o) - read_index (pipe o)).
  { intros H. destruct (so_ring _ _ _ _ _ _ Hso H) as (_&_&_&?&_). lia. }
  assert (Hn : read_index (pipe o) + n <= size (pipe o)) by lia.
  assert (Hp1 : pipe o1 = drained n (pipe o)).
  { unfold drained, o1, upd, set_read_index, set_bytes_used, set_pipe. cbn. by rewrite wrap_mod by lia. }
  destruct (IH (n0 + n) (r0 || false) k o1) as (k'&o'&Hl&Hw).
  { done. } { apply (take_ok _ _ _ _ Hok). }
  { split.
    - intros i Hi. rewrite Hds by auto. by apply (so_thread _ _ _ _ _ _ Hso).
    - intros i j u Hi Hj. rewrite !Hds by auto. by apply (so_threads _ _ _ _ _ _ Hso).
    - intros i Hi. rewrite Hds by auto. apply (so_none _ _ _ _ _ _ Hso). by right.
    - rewrite Hdest. intros Hlt. cbn [advance_dest bytes_to_xfer upd set_bytes_to_xfer set_d_buffer] in Hlt.
      destruct (so_ring _ _ _ _ _ _ Hso) as (_&_&_&_&Hrest); [lia|].
      change (ring_from (buffer (pipe o)) (size (pipe o)) (descs o1) R (wrap (size (pipe o)) (read_index (pipe o) + n))).
      apply (ring_from_ext _ _ (descs o)); [by auto|]. by replace n with (bytes_to_xfer (descs o src)) by lia.
    - left. cbn. rewrite wrap_mod by lia. apply Z.mod_pos_bound. lia.
    - intros Hz. cbn in Hz. lia. }
  exists k', o'. split.
  - cbn [read_loop]. rewrite (read_pass_ring src dest k o (so_none _ _ _ _ _ _ Hso src ltac:(by left))).
    fold n. change (_ <| pipe ::= _ |>) with o1. rewrite Hl, Ha, orb_false_r. f_equal. f_equal. lia.
  - destruct Hw as [W1 W2 Wr W3].
    replace (cover (descs o1) R) with (cover (descs o) R) in W2, Wr by (symmetry; apply cover_ext; by auto).
    replace (cover (descs o1) T) with (cover (descs o) T) in Wr by (symmetry; apply cover_ext; by auto).
    assert (Hl0 : n < bytes_to_xfer (descs o src) -> amount (descs o1) (R ++ T) dest = 0%nat).
    { intros Hlt. unfold amount. rewrite Hdest. cbn. lia. }
    assert (Hl1 : length (cover (descs o) (src :: R)) = (Z.to_nat (bytes_to_xfer (descs o src)) + length (cover (descs o) R))%nat)
      by (rewrite cover_cons, length_app; unfold addrs; by rewrite length_seqZ).
    split; [by apply (take_data _ _ _ _ _ Hok)| | |done]; cbn [app]; rewrite Hl1, Ha.
    + rewrite W2, Hp1, drained_add. f_equal. lia.
    + rewrite Wr. f_equal. lia.
Qed.

End Pipes.
