(* ===== verification/PipesThm.v ===== *)
(** The stream of bytes in a pipe.

    The stream is what the ring holds followed by what the waiting writers
    have left to write, in the order of their queue.  A read that does not
    block takes its prefix; a write that does not block gives a prefix of the
    data to the waiting readers and appends the next bytes to the stream.
    Filling the ring from the waiting writers does not change the stream, but
    leaves a writer blocked whose last byte it took. *)
From Stdlib Require Import FunctionalExtensionality.
From S2P Require Import Prelude Mem Timeout Kernel Sched SchedInv SchedApi Demo Pipes.

Module PipesThm.
Import Pipes.

(** ** The ring by its addresses *)

(** [n] addresses of the ring from index [i] on. *)
Definition seg (p : k_pipe) (i n : Z) : list Z := (fun j => buffer p + (i + j) mod size p) <$> seqZ 0 n.
Definition ring_addrs (p : k_pipe) : list Z := seg p (read_index p) (bytes_used p).

Record ring_ok (p : k_pipe) : Prop := {
  ri_size : 0 <= size p;
  ri_used : 0 <= bytes_used p <= size p;
  ri_read : index_ok p (read_index p);
  ri_write : write_index p = (read_index p + bytes_used p) mod size p;
  ri_buffer : 0 < size p -> 0 < buffer p
}.

Lemma seg_length p i n : 0 <= n -> Z.of_nat (length (seg p i n)) = n.
Proof. intros. unfold seg. rewrite length_fmap, length_seqZ. lia. Qed.

Lemma seg_split p i n k : 0 < size p -> 0 <= k <= n -> seg p i n = seg p i k ++ seg p ((i + k) mod size p) (n - k).
Proof.
  intros Hs Hk. unfold seg. rewrite (seqZ_split 0 n k), fmap_app by lia. f_equal.
  apply list_eq. intros j. rewrite !list_lookup_fmap. destruct (decide (Z.of_nat j < n - k)).
  - rewrite !lookup_seqZ_lt by lia. cbn. do 2 f_equal. rewrite Z.add_mod_idemp_l by lia. f_equal. lia.
  - by rewrite !lookup_seqZ_ge by lia.
Qed.

Lemma seg_flat p i n : 0 <= i -> i + n <= size p -> seg p i n = seqZ (buffer p + i) n.
Proof.
  intros Hi Hn. unfold seg. apply list_eq. intros j. rewrite list_lookup_fmap.
  destruct (decide (Z.of_nat j < n)).
  - rewrite !lookup_seqZ_lt by lia. cbn. f_equal. rewrite Z.mod_small; lia.
  - by rewrite !lookup_seqZ_ge by lia.
Qed.

Lemma elem_of_seg p i n x : 0 < size p -> x ∈ seg p i n -> buffer p <= x < buffer p + size p.
Proof.
  intros Hs (j & -> & _)%list_elem_of_fmap. pose proof (Z.mod_pos_bound (i + j) (size p) Hs). lia.
Qed.

Lemma seg_index p i n : size p <> 0 -> seg p (i mod size p) n = seg p i n.
Proof. intros Hs. unfold seg. apply list_fmap_ext. intros _ j _. by rewrite Z.add_mod_idemp_l. Qed.

Lemma seg_NoDup p i n : 0 <= n <= size p -> NoDup (seg p i n).
Proof.
  intros Hn. destruct (Z.eq_dec n 0) as [->|]; [constructor|]. unfold seg. apply NoDup_fmap_2_strong; [|apply NoDup_seqZ].
  intros a b Ha%elem_of_seqZ Hb%elem_of_seqZ H.
  assert ((a - b) mod size p = 0) as Hm.
  { replace (a - b) with ((i + a) - (i + b)) by lia. rewrite Zminus_mod.
    replace ((i + a) mod size p) with ((i + b) mod size p) by lia. by rewrite Z.sub_diag, Z.mod_0_l by lia. }
  apply Z.mod_divide in Hm as [q Hq]; [|lia]. assert (q = 0) as -> by nia. lia.
Qed.

Lemma write_index_ok p : ring_ok p -> index_ok p (write_index p).
Proof.
  intros [H1 H2 H3 H4 H5]. rewrite H4. destruct H3 as [?|[Hz ->]].
  - left. apply Z.mod_pos_bound. lia.
  - right. split; [done|]. rewrite Hz. rewrite Zmod_0_r. lia.
Qed.

Lemma drained_ring c p :
  ring_ok p -> 0 <= c <= bytes_used p ->
  ring_ok (drained c p) /\ ring_addrs (drained c p) = drop (Z.to_nat c) (ring_addrs p).
Proof.
  intros Hok Hc. destruct (Z.eq_dec (size p) 0) as [Hz|Hz].
  { assert (c = 0) as -> by (destruct Hok; lia). rewrite drained_0 by apply Hok. by rewrite drop_0. }
  destruct Hok as [H1 H2 H3 H4 H5]. split.
  - split; cbn; try done; [lia|left; apply (Z.mod_pos_bound (read_index p + c) (size p)); lia|].
    rewrite H4, Z.add_mod_idemp_l by done. f_equal. lia.
  - unfold ring_addrs. change (seg (drained c p)) with (seg p). cbn [read_index bytes_used drained upd set_read_index set_bytes_used].
    rewrite (seg_split p (read_index p) (bytes_used p) c) by lia.
    rewrite drop_app_length'; [done|]. pose proof (seg_length p (read_index p) c ltac:(lia)). lia.
Qed.

Lemma filled_ring c p :
  ring_ok p -> 0 <= c <= size p - bytes_used p ->
  ring_ok (filled c p) /\ ring_addrs (filled c p) = ring_addrs p ++ seg p (write_index p) c.
Proof.
  intros Hok Hc. destruct (Z.eq_dec (size p) 0) as [Hz|Hz].
  { assert (c = 0) as -> by (destruct Hok; lia). rewrite filled_0 by (by apply write_index_ok). by rewrite app_nil_r. }
  destruct Hok as [H1 H2 H3 H4 H5]. split.
  - split; cbn; try done; [lia|]. rewrite H4, Z.add_mod_idemp_l by done. f_equal. lia.
  - unfold ring_addrs. change (seg (filled c p)) with (seg p). cbn [read_index bytes_used filled upd set_write_index set_bytes_used].
    rewrite (seg_split p (read_index p) (bytes_used p + c) (bytes_used p)) by lia. rewrite H4.
    do 2 f_equal. lia.
Qed.

(** ** Descriptors of the ring *)

Definition stack (i : Z) : Prop := i = pipe_desc_0 \/ i = pipe_desc_1.

(** [n] bytes of the ring from index [i] to [e]. *)
Lemma populate_ring l p i e n ds :
  index_ok p i -> 0 < n <= size p -> 0 < buffer p -> e = (i + n) mod size p ->
  exists R ds', pipe_buffer_list_populate l (buffer p) (size p) i e ds = (l ++ R, n, ds') /\
    (forall d, d ∈ R -> stack d) /\ NoDup R /\ R <> [] /\
    ring_from (buffer p) (size p) ds' R i /\ cover ds' R = seg p i n /\
    (forall d, d ∈ R -> 0 < d_buffer (ds' d)) /\
    (forall d, ~ stack d -> ds' d = ds d).
Proof.
  intros Hi Hn Hb ->. assert (Hi' : 0 <= i < size p) by (destruct Hi; lia). unfold pipe_buffer_list_populate.
  destruct (Z.lt_ge_cases (i + n) (size p)) as [Hlt|Hge].
  - rewrite Z.mod_small by lia. replace (i <? i + n) with true by lia. replace (i + n - i) with n by lia.
    exists [pipe_desc_0], (<[pipe_desc_0 := mk_desc (buffer p + i) n None]> ds). split_and!; [done|..].
    + intros d ->%list_elem_of_singleton. by left.
    + apply NoDup_singleton.
    + done.
    + cbn. rewrite fn_lookup_insert. cbn. split_and!; lia || done.
    + cbn. rewrite fn_lookup_insert, app_nil_r, (seg_flat p) by lia. done.
    + intros d ->%list_elem_of_singleton. rewrite fn_lookup_insert. cbn. lia.
    + intros d Hd. rewrite fn_lookup_insert_ne; [done|]. intros <-. apply Hd. by left.
  - assert (Hm : (i + n) mod size p = i + n - size p).
    { rewrite <-(Z.mod_small (i + n - size p) (size p)) by lia.
      replace (i + n) with (i + n - size p + 1 * size p) at 1 by lia. apply Z.mod_add. lia. }
    rewrite Hm. replace (i <? i + n - size p) with false by lia.
    replace (size p - i + (i + n - size p)) with n by lia.
    set (d0 := mk_desc (buffer p + i) (size p - i) None). set (d1 := mk_desc (buffer p) (i + n - size p) None).
    exists [pipe_desc_0; pipe_desc_1], (<[pipe_desc_1 := d1]> (<[pipe_desc_0 := d0]> ds)).
    assert (E0 : (<[pipe_desc_1 := d1]> (<[pipe_desc_0 := d0]> ds)) pipe_desc_0 = d0)
      by (rewrite fn_lookup_insert_ne by done; by rewrite fn_lookup_insert).
    assert (E1 : (<[pipe_desc_1 := d1]> (<[pipe_desc_0 := d0]> ds)) pipe_desc_1 = d1) by (by rewrite fn_lookup_insert).
    split_and!; [done|..].
    + intros d [-> | ->%list_elem_of_singleton]%elem_of_cons; [by left|by right].
    + apply NoDup_cons. split; [by intros ?%list_elem_of_singleton|apply NoDup_singleton].
    + done.
    + cbn [ring_from]. rewrite E0, E1. cbn. replace (i + (size p - i)) with (size p) by lia.
      unfold wrap. rewrite Z.leb_refl, Z.sub_diag. split_and!; lia || done.
    + cbn. rewrite E0, E1, app_nil_r. unfold addrs. cbn. rewrite (seg_split p i n (size p - i)) by lia.
      replace (i + (size p - i)) with (size p) by lia. rewrite Z.mod_same by lia.
      rewrite !seg_flat by lia. do 2 f_equal; lia.
    + intros d [-> | ->%list_elem_of_singleton]%elem_of_cons; rewrite ?E0, ?E1; cbn; lia.
    + intros d Hd. rewrite !fn_lookup_insert_ne; [done| |]; intros <-; apply Hd; [by left|by right].
Qed.

(** ** Waiting threads *)

(** The descriptors of the threads in a queue. *)
Definition waiters (k : kernel) (w : wqid) : list Z := thread_desc <$> waitqs k w.

(** A thread that waits: its [swap_data] is its own descriptor. *)
Definition waiting (k : kernel) (ds : Z -> pipe_desc) (t : tid) : Prop :=
  swap_data (threads k t) = thread_desc t /\ thread (ds (thread_desc t)) = Some t /\
  0 <= bytes_to_xfer (ds (thread_desc t)) /\ 0 < d_buffer (ds (thread_desc t)).

Lemma walk_prefix k ds n W l a :
  (forall t, t ∈ W -> waiting k ds t) ->
  exists W1 W2 st, W = W1 ++ W2 /\
    waitq_walk (pipe_walk_op ds) W (k, mk_walk l n a) =
      (st, (k, mk_walk (l ++ (thread_desc <$> W1)) n (a + Z.of_nat (length (cover ds (thread_desc <$> W1)))))) /\
    (n <= a + Z.of_nat (length (cover ds (thread_desc <$> W1))) \/ W2 = []).
Proof.
  revert l a. induction W as [|t W IH]; intros l a H.
  { exists [], [], 0. cbn. rewrite app_nil_r, Z.add_0_r. by auto. }
  destruct (H t) as (Hsd & _ & Hpos & _); [by left|]. cbn [waitq_walk pipe_walk_op list_ bytes_requested bytes_available].
  rewrite Hsd. assert (Hlen : Z.of_nat (length (addrs (ds (thread_desc t)))) = bytes_to_xfer (ds (thread_desc t)))
    by (by apply length_seqZ').
  destruct (Z.leb_spec n (a + bytes_to_xfer (ds (thread_desc t)))) as [Hle|Hlt].
  - exists [t], W, 1. split; [done|]. cbn [negb Z.eqb fmap list_fmap]. rewrite cover_cons, length_app.
    change (cover ds []) with (@nil Z). cbn [length]. split; [do 3 f_equal; lia|left; lia].
  - destruct (IH (l ++ [thread_desc t]) (a + bytes_to_xfer (ds (thread_desc t)))) as (W1&W2&st&->&Hw&Hc).
    { intros u Hu. apply H. by right. }
    exists (t :: W1), W2, st. split; [done|]. cbn [negb Z.eqb fmap list_fmap]. rewrite Hw, cover_cons, length_app, <-app_assoc.
    split; [do 3 f_equal; lia|]. destruct Hc as [?|?]; [left; lia|by right].
Qed.

Lemma populate_waiters l w n k o :
  (forall t, t ∈ waitqs k w -> waiting k (descs o) t) ->
  exists W1 W2, waitqs k w = W1 ++ W2 /\
    pipe_waiter_list_populate l w n (k, o) =
      (l ++ (thread_desc <$> W1), Z.of_nat (length (cover (descs o) (thread_desc <$> W1)))) /\
    (n <= Z.of_nat (length (cover (descs o) (thread_desc <$> W1))) \/ W2 = []).
Proof.
  intros H. destruct (walk_prefix k (descs o) n (waitqs k w) l 0 H) as (W1&W2&st&HW&Hw&Hc).
  exists W1, W2. split; [done|]. split; [|done]. unfold pipe_waiter_list_populate, z_sched_waitq_walk. cbn [fst snd].
  by rewrite Hw.
Qed.

Lemma thread_desc_inj t u : thread_desc t = thread_desc u -> t = u.
Proof. by intros [= ->]. Qed.

Lemma thread_desc_stack t : ~ stack (thread_desc t).
Proof. by intros [?|?]. Qed.

Lemma waiters_NoDup (W : list tid) : NoDup W -> NoDup (thread_desc <$> W).
Proof. apply NoDup_fmap_2. intros t u. apply thread_desc_inj. Qed.

(** Threads that were woken have nothing left, so that the bytes that wait are
    those of the threads that wait. *)
Lemma cover_released ds (ts W : list tid) :
  (forall t, t ∈ W -> t ∈ ts -> bytes_to_xfer (ds (thread_desc t)) = 0) ->
  cover ds (thread_desc <$> filter (fun t => t ∉ ts) W) = cover ds (thread_desc <$> W).
Proof.
  induction W as [|t W IH]; intros H; [done|]. rewrite filter_cons. cbn [fmap list_fmap]. rewrite cover_cons.
  destruct (decide (t ∉ ts)) as [Ht|Ht].
  - cbn [fmap list_fmap]. rewrite cover_cons, IH; [done|]. intros u Hu. apply H. by right.
  - apply dec_stable in Ht. rewrite (addrs_empty (ds (thread_desc t))) by (apply H; [by left|done]).
    apply IH. intros u Hu. apply H. by right.
Qed.

(** The threads that a list satisfies are those of its descriptors. *)
Lemma elem_of_satisfied ds (W : list tid) t :
  (forall u, u ∈ W -> thread (ds (thread_desc u)) = Some u) ->
  t ∈ satisfied ds (thread_desc <$> W) <-> t ∈ W /\ bytes_to_xfer (ds (thread_desc t)) = 0.
Proof.
  intros H. unfold satisfied. rewrite list_elem_of_omap. split.
  - intros (i & (u & -> & Hu)%list_elem_of_fmap & Hi). destruct (Z.eqb_spec (bytes_to_xfer (ds (thread_desc u))) 0); [|done].
    rewrite (H u Hu) in Hi. by injection Hi as <-.
  - intros [Ht H0]. exists (thread_desc t). split; [apply list_elem_of_fmap; by exists t|]. by rewrite H0, (H t Ht).
Qed.

(** ** Pipes in use *)

Record pipe_base (k : kernel) (o : pobj) : Prop := {
  po_wf : kwf k;
  po_ring : ring_ok (pipe o);
  po_queues : readers (pipe o) <> writers (pipe o);
  po_reader t : t ∈ waitqs k (readers (pipe o)) -> waiting k (descs o) t /\ 0 < bytes_to_xfer (descs o (thread_desc t));
  po_writer t : t ∈ waitqs k (writers (pipe o)) -> waiting k (descs o) t;
  po_apart x : x ∈ cover (descs o) (waiters k (readers (pipe o))) \/ x ∈ cover (descs o) (waiters k (writers (pipe o))) ->
               ~ buffer (pipe o) <= x < buffer (pipe o) + size (pipe o);
  po_distinct : NoDup (cover (descs o) (waiters k (readers (pipe o))));
  po_empty : waitqs k (readers (pipe o)) <> [] ->
             bytes_used (pipe o) = 0 /\ cover (descs o) (waiters k (writers (pipe o))) = []
}.

(** A writer with bytes left waits only for a full ring. *)
Definition pipe_ok (k : kernel) (o : pobj) : Prop :=
  pipe_base k o /\ (cover (descs o) (waiters k (writers (pipe o))) <> [] -> bytes_used (pipe o) = size (pipe o)).

(** The addresses of the bytes in the pipe, and the bytes. *)
Definition stream_addrs (k : kernel) (o : pobj) : list Z :=
  ring_addrs (pipe o) ++ cover (descs o) (waiters k (writers (pipe o))).
Definition stream (k : kernel) (o : pobj) : list Z := memory o <$> stream_addrs k o.

Lemma ring_from_pos buf sz ds R i d : ring_from buf sz ds R i -> d ∈ R -> 0 <= bytes_to_xfer (ds d).
Proof.
  revert i. induction R as [|x R IH]; intros i; [by intros _ ?%elem_of_nil|].
  intros (_&_&_&[? _]&Hr) [->|Hd]%elem_of_cons; [done|]. by eapply IH.
Qed.

(** The free space is that after the used space. *)
Lemma ring_halves p :
  ring_ok p -> 0 < size p ->
  seg p (read_index p) (size p) = ring_addrs p ++ seg p (write_index p) (size p - bytes_used p).
Proof.
  intros [H1 H2 H3 H4 H5] Hs. unfold ring_addrs. rewrite (seg_split p _ (size p) (bytes_used p)) by lia. by rewrite H4.
Qed.

Lemma ring_apart p x :
  ring_ok p -> 0 < size p -> x ∈ ring_addrs p -> x ∉ seg p (write_index p) (size p - bytes_used p).
Proof.
  intros Hok Hs Hx. pose proof (seg_NoDup p (read_index p) (size p) ltac:(lia)) as Hnd.
  rewrite (ring_halves p) in Hnd by done. apply NoDup_app in Hnd as (_ & H & _). by apply H.
Qed.

Lemma ring_region p x :
  ring_ok p -> x ∈ ring_addrs p -> buffer p <= x < buffer p + size p.
Proof.
  intros Hok Hx. destruct (Z.eq_dec (size p) 0) as [Hz|Hz].
  - unfold ring_addrs in Hx. assert (bytes_used p = 0) as H0 by (destruct Hok; lia). rewrite H0 in Hx.
    by apply elem_of_nil in Hx.
  - eapply elem_of_seg; [|done]. destruct Hok. lia.
Qed.

Lemma read_after_write p : ring_ok p -> 0 < size p ->
  read_index p = (write_index p + (size p - bytes_used p)) mod size p.
Proof.
  intros [H1 H2 H3 H4 H5] Hs. rewrite H4, Z.add_mod_idemp_l by lia.
  replace (read_index p + bytes_used p + (size p - bytes_used p)) with (read_index p + 1 * size p) by lia.
  rewrite Z.mod_add by lia. destruct H3 as [?|[? ?]]; [by rewrite Z.mod_small|lia].
Qed.

(** A thread waits in one queue. *)
Lemma waiters_apart k o t u :
  pipe_base k o -> t ∈ waitqs k (readers (pipe o)) -> u ∈ waitqs k (writers (pipe o)) -> thread_desc t <> thread_desc u.
Proof.
  intros Hb Ht Hu ->%thread_desc_inj. pose proof (kwf_base _ (po_wf _ _ Hb)) as Hk.
  apply (kb_wq _ Hk) in Ht, Hu. apply (po_queues _ _ Hb). congruence.
Qed.

Lemma drop_cover_sub (x : Z) n (l : list Z) : x ∈ drop n l -> x ∈ l.
Proof. intros H. rewrite <-(take_drop n l), elem_of_app. by right. Qed.

(** ** Filling the ring from the waiting writers *)

(** What [refill] keeps besides the stream. *)
Record refilled (k : kernel) (o : pobj) (k' : kernel) (o' : pobj) : Prop := {
  rf_ok : pipe_ok k' o';
  rf_kernel : released (writers (pipe o)) [] k k';
  rf_stream : stream k' o' = stream k o;
  rf_desc i : ~ stack i -> i ∉ waiters k (writers (pipe o)) -> descs o' i = descs o i;
  rf_mem x : ~ buffer (pipe o) <= x < buffer (pipe o) + size (pipe o) -> memory o' x = memory o x
}.

Section Refill.
Context (k : kernel) (o : pobj).
Hypothesis Hb : pipe_base k o.
Hypothesis Hroom : bytes_used (pipe o) <> size (pipe o).

Let p := pipe o.
Let free := size p - bytes_used p.

Lemma refill_size : 0 < size p /\ 0 < free.
Proof. destruct (po_ring _ _ Hb) as [? ? _ _ _]. unfold free, p in *. lia. Qed.

(** The copy, from the writers [W1] to the descriptors [R] of the free space. *)
Context (W1 W2 : list tid) (R : list Z) (ds1 : Z -> pipe_desc).
Hypothesis HW : waitqs k (writers p) = W1 ++ W2.
Hypothesis Henough : free <= Z.of_nat (length (cover ds1 (thread_desc <$> W1))) \/ W2 = [].
Hypothesis HRs : forall d, d ∈ R -> stack d.
Hypothesis HRn : NoDup R.
Hypothesis HRr : ring_from (buffer p) (size p) ds1 R (write_index p).
Hypothesis HRc : cover ds1 R = seg p (write_index p) free.
Hypothesis HRb : forall d, d ∈ R -> 0 < d_buffer (ds1 d).
Hypothesis Hds : forall d, ~ stack d -> ds1 d = descs o d.

Let S1 := thread_desc <$> W1.
Let o1 := o <| descs := ds1 |>.

Lemma refill_cover (W : list tid) : cover ds1 (thread_desc <$> W) = cover (descs o) (thread_desc <$> W).
Proof. apply cover_ext. intros i (t & -> & _)%list_elem_of_fmap. apply Hds, thread_desc_stack. Qed.

Lemma refill_writers : cover (descs o) (waiters k (writers p)) = cover ds1 S1 ++ cover ds1 (thread_desc <$> W2).
Proof. unfold waiters. by rewrite HW, fmap_app, cover_app, <-!refill_cover. Qed.

Lemma refill_lists : lists_ok ds1 S1 ([] ++ R).
Proof.
  pose proof refill_size as [Hs Hf]. pose proof (kb_wq_nodup _ (kwf_base _ (po_wf _ _ Hb)) (writers p)) as Hnd.
  rewrite HW in Hnd. apply NoDup_app in Hnd as (Hnd & _). split.
  - apply NoDup_app. split_and!; [by apply waiters_NoDup| |done]. intros i (t & -> & _)%list_elem_of_fmap Hi%HRs.
    by apply (thread_desc_stack t).
  - intros i [(t & -> & Ht)%list_elem_of_fmap|Hi]%elem_of_app; [|by eapply ring_from_pos].
    rewrite Hds by apply thread_desc_stack. apply (po_writer _ _ Hb t). fold p. rewrite HW, elem_of_app. by left.
  - done.
  - intros x Hx Hx'. cbn [app] in Hx'. rewrite HRc in Hx'. apply elem_of_seg in Hx'; [|done].
    apply (po_apart _ _ Hb x); [|done]. right. fold p. rewrite refill_writers, elem_of_app. by left.
  - cbn [app]. rewrite HRc. apply seg_NoDup. destruct (po_ring _ _ Hb). unfold free, p in *. lia.
Qed.

Lemma refill_targets : targets k o1 (writers p) [] R.
Proof.
  split; [by intros ? ?%elem_of_nil|by intros ? ? ? ?%elem_of_nil|done|]. apply write_index_ok, (po_ring _ _ Hb).
Qed.

Context (k' : kernel) (o' : pobj).
Hypothesis Hw : wrote (writers p) S1 [] R k o1 k' o'.

Let A := cover ds1 S1.
Let c := both A (seg p (write_index p) free).

Lemma refill_pipe : pipe o' = filled (Z.of_nat c) p /\ Z.of_nat c <= free.
Proof.
  pose proof refill_size as [Hs Hf]. split.
  - rewrite (w_pipe _ _ _ _ _ _ _ _ Hw). cbn [app]. change (descs o1) with ds1. rewrite HRc. f_equal.
    unfold ring_part. change (cover ds1 []) with (@nil Z). cbn [length]. fold A c. lia.
  - pose proof (seg_length p (write_index p) free ltac:(lia)). unfold c, both. lia.
Qed.

Lemma refill_cover' : cover (descs o') (waiters k' (writers p)) = drop c A ++ cover ds1 (thread_desc <$> W2).
Proof.
  destruct Hw as [[_ D2 _ D4 _ _ _] _ _ Hr]. unfold waiters. rewrite (re_wq _ _ _ _ Hr). cbn [satisfied omap list_omap].
  rewrite filter_nothing, HW, fmap_app, cover_app. change (descs o1) with ds1 in *. cbn [app] in *. rewrite HRc in D2.
  fold S1. f_equal; [exact D2|]. apply cover_ext. intros i (t & -> & Ht)%list_elem_of_fmap. apply D4.
  rewrite elem_of_app. intros [(u & Hu & Hin)%list_elem_of_fmap|Hi%HRs]; [|by apply (thread_desc_stack t)].
  apply thread_desc_inj in Hu. subst u.
  pose proof (kb_wq_nodup _ (kwf_base _ (po_wf _ _ Hb)) (writers p)) as Hnd. rewrite HW in Hnd.
  apply NoDup_app in Hnd as (_ & Hx & _). by apply (Hx t).
Qed.

Lemma refill_memory : moved (memory o) (memory o') (take c A) (seg p (write_index p) (Z.of_nat c)).
Proof.
  pose proof refill_size as [Hs Hf]. pose proof refill_pipe as [_ Hc].
  destruct Hw as [[D1 _ _ _ _ _ _] _ _ _]. cbn [app] in D1. change (descs o1) with ds1 in D1. rewrite HRc in D1.
  cbv zeta in D1. fold A c in D1. rewrite (seg_split p (write_index p) free (Z.of_nat c)), take_app_length' in D1 by
    (try lia; pose proof (seg_length p (write_index p) (Z.of_nat c)); lia). done.
Qed.

Lemma refill_stream : stream k' o' = stream k o.
Proof.
  pose proof refill_size as [Hs Hf]. pose proof refill_pipe as [Hp Hc]. pose proof refill_memory as Hm.
  assert (Hr := po_ring _ _ Hb). fold p in Hr.
  destruct (filled_ring (Z.of_nat c) p Hr ltac:(unfold free in *; lia)) as [_ Hra].
  unfold stream, stream_addrs. rewrite Hp, Hra. change (writers (filled (Z.of_nat c) p)) with (writers p).
  rewrite refill_cover'. fold p. rewrite refill_writers. fold A. rewrite <-(take_drop c A) at 2.
  rewrite <-!app_assoc, !fmap_app. assert (Hout : forall x, x ∈ A ++ cover ds1 (thread_desc <$> W2) ->
    x ∉ seg p (write_index p) (Z.of_nat c)).
  { intros x Hx Hx'. apply elem_of_seg in Hx'; [|done]. apply (po_apart _ _ Hb x); [|done].
    right. fold p. by rewrite refill_writers. }
  f_equal; [|f_equal; [|f_equal]].
  - eapply moved_other; [done|]. intros x Hx Hx'. apply (ring_apart p x Hr Hs Hx). fold free.
    rewrite (seg_split p (write_index p) free (Z.of_nat c)) by lia. rewrite elem_of_app. by left.
  - apply Hm.
  - eapply moved_other; [done|]. intros x Hx. apply Hout. rewrite elem_of_app. left. by eapply drop_cover_sub.
  - eapply moved_other; [done|]. intros x Hx. apply Hout. rewrite elem_of_app. by right.
Qed.

Lemma refill_desc i : ~ stack i -> i ∉ waiters k (writers p) -> descs o' i = descs o i.
Proof.
  intros Hs Hi. destruct Hw as [[_ _ _ D4 _ _ _] _ _ _]. rewrite D4, <-Hds; [done|done|].
  cbn [app]. rewrite elem_of_app. intros [Hx|Hx%HRs]; [|done]. apply Hi. unfold waiters. rewrite HW, fmap_app, elem_of_app. by left.
Qed.

Lemma refill_same_queues w : waitqs k' w = waitqs k w.
Proof.
  destruct Hw as [_ _ _ Hr]. destruct (decide (w = writers p)) as [->|]; [|by apply (re_wqs _ _ _ _ Hr)].
  rewrite (re_wq _ _ _ _ Hr). apply filter_nothing.
Qed.

Lemma refill_readers : cover (descs o') (waiters k' (readers p)) = cover (descs o) (waiters k (readers p)).
Proof.
  unfold waiters. rewrite refill_same_queues. apply cover_ext. intros i (t & -> & Ht)%list_elem_of_fmap.
  apply refill_desc; [apply thread_desc_stack|]. intros (u & Hu & Hin)%list_elem_of_fmap. by apply (waiters_apart k o t u Hb Ht Hin).
Qed.

Lemma refill_waiting w t : waiting k (descs o) t -> t ∈ waitqs k w -> waiting k' (descs o') t.
Proof.
  intros (E1 & E2 & E3 & E4) Ht. destruct Hw as [[_ _ _ D4 D5 D6 D7] _ _ Hr]. change (descs o1) with ds1 in *.
  pose proof (Hds (thread_desc t) (thread_desc_stack t)) as E. split_and!.
  - by rewrite (re_data _ _ _ _ Hr).
  - by rewrite D5, E.
  - destruct (decide (thread_desc t ∈ S1 ++ [] ++ R)) as [Hi|Hi]; [by apply D6|]. by rewrite D4, E.
  - pose proof (D7 (thread_desc t)). rewrite E in *. lia.
Qed.

Lemma refill_base : pipe_base k' o'.
Proof.
  pose proof refill_pipe as [Hp Hc]. pose proof refill_size as [Hs Hf]. assert (Hr := po_ring _ _ Hb). fold p in Hr.
  pose proof (filled_ring (Z.of_nat c) p Hr ltac:(unfold free in *; lia)) as [Hrok _].
  assert (Hrd : readers (pipe o') = readers p) by (by rewrite Hp). assert (Hwr : writers (pipe o') = writers p) by (by rewrite Hp).
  split; rewrite ?Hrd, ?Hwr.
  - apply Hw.
  - by rewrite Hp.
  - apply (po_queues _ _ Hb).
  - intros t. rewrite refill_same_queues. intros Ht. destruct (po_reader _ _ Hb t Ht) as [Hwt Hpos].
    split; [by eapply refill_waiting|]. rewrite refill_desc; [done|apply thread_desc_stack|].
    intros (u & Hu & Hin)%list_elem_of_fmap. by apply (waiters_apart k o t u Hb Ht Hin).
  - intros t. rewrite refill_same_queues. intros Ht. eapply refill_waiting; [|done]. by apply (po_writer _ _ Hb).
  - intros x. rewrite refill_readers, refill_cover', Hp. intros Hx. apply (po_apart _ _ Hb x). fold p.
    rewrite refill_writers. destruct Hx as [?|[Hx%drop_cover_sub|Hx]%elem_of_app]; [by left|right; rewrite elem_of_app..];
      [by left|by right].
  - rewrite refill_readers. apply (po_distinct _ _ Hb).
  - rewrite refill_same_queues, refill_cover', Hp. intros Hne. destruct (po_empty _ _ Hb Hne) as [H0 Hcov]. fold p in H0, Hcov.
    rewrite refill_writers in Hcov. apply app_nil in Hcov as [HA HB]. fold A in HA.
    assert (c = 0%nat) as -> by (unfold c, both; by rewrite HA). rewrite HA, HB. cbn. split; [lia|done].
Qed.

Lemma refill_full :
  cover (descs o') (waiters k' (writers (pipe o'))) <> [] -> bytes_used (pipe o') = size (pipe o').
Proof.
  pose proof refill_pipe as [Hp Hc]. pose proof refill_size as [Hs Hf]. rewrite Hp.
  change (writers (filled (Z.of_nat c) p)) with (writers p). rewrite refill_cover'. intros Hne.
  pose proof (seg_length p (write_index p) free ltac:(lia)) as Hl.
  assert (Z.of_nat c = free) as Heq; [|cbn; unfold free in Heq; lia].
  destruct Henough as [He|He].
  - fold S1 A in He. unfold c, both. lia.
  - subst W2. destruct (Nat.le_gt_cases (length A) c) as [HA|HA]; [|unfold c, both in *; lia].
    exfalso. apply Hne. by rewrite drop_ge.
Qed.

End Refill.

Lemma refill_spec r k o :
  pipe_base k o -> exists k' o', refill r (k, o) = (r, (k', o')) /\ refilled k o k' o'.
Proof.
  intros Hb. unfold refill. cbn [fst snd]. destruct (Z.eqb_spec (bytes_used (pipe o)) (size (pipe o))) as [He|He]; cbn [negb].
  { exists k, o. split; [done|]. split; try done. apply released_nil, Hb. }
  destruct (populate_waiters [] (writers (pipe o)) (size (pipe o) - bytes_used (pipe o)) k o (po_writer _ _ Hb))
    as (W1&W2&HW&Hpop&Henough). rewrite Hpop.
  destruct (refill_size k o Hb He) as [Hs Hf]. assert (Hr := po_ring _ _ Hb).
  destruct (populate_ring [] (pipe o) (write_index (pipe o)) (read_index (pipe o)) (size (pipe o) - bytes_used (pipe o)) (descs o))
    as (R&ds1&Hring&HRs&HRn&HRne&HRr&HRc&HRb&Hds).
  { by apply write_index_ok. } { destruct Hr. lia. } { by apply (ri_buffer _ Hr). } { by apply read_after_write. }
  rewrite Hring. cbn [app].
  assert (Hen : size (pipe o) - bytes_used (pipe o) <= Z.of_nat (length (cover ds1 (thread_desc <$> W1))) \/ W2 = [])
    by (by rewrite (refill_cover o ds1 Hds W1)).
  destruct (write_loop_spec (writers (pipe o)) (length (thread_desc <$> W1) + length R) (thread_desc <$> W1) [] R 0 r k
    (o <| descs := ds1 |>)) as (k'&o'&Hl&Hw).
  { done. } { apply Hb. } { eapply refill_lists; done. } { eapply refill_targets; done. }
  unfold pipe_write. cbn [app] in Hl. rewrite Hl. cbn. rewrite orb_false_r. exists k', o'. split; [done|]. split.
  - split; [eapply refill_base; done|eapply refill_full; done].
  - apply Hw.
  - eapply refill_stream; done.
  - eapply refill_desc; done.
  - intros x Hx. pose proof (refill_memory k o Hb He W1 R ds1 HRc k' o' Hw) as [_ Hm]. apply Hm.
    intros Hin%elem_of_seg; done.
Qed.

(** ** Reading *)

(** The sources of a read: the used space of the ring, and the first writers. *)
Record read_sources (k : kernel) (o : pobj) (n : Z) (R : list Z) (W1 W2 : list tid) (ds1 : Z -> pipe_desc) : Prop := {
  rs_queue : waitqs k (writers (pipe o)) = W1 ++ W2;
  rs_enough : n <= Z.of_nat (length (cover (descs o) (thread_desc <$> W1))) \/ W2 = [];
  rs_stack d : d ∈ R -> stack d;
  rs_nodup : NoDup R;
  rs_ring : ring_from (buffer (pipe o)) (size (pipe o)) ds1 R (read_index (pipe o));
  rs_cover : cover ds1 R = ring_addrs (pipe o);
  rs_empty : size (pipe o) = 0 -> R = [];
  rs_descs d : ~ stack d -> ds1 d = descs o d
}.

Lemma get_srcs_spec k o n :
  pipe_base k o ->
  exists R W1 W2 ds1, read_sources k o n R W1 W2 ds1 /\
    get_srcs n (k, o) =
      (R ++ (thread_desc <$> W1),
       Z.of_nat (length (ring_addrs (pipe o))) + Z.of_nat (length (cover (descs o) (thread_desc <$> W1))),
       (k, o <| descs := ds1 |>)).
Proof.
  intros Hb. assert (Hr := po_ring _ _ Hb). unfold get_srcs. cbn [fst snd].
  destruct (Z.eqb_spec (bytes_used (pipe o)) 0) as [H0|H0]; cbn [negb].
  - destruct (populate_waiters [] (writers (pipe o)) n k o (po_writer _ _ Hb)) as (W1&W2&HW&Hpop&Hen). rewrite Hpop.
    assert (Hra : ring_addrs (pipe o) = []) by (unfold ring_addrs; by rewrite H0).
    exists [], W1, W2, (descs o). rewrite Hra. split; [|by destruct o].
    split; try done; [by intros ? ?%elem_of_nil|constructor].
  - assert (Hs : 0 < size (pipe o)) by (destruct Hr; lia).
    destruct (populate_ring [] (pipe o) (read_index (pipe o)) (write_index (pipe o)) (bytes_used (pipe o)) (descs o))
      as (R&ds1&Hring&HRs&HRn&HRne&HRr&HRc&HRb&Hds).
    { apply Hr. } { destruct Hr. lia. } { by apply (ri_buffer _ Hr). } { apply Hr. }
    rewrite Hring. cbn [app fst snd]. set (o1 := o <| descs := ds1 |>).
    destruct (populate_waiters R (writers (pipe o)) n k o1) as (W1&W2&HW&Hpop&Hen).
    { intros t Ht. destruct (po_writer _ _ Hb t Ht) as (?&?&?&?). unfold waiting. cbn.
      rewrite Hds by apply thread_desc_stack. done. }
    rewrite Hpop. cbn [descs o1 upd set_descs] in *. rewrite (refill_cover o ds1 Hds W1) in *.
    exists R, W1, W2, ds1. split; [split; try done; intros Hz; lia|].
    assert (Z.of_nat (length (ring_addrs (pipe o))) = bytes_used (pipe o)) as ->; [|done].
    apply seg_length. destruct Hr. lia.
Qed.

(** The thread that runs does not wait, nor does an interrupt. *)
Definition own_desc (k : kernel) : Z := if in_isr k then isr_desc else thread_desc (current k).

Lemma own_desc_apart k w : kwf k -> own_desc k ∉ waiters k w /\ ~ stack (own_desc k).
Proof.
  intros Hk. unfold own_desc. destruct (in_isr k); (split; [|by intros [?|?]]).
  - by intros (t & Ht & _)%list_elem_of_fmap.
  - intros (t & <-%thread_desc_inj & Hin)%list_elem_of_fmap. apply (kb_wq _ (kwf_base _ Hk)) in Hin.
    by rewrite (kc_pended _ (kwf_cur _ Hk)) in Hin.
Qed.

(** Where a read may put its data: nowhere, or outside of the pipe. *)
Definition dest_ok (k : kernel) (o : pobj) (data n : Z) : Prop :=
  0 <= data /\ 0 <= n /\
  (data <> NULL -> forall x, data <= x < data + n ->
     ~ (buffer (pipe o) <= x < buffer (pipe o) + size (pipe o)) /\ x ∉ cover (descs o) (waiters k (writers (pipe o)))).

Section Get.
Context (k : kernel) (o : pobj) (data n : Z).
Hypothesis Hb : pipe_base k o.
Hypothesis Hdest : dest_ok k o data n.
Context (R : list Z) (W1 W2 : list tid) (ds1 : Z -> pipe_desc).
Hypothesis Hsrc : read_sources k o n R W1 W2 ds1.

Let p := pipe o.
Let dest := own_desc k.
Let S1 := thread_desc <$> W1.
Let ds2 := <[dest := mk_desc data n (Some (current k))]> ds1.
Let o2 := o <| descs := ds2 |>.

Lemma get_descs d : ~ stack d -> d <> dest -> ds2 d = descs o d.
Proof. intros Hs Hd. unfold ds2. rewrite fn_lookup_insert_ne by done. by apply (rs_descs _ _ _ _ _ _ _ Hsrc). Qed.

Lemma get_waiter w t : t ∈ waitqs k w -> ds2 (thread_desc t) = descs o (thread_desc t).
Proof.
  intros Ht. apply get_descs; [apply thread_desc_stack|]. intros E.
  destruct (own_desc_apart k w (po_wf _ _ Hb)) as [Hx _]. apply Hx. fold dest. rewrite <-E.
  apply list_elem_of_fmap. by exists t.
Qed.

Lemma get_cover w W : (forall t, t ∈ W -> t ∈ waitqs k w) -> cover ds2 (thread_desc <$> W) = cover (descs o) (thread_desc <$> W).
Proof. intros HW. apply cover_ext. intros i (t & -> & Ht)%list_elem_of_fmap. by apply (get_waiter w), HW. Qed.

Lemma get_W1 t : t ∈ W1 -> t ∈ waitqs k (writers p).
Proof. intros Ht. unfold p. rewrite (rs_queue _ _ _ _ _ _ _ Hsrc), elem_of_app. by left. Qed.

Lemma get_ring_cover : cover ds2 R = ring_addrs p.
Proof.
  unfold p. rewrite <-(rs_cover _ _ _ _ _ _ _ Hsrc). apply cover_ext. intros d Hd. unfold ds2.
  rewrite fn_lookup_insert_ne; [done|]. intros <-. apply (own_desc_apart k (writers p) (po_wf _ _ Hb)).
  by apply (rs_stack _ _ _ _ _ _ _ Hsrc).
Qed.

Lemma get_ring_same d : d ∈ R -> ds2 d = ds1 d.
Proof.
  intros Hd. unfold ds2. rewrite fn_lookup_insert_ne; [done|]. intros <-.
  apply (own_desc_apart k (writers p) (po_wf _ _ Hb)). by apply (rs_stack _ _ _ _ _ _ _ Hsrc).
Qed.

Lemma get_dest : ds2 dest = mk_desc data n (Some (current k)).
Proof. apply fn_lookup_insert. Qed.

Lemma get_read_ok : read_ok ds2 (R ++ S1) dest.
Proof.
  destruct (own_desc_apart k (writers p) (po_wf _ _ Hb)) as [Hdw Hds]. destruct Hdest as (Hd0 & Hn0 & Hda).
  pose proof (kb_wq_nodup _ (kwf_base _ (po_wf _ _ Hb)) (writers p)) as Hnd. unfold p in Hnd.
  rewrite (rs_queue _ _ _ _ _ _ _ Hsrc) in Hnd. apply NoDup_app in Hnd as (HndW & _).
  assert (HS1 : forall i, i ∈ S1 -> exists t, i = thread_desc t /\ t ∈ waitqs k (writers p)).
  { intros i (t & -> & Ht)%list_elem_of_fmap. exists t. split; [done|]. by apply get_W1. }
  split.
  - apply NoDup_cons. split.
    + rewrite elem_of_app. intros [Hx%(rs_stack _ _ _ _ _ _ _ Hsrc)|(t & E & Ht)%HS1]; [done|].
      apply Hdw. fold dest. rewrite E. apply list_elem_of_fmap. by exists t.
    + apply NoDup_app. split_and!; [apply Hsrc| |by apply waiters_NoDup].
      intros i Hi%(rs_stack _ _ _ _ _ _ _ Hsrc) (t & -> & _)%HS1. by apply (thread_desc_stack t).
  - intros i [->|[Hi|(t & -> & Ht)%HS1]%elem_of_app]%elem_of_cons.
    + by rewrite get_dest.
    + rewrite get_ring_same by done. eapply ring_from_pos; [apply Hsrc|done].
    + rewrite (get_waiter (writers p)) by done. by apply (po_writer _ _ Hb).
  - by rewrite get_dest.
  - rewrite get_dest. cbn. intros x Hne. unfold S1. rewrite cover_app, get_ring_cover, (get_cover (writers p)) by apply get_W1.
    unfold addrs. cbn. rewrite elem_of_region. intros Hx Hr. destruct (Hda Hne x Hr) as [H1 H2].
    apply elem_of_app in Hx as [Hx|Hx]; [by apply H1, ring_region; [apply Hb|]|].
    apply H2. unfold waiters. rewrite (rs_queue _ _ _ _ _ _ _ Hsrc), fmap_app, cover_app, elem_of_app. by left.
Qed.

Lemma get_sources : sources k o2 (writers p) R S1 dest.
Proof.
  split; cbn [descs o2 upd set_descs].
  - intros i (t & -> & Ht)%list_elem_of_fmap. exists t. rewrite (get_waiter (writers p)) by (by apply get_W1).
    split; [apply (po_writer _ _ Hb)|]; by apply get_W1.
  - intros i j u (t & -> & Ht)%list_elem_of_fmap (v & -> & Hv)%list_elem_of_fmap.
    rewrite !(get_waiter (writers p)) by (by apply get_W1).
    destruct (po_writer _ _ Hb t (get_W1 t Ht)) as (_&->&_). destruct (po_writer _ _ Hb v (get_W1 v Hv)) as (_&->&_). congruence.
  - intros i Hi. rewrite get_ring_same by done. pose proof (rs_ring _ _ _ _ _ _ _ Hsrc) as Hr. revert Hi Hr.
    generalize (read_index (pipe o)). generalize R. clear. intros R. induction R as [|d R IH]; [by intros ? ?%elem_of_nil|].
    intros j [->|Hi]%elem_of_cons (Ht&_&_&_&Hr); [done|]. by eapply IH.
  - intros _. apply (ring_from_ext _ _ ds1); [by apply get_ring_same|]. apply Hsrc.
  - apply (po_ring _ _ Hb).
  - apply Hsrc.
Qed.

Context (k' : kernel) (o' : pobj).
Hypothesis Hread : was_read (writers p) R S1 dest k o2 k' o'.

Let c := amount ds2 (R ++ S1) dest.
Let C := cover (descs o) (waiters k (writers p)).

Lemma get_C : C = cover (descs o) (thread_desc <$> W1) ++ cover (descs o) (thread_desc <$> W2).
Proof. unfold C, waiters, p. by rewrite (rs_queue _ _ _ _ _ _ _ Hsrc), fmap_app, cover_app. Qed.

Lemma get_cover_all : cover ds2 (R ++ S1) = ring_addrs p ++ cover (descs o) (thread_desc <$> W1).
Proof. unfold S1. by rewrite cover_app, get_ring_cover, (get_cover (writers p)) by apply get_W1. Qed.

Lemma get_amount : Z.of_nat c = Z.min (Z.of_nat (length (stream_addrs k o))) n.
Proof.
  unfold c, amount, stream_addrs. fold p C. rewrite get_cover_all, get_dest, get_C, !length_app. cbn [bytes_to_xfer].
  destruct Hdest as (_&?&_). destruct (rs_enough _ _ _ _ _ _ _ Hsrc) as [?|E]; [lia|].
  rewrite E. change (cover (descs o) (thread_desc <$> [])) with (@nil Z). cbn [length]. lia.
Qed.

Lemma get_short : (c - length (ring_addrs p) <= length (cover (descs o) (thread_desc <$> W1)))%nat.
Proof. unfold c, amount. rewrite get_cover_all, length_app. lia. Qed.

Lemma get_pipe : pipe o' = drained (Z.of_nat (Nat.min c (length (ring_addrs p)))) p.
Proof. rewrite (g_pipe _ _ _ _ _ _ _ _ Hread). change (descs o2) with ds2. by rewrite get_ring_cover. Qed.

Lemma get_ring : ring_ok (pipe o') /\ ring_addrs (pipe o') = drop c (ring_addrs p).
Proof.
  assert (Hr := po_ring _ _ Hb). fold p in Hr.
  pose proof (seg_length p (read_index p) (bytes_used p) ltac:(destruct Hr; lia)) as Hl. fold (ring_addrs p) in Hl.
  rewrite get_pipe. destruct (drained_ring (Z.of_nat (Nat.min c (length (ring_addrs p)))) p Hr ltac:(lia)) as [H1 H2].
  split; [done|]. rewrite H2, Nat2Z.id. destruct (Nat.le_gt_cases c (length (ring_addrs p))).
  - by rewrite Nat.min_l.
  - rewrite Nat.min_r, !drop_ge by lia. done.
Qed.

Lemma get_other t : t ∈ waitqs k (writers p) -> t ∉ W1 -> descs o' (thread_desc t) = descs o (thread_desc t).
Proof.
  intros Ht Hn. rewrite (dr_other _ _ _ _ _ _ (g_data _ _ _ _ _ _ _ _ Hread)).
  - by apply (get_waiter (writers p)).
  - intros E. apply (proj1 (own_desc_apart k (writers p) (po_wf _ _ Hb))). fold dest. rewrite <-E. apply list_elem_of_fmap. by exists t.
  - rewrite elem_of_app. intros [Hx%(rs_stack _ _ _ _ _ _ _ Hsrc)|(u & <-%thread_desc_inj & Hu)%list_elem_of_fmap]; [|done].
    by apply (thread_desc_stack t).
Qed.

Lemma get_threads t : t ∈ waitqs k (writers p) -> thread (descs o' (thread_desc t)) = Some t.
Proof.
  intros Ht. rewrite (dr_thread _ _ _ _ _ _ (g_data _ _ _ _ _ _ _ _ Hread)). change (descs o2) with ds2.
  rewrite (get_waiter (writers p)) by done. by apply (po_writer _ _ Hb).
Qed.

Lemma get_covers : cover (descs o') (waiters k' (writers p)) = drop (c - length (ring_addrs p)) C.
Proof.
  unfold waiters. rewrite (re_wq _ _ _ _ (g_kernel _ _ _ _ _ _ _ _ Hread)), cover_released.
  - unfold p at 1. rewrite (rs_queue _ _ _ _ _ _ _ Hsrc), fmap_app, cover_app, get_C. fold S1.
    rewrite (g_rest _ _ _ _ _ _ _ _ Hread). change (descs o2) with ds2. rewrite get_ring_cover. fold c.
    unfold S1. rewrite (get_cover (writers p)) by apply get_W1.
    rewrite drop_app_le by apply get_short. f_equal. apply cover_ext. intros i (t & -> & Ht)%list_elem_of_fmap.
    pose proof (kb_wq_nodup _ (kwf_base _ (po_wf _ _ Hb)) (writers p)) as Hnd.
    unfold p in Hnd. rewrite (rs_queue _ _ _ _ _ _ _ Hsrc) in Hnd. apply NoDup_app in Hnd as (_ & Hx & _).
    apply get_other; [unfold p; rewrite (rs_queue _ _ _ _ _ _ _ Hsrc), elem_of_app; by right|]. intros Hw. by apply (Hx t).
  - intros t Ht Hs. apply elem_of_satisfied in Hs; [tauto|]. intros u Hu. by apply get_threads, get_W1.
Qed.

Lemma get_stream_addrs : stream_addrs k' o' = drop c (stream_addrs k o).
Proof.
  unfold stream_addrs. rewrite (proj2 get_ring), get_pipe. change (writers (drained _ p)) with (writers p).
  rewrite get_covers. fold p C. by rewrite drop_app.
Qed.

Lemma get_memory :
  (data = NULL -> memory o' = memory o) /\
  (data <> NULL -> moved (memory o) (memory o') (take c (stream_addrs k o)) (seqZ data (Z.of_nat c))).
Proof.
  pose proof (dr_mem _ _ _ _ _ _ (g_data _ _ _ _ _ _ _ _ Hread)) as Hm. cbv zeta in Hm. change (descs o2) with ds2 in Hm.
  fold c in Hm. rewrite get_dest in Hm. cbn [d_buffer] in Hm.
  destruct (Z.eqb_spec data NULL) as [E|E]; [by split|]. split; [done|]. intros _.
  replace (take c (stream_addrs k o)) with (take c (cover ds2 (R ++ S1))); [done|].
  rewrite get_cover_all. unfold stream_addrs. fold p C. rewrite get_C, app_assoc, (take_app_le (ring_addrs p ++ cover (descs o) (thread_desc <$> W1))); [done|].
  rewrite length_app. pose proof get_short. lia.
Qed.

Lemma get_outside x : data <> NULL -> data <= x < data + n -> x ∉ stream_addrs k o.
Proof.
  intros Hne Hx. destruct Hdest as (_&_&Hd). destruct (Hd Hne x Hx) as [H1 H2]. unfold stream_addrs.
  rewrite elem_of_app. intros [Hr|?]; [|done]. by apply H1, ring_region; [apply Hb|].
Qed.

Lemma get_values x : x ∈ stream_addrs k o -> memory o' x = memory o x.
Proof.
  intros Hx. destruct get_memory as [H1 H2]. destruct (Z.eq_dec data NULL) as [E|E]; [by rewrite H1|].
  apply (proj2 (H2 E)). rewrite elem_of_region. intros Hr. apply (get_outside x E); [|done].
  pose proof get_amount. lia.
Qed.

Lemma get_stream : stream k' o' = drop c (stream k o).
Proof.
  unfold stream. rewrite get_stream_addrs, fmap_drop. f_equal. apply values_ext. intros x Hx. by apply get_values.
Qed.

Lemma get_reader t : t ∈ waitqs k (readers p) -> descs o' (thread_desc t) = descs o (thread_desc t).
Proof.
  intros Ht. rewrite (dr_other _ _ _ _ _ _ (g_data _ _ _ _ _ _ _ _ Hread)).
  - by apply (get_waiter (readers p)).
  - intros E. apply (proj1 (own_desc_apart k (readers p) (po_wf _ _ Hb))). fold dest. rewrite <-E. apply list_elem_of_fmap. by exists t.
  - rewrite elem_of_app. intros [Hx%(rs_stack _ _ _ _ _ _ _ Hsrc)|(u & E & Hu)%list_elem_of_fmap].
    + by apply (thread_desc_stack t).
    + by apply (waiters_apart k o t u Hb Ht (get_W1 u Hu)).
Qed.

Lemma get_readers_queue : waitqs k' (readers p) = waitqs k (readers p).
Proof. apply (re_wqs _ _ _ _ (g_kernel _ _ _ _ _ _ _ _ Hread)). apply (po_queues _ _ Hb). Qed.

Lemma get_readers_cover : cover (descs o') (waiters k' (readers p)) = cover (descs o) (waiters k (readers p)).
Proof.
  unfold waiters. rewrite get_readers_queue. apply cover_ext. intros i (t & -> & Ht)%list_elem_of_fmap. by apply get_reader.
Qed.

Lemma get_writer t : t ∈ waitqs k' (writers p) -> waiting k' (descs o') t.
Proof.
  pose proof (g_kernel _ _ _ _ _ _ _ _ Hread) as Hrel. rewrite (re_wq _ _ _ _ Hrel).
  intros [_ Ht]%list_elem_of_filter. destruct (po_writer _ _ Hb t Ht) as (E1&E2&E3&E4). split_and!.
  - by rewrite (re_data _ _ _ _ Hrel).
  - by apply get_threads.
  - destruct (decide (t ∈ W1)) as [Hw|Hw]; [|by rewrite get_other].
    apply (dr_pos _ _ _ _ _ _ (g_data _ _ _ _ _ _ _ _ Hread)). rewrite elem_of_app. right. apply list_elem_of_fmap. by exists t.
  - pose proof (dr_buf _ _ _ _ _ _ (g_data _ _ _ _ _ _ _ _ Hread) (thread_desc t)) as Hbuf. change (descs o2) with ds2 in Hbuf.
    rewrite (get_waiter (writers p)) in Hbuf by done. lia.
Qed.

Lemma get_base : pipe_base k' o'.
Proof.
  destruct get_ring as [Hrok _]. assert (Hp := get_pipe).
  assert (Hrd : readers (pipe o') = readers p) by (by rewrite Hp). assert (Hwr : writers (pipe o') = writers p) by (by rewrite Hp).
  split; rewrite ?Hrd, ?Hwr.
  - apply (g_kernel _ _ _ _ _ _ _ _ Hread).
  - done.
  - apply (po_queues _ _ Hb).
  - intros t. rewrite get_readers_queue. intros Ht. destruct (po_reader _ _ Hb t Ht) as [(E1&E2&E3&E4) Hpos].
    unfold waiting. rewrite (get_reader t Ht), (re_data _ _ _ _ (g_kernel _ _ _ _ _ _ _ _ Hread)). done.
  - apply get_writer.
  - intros x. rewrite get_readers_cover, get_covers, Hp. intros Hx. apply (po_apart _ _ Hb x).
    destruct Hx as [?|Hx%drop_cover_sub]; [by left|by right].
  - rewrite get_readers_cover. apply (po_distinct _ _ Hb).
  - rewrite get_readers_queue, get_covers, Hp. intros Hne. destruct (po_empty _ _ Hb Hne) as [H0 HC].
    fold p C in H0, HC. rewrite HC, drop_nil. split; [|done].
    assert (Hl : ring_addrs p = []) by (unfold ring_addrs; by rewrite H0). rewrite Hl. cbn [length]. rewrite Nat.min_0_r.
    cbn. lia.
Qed.

End Get.

(** The outcome of a read of [c] bytes to [data]. *)
Record took (k : kernel) (o : pobj) (data c : Z) (k' : kernel) (o' : pobj) : Prop := {
  tk_ok : pipe_ok k' o';
  tk_stream : stream k' o' = drop (Z.to_nat c) (stream k o);
  tk_data : data <> NULL -> memory o' <$> seqZ data c = take (Z.to_nat c) (stream k o);
  tk_current : current k' = current k;
  tk_irq : irq_locked k' = irq_locked k
}.

Definition available (k : kernel) (o : pobj) : Z := Z.of_nat (length (stream k o)).

Lemma pipe_get_internal_reads k o key data n min_xfer timeout :
  pipe_ok k o -> dest_ok k o data n -> 0 <= min_xfer <= n ->
  let c := Z.min (available k o) n in
  min_xfer <= c -> timeout = K_NO_WAIT \/ c = n \/ 0 < min_xfer ->
  exists r k' o', pipe_get_internal key data n min_xfer timeout (k, o) =
    (leave r key ;; ret (0, c)) (k', o') /\ took k o data c k' o'.
Proof.
  intros [Hb Hfull] Hd Hmin c Hmc Hgo.
  destruct (get_srcs_spec k o n Hb) as (R&W1&W2&ds1&Hs&Hsrc).
  pose proof (get_read_ok k o data n Hb Hd R W1 W2 ds1 Hs) as Hro.
  pose proof (get_sources k o data n Hb R W1 W2 ds1 Hs) as Hso.
  set (dd := mk_desc data n (Some (current k))) in *.
  set (o2 := o <| descs := <[own_desc k := dd]> ds1 |>).
  destruct (read_loop_spec (writers (pipe o)) R (thread_desc <$> W1) (own_desc k) 0 false k o2 (po_wf _ _ Hb) Hro Hso)
    as (k1&o1&Hl&Hr).
  pose proof (get_base k o data n Hb R W1 W2 ds1 Hs k1 o1 Hr) as Hb1.
  destruct (refill_spec (false || negb (is_nil (satisfied (descs o1) (thread_desc <$> W1)))) k1 o1 Hb1) as (k2&o2'&Hrf&Hrfd).
  pose proof (get_amount k o data n Hb Hd R W1 W2 ds1 Hs) as Ham.
  assert (Hc : Z.of_nat (amount (descs o2) (R ++ (thread_desc <$> W1)) (own_desc k)) = c).
  { unfold c, available, stream. rewrite length_fmap. exact Ham. }
  exists (false || negb (is_nil (satisfied (descs o1) (thread_desc <$> W1)))), k2, o2'. split.
  - unfold pipe_get_internal, bind, act, kget, omod. cbn [obind]. rewrite Hsrc. cbn [obind fst snd].
    replace ((_ <? min_xfer) && (timeout =? K_NO_WAIT)) with false.
    2:{ symmetry. apply andb_false_iff. left. apply Z.ltb_ge. unfold c, available, stream, stream_addrs in Hmc.
        rewrite length_fmap, length_app in Hmc. unfold waiters in Hmc.
        rewrite (rs_queue _ _ _ _ _ _ _ Hs), fmap_app, cover_app, length_app in Hmc.
        destruct (rs_enough _ _ _ _ _ _ _ Hs) as [?|E]; [lia|]. rewrite E in Hmc.
        change (cover (descs o) (thread_desc <$> [])) with (@nil Z) in Hmc. cbn [length] in Hmc. lia. }
    cbn [fst snd]. change (if in_isr k then isr_desc else thread_desc (current k)) with (own_desc k).
    change (upd descs (fun ds => <[own_desc k := mk_desc data n (Some (current k))]> ds) (o <| descs := ds1 |>)) with o2.
    rewrite Hl, Hrf. cbn [obind fst snd]. rewrite Z.add_0_l, Hc.
    replace ((c =? n) || (timeout =? K_NO_WAIT) || _) with true; [done|]. symmetry.
    destruct Hgo as [->|[->|Hpos]]; [by rewrite orb_true_r|by rewrite Z.eqb_refl|].
    apply orb_true_iff. right. lia.
  - destruct Hrfd as [F1 F2 F3 F4 F5]. pose proof (g_kernel _ _ _ _ _ _ _ _ Hr) as Hrel.
    split; rewrite <-?Hc, ?Nat2Z.id.
    + done.
    + rewrite F3. by eapply get_stream.
    + intros Hne. destruct (get_memory k o data n Hb R W1 W2 ds1 Hs k1 o1 Hr) as [_ Hm]. destruct (Hm Hne) as [Hm1 _].
      etransitivity; [|etransitivity; [exact Hm1|]].
      * apply values_ext. intros x Hx%elem_of_region. apply F5.
        rewrite (get_pipe k o data n Hb R W1 W2 ds1 Hs k1 o1 Hr). destruct Hd as (_&_&Hd). apply (Hd Hne x). lia.
      * unfold stream. by rewrite fmap_take.
    + by rewrite (re_cur _ _ _ _ F2), (re_cur _ _ _ _ Hrel).
    + by rewrite (re_irq _ _ _ _ F2), (re_irq _ _ _ _ Hrel).
Qed.

Lemma lock_ok b k o : pipe_ok k o -> pipe_ok (k <| irq_locked := b |>) o.
Proof. intros [[] ?]. split; [split; try done; by apply kwf_irq|done]. Qed.

(** Only descriptors on the stack differ. *)
Lemma stack_ok k o ds :
  (forall d, ~ stack d -> ds d = descs o d) -> pipe_ok k o ->
  pipe_ok k (o <| descs := ds |>) /\ stream k (o <| descs := ds |>) = stream k o.
Proof.
  intros Hds Hok.
  assert (Hcov : forall W, cover ds (thread_desc <$> W) = cover (descs o) (thread_desc <$> W)).
  { intros W. apply cover_ext. intros i (t & -> & _)%list_elem_of_fmap. apply Hds, thread_desc_stack. }
  destruct Hok as [[] Hf]. split; [split; [split|]|]; cbn; unfold waiters in *; rewrite ?Hcov; try done.
  - intros t Ht. unfold waiting. rewrite Hds by apply thread_desc_stack. by apply po_reader0.
  - intros t Ht. unfold waiting. rewrite Hds by apply thread_desc_stack. by apply po_writer0.
  - unfold stream, stream_addrs, waiters. cbn. by rewrite Hcov.
Qed.

Lemma available_sources k o n R W1 W2 ds1 :
  read_sources k o n R W1 W2 ds1 ->
  Z.of_nat (length (ring_addrs (pipe o))) + Z.of_nat (length (cover (descs o) (thread_desc <$> W1))) <= available k o.
Proof.
  intros Hs. unfold available, stream, stream_addrs, waiters.
  rewrite length_fmap, length_app, (rs_queue _ _ _ _ _ _ _ Hs), fmap_app, cover_app, length_app. lia.
Qed.

(** Too few bytes, and no time to wait for more. *)
Lemma pipe_get_internal_fails k o key data n min_xfer :
  pipe_ok k o -> min_xfer <= n -> Z.min (available k o) n < min_xfer ->
  exists o', pipe_get_internal key data n min_xfer K_NO_WAIT (k, o) =
    Done (- EIO, 0) (k <| irq_locked := negb key |>, o') /\
    pipe_ok k o' /\ stream k o' = stream k o /\ memory o' = memory o.
Proof.
  intros Hok Hmin Hlt. destruct (get_srcs_spec k o n (proj1 Hok)) as (R&W1&W2&ds1&Hs&Hsrc).
  destruct (stack_ok k o ds1 (rs_descs _ _ _ _ _ _ _ Hs) Hok) as [H1 H2].
  exists (o <| descs := ds1 |>). split; [|done]. unfold pipe_get_internal, bind, act. rewrite Hsrc. cbn [obind fst snd].
  pose proof (available_sources _ _ _ _ _ _ _ Hs).
  replace (_ <? min_xfer) with true by (symmetry; apply Z.ltb_lt; lia). done.
Qed.

Lemma obind_assoc {S A B C} (r : outcome S A) (f : A -> M S B) (g : B -> M S C) :
  obind (obind r f) g = obind r (fun a s => obind (f a s) g).
Proof.
  induction r as [a s|s resume IH]; cbn; [done|]. f_equal. apply functional_extensionality. intros s'. apply IH.
Qed.

(** C7: a read that need not wait takes the bytes in order.  The bytes in a
    pipe are those of its ring followed by what the waiting writers have left,
    in the order of their queue.  [k_pipe_get] with enough bytes at hand
    returns the number of bytes asked for, or all there are, copies exactly
    that prefix to the caller's buffer and leaves exactly the rest, with the
    ring filled again from the writers; with fewer than the minimum and
    [K_NO_WAIT] it returns [-EIO] and takes nothing.  [k_pipe_flush] leaves
    the pipe without bytes. *)
Theorem k_pipe_get_takes_prefix (k : kernel) (o : pobj) (data n min_xfer timeout : Z) :
  pipe_ok k o -> dest_ok k o data n -> 0 <= min_xfer <= n -> available k o <= SIZE_MAX ->
  let c := Z.min (available k o) n in
  let locked := k <| irq_locked := true |> in
  (min_xfer <= c -> timeout = K_NO_WAIT \/ c = n \/ 0 < min_xfer ->
   exists r k' o', z_impl_k_pipe_get data n min_xfer timeout (k, o) =
     (leave r (negb (irq_locked k)) ;; ret (0, Some c)) (k', o') /\ took locked o data c k' o') /\
  (c < min_xfer ->
   exists o', z_impl_k_pipe_get data n min_xfer K_NO_WAIT (k, o) = Done (- EIO, Some 0) (k, o') /\
     pipe_ok k o' /\ stream k o' = stream k o /\ memory o' = memory o) /\
  (exists r k' o', z_impl_k_pipe_flush (k, o) = (leave r (negb (irq_locked k)) ;; ret tt) (k', o') /\
     pipe_ok k' o' /\ stream k' o' = []).
Proof.
  intros Hok Hd Hmin Hav c locked. assert (Hok' : pipe_ok locked o) by (by apply lock_ok).
  assert (Hnot : (min_xfer >? n) = false) by lia.
  split_and!.
  - intros Hmc Hgo. destruct (pipe_get_internal_reads locked o (negb (irq_locked k)) data n min_xfer timeout)
      as (r&k'&o'&Hg&Ht); try done.
    exists r, k', o'. split; [|done]. unfold z_impl_k_pipe_get. rewrite Hnot. unfold bind at 1, k_spin_lock. cbn [obind fst snd].
    unfold bind at 1. fold locked. rewrite Hg. unfold bind. by rewrite obind_assoc.
  - intros Hlt. destruct (pipe_get_internal_fails locked o (negb (irq_locked k)) data n min_xfer) as (o'&Hg&H1&H2&H3); try done; [lia|].
    exists o'. split_and!; [| |done|done].
    + unfold z_impl_k_pipe_get. rewrite Hnot. unfold bind at 1, k_spin_lock. cbn [obind fst snd].
      unfold bind at 1. fold locked. rewrite Hg. cbn. unfold locked. by rewrite unlock_id.
    + apply (lock_ok (irq_locked k)) in H1. by destruct k.
  - destruct (pipe_get_internal_reads locked o (negb (irq_locked k)) NULL SIZE_MAX 0 K_NO_WAIT) as (r&k'&o'&Hg&Ht);
      [done|by split_and!|done| |by left|].
    { change (available locked o) with (available k o). unfold SIZE_MAX, UINT32_MAX, available. lia. }
    exists r, k', o'. split_and!; [|apply Ht|].
    + unfold z_impl_k_pipe_flush, bind at 1, k_spin_lock. cbn [obind fst snd]. unfold bind at 1. fold locked. rewrite Hg.
      unfold bind. by rewrite obind_assoc.
    + rewrite (tk_stream _ _ _ _ _ _ Ht). apply drop_ge. change (available locked o) with (available k o).
      change (stream locked o) with (stream k o). unfold available in *. lia.
Qed.

(** ** Writing *)

Definition free_space (p : k_pipe) : Z := size p - bytes_used p.

(** The destinations of a write: the first readers, and the free space. *)
Record write_dests (k : kernel) (o : pobj) (n : Z) (W1 W2 : list tid) (R : list Z) (ds1 : Z -> pipe_desc) : Prop := {
  wd_queue : waitqs k (readers (pipe o)) = W1 ++ W2;
  wd_enough : n <= Z.of_nat (length (cover (descs o) (thread_desc <$> W1))) \/ W2 = [];
  wd_stack d : d ∈ R -> stack d;
  wd_nodup : NoDup R;
  wd_ring : ring_from (buffer (pipe o)) (size (pipe o)) ds1 R (write_index (pipe o));
  wd_cover : cover ds1 R = seg (pipe o) (write_index (pipe o)) (free_space (pipe o));
  wd_buffer d : d ∈ R -> 0 < d_buffer (ds1 d);
  wd_descs d : ~ stack d -> ds1 d = descs o d
}.

Lemma put_dests_spec k o n :
  pipe_base k o ->
  exists W1 W2 R ds1, write_dests k o n W1 W2 R ds1 /\
    put_dests n (k, o) =
      ((thread_desc <$> W1) ++ R,
       Z.of_nat (length (cover (descs o) (thread_desc <$> W1))) + free_space (pipe o), (k, o <| descs := ds1 |>)).
Proof.
  intros Hb. assert (Hr := po_ring _ _ Hb). unfold put_dests. cbn [fst snd].
  destruct (populate_waiters [] (readers (pipe o)) n k o) as (W1&W2&HW&Hpop&Hen).
  { intros t Ht. by apply (po_reader _ _ Hb). }
  rewrite Hpop. cbn [app]. destruct (Z.eqb_spec (bytes_used (pipe o)) (size (pipe o))) as [He|He]; cbn [negb].
  - assert (Hf : free_space (pipe o) = 0) by (unfold free_space; lia).
    exists W1, W2, [], (descs o). rewrite Hf, Z.add_0_r, app_nil_r. split; [|by destruct o].
    split; try done; [by intros ? ?%elem_of_nil|constructor|by rewrite Hf|by intros ? ?%elem_of_nil].
  - destruct (refill_size k o Hb He) as [Hs Hf].
    destruct (populate_ring (thread_desc <$> W1) (pipe o) (write_index (pipe o)) (read_index (pipe o)) (free_space (pipe o)) (descs o))
      as (R&ds1&Hring&HRs&HRn&HRne&HRr&HRc&HRb&Hds).
    { by apply write_index_ok. } { destruct Hr. unfold free_space. lia. } { by apply (ri_buffer _ Hr). }
    { by apply read_after_write. }
    rewrite Hring. exists W1, W2, R, ds1. by split.
Qed.

(** Where a write may take its data from: outside of the pipe. *)
Definition source_ok (k : kernel) (o : pobj) (data n : Z) : Prop :=
  0 <= n /\
  forall x, data <= x < data + n ->
    ~ (buffer (pipe o) <= x < buffer (pipe o) + size (pipe o)) /\ x ∉ cover (descs o) (waiters k (readers (pipe o))).

Section Put.
Context (k : kernel) (o : pobj) (data n : Z).
Hypothesis Hb : pipe_base k o.
Hypothesis Hfull : cover (descs o) (waiters k (writers (pipe o))) <> [] -> bytes_used (pipe o) = size (pipe o).
Hypothesis Hsource : source_ok k o data n.
Context (W1 W2 : list tid) (R : list Z) (ds1 : Z -> pipe_desc).
Hypothesis Hdst : write_dests k o n W1 W2 R ds1.

Let p := pipe o.
Let src := own_desc k.
Let T1 := thread_desc <$> W1.
Let ds2 := <[src := mk_desc data n (Some (current k))]> ds1.
Let o2 := o <| descs := ds2 |>.
Let B := cover (descs o) (waiters k (readers p)).

Lemma put_descs d : ~ stack d -> d <> src -> ds2 d = descs o d.
Proof. intros Hs Hd. unfold ds2. rewrite fn_lookup_insert_ne by done. by apply (wd_descs _ _ _ _ _ _ _ Hdst). Qed.

Lemma put_waiter w t : t ∈ waitqs k w -> ds2 (thread_desc t) = descs o (thread_desc t).
Proof.
  intros Ht. apply put_descs; [apply thread_desc_stack|]. intros E.
  destruct (own_desc_apart k w (po_wf _ _ Hb)) as [Hx _]. apply Hx. fold src. rewrite <-E.
  apply list_elem_of_fmap. by exists t.
Qed.

Lemma put_W1 t : t ∈ W1 -> t ∈ waitqs k (readers p).
Proof. intros Ht. unfold p. rewrite (wd_queue _ _ _ _ _ _ _ Hdst), elem_of_app. by left. Qed.

Lemma put_ring_same d : d ∈ R -> ds2 d = ds1 d.
Proof.
  intros Hd. unfold ds2. rewrite fn_lookup_insert_ne; [done|]. intros <-.
  apply (own_desc_apart k (writers p) (po_wf _ _ Hb)). by apply (wd_stack _ _ _ _ _ _ _ Hdst).
Qed.

Lemma put_src : ds2 src = mk_desc data n (Some (current k)).
Proof. apply fn_lookup_insert. Qed.

Lemma put_cover_T : cover ds2 T1 = cover (descs o) T1.
Proof. apply cover_ext. intros i (t & -> & Ht)%list_elem_of_fmap. by apply (put_waiter (readers p)), put_W1. Qed.

Lemma put_cover_R : cover ds2 R = seg p (write_index p) (free_space p).
Proof. unfold p. rewrite <-(wd_cover _ _ _ _ _ _ _ Hdst). apply cover_ext. apply put_ring_same. Qed.

Lemma put_B : B = cover (descs o) T1 ++ cover (descs o) (thread_desc <$> W2).
Proof. unfold B, waiters, p, T1. by rewrite (wd_queue _ _ _ _ _ _ _ Hdst), fmap_app, cover_app. Qed.

Lemma put_free_region x : x ∈ seg p (write_index p) (free_space p) -> buffer p <= x < buffer p + size p.
Proof.
  intros Hx. assert (Hr := po_ring _ _ Hb). fold p in Hr. destruct (Z.eq_dec (size p) 0) as [Hz|Hz].
  - assert (free_space p = 0) as H0 by (unfold free_space; destruct Hr; lia). rewrite H0 in Hx. by apply elem_of_nil in Hx.
  - eapply elem_of_seg; [|done]. destruct Hr. lia.
Qed.

Lemma put_lists : lists_ok ds2 [src] (T1 ++ R).
Proof.
  destruct (own_desc_apart k (readers p) (po_wf _ _ Hb)) as [Hdw Hds]. destruct Hsource as [Hn Hout].
  assert (Hr := po_ring _ _ Hb). fold p in Hr.
  pose proof (kb_wq_nodup _ (kwf_base _ (po_wf _ _ Hb)) (readers p)) as Hnd. unfold p in Hnd.
  rewrite (wd_queue _ _ _ _ _ _ _ Hdst) in Hnd. apply NoDup_app in Hnd as (HndW & _).
  assert (HT1 : forall i, i ∈ T1 -> exists t, i = thread_desc t /\ t ∈ waitqs k (readers p)).
  { intros i (t & -> & Ht)%list_elem_of_fmap. exists t. split; [done|]. by apply put_W1. }
  assert (Hsub : forall x, x ∈ cover (descs o) T1 -> x ∈ B) by (intros x Hx; rewrite put_B, elem_of_app; by left).
  split.
  - apply NoDup_app. split_and!; [apply NoDup_singleton| |].
    + intros i ->%list_elem_of_singleton. rewrite elem_of_app. intros [(t & E & Ht)%HT1|Hx%(wd_stack _ _ _ _ _ _ _ Hdst)]; [|done].
      apply Hdw. fold src. rewrite E. apply list_elem_of_fmap. by exists t.
    + apply NoDup_app. split_and!; [by apply waiters_NoDup| |apply Hdst].
      intros i (t & -> & _)%HT1 Hi%(wd_stack _ _ _ _ _ _ _ Hdst). by apply (thread_desc_stack t).
  - intros i [->%list_elem_of_singleton|[(t & -> & Ht)%HT1|Hi]%elem_of_app]%elem_of_app.
    + by rewrite put_src.
    + rewrite (put_waiter (readers p)) by done. by apply (po_reader _ _ Hb).
    + rewrite put_ring_same by done. eapply ring_from_pos; [apply Hdst|done].
  - intros i [(t & -> & Ht)%HT1|Hi]%elem_of_app.
    + rewrite (put_waiter (readers p)) by done. by apply (po_reader _ _ Hb).
    + rewrite put_ring_same by done. by apply (wd_buffer _ _ _ _ _ _ _ Hdst).
  - intros x. unfold cover at 1. cbn. rewrite put_src, app_nil_r. unfold addrs. cbn. rewrite elem_of_region. intros Hx.
    destruct (Hout x Hx) as [H1 H2]. rewrite cover_app, put_cover_T, put_cover_R, elem_of_app.
    intros [?%Hsub|?%put_free_region]; done.
  - rewrite cover_app, put_cover_T, put_cover_R. apply NoDup_app. split_and!.
    + pose proof (po_distinct _ _ Hb) as Hd. fold p B in Hd. rewrite put_B in Hd. by apply NoDup_app in Hd as (? & _).
    + intros x Hx Hx'%put_free_region. apply (po_apart _ _ Hb x); [|done]. left. by apply Hsub.
    + apply seg_NoDup. unfold free_space. destruct Hr. lia.
Qed.

Lemma put_targets : targets k o2 (readers p) T1 R.
Proof.
  split; cbn [descs o2 upd set_descs].
  - intros i (t & -> & Ht%put_W1)%list_elem_of_fmap. rewrite (put_waiter (readers p)) by done.
    destruct (po_reader _ _ Hb t Ht) as [(_&?&_) ?]. split; [done|]. by exists t.
  - intros i j u (t & -> & Ht%put_W1)%list_elem_of_fmap (v & -> & Hv%put_W1)%list_elem_of_fmap.
    rewrite !(put_waiter (readers p)) by done.
    destruct (po_reader _ _ Hb t Ht) as [(_&->&_) _]. destruct (po_reader _ _ Hb v Hv) as [(_&->&_) _]. congruence.
  - apply (ring_from_ext _ _ ds1); [by apply put_ring_same|]. apply Hdst.
  - apply write_index_ok, (po_ring _ _ Hb).
Qed.

Context (k' : kernel) (o' : pobj).
Hypothesis Hw : wrote (readers p) [src] T1 R k o2 k' o'.

Let F := seg p (write_index p) (free_space p).
Let c := both (seqZ data n) (cover (descs o) T1 ++ F).
Let a := length (cover (descs o) T1).

Lemma put_both : both (cover ds2 [src]) (cover ds2 (T1 ++ R)) = c.
Proof.
  unfold c. rewrite cover_app, put_cover_T, put_cover_R. f_equal. unfold cover. cbn. by rewrite put_src, app_nil_r.
Qed.

Lemma put_free : Z.of_nat (length F) = free_space p /\ 0 <= free_space p.
Proof.
  assert (0 <= free_space p) by (unfold free_space; destruct (po_ring _ _ Hb); unfold p; lia).
  split; [by apply seg_length|done].
Qed.

Lemma put_amount : Z.of_nat c = Z.min n (Z.of_nat (length B) + free_space p).
Proof.
  destruct put_free as [Hf Hf0]. unfold c, both. rewrite length_app, put_B, length_app, length_seqZ.
  destruct Hsource as [Hn _]. destruct (wd_enough _ _ _ _ _ _ _ Hdst) as [He|E]; [fold T1 in He; lia|].
  rewrite E. change (cover (descs o) (thread_desc <$> [])) with (@nil Z). cbn [length]. lia.
Qed.

Lemma put_range : Z.of_nat (c - a) <= free_space p.
Proof. destruct put_free as [Hf _]. unfold c, a, both. rewrite length_app. lia. Qed.

Lemma put_pipe : pipe o' = filled (Z.of_nat (c - a)) p.
Proof. rewrite (w_pipe _ _ _ _ _ _ _ _ Hw). change (descs o2) with ds2. unfold ring_part. by rewrite put_both, put_cover_T. Qed.

Lemma put_ring :
  ring_ok (pipe o') /\ ring_addrs (pipe o') = ring_addrs p ++ seg p (write_index p) (Z.of_nat (c - a)).
Proof. rewrite put_pipe. apply filled_ring; [apply (po_ring _ _ Hb)|]. pose proof put_range. unfold free_space in *. lia. Qed.

Lemma put_same d : ~ stack d -> d <> src -> d ∉ T1 -> descs o' d = descs o d.
Proof.
  intros Hs Hd HT. rewrite (dm_other _ _ _ _ _ _ (w_data _ _ _ _ _ _ _ _ Hw)); [by apply put_descs|].
  rewrite !elem_of_app, list_elem_of_singleton. intros [?|[?|Hx%(wd_stack _ _ _ _ _ _ _ Hdst)]]; done.
Qed.

Lemma put_not_src w t : t ∈ waitqs k w -> thread_desc t <> src.
Proof.
  intros Ht E. apply (proj1 (own_desc_apart k w (po_wf _ _ Hb))). fold src. rewrite <-E. apply list_elem_of_fmap. by exists t.
Qed.

Lemma put_writer t : t ∈ waitqs k (writers p) -> descs o' (thread_desc t) = descs o (thread_desc t).
Proof.
  intros Ht. apply put_same; [apply thread_desc_stack|by apply (put_not_src (writers p))|].
  intros (u & E & Hu%put_W1)%list_elem_of_fmap. by apply (waiters_apart k o u t Hb Hu Ht).
Qed.

Lemma put_writers_queue : waitqs k' (writers p) = waitqs k (writers p).
Proof. apply (re_wqs _ _ _ _ (w_kernel _ _ _ _ _ _ _ _ Hw)). intros E. by apply (po_queues _ _ Hb). Qed.

Lemma put_writers_cover : cover (descs o') (waiters k' (writers p)) = cover (descs o) (waiters k (writers p)).
Proof.
  unfold waiters. rewrite put_writers_queue. apply cover_ext. intros i (t & -> & Ht)%list_elem_of_fmap. by apply put_writer.
Qed.

Lemma put_memory :
  moved (memory o) (memory o') (take c (seqZ data n)) (take c (cover (descs o) T1) ++ seg p (write_index p) (Z.of_nat (c - a))).
Proof.
  pose proof (dm_mem _ _ _ _ _ _ (w_data _ _ _ _ _ _ _ _ Hw)) as Hm. cbv zeta in Hm. change (descs o2) with ds2 in Hm.
  rewrite put_both, cover_app, put_cover_T, put_cover_R in Hm. fold F in Hm. rewrite take_app in Hm. fold a in Hm.
  replace (cover ds2 [src]) with (seqZ data n) in Hm by (unfold cover; cbn; by rewrite put_src, app_nil_r).
  replace (take (c - a) F) with (seg p (write_index p) (Z.of_nat (c - a))) in Hm; [done|].
  destruct (Nat.eq_dec (c - a)%nat 0%nat) as [->|Hne]; [by rewrite take_0|].
  assert (Hr := po_ring _ _ Hb). fold p in Hr. pose proof put_range. unfold F.
  rewrite (seg_split p _ (free_space p) (Z.of_nat (c - a))), take_app_length'; [done| | |lia].
  - pose proof (seg_length p (write_index p) (Z.of_nat (c - a))). lia.
  - destruct Hr. unfold free_space in *. lia.
Qed.

(** With readers waiting, or with room in the ring, no writer has bytes left. *)
Lemma put_no_writers : (0 < c)%nat -> cover (descs o) (waiters k (writers p)) = [].
Proof.
  intros Hc. destruct (cover (descs o) (waiters k (writers p))) as [|x l] eqn:E; [done|]. exfalso.
  fold p in Hfull. rewrite E in Hfull. specialize (Hfull ltac:(done)).
  assert (waitqs k (readers p) = []) as HW.
  { destruct (waitqs k (readers p)) as [|t r] eqn:Ew; [done|]. exfalso.
    destruct (po_empty _ _ Hb) as [_ Hx]; [fold p; by rewrite Ew|]. fold p in Hx. by rewrite E in Hx. }
  pose proof put_amount as Ha. assert (HB : B = []) by (unfold B, waiters; by rewrite HW). rewrite HB in Ha. cbn in Ha.
  unfold free_space in Ha. lia.
Qed.

Lemma put_stream :
  stream k' o' = stream k o ++ (memory o <$> seqZ (data + Z.of_nat (Nat.min c a)) (Z.of_nat (c - a))).
Proof.
  assert (Hr := po_ring _ _ Hb). fold p in Hr. destruct put_ring as [_ Hra]. pose proof put_memory as Hm.
  unfold stream, stream_addrs. rewrite Hra, put_pipe. change (writers (filled _ p)) with (writers p).
  rewrite put_writers_cover. fold p.
  assert (HringA : memory o' <$> ring_addrs p = memory o <$> ring_addrs p).
  { eapply moved_other; [done|]. intros x Hx. rewrite elem_of_app. intros [Hx'|Hx'].
    - apply (po_apart _ _ Hb x); [|by apply ring_region]. left. fold p B. rewrite put_B, elem_of_app. left.
      apply elem_of_take in Hx' as (j & Hj & _). by eapply list_elem_of_lookup_2.
    - destruct (Z.eq_dec (size p) 0) as [Hz|Hz].
      + assert (free_space p = 0) as H0 by (unfold free_space; destruct Hr; lia). pose proof put_range.
        replace (Z.of_nat (c - a)) with 0 in Hx' by lia. by apply elem_of_nil in Hx'.
      + apply (ring_apart p x Hr) in Hx; [|destruct Hr; lia]. apply Hx. fold (free_space p).
        pose proof put_range. rewrite (seg_split p _ (free_space p) (Z.of_nat (c - a))) by (destruct Hr; lia).
        rewrite elem_of_app. by left. }
  destruct (Nat.eq_dec c 0%nat) as [Hc0|Hc0].
  { rewrite Hc0 in *. cbn in Hm |- *. rewrite !app_nil_r in *. rewrite !fmap_app, HringA. f_equal.
    apply values_ext. intros x _. apply Hm. apply not_elem_of_nil. }
  rewrite put_no_writers, !app_nil_r by lia. rewrite fmap_app, HringA. f_equal.
  destruct Hm as [Hv _]. rewrite fmap_app in Hv.
  apply (f_equal (drop (length (take c (cover (descs o) T1))))) in Hv. rewrite drop_app_length' in Hv by (by rewrite length_fmap).
  rewrite Hv, <-fmap_drop. f_equal. rewrite length_take. fold a. destruct Hsource as [Hn _].
  assert (Hcn : Z.of_nat c <= n) by (pose proof put_amount; lia).
  rewrite (seqZ_split data n (Z.of_nat c)), take_app_length' by (try rewrite length_seqZ; lia).
  rewrite (seqZ_split data (Z.of_nat c) (Z.of_nat (Nat.min c a))), drop_app_length' by (try rewrite length_seqZ; lia).
  f_equal. lia.
Qed.

Lemma put_more : W2 <> [] -> (c <= a)%nat.
Proof.
  intros HW. destruct (wd_enough _ _ _ _ _ _ _ Hdst) as [He|?]; [|done]. fold T1 a in He.
  pose proof put_amount. lia.
Qed.

Lemma put_W2 t : t ∈ W2 -> t ∈ waitqs k (readers p) /\ thread_desc t ∉ T1.
Proof.
  intros Ht. pose proof (kb_wq_nodup _ (kwf_base _ (po_wf _ _ Hb)) (readers p)) as Hnd.
  unfold p in *. rewrite (wd_queue _ _ _ _ _ _ _ Hdst) in *. apply NoDup_app in Hnd as (_ & Hx & _).
  rewrite elem_of_app. split; [by right|]. intros (u & <-%thread_desc_inj & Hu)%list_elem_of_fmap. by apply (Hx t).
Qed.

Lemma put_threads t : t ∈ waitqs k (readers p) -> thread (descs o' (thread_desc t)) = Some t.
Proof.
  intros Ht. rewrite (dm_thread _ _ _ _ _ _ (w_data _ _ _ _ _ _ _ _ Hw)). change (descs o2) with ds2.
  rewrite (put_waiter (readers p)) by done. by apply (po_reader _ _ Hb).
Qed.

Lemma put_satisfied t :
  t ∈ waitqs k' (readers p) <->
  t ∈ waitqs k (readers p) /\ ~ (t ∈ W1 /\ bytes_to_xfer (descs o' (thread_desc t)) = 0).
Proof.
  rewrite (re_wq _ _ _ _ (w_kernel _ _ _ _ _ _ _ _ Hw)), list_elem_of_filter. unfold T1.
  rewrite elem_of_satisfied by (intros u Hu; by apply put_threads, put_W1). tauto.
Qed.

Lemma put_readers_cover : cover (descs o') (waiters k' (readers p)) = drop c B.
Proof.
  unfold waiters. rewrite (re_wq _ _ _ _ (w_kernel _ _ _ _ _ _ _ _ Hw)), cover_released.
  - unfold p at 1. rewrite (wd_queue _ _ _ _ _ _ _ Hdst), fmap_app, cover_app. fold T1.
    rewrite (w_rest _ _ _ _ _ _ _ _ Hw). change (descs o2) with ds2. rewrite put_both, put_cover_T.
    replace (cover (descs o') (thread_desc <$> W2)) with (cover (descs o) (thread_desc <$> W2)).
    + rewrite put_B, drop_app. f_equal. fold a. destruct (decide (W2 = [])) as [E|E]; [rewrite E; symmetry; apply drop_nil|].
      apply put_more in E. by replace (c - a)%nat with 0%nat by lia.
    + symmetry. apply cover_ext. intros i (t & -> & Ht)%list_elem_of_fmap. destruct (put_W2 t Ht) as [Hq HT].
      apply put_same; [apply thread_desc_stack|by apply (put_not_src (readers p))|done].
  - intros t Ht Hs. apply elem_of_satisfied in Hs; [tauto|]. intros u Hu. by apply put_threads, put_W1.
Qed.

Lemma put_reader t :
  t ∈ waitqs k' (readers p) -> waiting k' (descs o') t /\ 0 < bytes_to_xfer (descs o' (thread_desc t)).
Proof.
  intros [Ht Hn]%put_satisfied. destruct (po_reader _ _ Hb t Ht) as [(E1&E2&E3&E4) E5].
  assert (H0 : 0 < bytes_to_xfer (descs o' (thread_desc t))).
  { destruct (decide (t ∈ W1)) as [HW|HW].
    - pose proof (dm_pos _ _ _ _ _ _ (w_data _ _ _ _ _ _ _ _ Hw) (thread_desc t)) as Hp.
      assert (0 <= bytes_to_xfer (descs o' (thread_desc t))); [|destruct (Z.eq_dec (bytes_to_xfer (descs o' (thread_desc t))) 0); [tauto|lia]].
      apply Hp. rewrite !elem_of_app. right. left. apply list_elem_of_fmap. by exists t.
    - rewrite put_same; [done|apply thread_desc_stack|by apply (put_not_src (readers p))|].
      by intros (u & <-%thread_desc_inj & Hu)%list_elem_of_fmap. }
  split; [|done]. split_and!; [|by apply put_threads|lia|].
  - by rewrite (re_data _ _ _ _ (w_kernel _ _ _ _ _ _ _ _ Hw)).
  - pose proof (dm_buf _ _ _ _ _ _ (w_data _ _ _ _ _ _ _ _ Hw) (thread_desc t)) as Hbuf. change (descs o2) with ds2 in Hbuf.
    rewrite (put_waiter (readers p)) in Hbuf by done. lia.
Qed.

(** Readers are left only if the data ran out before they were served. *)
Lemma put_left : waitqs k' (readers p) <> [] -> (c - a = 0)%nat.
Proof.
  intros Hne. destruct (decide (W2 = [])) as [E|E]; [|apply put_more in E; lia].
  destruct (waitqs k' (readers p)) as [|t r] eqn:Er; [done|].
  assert (Hpos := proj2 (put_reader t ltac:(rewrite Er; by left))).
  assert (Hin : d_buffer (descs o' (thread_desc t)) ∈ cover (descs o') (waiters k' (readers p))).
  { apply elem_of_cover. exists (thread_desc t). split.
    - apply list_elem_of_fmap. exists t. split; [done|]. rewrite Er. by left.
    - unfold addrs. rewrite elem_of_region. lia. }
  rewrite put_readers_cover, put_B, E in Hin. change (cover (descs o) (thread_desc <$> [])) with (@nil Z) in Hin.
  rewrite app_nil_r in Hin. destruct (Nat.le_gt_cases c a) as [|Hgt]; [lia|].
  rewrite drop_ge in Hin by (unfold a in Hgt; lia). by apply elem_of_nil in Hin.
Qed.

Lemma put_ok : pipe_ok k' o'.
Proof.
  destruct put_ring as [Hrok _]. assert (Hp := put_pipe).
  assert (Hrd : readers (pipe o') = readers p) by (by rewrite Hp). assert (Hwr : writers (pipe o') = writers p) by (by rewrite Hp).
  split; [split|]; rewrite ?Hrd, ?Hwr.
  - apply (w_kernel _ _ _ _ _ _ _ _ Hw).
  - done.
  - apply (po_queues _ _ Hb).
  - apply put_reader.
  - intros t. rewrite put_writers_queue. intros Ht. destruct (po_writer _ _ Hb t Ht) as (E1&E2&E3&E4).
    unfold waiting. by rewrite (put_writer t Ht), (re_data _ _ _ _ (w_kernel _ _ _ _ _ _ _ _ Hw)).
  - intros x. rewrite put_readers_cover, put_writers_cover, Hp. intros Hx. apply (po_apart _ _ Hb x).
    destruct Hx as [Hx%drop_cover_sub|?]; [by left|by right].
  - rewrite put_readers_cover. pose proof (po_distinct _ _ Hb) as Hd. fold p B in Hd.
    rewrite <-(take_drop c B) in Hd. by apply NoDup_app in Hd as (_&_&?).
  - rewrite put_writers_cover. intros Hne. pose proof (put_left Hne) as Hz. rewrite Hp, Hz.
    destruct (po_empty _ _ Hb) as [H0 HC]; [|fold p in H0, HC; split; [cbn; lia|done]].
    intros Hq. destruct (waitqs k' (readers p)) as [|t r] eqn:Er; [done|].
    assert (t ∈ waitqs k' (readers p)) as [Ht _]%put_satisfied by (rewrite Er; by left). unfold p in Ht. rewrite Hq in Ht. by apply elem_of_nil in Ht.
  - rewrite put_writers_cover, Hp. intros Hne. assert (c = 0%nat) as Hc.
    { destruct (Nat.eq_dec c 0%nat) as [|Hx]; [done|]. destruct Hne. apply put_no_writers. lia. }
    rewrite Hc. cbn. specialize (Hfull Hne). fold p in Hfull. lia.
Qed.

Lemma put_short : Nat.min c (length B) = Nat.min c a /\ (c - length B = c - a)%nat.
Proof.
  rewrite put_B, length_app. fold a. destruct (decide (W2 = [])) as [E|E].
  - rewrite E. change (cover (descs o) (thread_desc <$> [])) with (@nil Z). cbn [length]. lia.
  - apply put_more in E. lia.
Qed.

(** The readers got the first bytes. *)
Lemma put_served :
  memory o' <$> take c B = memory o <$> seqZ data (Z.of_nat (Nat.min c (length B))).
Proof.
  destruct put_memory as [Hv _]. rewrite fmap_app in Hv.
  apply (f_equal (take (length (take c (cover (descs o) T1))))) in Hv. rewrite take_app_length' in Hv by (by rewrite length_fmap).
  assert (HB : take c B = take c (cover (descs o) T1)).
  { rewrite put_B. destruct (decide (W2 = [])) as [E|E].
    - rewrite E. change (cover (descs o) (thread_desc <$> [])) with (@nil Z). by rewrite app_nil_r.
    - apply put_more in E. by rewrite take_app_le. }
  rewrite HB, (proj1 put_short). rewrite Hv, <-fmap_take, length_take. fold a. f_equal.
  assert (Hcn : Z.of_nat c <= n) by (pose proof put_amount; lia).
  rewrite (seqZ_split data n (Z.of_nat c)), take_app_length' by (try rewrite length_seqZ; lia).
  rewrite (seqZ_split data (Z.of_nat c) (Z.of_nat (Nat.min c a))), take_app_length' by (try rewrite length_seqZ; lia). done.
Qed.

End Put.

Definition reading (k : kernel) (o : pobj) : list Z := cover (descs o) (waiters k (readers (pipe o))).

(** The outcome of a write of [c] bytes from [data]: the readers' buffers take
    the first of them and the ring takes the rest. *)
Record gave (k : kernel) (o : pobj) (data c : Z) (k' : kernel) (o' : pobj) : Prop := {
  gv_ok : pipe_ok k' o';
  gv_readers : reading k' o' = drop (Z.to_nat c) (reading k o);
  gv_served : let b := Z.min c (Z.of_nat (length (reading k o))) in
              memory o' <$> take (Z.to_nat c) (reading k o) = memory o <$> seqZ data b;
  gv_stream : let b := Z.min c (Z.of_nat (length (reading k o))) in
              stream k' o' = stream k o ++ (memory o <$> seqZ (data + b) (c - b));
  gv_current : current k' = current k;
  gv_irq : irq_locked k' = irq_locked k
}.

Definition room (k : kernel) (o : pobj) : Z := Z.of_nat (length (reading k o)) + free_space (pipe o).

(** The result of [pipe_write] for a write of [n] bytes. *)
Lemma pipe_write_gives k o data n W1 W2 R ds1 :
  pipe_ok k o -> source_ok k o data n -> write_dests k o n W1 W2 R ds1 ->
  exists r k' o',
    pipe_write [own_desc k] ((thread_desc <$> W1) ++ R) false
      (k, o <| descs := <[own_desc k := mk_desc data n (Some (current k))]> ds1 |>)
    = (Z.min n (room k o), r, (k', o')) /\ gave k o data (Z.min n (room k o)) k' o'.
Proof.
  intros [Hb Hfull] Hsrc Hd.
  set (o2 := o <| descs := <[own_desc k := mk_desc data n (Some (current k))]> ds1 |>).
  destruct (write_loop_spec (readers (pipe o)) (length [own_desc k] + length ((thread_desc <$> W1) ++ R)) [own_desc k]
    (thread_desc <$> W1) R 0 false k o2) as (k'&o'&Hl&Hw).
  { done. } { apply Hb. } { eapply put_lists; done. } { eapply put_targets; done. }
  pose proof (put_both k o data n Hb W1 W2 R ds1 Hd) as Hboth. change (descs o2) with (<[own_desc k := mk_desc data n (Some (current k))]> ds1) in Hl.
  rewrite Hboth in Hl. pose proof (put_amount k o data n Hb Hsrc W1 W2 R ds1 Hd) as Ham.
  pose proof (put_short k o data n Hb Hsrc W1 W2 R ds1 Hd) as [Hs1 Hs2].
  change (Z.of_nat (length (cover (descs o) (waiters k (readers (pipe o))))) + free_space (pipe o)) with (room k o) in Ham.
  fold (reading k o) in Hs1, Hs2.
  set (c := both _ _) in *. unfold pipe_write. rewrite Hl, Z.add_0_l, Ham. eexists _, k', o'. split; [done|].
  pose proof (w_kernel _ _ _ _ _ _ _ _ Hw) as Hrel.
  split; cbv zeta; rewrite <-?Ham, ?Nat2Z.id, <-?Nat2Z.inj_min.
  - eapply put_ok; done.
  - unfold reading. rewrite (put_pipe k o data n Hb W1 W2 R ds1 Hd k' o' Hw). eapply put_readers_cover; done.
  - eapply put_served; done.
  - replace (Z.of_nat c - Z.of_nat (Nat.min c (length (reading k o)))) with (Z.of_nat (c - length (reading k o))) by lia.
    rewrite Hs1, Hs2. eapply put_stream; done.
  - apply (re_cur _ _ _ _ Hrel).
  - apply (re_irq _ _ _ _ Hrel).
Qed.

Lemma room_dests k o n W1 W2 R ds1 :
  write_dests k o n W1 W2 R ds1 ->
  let can := Z.of_nat (length (cover (descs o) (thread_desc <$> W1))) + free_space (pipe o) in
  can <= room k o /\ (Z.min n (room k o) <= can \/ free_space (pipe o) < 0).
Proof.
  intros Hd can. unfold can, room, reading, waiters.
  rewrite (wd_queue _ _ _ _ _ _ _ Hd), fmap_app, cover_app, length_app.
  destruct (wd_enough _ _ _ _ _ _ _ Hd) as [?| ->]; [lia|]. change (cover (descs o) (thread_desc <$> [])) with (@nil Z). cbn [length]. lia.
Qed.

(** C12: a write that need not wait adds to the end of the stream.  [k_pipe_put]
    with room for at least the minimum returns the number of bytes that the
    waiting readers and the ring could take, hands the first of them to the
    readers in the order of their queue, each of which is made ready when its
    buffer is full, and appends the others to the bytes in the pipe; with less
    room than the minimum and [K_NO_WAIT] it returns [-EIO] and writes
    nothing. *)
Theorem k_pipe_put_appends (k : kernel) (o : pobj) (data n min_xfer timeout : Z) :
  pipe_ok k o -> source_ok k o data n -> 0 <= min_xfer <= n ->
  let c := Z.min n (room k o) in
  let locked := k <| irq_locked := true |> in
  (min_xfer <= c -> timeout = K_NO_WAIT \/ c = n \/ 0 < min_xfer ->
   exists r k' o', z_impl_k_pipe_put data n min_xfer timeout (k, o) =
     (leave r (negb (irq_locked k)) ;; ret (0, Some c)) (k', o') /\ gave locked o data c k' o') /\
  (c < min_xfer ->
   exists o', z_impl_k_pipe_put data n min_xfer K_NO_WAIT (k, o) = Done (- EIO, Some 0) (k, o') /\
     pipe_ok k o' /\ stream k o' = stream k o /\ memory o' = memory o).
Proof.
  intros Hok Hsrc Hmin c locked. assert (Hok' : pipe_ok locked o) by (by apply lock_ok).
  assert (Hnot : (min_xfer >? n) = false) by lia.
  assert (Hfree : 0 <= free_space (pipe o)) by (destruct (po_ring _ _ (proj1 Hok)); unfold free_space; lia).
  destruct (put_dests_spec locked o n (proj1 Hok')) as (W1&W2&R&ds1&Hd&Hdst).
  pose proof (room_dests _ _ _ _ _ _ _ Hd) as Hroom. cbv zeta in Hroom. change (room locked o) with (room k o) in Hroom.
  unfold z_impl_k_pipe_put. rewrite Hnot. unfold bind, act, kget, omod, k_spin_lock. cbn [obind fst snd]. fold locked.
  rewrite Hdst. cbn [obind fst snd]. split.
  - intros Hmc Hgo. destruct (pipe_write_gives locked o data n W1 W2 R ds1) as (r&k'&o'&Hw&Hg); try done.
    change (room locked o) with (room k o) in Hw, Hg. fold c in Hw, Hg.
    exists r, k', o'. split; [|done].
    replace (_ <? min_xfer) with false by (symmetry; apply Z.ltb_ge; lia). cbn [andb obind fst snd].
    change (if in_isr locked then isr_desc else thread_desc (current locked)) with (own_desc locked).
    change (upd descs (fun ds => <[own_desc locked := mk_desc data n (Some (current locked))]> ds) (o <| descs := ds1 |>))
      with (o <| descs := <[own_desc locked := mk_desc data n (Some (current locked))]> ds1 |>).
    rewrite Hw. cbn [obind fst snd].
    replace ((c =? n) || (timeout =? K_NO_WAIT) || _) with true; [done|]. symmetry.
    destruct Hgo as [->|[->|Hpos]]; [by rewrite orb_true_r|by rewrite Z.eqb_refl|].
    apply orb_true_iff. right. lia.
  - intros Hlt. destruct (stack_ok k o ds1 (wd_descs _ _ _ _ _ _ _ Hd) Hok) as [H1 H2].
    exists (o <| descs := ds1 |>). split; [|done].
    replace (_ <? min_xfer) with true by (symmetry; apply Z.ltb_lt; lia). cbn. unfold locked. by rewrite unlock_id.
Qed.

(** ** Instances *)

(** Thread 2 waits on queue 7 with its own descriptor. *)
Definition pipe_demo : kernel := upd_thread 2 (fun t => t <| swap_data := 2 |>) (demo false).

Lemma pipe_demo_run : krun pipe_demo.
Proof. eapply krun_same; [by apply upd_thread_same|done|exact demo_run]. Qed.

Definition demo_descs : Z -> pipe_desc := fun d => if d =? 2 then mk_desc 2000 3 (Some 2%positive) else mk_desc 0 0 None.

(** A full ring of 4 bytes, with thread 2 waiting to write 3 more. *)
Definition full_demo : pobj := mk_pobj (mk_pipe 1000 4 4 1 1 8 7 0) demo_descs (fun a => a).
(** An empty ring of 4 bytes, with thread 2 waiting to read 3. *)
Definition empty_demo : pobj := mk_pobj (mk_pipe 1000 4 0 1 1 7 8 0) demo_descs (fun a => a).

Lemma demo_waiting t : t ∈ waitqs pipe_demo 7 -> waiting pipe_demo demo_descs t /\ 0 < bytes_to_xfer (demo_descs (thread_desc t)).
Proof. change (waitqs pipe_demo 7) with [2%positive]. intros ->%list_elem_of_singleton. by vm_compute. Qed.

Lemma demo_region x : x ∈ [2000; 2001; 2002] -> 2000 <= x <= 2002.
Proof. rewrite !elem_of_cons. intros [->|[->|[->|?%elem_of_nil]]]; lia. Qed.

Lemma full_demo_ok : pipe_ok pipe_demo full_demo.
Proof.
  split; [split|done].
  - apply pipe_demo_run.
  - split; cbn; unfold index_ok; cbn; lia || reflexivity.
  - done.
  - by intros t ?%elem_of_nil.
  - intros t Ht. by apply demo_waiting.
  - intros x [?%elem_of_nil|Hx]; [done|]. change (x ∈ [2000; 2001; 2002]) in Hx. apply demo_region in Hx. cbn. lia.
  - constructor.
  - by intros [].
Qed.

Lemma empty_demo_ok : pipe_ok pipe_demo empty_demo.
Proof.
  split; [split|by intros []].
  - apply pipe_demo_run.
  - split; cbn; unfold index_ok; cbn; lia || reflexivity.
  - done.
  - apply demo_waiting.
  - by intros t ?%elem_of_nil.
  - intros x [Hx|?%elem_of_nil]; [|done]. change (x ∈ [2000; 2001; 2002]) in Hx. apply demo_region in Hx. cbn. lia.
  - change (NoDup [2000; 2001; 2002]). by apply (bool_decide_unpack _).
  - by split.
Qed.

Lemma k_pipe_get_takes_prefix_witness :
  exists r k' o', z_impl_k_pipe_get 3000 5 1 K_NO_WAIT (pipe_demo, full_demo) =
    (leave r true ;; ret (0, Some 5)) (k', o') /\
    memory o' <$> seqZ 3000 5 = [1001; 1002; 1003; 1000; 2000] /\ stream k' o' = [2001; 2002].
Proof.
  destruct (k_pipe_get_takes_prefix pipe_demo full_demo 3000 5 1 K_NO_WAIT) as [H _].
  - exact full_demo_ok.
  - split; [lia|]. split; [lia|]. intros _ x Hx. split; [cbn; lia|].
    change (x ∉ [2000; 2001; 2002]). intros Hin%demo_region. lia.
  - lia.
  - by vm_compute.
  - destruct H as (r & k' & o' & E & Ht); [by vm_compute|by left|]. exists r, k', o'. split; [exact E|]. split.
    + etransitivity; [apply (tk_data _ _ _ _ _ _ Ht); discriminate|]. vm_compute. reflexivity.
    + etransitivity; [exact (tk_stream _ _ _ _ _ _ Ht)|]. vm_compute. reflexivity.
Defined.

Lemma k_pipe_put_appends_witness :
  exists r k' o', z_impl_k_pipe_put 3000 5 5 K_NO_WAIT (pipe_demo, empty_demo) =
    (leave r true ;; ret (0, Some 5)) (k', o') /\
    memory o' <$> [2000; 2001; 2002] = [3000; 3001; 3002] /\ stream k' o' = [3003; 3004].
Proof.
  destruct (k_pipe_put_appends pipe_demo empty_demo 3000 5 5 K_NO_WAIT) as [H _].
  - exact empty_demo_ok.
  - split; [lia|]. intros x Hx. split; [cbn; lia|].
    change (x ∉ [2000; 2001; 2002]). intros Hin%demo_region. lia.
  - lia.
  - destruct H as (r & k' & o' & E & Ht); [by vm_compute|by left|]. exists r, k', o'. split; [exact E|]. split.
    + etransitivity; [exact (gv_served _ _ _ _ _ _ Ht)|]. vm_compute. reflexivity.
    + etransitivity; [exact (gv_stream _ _ _ _ _ _ Ht)|]. vm_compute. reflexivity.
Defined.

(** ** A writer whose data has all been taken *)

(** What the pipe holds after thread 1 wrote to it and thread 2 read from it. *)
Definition after_write_and_read (written read : Z) (k : kernel) (o : pobj) : option ((Z * option Z) * St) :=
  match z_impl_k_pipe_put 3000 written written K_FOREVER (k, o) with
  | Swapped s _ =>
      match z_impl_k_pipe_get 4000 read read K_NO_WAIT s with
      | Done r s' => Some (r, s')
      | Swapped _ _ => None
      end
  | Done _ _ => None
  end.


End PipesThm.
