(* ===== verification/Work.v ===== *)
(** Work queues (kernel/work.c).

    Work items, queues, and the objects that synchronous calls wait with are
    named by their addresses; the lists that link them are the linked memory
    of [SList].  The handlers of the items are client code, an argument of
    the loop of the queue thread.  A [k_work_sync] at address [s] is at once a
    flusher (whose work item has the same address) and a canceller, of which
    one is in use at a time. *)
From S2P Require Import Prelude TimeUnits Timeout Kernel Sched Sem GenList SList.

Module Work.

Definition NULL : Z := 0.

Definition K_WORK_RUNNING_BIT : Z := 0.
Definition K_WORK_CANCELING_BIT : Z := 1.
Definition K_WORK_QUEUED_BIT : Z := 2.
Definition K_WORK_DELAYED_BIT : Z := 3.
Definition K_WORK_MASK : Z :=
  Z.lor (Z.lor (BIT K_WORK_DELAYED_BIT) (BIT K_WORK_QUEUED_BIT))
        (Z.lor (BIT K_WORK_RUNNING_BIT) (BIT K_WORK_CANCELING_BIT)).
Definition K_WORK_DELAYABLE_BIT : Z := 8.

Definition K_WORK_QUEUE_STARTED_BIT : Z := 0.
Definition K_WORK_QUEUE_BUSY_BIT : Z := 1.
Definition K_WORK_QUEUE_DRAIN_BIT : Z := 2.
Definition K_WORK_QUEUE_PLUGGED_BIT : Z := 3.
Definition K_WORK_QUEUE_NO_YIELD_BIT : Z := 8.

Definition flag_clear (flags bit : Z) : Z := Z.ldiff flags (BIT bit).
Definition flag_set (flags bit : Z) : Z := Z.lor flags (BIT bit).
Definition flag_test (flags bit : Z) : bool := negb (Z.land flags (BIT bit) =? 0).

(** [handler] names the function; the flusher's is [handle_flush]. *)
Record k_work := mk_work { handler : Z; queue : Z; flags : Z }.

#[export] Instance set_queue : Settable queue := fun f w => mk_work (handler w) (f (queue w)) (flags w).
#[export] Instance set_flags : Settable flags := fun f w => mk_work (handler w) (queue w) (f (flags w)).

Record k_work_q := mk_work_q {
  thread : tid;
  pending : sys_slist;
  notifyq : wqid;
  drainq : wqid;
  qflags : Z
}.

#[export] Instance set_pending : Settable pending := fun f q =>
  mk_work_q (thread q) (f (pending q)) (notifyq q) (drainq q) (qflags q).
#[export] Instance set_qflags : Settable qflags := fun f q =>
  mk_work_q (thread q) (pending q) (notifyq q) (drainq q) (f (qflags q)).

(** The data of the client, which only its handlers use. *)
Class client := { user_state : Type }.

(** [snext] are the list nodes, [dw_queue] the member [queue] of the delayable
    items, [wc_work] the member [work] of the cancellers, [sems] the
    semaphores of the synchronous calls. *)
Record wstate `{client} := mk_wstate {
  works : Z -> k_work;
  dw_queue : Z -> Z;
  queues : Z -> k_work_q;
  snext : snodes;
  pending_cancels : sys_slist;
  wc_work : Z -> Z;
  sems : Z -> Sem.k_sem;
  user : user_state
}.
#[global] Arguments mk_wstate {_} _ _ _ _ _ _ _ _.

#[export] Instance set_works `{client} : Settable works := fun f o =>
  mk_wstate (f (works o)) (dw_queue o) (queues o) (snext o) (pending_cancels o) (wc_work o) (sems o) (user o).
#[export] Instance set_dw_queue `{client} : Settable dw_queue := fun f o =>
  mk_wstate (works o) (f (dw_queue o)) (queues o) (snext o) (pending_cancels o) (wc_work o) (sems o) (user o).
#[export] Instance set_queues `{client} : Settable queues := fun f o =>
  mk_wstate (works o) (dw_queue o) (f (queues o)) (snext o) (pending_cancels o) (wc_work o) (sems o) (user o).
#[export] Instance set_snext `{client} : Settable snext := fun f o =>
  mk_wstate (works o) (dw_queue o) (queues o) (f (snext o)) (pending_cancels o) (wc_work o) (sems o) (user o).
#[export] Instance set_pending_cancels `{client} : Settable pending_cancels := fun f o =>
  mk_wstate (works o) (dw_queue o) (queues o) (snext o) (f (pending_cancels o)) (wc_work o) (sems o) (user o).
#[export] Instance set_wc_work `{client} : Settable wc_work := fun f o =>
  mk_wstate (works o) (dw_queue o) (queues o) (snext o) (pending_cancels o) (f (wc_work o)) (sems o) (user o).
#[export] Instance set_sems `{client} : Settable sems := fun f o =>
  mk_wstate (works o) (dw_queue o) (queues o) (snext o) (pending_cancels o) (wc_work o) (f (sems o)) (user o).

#[export] Instance set_user `{client} : Settable user := fun f o =>
  mk_wstate (works o) (dw_queue o) (queues o) (snext o) (pending_cancels o) (wc_work o) (sems o) (f (user o)).

Abbreviation St := (kernel * wstate)%type.

Definition sem_at `{client} (s : Z) : Sem.sem_place wstate := {|
  Sem.sem_of o := sems o s;
  Sem.sem_upd f o := o <| sems ::= fun m => <[s := f (m s)]> m |>
|}.

(** What the code cannot know: the address of the system queue, the name of
    [handle_flush], a bound on the number of items, and the client's
    handlers. *)
Class work_env `{client} := {
  k_sys_work_q : Z;
  HANDLE_FLUSH : Z;
  list_fuel : nat;
  client_handler : Z -> Z -> M St unit
}.

Definition upd_work `{client} (w : Z) (f : k_work -> k_work) (o : wstate) : wstate :=
  o <| works ::= fun m => <[w := f (m w)]> m |>.
Definition upd_queue `{client} (q : Z) (f : k_work_q -> k_work_q) (o : wstate) : wstate :=
  o <| queues ::= fun m => <[q := f (m q)]> m |>.

Section Code.
Context {cl : client} {env : work_env}.

Definition set_flag (w bit : Z) : M St unit := omod (upd_work w (fun x => x <| flags ::= fun f => flag_set f bit |>)).
Definition clear_flag (w bit : Z) : M St unit :=
  omod (upd_work w (fun x => x <| flags ::= fun f => flag_clear f bit |>)).
Definition test_flag (w bit : Z) : M St bool := oget (fun o => flag_test (flags (works o w)) bit).
Definition set_qflag (q bit : Z) : M St unit :=
  omod (upd_queue q (fun x => x <| qflags ::= fun f => flag_set f bit |>)).
Definition clear_qflag (q bit : Z) : M St unit :=
  omod (upd_queue q (fun x => x <| qflags ::= fun f => flag_clear f bit |>)).
Definition test_qflag (q bit : Z) : M St bool := oget (fun o => flag_test (qflags (queues o q)) bit).

Definition flag_test_and_clear (w bit : Z) : M St bool :=
  ret_ <- test_flag w bit ;; clear_flag w bit ;; ret ret_.
Definition qflag_test_and_clear (q bit : Z) : M St bool :=
  ret_ <- test_qflag q bit ;; clear_qflag q bit ;; ret ret_.

(** A list operation on the pending items of [q]. *)
Definition on_pending (q : Z) (f : sys_slist * snodes -> sys_slist * snodes) (o : wstate) : wstate :=
  let '(L, w) := f (pending (queues o q), snext o) in
  upd_queue q (fun x => x <| pending := L |>) o <| snext := w |>.

(** ** Items and the objects of synchronous calls *)

Definition k_work_init (work hdl : Z) : M St unit :=
  omod (fun o => upd_work work (fun _ => mk_work hdl NULL 0) o <| snext ::= <[work := NULL]> |>).

Definition handle_flush (work : Z) : M St unit := Sem.z_impl_k_sem_give (P := sem_at work).

Definition init_flusher (flusher : Z) : M St unit :=
  _ <- Sem.z_impl_k_sem_init (P := sem_at flusher) 0 1 ;;
  k_work_init flusher HANDLE_FLUSH.

Definition init_work_cancel (canceler work : Z) : M St unit :=
  _ <- Sem.z_impl_k_sem_init (P := sem_at canceler) 0 1 ;;
  omod (fun o =>
    let o := o <| wc_work ::= <[canceler := work]> |> in
    let '(L, w) := sys_slist_append canceler (pending_cancels o, snext o) in
    o <| pending_cancels := L |> <| snext := w |>).

(** The loop of [finalize_cancel_locked]; the next node is read before the
    body runs. *)
Fixpoint finalize_loop (fuel : nat) (work prev wc : Z) : M St unit :=
  match fuel with
  | O => ret tt
  | S fuel' =>
      if wc =? NULL then ret tt
      else
        tmp <- oget (fun o => sys_slist_peek_next wc (snext o)) ;;
        mine <- oget (fun o => wc_work o wc =? work) ;;
        if (mine : bool) then
          omod (fun o => let '(L, w) := sys_slist_remove prev wc (pending_cancels o, snext o) in
                         o <| pending_cancels := L |> <| snext := w |>) ;;
          Sem.z_impl_k_sem_give (P := sem_at wc) ;;
          finalize_loop fuel' work prev tmp
        else finalize_loop fuel' work wc tmp
  end.

Definition finalize_cancel_locked (work : Z) : M St unit :=
  clear_flag work K_WORK_CANCELING_BIT ;;
  hd <- oget (fun o => sys_slist_peek_head (pending_cancels o)) ;;
  finalize_loop list_fuel work NULL hd.

Definition work_busy_get_locked (work : Z) : M St Z :=
  oget (fun o => Z.land (flags (works o work)) K_WORK_MASK).

Definition k_work_busy_get (work : Z) : M St Z :=
  key <- k_spin_lock ;;
  r <- work_busy_get_locked work ;;
  k_spin_unlock key ;;
  ret r.

(** ** Queues *)

(** The search loop is that of [find_and_remove]. *)
Definition queue_flusher_locked (q work flusher : Z) : M St unit :=
  in_list <- oget (fun o => match find_from (N := snode_links) list_fuel NULL
                                    (sys_slist_peek_head (pending (queues o q))) work (snext o) with
                            | Some (Some _) => true
                            | _ => false
                            end) ;;
  init_flusher flusher ;;
  if (in_list : bool) then omod (on_pending q (sys_slist_insert work flusher))
  else omod (on_pending q (sys_slist_prepend flusher)).

Definition queue_remove_locked (q work : Z) : M St unit :=
  queued <- flag_test_and_clear work K_WORK_QUEUED_BIT ;;
  if (queued : bool) then
    omod (on_pending q (fun s => match sys_slist_find_and_remove list_fuel work s with
                                 | Some (_, s') => s'
                                 | None => s
                                 end))
  else ret tt.

Definition notify_queue_locked (q : Z) : M St bool :=
  if negb (q =? NULL) then
    w <- oget (fun o => notifyq (queues o q)) ;;
    kcall (z_sched_wake w 0 NULL)
  else ret false.

Definition queue_submit_locked (q work : Z) : M St Z :=
  if q =? NULL then ret (- EINVAL)
  else
    th <- oget (fun o => thread (queues o q)) ;;
    chained <- kget (fun k => bool_decide (current k = th) && negb (in_isr k)) ;;
    draining <- test_qflag q K_WORK_QUEUE_DRAIN_BIT ;;
    plugged <- test_qflag q K_WORK_QUEUE_PLUGGED_BIT ;;
    started <- test_qflag q K_WORK_QUEUE_STARTED_BIT ;;
    if negb started then ret (- ENODEV)
    else if draining && negb chained then ret (- EBUSY)
    else if plugged && negb draining then ret (- EBUSY)
    else
      omod (on_pending q (sys_slist_append work)) ;;
      _ <- notify_queue_locked q ;;
      ret 1.

(** The second component is what [*queuep] holds afterwards. *)
Definition submit_to_queue_locked (work queuep : Z) : M St (Z * Z) :=
  canceling <- test_flag work K_WORK_CANCELING_BIT ;;
  queued <- test_flag work K_WORK_QUEUED_BIT ;;
  r <- (if (canceling : bool) then ret (- EBUSY, queuep)
        else if negb queued then
          wq <- oget (fun o => queue (works o work)) ;;
          running <- test_flag work K_WORK_RUNNING_BIT ;;
          let q := if queuep =? NULL then wq else queuep in
          let q := if (running : bool) then wq else q in
          rc <- queue_submit_locked q work ;;
          if rc <? 0 then ret (rc, q)
          else
            set_flag work K_WORK_QUEUED_BIT ;;
            omod (upd_work work (fun x => x <| queue := q |>)) ;;
            ret (if (running : bool) then 2 else 1, q)
        else ret (0, queuep)) ;;
  ret (r.1, if r.1 <=? 0 then NULL else r.2).

Definition z_work_submit_to_queue (q work : Z) : M St Z :=
  key <- k_spin_lock ;;
  r <- submit_to_queue_locked work q ;;
  k_spin_unlock key ;;
  ret r.1.

Definition k_work_submit_to_queue (q work : Z) : M St Z :=
  r <- z_work_submit_to_queue q work ;;
  (if r >? 0 then z_reschedule_unlocked else ret tt) ;;
  ret r.

Definition k_work_submit (work : Z) : M St Z := k_work_submit_to_queue k_sys_work_q work.

(** ** Flushing and cancelling *)

Definition work_flush_locked (work flusher : Z) : M St bool :=
  need_flush <- oget (fun o => negb (Z.land (flags (works o work))
                                (Z.lor (BIT K_WORK_QUEUED_BIT) (BIT K_WORK_RUNNING_BIT)) =? 0)) ;;
  if (need_flush : bool) then
    q <- oget (fun o => queue (works o work)) ;;
    queue_flusher_locked q work flusher ;;
    _ <- notify_queue_locked q ;;
    ret true
  else ret false.

Definition k_work_flush (work sync : Z) : M St bool :=
  key <- k_spin_lock ;;
  need_flush <- work_flush_locked work sync ;;
  k_spin_unlock key ;;
  (if (need_flush : bool) then (_ <- Sem.z_impl_k_sem_take (P := sem_at sync) K_FOREVER ;; ret tt) else ret tt) ;;
  ret need_flush.

Definition cancel_async_locked (work : Z) : M St Z :=
  canceling <- test_flag work K_WORK_CANCELING_BIT ;;
  (if negb canceling then (q <- oget (fun o => queue (works o work)) ;; queue_remove_locked q work) else ret tt) ;;
  r <- work_busy_get_locked work ;;
  if negb (r =? 0) then
    set_flag work K_WORK_CANCELING_BIT ;;
    work_busy_get_locked work
  else ret r.

Definition cancel_sync_locked (work canceller : Z) : M St bool :=
  r <- test_flag work K_WORK_CANCELING_BIT ;;
  (if (r : bool) then init_work_cancel canceller work else ret tt) ;;
  ret r.

Definition k_work_cancel (work : Z) : M St Z :=
  key <- k_spin_lock ;;
  r <- cancel_async_locked work ;;
  k_spin_unlock key ;;
  ret r.

Definition k_work_cancel_sync (work sync : Z) : M St bool :=
  key <- k_spin_lock ;;
  busy <- work_busy_get_locked work ;;
  let pending := negb (busy =? 0) in
  need_wait <- (if (pending : bool) then (_ <- cancel_async_locked work ;; cancel_sync_locked work sync)
                else ret false) ;;
  k_spin_unlock key ;;
  (if (need_wait : bool) then (_ <- Sem.z_impl_k_sem_take (P := sem_at sync) K_FOREVER ;; ret tt) else ret tt) ;;
  ret pending.

(** ** The thread of a queue *)

Definition call_handler (hdl work : Z) : M St unit :=
  if hdl =? HANDLE_FLUSH then handle_flush work else client_handler hdl work.

(** The locked part before the handler: the item to run and its handler, or
    NULL after the thread has waited to be notified. *)
Definition work_queue_next (q : Z) : M St (Z * Z) :=
  key <- k_spin_lock ;;
  node <- (fun s => let '(n, (L, w)) := sys_slist_get (pending (queues s.2 q), snext s.2) in
                    Done n (s.1, upd_queue q (fun x => x <| pending := L |>) s.2 <| snext := w |>)) ;;
  if negb (node =? NULL) then
    set_qflag q K_WORK_QUEUE_BUSY_BIT ;;
    set_flag node K_WORK_RUNNING_BIT ;;
    clear_flag node K_WORK_QUEUED_BIT ;;
    hdl <- oget (fun o => handler (works o node)) ;;
    k_spin_unlock key ;;
    ret (node, hdl)
  else
    draining <- qflag_test_and_clear q K_WORK_QUEUE_DRAIN_BIT ;;
    (if (draining : bool) then
       (w <- oget (fun o => drainq (queues o q)) ;; _ <- kcall (z_sched_wake_all w 1 NULL) ;; ret tt)
     else ret tt) ;;
    nq <- oget (fun o => notifyq (queues o q)) ;;
    _ <- z_sched_wait key nq K_FOREVER ;;
    ret (NULL, NULL).

(** The locked part after the handler, and the optional yield. *)
Definition work_queue_done (q work : Z) : M St unit :=
  key <- k_spin_lock ;;
  clear_flag work K_WORK_RUNNING_BIT ;;
  canceling <- test_flag work K_WORK_CANCELING_BIT ;;
  (if (canceling : bool) then finalize_cancel_locked work else ret tt) ;;
  clear_qflag q K_WORK_QUEUE_BUSY_BIT ;;
  no_yield <- test_qflag q K_WORK_QUEUE_NO_YIELD_BIT ;;
  k_spin_unlock key ;;
  if negb no_yield then z_impl_k_yield else ret tt.

(** [n] rounds of the endless loop. *)
Fixpoint work_queue_main (n : nat) (q : Z) : M St unit :=
  match n with
  | O => ret tt
  | S n' =>
      r <- work_queue_next q ;;
      (if r.1 =? NULL then ret tt
       else (call_handler r.2 r.1 ;; work_queue_done q r.1)) ;;
      work_queue_main n' q
  end.

Definition k_work_queue_init (q : Z) : M St unit :=
  omod (upd_queue q (fun x => x <| pending := sys_slist_init |> <| qflags := 0 |>)).

Definition k_work_queue_drain (q : Z) (plug : bool) : M St Z :=
  key <- k_spin_lock ;;
  x <- oget (fun o => queues o q) ;;
  if negb (Z.land (qflags x) (Z.lor (BIT K_WORK_QUEUE_BUSY_BIT) (BIT K_WORK_QUEUE_DRAIN_BIT)) =? 0)
     || plug || negb (sys_slist_is_empty (pending x)) then
    set_qflag q K_WORK_QUEUE_DRAIN_BIT ;;
    (if plug then set_qflag q K_WORK_QUEUE_PLUGGED_BIT else ret tt) ;;
    _ <- notify_queue_locked q ;;
    r <- z_sched_wait key (drainq x) K_FOREVER ;;
    ret r.1
  else
    k_spin_unlock key ;;
    ret 0.

Definition k_work_queue_unplug (q : Z) : M St Z :=
  key <- k_spin_lock ;;
  plugged <- qflag_test_and_clear q K_WORK_QUEUE_PLUGGED_BIT ;;
  k_spin_unlock key ;;
  ret (if (plugged : bool) then 0 else - EALREADY).

(** ** Delayable items *)

(** The timeout that is a member of the item at [dwork]. *)
Definition work_to (dwork : Z) : toid := TO_timer (Z.to_pos dwork).

Definition k_work_init_delayable (dwork hdl : Z) : M St unit :=
  omod (fun o => upd_work dwork (fun _ => mk_work hdl NULL (BIT K_WORK_DELAYABLE_BIT)) o
                 <| snext ::= <[dwork := NULL]> |> <| dw_queue ::= <[dwork := NULL]> |>).

Definition work_timeout (dwork : Z) : M St unit :=
  key <- k_spin_lock ;;
  delayed <- flag_test_and_clear dwork K_WORK_DELAYED_BIT ;;
  (if (delayed : bool) then
     (q <- oget (fun o => dw_queue o dwork) ;; _ <- submit_to_queue_locked dwork q ;; ret tt)
   else ret tt) ;;
  k_spin_unlock key.

Definition work_delayable_busy_get_locked (dwork : Z) : M St Z :=
  oget (fun o => Z.land (flags (works o dwork)) K_WORK_MASK).

Definition k_work_delayable_busy_get (dwork : Z) : M St Z :=
  key <- k_spin_lock ;;
  r <- work_delayable_busy_get_locked dwork ;;
  k_spin_unlock key ;;
  ret r.

Definition schedule_for_queue_locked (queuep dwork delay : Z) : M St (Z * Z) :=
  if delay =? K_NO_WAIT then submit_to_queue_locked dwork queuep
  else
    set_flag dwork K_WORK_DELAYED_BIT ;;
    omod (fun o => o <| dw_queue ::= <[dwork := queuep]> |>) ;;
    kmod (fun k => k <| tmo ::= z_add_timeout (work_to dwork) delay |>) ;;
    ret (1, queuep).

Definition unschedule_locked (dwork : Z) : M St bool :=
  delayed <- flag_test_and_clear dwork K_WORK_DELAYED_BIT ;;
  if (delayed : bool) then
    (rc <- kcall (fun k => let '(rc, q) := z_abort_timeout (work_to dwork) (tmo k) in (rc, k <| tmo := q |>)) ;;
     ret (rc =? 0))
  else ret false.

Definition cancel_delayable_async_locked (dwork : Z) : M St Z :=
  _ <- unschedule_locked dwork ;;
  cancel_async_locked dwork.

Definition k_work_schedule_for_queue (q dwork delay : Z) : M St Z :=
  key <- k_spin_lock ;;
  busy <- work_busy_get_locked dwork ;;
  r <- (if Z.ldiff busy (BIT K_WORK_RUNNING_BIT) =? 0 then
          (x <- schedule_for_queue_locked q dwork delay ;; ret x.1)
        else ret 0) ;;
  k_spin_unlock key ;;
  ret r.

Definition k_work_schedule (dwork delay : Z) : M St Z := k_work_schedule_for_queue k_sys_work_q dwork delay.

Definition k_work_reschedule_for_queue (q dwork delay : Z) : M St Z :=
  key <- k_spin_lock ;;
  _ <- unschedule_locked dwork ;;
  r <- schedule_for_queue_locked q dwork delay ;;
  k_spin_unlock key ;;
  ret r.1.

Definition k_work_reschedule (dwork delay : Z) : M St Z := k_work_reschedule_for_queue k_sys_work_q dwork delay.

Definition k_work_cancel_delayable (dwork : Z) : M St Z :=
  key <- k_spin_lock ;;
  r <- cancel_delayable_async_locked dwork ;;
  k_spin_unlock key ;;
  ret r.

Definition k_work_cancel_delayable_sync (dwork sync : Z) : M St bool :=
  key <- k_spin_lock ;;
  busy <- work_delayable_busy_get_locked dwork ;;
  let pending := negb (busy =? 0) in
  need_wait <- (if (pending : bool) then (_ <- cancel_delayable_async_locked dwork ;; cancel_sync_locked dwork sync)
                else ret false) ;;
  k_spin_unlock key ;;
  (if (need_wait : bool) then (_ <- Sem.z_impl_k_sem_take (P := sem_at sync) K_FOREVER ;; ret tt) else ret tt) ;;
  ret pending.

Definition k_work_flush_delayable (dwork sync : Z) : M St bool :=
  key <- k_spin_lock ;;
  busy <- work_busy_get_locked dwork ;;
  if busy =? 0 then
    k_spin_unlock key ;;
    ret false
  else
    unscheduled <- unschedule_locked dwork ;;
    (if (unscheduled : bool) then
       (q <- oget (fun o => dw_queue o dwork) ;; _ <- submit_to_queue_locked dwork q ;; ret tt)
     else ret tt) ;;
    need_flush <- work_flush_locked dwork sync ;;
    k_spin_unlock key ;;
    (if (need_flush : bool) then (_ <- Sem.z_impl_k_sem_take (P := sem_at sync) K_FOREVER ;; ret tt) else ret tt) ;;
    ret need_flush.

End Code.

End Work.
