(* ===== verification/WorkInv.v ===== *)
(** The invariant of the work queues (kernel/work.c) and the code that runs
    under the lock.

    The invariant relates the flags of the items to the lists that link them,
    to the item that every queue thread is running, and to who waits for
    what.  Every function that runs under the lock is shown to keep it, without
    a switch. *)
From stdpp Require Import gmap sets.
From S2P Require Import Prelude TimeUnits Timeout Kernel Sched SchedInv SchedApi Tick Sem GenList SList Work.

Module WorkInv.
Import Work.

#[local] Existing Instances Sem.set_count Sem.set_limit.

(** ** Flags *)

Lemma flag_test_bit f b : 0 <= b -> flag_test f b = Z.testbit f b.
Proof.
  intros Hb. unfold flag_test. rewrite BIT_pow by done. destruct (Z.testbit f b) eqn:E.
  - apply negb_true_iff, Z.eqb_neq. intros H0. assert (Z.testbit (Z.land f (2 ^ b)) b = false) by (by rewrite H0, Z.bits_0).
    rewrite Z.land_spec, E, Z.pow2_bits_true in H by done. done.
  - apply negb_false_iff, Z.eqb_eq, Z.bits_inj'. intros i Hi. rewrite Z.land_spec, Z.bits_0.
    destruct (decide (i = b)) as [->|Hne]; [by rewrite E|]. by rewrite Z.pow2_bits_false, andb_false_r.
Qed.

Lemma flag_test_set f b i : 0 <= b -> 0 <= i -> flag_test (flag_set f b) i = flag_test f i || bool_decide (i = b).
Proof.
  intros Hb Hi. rewrite !flag_test_bit by done. unfold flag_set. by rewrite Z.lor_spec, BIT_testbit.
Qed.

Lemma flag_test_clear f b i :
  0 <= b -> 0 <= i -> flag_test (flag_clear f b) i = flag_test f i && negb (bool_decide (i = b)).
Proof.
  intros Hb Hi. rewrite !flag_test_bit by done. unfold flag_clear. by rewrite Z.ldiff_spec, BIT_testbit.
Qed.

(** ** The state of items and queues *)

Abbreviation running o w := (flag_test (flags (works o w)) K_WORK_RUNNING_BIT).
Abbreviation canceling o w := (flag_test (flags (works o w)) K_WORK_CANCELING_BIT).
Abbreviation queued o w := (flag_test (flags (works o w)) K_WORK_QUEUED_BIT).
Abbreviation delayed o w := (flag_test (flags (works o w)) K_WORK_DELAYED_BIT).
Abbreviation busy o q := (flag_test (qflags (queues o q)) K_WORK_QUEUE_BUSY_BIT).
Abbreviation draining o q := (flag_test (qflags (queues o q)) K_WORK_QUEUE_DRAIN_BIT).

(** Where things are: the queues, the items and sync objects, which of these
    are sync objects, the threads of the queues, and the wait queues of queues
    and sync objects, all different. *)
Class work_layout `{work_env} := {
  Q : gset Z;
  nodes : gset Z;
  nodes_pos x : x ∈ nodes -> 0 < x;
  nodes_fuel : (size nodes < list_fuel)%nat;
  sync : Z -> bool;
  owner : Z -> tid;
  nq : Z -> wqid;
  dq : Z -> wqid;
  sq : Z -> wqid;
  Q_null : NULL ∉ Q;
  nq_inj q q' : nq q = nq q' -> q = q';
  dq_inj q q' : dq q = dq q' -> q = q';
  sq_inj s s' : sq s = sq s' -> s = s';
  nq_dq q q' : nq q <> dq q';
  nq_sq q s : nq q <> sq s;
  dq_sq q s : dq q <> sq s
}.

Section Inv.
Context {cl : client} {env : work_env} {lay : work_layout}.

(** [ls q] are the pending items of [q], [cs] the pending cancellations. *)
Record wlinks (ls : Z -> list Z) (cs : list Z) (o : wstate) : Prop := {
  wl_pending q : q ∈ Q -> slist_is (pending (queues o q)) (snext o) (ls q);
  wl_cancels : slist_is (pending_cancels o) (snext o) cs;
  wl_apart q q' w : q ∈ Q -> q' ∈ Q -> w ∈ ls q -> w ∈ ls q' -> q = q';
  wl_cs c : c ∈ cs -> sync c = true /\ forall q, q ∈ Q -> c ∉ ls q;
  wl_nodes q x : q ∈ Q -> x ∈ ls q -> x ∈ nodes;
  wl_cs_nodes x : x ∈ cs -> x ∈ nodes
}.

(** [R q] is the item that the thread of [q] is running. *)
Record witems (R : Z -> option Z) (ls : Z -> list Z) (cs : list Z) (o : wstate) : Prop := {
  wi_listed q w : q ∈ Q -> w ∈ ls q ->
    if sync w then queued o w = false /\ running o w = false
    else queued o w = true /\ queue (works o w) = q;
  wi_queued w : queued o w = true ->
    sync w = false /\ queue (works o w) ∈ Q /\ w ∈ ls (queue (works o w));
  wi_running w : running o w = true <-> exists q, R q = Some w;
  wi_R q w : R q = Some w -> q ∈ Q /\ 0 < w /\ (sync w = false -> queue (works o w) = q);
  wi_R_inj q q' w : R q = Some w -> R q' = Some w -> q = q';
  wi_canceling w : canceling o w = true -> running o w = true /\ queued o w = false /\ sync w = false;
  wi_wc c : c ∈ cs -> canceling o (wc_work o c) = true;
  wi_cs c : c ∈ cs -> running o c = false;
  wi_queue w : sync w = false -> queue (works o w) ∈ Q \/ queue (works o w) = NULL
}.

Record wplaces (R : Z -> option Z) (o : wstate) : Prop := {
  wp_busy q : q ∈ Q -> busy o q = true <-> R q <> None;
  wp_owner q : thread (queues o q) = owner q;
  wp_nq q : notifyq (queues o q) = nq q;
  wp_dq q : drainq (queues o q) = dq q;
  wp_sq s : Sem.wait_q (sems o s) = sq s
}.

(** The items of the client have its handlers, flushers have their own. *)
Record whandlers (ls : Z -> list Z) (o : wstate) : Prop := {
  wh_client w : sync w = false -> handler (works o w) <> HANDLE_FLUSH;
  wh_flusher q c : q ∈ Q -> c ∈ ls q -> sync c = true -> handler (works o c) = HANDLE_FLUSH
}.

Record wpure (R : Z -> option Z) (ls : Z -> list Z) (cs : list Z) (o : wstate) : Prop := {
  wp_links : wlinks ls cs o;
  wp_items : witems R ls cs o;
  wp_places : wplaces R o;
  wp_handlers : whandlers ls o
}.

(** An object of a synchronous call that is waited for. *)
Definition awaited (ls : Z -> list Z) (cs : list Z) (c : Z) : Prop := c ∈ cs \/ exists q, q ∈ Q /\ c ∈ ls q.

(** Who waits: the thread of a queue only when there is nothing to do, threads
    that drain it only while it drains, and the thread [W c], the user of the
    object [c], as long as that is pending. *)
Record wwait (W : Z -> option tid) (ls : Z -> list Z) (cs : list Z) (s : St) : Prop := {
  ww_idle q : q ∈ Q -> ls q <> [] \/ draining s.2 q = true -> waitqs s.1 (nq q) = [];
  ww_owner q t : q ∈ Q -> t ∈ waitqs s.1 (nq q) -> t = thread (queues s.2 q);
  ww_drain q : q ∈ Q -> waitqs s.1 (dq q) <> [] -> draining s.2 q = true;
  ww_count c : sync c = true -> awaited ls cs c -> Sem.count (sems s.2 c) = 0;
  ww_user c t : W c = Some t -> awaited ls cs c -> waitqs s.1 (sq c) = [t]
}.

Definition wok R W ls cs (s : St) : Prop := wpure R ls cs s.2 /\ wwait W ls cs s.

(** ** Reading an updated state *)

Lemma works_upd w f o w' : works (upd_work w f o) w' = if decide (w' = w) then f (works o w) else works o w'.
Proof.
  unfold upd_work. cbn. case_decide as H; [subst; apply fn_lookup_insert|by rewrite fn_lookup_insert_ne].
Qed.

Lemma queues_upd q f o q' : queues (upd_queue q f o) q' = if decide (q' = q) then f (queues o q) else queues o q'.
Proof.
  unfold upd_queue. cbn. case_decide as H; [subst; apply fn_lookup_insert|by rewrite fn_lookup_insert_ne].
Qed.

(** ** The lists *)

(** An address that is in no list. *)
Definition unlisted (ls : Z -> list Z) (cs : list Z) (x : Z) : Prop := x ∉ cs /\ forall q, q ∈ Q -> x ∉ ls q.

Lemma nodes_length (l : list Z) : NoDup l -> (forall x, x ∈ l -> x ∈ nodes) -> (length l < list_fuel)%nat.
Proof.
  intros Hn Hx. pose proof nodes_fuel. assert (size (list_to_set l : gset Z) <= size nodes)%nat as Hs
    by (apply subseteq_size; set_solver). rewrite size_list_to_set in Hs by done. lia.
Qed.

Lemma elem_insert (ls : Z -> list Z) q l' q' w :
  w ∈ (<[q := l']> ls) q' <-> (q' = q /\ w ∈ l') \/ (q' <> q /\ w ∈ ls q').
Proof.
  destruct (decide (q' = q)) as [->|N]; rewrite ?fn_lookup_insert, ?fn_lookup_insert_ne by done; naive_solver.
Qed.

(** A list operation on [q] that adds at most the unlisted node [x] and writes
    only links of these nodes. *)
Lemma links_insert ls cs o q l' L' w' x n :
  wlinks ls cs o -> q ∈ Q -> unlisted ls cs x -> (x ∈ l' -> x ∈ nodes) ->
  slist_is L' w' l' -> (forall y, y ∈ l' -> y ∈ ls q \/ y = x) ->
  slinked n (snext o) w' -> (forall y, y ∈ n -> y ∈ ls q \/ y = x) ->
  wlinks (<[q := l']> ls) cs (upd_queue q (fun y => y <| pending := L' |>) o <| snext := w' |>).
Proof.
  intros H Hq [Hu1 Hu2] Hx Hl Hl' Hn Hn'. set (o' := upd_queue q _ o <| snext := w' |>).
  assert (forall q', queues o' q' = if decide (q' = q) then (queues o q) <| pending := L' |> else queues o q') as Eq
    by (intros; unfold o'; by rewrite queues_upd).
  split.
  - intros q' Hq'. rewrite Eq. case_decide as E; [subst; by rewrite fn_lookup_insert|].
    rewrite fn_lookup_insert_ne by done. eapply list_linked_frame; [exact Hn| |by apply H].
    intros y [Hy| ->]%Hn' Hy'; [destruct E; by eapply (wl_apart _ _ _ H)|by eapply Hu2].
  - eapply list_linked_frame; [exact Hn| |by apply H]. intros y [Hy| ->]%Hn' Hy'; [|done].
    destruct (wl_cs _ _ _ H y Hy') as [_ Hc]. by eapply Hc.
  - intros q1 q2 w H1 H2. rewrite !elem_insert. intros [[-> A]|[N1 A]] [[-> B]|[N2 B]]; [done| | |].
    + apply Hl' in A as [A| ->]; [by eapply (wl_apart _ _ _ H)|by destruct (Hu2 q2)].
    + apply Hl' in B as [B| ->]; [by eapply (wl_apart _ _ _ H)|by destruct (Hu2 q1)].
    + by eapply (wl_apart _ _ _ H).
  - intros c Hc. destruct (wl_cs _ _ _ H c Hc) as [? Hcl]. split; [done|]. intros q' Hq'. rewrite elem_insert.
    intros [[-> A]|[_ A]]; [|by eapply Hcl]. apply Hl' in A as [A| ->]; [by eapply Hcl|done].
  - intros q' y Hq'. rewrite elem_insert. intros [[-> A]|[_ A]]; [|by eapply (wl_nodes _ _ _ H)].
    destruct (Hl' y A) as [A'| ->]; [by eapply (wl_nodes _ _ _ H)|auto].
  - apply H.
Qed.

(** The same for an operation that only removes. *)
Lemma links_sub ls cs o q l' L' w' n :
  wlinks ls cs o -> q ∈ Q -> slist_is L' w' l' -> l' ⊆ ls q -> slinked n (snext o) w' -> n ⊆ ls q ->
  wlinks (<[q := l']> ls) cs (upd_queue q (fun y => y <| pending := L' |>) o <| snext := w' |>).
Proof.
  intros H Hq Hl Hl' Hn Hn'.
  assert (NULL ∉ ls q) as H0 by (intros Hx; pose proof (slist_pos _ _ _ _ (wl_pending _ _ _ H q Hq) Hx); unfold NULL in *; lia).
  apply (links_insert _ _ _ _ _ _ _ NULL n); try done; [|by intros ?%Hl'|by intros; left; apply Hl'|by intros; left; apply Hn'].
  split; [|intros q' Hq']; intros Hx; [pose proof (slist_pos _ _ _ _ (wl_cancels _ _ _ H) Hx)
    |pose proof (slist_pos _ _ _ _ (wl_pending _ _ _ H q' Hq') Hx)]; unfold NULL in *; lia.
Qed.

(** Changes of the items that keep the lists. *)
Lemma links_same ls cs o o' :
  (forall q, pending (queues o' q) = pending (queues o q)) -> (forall x, snext o' x = snext o x) ->
  pending_cancels o' = pending_cancels o -> wlinks ls cs o -> wlinks ls cs o'.
Proof.
  intros Hp Hn Hc [H1 H2 H3 H4 H5 H6]. split; try done.
  - intros q Hq. rewrite Hp. eapply list_frame; [|by apply H1]. intros x _. apply Hn.
  - rewrite Hc. eapply list_frame; [|done]. intros x _. apply Hn.
Qed.

Lemma links_cancels ls cs o cs' L' w' n :
  wlinks ls cs o -> slist_is L' w' cs' -> slinked n (snext o) w' ->
  (forall y, y ∈ cs' \/ y ∈ n -> y ∈ cs \/ y ∈ nodes /\ sync y = true /\ forall q, q ∈ Q -> y ∉ ls q) ->
  wlinks ls cs' (o <| pending_cancels := L' |> <| snext := w' |>).
Proof.
  intros H Hl Hn Hy.
  assert (forall y, y ∈ cs' \/ y ∈ n -> sync y = true /\ forall q, q ∈ Q -> y ∉ ls q) as Hy'
    by (intros y [?|[_ ?]]%Hy; [by apply (wl_cs _ _ _ H)|done]).
  split; [|done|apply H|auto|apply H|].
  2:{ intros x Hx. destruct (Hy x (or_introl Hx)) as [?|[? _]]; [by eapply wl_cs_nodes|done]. }
  intros q Hq. eapply list_linked_frame; [exact Hn| |by apply H].
  intros y Hyn Hyl. destruct (Hy' y (or_intror Hyn)) as [_ Hc]. by eapply Hc.
Qed.

(** ** The items *)

Lemma places_same R o o' :
  (forall q, busy o' q = busy o q) -> (forall q, thread (queues o' q) = thread (queues o q)) ->
  (forall q, notifyq (queues o' q) = notifyq (queues o q)) ->
  (forall q, drainq (queues o' q) = drainq (queues o q)) ->
  (forall x, Sem.wait_q (sems o' x) = Sem.wait_q (sems o x)) -> wplaces R o -> wplaces R o'.
Proof.
  intros Hb Ht Hn Hd Hs [H1 H2 H3 H4 H5]. split.
  - intros q. rewrite Hb. apply H1.
  - intros q. by rewrite Ht.
  - intros q. by rewrite Hn.
  - intros q. by rewrite Hd.
  - intros x. by rewrite Hs.
Qed.

Lemma handlers_same ls ls' o o' :
  (forall w, handler (works o' w) = handler (works o w)) ->
  (forall q c, q ∈ Q -> c ∈ ls' q -> sync c = true -> exists q', q' ∈ Q /\ c ∈ ls q') ->
  whandlers ls o -> whandlers ls' o'.
Proof.
  intros E Hl [H1 H2]. split.
  - intros w. rewrite E. apply H1.
  - intros q c Hq Hc Hs. rewrite E. destruct (Hl q c Hq Hc Hs) as (q' & ? & ?). by eapply H2.
Qed.

(** The usual case: items leave the list of one queue. *)
Lemma handlers_sub ls o o' q l' :
  (forall w, handler (works o' w) = handler (works o w)) -> q ∈ Q ->
  (forall c, c ∈ l' -> sync c = true -> c ∈ ls q) ->
  whandlers ls o -> whandlers (<[q := l']> ls) o'.
Proof.
  intros E HQ Hl. apply handlers_same; [done|]. intros q' c HQ' Hc Hs.
  destruct (decide (q' = q)) as [->|N]; [rewrite fn_lookup_insert in Hc; eauto|rewrite fn_lookup_insert_ne in Hc by done; eauto].
Qed.

Lemma items_same R ls cs o o' :
  (forall w b, 0 <= b < 3 -> flag_test (flags (works o' w)) b = flag_test (flags (works o w)) b) ->
  (forall w, queue (works o' w) = queue (works o w)) -> (forall c, c ∈ cs -> wc_work o' c = wc_work o c) ->
  witems R ls cs o -> witems R ls cs o'.
Proof.
  intros Hf Hq Hc [H1 H2 H3 H4 H5 H6 H7 H9 H8]. assert (Hr := fun w => Hf w K_WORK_RUNNING_BIT ltac:(done)).
  assert (Hca := fun w => Hf w K_WORK_CANCELING_BIT ltac:(done)). assert (Hqu := fun w => Hf w K_WORK_QUEUED_BIT ltac:(done)).
  split; try done.
  - intros q w. rewrite Hqu, Hr, Hq. apply H1.
  - intros w. rewrite Hqu, Hq. apply H2.
  - intros w. rewrite Hr. apply H3.
  - intros q w. rewrite Hq. apply H4.
  - intros w. rewrite Hca, Hr, Hqu. apply H6.
  - intros c Hin. rewrite Hc, Hca by done. by apply H7.
  - intros c. rewrite Hr. apply H9.
  - intros w. rewrite Hq. apply H8.
Qed.

Lemma idle_unlisted R ls cs o w :
  wlinks ls cs o -> witems R ls cs o -> sync w = false -> queued o w = false -> unlisted ls cs w.
Proof.
  intros Hl H Hs Hq. split.
  - intros Hc. destruct (wl_cs _ _ _ Hl w Hc) as [Hc' _]. congruence.
  - intros q Hin Hw. pose proof (wi_listed _ _ _ _ H q w Hin Hw) as Hw'. rewrite Hs in Hw'. destruct Hw'. congruence.
Qed.

(** An idle or running item is submitted to [q]. *)
Lemma items_enqueue R ls cs o o' q w :
  witems R ls cs o -> unlisted ls cs w -> q ∈ Q -> sync w = false -> canceling o w = false ->
  (running o w = true -> queue (works o w) = q) ->
  (forall x, running o' x = running o x) -> (forall x, canceling o' x = canceling o x) ->
  (forall x, queued o' x = queued o x || bool_decide (x = w)) ->
  (forall x, queue (works o' x) = if decide (x = w) then q else queue (works o x)) ->
  (forall c, wc_work o' c = wc_work o c) ->
  witems R (<[q := ls q ++ [w]]> ls) cs o'.
Proof.
  intros H [_ Hu] Hq Hs Hcw Hrw Er Ec Eq Equ Ew. split.
  - intros q' x Hq'. rewrite elem_insert, elem_of_app, list_elem_of_singleton, Eq, Er, Equ.
    destruct (decide (x = w)) as [->|Hne].
    + rewrite Hs, bool_decide_eq_true_2, orb_true_r by done. intros [[-> _]|[_ ?]]; [done|by destruct (Hu q')].
    + rewrite (bool_decide_eq_false_2 (x = w)), orb_false_r by done.
      intros [[-> [Hx|?]]|[_ Hx]]; [|done|]; by apply (wi_listed _ _ _ _ H _ _ Hq').
  - intros x. rewrite Eq, Equ, orb_true_iff, bool_decide_eq_true, elem_insert, elem_of_app, list_elem_of_singleton.
    destruct (decide (x = w)) as [->|Hne]; [intros _; split_and!; auto|]. intros [Hx|?]; [|done].
    destruct (wi_queued _ _ _ _ H x Hx) as (? & ? & ?). split_and!; try done.
    destruct (decide (queue (works o x) = q)) as [<-|]; auto.
  - intros x. rewrite Er. apply H.
  - intros q' x Hx. rewrite Equ. destruct (wi_R _ _ _ _ H q' x Hx) as (? & ? & Hqx). split_and!; try done.
    intros Hsx. case_decide as E; [|auto]. subst x. rewrite <-(Hrw ltac:(apply H; eauto)). auto.
  - apply H.
  - intros x. rewrite Ec, Er, Eq. intros Hc. destruct (wi_canceling _ _ _ _ H x Hc) as (? & -> & ?).
    split_and!; try done. simpl. apply bool_decide_eq_false. congruence.
  - intros c Hc. rewrite Ec, Ew. by apply H.
  - intros c. rewrite Er. apply H.
  - intros x Hx. rewrite Equ. case_decide; [auto|by apply H].
Qed.

(** A queued item leaves its queue. *)
Lemma items_remove R ls cs o o' q w a b :
  witems R ls cs o -> wlinks ls cs o -> q ∈ Q -> ls q = a ++ w :: b ->
  (forall x, running o' x = running o x) -> (forall x, canceling o' x = canceling o x) ->
  (forall x, queued o' x = queued o x && negb (bool_decide (x = w))) ->
  (forall x, queue (works o' x) = queue (works o x)) ->
  (forall c, wc_work o' c = wc_work o c) ->
  witems R (<[q := a ++ b]> ls) cs o'.
Proof.
  intros H Hl Hq El Er Ec Eq Equ Ew.
  assert (w ∈ ls q) as Hw by (rewrite El; set_solver).
  assert (w ∉ a ++ b) as Hab.
  { pose proof (li_nodup _ _ _ (wl_pending _ _ _ Hl q Hq)) as Hn. rewrite El in Hn.
    by apply NoDup_app in Hn as (_ & ? & [? _]%NoDup_cons); set_solver. }
  assert (forall q' x, q' ∈ Q -> x ∈ (<[q := a ++ b]> ls) q' <-> x ∈ ls q' /\ x <> w) as Hin.
  { intros q' x Hq'. rewrite elem_insert. destruct (decide (q' = q)) as [->|N].
    - rewrite El. set_solver.
    - split; [|naive_solver]. intros [[? _]|[_ Hx]]; [done|]. split; [done|]. intros ->.
      destruct N. by eapply (wl_apart _ _ _ Hl). }
  split.
  - intros q' x Hq' [Hx Hne]%Hin; [|done]. rewrite Eq, Er, Equ, (bool_decide_eq_false_2 (x = w)), andb_true_r by done.
    by apply (wi_listed _ _ _ _ H).
  - intros x. rewrite Eq, Equ, andb_true_iff, negb_true_iff, bool_decide_eq_false. intros [Hx Hne].
    destruct (wi_queued _ _ _ _ H x Hx) as (? & ? & ?). split_and!; try done. by apply Hin.
  - intros x. rewrite Er. apply H.
  - intros q' x. rewrite Equ. apply H.
  - apply H.
  - intros x. rewrite Ec, Er, Eq. intros Hc. destruct (wi_canceling _ _ _ _ H x Hc) as (? & -> & ?). done.
  - intros c Hc. rewrite Ec, Ew. by apply H.
  - intros c. rewrite Er. apply H.
  - intros x. rewrite Equ. apply H.
Qed.

(** The thread of [q] starts to run [w]. *)
Lemma items_start R ls cs o o' q w :
  witems R ls cs o -> q ∈ Q -> R q = None -> 0 < w -> (sync w = false -> queue (works o w) = q) ->
  running o w = false -> queued o w = false -> (forall q', q' ∈ Q -> w ∉ ls q') -> w ∉ cs ->
  (forall x, running o' x = running o x || bool_decide (x = w)) -> (forall x, canceling o' x = canceling o x) ->
  (forall x, queued o' x = queued o x) -> (forall x, queue (works o' x) = queue (works o x)) ->
  (forall c, wc_work o' c = wc_work o c) ->
  witems (<[q := Some w]> R) ls cs o'.
Proof.
  intros H Hq HR Hw Hqw Hrw Hquw Hl Hcs Er Ec Eq Equ Ew.
  assert (forall q', R q' <> Some w) as HRw
    by (intros q' HR'; assert (running o w = true) by (apply H; eauto); congruence).
  split.
  - intros q' x Hq' Hx. rewrite Eq, Er, Equ, (bool_decide_eq_false_2 (x = w)), orb_false_r
      by (intros ->; by eapply Hl). by apply H.
  - intros x. rewrite Eq, Equ. apply H.
  - intros x. rewrite Er, orb_true_iff, bool_decide_eq_true, (wi_running _ _ _ _ H). split.
    + intros [[q' Hx]| ->]; [|exists q; apply fn_lookup_insert]. exists q'. rewrite fn_lookup_insert_ne; [done|congruence].
    + intros [q' Hx]. destruct (decide (q' = q)) as [->|N]; [rewrite fn_lookup_insert in Hx; right; congruence|].
      rewrite fn_lookup_insert_ne in Hx by done. eauto.
  - intros q' x. rewrite Equ. destruct (decide (q' = q)) as [->|N].
    + rewrite fn_lookup_insert. intros [= <-]. auto.
    + rewrite fn_lookup_insert_ne by done. apply H.
  - intros q1 q2 x. destruct (decide (q1 = q)) as [->|N1], (decide (q2 = q)) as [->|N2];
      rewrite ?fn_lookup_insert, ?fn_lookup_insert_ne by done; [done| | |apply H];
      intros; simplify_eq; by edestruct HRw.
  - intros x. rewrite Ec, Er, Eq. intros Hc. by destruct (wi_canceling _ _ _ _ H x Hc) as (-> & ? & ?).
  - intros c Hc. rewrite Ec, Ew. by apply H.
  - intros c Hc. rewrite Er, (wi_cs _ _ _ _ H c Hc), bool_decide_eq_false_2; [done|]. by intros ->.
  - intros x. rewrite Equ. apply H.
Qed.

(** It has run [w]: the pending cancellations of [w] end. *)
Lemma items_stop R ls cs cs' o o' q w :
  witems R ls cs o -> R q = Some w ->
  (forall x, running o' x = running o x && negb (bool_decide (x = w))) ->
  (forall x, canceling o' x = canceling o x && negb (bool_decide (x = w))) ->
  (forall x, queued o' x = queued o x) -> (forall x, queue (works o' x) = queue (works o x)) ->
  (forall c, wc_work o' c = wc_work o c) ->
  (forall c, c ∈ cs' -> c ∈ cs /\ wc_work o c <> w) ->
  witems (<[q := None]> R) ls cs' o'.
Proof.
  intros H HR Er Ec Eq Equ Ew Hcs.
  assert (forall q' x, (<[q := None]> R) q' = Some x <-> R q' = Some x /\ x <> w) as HR'.
  { intros q' x. destruct (decide (q' = q)) as [->|N]; [rewrite fn_lookup_insert|rewrite fn_lookup_insert_ne by done].
    - split; [done|]. intros [? ?]. congruence.
    - split; [|by intros [? _]]. intros Hx. split; [done|]. intros ->. destruct N. by eapply H. }
  split.
  - intros q' x Hq' Hx. rewrite Eq, Er, Equ. pose proof (wi_listed _ _ _ _ H q' x Hq' Hx) as Hlx.
    destruct (sync x); [|done]. by destruct Hlx as [? ->].
  - intros x. rewrite Eq, Equ. apply H.
  - intros x. rewrite Er, andb_true_iff, negb_true_iff, bool_decide_eq_false, (wi_running _ _ _ _ H).
    setoid_rewrite HR'. naive_solver.
  - intros q' x [Hx _]%HR'. rewrite Equ. by apply H.
  - intros q1 q2 x [H1 _]%HR' [H2 _]%HR'. by eapply H.
  - intros x. rewrite Ec, Er, Eq, !andb_true_iff. intros [Hc Hne].
    destruct (wi_canceling _ _ _ _ H x Hc) as (? & ? & ?). by split_and!.
  - intros c [Hc Hne]%Hcs. rewrite Ec, Ew, (bool_decide_eq_false_2 (_ = w)), andb_true_r by done. by apply H.
  - intros c [Hc _]%Hcs. by rewrite Er, (wi_cs _ _ _ _ H).
  - intros x. rewrite Equ. apply H.
Qed.

(** A running item is marked for cancellation. *)
Lemma items_cancel R ls cs o o' w :
  witems R ls cs o -> running o w = true -> queued o w = false -> sync w = false ->
  (forall x, running o' x = running o x) ->
  (forall x, canceling o' x = canceling o x || bool_decide (x = w)) ->
  (forall x, queued o' x = queued o x) -> (forall x, queue (works o' x) = queue (works o x)) ->
  (forall c, wc_work o' c = wc_work o c) ->
  witems R ls cs o'.
Proof.
  intros H Hr Hq Hs Er Ec Eq Equ Ew. split.
  - intros q' x. rewrite Eq, Er, Equ. apply H.
  - intros x. rewrite Eq, Equ. apply H.
  - intros x. rewrite Er. apply H.
  - intros q' x. rewrite Equ. apply H.
  - apply H.
  - intros x. rewrite Ec, Er, Eq, orb_true_iff, bool_decide_eq_true. intros [Hc| ->]; [by apply H|done].
  - intros c Hc. rewrite Ec, Ew, (wi_wc _ _ _ _ H) by done. done.
  - intros c. rewrite Er. apply H.
  - intros x. rewrite Equ. apply H.
Qed.

(** A thread waits for the end of the cancellation of [w]. *)
Lemma items_canceller R ls cs o o' w c :
  witems R ls cs o -> canceling o w = true -> c ∉ cs -> running o c = false ->
  (forall x, works o' x = works o x) -> (forall x, wc_work o' x = if decide (x = c) then w else wc_work o x) ->
  witems R ls (cs ++ [c]) o'.
Proof.
  intros H Hw Hc Hr Ex Ew. assert (witems R ls cs o') as [H1 H2 H3 H4 H5 H6 H7 H9 H8].
  { eapply items_same; [..|done]; try (intros; by rewrite Ex). intros x Hx. rewrite Ew, decide_False by congruence. done. }
  split; try done; intros x; rewrite elem_of_app, list_elem_of_singleton; intros [Hx| ->].
  - by apply H7.
  - by rewrite Ew, decide_True, Ex by done.
  - by apply H9.
  - by rewrite Ex.
Qed.

(** A flusher is put into a queue. *)
Lemma items_flusher R ls cs o o' q l' c :
  witems R ls cs o -> q ∈ Q -> sync c = true -> running o c = false -> (forall x, x ∈ l' <-> x = c \/ x ∈ ls q) ->
  flags (works o' c) = 0 -> (forall x, x <> c -> works o' x = works o x) -> (forall x, wc_work o' x = wc_work o x) ->
  witems R (<[q := l']> ls) cs o'.
Proof.
  intros H Hq Hs Hr Hl' Ec Ex Ew.
  assert (queued o c = false) as Hqc by (apply not_true_is_false; intros [? _]%(wi_queued _ _ _ _ H); congruence).
  assert (canceling o c = false) as Hcc by (apply not_true_is_false; intros (? & ? & ?)%(wi_canceling _ _ _ _ H); congruence).
  assert (forall x b, flag_test (flags (works o' x)) b = if decide (x = c) then false else flag_test (flags (works o x)) b) as Ef.
  { intros x b. case_decide as E; [subst|by rewrite Ex]. rewrite Ec. done. }
  assert (forall x, running o' x = running o x) as Er by (intros x; rewrite Ef; case_decide; by subst).
  assert (forall x, queued o' x = queued o x) as Eq by (intros x; rewrite Ef; case_decide; by subst).
  assert (forall x, canceling o' x = canceling o x) as Ecx by (intros x; rewrite Ef; case_decide; by subst).
  assert (forall x, sync x = false -> works o' x = works o x) as Ey by (intros x Hx; apply Ex; congruence).
  split.
  - intros q' x Hq'. rewrite elem_insert, Hl', Eq, Er. destruct (decide (x = c)) as [->|N]; [by rewrite Hs|].
    rewrite Ex by done. intros [[-> [?|Hx]]|[_ Hx]]; [done| |]; by apply (wi_listed _ _ _ _ H _ _ Hq').
  - intros x. rewrite Eq, elem_insert, Hl'. intros Hx. destruct (wi_queued _ _ _ _ H x Hx) as (Hsx & ? & ?).
    rewrite Ey by done. split_and!; try done. destruct (decide (queue (works o x) = q)) as [<-|]; auto.
  - intros x. rewrite Er. apply H.
  - intros q' x Hx. destruct (wi_R _ _ _ _ H q' x Hx) as (? & ? & Hqx). split_and!; try done.
    intros Hsx. rewrite Ey by done. auto.
  - apply H.
  - intros x. rewrite Ecx, Er, Eq. apply H.
  - intros x Hx. rewrite Ecx, Ew. by apply H.
  - intros x. rewrite Er. apply H.
  - intros x Hx. rewrite Ey by done. by apply H.
Qed.

(** ** Waking the thread of a queue *)

Lemma owner_tail W ls cs k o q :
  kwf k -> wwait W ls cs (k, o) -> q ∈ Q -> tail (waitqs k (nq q)) = [].
Proof.
  intros Hk H Hq. assert (NoDup (waitqs k (nq q))) as Hn by apply Hk.
  pose proof (ww_owner _ _ _ _ H q) as Ho. cbn [fst snd] in Ho.
  destruct (waitqs k (nq q)) as [|t [|t' r]]; [done|done|].
  apply NoDup_cons in Hn as [Hn _]. destruct Hn. rewrite (Ho t), (Ho t') by (done || set_solver). left.
Qed.

Definition notified (q : Z) (k k' : kernel) : Prop :=
  waitqs k' (nq q) = tail (waitqs k (nq q)) /\ forall w, w <> nq q -> waitqs k' w = waitqs k w.

Lemma notify_atomic R q k o :
  krun k -> wplaces R o -> q ∈ Q ->
  atomic k (fun _ s => s.2 = o /\ notified q k s.1) (notify_queue_locked q (k, o)).
Proof.
  intros Hk Ho Hq. unfold notify_queue_locked.
  destruct (q =? NULL) eqn:E; [apply Z.eqb_eq in E; subst; by destruct Q_null|]. cbn [negb]. run_code. rewrite (wp_nq _ _ Ho).
  pose proof (z_sched_wake_cases (nq q) 0 NULL k (kru_wf _ Hk)) as Hc.
  destruct (waitqs k (nq q)) as [|t r] eqn:Ew.
  - rewrite Hc. apply atomic_done; [done|]. split; [done|]. split; [by rewrite Ew|done].
  - destruct Hc as (k' & -> & Hw & _). split; [by eapply woken_kin|]. split; [done|].
    pose proof (wo_wq _ _ _ _ _ Hw) as E'. rewrite Ew in E'. injection E' as ->.
    split; [by rewrite Ew|apply Hw].
Qed.

(** Something was put into [q], or [q] began to drain, and its thread woken. *)
Lemma wait_notified W ls ls' cs k k' o o' q :
  kwf k -> wwait W ls cs (k, o) -> q ∈ Q -> notified q k k' ->
  (forall q', q' <> q -> ls' q' = ls q') ->
  (forall q', thread (queues o' q') = thread (queues o q')) ->
  (forall q', draining o' q' = draining o q' \/ q' = q /\ draining o' q' = true) ->
  (forall c, sync c = true -> awaited ls' cs c ->
     Sem.count (sems o' c) = 0 /\ (awaited ls cs c \/ W c = None)) ->
  (forall c, W c <> None -> sync c = true) ->
  wwait W ls' cs (k', o').
Proof.
  intros Hk H Hq [N1 N2] El Et Ed Es HW. rewrite (owner_tail _ _ _ _ _ _ Hk H Hq) in N1.
  pose proof H as [H1 H2 H3 H4 H5]; cbn [fst snd] in *. split; cbn [fst snd].
  - intros q' Hq' Hl. destruct (decide (q' = q)) as [->|Hne]; [done|].
    rewrite N2 by (intros ?%nq_inj; done). apply H1; [done|]. rewrite El in Hl by done.
    destruct (Ed q') as [<-|[? _]]; done.
  - intros q' t Hq'. rewrite Et. destruct (decide (q' = q)) as [->|Hne]; [rewrite N1; by intros ?%elem_of_nil|].
    rewrite N2 by (intros ?%nq_inj; done). by apply H2.
  - intros q' Hq'. rewrite N2 by apply not_eq_sym, nq_dq. intros Hw%H3; [|done].
    by destruct (Ed q') as [->|[_ ?]].
  - intros c Hc Ha. by apply Es.
  - intros c t Hc Ha. rewrite N2 by apply not_eq_sym, nq_sq.
    destruct (Es c) as [_ [?|?]]; try done; [apply HW|by apply H5|]; congruence.
Qed.

(** Lists may get shorter. *)
Lemma wait_shrink W ls ls' cs cs' k o o' :
  wwait W ls cs (k, o) ->
  (forall q, q ∈ Q -> ls' q ⊆ ls q) -> cs' ⊆ cs ->
  (forall q, thread (queues o' q) = thread (queues o q)) ->
  (forall q, draining o' q = draining o q) ->
  (forall c, awaited ls' cs' c -> sems o' c = sems o c) ->
  wwait W ls' cs' (k, o').
Proof.
  intros [H1 H2 H3 H4 H5] El Ec Et Ed Es. cbn [fst snd] in *.
  assert (forall c, awaited ls' cs' c -> awaited ls cs c) as Ha.
  { intros c [?|(q & Hq & ?)]; [left; by apply Ec|right; exists q; split; [done|by apply El]]. }
  split; cbn [fst snd].
  - intros q Hq. rewrite Ed. intros [Hl|Hd]; apply H1; auto. left. intros E. specialize (El q Hq). rewrite E in El.
    destruct (ls' q) as [|x r]; [done|]. by apply (elem_of_nil x), El; left.
  - intros q t Hq. rewrite Et. by apply H2.
  - intros q Hq. rewrite Ed. by apply H3.
  - intros c Hc Hc'. rewrite Es by done. auto.
  - intros c t Hc Hc'. auto.
Qed.

(** ** Submission *)

(** Where an item goes, and the value the documentation promises. *)
Definition submit_target (o : wstate) (w q : Z) : Z :=
  if running o w then queue (works o w) else if q =? NULL then queue (works o w) else q.

Definition queue_code (k : kernel) (o : wstate) (q : Z) : Z :=
  let x := queues o q in
  let chained := bool_decide (current k = thread x) && negb (in_isr k) in
  if q =? NULL then - EINVAL
  else if negb (flag_test (qflags x) K_WORK_QUEUE_STARTED_BIT) then - ENODEV
  else if draining o q && negb chained then - EBUSY
  else if flag_test (qflags x) K_WORK_QUEUE_PLUGGED_BIT && negb (draining o q) then - EBUSY
  else 1.

Definition submit_code (k : kernel) (o : wstate) (w q : Z) : Z :=
  let c := queue_code k o (submit_target o w q) in
  if canceling o w then - EBUSY
  else if queued o w then 0
  else if c <? 0 then c
  else if running o w then 2 else 1.

Definition submit_list (c t w : Z) (ls : Z -> list Z) : Z -> list Z :=
  if 0 <? c then <[t := ls t ++ [w]]> ls else ls.

(** What a submission leaves alone. *)
Record submit_keeps (w : Z) (o o' : wstate) : Prop := {
  sk_works x : x <> w -> works o' x = works o x;
  sk_handler : handler (works o' w) = handler (works o w);
  sk_user : user o' = user o;
  sk_sems : sems o' = sems o;
  sk_qflags q : qflags (queues o' q) = qflags (queues o q);
  sk_thread q : thread (queues o' q) = thread (queues o q)
}.

Lemma queue_submit_cases R k o q w :
  krun k -> wplaces R o -> (q ∈ Q \/ q = NULL) ->
  (queue_code k o q < 0 /\ queue_submit_locked q w (k, o) = Done (queue_code k o q) (k, o))
  \/ (queue_code k o q = 1 /\ q ∈ Q /\ exists k', kin k k' /\ notified q k k'
      /\ queue_submit_locked q w (k, o) = Done 1 (k', on_pending q (sys_slist_append w) o)).
Proof.
  intros Hk Hp Hq. unfold queue_submit_locked, queue_code, test_qflag.
  destruct (q =? NULL) eqn:E0; [by left|]. assert (q ∈ Q) as HQ by (destruct Hq; [done|subst; done]). run_code.
  destruct (negb (flag_test (qflags (queues o q)) K_WORK_QUEUE_STARTED_BIT)); [by left|].
  destruct (draining o q && _); [by left|].
  destruct (flag_test (qflags (queues o q)) K_WORK_QUEUE_PLUGGED_BIT && _); [by left|].
  right. split; [done|]. split; [done|].
  assert (wplaces R (on_pending q (sys_slist_append w) o)) as Hp'.
  { unfold on_pending. destruct (sys_slist_append _ _) as [L' w']. eapply places_same; [..|done]; intros x; try done.
    all: rewrite queues_upd; by case_decide; subst. }
  pose proof (notify_atomic R q k _ Hk Hp' HQ) as Hn. run_code.
  destruct (notify_queue_locked q _) as [a [k' o']|]; [|done]. destruct Hn as (Hkin & Eo & Hn). simpl in *. subst o'. eauto.
Qed.

(** The state of the items after the item [w] was put at the end of [q]. *)
Definition enqueued (q w : Z) (o : wstate) : wstate :=
  upd_work w (fun x => x <| queue := q |>)
    (upd_work w (fun x => x <| flags ::= fun f => flag_set f K_WORK_QUEUED_BIT |>) (on_pending q (sys_slist_append w) o)).

Lemma on_pending_fields q f o :
  let o' := on_pending q f o in
  works o' = works o /\ dw_queue o' = dw_queue o /\ pending_cancels o' = pending_cancels o /\ wc_work o' = wc_work o
  /\ sems o' = sems o /\ user o' = user o
  /\ forall q', notifyq (queues o' q') = notifyq (queues o q') /\ drainq (queues o' q') = drainq (queues o q')
              /\ qflags (queues o' q') = qflags (queues o q') /\ thread (queues o' q') = thread (queues o q').
Proof.
  unfold on_pending. destruct (f _) as [L w]. split_and!; try done. intros q'. rewrite queues_upd. case_decide; by subst.
Qed.

Lemma enqueued_works q w o x :
  works (enqueued q w o) x
  = if decide (x = w) then (works o w) <| flags ::= fun f => flag_set f K_WORK_QUEUED_BIT |> <| queue := q |> else works o x.
Proof.
  unfold enqueued. rewrite !works_upd. destruct (on_pending_fields q (sys_slist_append w) o) as (-> & _).
  case_decide; [|done]. by rewrite decide_True.
Qed.

Lemma enqueued_keeps q w o : submit_keeps w o (enqueued q w o).
Proof.
  destruct (on_pending_fields q (sys_slist_append w) o) as (_ & _ & _ & _ & Es & Eu & Eq). split.
  - intros x Hx. by rewrite enqueued_works, decide_False.
  - by rewrite enqueued_works, decide_True.
  - done.
  - done.
  - intros q'. apply Eq.
  - intros q'. apply Eq.
Qed.

Lemma enqueued_pure R ls cs o q w :
  wpure R ls cs o -> q ∈ Q -> sync w = false -> w ∈ nodes -> queued o w = false -> canceling o w = false ->
  (running o w = true -> queue (works o w) = q) ->
  wpure R (<[q := ls q ++ [w]]> ls) cs (enqueued q w o).
Proof.
  intros [Hl Hi Hp Hh] Hq Hs Hpos Hqw Hcw Hrw. pose proof (idle_unlisted _ _ _ _ _ Hl Hi Hs Hqw) as Hu.
  destruct (on_pending_fields q (sys_slist_append w) o) as (Ew & _ & _ & Ec & Es & Eu & Eq). split.
  - pose proof (gen_append_spec _ _ _ w (wl_pending _ _ _ Hl q Hq) (snode_ok w (nodes_pos w Hpos)) (proj2 Hu q Hq)) as Ha.
    eapply links_same with (o := on_pending q (sys_slist_append w) o); try done.
    unfold on_pending, sys_slist_append. destruct (genlist_append _ _) as [L' w']. destruct Ha as [Ha1 Ha2].
    eapply links_insert; try done; intros y; rewrite ?elem_of_app, ?elem_of_cons, ?elem_of_nil; naive_solver.
  - eapply items_enqueue; try done.
    all: intros x; rewrite ?enqueued_works; try (case_decide; subst; cbn; try done).
    + rewrite flag_test_set by done. by rewrite orb_false_r.
    + rewrite flag_test_set by done. by rewrite orb_false_r.
    + rewrite flag_test_set by done. by rewrite !bool_decide_eq_true_2.
    + by rewrite bool_decide_eq_false_2, orb_false_r by done.
    + by rewrite <-Ec.
  - eapply places_same with (o := o); try done; intros q'; destruct (Eq q') as (E1 & E2 & E3 & E4); try done.
    + change (queues (enqueued q w o)) with (queues (on_pending q (sys_slist_append w) o)). by rewrite E3.
    + by rewrite <-Es.
  - apply (handlers_sub _ o); try done.
    + intros x. rewrite enqueued_works. by case_decide; subst.
    + intros c [?| ->%list_elem_of_singleton]%elem_of_app ?; congruence.
Qed.

Lemma submit_locked R W ls cs k o w q :
  krun k -> wok R W ls cs (k, o) -> (forall c, W c <> None -> sync c = true) ->
  sync w = false -> w ∈ nodes -> (q ∈ Q \/ q = NULL) ->
  atomic k (fun r s => r.1 = submit_code k o w q
              /\ wok R W (submit_list r.1 (submit_target o w q) w ls) cs s /\ submit_keeps w o s.2
              /\ forall x, (forall q, x <> nq q) -> waitqs s.1 x = waitqs k x)
    (submit_to_queue_locked w q (k, o)).
Proof.
  intros Hk [Ho Hw] HW Hs Hpos Hq. pose proof Ho as [Hl Hi Hp Hh]. cbn [snd] in *.
  assert (submit_target o w q ∈ Q \/ submit_target o w q = NULL) as Ht.
  { unfold submit_target. destruct (running o w); [by apply Hi|]. destruct (q =? NULL) eqn:E; [by apply Hi|auto]. }
  unfold submit_to_queue_locked, test_flag, submit_code. run_code.
  destruct (canceling o w) eqn:Ec; [apply atomic_done; done|].
  destruct (queued o w) eqn:Eq; [apply atomic_done; done|]. cbn [negb]. run_code.
  fold (submit_target o w q).
  destruct (queue_submit_cases R k o (submit_target o w q) w Hk Hp Ht) as [[Hc Es]|(Hc & HQ & k' & Hkin & Hn & Es)].
  - rewrite Es. cbn [obind]. replace (queue_code k o (submit_target o w q) <? 0) with true by lia. cbn [obind fst].
    apply atomic_done; [done|]. unfold submit_list. cbn [fst]. replace (0 <? _) with false by lia. done.
  - rewrite Es, Hc. cbn [obind]. replace (1 <? 0) with false by done. unfold set_flag. run_code.
    fold (enqueued (submit_target o w q) w o).
    assert (submit_list (if running o w then 2 else 1) (submit_target o w q) w ls
            = <[submit_target o w q := ls (submit_target o w q) ++ [w]]> ls) as El by (by destruct (running o w)).
    pose proof (enqueued_keeps (submit_target o w q) w o) as Hkeep. pose proof (kru_wf _ Hk) as Hwf.
    split; [done|]. cbn [fst snd]. rewrite El. split_and!; [done| |done|intros x Hx; by apply Hn]. split; cbn [fst snd].
    + apply enqueued_pure; try done. unfold submit_target. by intros ->.
    + eapply wait_notified; try done.
      * intros q' Hne. by rewrite fn_lookup_insert_ne.
      * apply Hkeep.
      * intros q'. left. by rewrite (sk_qflags _ _ _ Hkeep).
      * intros c Hsc Ha. rewrite (sk_sems _ _ _ Hkeep). assert (awaited ls cs c) as Ha'.
        { destruct Ha as [?|(q' & Hq' & Hc')]; [by left|right; exists q'; split; [done|]]. revert Hc'.
          rewrite elem_insert, elem_of_app, list_elem_of_singleton. intros [[-> [?| ->]]|[_ ?]]; congruence. }
        split; [by apply (ww_count _ _ _ _ Hw)|by left].
Qed.

(** ** Setting and clearing flags of an item *)

Lemma bool_decide_eqb (i b : Z) : bool_decide (i = b) = (i =? b).
Proof. case_bool_decide; lia. Qed.

Lemma test_set_work w b o x i :
  0 <= b -> 0 <= i ->
  flag_test (flags (works (upd_work w (fun y => y <| flags ::= fun f => flag_set f b |>) o) x)) i
  = flag_test (flags (works o x)) i || (bool_decide (x = w) && (i =? b)).
Proof.
  intros Hb Hi. rewrite works_upd. destruct (decide (x = w)) as [->|N]; cbn.
  - rewrite flag_test_set, (bool_decide_eq_true_2 (w = w)) by done. by rewrite bool_decide_eqb.
  - by rewrite bool_decide_eq_false_2, orb_false_r.
Qed.

Lemma test_clear_work w b o x i :
  0 <= b -> 0 <= i ->
  flag_test (flags (works (upd_work w (fun y => y <| flags ::= fun f => flag_clear f b |>) o) x)) i
  = flag_test (flags (works o x)) i && negb (bool_decide (x = w) && (i =? b)).
Proof.
  intros Hb Hi. rewrite works_upd. destruct (decide (x = w)) as [->|N]; cbn.
  - rewrite flag_test_clear, (bool_decide_eq_true_2 (w = w)) by done. by rewrite bool_decide_eqb.
  - by rewrite bool_decide_eq_false_2, andb_true_r.
Qed.

(** Clearing a flag that is not set, setting one that is. *)
Lemma clear_unset w b o x i :
  0 <= b -> 0 <= i -> flag_test (flags (works o w)) b = false ->
  flag_test (flags (works (upd_work w (fun y => y <| flags ::= fun f => flag_clear f b |>) o) x)) i
  = flag_test (flags (works o x)) i.
Proof.
  intros Hb Hi E. rewrite test_clear_work by done. destruct (decide (x = w)) as [->|N];
    [|by rewrite bool_decide_eq_false_2, andb_true_r]. destruct (i =? b) eqn:Ei; [|by rewrite andb_false_r, andb_true_r].
  apply Z.eqb_eq in Ei as ->. by rewrite E.
Qed.

Lemma set_set w b o x i :
  0 <= b -> 0 <= i -> flag_test (flags (works o w)) b = true ->
  flag_test (flags (works (upd_work w (fun y => y <| flags ::= fun f => flag_set f b |>) o) x)) i
  = flag_test (flags (works o x)) i.
Proof.
  intros Hb Hi E. rewrite test_set_work by done. destruct (decide (x = w)) as [->|N];
    [|by rewrite bool_decide_eq_false_2, orb_false_r]. destruct (i =? b) eqn:Ei; [|by rewrite andb_false_r, orb_false_r].
  apply Z.eqb_eq in Ei as ->. by rewrite E.
Qed.

Lemma queue_flag w g o x :
  queue (works (upd_work w (fun y => y <| flags ::= g |>) o) x) = queue (works o x).
Proof. rewrite works_upd. by case_decide; subst. Qed.

Lemma handler_flag w g o x :
  handler (works (upd_work w (fun y => y <| flags ::= g |>) o) x) = handler (works o x).
Proof. rewrite works_upd. by case_decide; subst. Qed.

(** Decide flag equations about one updated item. *)
Ltac flag_eq := intros; repeat first [rewrite test_set_work by done | rewrite test_clear_work by done | rewrite queue_flag];
  cbn [Z.eqb andb negb K_WORK_RUNNING_BIT K_WORK_CANCELING_BIT K_WORK_QUEUED_BIT K_WORK_DELAYED_BIT];
  rewrite ?andb_false_r, ?andb_true_r, ?orb_false_r, ?orb_true_r; try done.

Lemma mask_zero f :
  (Z.land f K_WORK_MASK =? 0)
  = negb (flag_test f K_WORK_RUNNING_BIT || flag_test f K_WORK_CANCELING_BIT
          || flag_test f K_WORK_QUEUED_BIT || flag_test f K_WORK_DELAYED_BIT).
Proof.
  change K_WORK_MASK with (Z.ones 4). rewrite !flag_test_bit by done. apply eq_true_iff_eq.
  rewrite Z.eqb_eq, negb_true_iff, !orb_false_iff. split.
  - intros E. assert (forall i, 0 <= i < 4 -> Z.testbit f i = false) as Hb.
    { intros i Hi. rewrite <-(Z.bits_0 i), <-E, Z.land_spec, Z.ones_spec_low, andb_true_r by lia. done. }
    split_and!; by apply Hb.
  - intros (((H0 & H1) & H2) & H3). apply Z.bits_inj'. intros i Hi. rewrite Z.land_spec, Z.bits_0.
    destruct (decide (i < 4)); [|by rewrite Z.ones_spec_high, andb_false_r by lia].
    assert (i = 0 \/ i = 1 \/ i = 2 \/ i = 3) as [-> |[-> |[-> | ->]]] by lia.
    + by rewrite (H0 : Z.testbit f 0 = false).
    + by rewrite (H1 : Z.testbit f 1 = false).
    + by rewrite (H2 : Z.testbit f 2 = false).
    + by rewrite (H3 : Z.testbit f 3 = false).
Qed.

(** ** Cancellation *)

Lemma filter_absent (l : list Z) w : w ∉ l -> filter (fun x => x <> w) l = l.
Proof.
  induction l as [|x l IH]; [done|]. intros [Hx Hl]%not_elem_of_cons. rewrite filter_cons_True by done. by rewrite IH.
Qed.

Lemma filter_without (a b : list Z) w : w ∉ a ++ b -> filter (fun x => x <> w) (a ++ w :: b) = a ++ b.
Proof.
  intros [Ha Hb]%not_elem_of_app. rewrite filter_app, filter_cons_False by tauto. by rewrite !filter_absent.
Qed.

(** The item is not queued any more. *)
Definition dropped (w : Z) (ls ls' : Z -> list Z) : Prop :=
  forall q, q ∈ Q -> ls' q = filter (fun x => x <> w) (ls q).

Lemma dropped_none R ls cs o w :
  witems R ls cs o -> sync w = false -> queued o w = false -> dropped w ls ls.
Proof.
  intros Hi Hs Hq q HQ. assert (w ∉ ls q) as Hw.
  { intros Hw. pose proof (wi_listed _ _ _ _ Hi q w HQ Hw) as E. rewrite Hs in E. destruct E. congruence. }
  by rewrite filter_absent.
Qed.

(** What a cancellation leaves alone. *)
Record cancel_keeps (w : Z) (o o' : wstate) : Prop := {
  ck_works x : x <> w -> works o' x = works o x;
  ck_handler : handler (works o' w) = handler (works o w);
  ck_queue : queue (works o' w) = queue (works o w);
  ck_running : running o' w = running o w;
  ck_user : user o' = user o;
  ck_sems : sems o' = sems o;
  ck_wc : wc_work o' = wc_work o;
  ck_qflags q : qflags (queues o' q) = qflags (queues o q);
  ck_thread q : thread (queues o' q) = thread (queues o q)
}.

Lemma listed_once ls cs o q w a b : wlinks ls cs o -> q ∈ Q -> ls q = a ++ w :: b -> w ∉ a ++ b.
Proof.
  intros Hl HQ El. pose proof (li_nodup _ _ _ (wl_pending _ _ _ Hl q HQ)) as Hnd. rewrite El in Hnd.
  apply NoDup_app in Hnd as (_ & ? & [? _]%NoDup_cons). set_solver.
Qed.

Definition unqueue (q w : Z) (L' : sys_slist) (w' : snodes) (o : wstate) : wstate :=
  upd_queue q (fun x => x <| pending := L' |>)
    (upd_work w (fun x => x <| flags ::= fun f => flag_clear f K_WORK_QUEUED_BIT |>) o) <| snext := w' |>.

Lemma unqueue_works q w L' w' o :
  works (unqueue q w L' w' o) = works (upd_work w (fun x => x <| flags ::= fun f => flag_clear f K_WORK_QUEUED_BIT |>) o).
Proof. done. Qed.

Lemma unqueue_queues q w L' w' o q' :
  let x := queues (unqueue q w L' w' o) q' in
  notifyq x = notifyq (queues o q') /\ drainq x = drainq (queues o q') /\ qflags x = qflags (queues o q')
  /\ thread x = thread (queues o q').
Proof. unfold unqueue. cbv zeta. rewrite queues_upd. by case_decide; subst. Qed.

Lemma unqueue_wok R W ls cs k o q w a b L' w' :
  wok R W ls cs (k, o) -> q ∈ Q -> ls q = a ++ w :: b -> slist_is L' w' (a ++ b) ->
  slinked (a ++ w :: b) (snext o) w' ->
  wok R W (<[q := a ++ b]> ls) cs (k, unqueue q w L' w' o).
Proof.
  intros [[Hl Hi Hp Hh] Hw] HQ El Hl' Hn. cbn [snd] in *.
  assert (a ++ b ⊆ a ++ w :: b) as Hsub by set_solver. split; [split|]; cbn [snd].
  - unfold unqueue. eapply links_sub with (n := a ++ w :: b); rewrite ?El; try done. by apply (links_same _ _ o).
  - eapply items_remove; try done; rewrite ?unqueue_works; flag_eq.
  - eapply places_same with (o := o); try done; intros q'; destruct (unqueue_queues q w L' w' o q') as (E1 & E2 & E3 & E4); try done.
    by rewrite E3.
  - apply (handlers_sub _ o); try done; [intros x; rewrite unqueue_works; apply handler_flag|].
    intros c Hc _. rewrite El. by apply Hsub.
  - eapply wait_shrink; [exact Hw|..]; try done.
    + intros q' _. destruct (decide (q' = q)) as [->|N]; [by rewrite fn_lookup_insert, El|by rewrite fn_lookup_insert_ne].
    + intros q'. apply unqueue_queues.
    + intros q'. by destruct (unqueue_queues q w L' w' o q') as (_ & _ & -> & _).
Qed.

Lemma unqueue_keeps q w L' w' o : cancel_keeps w o (unqueue q w L' w' o).
Proof.
  split; rewrite ?unqueue_works; try done.
  - intros x Hx. by rewrite works_upd, decide_False.
  - apply handler_flag.
  - apply queue_flag.
  - flag_eq.
  - intros q'. apply unqueue_queues.
  - intros q'. apply unqueue_queues.
Qed.

Lemma clear_queued_keeps w o :
  queued o w = false -> cancel_keeps w o (upd_work w (fun x => x <| flags ::= fun f => flag_clear f K_WORK_QUEUED_BIT |>) o).
Proof.
  intros Hq. split; try done.
  - intros x Hx. by rewrite works_upd, decide_False.
  - apply handler_flag.
  - apply queue_flag.
  - flag_eq.
Qed.

Lemma queue_remove_atomic R W ls cs k o w :
  krun k -> wok R W ls cs (k, o) -> sync w = false ->
  atomic k (fun _ s => (exists ls', wok R W ls' cs s /\ dropped w ls ls') /\ cancel_keeps w o s.2
                       /\ queued s.2 w = false /\ canceling s.2 w = canceling o w /\ delayed s.2 w = delayed o w
                       /\ s.1 = k)
    (queue_remove_locked (queue (works o w)) w (k, o)).
Proof.
  intros Hk Hok Hs. pose proof Hok as [[Hl Hi Hp Hh] Hw]. cbn [snd] in *.
  unfold queue_remove_locked, flag_test_and_clear, test_flag, clear_flag. run_code.
  destruct (queued o w) eqn:Eq.
  - destruct (wi_queued _ _ _ _ Hi w Eq) as (_ & HQ & Hin). set (q := queue (works o w)) in *.
    apply list_elem_of_split in Hin as (a & b & El). pose proof (wl_pending _ _ _ Hl q HQ) as Hpq.
    destruct (gen_find_and_remove_spec list_fuel _ _ _ w Hpq) as [_ Hf].
    { apply nodes_length; [apply Hpq|]. intros x. by apply (wl_nodes _ _ _ Hl). }
    destruct (Hf a b El) as (L' & w' & Er & Hl' & Hn). rewrite El in Hn.
    run_code. unfold on_pending, sys_slist_find_and_remove. change (snext (upd_work w _ o)) with (snext o).
    change (queues (upd_work w _ o)) with (queues o). rewrite Er. fold (unqueue q w L' w' o).
    apply atomic_done; [done|]. cbn [fst snd]. split_and!; rewrite ?unqueue_works; try by flag_eq.
    + exists (<[q := a ++ b]> ls). split; [by apply unqueue_wok|]. pose proof (listed_once _ _ _ _ _ _ _ Hl HQ El) as Hab.
      intros q' HQ'. destruct (decide (q' = q)) as [->|N].
      * by rewrite fn_lookup_insert, El, filter_without.
      * rewrite fn_lookup_insert_ne by done. rewrite filter_absent; [done|]. intros Hx. destruct N.
        eapply (wl_apart _ _ _ Hl); try done. rewrite El. set_solver.
    + apply unqueue_keeps.
    + flag_eq. by rewrite bool_decide_eq_true_2, andb_false_r.
  - apply atomic_done; [done|]. cbn [fst snd]. split_and!; try by flag_eq.
    + exists ls. split; [|by eapply dropped_none]. split; [split; [by apply (links_same _ _ o)| |by apply (places_same _ o)|]|]; cbn [snd].
      * eapply items_same; [..|done]; try done; [|intros; apply queue_flag]. intros x b Hb. apply clear_unset; [done|lia|done].
      * apply (handlers_same ls _ o); [intros; apply handler_flag|eauto|done].
      * eapply wait_shrink; [exact Hw|..]; done.
    + by apply clear_queued_keeps.
    + flag_eq. by rewrite Eq.
Qed.

(** *** The asynchronous part *)
Lemma cancel_keeps_refl w o : cancel_keeps w o o.
Proof. by split. Qed.

Lemma cancel_keeps_trans w a b c : cancel_keeps w a b -> cancel_keeps w b c -> cancel_keeps w a c.
Proof.
  intros [A1 A2 A3 A4 A5 A6 A7 A8 A9] [B1 B2 B3 B4 B5 B6 B7 B8 B9]. split; try congruence.
  intros x Hx. by rewrite B1, A1.
Qed.

Lemma set_flag_keeps w b o :
  0 <= b -> b <> K_WORK_RUNNING_BIT ->
  cancel_keeps w o (upd_work w (fun x => x <| flags ::= fun f => flag_set f b |>) o).
Proof.
  intros Hb Hr. split; try done.
  - intros x Hx. by rewrite works_upd, decide_False.
  - apply handler_flag.
  - apply queue_flag.
  - rewrite test_set_work by done. replace (_ =? b) with false by lia. by rewrite andb_false_r, orb_false_r.
Qed.

(** The end of [cancel_async_locked]: mark the item when it is running. *)
Lemma cancel_mark_atomic R W ls cs k o w :
  krun k -> wok R W ls cs (k, o) -> sync w = false -> queued o w = false -> delayed o w = false ->
  atomic k (fun r s => wok R W ls cs s /\ (r =? 0) = negb (running o w) /\ queued s.2 w = false
                       /\ canceling s.2 w = running o w /\ cancel_keeps w o s.2 /\ delayed s.2 w = false /\ s.1 = k)
    ((r <- work_busy_get_locked w ;;
      if negb (r =? 0) then (set_flag w K_WORK_CANCELING_BIT ;; work_busy_get_locked w) else ret r) (k, o)).
Proof.
  intros Hk Hok Hs Hq Hd. pose proof Hok as [[Hl Hi Hp Hh] Hw]. cbn [snd] in *.
  assert (canceling o w = true -> running o w = true) as Hcr by (intros H; by apply (wi_canceling _ _ _ _ Hi)).
  unfold work_busy_get_locked, set_flag. run_code. rewrite mask_zero, negb_involutive, Hq, Hd, !orb_false_r.
  destruct (running o w) eqn:Er; cbn [orb].
  - run_code. apply atomic_done; [done|]. cbn [fst snd].
    assert (canceling (upd_work w (fun x => x <| flags ::= fun f => flag_set f K_WORK_CANCELING_BIT |>) o) w = true) as Ec
      by (flag_eq; by rewrite bool_decide_eq_true_2, orb_true_r).
    split_and!; try by flag_eq; rewrite ?Ec.
    + split; [split|]; cbn [snd]; [by apply (links_same _ _ o)| |by apply (places_same _ o)| |by eapply wait_shrink].
      * eapply items_cancel; try done; flag_eq.
      * apply (handlers_same ls _ o); [intros; apply handler_flag|eauto|done].
    + rewrite mask_zero, Ec. by rewrite orb_true_r.
    + exact Ec.
    + by apply set_flag_keeps.
  - destruct (canceling o w) eqn:Ec; [by specialize (Hcr eq_refl)|]. cbn [orb]. apply atomic_done; [done|].
    split_and!; try done. by rewrite mask_zero, Hq, Hd, Er, Ec.
Qed.

Lemma cancel_async_atomic R W ls cs k o w :
  krun k -> wok R W ls cs (k, o) -> sync w = false -> delayed o w = false ->
  atomic k (fun r s => (exists ls', wok R W ls' cs s /\ dropped w ls ls') /\ (r =? 0) = negb (running o w)
                       /\ queued s.2 w = false /\ canceling s.2 w = running o w /\ cancel_keeps w o s.2
                       /\ delayed s.2 w = false /\ s.1 = k)
    (cancel_async_locked w (k, o)).
Proof.
  intros Hk Hok Hs Hd. pose proof Hok as [[Hl Hi Hp Hh] Hw]. cbn [snd] in *.
  unfold cancel_async_locked, test_flag. unfold bind at 1. unfold oget at 1. cbn [obind snd].
  destruct (canceling o w) eqn:Ec; cbn [negb].
  - destruct (wi_canceling _ _ _ _ Hi w Ec) as (Hr & Hq & _). unfold bind at 1. cbn [obind ret].
    eapply atomic_mono; [|by eapply cancel_mark_atomic]. intros r s _ (H1 & H2 & H3). split_and!; try done; [|apply H3..].
    exists ls. split; [done|by eapply dropped_none].
  - unfold bind at 1. eapply atomic_bind.
    { unfold bind, oget. cbn [obind snd]. by eapply queue_remove_atomic. }
    intros [] k' o' Hkin ((ls' & Hok' & Hdr) & Hkeep & Hq' & Hc' & Hd' & Ek). cbn [fst snd] in *.
    eapply atomic_mono; [|eapply cancel_mark_atomic; [apply Hkin|done..|congruence]].
    intros r s _ (H1 & H2 & H3 & H4 & H5 & H6 & H7). rewrite (ck_running _ _ _ Hkeep) in *. split_and!; try done.
    + by exists ls'.
    + by eapply cancel_keeps_trans.
    + congruence.
Qed.

(** ** Waiting for a cancellation or a flush *)

Lemma wait_ext W ls cs k k' o : (forall w, waitqs k' w = waitqs k w) -> wwait W ls cs (k, o) -> wwait W ls cs (k', o).
Proof.
  intros E [H1 H2 H3 H4 H5]. split; cbn [fst snd] in *; intros; rewrite ?E in *; eauto.
Qed.

Lemma waitq_init_kin w k :
  krun k -> waitqs k w = [] -> kin k (z_waitq_init w k) /\ forall w', waitqs (z_waitq_init w k) w' = waitqs k w'.
Proof.
  intros Hk E. assert (forall w', waitqs (z_waitq_init w k) w' = waitqs k w') as Ew.
  { intros w'. unfold z_waitq_init, upd_waitq. cbn. destruct (decide (w' = w)) as [->|N];
      [by rewrite fn_lookup_insert|by rewrite fn_lookup_insert_ne]. }
  split; [|done]. split; try done. apply (krun_same k); [|done|done]. split; try done; apply same_tmo_refl.
Qed.

(** A sync object that nothing refers to. *)
Record fresh (ls : Z -> list Z) (cs : list Z) (c : Z) (s : St) : Prop := {
  fr_sync : sync c = true;
  fr_node : c ∈ nodes;
  fr_unlisted : unlisted ls cs c;
  fr_running : running s.2 c = false;
  fr_waiters : waitqs s.1 (sq c) = []
}.

Definition sem_reset (c : Z) (o : wstate) : wstate :=
  o <| sems ::= fun m => <[c := (m c) <| Sem.count := 0 |> <| Sem.limit := 1 |>]> m |>.

Lemma sem_reset_sems c o x :
  sems (sem_reset c o) x = if decide (x = c) then (sems o c) <| Sem.count := 0 |> <| Sem.limit := 1 |> else sems o x.
Proof. cbn. case_decide; [subst; by rewrite fn_lookup_insert|by rewrite fn_lookup_insert_ne]. Qed.

Lemma sem_init_atomic R ls cs c k o :
  krun k -> wplaces R o -> fresh ls cs c (k, o) ->
  atomic k (fun _ s => s.2 = sem_reset c o /\ forall w, waitqs s.1 w = waitqs k w)
    (Sem.z_impl_k_sem_init (P := sem_at c) 0 1 (k, o)).
Proof.
  intros Hk Hp Hf. unfold Sem.z_impl_k_sem_init. change (_ || _ || _) with false. cbv iota. run_code.
  cbn [Sem.sem_of Sem.sem_upd sem_at]. fold (sem_reset c o). rewrite sem_reset_sems, decide_True by done.
  change (Sem.wait_q _) with (Sem.wait_q (sems o c)). rewrite (wp_sq _ _ Hp).
  destruct (waitq_init_kin (sq c) k Hk) as [Hkin Hw]; [apply Hf|]. by split_and!.
Qed.

Lemma sem_reset_places R c o : wplaces R o -> wplaces R (sem_reset c o).
Proof.
  intros Hp. apply (places_same _ o); try done. intros x. rewrite sem_reset_sems. by case_decide; subst.
Qed.

Lemma init_work_cancel_atomic R W ls cs k o w c :
  krun k -> wok R W ls cs (k, o) -> fresh ls cs c (k, o) -> canceling o w = true ->
  atomic k (fun _ s => wok R (<[c := None]> W) ls (cs ++ [c]) s /\ (forall w, waitqs s.1 w = waitqs k w)
                       /\ works s.2 = works o /\ user s.2 = user o)
    (init_work_cancel c w (k, o)).
Proof.
  intros Hk [[Hl Hi Hp Hh] Hw] Hf Hc. cbn [snd] in *. unfold init_work_cancel. unfold bind at 1.
  eapply atomic_bind; [by eapply sem_init_atomic|]. intros r k' o1 Hkin [Eo Ek]. cbn [fst snd] in *. subst o1.
  destruct (fr_unlisted _ _ _ _ Hf) as [Hcs Hcl]. run_code.
  set (o1 := sem_reset c o <| wc_work ::= <[c := w]> |>).
  pose proof (gen_append_spec _ _ _ c (wl_cancels _ _ _ Hl) (snode_ok c (nodes_pos c (fr_node _ _ _ _ Hf))) Hcs) as Ha.
  change (pending_cancels o1) with (pending_cancels o). change (snext o1) with (snext o). unfold sys_slist_append.
  destruct (genlist_append _ _) as [L' w']. destruct Ha as [Ha1 Ha2].
  apply atomic_done; [apply Hkin|]. cbn [fst snd]. split_and!; try done. split; [split|]; cbn [snd].
  - eapply links_cancels with (o := o1) (cs := cs); try done; [by apply (links_same _ _ o)|].
    intros y. pose proof (fr_sync _ _ _ _ Hf). pose proof (fr_node _ _ _ _ Hf).
    intros [[?| ->%list_elem_of_singleton]%elem_of_app|[->|?]%elem_of_cons]; auto.
  - apply (items_canceller _ _ _ o _ w); try done; [apply Hf|]. intros x. cbn. case_decide; [subst; apply fn_lookup_insert|by rewrite fn_lookup_insert_ne].
  - apply (places_same _ (sem_reset c o)); try done. by apply sem_reset_places.
  - apply (handlers_same ls _ o); eauto.
  - eapply wait_ext; [done|]. destruct Hw as [H1 H2 H3 H4 H5]. cbn [fst snd] in *.
    assert (forall x, awaited ls (cs ++ [c]) x -> x <> c -> awaited ls cs x) as Haw.
    { intros x [Hx|Hx] Hne; [|by right]. apply elem_of_app in Hx as [?|?%list_elem_of_singleton]; [by left|done]. }
    split; cbn [fst snd]; try done.
    + intros x Hx Hax. change (sems _) with (sems (sem_reset c o)). rewrite sem_reset_sems. case_decide; [done|]. auto.
    + intros x t. destruct (decide (x = c)) as [->|N]; [by rewrite fn_lookup_insert|]. rewrite fn_lookup_insert_ne by done. auto.
Qed.

(** *** Flushers *)
Definition flusher_init (c : Z) (o : wstate) : wstate :=
  upd_work c (fun _ => mk_work HANDLE_FLUSH NULL 0) (sem_reset c o) <| snext ::= <[c := NULL]> |>.

Lemma flusher_init_works c o x :
  works (flusher_init c o) x = if decide (x = c) then mk_work HANDLE_FLUSH NULL 0 else works o x.
Proof. unfold flusher_init. by rewrite works_upd. Qed.

Lemma init_flusher_atomic R ls cs c k o :
  krun k -> wplaces R o -> fresh ls cs c (k, o) ->
  atomic k (fun _ s => s.2 = flusher_init c o /\ forall w, waitqs s.1 w = waitqs k w) (init_flusher c (k, o)).
Proof.
  intros Hk Hp Hf. unfold init_flusher. unfold bind at 1. eapply atomic_bind; [by eapply sem_init_atomic|].
  intros r k' o1 Hkin [Eo Ek]. cbn [fst snd] in *. subst o1. apply atomic_done; [apply Hkin|]. done.
Qed.

Lemma flusher_init_links ls cs c o : wlinks ls cs o -> unlisted ls cs c -> wlinks ls cs (flusher_init c o).
Proof.
  intros [H1 H2 H3 H4 H5 H6] [Hc Hl].
  assert (slinked [c] (snext o) (snext (flusher_init c o))) as Hn
    by (apply (linked_one (N := snode_links)); [left|done]).
  split; try done.
  - intros q Hq. eapply list_linked_frame; [exact Hn| |by apply H1]. intros x ->%list_elem_of_singleton. by apply Hl.
  - eapply list_linked_frame; [exact Hn| |exact H2]. by intros x ->%list_elem_of_singleton.
Qed.

Lemma flusher_places R q f c o : wplaces R o -> wplaces R (on_pending q f (flusher_init c o)).
Proof.
  intros Hp. destruct (on_pending_fields q f (flusher_init c o)) as (_ & _ & _ & _ & Es & _ & Eq).
  apply (places_same _ (sem_reset c o)); try by apply sem_reset_places.
  - intros q'. by destruct (Eq q') as (_ & _ & -> & _).
  - intros q'. by destruct (Eq q') as (_ & _ & _ & ->).
  - intros q'. by destruct (Eq q') as (-> & _).
  - intros q'. by destruct (Eq q') as (_ & -> & _).
  - intros x. by rewrite Es.
Qed.

(** After the flusher [c] was linked into the list of [q]. *)
Lemma flusher_wok R W ls cs k k' o q c f l' n :
  kwf k -> wok R W ls cs (k, o) -> (forall x, W x <> None -> sync x = true) -> q ∈ Q -> fresh ls cs c (k, o) ->
  (let '(L', w') := f (pending (queues o q), snext (flusher_init c o)) in
   slist_is L' w' l' /\ slinked n (snext (flusher_init c o)) w') ->
  (forall x, x ∈ l' <-> x = c \/ x ∈ ls q) -> (forall x, x ∈ n -> x = c \/ x ∈ ls q) ->
  notified q k k' ->
  wok R (<[c := None]> W) (<[q := l']> ls) cs (k', on_pending q f (flusher_init c o)).
Proof.
  intros Hk [[Hl Hi Hp Hh] Hw] HW Hq Hf Hop Hl' Hn' Hnot. cbn [snd] in *.
  pose proof (fr_unlisted _ _ _ _ Hf) as Hu. pose proof (flusher_init_links _ _ _ _ Hl Hu) as Hl1.
  destruct (on_pending_fields q f (flusher_init c o)) as (Ew & _ & _ & Ec & Es & Eu & Eq).
  split; [split|]; cbn [snd].
  - unfold on_pending. change (queues (flusher_init c o)) with (queues o).
    destruct (f _) as [L' w']. destruct Hop as [Ho1 Ho2]. eapply links_insert; try done.
    + intros _. apply Hf.
    + intros y Hy. apply Hl' in Hy. tauto.
    + intros y Hy. apply Hn' in Hy. tauto.
  - eapply items_flusher with (c := c); try done; try apply Hf; rewrite ?Ew, ?Ec; try done.
    + by rewrite flusher_init_works, decide_True.
    + intros x Hx. by rewrite flusher_init_works, decide_False.
  - by apply flusher_places.
  - destruct Hh as [Hh1 Hh2]. split; rewrite ?Ew.
    + intros x Hx. rewrite flusher_init_works, decide_False; [auto|]. pose proof (fr_sync _ _ _ _ Hf). congruence.
    + intros q' x HQ' Hx Hsx. rewrite flusher_init_works. case_decide; [done|].
      apply elem_insert in Hx as [[-> Hx]|[_ Hx]]; [apply Hl' in Hx as [?|?]; [done|]|]; by eapply Hh2.
  - eapply wait_notified with (o := o) (k := k) (ls := ls); try done.
    + destruct Hw as [H1 H2 H3 H4 H5]. split; try done. intros x t. destruct (decide (x = c)) as [->|N];
        [by rewrite fn_lookup_insert|rewrite fn_lookup_insert_ne by done; apply H5].
    + intros q' N. by rewrite fn_lookup_insert_ne.
    + intros q'. by destruct (Eq q') as (_ & _ & _ & ->).
    + intros q'. left. by destruct (Eq q') as (_ & _ & -> & _).
    + intros x Hx Ha. rewrite Es. change (sems (flusher_init c o)) with (sems (sem_reset c o)). rewrite sem_reset_sems.
      destruct (decide (x = c)) as [->|N]; [rewrite fn_lookup_insert; auto|].
      assert (awaited ls cs x) as Ha'; [|split; [by apply (ww_count _ _ _ _ Hw)|by left]].
      destruct Ha as [?|(q' & HQ' & Hin)]; [by left|]. right. apply elem_insert in Hin as [[-> Hin]|[_ Hin]]; [|by exists q'].
      exists q. split; [done|]. apply Hl' in Hin as [?|?]; done.
    + intros x. destruct (decide (x = c)) as [->|N]; [by rewrite fn_lookup_insert|]. rewrite fn_lookup_insert_ne by done. apply HW.
Qed.

(** Where the flusher of [w] is put: behind the queued item, or before
    everything when the item only runs. *)
Definition flushes (was_queued : bool) (w c : Z) (l l' : list Z) : Prop :=
  if was_queued then exists a b, l = a ++ w :: b /\ l' = a ++ w :: c :: b else l' = c :: l.

Lemma flushes_elem b w c l l' x : flushes b w c l l' -> x ∈ l' <-> x = c \/ x ∈ l.
Proof. destruct b; [intros (a & b & -> & ->)|intros ->]; set_solver. Qed.

Lemma queue_flusher_atomic R W ls cs k o w c :
  krun k -> wok R W ls cs (k, o) -> (forall x, W x <> None -> sync x = true) -> sync w = false ->
  queue (works o w) ∈ Q -> fresh ls cs c (k, o) ->
  atomic k (fun _ s => (forall x, waitqs s.1 x = waitqs k x) /\ wplaces R s.2 /\
      exists l', flushes (queued o w) w c (ls (queue (works o w))) l' /\
      forall k', notified (queue (works o w)) k k' -> wok R (<[c := None]> W) (<[queue (works o w) := l']> ls) cs (k', s.2))
    (queue_flusher_locked (queue (works o w)) w c (k, o)).
Proof.
  intros Hk Hok HW Hs HQ Hf. pose proof Hok as [[Hl Hi Hp Hh] Hw]. cbn [snd] in *. set (q := queue (works o w)) in *.
  pose proof (wl_pending _ _ _ Hl q HQ) as Hpq. destruct (fr_unlisted _ _ _ _ Hf) as [_ Hcl]. specialize (Hcl q HQ).
  pose proof (wl_pending _ _ _ (flusher_init_links _ _ c _ Hl (fr_unlisted _ _ _ _ Hf)) q HQ) as Hpq1.
  change (queues (flusher_init c o)) with (queues o) in Hpq1.
  pose proof (snode_ok c (nodes_pos c (fr_node _ _ _ _ Hf))) as Hcok.
  destruct (find_from_spec (N := snode_links) (snext o) w (ls q) NULL (gl_head (pending (queues o q))) list_fuel) as [F1 F2];
    try apply Hpq. { apply nodes_length; [apply Hpq|]. intros x. by apply (wl_nodes _ _ _ Hl). }
  unfold queue_flusher_locked. unfold bind at 1, oget. cbn [obind snd]. unfold sys_slist_peek_head.
  unfold bind at 1. eapply atomic_bind; [by eapply init_flusher_atomic|].
  intros [] k' o1 Hkin [Eo Ek]. cbn [fst snd] in Eo, Ek. subst o1.
  assert (forall f l' n, (let '(L', w') := f (pending (queues o q), snext (flusher_init c o)) in
      slist_is L' w' l' /\ slinked n (snext (flusher_init c o)) w') ->
    flushes (queued o w) w c (ls q) l' -> (forall x, x ∈ n -> x = c \/ x ∈ ls q) ->
    atomic k' (fun _ s => (forall x, waitqs s.1 x = waitqs k x) /\ wplaces R s.2 /\
      exists l', flushes (queued o w) w c (ls q) l' /\
      forall k', notified q k k' -> wok R (<[c := None]> W) (<[q := l']> ls) cs (k', s.2))
      (Done tt (k', on_pending q f (flusher_init c o)))) as Hend.
  { intros f l' n Hop Hfl Hn. apply atomic_done; [apply Hkin|]. cbn [fst snd]. split_and!; [done|by apply flusher_places|].
    exists l'. split; [done|]. intros k2 Hk2. eapply flusher_wok; try done; [apply Hk|]. intros x. by eapply flushes_elem. }
  destruct (queued o w) eqn:Eq.
  - destruct (wi_queued _ _ _ _ Hi w Eq) as (_ & _ & Hin). fold q in Hin. apply list_elem_of_split in Hin as (a & b & El).
    rewrite (F2 a b El). rewrite El in Hpq1, Hcl. eapply Hend; [by apply gen_insert_spec| |].
    + by exists a, b.
    + intros x Hx. rewrite El. by apply elem_of_cons in Hx.
  - assert (w ∉ ls q) as Hwl.
    { intros Hin. pose proof (wi_listed _ _ _ _ Hi q w HQ Hin) as E. rewrite Hs in E. destruct E. congruence. }
    rewrite (F1 Hwl). eapply Hend; [by apply gen_prepend_spec|done|]. intros x ->%list_elem_of_singleton. by left.
Qed.

Lemma flush_mask f :
  negb (Z.land f (Z.lor (BIT K_WORK_QUEUED_BIT) (BIT K_WORK_RUNNING_BIT)) =? 0)
  = flag_test f K_WORK_QUEUED_BIT || flag_test f K_WORK_RUNNING_BIT.
Proof.
  rewrite Z.land_lor_distr_r. unfold flag_test. rewrite <-negb_andb. f_equal. apply eq_true_iff_eq.
  rewrite andb_true_iff, !Z.eqb_eq. apply Z.lor_eq_0_iff.
Qed.

Lemma busy_queue R ls cs o w :
  witems R ls cs o -> sync w = false -> queued o w || running o w = true -> queue (works o w) ∈ Q.
Proof.
  intros Hi Hs [Hq|Hr]%orb_true_iff; [by apply (wi_queued _ _ _ _ Hi)|].
  apply (wi_running _ _ _ _ Hi) in Hr as [q HR]. destruct (wi_R _ _ _ _ Hi q w HR) as (? & _ & E). by rewrite E.
Qed.

Lemma work_flush_atomic R W ls cs k o w c :
  krun k -> wok R W ls cs (k, o) -> (forall x, W x <> None -> sync x = true) -> sync w = false ->
  fresh ls cs c (k, o) ->
  atomic k (fun r s => r = queued o w || running o w /\
      if (r : bool) then
        waitqs s.1 (sq c) = [] /\
        exists l', flushes (queued o w) w c (ls (queue (works o w))) l'
          /\ wok R (<[c := None]> W) (<[queue (works o w) := l']> ls) cs s
      else s = (k, o))
    (work_flush_locked w c (k, o)).
Proof.
  intros Hk Hok HW Hs Hf. pose proof Hok as [[Hl Hi Hp Hh] Hw]. cbn [snd] in *. unfold work_flush_locked.
  unfold bind at 1, oget at 1. cbn [obind snd]. rewrite flush_mask. destruct (queued o w || running o w) eqn:E.
  2:{ by apply atomic_done. }
  pose proof (busy_queue _ _ _ _ _ Hi Hs E) as HQ.
  unfold bind at 1, oget at 1. cbn [obind snd]. unfold bind at 1. eapply atomic_bind; [by eapply queue_flusher_atomic|].
  intros [] k1 o1 Hk1 (Ek & Hp1 & l' & Hfl & Hend). cbn [fst snd] in *. unfold bind at 1.
  eapply atomic_bind; [eapply notify_atomic; [apply Hk1|done|done]|].
  intros b k2 o2 Hk2 [Eo Hn]. cbn [fst snd] in *. subst o2. apply atomic_done; [apply Hk2|]. cbn [fst snd].
  assert (notified (queue (works o w)) k k2) as Hn'.
  { destruct Hn as [N1 N2]. split; [by rewrite N1, Ek|]. intros x Hx. by rewrite N2, Ek. }
  split; [done|]. split; [|exists l'; by split; [|apply Hend]].
  destruct Hn' as [_ N2]. rewrite N2 by apply not_eq_sym, nq_sq. apply Hf.
Qed.

(** ** Running the items of a queue *)

Lemma wait_give W ls cs k k' o o' c :
  wwait W ls cs (k, o) -> ~ awaited ls cs c ->
  (forall w, w <> sq c -> waitqs k' w = waitqs k w) -> (forall x, x <> c -> sems o' x = sems o x) ->
  (forall q, thread (queues o' q) = thread (queues o q)) -> (forall q, draining o' q = draining o q) ->
  wwait W ls cs (k', o').
Proof.
  intros [H1 H2 H3 H4 H5] Hc Ew Es Et Ed. cbn [fst snd] in *.
  assert (forall x, awaited ls cs x -> x <> c) as Hne by (intros x Hx ->; done).
  split; cbn [fst snd].
  - intros q HQ. rewrite Ew, Ed by apply nq_sq. auto.
  - intros q t HQ. rewrite Ew, Et by apply nq_sq. auto.
  - intros q HQ. rewrite Ew, Ed by apply dq_sq. auto.
  - intros x Hx Ha. rewrite Es by auto. auto.
  - intros x t Hx Ha. rewrite Ew by (intros ?%sq_inj; by eapply Hne). auto.
Qed.

(** Giving the semaphore of [c] while interrupts are masked. *)
Definition gave (c : Z) (o o' : wstate) : Prop :=
  o' = o \/ o' = o <| sems ::= fun m => <[c := (m c) <| Sem.count ::= fun n => n + (if negb (n =? Sem.limit (m c)) then 1 else 0) |>]> m |>.

Lemma gave_sems c o o' : gave c o o' ->
  (forall x, x <> c -> sems o' x = sems o x) /\ (forall x, Sem.wait_q (sems o' x) = Sem.wait_q (sems o x)).
Proof.
  intros [->| ->]; [done|]. cbn. split; intros x; [intros N; by rewrite fn_lookup_insert_ne|].
  destruct (decide (x = c)) as [->|N]; [by rewrite fn_lookup_insert|by rewrite fn_lookup_insert_ne].
Qed.

Lemma give_atomic R c k o :
  krun k -> irq_locked k = true -> wplaces R o ->
  atomic k (fun _ s => gave c o s.2 /\ forall w, w <> sq c -> waitqs s.1 w = waitqs k w)
    (Sem.z_impl_k_sem_give (P := sem_at c) (k, o)).
Proof.
  intros Hk Hirq Hp. pose proof (Sem.give_masked (P := sem_at c) k o (kru_wf _ Hk) Hirq) as Hg.
  cbn [Sem.sem_of Sem.sem_upd sem_at] in Hg. rewrite (wp_sq _ _ Hp) in Hg.
  destruct (waitqs k (sq c)) as [|t r].
  - rewrite Hg. apply atomic_done; [done|]. split; [by right|done].
  - destruct Hg as (k' & -> & Hw). split; [by eapply woken_kin|]. split; [by left|apply Hw].
Qed.

(** What the end of a cancellation leaves alone. *)
Record fin_same (o o' : wstate) : Prop := {
  fs_works : works o' = works o;
  fs_queues : queues o' = queues o;
  fs_wc : wc_work o' = wc_work o;
  fs_user : user o' = user o;
  fs_sq x : Sem.wait_q (sems o' x) = Sem.wait_q (sems o x)
}.

Lemma fin_same_trans a b c : fin_same a b -> fin_same b c -> fin_same a c.
Proof. intros [A1 A2 A3 A4 A5] [B1 B2 B3 B4 B5]. split; congruence. Qed.

Definition cancels_ok (R : Z -> option Z) W ls cs (s : St) : Prop := wlinks ls cs s.2 /\ wplaces R s.2 /\ wwait W ls cs s.

(** One canceller of the item is taken off the list and released. *)
Lemma finalize_one R W ls a c b k o :
  krun k -> irq_locked k = true -> cancels_ok R W ls (a ++ c :: b) (k, o) ->
  atomic k (fun _ s => cancels_ok R W ls (a ++ b) s /\ fin_same o s.2)
    ((omod (fun o => let '(L, w) := sys_slist_remove (before NULL a) c (pending_cancels o, snext o) in
                     o <| pending_cancels := L |> <| snext := w |>) ;;
      Sem.z_impl_k_sem_give (P := sem_at c)) (k, o)).
Proof.
  intros Hk Hirq (Hl & Hp & Hw). cbn [snd] in *. unfold omod, bind. cbn [obind fst snd].
  pose proof (gen_remove_spec _ _ _ _ _ (wl_cancels _ _ _ Hl)) as Hr. unfold sys_slist_remove.
  change gl_NULL with NULL in Hr. destruct (genlist_remove _ _ _) as [L' w']. destruct Hr as [Hr1 Hr2].
  set (o1 := o <| pending_cancels := L' |> <| snext := w' |>).
  assert (wlinks ls (a ++ b) o1) as Hl1.
  { eapply links_cancels; try done. intros y Hy. left. set_solver. }
  assert (c ∉ a ++ b) as Hcab.
  { pose proof (li_nodup _ _ _ (wl_cancels _ _ _ Hl)) as Hnd. apply NoDup_app in Hnd as (_ & ? & [? _]%NoDup_cons). set_solver. }
  assert (~ awaited ls (a ++ b) c) as Hna.
  { intros [?|(q & HQ & Hq)]; [done|]. destruct (wl_cs _ _ _ Hl c) as [_ Hc]; [set_solver|]. by eapply Hc. }
  eapply atomic_mono; [|apply (give_atomic R c k o1); [done|done|by apply (places_same _ o)]].
  intros [] [k' o'] Hkin [Hg Ew]. cbn [fst snd] in *. destruct (gave_sems _ _ _ Hg) as [Es1 Es2].
  assert (works o' = works o /\ queues o' = queues o /\ wc_work o' = wc_work o /\ user o' = user o
          /\ pending_cancels o' = L' /\ snext o' = w') as (E1 & E2 & E3 & E4 & E5 & E6) by (by destruct Hg as [->| ->]).
  split; [|by split; try done; intros x; rewrite Es2]. split_and!; cbn [snd].
  - apply (links_same _ _ o1); [|by rewrite E6|done|done]. intros q. by rewrite E2.
  - apply (places_same _ o1); [..|by apply (places_same _ o)]; [intros q; by rewrite E2..|done].
  - eapply wait_give with (k := k) (o := o1); [|done..|by rewrite E2|by rewrite E2].
    eapply wait_shrink; [exact Hw|..]; try done. set_solver.
Qed.

Lemma finalize_loop_atomic R W ls w b : forall a fuel k o,
  krun k -> irq_locked k = true -> (length b < fuel)%nat -> cancels_ok R W ls (a ++ b) (k, o) ->
  atomic k (fun _ s => cancels_ok R W ls (a ++ filter (fun c => wc_work o c <> w) b) s /\ fin_same o s.2)
    (finalize_loop fuel w (before NULL a) (default NULL (head b)) (k, o)).
Proof.
  induction b as [|c b IH]; intros a fuel k o Hk Hirq Hf Hok; (destruct fuel as [|fuel]; [simpl in *; lia|]); cbn [finalize_loop head default].
  { apply atomic_done; [done|]. by split. }
  destruct Hok as (Hl & Hp & Hw). cbn [snd] in Hl, Hp. pose proof (list_around _ _ _ _ _ (wl_cancels _ _ _ Hl)) as (_ & _ & Hc & _ & _ & _ & En).
  cbn [id]. change (id c) with c. change (c =? NULL) with (c =? gl_NULL). rewrite (link_ok_ne c Hc). unfold bind at 1 2, oget at 1 2. cbn [obind snd].
  unfold sys_slist_peek_next, genlist_peek_next. rewrite (link_ok_ne c Hc). cbn [negb].
  change (genlist_peek_next_no_check c (snext o)) with (next_peek (links := snode_links) c (snext o)). rewrite En.
  change gl_NULL with NULL. destruct (wc_work o c =? w) eqn:Ec.
  - rewrite filter_cons_False by (apply Z.eqb_eq in Ec; tauto).
    pose proof (finalize_one R W ls a c b k o Hk Hirq (conj Hl (conj Hp Hw))) as H1.
    unfold bind in *. cbn [obind omod fst snd] in *. eapply atomic_bind; [exact H1|].
    intros [] k' o' Hkin [Hok' Hs]. eapply atomic_mono; [|apply IH; [apply Hkin|by rewrite (ki_irq _ _ Hkin)|simpl in Hf; lia|done]].
    cbn [snd] in Hs. intros ? s _ [Hc1 Hc2]. rewrite (fs_wc _ _ Hs) in Hc1. split; [done|by eapply fin_same_trans].
  - rewrite filter_cons_True by (by apply Z.eqb_neq). specialize (IH (a ++ [c]) fuel k o Hk Hirq).
    unfold before in IH at 1. rewrite last_snoc in IH. cbn [default] in IH. rewrite <-!app_assoc in IH. cbn [app] in IH.
    apply IH; [simpl in Hf; lia|]. by split_and!.
Qed.

(** *** Taking an item *)
Lemma test_set_queue q b o x i :
  0 <= b -> 0 <= i ->
  flag_test (qflags (queues (upd_queue q (fun y => y <| qflags ::= fun f => flag_set f b |>) o) x)) i
  = flag_test (qflags (queues o x)) i || (bool_decide (x = q) && (i =? b)).
Proof.
  intros Hb Hi. rewrite queues_upd. destruct (decide (x = q)) as [->|N]; cbn.
  - rewrite flag_test_set, (bool_decide_eq_true_2 (q = q)) by done. by rewrite bool_decide_eqb.
  - by rewrite bool_decide_eq_false_2, orb_false_r.
Qed.

Lemma test_clear_queue q b o x i :
  0 <= b -> 0 <= i ->
  flag_test (qflags (queues (upd_queue q (fun y => y <| qflags ::= fun f => flag_clear f b |>) o) x)) i
  = flag_test (qflags (queues o x)) i && negb (bool_decide (x = q) && (i =? b)).
Proof.
  intros Hb Hi. rewrite queues_upd. destruct (decide (x = q)) as [->|N]; cbn.
  - rewrite flag_test_clear, (bool_decide_eq_true_2 (q = q)) by done. by rewrite bool_decide_eqb.
  - by rewrite bool_decide_eq_false_2, andb_true_r.
Qed.

Lemma queue_qflag q g o x :
  let y := queues (upd_queue q (fun y => y <| qflags ::= g |>) o) x in
  thread y = thread (queues o x) /\ pending y = pending (queues o x) /\ notifyq y = notifyq (queues o x)
  /\ drainq y = drainq (queues o x).
Proof. cbv zeta. rewrite queues_upd. by case_decide; subst. Qed.

(** The state of the queue when its thread has taken [x]. *)
Definition taken (q x : Z) (L' : sys_slist) (o : wstate) : wstate :=
  upd_work x (fun y => y <| flags ::= fun f => flag_clear f K_WORK_QUEUED_BIT |>)
    (upd_work x (fun y => y <| flags ::= fun f => flag_set f K_WORK_RUNNING_BIT |>)
      (upd_queue q (fun y => y <| qflags ::= fun f => flag_set f K_WORK_QUEUE_BUSY_BIT |>)
        (upd_queue q (fun y => y <| pending := L' |>) o <| snext := snext o |>))).

Lemma taken_queues q x L' o q' :
  let y := queues (taken q x L' o) q' in
  thread y = thread (queues o q') /\ notifyq y = notifyq (queues o q') /\ drainq y = drainq (queues o q')
  /\ forall i, 0 <= i -> flag_test (qflags y) i
       = flag_test (qflags (queues o q')) i || (bool_decide (q' = q) && (i =? K_WORK_QUEUE_BUSY_BIT)).
Proof.
  unfold taken. cbv zeta. change (queues (upd_work _ _ ?z)) with (queues z). change (queues (upd_work _ _ ?z)) with (queues z).
  destruct (queue_qflag q (fun f => flag_set f K_WORK_QUEUE_BUSY_BIT)
    (upd_queue q (fun y => y <| pending := L' |>) o <| snext := snext o |>) q') as (-> & _ & -> & ->).
  split_and!; try (rewrite queues_upd; by case_decide; subst).
  intros i Hi. rewrite test_set_queue by done. rewrite queues_upd. by case_decide; subst.
Qed.

Lemma taken_items R ls cs o q x r L' :
  witems R ls cs o -> wlinks ls cs o -> q ∈ Q -> R q = None -> ls q = x :: r ->
  witems (<[q := Some x]> R) (<[q := r]> ls) cs (taken q x L' o).
Proof.
  intros Hi Hl HQ HR El. set (o1 := unqueue q x L' (snext o) o).
  assert (x ∈ ls q) as Hx by (rewrite El; left). pose proof (wi_listed _ _ _ _ Hi q x HQ Hx) as Hlx.
  assert (running o x = false) as Hr.
  { apply not_true_is_false. intros Hr. destruct (sync x) eqn:Es; [destruct Hlx; congruence|].
    apply (wi_running _ _ _ _ Hi) in Hr as [q' Hq']. destruct (wi_R _ _ _ _ Hi q' x Hq') as (_ & _ & E).
    specialize (E Es). destruct Hlx. congruence. }
  assert (witems R (<[q := r]> ls) cs o1) as Hi1
    by (eapply items_remove with (a := []); try done; unfold o1; rewrite ?unqueue_works; flag_eq).
  eapply items_start with (o := o1); try done; unfold o1, taken; rewrite ?unqueue_works.
  - by eapply slist_pos; [apply (wl_pending _ _ _ Hl q HQ)|].
  - rewrite queue_flag. destruct (sync x); [done|]. intros _. apply Hlx.
  - by flag_eq.
  - flag_eq. by rewrite bool_decide_eq_true_2, andb_false_r.
  - intros q' HQ' Hin. apply elem_insert in Hin as [[-> Hin]|[N Hin]].
    + pose proof (li_nodup _ _ _ (wl_pending _ _ _ Hl q HQ)) as Hn. rewrite El in Hn. by apply NoDup_cons in Hn as [? _].
    + destruct N. by eapply (wl_apart _ _ _ Hl).
  - intros Hc. destruct (wl_cs _ _ _ Hl x Hc) as [_ Hc']. by eapply Hc'.
  - flag_eq.
  - flag_eq.
  - flag_eq.
  - flag_eq.
Qed.

Lemma taken_wok R W ls cs k o q x r L' :
  wok R W ls cs (k, o) -> q ∈ Q -> R q = None -> ls q = x :: r -> slist_is L' (snext o) r ->
  wok (<[q := Some x]> R) W (<[q := r]> ls) cs (k, taken q x L' o).
Proof.
  intros [[Hl Hi Hp Hh] Hw] HQ HR El HL. cbn [snd] in *. split; [split|]; cbn [snd].
  - apply (links_same _ _ (upd_queue q (fun y => y <| pending := L' |>) o <| snext := snext o |>)); try done.
    + intros q'. unfold taken. change (queues (upd_work _ _ ?z)) with (queues z). change (queues (upd_work _ _ ?z)) with (queues z).
      apply queue_qflag.
    + eapply links_sub with (n := []); try done; [rewrite El; set_solver|constructor|set_solver].
  - by apply taken_items.
  - destruct Hp as [P1 P0 P2 P3 P4]. split; try done; intros q'; destruct (taken_queues q x L' o q') as (E1 & E2 & E3 & E4).
    + intros HQ'. rewrite E4 by done. destruct (decide (q' = q)) as [->|N].
      * rewrite (bool_decide_eq_true_2 (q = q)), orb_true_r, fn_lookup_insert by done. done.
      * rewrite (bool_decide_eq_false_2 (q' = q)), orb_false_r, fn_lookup_insert_ne by done. by apply P1.
    + by rewrite E1.
    + by rewrite E2.
    + by rewrite E3.
  - apply (handlers_sub _ o); try done; [intros y; unfold taken; by rewrite !handler_flag|].
    intros c Hc _. rewrite El. by right.
  - eapply wait_shrink; [exact Hw|..]; try done.
    + intros q' _. destruct (decide (q' = q)) as [->|N]; [rewrite fn_lookup_insert, El; set_solver|by rewrite fn_lookup_insert_ne].
    + intros q'. apply taken_queues.
    + intros q'. destruct (taken_queues q x L' o q') as (_ & _ & _ & E). rewrite E by done. by rewrite andb_false_r, orb_false_r.
Qed.

Lemma next_take R W ls cs k o q x r :
  wok R W ls cs (k, o) -> q ∈ Q -> R q = None -> ls q = x :: r ->
  exists L', work_queue_next q (k, o) = Done (x, handler (works o x)) (k, taken q x L' o)
             /\ wok (<[q := Some x]> R) W (<[q := r]> ls) cs (k, taken q x L' o).
Proof.
  intros Hok HQ HR El. pose proof Hok as [[Hl Hi Hp Hh] Hw]. cbn [snd] in *.
  pose proof (gen_get_cases _ _ _ (wl_pending _ _ _ Hl q HQ)) as Hg. rewrite El in Hg. destruct Hg as (Hx & L' & Eg & HL).
  exists L'. split; [|by apply taken_wok]. unfold work_queue_next. run_code. unfold sys_slist_get. rewrite Eg. cbn [obind fst snd].
  replace (x =? NULL) with false by (symmetry; by apply Z.eqb_neq). cbn [negb].
  unfold set_qflag, set_flag, clear_flag. run_code. rewrite unlock_id. by rewrite !handler_flag.
Qed.

(** *** Waiting for an item *)

(** The queue with nothing to do, after its drain flag was cleared. *)
Definition emptied (q : Z) (o : wstate) : wstate :=
  upd_queue q (fun y => y <| qflags ::= fun f => flag_clear f K_WORK_QUEUE_DRAIN_BIT |>)
    (upd_queue q (fun y => y <| pending := pending (queues o q) |>) o <| snext := snext o |>).

Lemma emptied_queues q o q' :
  let y := queues (emptied q o) q' in
  pending y = pending (queues o q') /\ thread y = thread (queues o q') /\ notifyq y = notifyq (queues o q')
  /\ drainq y = drainq (queues o q')
  /\ forall i, 0 <= i -> flag_test (qflags y) i
       = flag_test (qflags (queues o q')) i && negb (bool_decide (q' = q) && (i =? K_WORK_QUEUE_DRAIN_BIT)).
Proof.
  unfold emptied. cbv zeta.
  destruct (queue_qflag q (fun f => flag_clear f K_WORK_QUEUE_DRAIN_BIT)
    (upd_queue q (fun y => y <| pending := pending (queues o q) |>) o <| snext := snext o |>) q') as (-> & -> & -> & ->).
  split_and!; try (rewrite queues_upd; by case_decide; subst).
  intros i Hi. rewrite test_clear_queue by done. rewrite queues_upd. by case_decide; subst.
Qed.

Lemma emptied_pure R ls cs q o : wpure R ls cs o -> wpure R ls cs (emptied q o).
Proof.
  intros [Hl Hi Hp Hh]. split.
  - apply (links_same _ _ o); try done. intros q'. apply emptied_queues.
  - by apply (items_same _ _ _ o).
  - apply (places_same _ o); try done; intros q'; destruct (emptied_queues q o q') as (_ & E2 & E3 & E4 & E5); try done.
    rewrite E5 by done. by rewrite andb_false_r, andb_true_r.
  - apply (handlers_same ls _ o); eauto.
Qed.

(** Those who drained the queue are woken. *)
Lemma drained_atomic R W ls cs k o q :
  krun k -> wok R W ls cs (k, o) -> q ∈ Q ->
  atomic k (fun _ s => s.2 = emptied q o /\ waitqs s.1 (dq q) = [] /\ forall w, w <> dq q -> waitqs s.1 w = waitqs k w)
    ((if draining o q then
        (w <- oget (fun o => drainq (queues o q)) ;; _ <- kcall (z_sched_wake_all w 1 NULL) ;; ret tt)
      else ret tt) (k, emptied q o)).
Proof.
  intros Hk [Hp Hw] HQ. cbn [snd] in *. destruct (draining o q) eqn:Ed.
  - run_code. destruct (emptied_queues q o q) as (_ & _ & _ & -> & _). rewrite (wp_dq _ _ (wp_places _ _ _ _ Hp)).
    destruct (z_sched_wake_all_spec (dq q) 1 NULL k (kru_wf _ Hk)) as (k' & -> & Ha). cbn [obind fst snd].
    split; [by eapply all_woken_kin|]. cbn [fst snd]. split_and!; [done|apply Ha..].
  - apply atomic_done; [done|]. cbn [fst snd]. split_and!; try done.
    destruct (waitqs k (dq q)) as [|t l] eqn:E; [done|]. assert (draining o q = true); [|congruence].
    apply (ww_drain _ _ _ _ Hw); [done|]. cbn. by rewrite E.
Qed.

Lemma cur_not_waiting k w : krun k -> current k ∉ waitqs k w.
Proof.
  intros Hk Hin. apply (kb_wq _ (kwf_base _ (kru_wf _ Hk))) in Hin.
  by rewrite (kc_pended _ (kwf_cur _ (kru_wf _ Hk))) in Hin.
Qed.

(** The thread of [q] waits on the notification queue. *)
Lemma idle_wait W ls cs k k1 k' o q :
  wwait W ls cs (k, o) -> q ∈ Q -> ls q = [] -> current k = thread (queues o q) -> krun k ->
  waitqs k1 (dq q) = [] -> (forall w, w <> dq q -> waitqs k1 w = waitqs k w) -> current k1 = current k ->
  pended (nq q) k1 k' -> wwait W ls cs (k', emptied q o).
Proof.
  intros [H1 H2 H3 H4 H5] HQ El Ht Hk E1 E2 Ec Hpe. cbn [fst snd] in *.
  assert (waitqs k (nq q) = []) as En.
  { destruct (waitqs k (nq q)) as [|t l] eqn:E; [done|]. destruct (cur_not_waiting k (nq q) Hk).
    rewrite Ht, <-(H2 q t HQ); rewrite E; left. }
  pose proof (pe_wqs _ _ _ Hpe) as Ew.
  assert (waitqs k' (nq q) = [current k]) as Enq.
  { destruct (pe_wq _ _ _ Hpe) as (th & _ & ->). rewrite E2, En, Ec by apply nq_dq. done. }
  assert (forall w, w <> dq q -> w <> nq q -> waitqs k' w = waitqs k w) as Eo by (intros; by rewrite Ew, E2).
  split; cbn [fst snd]; try done.
  - intros q' HQ'. destruct (emptied_queues q o q') as (_ & _ & _ & _ & Ef). rewrite Ef by done.
    destruct (decide (q' = q)) as [->|N].
    + rewrite (bool_decide_eq_true_2 (q = q)), andb_false_r by done. by intros [?|?].
    + rewrite (bool_decide_eq_false_2 (q' = q)), andb_true_r by done. rewrite Eo by (apply nq_dq || (intros ?%nq_inj; done)). auto.
  - intros q' t HQ'. destruct (emptied_queues q o q') as (_ & -> & _). destruct (decide (q' = q)) as [->|N].
    + rewrite Enq. intros ->%list_elem_of_singleton. done.
    + rewrite Eo by (apply nq_dq || (intros ?%nq_inj; done)). auto.
  - intros q' HQ'. destruct (emptied_queues q o q') as (_ & _ & _ & _ & Ef). rewrite Ef by done.
    rewrite Ew by apply not_eq_sym, nq_dq. destruct (decide (q' = q)) as [->|N]; [by rewrite E1|].
    rewrite (bool_decide_eq_false_2 (q' = q)), andb_true_r, E2 by (done || (intros ?%dq_inj; done)). auto.
  - intros c t Hc Ha. rewrite Eo by (apply not_eq_sym; apply dq_sq || apply nq_sq). auto.
Qed.

(** *** After the handler *)

(** What the end of a run leaves alone. *)
Record done_keeps (o o' : wstate) : Prop := {
  dk_user : user o' = user o;
  dk_handler w : handler (works o' w) = handler (works o w);
  dk_thread q : thread (queues o' q) = thread (queues o q);
  dk_qflags q i : 0 <= i -> i <> K_WORK_QUEUE_BUSY_BIT -> flag_test (qflags (queues o' q)) i = flag_test (qflags (queues o q)) i
}.

(** The cancellation of the item [x], when there is one, is finished. *)
Lemma finalize_atomic R W ls cs k o x :
  krun k -> irq_locked k = true -> wok R W ls cs (k, o) ->
  atomic k (fun _ s => cancels_ok R W ls (filter (fun c => wc_work o c <> x) cs) s
      /\ queues s.2 = queues o /\ wc_work s.2 = wc_work o /\ user s.2 = user o
      /\ (forall y, handler (works s.2 y) = handler (works o y) /\ queue (works s.2 y) = queue (works o y))
      /\ forall y, running s.2 y = running o y && negb (bool_decide (y = x))
              /\ canceling s.2 y = canceling o y && negb (bool_decide (y = x)) /\ queued s.2 y = queued o y)
    ((clear_flag x K_WORK_RUNNING_BIT ;;
      canceling <- test_flag x K_WORK_CANCELING_BIT ;;
      (if (canceling : bool) then finalize_cancel_locked x else ret tt)) (k, o)).
Proof.
  intros Hk Hirq [[Hl Hi Hp Hh] Hw]. cbn [snd] in *.
  unfold bind at 1 2, clear_flag, test_flag, omod, oget at 1. cbn [obind fst snd].
  set (o1 := upd_work x (fun y => y <| flags ::= fun f => flag_clear f K_WORK_RUNNING_BIT |>) o).
  assert (canceling o1 x = canceling o x) as Ec1 by (unfold o1; flag_eq). rewrite Ec1.
  destruct (canceling o x) eqn:Ec.
  - unfold finalize_cancel_locked, clear_flag, bind at 1 2, omod, oget at 1. cbn [obind fst snd].
    set (o2 := upd_work x _ o1).
    assert (cancels_ok R W ls ([] ++ cs) (k, o2)) as Hok2.
    { split_and!; cbn [snd app]; [by apply (links_same _ _ o)|by apply (places_same _ o)|by eapply wait_shrink]. }
    pose proof (list_head _ _ _ (wl_cancels _ _ _ (proj1 Hok2))) as Eh. cbn [app snd] in Eh.
    unfold sys_slist_peek_head. rewrite Eh. change NULL with (before NULL []) at 1.
    eapply atomic_mono; [|apply (finalize_loop_atomic R W ls x cs [] list_fuel k o2); [done|done| |done]].
    + intros [] s _ [Hc Hs]. split_and!; try done; try apply Hs.
      * intros y. rewrite (fs_works _ _ Hs). unfold o2, o1. by rewrite !handler_flag, !queue_flag.
      * intros y. rewrite (fs_works _ _ Hs). unfold o2, o1. split_and!; flag_eq.
    + apply nodes_length; [apply (wl_cancels _ _ _ Hl)|apply Hl].
  - apply atomic_done; [done|]. cbn [fst snd]. assert (filter (fun c => wc_work o c <> x) cs = cs) as Ef.
    { pose proof (wi_wc _ _ _ _ Hi) as Hwc. clear -Hwc Ec. induction cs as [|c cs IH]; [done|].
      rewrite filter_cons_True; [f_equal; apply IH; intros; apply Hwc; by right|]. intros E.
      rewrite <-E, (Hwc c) in Ec by left. done. }
    rewrite Ef. split_and!; try done.
    + split_and!; [by apply (links_same _ _ o)|by apply (places_same _ o)|by eapply wait_shrink].
    + intros y. unfold o1. by rewrite handler_flag, queue_flag.
    + intros y. unfold o1. split_and!; flag_eq. destruct (decide (y = x)) as [->|N]; [by rewrite Ec|].
      by rewrite (bool_decide_eq_false_2 (y = x)), andb_true_r.
Qed.

Lemma done_locked_atomic R W ls cs k o q x :
  krun k -> irq_locked k = true -> wok R W ls cs (k, o) -> R q = Some x ->
  atomic k (fun _ s => (exists cs', wok (<[q := None]> R) W ls cs' s) /\ done_keeps o s.2)
    ((clear_flag x K_WORK_RUNNING_BIT ;;
      canceling <- test_flag x K_WORK_CANCELING_BIT ;;
      (if (canceling : bool) then finalize_cancel_locked x else ret tt) ;;
      clear_qflag q K_WORK_QUEUE_BUSY_BIT) (k, o)).
Proof.
  intros Hk Hirq Hok HR. pose proof Hok as [[Hl Hi Hp Hh] Hw]. cbn [snd] in *.
  pose proof (finalize_atomic R W ls cs k o x Hk Hirq Hok) as Hf.
  unfold bind in *. cbn [obind clear_flag omod test_flag oget fst snd] in *.
  eapply atomic_bind; [exact Hf|]. clear Hf.
  intros [] k' o' Hkin ((Hl' & Hp' & Hw') & Eq & Ewc & Eu & Eh & Ef). cbn [fst snd] in *.
  set (o2 := upd_queue q (fun y => y <| qflags ::= fun f => flag_clear f K_WORK_QUEUE_BUSY_BIT |>) o').
  change (clear_qflag q K_WORK_QUEUE_BUSY_BIT (k', o')) with (Done tt (k', o2)). apply atomic_done; [apply Hkin|]. cbn [fst snd].
  assert (forall q' i, 0 <= i -> flag_test (qflags (queues o2 q')) i
    = flag_test (qflags (queues o q')) i && negb (bool_decide (q' = q) && (i =? K_WORK_QUEUE_BUSY_BIT))) as Ebit.
  { intros q' i Hi'. unfold o2. rewrite test_clear_queue by done. by rewrite Eq. }
  pose proof (fun q' => queue_qflag q (fun f => flag_clear f K_WORK_QUEUE_BUSY_BIT) o' q') as Eo2.
  change (upd_queue q _ o') with o2 in Eo2. rewrite Eq in Eo2. split.
  - exists (filter (fun c => wc_work o c <> x) cs). split; [split|]; cbn [snd].
    + apply (links_same _ _ o'); try done. intros q'. rewrite Eq. apply Eo2.
    + eapply items_stop with (w := x); try done; try apply Ef; try (intros; apply Eh).
      * by rewrite <-Ewc.
      * intros c Hc. apply list_elem_of_filter in Hc. tauto.
    + destruct Hp as [P1 P0 P2 P3 P4]. split; try apply Hp'; intros q'; destruct (Eo2 q') as (E1 & _ & E3 & E4).
      * intros HQ'. rewrite Ebit by done. destruct (decide (q' = q)) as [->|N].
        -- rewrite (bool_decide_eq_true_2 (q = q)), andb_false_r, fn_lookup_insert by done. done.
        -- rewrite (bool_decide_eq_false_2 (q' = q)), andb_true_r, fn_lookup_insert_ne by done. by apply P1.
      * by rewrite E1.
      * by rewrite E3.
      * by rewrite E4.
    + apply (handlers_same ls _ o); [intros; apply Eh|eauto|done].
    + eapply wait_shrink; [exact Hw'|..]; try done; intros q'; [rewrite Eq; apply Eo2|].
      rewrite Ebit by done. by rewrite Eq, andb_false_r, andb_true_r.
  - split; try done.
    + intros w. apply Eh.
    + intros q'. apply Eo2.
    + intros q' i Hi' N. rewrite Ebit by done. replace (i =? _) with false by lia. by rewrite andb_false_r, andb_true_r.
Qed.

(** ** Delayed submission *)

(** A change that touches only the delay of the item [w]. *)
Record delay_keeps (w : Z) (o o' : wstate) : Prop := {
  dl_works x : x <> w -> works o' x = works o x;
  dl_flags b : 0 <= b -> b <> K_WORK_DELAYED_BIT -> flag_test (flags (works o' w)) b = flag_test (flags (works o w)) b;
  dl_queue : queue (works o' w) = queue (works o w);
  dl_handler : handler (works o' w) = handler (works o w);
  dl_queues : queues o' = queues o;
  dl_snext : snext o' = snext o;
  dl_cancels : pending_cancels o' = pending_cancels o;
  dl_wc : wc_work o' = wc_work o;
  dl_sems : sems o' = sems o;
  dl_user : user o' = user o
}.

Lemma wok_delay R W ls cs k k' o o' w :
  delay_keeps w o o' -> (forall x, waitqs k' x = waitqs k x) -> wok R W ls cs (k, o) -> wok R W ls cs (k', o').
Proof.
  intros [E1 E2 E3 E4 E5 E6 E7 E8 E9 E10] Ek [[Hl Hi Hp Hh] Hw]. cbn [snd] in *.
  assert (forall x, handler (works o' x) = handler (works o x) /\ queue (works o' x) = queue (works o x)) as Ex
    by (intros x; destruct (decide (x = w)) as [->|N]; [done|by rewrite E1]).
  split; [split|]; cbn [snd].
  - apply (links_same _ _ o); try done; intros; by rewrite ?E5, ?E6.
  - apply (items_same _ _ _ o); try done; [|apply Ex|by rewrite E8].
    intros x b Hb. destruct (decide (x = w)) as [->|N]; [apply E2; unfold K_WORK_DELAYED_BIT; lia|by rewrite E1].
  - apply (places_same _ o); try done; intros; by rewrite ?E5, ?E9.
  - apply (handlers_same ls _ o); [apply Ex|eauto|done].
  - eapply wait_ext; [exact Ek|]. eapply wait_shrink; [exact Hw|..]; try done; intros; by rewrite ?E5, ?E9.
Qed.

(** A timeout of the queue is pending only for an item marked as delayed. *)
Definition armed (w : Z) (s : St) : Prop := is_linked (work_to w) (tmo s.1) = true -> delayed s.2 w = true.

Lemma timer_tmo_kin k f :
  krun k -> (forall y, is_linked (TO_thread y) (f (tmo k)) = is_linked (TO_thread y) (tmo k)) ->
  tq_wf (f (tmo k)) -> elapsed (f (tmo k)) = elapsed (tmo k) -> kin k (k <| tmo ::= f |>).
Proof.
  intros [H1 H2 H3] Hl Hw He. destruct (tmo_core none f k) as [[C1 C2 C3] C4]; try done.
  { rewrite He. apply H1. }
  { intros y Hy. by rewrite Hl. }
Qed.

Lemma clear_delayed_keeps w o :
  delay_keeps w o (upd_work w (fun x => x <| flags ::= fun f => flag_clear f K_WORK_DELAYED_BIT |>) o).
Proof.
  split; try done.
  - intros x Hx. by rewrite works_upd, decide_False.
  - intros b Hb N. rewrite test_clear_work by done. replace (b =? _) with false by lia. by rewrite andb_false_r, andb_true_r.
  - apply queue_flag.
  - apply handler_flag.
Qed.

Definition mark_delayed (w : Z) (o : wstate) : wstate :=
  upd_work w (fun x => x <| flags ::= fun f => flag_set f K_WORK_DELAYED_BIT |>) o.

Lemma set_delayed_keeps w q o : delay_keeps w o ((mark_delayed w o) <| dw_queue ::= <[w := q]> |>).
Proof.
  split; try done; change (works ((mark_delayed w o) <| dw_queue ::= <[w := q]> |>)) with (works (mark_delayed w o)).
  - intros x Hx. unfold mark_delayed. by rewrite works_upd, decide_False.
  - intros b Hb N. unfold mark_delayed. rewrite test_set_work by done. replace (b =? _) with false by lia.
    by rewrite andb_false_r, orb_false_r.
  - apply queue_flag.
  - apply handler_flag.
Qed.

Lemma clear_delayed w o : delayed (upd_work w (fun x => x <| flags ::= fun f => flag_clear f K_WORK_DELAYED_BIT |>) o) w = false.
Proof. flag_eq. by rewrite bool_decide_eq_true_2, andb_false_r. Qed.

Lemma unschedule_atomic R W ls cs k o w :
  krun k -> wok R W ls cs (k, o) -> armed w (k, o) ->
  atomic k (fun r s => r = is_linked (work_to w) (tmo k) /\ wok R W ls cs s /\ delay_keeps w o s.2
                       /\ dw_queue s.2 = dw_queue o /\ delayed s.2 w = false /\ is_linked (work_to w) (tmo s.1) = false
                       /\ forall x, waitqs s.1 x = waitqs k x)
    (unschedule_locked w (k, o)).
Proof.
  intros Hk Hok Ha. unfold unschedule_locked, flag_test_and_clear, test_flag, clear_flag. run_code.
  set (o1 := upd_work w _ o). pose proof (kwf_base _ (kru_wf _ Hk)) as Hb.
  assert (delay_keeps w o o1) as Hkeep by apply clear_delayed_keeps.
  assert (delayed o1 w = false) as Hd1 by apply clear_delayed. unfold armed in Ha. cbn [fst snd] in Ha.
  destruct (delayed o w) eqn:Ed.
  - set (f := fun q => (z_abort_timeout (work_to w) q).2).
    assert (kin k (k <| tmo ::= f |>)) as Hkin.
    { apply timer_tmo_kin; [done|..]; unfold f.
      - intros y. rewrite abort_timeout_linked by apply Hb. by rewrite bool_decide_eq_true_2, andb_true_r.
      - apply abort_timeout_wf, Hb.
      - apply abort_timeout_elapsed. }
    assert ((let '(rc, q) := z_abort_timeout (work_to w) (tmo k) in (rc, k <| tmo := q |>))
            = ((z_abort_timeout (work_to w) (tmo k)).1, k <| tmo ::= f |>)) as E
      by (change (k <| tmo ::= f |>) with (k <| tmo := (z_abort_timeout (work_to w) (tmo k)).2 |>);
          by destruct (z_abort_timeout _ _)).
    run_code. rewrite E. cbn [obind fst snd]. split; [done|]. cbn [fst snd]. split_and!; try done.
    + unfold z_abort_timeout. by destruct (is_linked (work_to w) (tmo k)).
    + by apply (wok_delay _ _ _ _ k _ o _ w).
    + change (tmo _) with (f (tmo k)). unfold f. rewrite abort_timeout_linked by apply Hb.
      by rewrite bool_decide_eq_false_2, andb_false_r by tauto.
  - destruct (is_linked (work_to w) (tmo k)) eqn:El; [by specialize (Ha eq_refl)|].
    apply atomic_done; [done|]. cbn [fst snd]. split_and!; try done. by apply (wok_delay _ _ _ _ k _ o _ w).
Qed.

(** What arming the timeout of [w] leaves: the item is marked, remembers its
    queue, and expires when its delay has passed. *)
Record delayed_to (w q delay : Z) (s s' : St) : Prop := {
  de_keeps : delay_keeps w s.2 s'.2;
  de_delayed : delayed s'.2 w = true;
  de_queue : dw_queue s'.2 w = q;
  de_expiry : delay <> K_FOREVER ->
    expiry (work_to w) (tmo s'.1) = Some (curr_tick (tmo s.1) + timeout_dticks delay (tmo s.1));
  de_others t : t <> work_to w -> expiry t (tmo s'.1) = expiry t (tmo s.1);
  de_waitqs x : waitqs s'.1 x = waitqs s.1 x
}.

Lemma delay_atomic R W ls cs k o w q delay :
  krun k -> wok R W ls cs (k, o) -> delay <> K_NO_WAIT -> is_linked (work_to w) (tmo k) = false ->
  atomic k (fun r s => r.1 = 1 /\ wok R W ls cs s /\ delayed_to w q delay (k, o) s)
    (schedule_for_queue_locked q w delay (k, o)).
Proof.
  intros Hk Hok Hd Hl. unfold schedule_for_queue_locked, set_flag. replace (delay =? K_NO_WAIT) with false by lia. run_code.
  set (f := z_add_timeout (work_to w) delay). pose proof (kwf_base _ (kru_wf _ Hk)) as Hb.
  pose proof (set_delayed_keeps w q o) as Hkeep. fold (mark_delayed w o).
  split; cbn [fst snd]; [|split; [done|split; [by apply (wok_delay _ _ _ _ k _ o _ w)|]]].
  - apply timer_tmo_kin; [done|..]; unfold f.
    + intros y. destruct (decide (delay = K_FOREVER)) as [->|N]; [done|]. rewrite add_timeout_linked by done.
      by rewrite bool_decide_eq_false_2 by done.
    + apply add_timeout_wf; [apply Hb|done|apply Hb].
    + apply add_timeout_elapsed.
  - split; cbn [fst snd]; try done.
    + change (works _) with (works (mark_delayed w o)). unfold mark_delayed. flag_eq. by rewrite bool_decide_eq_true_2, orb_true_r.
    + apply fn_lookup_insert.
    + intros N. change (expiry (work_to w) (f (tmo k)) = Some (curr_tick (tmo k) + timeout_dticks delay (tmo k))).
      unfold f. rewrite add_timeout_expiry by done. by rewrite decide_True.
    + intros t Ht. change (expiry t (f (tmo k)) = expiry t (tmo k)). unfold f.
      destruct (decide (delay = K_FOREVER)) as [->|N]; [done|]. rewrite add_timeout_expiry by done. by rewrite decide_False.
Qed.

End Inv.

End WorkInv.
