(* ===== verification/WorkThm.v ===== *)
(** Runs of the work queue code (kernel/work.c): synchronous calls, the loop of
    the queue thread, and the interface as a whole. *)
From stdpp Require Import gmap sets.
From S2P Require Import Prelude TimeUnits Timeout Kernel Sched SchedInv SchedApi Demo Sem GenList SList Work WorkInv.

Module WorkThm.
Import Work WorkInv.

Section Inv.
Context {cl : client} {env : work_env} {lay : work_layout}.

(** ** The invariant between switches *)

(** The threads of the queues are not the idle thread. *)
Definition owners_run (k : kernel) : Prop := forall q, q ∈ Q -> owner q <> idle_thread k.

(** [Φ] is what the current thread knows about running items, lists and data. *)
Definition J (Φ : (Z -> option Z) -> (Z -> list Z) -> wstate -> Prop) (W : Z -> option tid) (s : St) : Prop :=
  owners_run s.1 /\ exists R ls cs, Φ R ls s.2 /\ wok R W ls cs s.

Lemma J_waitq_only Φ W : waitq_only (J Φ W).
Proof.
  intros k k' o Hw Hid (Ho & R & ls & cs & HΦ & Hp & Hww). split; [unfold owners_run; cbn [fst]; by rewrite Hid|]. exists R, ls, cs.
  split; [done|]. split; [done|]. by eapply wait_ext.
Qed.

Lemma J_stable Φ W : stable (J Φ W).
Proof. apply waitq_only_stable, J_waitq_only. Qed.


Lemma awaited_elsewhere R W ls cs c s :
  krun s.1 -> wok R W ls cs s -> W c = Some (current s.1) -> ~ awaited ls cs c.
Proof.
  intros Hk [_ Hw] Hc Ha. pose proof (ww_user _ _ _ _ Hw c _ Hc Ha) as E.
  assert (pended_on (threads s.1 (current s.1)) = Some (sq c)) as Hp.
  { apply (kb_wq _ (kwf_base _ (kru_wf _ Hk))). rewrite E. left. }
  by rewrite (kc_pended _ (kwf_cur _ (kru_wf _ Hk))) in Hp.
Qed.

(** The wait for the sync object [c] ends only when it is not in any list. *)
Lemma sync_wait_runs Φ W R ls cs c k o :
  krun k -> current k <> idle_thread k -> sync c = true -> W c = Some (current k) -> awaited ls cs c ->
  waitqs k (sq c) = [] -> owners_run k -> Φ R ls o -> wok R (<[c := None]> W) ls cs (k, o) ->
  runs (J Φ W) (current k)
    (fun _ s => returned (J Φ W) (current k) (irq_locked k) s
                /\ exists R ls cs, Φ R ls s.2 /\ wok R W ls cs s /\ ~ awaited ls cs c)
    ((_ <- Sem.z_impl_k_sem_take (P := sem_at c) K_FOREVER ;; ret tt) (k, o)).
Proof.
  intros Hk Hidle Hc HW Ha Hq Hown HΦ [Hp Hw]. cbn [snd] in *. unfold bind. eapply runs_bind.
  - apply (Sem.take_wait_runs (P := sem_at c) (J Φ W)); [apply J_stable|done|done|by apply (ww_count _ _ _ _ Hw)|done|].
    cbn [Sem.sem_of sem_at]. rewrite (wp_sq _ _ (wp_places _ _ _ _ Hp)). intros k' Hpe.
    split; [unfold owners_run; cbn [fst]; by rewrite (pe_idle _ _ _ Hpe)|].
    exists R, ls, cs. split; [done|]. split; [done|]. destruct Hw as [H1 H2 H3 H4 H5].
    pose proof (pe_wqs _ _ _ Hpe) as Ew. cbn in Ew.
    split; cbn [fst snd] in *.
    + intros q HQ. rewrite Ew by apply nq_sq. auto.
    + intros q t HQ. rewrite Ew by apply nq_sq. auto.
    + intros q HQ. rewrite Ew by apply dq_sq. auto.
    + done.
    + intros x t Hx Hax. destruct (decide (x = c)) as [->|N].
      * destruct (pe_wq _ _ _ Hpe) as (th & _ & ->). cbn. rewrite Hq. simpl. congruence.
      * rewrite Ew by (intros ?%sq_inj; done). apply H5; [by rewrite fn_lookup_insert_ne|done].
  - intros r s Hret. cbn [runs ret]. split; [done|]. destruct Hret as (R1 & (_ & R' & ls' & cs' & HΦ' & Hok') & R3 & R4).
    exists R', ls', cs'. split_and!; try done. eapply awaited_elsewhere; [done|done|]. by rewrite R3.
Qed.

(** Knowledge that only concerns the client's data and its items. *)
Definition view (Φ : (Z -> option Z) -> (Z -> list Z) -> wstate -> Prop) : Prop :=
  forall R ls o o', user o' = user o -> (forall w, sync w = false -> handler (works o' w) = handler (works o w)) ->
    Φ R ls o -> Φ R ls o'.

(** ** The thread of a queue *)

Lemma next_wait_runs Φ R W ls cs k o q :
  krun k -> current k <> idle_thread k -> view Φ -> wok R W ls cs (k, o) -> q ∈ Q -> ls q = [] ->
  current k = thread (queues o q) -> owners_run k -> Φ R ls o ->
  runs (J Φ W) (current k)
    (fun r s => r = (NULL, NULL) /\ returned (J Φ W) (current k) (irq_locked k) s) (work_queue_next q (k, o)).
Proof.
  intros Hk Hidle HΦ Hok HQ El Ht Hown HΦ0. pose proof Hok as [Hp Hw]. cbn [snd] in *.
  pose proof (gen_get_cases _ _ _ (wl_pending _ _ _ (wp_links _ _ _ _ Hp) q HQ)) as Hg. rewrite El in Hg.
  unfold work_queue_next. unfold bind at 1, k_spin_lock. cbn [obind fst snd]. unfold bind at 1. unfold sys_slist_get. cbn [fst snd].
  rewrite Hg. cbn [obind fst snd]. replace (gl_NULL =? NULL) with true by done. cbn [negb].
  unfold bind at 1, qflag_test_and_clear, test_qflag, clear_qflag, bind at 1 2, oget at 1, omod. cbn [obind fst snd ret].
  fold (emptied q o). rewrite queues_upd, decide_True by done. change (qflags _) with (qflags (queues o q)).
  set (k0 := k <| irq_locked := true |>).
  assert (wok R W ls cs (k0, o)) as Hok0 by (split; [done|by apply (wait_ext _ _ _ k)]).
  unfold bind at 1. eapply atomic_runs; [by eapply drained_atomic; [by apply krun_irq|..]|].
  intros [] k1 o1 Hkin (Eo & E1 & E2). cbn [fst snd] in *. subst o1.
  unfold bind at 1, oget at 1. cbn [obind fst snd].
  destruct (emptied_queues q o q) as (_ & _ & -> & _). rewrite (wp_nq _ _ (wp_places _ _ _ _ Hp)).
  rewrite <-(ki_cur _ _ Hkin : current k1 = current k).
  unfold bind at 1, z_sched_wait, bind at 1.
  eapply (runs_bind _ _ (fun _ s => returned (J Φ W) (current k1) (irq_locked k) s)).
  { eapply runs_bind; [apply (z_pend_curr_runs (J Φ W) _ (nq q) K_FOREVER k1 (emptied q o))|].
    - apply J_stable.
    - apply Hkin.
    - by rewrite (ki_cur _ _ Hkin), (ki_idle _ _ Hkin).
    - intros k' Hpe. split; [unfold owners_run; cbn [fst]; by rewrite (pe_idle _ _ _ Hpe), (ki_idle _ _ Hkin)|].
      exists R, ls, cs. split; [by apply (HΦ _ _ o)|]. split; [by apply emptied_pure|].
      eapply idle_wait; try done. apply Hkin.
    - intros r s (R1 & R2 & R3 & R4 & _). rewrite negb_involutive in R4. by split_and!. }
  intros r s Hr. by split.
Qed.

Lemma work_queue_done_runs Φ R W ls cs k o q x :
  krun k -> current k <> idle_thread k -> view Φ -> wok R W ls cs (k, o) -> R q = Some x ->
  owners_run k -> Φ (<[q := None]> R) ls o ->
  runs (J Φ W) (current k) (fun _ => returned (J Φ W) (current k) (irq_locked k)) (work_queue_done q x (k, o)).
Proof.
  intros Hk Hidle HΦ Hok HR Hown HΦ0. set (k0 := k <| irq_locked := true |>).
  assert (wok R W ls cs (k0, o)) as Hok0 by (destruct Hok; split; [done|by apply (wait_ext _ _ _ k)]).
  pose proof (done_locked_atomic R W ls cs k0 o q x (kin_lock _ Hk) eq_refl Hok0 HR) as Hd.
  unfold work_queue_done, bind in *. cbn [obind k_spin_lock clear_flag omod test_flag oget fst snd] in *. fold k0.
  set (r1 := (if canceling _ x then finalize_cancel_locked x else ret tt) (k0, _)) in *.
  destruct r1 as [[] [k1 o1]|]; [|done]. cbn [obind fst snd clear_qflag omod] in *. destruct Hd as (Hkin & (cs' & Hok') & Hkeep).
  cbn [fst snd] in *. set (o2 := upd_queue q _ o1) in *. unfold test_qflag, oget. cbn [obind fst snd].
  assert (Φ (<[q := None]> R) ls o2) as HΦ2 by (apply (HΦ _ _ o); [apply Hkeep|intros; apply Hkeep|done]).
  unfold k_spin_unlock, kmod. cbn [obind fst snd]. rewrite negb_involutive. set (k2 := k1 <| irq_locked := irq_locked k |>).
  assert (J Φ W (k2, o2)) as HJ.
  { split; [unfold owners_run; cbn [fst]; change (idle_thread k2) with (idle_thread k1); by rewrite (ki_idle _ _ Hkin)|].
    exists (<[q := None]> R), ls, cs'. split; [done|]. destruct Hok'. split; [done|by apply (wait_ext _ _ _ k1)]. }
  assert (krun k2) as Hk2 by (apply krun_irq, Hkin).
  assert (current k2 = current k) as Ec by apply (ki_cur _ _ Hkin).
  destruct (negb _).
  - rewrite <-Ec. change (irq_locked k) with (irq_locked k2). apply yield_runs; [apply J_waitq_only|done| |done].
    rewrite Ec. change (idle_thread k2) with (idle_thread k1). by rewrite (ki_idle _ _ Hkin).
  - cbn [runs ret]. by split_and!.
Qed.

(** *** The handler of a flusher *)
Lemma running_not_awaited R ls cs o q c :
  witems R ls cs o -> sync c = true -> R q = Some c -> ~ awaited ls cs c.
Proof.
  intros Hi Hs HR. assert (running o c = true) as Hr by (apply Hi; eauto).
  intros [Hc|(q' & HQ & Hc)].
  - rewrite (wi_cs _ _ _ _ Hi c Hc) in Hr. done.
  - pose proof (wi_listed _ _ _ _ Hi q' c HQ Hc) as E. rewrite Hs in E. destruct E. congruence.
Qed.

Lemma handle_flush_runs Φ W c k o q :
  krun k -> view Φ -> (forall R ls o, Φ R ls o -> R q = Some c) -> sync c = true -> J Φ W (k, o) ->
  runs (J Φ W) (current k) (fun _ => returned (J Φ W) (current k) (irq_locked k)) (handle_flush c (k, o)).
Proof.
  intros Hk HΦ HR Hs (Hown & R & ls & cs & HΦ0 & Hok). pose proof Hok as [[Hl Hi Hp Hh] Hw]. cbn [snd] in *.
  pose proof (running_not_awaited _ _ _ _ _ _ Hi Hs (HR _ _ _ HΦ0)) as Hna.
  apply (Sem.give_place_runs (P := sem_at c)); [apply J_stable|done| |]; cbn [Sem.sem_of Sem.sem_upd sem_at];
    rewrite (wp_sq _ _ Hp).
  - intros _. split; [done|]. exists R, ls, cs. set (o' := o <| sems ::= _ |>).
    assert (gave c o o') as Hg by (by right). destruct (gave_sems _ _ _ Hg) as [Eg1 Eg2].
    split; [by apply (HΦ _ _ o)|]. split; [split|]; cbn [snd].
    + by apply (links_same _ _ o).
    + by apply (items_same _ _ _ o).
    + by apply (places_same _ o).
    + apply (handlers_same ls _ o); eauto.
    + by eapply wait_give.
  - intros t k' Hwo. split; [unfold owners_run; cbn [fst]; by rewrite (wo_idle _ _ _ _ _ Hwo)|]. exists R, ls, cs.
    split; [done|]. split; [done|]. eapply wait_give with (c := c); try done. apply (wo_wqs _ _ _ _ _ Hwo).
Qed.

(** *** Progress of the loop *)
Section Loop.
Variables (W : Z -> option tid) (q w : Z) (ran : user_state -> Prop).

(** What is known of the item [w] of [q]: that its handler has run, which the
    client can see in its data, or that fewer than [i] items are before it. *)
Definition progress (i : option nat) (ls : Z -> list Z) (o : wstate) : Prop :=
  match i with
  | None => True
  | Some i => ran (user o) \/ exists a b, ls q = a ++ w :: b /\ (length a < i)%nat
  end.

(** The knowledge of the thread of [q]: the item it runs, and the progress. *)
Definition Jq (x : option Z * option nat) : St -> Prop :=
  J (fun R ls o => R q = x.1 /\ progress x.2 ls o) W.

Lemma progress_view x : view (fun R ls o => R q = x.1 /\ progress x.2 ls o).
Proof.
  intros R ls o o' Eu _ [H1 H2]. split; [done|]. destruct x as [y [i|]]; [|done]. cbn in *. by rewrite Eu.
Qed.

(** A handler of the client keeps the invariant and the progress. *)
Definition handler_ok (f : M St unit) (x : Z) : Prop :=
  forall i k o, krun k -> current k = owner q -> Jq (Some x, i) (k, o) ->
    runs (Jq (Some x, i)) (owner q) (fun _ => returned (Jq (Some x, i)) (owner q) (irq_locked k)) (f (k, o)).

(** The handler of [w] leaves its mark. *)
Definition handler_marks (f : M St unit) : Prop :=
  forall k o, krun k -> current k = owner q -> Jq (Some w, None) (k, o) ->
    runs (Jq (Some w, None)) (owner q) (fun _ => returned (Jq (Some w, Some O)) (owner q) (irq_locked k)) (f (k, o)).

Hypothesis Hq : q ∈ Q.
Hypothesis Hw : sync w = false.
Hypothesis Hok : forall h x, sync x = false -> handler_ok (client_handler h x) x.
Hypothesis Hmark : forall h, handler_marks (client_handler h w).

Lemma progress_weaken y i j s :
  (forall ls o, progress i ls o -> progress j ls o) -> Jq (y, i) s -> Jq (y, j) s.
Proof.
  intros H (Ho & R & ls & cs & [H1 H2] & Hk). split; [done|]. exists R, ls, cs. split; [|done]. split; [done|]. cbn in *. auto.
Qed.

Lemma call_handler_runs x h i k o :
  krun k -> current k = owner q -> Jq (Some x, i) (k, o) ->
  (if sync x then h = HANDLE_FLUSH else h <> HANDLE_FLUSH) ->
  runs (Jq (Some x, i)) (owner q) (fun _ => returned (Jq (Some x, i)) (owner q) (irq_locked k)) (call_handler h x (k, o)).
Proof.
  intros Hk Hc HJ Hh. unfold call_handler. destruct (sync x) eqn:Es.
  - rewrite Hh, Z.eqb_refl, <-Hc. eapply handle_flush_runs with (q := q); [done|apply progress_view| |done|done].
    by intros R ls o' [? _].
  - replace (h =? HANDLE_FLUSH) with false by (symmetry; by apply Z.eqb_neq). by apply Hok.
Qed.

(** The item at the head of the list is run, and the progress with it. *)
Lemma run_item x h i k o :
  krun k -> current k = owner q -> (if sync x then h = HANDLE_FLUSH else h <> HANDLE_FLUSH) ->
  Jq (Some x, i) (k, o) \/ (x = w /\ Jq (Some x, None) (k, o)) ->
  runs_in Jq (owner q) (fun _ => returned (Jq (None, i)) (owner q) (irq_locked k))
    ((call_handler h x ;; work_queue_done q x) (k, o)).
Proof.
  intros Hk Hc Hh HJ. unfold bind.
  eapply (runs_in_bind _ _ (fun _ => returned (Jq (Some x, i)) (owner q) (irq_locked k))).
  - destruct HJ as [HJ|[-> HJ]]; [by eapply runs_in_one, call_handler_runs|].
    rewrite Hw in Hh. unfold call_handler. replace (h =? HANDLE_FLUSH) with false by (symmetry; by apply Z.eqb_neq).
    eapply runs_in_one, runs_mono; [|by apply Hmark]. intros [] s (R1 & R2 & R3 & R4). split_and!; try done.
    eapply progress_weaken; [|exact R2]. intros ls o' [?|(a & b & _ & ?)]; [|lia]. destruct i; [by left|done].
  - intros [] [k' o'] (R1 & (Hown & R & ls & cs & [HR HP] & Hwok) & R3 & R4). cbn [fst snd] in *.
    eapply runs_in_one, runs_mono; [|rewrite <-R3; eapply (work_queue_done_runs _ R W ls cs); try done].
    + intros [] s Hs. by rewrite R3, R4 in Hs.
    + rewrite R3. by apply Hown.
    + apply (progress_view (None, i)).
    + split; [apply fn_lookup_insert|done].
Qed.

(** One round. *)
Lemma round_runs i k o :
  krun k -> current k = owner q -> Jq (None, i) (k, o) ->
  runs_in Jq (owner q) (fun _ => returned (Jq (None, option_map pred i)) (owner q) (irq_locked k))
    ((r <- work_queue_next q ;;
      (if r.1 =? NULL then ret tt else (call_handler r.2 r.1 ;; work_queue_done q r.1))) (k, o)).
Proof.
  intros Hk Hc (Hown & R & ls & cs & [HR HP] & Hwok). pose proof Hwok as [[Hl Hi Hp Hh] _]. cbn [fst snd] in *.
  destruct (ls q) as [|x r] eqn:El.
  - assert (progress (option_map pred i) ls o) as HP'.
    { destruct i as [i|]; [|done]. destruct HP as [?|(a & b & E & _)]; [by left|]. rewrite El in E. by destruct a. }
    unfold bind. eapply runs_in_bind.
    + rewrite <-Hc. eapply runs_in_one with (x := (None, option_map pred i)).
      eapply (next_wait_runs _ R W ls cs); try done.
      * rewrite Hc. by apply Hown.
      * apply progress_view.
      * by rewrite Hc, (wp_owner _ _ Hp).
    + intros r s [-> Hs]. cbn [fst snd Z.eqb NULL runs_in ret]. by rewrite Hc in Hs.
  - destruct (next_take _ _ _ _ _ _ _ _ _ Hwok Hq HR El) as (L' & En & Hwok').
    unfold bind at 1. rewrite En. cbn [obind fst snd].
    assert (x ∈ ls q) as Hx by (rewrite El; left).
    replace (x =? NULL) with false
      by (pose proof (slist_pos _ _ _ _ (wl_pending _ _ _ Hl q Hq) Hx); unfold NULL; lia).
    apply run_item; try done.
    + destruct (sync x) eqn:Es; [by eapply (wh_flusher _ _ Hh)|by eapply (wh_client _ _ Hh)].
    + assert (forall j, progress j (<[q := r]> ls) (taken q x L' o) -> Jq (Some x, j) (k, taken q x L' o)) as HJ.
      { intros j Hj. split; [done|]. do 3 eexists. split; [|exact Hwok']. split; [apply fn_lookup_insert|done]. }
      destruct i as [i|]; [|left; by apply HJ]. destruct HP as [HP|(a & b & E & Hi')]; [left; apply HJ; by left|].
      rewrite El in E. destruct a as [|y a]; simplify_eq/=; [right; split; [done|by apply HJ]|].
      left. apply HJ. right. exists a, b. rewrite fn_lookup_insert. split; [done|lia].
Qed.

(** [n] rounds. *)
Lemma main_runs n : forall i k o,
  krun k -> current k = owner q -> Jq (None, i) (k, o) ->
  runs_in Jq (owner q) (fun _ => returned (Jq (None, option_map (fun i => (i - n)%nat) i)) (owner q) (irq_locked k))
    (work_queue_main n q (k, o)).
Proof.
  induction n as [|n IH]; intros i k o Hk Hc HJ.
  - cbn. split_and!; try done. destruct i as [i|]; [|done]. cbn [option_map]. by rewrite Nat.sub_0_r.
  - cbn [work_queue_main]. pose proof (round_runs i k o Hk Hc HJ) as Hr.
    unfold bind at 1 in Hr. unfold bind at 1. apply runs_in_assoc. eapply runs_in_bind; [exact Hr|].
    intros [] [k' o'] (R1 & R2 & R3 & R4). cbn [fst snd] in *. rewrite <-R4.
    replace (option_map (fun i => (i - S n)%nat) i) with (option_map (fun i => (i - n)%nat) (option_map pred i))
      by (destruct i as [i|]; [|done]; cbn; f_equal; lia).
    by apply IH.
Qed.

End Loop.

(** ** The interface *)

(** The invariant as the other threads keep it: what they know is about the
    running items. *)
Definition JR (Φ : (Z -> option Z) -> Prop) (W : Z -> option tid) : St -> Prop := J (fun R _ _ => Φ R) W.

(** Only sync objects have users. *)
Definition users_sync (W : Z -> option tid) : Prop := forall c, W c <> None -> sync c = true.

Definition holds (Φ : (Z -> option Z) -> Prop) W (s : St) : Prop := exists R ls cs, Φ R /\ wok R W ls cs s.

Lemma wok_kernel R W ls cs k k' o : (forall x, waitqs k' x = waitqs k x) -> wok R W ls cs (k, o) -> wok R W ls cs (k', o).
Proof. intros E [Hp Hw]. split; [done|by eapply wait_ext]. Qed.

Lemma wok_user R W ls cs k o u : wok R W ls cs (k, o) -> wok R W ls cs (k, o <| user := u |>).
Proof.
  intros [[Hl Hi Hp Hh] Hw]. cbn [snd] in *. split; [split|]; cbn [snd].
  - by apply (links_same _ _ o).
  - by apply (items_same _ _ _ o).
  - by apply (places_same _ o).
  - apply (handlers_same ls _ o); eauto.
  - by eapply wait_shrink.
Qed.

Lemma wok_locked R W ls cs k o : wok R W ls cs (k, o) -> wok R W ls cs (k <| irq_locked := true |>, o).
Proof. by apply wok_kernel. Qed.

Lemma kin_owners k k' : kin k k' -> owners_run k -> owners_run k'.
Proof. intros Hk Ho q Hq. rewrite (ki_idle _ _ Hk). by apply Ho. Qed.

Lemma holds_JR Φ W s : owners_run s.1 -> holds Φ W s -> JR Φ W s.
Proof. intros Ho (R & ls & cs & H1 & H2). split; [done|]. by exists R, ls, cs. Qed.

(** A function that is one critical section. *)
Lemma section_runs {A B} Φ W k (r : outcome St A) (f : A -> B) :
  owners_run k -> atomic (k <| irq_locked := true |>) (fun _ s => holds Φ W s) r ->
  runs (JR Φ W) (current k) (fun _ => returned (JR Φ W) (current k) (irq_locked k))
    (obind r (fun a s => obind (k_spin_unlock (negb (irq_locked k)) s) (fun _ s' => Done (f a) s'))).
Proof.
  intros Ho Hr. eapply atomic_runs; [exact Hr|]. intros a k' o' Hkin Hh. run_code. cbn [runs]. rewrite negb_involutive.
  split_and!; [apply krun_irq, Hkin| |apply (ki_cur _ _ Hkin)|done].
  apply holds_JR; [apply (kin_owners k); [split|]; try done; [apply krun_irq, Hkin|apply (ki_cur _ _ Hkin)|apply (ki_idle _ _ Hkin)]|].
  destruct Hh as (R & ls & cs & H1 & H2). exists R, ls, cs. split; [done|]. by apply (wok_kernel _ _ _ _ k').
Qed.

(** A critical section, followed by a wait when it asks for one. *)
Lemma section_wait_runs {B} Φ W c k b0 (r : outcome St bool) (f : bool -> B) :
  krun k -> current k <> idle_thread k -> owners_run k -> sync c = true -> W c = Some (current k) ->
  atomic (k <| irq_locked := true |>)
    (fun b s => b = b0 /\ if (b : bool) then waitqs s.1 (sq c) = [] /\ exists R ls cs, Φ R /\ wok R (<[c := None]> W) ls cs s /\ awaited ls cs c
                else exists R ls cs, Φ R /\ wok R W ls cs s /\ ~ awaited ls cs c) r ->
  runs (JR Φ W) (current k)
    (fun v s => v = f b0 /\ returned (JR Φ W) (current k) (irq_locked k) s
                /\ exists R ls cs, Φ R /\ wok R W ls cs s /\ ~ awaited ls cs c)
    (obind r (fun b s => obind (k_spin_unlock (negb (irq_locked k)) s)
       (fun _ s => obind ((if b then (_ <- Sem.z_impl_k_sem_take (P := sem_at c) K_FOREVER ;; ret tt) else ret tt) s)
          (fun _ s' => Done (f b) s')))).
Proof.
  intros Hk Hid Ho Hc HW Hr. eapply atomic_runs; [exact Hr|]. intros b k' o' Hkin [<- Hb]. cbn [fst snd] in Hb.
  unfold k_spin_unlock, kmod. cbn [obind fst snd]. rewrite negb_involutive. set (k2 := k' <| irq_locked := irq_locked k |>).
  assert (krun k2) as Hk2 by apply krun_irq, Hkin.
  assert (current k2 = current k) as Ec by apply (ki_cur _ _ Hkin).
  assert (idle_thread k2 = idle_thread k) as Ei by apply (ki_idle _ _ Hkin).
  assert (owners_run k2) as Ho2 by (intros q Hq; rewrite Ei; by apply Ho).
  destruct b.
  - destruct Hb as (Hq & R & ls & cs & H1 & H2 & H3).
    rewrite <-Ec. change (irq_locked k) with (irq_locked k2). eapply runs_bind.
    + apply (sync_wait_runs (fun R _ _ => Φ R) W R ls cs c k2 o'); try done; try congruence. by apply (wok_kernel _ _ _ _ k').
    + intros a s Hs. by split.
  - destruct Hb as (R & ls & cs & H1 & H2 & H3). cbn [obind ret runs].
    assert (wok R W ls cs (k2, o')) as H2' by (by apply (wok_kernel _ _ _ _ k')).
    split; [done|]. split; [|by exists R, ls, cs]. split_and!; try done. apply holds_JR; [done|by exists R, ls, cs].
Qed.

(** *** Each function *)

Section Ops.
Context (Φ : (Z -> option Z) -> Prop) (W : Z -> option tid) (HW : users_sync W).

(** The state in which a thread calls a function. *)
Record calling (R : Z -> option Z) (ls : Z -> list Z) (cs : list Z) (k : kernel) (o : wstate) : Prop := {
  ca_run : krun k;
  ca_idle : current k <> idle_thread k;
  ca_owners : owners_run k;
  ca_Φ : Φ R;
  ca_wok : wok R W ls cs (k, o)
}.

Abbreviation op_runs k r :=
  (runs (JR Φ W) (current k) (fun _ => returned (JR Φ W) (current k) (irq_locked k)) r).

Lemma z_submit_runs R ls cs k o w q :
  calling R ls cs k o -> sync w = false -> w ∈ nodes -> (q ∈ Q \/ q = NULL) ->
  op_runs k (z_work_submit_to_queue q w (k, o)).
Proof.
  intros [Hk Hi Ho HΦ Hok] Hs Hn Hq. unfold z_work_submit_to_queue. unfold bind, ret. cbn [obind k_spin_lock fst snd].
  apply section_runs; [done|]. eapply atomic_mono; [|eapply submit_locked; try done; [by apply krun_irq|by apply wok_locked]].
  intros r s _ (_ & Hs' & _). by exists R, (submit_list r.1 (submit_target o w q) w ls), cs.
Qed.

Lemma submit_runs R ls cs k o w q :
  calling R ls cs k o -> sync w = false -> w ∈ nodes -> (q ∈ Q \/ q = NULL) ->
  op_runs k (k_work_submit_to_queue q w (k, o)).
Proof.
  intros Hc Hs Hn Hq. unfold k_work_submit_to_queue, bind. eapply runs_bind; [by eapply z_submit_runs|].
  intros r [k' o'] (R1 & R2 & R3 & R4). cbn [fst snd] in *. rewrite <-R3, <-R4. eapply runs_bind.
  - instantiate (1 := fun _ => returned (JR Φ W) (current k') (irq_locked k')).
    destruct (r >? 0); [by apply z_reschedule_unlocked_runs; [apply J_stable|..]|]. cbn. by split_and!.
  - by intros a s Hr.
Qed.

Lemma cancel_runs R ls cs k o w :
  calling R ls cs k o -> sync w = false -> delayed o w = false -> op_runs k (k_work_cancel w (k, o)).
Proof.
  intros [Hk Hi Ho HΦ Hok] Hs Hd. unfold k_work_cancel. unfold bind, ret. cbn [obind k_spin_lock fst snd].
  apply section_runs; [done|]. eapply atomic_mono; [|eapply cancel_async_atomic; try done; [by apply krun_irq|by apply wok_locked]].
  intros r s _ ((ls' & Hs' & _) & _). by exists R, ls', cs.
Qed.

Lemma busy_get_runs R ls cs k o w : calling R ls cs k o -> op_runs k (k_work_busy_get w (k, o)).
Proof.
  intros [Hk Hi Ho HΦ Hok]. unfold k_work_busy_get. unfold bind, ret. cbn [obind k_spin_lock fst snd].
  apply section_runs; [done|]. apply atomic_done; [by apply krun_irq|]. exists R, ls, cs. split; [done|by apply wok_locked].
Qed.

(** Flags of a queue. *)
Lemma pure_qflag R ls cs o q g :
  (forall f, flag_test (g f) K_WORK_QUEUE_BUSY_BIT = flag_test f K_WORK_QUEUE_BUSY_BIT) ->
  wpure R ls cs o -> wpure R ls cs (upd_queue q (fun y => y <| qflags ::= g |>) o).
Proof.
  intros Hg [Hl Hi Hp Hh]. pose proof (queue_qflag q g o) as Eq. split.
  - apply (links_same _ _ o); try done. intros q'. apply Eq.
  - by apply (items_same _ _ _ o).
  - apply (places_same _ o); try done; intros q'; try apply Eq. rewrite queues_upd. case_decide; [subst; apply Hg|done].
  - apply (handlers_same ls _ o); eauto.
Qed.

Lemma wok_qflag R ls cs k o q g :
  (forall f i, i = K_WORK_QUEUE_BUSY_BIT \/ i = K_WORK_QUEUE_DRAIN_BIT -> flag_test (g f) i = flag_test f i) ->
  wok R W ls cs (k, o) -> wok R W ls cs (k, upd_queue q (fun y => y <| qflags ::= g |>) o).
Proof.
  intros Hg [Hp Hw]. cbn [snd] in *. split; [apply pure_qflag; [intros; apply Hg; by left|done]|].
  eapply wait_shrink; [exact Hw|..]; try done; intros q'; [apply queue_qflag|].
  rewrite queues_upd. case_decide; [subst; apply Hg; by right|done].
Qed.

Lemma unplug_runs R ls cs k o q : calling R ls cs k o -> op_runs k (k_work_queue_unplug q (k, o)).
Proof.
  intros [Hk Hi Ho HΦ Hok]. unfold k_work_queue_unplug, qflag_test_and_clear, test_qflag, clear_qflag.
  unfold bind, ret, oget, omod. cbn [obind k_spin_lock fst snd].
  apply (section_runs Φ W k (Done _ (_, _)) (fun p : bool => if p then 0 else - EALREADY)); [done|].
  apply atomic_done; [by apply krun_irq|]. exists R, ls, cs. split; [done|]. apply wok_qflag; [|by apply wok_locked].
  intros f i Hi'. rewrite flag_test_clear by (destruct Hi' as [->| ->]; done). by destruct Hi' as [->| ->]; rewrite andb_true_r.
Qed.

(** A sync object stays fresh while other things change. *)
Lemma fresh_keeps ls ls' cs c k k' o o' :
  fresh ls cs c (k, o) -> (forall q x, q ∈ Q -> x ∈ ls' q -> x ∈ ls q \/ sync x = false) ->
  running o' c = running o c -> waitqs k' (sq c) = waitqs k (sq c) -> fresh ls' cs c (k', o').
Proof.
  intros [F1 F2 [F3 F3'] F4 F5] Hl Er Ew. cbn [fst snd] in *. split; try done; cbn [fst snd]; [|congruence|congruence].
  split; [done|]. intros q HQ Hx. destruct (Hl q c HQ Hx); [by eapply F3'|congruence].
Qed.

Lemma fresh_not_awaited ls cs c s : fresh ls cs c s -> ~ awaited ls cs c.
Proof. intros Hf. destruct (fr_unlisted _ _ _ _ Hf) as [H1 H2]. intros [?|(q & HQ & Hq)]; [done|by eapply H2]. Qed.

(** The locked part of a synchronous cancellation. *)
Lemma cancel_sync_atomic R ls cs k o w c :
  krun k -> Φ R -> wok R W ls cs (k, o) -> sync w = false -> delayed o w = false -> fresh ls cs c (k, o) ->
  atomic k (fun b s => b = running o w /\ if (b : bool) then waitqs s.1 (sq c) = [] /\ exists R ls cs, Φ R /\ wok R (<[c := None]> W) ls cs s /\ awaited ls cs c
                else exists R ls cs, Φ R /\ wok R W ls cs s /\ ~ awaited ls cs c)
    ((_ <- cancel_async_locked w ;; cancel_sync_locked w c) (k, o)).
Proof.
  intros Hk HΦ Hok Hs Hd Hf. unfold bind at 1. eapply atomic_bind; [by eapply cancel_async_atomic|].
  intros r k1 o1 Hk1 ((ls' & Hok' & Hdr) & _ & _ & Hc & Hkeep & _ & Ek). cbn [fst snd] in *.
  assert (c <> w) as Hcw by (pose proof (fr_sync _ _ _ _ Hf); congruence).
  assert (fresh ls' cs c (k1, o1)) as Hf'.
  { eapply fresh_keeps; [exact Hf| | |by rewrite Ek].
    - intros q x HQ Hx. rewrite (Hdr q HQ) in Hx. apply list_elem_of_filter in Hx. tauto.
    - by rewrite (ck_works _ _ _ Hkeep). }
  unfold cancel_sync_locked, test_flag. unfold bind at 1, oget at 1. cbn [obind snd].
  destruct (canceling o1 w) eqn:Ecw.
  - unfold bind. eapply atomic_bind; [by eapply init_work_cancel_atomic; [apply Hk1|..]|].
    intros [] k2 o2 Hk2 (Hok2 & Ek2 & _). cbn [fst snd] in *. apply atomic_done; [apply Hk2|]. cbn [fst snd].
    split; [done|]. split; [rewrite Ek2; apply Hf'|]. exists R, ls', (cs ++ [c]). split_and!; [done|done|]. left. set_solver.
  - unfold bind. cbn [obind ret]. apply atomic_done; [apply Hk1|]. split; [done|]. exists R, ls', cs. split_and!; try done.
    by eapply fresh_not_awaited.
Qed.

Abbreviation sync_runs c v k r :=
  (runs (JR Φ W) (current k)
    (fun a s => a = v /\ returned (JR Φ W) (current k) (irq_locked k) s
                /\ exists R ls cs, Φ R /\ wok R W ls cs s /\ ~ awaited ls cs c) r).

Lemma fresh_locked ls cs c k o : fresh ls cs c (k, o) -> fresh ls cs c (k <| irq_locked := true |>, o).
Proof. intros Hf. eapply fresh_keeps; [exact Hf|auto|done|done]. Qed.

Lemma cancel_sync_runs R ls cs k o w c :
  calling R ls cs k o -> sync w = false -> delayed o w = false -> fresh ls cs c (k, o) -> W c = Some (current k) ->
  sync_runs c (running o w || canceling o w || queued o w) k (k_work_cancel_sync w c (k, o)).
Proof.
  intros [Hk Hi Ho HΦ Hok] Hs Hd Hf HWc. unfold k_work_cancel_sync. unfold bind at 1 2 3 5 6, work_busy_get_locked, oget, ret at 3.
  cbn [obind k_spin_lock fst snd]. rewrite mask_zero, negb_involutive, Hd, orb_false_r.
  set (b := running o w || canceling o w || queued o w). set (b0 := b && running o w).
  change b with ((fun _ : bool => b) b0) at 1.
  eapply section_wait_runs; try done; [apply Hf|]. unfold b0. destruct b.
  - eapply cancel_sync_atomic; try done; [by apply krun_irq|by apply wok_locked|by apply fresh_locked].
  - apply atomic_done; [by apply krun_irq|]. split; [done|]. exists R, ls, cs.
    split_and!; [done|by apply wok_locked|by eapply fresh_not_awaited].
Qed.

(** What the locked part of a flush leaves to the wait. *)
Lemma flush_awaits R ls cs c k o w s :
  Φ R -> wok R W ls cs (k, o) -> sync w = false -> fresh ls cs c (k, o) ->
  (if queued o w || running o w then
     waitqs s.1 (sq c) = [] /\
     exists l', flushes (queued o w) w c (ls (queue (works o w))) l'
          /\ wok R (<[c := None]> W) (<[queue (works o w) := l']> ls) cs s
   else s = (k, o)) ->
  if queued o w || running o w then
    waitqs s.1 (sq c) = [] /\ exists R ls cs, Φ R /\ wok R (<[c := None]> W) ls cs s /\ awaited ls cs c
  else exists R ls cs, Φ R /\ wok R W ls cs s /\ ~ awaited ls cs c.
Proof.
  intros HΦ Hok Hs Hf Hb. destruct (queued o w || running o w) eqn:E.
  - destruct Hb as (Hq & l' & Hfl & Hok'). split; [done|]. do 3 eexists. split_and!; [exact HΦ|exact Hok'|].
    right. exists (queue (works o w)). pose proof (busy_queue _ _ _ _ _ (wp_items _ _ _ _ (proj1 Hok)) Hs E).
    split; [done|]. rewrite fn_lookup_insert. eapply flushes_elem; [exact Hfl|by left].
  - subst s. exists R, ls, cs. split_and!; [done|done|by eapply fresh_not_awaited].
Qed.

Lemma flush_runs R ls cs k o w c :
  calling R ls cs k o -> sync w = false -> fresh ls cs c (k, o) -> W c = Some (current k) ->
  sync_runs c (queued o w || running o w) k (k_work_flush w c (k, o)).
Proof.
  intros [Hk Hi Ho HΦ Hok] Hs Hf HWc. unfold k_work_flush. unfold bind at 1 2 3 4, ret at 3. cbn [obind k_spin_lock fst snd].
  apply (section_wait_runs Φ W c k (queued o w || running o w) _ (fun b => b)); try done; [apply Hf|].
  eapply atomic_mono; [|eapply work_flush_atomic; try done; [by apply krun_irq|by apply wok_locked|by apply fresh_locked]].
  intros b s _ [-> Hb]. split; [done|]. eapply flush_awaits; [done|by apply wok_locked|done|by apply fresh_locked|exact Hb].
Qed.

(** The flags that [k_work_queue_drain] sets. *)
Definition drain_flags (q : Z) (plug : bool) (o : wstate) : wstate :=
  let o1 := upd_queue q (fun y => y <| qflags ::= fun f => flag_set f K_WORK_QUEUE_DRAIN_BIT |>) o in
  if plug then upd_queue q (fun y => y <| qflags ::= fun f => flag_set f K_WORK_QUEUE_PLUGGED_BIT |>) o1 else o1.

Lemma drain_flags_draining q plug o q' :
  draining (drain_flags q plug o) q' = draining o q' || bool_decide (q' = q).
Proof.
  unfold drain_flags. destruct plug; rewrite !test_set_queue by done; cbn [Z.eqb K_WORK_QUEUE_DRAIN_BIT K_WORK_QUEUE_PLUGGED_BIT Pos.eqb];
    by rewrite ?andb_false_r, ?andb_true_r, ?orb_false_r.
Qed.

Lemma drain_flags_thread q plug o q' : thread (queues (drain_flags q plug o) q') = thread (queues o q').
Proof.
  unfold drain_flags. destruct plug; [|apply queue_qflag].
  destruct (queue_qflag q (fun f => flag_set f K_WORK_QUEUE_PLUGGED_BIT)
    (upd_queue q (fun y => y <| qflags ::= fun f => flag_set f K_WORK_QUEUE_DRAIN_BIT |>) o) q') as (-> & _). apply queue_qflag.
Qed.

Lemma drain_flags_pure R ls cs q plug o : wpure R ls cs o -> wpure R ls cs (drain_flags q plug o).
Proof.
  intros Hp. assert (forall b o, b <> K_WORK_QUEUE_BUSY_BIT -> 0 <= b -> wpure R ls cs o ->
    wpure R ls cs (upd_queue q (fun y => y <| qflags ::= fun f => flag_set f b |>) o)) as Hset.
  { intros b o' N Hb Hp'. apply pure_qflag; [|done]. intros f. rewrite flag_test_set by done.
    rewrite bool_decide_eq_false_2 by congruence. by rewrite orb_false_r. }
  unfold drain_flags. destruct plug; by repeat apply Hset.
Qed.

Lemma drain_wait R ls cs k k1 k' o q plug :
  krun k -> wok R W ls cs (k, o) -> q ∈ Q -> notified q k k1 -> pended (dq q) k1 k' ->
  wok R W ls cs (k', drain_flags q plug o).
Proof.
  intros Hk [Hp Hw] HQ Hn Hpe. cbn [snd] in *.
  pose proof (drain_flags_draining q plug o) as Ed. split; [by apply drain_flags_pure|].
  assert (wwait W ls cs (k1, drain_flags q plug o)) as [H1 H2 H3 H4 H5].
  { eapply wait_notified with (o := o) (k := k) (ls := ls); try done; [apply Hk|apply drain_flags_thread| |].
    - intros q'. rewrite Ed. destruct (decide (q' = q)) as [->|N]; [right|left].
      + by rewrite bool_decide_eq_true_2, orb_true_r.
      + by rewrite bool_decide_eq_false_2, orb_false_r.
    - intros c Hc Ha. split; [|by left]. rewrite <-(ww_count _ _ _ _ Hw c Hc Ha). unfold drain_flags. by destruct plug. }
  pose proof (pe_wqs _ _ _ Hpe) as Ew. cbn [fst snd] in *. split; cbn [fst snd]; try done.
  - intros q' HQ'. rewrite Ew by apply nq_dq. auto.
  - intros q' t HQ'. rewrite Ew by apply nq_dq. auto.
  - intros q' HQ'. destruct (decide (q' = q)) as [->|N]; [intros _; by rewrite Ed, bool_decide_eq_true_2, orb_true_r|].
    rewrite Ew by (intros ?%dq_inj; done). auto.
  - intros c t Hc Ha. rewrite Ew by apply not_eq_sym, dq_sq. auto.
Qed.

Lemma drain_runs R ls cs k o q plug :
  calling R ls cs k o -> q ∈ Q -> op_runs k (k_work_queue_drain q plug (k, o)).
Proof.
  intros [Hk Hi Ho HΦ Hok] HQ. pose proof Hok as [[_ _ Hp _] _]. cbn [snd] in *. unfold k_work_queue_drain.
  unfold bind at 1 2, oget. cbn [obind k_spin_lock fst snd]. set (k0 := k <| irq_locked := true |>).
  assert (krun k0) as Hk0 by (by apply krun_irq).
  destruct (_ || _ || _).
  - assert (forall m : M St Z, (set_qflag q K_WORK_QUEUE_DRAIN_BIT ;;
       (if plug then set_qflag q K_WORK_QUEUE_PLUGGED_BIT else ret tt) ;; m) (k0, o) = m (k0, drain_flags q plug o)) as Eset
      by (intros m; by destruct plug).
    rewrite Eset. unfold bind at 1. eapply atomic_runs.
    { apply (notify_atomic R); [done| |done]. by eapply (wp_places _ _ _ _ (drain_flags_pure _ _ _ _ _ _ (proj1 Hok))). }
    intros b k1 o1 Hkin [Eo Hn]. cbn [fst snd] in *. subst o1. rewrite (wp_dq _ _ Hp).
    rewrite <-(ki_cur _ _ Hkin : current k1 = current k). unfold z_sched_wait, bind.
    eapply (runs_bind _ _ (fun _ s => returned (JR Φ W) (current k1) (irq_locked k) s)); [|by intros r s Hr].
    eapply runs_bind; [apply (z_pend_curr_runs (JR Φ W) _ (dq q) K_FOREVER k1)|].
    + apply J_stable.
    + apply Hkin.
    + rewrite (ki_cur _ _ Hkin), (ki_idle _ _ Hkin). done.
    + intros k' Hpe. apply holds_JR.
      * intros q' HQ'. cbn [fst]. rewrite (pe_idle _ _ _ Hpe), (ki_idle _ _ Hkin). by apply Ho.
      * exists R, ls, cs. split; [done|]. eapply drain_wait; try done. by apply wok_locked.
    + intros r s (R1 & R2 & R3 & R4 & _). rewrite negb_involutive in R4. by split_and!.
  - apply (section_runs Φ W k (Done tt (k0, o)) (fun _ => 0)); [done|]. apply atomic_done; [done|].
    exists R, ls, cs. split; [done|by apply wok_locked].
Qed.

End Ops.

(** *** Delayable items *)

Section Delayable.
Context (Φ : (Z -> option Z) -> Prop) (W : Z -> option tid) (HW : users_sync W).

Abbreviation op_runs k r :=
  (runs (JR Φ W) (current k) (fun _ => returned (JR Φ W) (current k) (irq_locked k)) r).

Lemma busy_not_running f :
  (Z.ldiff (Z.land f K_WORK_MASK) (BIT K_WORK_RUNNING_BIT) =? 0)
  = negb (flag_test f K_WORK_CANCELING_BIT || flag_test f K_WORK_QUEUED_BIT || flag_test f K_WORK_DELAYED_BIT).
Proof.
  assert (Z.ldiff (Z.land f K_WORK_MASK) (BIT K_WORK_RUNNING_BIT)
          = Z.land (flag_clear f K_WORK_RUNNING_BIT) K_WORK_MASK) as ->.
  { unfold flag_clear. apply Z.bits_inj'. intros i Hi. rewrite !Z.ldiff_spec, !Z.land_spec, !Z.ldiff_spec.
    by destruct (Z.testbit f i), (Z.testbit K_WORK_MASK i), (Z.testbit (BIT K_WORK_RUNNING_BIT) i). }
  rewrite mask_zero. rewrite !flag_test_clear by done. cbn. by rewrite andb_false_r, !andb_true_r.
Qed.

(** Scheduling an item whose timeout is not pending. *)
Lemma schedule_atomic R ls cs k o w q delay :
  krun k -> wok R W ls cs (k, o) -> sync w = false -> w ∈ nodes -> (q ∈ Q \/ q = NULL) ->
  is_linked (work_to w) (tmo k) = false ->
  atomic k (fun r s => exists ls', wok R W ls' cs s) (schedule_for_queue_locked q w delay (k, o)).
Proof.
  intros Hk Hok Hs Hn Hq Hl. destruct (decide (delay = K_NO_WAIT)) as [->|Hd].
  - unfold schedule_for_queue_locked. cbn [Z.eqb K_NO_WAIT].
    eapply atomic_mono; [|by eapply submit_locked]. intros r s _ (_ & Hs' & _). eauto.
  - eapply atomic_mono; [|by eapply delay_atomic]. intros r s _ (_ & Hs' & _). eauto.
Qed.

Lemma schedule_runs R ls cs k o w q delay :
  calling Φ W R ls cs k o -> sync w = false -> w ∈ nodes -> (q ∈ Q \/ q = NULL) -> armed w (k, o) ->
  op_runs k (k_work_schedule_for_queue q w delay (k, o)).
Proof.
  intros [Hk Hi Ho HΦ Hok] Hs Hn Hq Ha. unfold k_work_schedule_for_queue. unfold bind at 1 2 3 5, work_busy_get_locked, oget, ret at 3.
  cbn [obind k_spin_lock fst snd]. rewrite busy_not_running.
  apply (section_runs Φ W k _ (fun x => x)); [done|]. set (k0 := k <| irq_locked := true |>).
  assert (krun k0) as Hk0 by (by apply krun_irq). pose proof (wok_locked _ _ _ _ _ _ Hok) as Hok0. fold k0 in Hok0.
  destruct (canceling o w || queued o w || delayed o w) eqn:E; cbn [negb].
  - apply atomic_done; [done|]. by exists R, ls, cs.
  - apply orb_false_iff in E as [_ Ed]. unfold bind. eapply atomic_bind.
    + apply (schedule_atomic R ls cs k0 o w q delay); try done. apply not_true_is_false. intros El%Ha. cbn in El. congruence.
    + intros r k1 o1 Hkin [ls' Hok']. apply atomic_done; [apply Hkin|]. by exists R, ls', cs.
Qed.

Lemma reschedule_runs R ls cs k o w q delay :
  calling Φ W R ls cs k o -> sync w = false -> w ∈ nodes -> (q ∈ Q \/ q = NULL) -> armed w (k, o) ->
  op_runs k (k_work_reschedule_for_queue q w delay (k, o)).
Proof.
  intros [Hk Hi Ho HΦ Hok] Hs Hn Hq Ha. unfold k_work_reschedule_for_queue. unfold bind at 1 2. cbn [obind k_spin_lock fst snd].
  set (k0 := k <| irq_locked := true |>). assert (krun k0) as Hk0 by (by apply krun_irq).
  eapply atomic_runs; [eapply unschedule_atomic; [done|by apply wok_locked|exact Ha]|].
  intros b k1 o1 Hkin (_ & Hok1 & Hkeep & _ & _ & Hl & Ew). cbn [fst snd] in *.
  pose proof (schedule_atomic R ls cs k1 o1 w q delay (ki_run _ _ Hkin) Hok1 Hs Hn Hq Hl) as Hsch.
  assert (current k1 = current k) as Ec by apply (ki_cur _ _ Hkin).
  unfold bind, ret. apply (section_runs Φ W k _ (fun x => x.1)); [done|].
  destruct (schedule_for_queue_locked q w delay (k1, o1)); [|done]. destruct Hsch as [Hkin' [ls' Hok']].
  split; [by eapply kin_trans|]. by exists R, ls', cs.
Qed.

Lemma cancel_delayable_atomic R ls cs k o w :
  krun k -> wok R W ls cs (k, o) -> sync w = false -> armed w (k, o) ->
  atomic k (fun r s => (exists ls', wok R W ls' cs s /\ dropped w ls ls') /\ (r =? 0) = negb (running o w)
                       /\ queued s.2 w = false /\ delayed s.2 w = false /\ canceling s.2 w = running o w
                       /\ is_linked (work_to w) (tmo s.1) = false)
    (cancel_delayable_async_locked w (k, o)).
Proof.
  intros Hk Hok Hs Ha. unfold cancel_delayable_async_locked, bind. eapply atomic_bind; [by eapply unschedule_atomic|].
  intros b k1 o1 Hkin (_ & Hok1 & Hkeep & _ & Hd & Hl & Ew). cbn [fst snd] in *.
  assert (running o1 w = running o w) as Er by (by apply Hkeep). rewrite <-Er.
  eapply atomic_mono; [|eapply cancel_async_atomic; [apply Hkin|done..]].
  intros r s _ (H1 & H2 & H3 & H4 & H5 & H6 & H7). split_and!; try done. by rewrite H7.
Qed.

Lemma cancel_delayable_runs R ls cs k o w :
  calling Φ W R ls cs k o -> sync w = false -> armed w (k, o) -> op_runs k (k_work_cancel_delayable w (k, o)).
Proof.
  intros [Hk Hi Ho HΦ Hok] Hs Ha. unfold k_work_cancel_delayable. unfold bind, ret. cbn [obind k_spin_lock fst snd].
  apply (section_runs Φ W k _ (fun x => x)); [done|].
  eapply atomic_mono; [|eapply cancel_delayable_atomic; [by apply krun_irq|by apply wok_locked|done|done]].
  intros r s _ ((ls' & Hs' & _) & _). by exists R, ls', cs.
Qed.

Lemma fresh_delay ls cs c k k' o o' w :
  fresh ls cs c (k, o) -> sync w = false -> delay_keeps w o o' -> (forall x, waitqs k' x = waitqs k x) ->
  fresh ls cs c (k', o').
Proof.
  intros Hf Hs Hd Ew. eapply fresh_keeps; [exact Hf|auto| |apply Ew].
  rewrite (dl_works _ _ _ Hd); [done|]. pose proof (fr_sync _ _ _ _ Hf). congruence.
Qed.

Abbreviation sync_runs c v k r :=
  (runs (JR Φ W) (current k)
    (fun a s => a = v /\ returned (JR Φ W) (current k) (irq_locked k) s
                /\ exists R ls cs, Φ R /\ wok R W ls cs s /\ ~ awaited ls cs c) r).

Lemma cancel_delayable_sync_runs R ls cs k o w c :
  calling Φ W R ls cs k o -> sync w = false -> armed w (k, o) -> fresh ls cs c (k, o) -> W c = Some (current k) ->
  sync_runs c (running o w || canceling o w || queued o w || delayed o w) k (k_work_cancel_delayable_sync w c (k, o)).
Proof.
  intros [Hk Hi Ho HΦ Hok] Hs Ha Hf HWc. unfold k_work_cancel_delayable_sync.
  unfold bind at 1 2 3 5 6, work_delayable_busy_get_locked, oget, ret at 3. cbn [obind k_spin_lock fst snd].
  rewrite mask_zero, negb_involutive. set (b := running o w || _ || _ || _). set (b0 := b && running o w).
  change b with ((fun _ : bool => b) b0) at 1.
  eapply section_wait_runs; try done; [apply Hf|]. unfold b0. set (k0 := k <| irq_locked := true |>).
  assert (krun k0) as Hk0 by (by apply krun_irq). destruct b.
  - unfold cancel_delayable_async_locked, bind at 1 2. apply atomic_assoc.
    eapply atomic_bind; [eapply unschedule_atomic; [done|by apply wok_locked|exact Ha]|].
    intros r k1 o1 Hkin (_ & Hok1 & Hkeep & _ & Hd & _ & Ew). cbn [fst snd] in *.
    assert (running o1 w = running o w) as Er by (by apply Hkeep). cbn [andb]. rewrite <-Er.
    eapply cancel_sync_atomic; try done; [apply Hkin|]. eapply fresh_delay; [by apply fresh_locked|done..].
  - apply atomic_done; [done|]. split; [done|]. exists R, ls, cs.
    split_and!; [done|by apply wok_locked|by eapply fresh_not_awaited].
Qed.

(** The locked part of flushing a delayable item. *)
Lemma flush_delayable_atomic R ls cs k o w c :
  krun k -> Φ R -> wok R W ls cs (k, o) -> sync w = false -> w ∈ nodes -> armed w (k, o) ->
  (dw_queue o w ∈ Q \/ dw_queue o w = NULL) -> fresh ls cs c (k, o) ->
  atomic k (fun b s => if (b : bool) then waitqs s.1 (sq c) = []
                         /\ exists R ls cs, Φ R /\ wok R (<[c := None]> W) ls cs s /\ awaited ls cs c
                       else exists R ls cs, Φ R /\ wok R W ls cs s /\ ~ awaited ls cs c)
    ((unscheduled <- unschedule_locked w ;;
      (if (unscheduled : bool) then
         (q <- oget (fun o => dw_queue o w) ;; _ <- submit_to_queue_locked w q ;; ret tt)
       else ret tt) ;;
      work_flush_locked w c) (k, o)).
Proof.
  intros Hk HΦ Hok Hs Hn Ha Hdq Hf. unfold bind at 1. eapply atomic_bind; [by eapply unschedule_atomic|].
  intros b k1 o1 Hkin (_ & Hok1 & Hkeep & Edq & _ & _ & Ew). cbn [fst snd] in *.
  assert (fresh ls cs c (k1, o1)) as Hf1 by (by eapply fresh_delay).
  assert (forall ls2 k2 o2, krun k2 -> wok R W ls2 cs (k2, o2) -> fresh ls2 cs c (k2, o2) ->
    atomic k2 (fun b s => if (b : bool) then waitqs s.1 (sq c) = []
                         /\ exists R ls cs, Φ R /\ wok R (<[c := None]> W) ls cs s /\ awaited ls cs c
                       else exists R ls cs, Φ R /\ wok R W ls cs s /\ ~ awaited ls cs c)
      (work_flush_locked w c (k2, o2))) as Hflush.
  { intros ls2 k2 o2 Hk2 Hok2 Hf2. eapply atomic_mono; [|by eapply work_flush_atomic].
    intros b' s _ [-> Hb]. by eapply flush_awaits. }
  unfold bind at 1. destruct b; [|cbn [obind ret]; eapply Hflush; [apply Hkin|done|done]].
  unfold bind, oget. cbn [obind fst snd]. apply atomic_assoc. rewrite Edq.
  eapply atomic_bind; [eapply submit_locked; try done; apply Hkin|].
  intros r k2 o2 Hk2 (_ & Hok2 & Hks & Ew2). cbn [obind ret fst snd] in *. eapply Hflush; [apply Hk2|exact Hok2|].
  eapply fresh_keeps; [exact Hf1| | |].
  - intros q x HQ. unfold submit_list. case_match; [|auto]. rewrite elem_insert, elem_of_app, list_elem_of_singleton.
    intros [[-> [?| ->]]|[_ ?]]; auto.
  - rewrite (sk_works _ _ _ Hks); [done|]. pose proof (fr_sync _ _ _ _ Hf). congruence.
  - apply Ew2. intros q. apply not_eq_sym, nq_sq.
Qed.

Lemma flush_delayable_runs R ls cs k o w c :
  calling Φ W R ls cs k o -> sync w = false -> w ∈ nodes -> armed w (k, o) ->
  (dw_queue o w ∈ Q \/ dw_queue o w = NULL) -> fresh ls cs c (k, o) -> W c = Some (current k) ->
  runs (JR Φ W) (current k)
    (fun a s => returned (JR Φ W) (current k) (irq_locked k) s
                /\ exists R ls cs, Φ R /\ wok R W ls cs s /\ ~ awaited ls cs c) (k_work_flush_delayable w c (k, o)).
Proof.
  intros [Hk Hi Ho HΦ Hok] Hs Hn Ha Hdq Hf HWc. unfold k_work_flush_delayable.
  unfold bind at 1 2, work_busy_get_locked, oget at 1. cbn [obind k_spin_lock fst snd].
  set (k0 := k <| irq_locked := true |>). assert (krun k0) as Hk0 by (by apply krun_irq).
  pose proof (wok_locked _ _ _ _ _ _ Hok) as Hok0. fold k0 in Hok0.
  assert (forall b r, atomic k0 (fun b s => if (b : bool) then waitqs s.1 (sq c) = []
                         /\ exists R ls cs, Φ R /\ wok R (<[c := None]> W) ls cs s /\ awaited ls cs c
                       else exists R ls cs, Φ R /\ wok R W ls cs s /\ ~ awaited ls cs c) (Done b r) ->
    runs (JR Φ W) (current k)
    (fun a s => returned (JR Φ W) (current k) (irq_locked k) s
                /\ exists R ls cs, Φ R /\ wok R W ls cs s /\ ~ awaited ls cs c)
    (obind (Done b r) (fun b s => obind (k_spin_unlock (negb (irq_locked k)) s)
       (fun _ s => obind ((if b then (_ <- Sem.z_impl_k_sem_take (P := sem_at c) K_FOREVER ;; ret tt) else ret tt) s)
          (fun _ s' => Done b s'))))) as Hend.
  { intros b r Hr. eapply runs_mono; [|apply (section_wait_runs Φ W c k b (Done b r) (fun b => b)); try done; [apply Hf|]].
    - intros a s (_ & H1 & H2). by split.
    - destruct Hr. by split. }
  destruct (Z.land _ _ =? 0).
  - apply (Hend false (k0, o)). apply atomic_done; [done|]. exists R, ls, cs. split_and!; [done|done|by eapply fresh_not_awaited].
  - pose proof (flush_delayable_atomic R ls cs k0 o w c Hk0 HΦ Hok0 Hs Hn Ha Hdq (fresh_locked _ _ _ _ _ Hf)) as Hfd.
    unfold bind in *. destruct (unschedule_locked w (k0, o)) as [u s1|]; [|done]. cbn [obind] in *.
    match type of Hfd with atomic _ _ (obind ?x _) => destruct x as [[] s2|]; [|done] end. cbn [obind] in *.
    destruct (work_flush_locked w c s2) as [b s3|]; [|done]. by apply Hend.
Qed.

End Delayable.

(** *** All functions *)

Inductive op :=
| Submit (q w : Z)
| Cancel (w : Z)
| CancelSync (w c : Z)
| Flush (w c : Z)
| Drain (q : Z) (plug : bool)
| Unplug (q : Z)
| BusyGet (w : Z)
| Schedule (q w delay : Z)
| Reschedule (q w delay : Z)
| CancelDelayable (w : Z)
| CancelDelayableSync (w c : Z)
| FlushDelayable (w c : Z).

Definition void {A} (m : M St A) : M St unit := _ <- m ;; ret tt.

Definition run_op (p : op) : M St unit :=
  match p with
  | Submit q w => void (k_work_submit_to_queue q w)
  | Cancel w => void (k_work_cancel w)
  | CancelSync w c => void (k_work_cancel_sync w c)
  | Flush w c => void (k_work_flush w c)
  | Drain q plug => void (k_work_queue_drain q plug)
  | Unplug q => void (k_work_queue_unplug q)
  | BusyGet w => void (k_work_busy_get w)
  | Schedule q w delay => void (k_work_schedule_for_queue q w delay)
  | Reschedule q w delay => void (k_work_reschedule_for_queue q w delay)
  | CancelDelayable w => void (k_work_cancel_delayable w)
  | CancelDelayableSync w c => void (k_work_cancel_delayable_sync w c)
  | FlushDelayable w c => void (k_work_flush_delayable w c)
  end.

(** The arguments of a call: items of the client, queues, delayable items
    whose timeout is their own, and a fresh sync object of the caller. *)
Definition item (w : Z) : Prop := sync w = false /\ w ∈ nodes.
Definition queue_arg (q : Z) : Prop := q ∈ Q \/ q = NULL.

Definition op_ok (W : Z -> option tid) (ls : Z -> list Z) (cs : list Z) (s : St) (p : op) : Prop :=
  let own c := fresh ls cs c s /\ W c = Some (current s.1) in
  match p with
  | Submit q w => item w /\ queue_arg q
  | Cancel w => item w /\ delayed s.2 w = false
  | CancelSync w c => item w /\ delayed s.2 w = false /\ own c
  | Flush w c => item w /\ own c
  | Drain q _ | Unplug q => q ∈ Q
  | BusyGet w => True
  | Schedule q w _ | Reschedule q w _ => item w /\ queue_arg q /\ armed w s
  | CancelDelayable w => item w /\ armed w s
  | CancelDelayableSync w c => item w /\ armed w s /\ own c
  | FlushDelayable w c => item w /\ armed w s /\ queue_arg (dw_queue s.2 w) /\ own c
  end.

Lemma void_runs {A} (Jv : St -> Prop) self (P : St -> Prop) (m : M St A) s :
  runs Jv self (fun _ => P) (m s) -> runs Jv self (fun _ => P) (void m s).
Proof. intros H. unfold void, bind. eapply runs_bind; [exact H|]. by intros a s' Hs. Qed.

Lemma ops_runs Φ W R ls cs k o p :
  users_sync W -> calling Φ W R ls cs k o -> op_ok W ls cs (k, o) p ->
  runs (JR Φ W) (current k) (fun _ => returned (JR Φ W) (current k) (irq_locked k)) (run_op p (k, o)).
Proof.
  intros HW Hc Hp.
  assert (forall A (v : A -> Prop) (P : A -> St -> Prop) (r : outcome St A),
    runs (JR Φ W) (current k) (fun a s => v a /\ returned (JR Φ W) (current k) (irq_locked k) s /\ P a s) r ->
    runs (JR Φ W) (current k) (fun _ => returned (JR Φ W) (current k) (irq_locked k)) r) as Hdrop
    by (intros A v P r; apply runs_mono; by intros a s (_ & ? & _)).
  destruct p; cbn [run_op op_ok fst snd] in *; apply void_runs; unfold item, queue_arg in *.
  - destruct Hp as [[H1 H2] H3]. by eapply submit_runs.
  - destruct Hp as [[H1 H2] H3]. by eapply cancel_runs.
  - destruct Hp as ([H1 H2] & H3 & H4 & H5). eapply Hdrop with (v := fun a => a = _). by eapply cancel_sync_runs.
  - destruct Hp as ([H1 H2] & H4 & H5). eapply Hdrop with (v := fun a => a = _). by eapply flush_runs.
  - by eapply drain_runs.
  - by eapply unplug_runs.
  - by eapply busy_get_runs.
  - destruct Hp as ([H1 H2] & H3 & H4). by eapply schedule_runs.
  - destruct Hp as ([H1 H2] & H3 & H4). by eapply reschedule_runs.
  - destruct Hp as [[H1 H2] H3]. by eapply cancel_delayable_runs.
  - destruct Hp as ([H1 H2] & H3 & H4 & H5). eapply Hdrop with (v := fun a => a = _). by eapply cancel_delayable_sync_runs.
  - destruct Hp as ([H1 H2] & H3 & H4 & H5 & H6). eapply runs_mono; [|by eapply flush_delayable_runs]. by intros a s [? _].
Qed.

End Inv.

(** ** A concrete system *)

(** One queue at 100, owned by thread [t], the items 10 and 11, and the sync
    object 20; handlers log the item they are called for. *)
Section Demo.
Variable t : tid.

Definition enc (z : Z) : positive :=
  match z with 0 => 1%positive | Zpos p => xO p | Zneg p => xI p end.

Lemma enc_inj x y : enc x = enc y -> x = y.
Proof. destruct x, y; simpl; congruence. Qed.

#[export] Instance demo_client : client := {| user_state := list Z |}.
#[export] Instance demo_env : work_env := {|
  k_sys_work_q := 100;
  HANDLE_FLUSH := 99;
  list_fuel := 4%nat;
  client_handler h w s := Done tt (s.1, s.2 <| user ::= fun l => l ++ [w] |>)
|}.

Definition demo_nq (q : Z) : wqid := xO (xO (enc q)).
Definition demo_dq (q : Z) : wqid := xO (xI (enc q)).
Definition demo_sq (c : Z) : wqid := xI (xO (enc c)).

#[export, refine] Instance demo_layout : work_layout := {|
  Q := {[100]};
  nodes := {[10; 11; 20]};
  sync c := c =? 20;
  owner q := t;
  nq := demo_nq;
  dq := demo_dq;
  sq := demo_sq
|}.
Proof.
  - set_solver by lia.
  - vm_compute. lia.
  - set_solver.
  - intros q q' [= E]. by apply enc_inj.
  - intros q q' [= E]. by apply enc_inj.
  - intros q q' [= E]. by apply enc_inj.
  - done.
  - done.
  - done.
Defined.

(** [l] is pending in the queue. *)
Definition demo_state (l : list Z) (fl : Z -> Z) : wstate :=
  mk_wstate
    (fun w => mk_work (if w =? 20 then 99 else 5) (if (w =? 10) || (w =? 11) then 100 else 0) (fl w))
    (fun _ => 100)
    (fun q => mk_work_q t (if q =? 100 then mk_genlist (default 0 (head l)) (default 0 (list.last l)) else mk_genlist 0 0)
                (demo_nq q) (demo_dq q) 1)
    (fun x => match l with a :: b :: _ => if x =? a then b else 0 | _ => 0 end)
    (mk_genlist 0 0) (fun _ => 0) (fun c => Sem.mk_sem (demo_sq c) 0 1) [].

Definition demo_flags (l : list Z) (w : Z) : Z := if bool_decide (w ∈ l) then 4 else 0.
Definition demo_lists (l : list Z) (q : Z) : list Z := if q =? 100 then l else [].

Lemma demo_Q q : q ∈ Q <-> q = 100.
Proof. apply elem_of_singleton. Qed.

Lemma demo_nodes x : x ∈ nodes <-> x = 10 \/ x = 11 \/ x = 20.
Proof. change (x ∈ ({[10; 11; 20]} : gset Z) <-> x = 10 \/ x = 11 \/ x = 20). set_solver. Qed.

Lemma demo_seg (w : snodes) x y : 0 < x -> 0 < y -> x <> y -> w x = y -> w y = 0 ->
  slist_is (mk_genlist x y) w [x; y].
Proof.
  intros Hx Hy N Ex Ey. split; cbn; [by split_and!|done|by apply NoDup_cons; split; [set_solver|apply NoDup_singleton]|].
  repeat constructor; done.
Qed.

Lemma demo_pending l W :
  l = [] \/ l = [10; 11] -> users_sync W ->
  wok (fun _ => None) W (demo_lists l) [] (demo false, demo_state l (demo_flags l)).
Proof.
  intros Hl HW. unfold demo_lists. assert (forall w b, 0 <= b -> flag_test (demo_flags l w) b = bool_decide (w ∈ l) && (b =? 2)) as Ef.
  { intros w b Hb. unfold demo_flags. case_bool_decide; rewrite flag_test_bit by done; cbn [andb]; [|apply Z.bits_0].
    change 4 with (2 ^ 2). rewrite Z.pow2_bits_eqb by done. by rewrite Z.eqb_sym. }
  assert (forall q w, w ∈ (if q =? 100 then l else []) -> q = 100 /\ w ∈ l) as Hin.
  { intros q w. destruct (q =? 100) eqn:E; [intros; split; [lia|done]|by intros ?%elem_of_nil]. }
  assert (forall w, w ∈ l -> w = 10 \/ w = 11) as Hw.
  { intros w Hw. destruct Hl as [->| ->]; set_solver. }
  split; [split|]; cbn [snd].
  - split.
    + intros q ->%demo_Q. destruct Hl as [->| ->]; [apply init_is|by apply demo_seg].
    + apply init_is.
    + intros q q' w _ _ [-> _]%Hin [-> _]%Hin. done.
    + by intros c ?%elem_of_nil.
    + intros q x _ [_ [->| ->]%Hw]%Hin; apply demo_nodes; auto.
    + by intros c ?%elem_of_nil.
  - split; cbn [works demo_state flags]; try done.
    + intros q w _ [-> Hx]%Hin. rewrite !Ef, bool_decide_eq_true_2 by done. destruct (Hw w Hx) as [->| ->]; done.
    + intros w. rewrite Ef, andb_true_r by done. rewrite bool_decide_eq_true. intros Hx. destruct (Hw w Hx) as [->| ->]; split_and!; try done; by apply demo_Q.
    + intros w. rewrite Ef by done. rewrite andb_false_r. split; [done|by intros [q ?]].
    + intros w. rewrite !Ef by done. by rewrite andb_false_r.
    + by intros c ?%elem_of_nil.
    + by intros c ?%elem_of_nil.
    + intros w _. cbn. destruct ((w =? 10) || (w =? 11)); [left; by apply demo_Q|by right].
  - split; try done.
  - split; cbn [works demo_state handler].
    + intros w. cbn. by destruct (w =? 20).
    + intros q c _ [-> Hx]%Hin. destruct (Hw c Hx) as [->| ->]; done.
  - split; cbn [fst snd]; try done.
    + by intros q t' _ ?%elem_of_nil.
    + intros c t' Hc [?%elem_of_nil|(q & _ & [-> Hx]%Hin)]; [done|].
      assert (sync c = true) by (apply HW; congruence). destruct (Hw c Hx) as [->| ->]; done.
Qed.

End Demo.

(** ** Properties *)

Section Claims.
Context {cl : client} {env : work_env} {lay : work_layout}.

(** C2: Every function of the work queue interface that a thread can call
    (submission, cancellation, flushing, draining, delayed submission, and
    their synchronous forms) gives up the CPU only in states that satisfy the
    scheduler invariant and the invariant of the work queues, whatever the
    queue threads are running, and returns with the interrupt mask restored. *)
Theorem k_work_ops_safe Φ W R ls cs k o p :
  users_sync W -> calling Φ W R ls cs k o -> op_ok W ls cs (k, o) p ->
  runs (JR Φ W) (current k) (fun _ => returned (JR Φ W) (current k) (irq_locked k)) (run_op p (k, o)).
Proof. apply ops_runs. Qed.

(** A submission never switches.  Its result is the documented code: it is
    positive exactly when the item was put at the end of the pending list of
    its queue (of the queue that runs it, when it runs), and otherwise the lists
    are unchanged. *)
Theorem k_work_submit_spec R W ls cs k o w q :
  krun k -> wok R W ls cs (k, o) -> users_sync W -> sync w = false -> w ∈ nodes -> (q ∈ Q \/ q = NULL) ->
  let c := submit_code k o w q in
  exists k' o', z_work_submit_to_queue q w (k, o) = Done c (k', o')
    /\ wok R W (submit_list c (submit_target o w q) w ls) cs (k', o') /\ submit_keeps w o o'.
Proof.
  intros Hk Hok HW Hs Hn Hq c. unfold z_work_submit_to_queue, bind, ret. cbn [obind k_spin_lock fst snd].
  pose proof (submit_locked R W ls cs (k <| irq_locked := true |>) o w q (kin_lock _ Hk) (wok_locked _ _ _ _ _ _ Hok)
    HW Hs Hn Hq) as Hsub.
  destruct (submit_to_queue_locked w q _) as [r [k1 o1]|]; [|done]. destruct Hsub as (Hkin & Er & Hok' & Hkeep & _).
  cbn [obind k_spin_unlock kmod fst snd] in *. change (submit_code (k <| irq_locked := true |>) o w q) with c in Er.
  rewrite Er in *. do 2 eexists. split; [reflexivity|]. split; [|done]. by apply (wok_kernel _ _ _ _ k1).
Qed.

(** C21: [k_work_cancel_sync] returns only when the cancellation is over: the
    caller's sync object is not in any list any more, so that no queue thread
    will use it.  The result says whether the item was busy. *)
Theorem k_work_cancel_sync_finishes Φ W R ls cs k o w c :
  users_sync W -> calling Φ W R ls cs k o -> sync w = false -> delayed o w = false ->
  fresh ls cs c (k, o) -> W c = Some (current k) ->
  runs (JR Φ W) (current k)
    (fun a s => a = running o w || canceling o w || queued o w /\ returned (JR Φ W) (current k) (irq_locked k) s
                /\ exists R ls cs, Φ R /\ wok R W ls cs s /\ ~ awaited ls cs c)
    (k_work_cancel_sync w c (k, o)).
Proof. intros. by eapply cancel_sync_runs. Qed.

(** [k_work_flush] puts its flusher behind the queued item (before
    everything else when the item is only running) and returns only when the
    queue thread has taken the flusher out of the list. *)
Theorem k_work_flush_finishes Φ W R ls cs k o w c :
  users_sync W -> calling Φ W R ls cs k o -> sync w = false -> fresh ls cs c (k, o) -> W c = Some (current k) ->
  runs (JR Φ W) (current k)
    (fun a s => a = queued o w || running o w /\ returned (JR Φ W) (current k) (irq_locked k) s
                /\ exists R ls cs, Φ R /\ wok R W ls cs s /\ ~ awaited ls cs c)
    (k_work_flush w c (k, o))
  /\ atomic k (fun r s => r = queued o w || running o w /\
      if (r : bool) then
        waitqs s.1 (sq c) = [] /\
        exists l', flushes (queued o w) w c (ls (queue (works o w))) l'
          /\ wok R (<[c := None]> W) (<[queue (works o w) := l']> ls) cs s
      else s = (k, o)) (work_flush_locked w c (k, o)).
Proof.
  intros HW Hc Hs Hf HWc. split; [by eapply flush_runs|]. destruct Hc. by eapply work_flush_atomic.
Qed.

(** C6: Every pending item is run.  When fewer than [n] items are before [w] in
    its queue, then [n] rounds of the queue thread call the handler of [w],
    provided that handlers return and that nobody moves [w] backwards or takes
    it out of the queue.  The thread may lose the CPU whenever the code or a
    handler gives it up; at every switch at most one item of the queue runs. *)
Theorem work_queue_runs_pending W q w (ran : user_state -> Prop) n R ls cs k o a b :
  q ∈ Q -> sync w = false ->
  (forall h x, sync x = false -> handler_ok W q w ran (client_handler h x) x) ->
  (forall h, handler_marks W q w ran (client_handler h w)) ->
  krun k -> current k = owner q -> owners_run k -> wok R W ls cs (k, o) -> R q = None ->
  ls q = a ++ w :: b -> (length a < n)%nat ->
  runs_in (Jq W q w ran) (owner q) (fun _ s => krun s.1 /\ ran (user s.2)) (work_queue_main n q (k, o)).
Proof.
  intros Hq Hw Hok Hmark Hk Hc Ho Hwok HR El Hn.
  pose proof (main_runs W q w ran Hq Hw Hok Hmark n (Some n) k o Hk Hc) as Hm.
  eapply runs_in_mono; [|apply Hm].
  - intros [] s (H1 & (_ & R' & ls' & cs' & [_ HP] & _) & _). cbn in HP. rewrite Nat.sub_diag in HP.
    split; [done|]. destruct HP as [?|(? & ? & _ & ?)]; [done|lia].
  - split; [done|]. exists R, ls, cs. split; [|done]. split; [done|]. right. by exists a, b.
Qed.

(** Cancelling takes the item out of its queue, keeps the order of the
    others, and marks it as being cancelled exactly when it is running; the
    result is 0 exactly when it is not. *)
Theorem k_work_cancel_spec R W ls cs k o w :
  krun k -> wok R W ls cs (k, o) -> sync w = false -> delayed o w = false ->
  exists r o' ls', k_work_cancel w (k, o) = Done r (k, o') /\ wok R W ls' cs (k, o') /\ dropped w ls ls'
    /\ (r =? 0) = negb (running o w) /\ queued o' w = false /\ canceling o' w = running o w.
Proof.
  intros Hk Hok Hs Hd. unfold k_work_cancel, bind, ret. cbn [obind k_spin_lock fst snd].
  pose proof (cancel_async_atomic R W ls cs _ o w (kin_lock _ Hk) (wok_locked _ _ _ _ _ _ Hok) Hs Hd) as Hc.
  destruct (cancel_async_locked w _) as [r [k1 o1]|]; [|done].
  destruct Hc as (_ & (ls' & Hok' & Hdr) & Hr & Hq & Hca & _ & _ & Ek). cbn [obind k_spin_unlock kmod fst snd] in *.
  subst k1. rewrite unlock_id. do 3 eexists. split; [reflexivity|]. split_and!; try done.
  by apply (wok_kernel _ _ _ _ (k <| irq_locked := true |>)).
Qed.

(** Scheduling an item with a delay changes nothing when the item is queued,
    delayed or being cancelled; otherwise it arms the item's timeout to expire
    when the delay has passed, and leaves every other timeout alone. *)
Theorem k_work_schedule_spec R W ls cs k o w q delay :
  krun k -> wok R W ls cs (k, o) -> armed w (k, o) -> delay <> K_NO_WAIT ->
  if canceling o w || queued o w || delayed o w then k_work_schedule_for_queue q w delay (k, o) = Done 0 (k, o)
  else exists s', k_work_schedule_for_queue q w delay (k, o) = Done 1 s'
       /\ wok R W ls cs s' /\ delayed_to w q delay (k, o) s'.
Proof.
  intros Hk Hok Ha Hd. unfold k_work_schedule_for_queue, work_busy_get_locked, bind, oget, ret. cbn [obind k_spin_lock fst snd].
  rewrite busy_not_running. destruct (canceling o w || queued o w || delayed o w) eqn:E; cbn [negb].
  - cbn [obind k_spin_unlock kmod fst snd]. by rewrite unlock_id.
  - apply orb_false_iff in E as [_ Ed].
    assert (is_linked (work_to w) (tmo k) = false) as Hl.
    { apply not_true_is_false. intros El%Ha. cbn in El. congruence. }
    pose proof (delay_atomic R W ls cs _ o w q delay (kin_lock _ Hk) (wok_locked _ _ _ _ _ _ Hok) Hd Hl) as Hs.
    destruct (schedule_for_queue_locked q w delay _) as [r [k1 o1]|]; [|done].
    destruct Hs as (_ & Er & Hok' & [D1 D2 D3 D4 D5 D6]). cbn [obind k_spin_unlock kmod fst snd] in *. rewrite Er.
    eexists. split; [reflexivity|]. split; [by apply (wok_kernel _ _ _ _ k1)|by split].
Qed.

End Claims.

(** ** Instances *)

Definition nobody (c : Z) : option tid := None.
Definition thread_1 (c : Z) : option tid := if c =? 20 then Some 1%positive else None.

Lemma nobody_sync t : users_sync (lay := demo_layout t) nobody.
Proof. by intros c ?. Qed.

Lemma thread_1_sync t : users_sync (lay := demo_layout t) thread_1.
Proof. intros c. unfold thread_1. cbn. by destruct (c =? 20). Qed.

Lemma demo_calling t W l :
  t <> 3%positive -> l = [] \/ l = [10; 11] -> users_sync (lay := demo_layout t) W ->
  calling (lay := demo_layout t) (fun _ => True) W (fun _ => None) (demo_lists l) [] (demo false) (demo_state t l (demo_flags l)).
Proof. intros Ht Hl HW. split; [apply demo_run|done| |done|by apply demo_pending]. intros q _. done. Qed.

Lemma demo_fresh t l : l = [] \/ l = [10; 11] ->
  fresh (lay := demo_layout t) (demo_lists l) [] 20 (demo false, demo_state t l (demo_flags l)).
Proof.
  intros Hl. split; try done.
  - split; [by intros ?%elem_of_nil|]. intros q _. unfold demo_lists. destruct (q =? 100); [|by intros ?%elem_of_nil].
    destruct Hl as [->| ->]; rewrite ?elem_of_cons, ?elem_of_nil; lia.
  - destruct Hl as [->| ->]; done.
Qed.

Lemma k_work_ops_safe_witness :
  runs (JR (lay := demo_layout 2) (fun _ => True) nobody) 1%positive
    (fun _ => returned (JR (lay := demo_layout 2) (fun _ => True) nobody) 1%positive false)
    (run_op (Submit 100 10) (demo false, demo_state 2 [] (demo_flags []))).
Proof.
  apply (k_work_ops_safe (lay := demo_layout 2) (fun _ => True) nobody (fun _ => None) (demo_lists []) [] (demo false)).
  - apply nobody_sync.
  - apply demo_calling; [done|by left|apply nobody_sync].
  - split; [split; [done|apply demo_nodes; auto]|]. left. by apply demo_Q.
Defined.

Lemma k_work_submit_spec_witness :
  exists k' o', z_work_submit_to_queue 100 10 (demo false, demo_state 2 [] (demo_flags [])) = Done 1 (k', o')
    /\ wok (lay := demo_layout 2) (fun _ => None) nobody (<[100 := [10]]> (demo_lists [])) [] (k', o').
Proof.
  destruct (k_work_submit_spec (lay := demo_layout 2) (fun _ => None) nobody (demo_lists []) [] (demo false)
    (demo_state 2 [] (demo_flags [])) 10 100) as (k' & o' & H1 & H2 & _).
  - apply demo_run.
  - apply demo_pending; [by left|apply nobody_sync].
  - apply nobody_sync.
  - done.
  - apply demo_nodes; auto.
  - left. by apply demo_Q.
  - exists k', o'. split; [exact H1|exact H2].
Defined.

Lemma k_work_cancel_sync_finishes_witness :
  runs (JR (lay := demo_layout 2) (fun _ => True) thread_1) 1%positive
    (fun a s => a = true /\ returned (JR (lay := demo_layout 2) (fun _ => True) thread_1) 1%positive false s
       /\ exists R ls cs, True /\ wok (lay := demo_layout 2) R thread_1 ls cs s /\ ~ awaited (lay := demo_layout 2) ls cs 20)
    (k_work_cancel_sync 10 20 (demo false, demo_state 2 [10; 11] (demo_flags [10; 11]))).
Proof.
  apply (k_work_cancel_sync_finishes (lay := demo_layout 2) (fun _ => True) thread_1 (fun _ => None) (demo_lists [10; 11]) []
    (demo false) (demo_state 2 [10; 11] (demo_flags [10; 11])) 10 20).
  - apply thread_1_sync.
  - apply demo_calling; [done|by right|apply thread_1_sync].
  - done.
  - done.
  - apply demo_fresh. by right.
  - done.
Defined.

Lemma k_work_flush_finishes_witness :
  runs (JR (lay := demo_layout 2) (fun _ => True) thread_1) 1%positive
    (fun a s => a = true /\ returned (JR (lay := demo_layout 2) (fun _ => True) thread_1) 1%positive false s
       /\ exists R ls cs, True /\ wok (lay := demo_layout 2) R thread_1 ls cs s /\ ~ awaited (lay := demo_layout 2) ls cs 20)
    (k_work_flush 10 20 (demo false, demo_state 2 [10; 11] (demo_flags [10; 11]))).
Proof.
  apply (k_work_flush_finishes (lay := demo_layout 2) (fun _ => True) thread_1 (fun _ => None) (demo_lists [10; 11]) []
    (demo false) (demo_state 2 [10; 11] (demo_flags [10; 11])) 10 20).
  - apply thread_1_sync.
  - apply demo_calling; [done|by right|apply thread_1_sync].
  - done.
  - apply demo_fresh. by right.
  - done.
Defined.

Lemma k_work_cancel_spec_witness :
  exists r o' ls', k_work_cancel 10 (demo false, demo_state 2 [10; 11] (demo_flags [10; 11])) = Done r (demo false, o')
    /\ wok (lay := demo_layout 2) (fun _ => None) nobody ls' [] (demo false, o') /\ ls' 100 = [11] /\ (r =? 0) = true.
Proof.
  destruct (k_work_cancel_spec (lay := demo_layout 2) (fun _ => None) nobody (demo_lists [10; 11]) [] (demo false)
    (demo_state 2 [10; 11] (demo_flags [10; 11])) 10) as (r & o' & ls' & H1 & H2 & H3 & H4 & _).
  - apply demo_run.
  - apply demo_pending; [by right|apply nobody_sync].
  - done.
  - done.
  - exists r, o', ls'. split; [exact H1|]. split; [exact H2|]. split; [|exact H4]. by rewrite H3 by (by apply demo_Q).
Defined.

Lemma k_work_schedule_spec_witness :
  exists s', k_work_schedule_for_queue 100 10 7 (demo false, demo_state 2 [] (demo_flags [])) = Done 1 s'
    /\ expiry (work_to 10) (tmo s'.1) = Some 108.
Proof.
  destruct (k_work_schedule_spec (lay := demo_layout 2) (fun _ => None) nobody (demo_lists []) [] (demo false)
    (demo_state 2 [] (demo_flags [])) 10 100 7) as (s' & H1 & _ & H2).
  - apply demo_run.
  - apply demo_pending; [by left|apply nobody_sync].
  - done.
  - done.
  - exists s'. split; [exact H1|]. apply H2. done.
Defined.

(** The logging handlers are well behaved; [ran] sees 11 in the log. *)
Definition logged (l : list Z) : Prop := 11 ∈ l.

Lemma demo_handler_ok x i k o :
  krun k -> current k = 1%positive ->
  Jq (lay := demo_layout 1) nobody 100 11 logged (Some x, i) (k, o) ->
  returned (Jq (lay := demo_layout 1) nobody 100 11 logged (Some x, i)) 1%positive (irq_locked k)
    (k, o <| user ::= fun l => l ++ [x] |>).
Proof.
  intros Hk Hc (Ho & R & ls & cs & [H1 H2] & Hok). split_and!; try done. split; [done|]. exists R, ls, cs.
  split; [|by apply wok_user]. split; [done|]. destruct i as [i|]; [|done]. destruct H2 as [?|?]; [left|by right].
  apply elem_of_app. by left.
Qed.

Lemma demo_handler_marks k o :
  krun k -> current k = 1%positive ->
  Jq (lay := demo_layout 1) nobody 100 11 logged (Some 11, None) (k, o) ->
  returned (Jq (lay := demo_layout 1) nobody 100 11 logged (Some 11, Some O)) 1%positive (irq_locked k)
    (k, o <| user ::= fun l => l ++ [11] |>).
Proof.
  intros Hk Hc (Ho & R & ls & cs & [H1 H2] & Hok). split_and!; try done. split; [done|]. exists R, ls, cs.
  split; [|by apply wok_user]. split; [done|]. left. apply elem_of_app. right. by apply list_elem_of_singleton.
Qed.

Lemma work_queue_runs_pending_witness :
  runs_in (Jq (lay := demo_layout 1) nobody 100 11 logged) 1%positive (fun _ s => krun s.1 /\ 11 ∈ user s.2)
    (work_queue_main 2 100 (demo false, demo_state 1 [10; 11] (demo_flags [10; 11]))).
Proof.
  apply (work_queue_runs_pending (lay := demo_layout 1) nobody 100 11 logged 2 (fun _ => None) (demo_lists [10; 11]) []
    (demo false) (demo_state 1 [10; 11] (demo_flags [10; 11])) [10] []).
  - by apply demo_Q.
  - done.
  - intros h x _ i k o Hk Hc HJ. by apply demo_handler_ok.
  - intros h k o Hk Hc HJ. by apply demo_handler_marks.
  - apply demo_run.
  - done.
  - by intros q _.
  - apply demo_pending; [by right|apply nobody_sync].
  - done.
  - done.
  - simpl. lia.
Defined.

(** ** The sync object of a flush after the call *)

(** The queue thread (thread 1) runs the flusher 20, for which thread 2 waits
    on wait queue 7. *)
Definition flushing : wstate :=
  (demo_state 1 [] (fun w => if w =? 20 then 1 else 0)) <| sems := fun _ => Sem.mk_sem 7 0 1 |>.

Definition state_of {A} (r : outcome St A) : St := match r with Done _ s => s | Swapped s _ => s end.


End WorkThm.
