(* ===== verification/Hex.v ===== *)
(** Hexadecimal conversion (lib/os/hex.c).

    Input buffers are lists of bytes; the result pairs the return value with
    the bytes written to the output buffer from its start.  [size_t] is 32
    bits wide.  The theorems show that printing and parsing are inverse and
    that exactly the strings of hexadecimal digits are accepted. *)
From S2P Require Import Prelude.

Module Hex.

Definition is_byte (x : Z) : Prop := 0 <= x < 256.

(** Character constants. *)
Definition c_0 : Z := 48.
Definition c_9 : Z := 57.
Definition c_a : Z := 97.
Definition c_f : Z := 102.
Definition c_A : Z := 65.
Definition c_F : Z := 70.

(** The second component is what is stored through the pointer argument. *)
Definition char2hex (c : Z) : Z * option Z :=
  if (c_0 <=? c) && (c <=? c_9) then (0, Some (c - c_0))
  else if (c_a <=? c) && (c <=? c_f) then (0, Some (c - c_a + 10))
  else if (c_A <=? c) && (c <=? c_F) then (0, Some (c - c_A + 10))
  else (- EINVAL, None).

Definition hex2char (x : Z) : Z * option Z :=
  if x <=? 9 then (0, Some (x + c_0))
  else if x <=? 15 then (0, Some (x - 10 + c_a))
  else (- EINVAL, None).

(** The loop of [bin2hex]: [false] on an early return. *)
Fixpoint bin2hex_loop (buf : list Z) : bool * list Z :=
  match buf with
  | [] => (true, [])
  | b :: r =>
      match hex2char (Z.shiftr b 4) with
      | (_, None) => (false, [])
      | (_, Some c1) =>
          match hex2char (Z.land b 15) with
          | (_, None) => (false, [c1])
          | (_, Some c2) => let '(ok, out) := bin2hex_loop r in (ok, c1 :: c2 :: out)
          end
      end
  end.

Definition bin2hex (buf : list Z) (hexlen : Z) : Z * list Z :=
  let buflen := Z.of_nat (length buf) in
  if hexlen <? u32 (buflen * 2 + 1) then (0, [])
  else
    match bin2hex_loop buf with
    | (true, out) => (u32 (2 * buflen), out ++ [0])
    | (false, out) => (0, out)
    end.

(** The loop of [hex2bin] over pairs of characters. *)
Fixpoint hex2bin_loop (hex : list Z) : bool * list Z :=
  match hex with
  | h :: l :: r =>
      match char2hex h with
      | (_, None) => (false, [])
      | (_, Some d1) =>
          let b := u8 (Z.shiftl d1 4) in
          match char2hex l with
          | (_, None) => (false, [b])
          | (_, Some d2) => let '(ok, out) := hex2bin_loop r in (ok, u8 (b + d2) :: out)
          end
      end
  | _ => (true, [])
  end.

Definition hex2bin (hex : list Z) (buflen : Z) : Z * list Z :=
  let hexlen := Z.of_nat (length hex) in
  let n := hexlen / 2 + hexlen mod 2 in
  if buflen <? n then (0, [])
  else
    let finish r := match r with (true, out) => (n, out) | (false, out) => (0, out) end in
    if hexlen mod 2 =? 0 then finish (hex2bin_loop hex)
    else
      match hex with
      | [] => (n, [])
      | c :: hex' =>
          match char2hex c with
          | (_, None) => (0, [])
          | (_, Some dec) => finish (let '(ok, out) := hex2bin_loop hex' in (ok, dec :: out))
          end
      end.

(** ** Digits *)

Definition hex_digit (x : Z) : Z := if x <=? 9 then x + c_0 else x - 10 + c_a.

Lemma hex2char_digit x : 0 <= x < 16 -> hex2char x = (0, Some (hex_digit x)).
Proof.
  intros Hx. unfold hex2char, hex_digit. destruct (x <=? 9) eqn:E; [done|].
  by replace (x <=? 15) with true by lia.
Qed.

Lemma char2hex_digit x : 0 <= x < 16 -> char2hex (hex_digit x) = (0, Some x).
Proof.
  intros Hx. unfold char2hex, hex_digit, c_0, c_9, c_a, c_f, c_A, c_F. destruct (x <=? 9) eqn:E.
  - replace (48 <=? x + 48) with true by lia. replace (x + 48 <=? 57) with true by lia. simpl. do 2 f_equal. lia.
  - replace (48 <=? x - 10 + 97) with true by lia. replace (x - 10 + 97 <=? 57) with false by lia.
    replace (97 <=? x - 10 + 97) with true by lia. replace (x - 10 + 97 <=? 102) with true by lia.
    simpl. do 2 f_equal. lia.
Qed.

Definition digits (l : list Z) : list Z := l ≫= fun b => [hex_digit (b / 16); hex_digit (b mod 16)].

Lemma nibbles b : is_byte b -> Z.shiftr b 4 = b / 16 /\ Z.land b 15 = b mod 16.
Proof.
  intros Hb. split; [by rewrite Z.shiftr_div_pow2|].
  change 15 with (Z.ones 4). by rewrite Z.land_ones.
Qed.

Lemma bin2hex_loop_digits l : Forall is_byte l -> bin2hex_loop l = (true, digits l).
Proof.
  induction 1 as [|b l Hb Hl IH]; [done|]. cbn [bin2hex_loop]. destruct (nibbles b Hb) as [-> ->].
  unfold is_byte in Hb. rewrite !hex2char_digit by (Z.to_euclidean_division_equations; lia).
  by rewrite IH.
Qed.

Lemma hex2bin_loop_digits l : Forall is_byte l -> hex2bin_loop (digits l) = (true, l).
Proof.
  induction 1 as [|b l Hb Hl IH]; [done|]. unfold is_byte in Hb.
  change (digits (b :: l)) with (hex_digit (b / 16) :: hex_digit (b mod 16) :: digits l).
  cbn [hex2bin_loop]. rewrite !char2hex_digit by (Z.to_euclidean_division_equations; lia). rewrite IH.
  do 2 f_equal. rewrite Z.shiftl_mul_pow2 by lia. unfold uwrap.
  change (2 ^ 4) with 16. change (2 ^ 8) with 256. Z.to_euclidean_division_equations; lia.
Qed.

Lemma digits_length l : length (digits l) = (2 * length l)%nat.
Proof. unfold digits. induction l as [|b l IH]; [done|]. csimpl. rewrite IH. lia. Qed.

(** A string of hexadecimal digits. *)
Definition valid (hex : list Z) : Prop := Forall (fun c => (char2hex c).1 = 0) hex.

Lemma char2hex_valid c : (char2hex c).1 = 0 <-> exists d, char2hex c = (0, Some d).
Proof.
  unfold char2hex. repeat (destruct (_ && _); [split; [eauto|done]|]). split; [done|by intros [? ?]].
Qed.

Lemma hex2bin_loop_valid hex : Nat.even (length hex) = true -> (hex2bin_loop hex).1 = true <-> valid hex.
Proof.
  assert (H : forall n hex, (length hex <= n)%nat -> Nat.even (length hex) = true ->
                (hex2bin_loop hex).1 = true <-> valid hex); [|by apply (H (length hex))].
  clear hex. induction n as [|n IH]; intros hex Hn He.
  { destruct hex; [|simpl in Hn; lia]. split; [constructor|done]. }
  destruct hex as [|h [|l r]]; [split; [constructor|done]|done|]. cbn [hex2bin_loop].
  unfold valid. rewrite !Forall_cons, !char2hex_valid. simpl in Hn, He.
  destruct (char2hex h) as [? [d1|]] eqn:E1; [|split; [done|intros [[? ?] _]; congruence]].
  destruct (char2hex l) as [? [d2|]] eqn:E2; [|split; [done|intros [_ [[? ?] _]]; congruence]].
  pose proof (IH r ltac:(lia) He) as IHr. unfold valid in IHr.
  destruct (hex2bin_loop r) as [ok out]. simpl in *. rewrite IHr.
  assert (Hz : forall c x d, char2hex c = (x, Some d) -> x = 0).
  { intros c x d. unfold char2hex. repeat (destruct (_ && _); [by intros [= <- _]|]). done. }
  rewrite (Hz _ _ _ E1), (Hz _ _ _ E2). naive_solver.
Qed.

(** [hex2bin] with a buffer that is large enough accepts exactly the strings
    of hexadecimal digits, of odd length too. *)
Lemma hex2bin_accepts hex buflen :
  Z.of_nat (length hex) / 2 + Z.of_nat (length hex) mod 2 <= buflen ->
  valid hex -> (hex2bin hex buflen).1 = Z.of_nat (length hex) / 2 + Z.of_nat (length hex) mod 2.
Proof.
  intros Hb Hv. unfold hex2bin. set (n := Z.of_nat (length hex)) in *.
  replace (buflen <? n / 2 + n mod 2) with false by lia. cbv zeta. destruct (n mod 2 =? 0) eqn:E.
  - assert (He : Nat.even (length hex) = true).
    { apply Nat.even_spec. exists (Z.to_nat (n / 2)). Z.to_euclidean_division_equations; lia. }
    apply hex2bin_loop_valid in Hv; [|done]. destruct (hex2bin_loop hex) as [ok out]. simpl in Hv. by rewrite Hv.
  - destruct hex as [|c hex]; [done|]. apply Forall_cons in Hv as [Hc Hv].
    apply char2hex_valid in Hc as [d ->].
    assert (He : Nat.even (length hex) = true).
    { simpl in n. apply Nat.even_spec. exists (Z.to_nat (n / 2)). Z.to_euclidean_division_equations; lia. }
    apply hex2bin_loop_valid in Hv; [|done]. destruct (hex2bin_loop hex) as [ok out]. simpl in Hv. by rewrite Hv.
Qed.

Lemma hex2bin_rejects hex buflen : ~ valid hex -> (hex2bin hex buflen).1 = 0.
Proof.
  intros Hv. unfold hex2bin. set (n := Z.of_nat (length hex)).
  destruct (buflen <? _); [done|]. cbv zeta. destruct (n mod 2 =? 0) eqn:E.
  - assert (He : Nat.even (length hex) = true).
    { apply Nat.even_spec. exists (Z.to_nat (n / 2)). unfold n in *. Z.to_euclidean_division_equations; lia. }
    rewrite <-hex2bin_loop_valid in Hv by done. destruct (hex2bin_loop hex) as [[] out]; [by destruct Hv|done].
  - destruct hex as [|c hex]; [done|]. destruct (char2hex c) as [x [d|]] eqn:Ec; [|done].
    assert (Hc : (char2hex c).1 = 0).
    { revert Ec. unfold char2hex. repeat (destruct (_ && _); [done|]). done. }
    assert (He : Nat.even (length hex) = true).
    { simpl in n. apply Nat.even_spec. exists (Z.to_nat (n / 2)). unfold n in *. Z.to_euclidean_division_equations; lia. }
    assert (Hv' : ~ valid hex) by (intros H; apply Hv; by constructor).
    rewrite <-hex2bin_loop_valid in Hv' by done. destruct (hex2bin_loop hex) as [[] out]; [by destruct Hv'|done].
Qed.

(** ** Properties *)

(** [hex2bin] reads back what [bin2hex] printed, for every byte string
    that fits the length arithmetic and buffers that are large enough; the
    printed string is terminated and has two digits per byte. *)
Theorem hex_roundtrip l hexlen buflen :
  Forall is_byte l -> 2 * Z.of_nat (length l) + 1 < 2 ^ 32 ->
  2 * Z.of_nat (length l) + 1 <= hexlen -> Z.of_nat (length l) <= buflen ->
  exists out, bin2hex l hexlen = (2 * Z.of_nat (length l), out ++ [0])
    /\ Z.of_nat (length out) = 2 * Z.of_nat (length l)
    /\ hex2bin out buflen = (Z.of_nat (length l), l).
Proof.
  intros Hb Hlen Hh Hbl. exists (digits l). unfold bin2hex, hex2bin. rewrite digits_length.
  set (n := Z.of_nat (length l)) in *. replace (Z.of_nat (2 * length l)) with (2 * n) by lia.
  unfold uwrap. rewrite !Z.mod_small by lia. replace (hexlen <? n * 2 + 1) with false by lia.
  rewrite bin2hex_loop_digits by done.
  replace (2 * n / 2) with n by (Z.to_euclidean_division_equations; lia).
  replace ((2 * n) mod 2) with 0 by (Z.to_euclidean_division_equations; lia).
  replace (buflen <? n + 0) with false by lia. simpl. rewrite hex2bin_loop_digits by done.
  rewrite Z.add_0_r. done.
Qed.

Lemma hex_roundtrip_witness :
  exists out, bin2hex [255; 10] 5 = (4, out ++ [0]) /\ hex2bin out 2 = (2, [255; 10]).
Proof.
  destruct (hex_roundtrip [255; 10] 5 2) as (out & E1 & _ & E2).
  - repeat constructor; unfold is_byte; lia.
  - reflexivity.
  - simpl. lia.
  - simpl. lia.
  - exists out. split; [exact E1|exact E2].
Defined.

End Hex.
