(* ===== verification/Base64.v ===== *)
(** Base64 (lib/os/base64.c).

    The source buffer is a list of bytes; the result is the return value, the
    value stored through [olen] and the bytes written to [dst] from its start.
    [size_t] is 32 bits wide, [dst] may be NULL.  The theorems show that
    decoding inverts encoding and that decoding never writes more than the
    destination holds. *)
From Stdlib Require Import String Ascii.
From S2P Require Import Prelude Hex.
Import Hex.

Module Base64.

Definition codes (s : string) : list Z :=
  (fun c => Z.of_N (N_of_ascii c)) <$> list_ascii_of_string s.

Definition base64_enc_map : list Z :=
  codes "ABCDEFGHIJKLMNOPQRSTUVWXYZabcdefghijklmnopqrstuvwxyz0123456789+/".

Definition base64_dec_map : list Z := [
  127; 127; 127; 127; 127; 127; 127; 127; 127; 127;
  127; 127; 127; 127; 127; 127; 127; 127; 127; 127;
  127; 127; 127; 127; 127; 127; 127; 127; 127; 127;
  127; 127; 127; 127; 127; 127; 127; 127; 127; 127;
  127; 127; 127;  62; 127; 127; 127;  63;  52;  53;
   54;  55;  56;  57;  58;  59;  60;  61; 127; 127;
  127;  64; 127; 127; 127;   0;   1;   2;   3;   4;
    5;   6;   7;   8;   9;  10;  11;  12;  13;  14;
   15;  16;  17;  18;  19;  20;  21;  22;  23;  24;
   25; 127; 127; 127; 127; 127; 127;  26;  27;  28;
   29;  30;  31;  32;  33;  34;  35;  36;  37;  38;
   39;  40;  41;  42;  43;  44;  45;  46;  47;  48;
   49;  50;  51; 127; 127; 127; 127; 127].

Definition enc (i : Z) : Z := nth (Z.to_nat i) base64_enc_map 0.
Definition dec (c : Z) : Z := nth (Z.to_nat c) base64_dec_map 0.

Definition c_pad : Z := 61.
Definition c_space : Z := 32.
Definition c_cr : Z := 13.
Definition c_lf : Z := 10.

Definition BASE64_SIZE_T_MAX : Z := UINT32_MAX.

(** The four characters of a group. *)
Definition enc1 (C1 : Z) : Z := enc (Z.land (Z.shiftr C1 2) 63).
Definition enc2 (C1 C2 : Z) : Z := enc (Z.land (Z.shiftl (Z.land C1 3) 4 + Z.shiftr C2 4) 63).
Definition enc3 (C2 C3 : Z) : Z := enc (Z.land (Z.shiftl (Z.land C2 15) 2 + Z.shiftr C3 6) 63).
Definition enc4 (C3 : Z) : Z := enc (Z.land C3 63).

(** The loop over whole groups and the rest after it. *)
Fixpoint encode_loop (src : list Z) : list Z :=
  match src with
  | C1 :: C2 :: C3 :: r => enc1 C1 :: enc2 C1 C2 :: enc3 C2 C3 :: enc4 C3 :: encode_loop r
  | [C1; C2] => [enc1 C1; enc2 C1 C2; enc (Z.land (Z.shiftl (Z.land C2 15) 2) 63); c_pad]
  | [C1] => [enc1 C1; enc2 C1 0; c_pad; c_pad]
  | [] => []
  end.

Definition base64_encode (dst_null : bool) (dlen : Z) (src : list Z) : Z * Z * list Z :=
  let slen := Z.of_nat (length src) in
  if slen =? 0 then (0, 0, [])
  else
    let n := slen / 3 + (if slen mod 3 =? 0 then 0 else 1) in
    if n >? (BASE64_SIZE_T_MAX - 1) / 4 then (- ENOMEM, BASE64_SIZE_T_MAX, [])
    else
      let n := n * 4 in
      if (dlen <? n + 1) || dst_null then (- ENOMEM, n + 1, [])
      else
        let out := encode_loop src in
        (0, Z.of_nat (length out), out ++ [0]).

(** The first pass: the number of significant characters and of padding
    characters, or [None] for invalid input; [x] counts the spaces just
    before the rest of the input. *)
Fixpoint check_loop (src : list Z) (x n j : Z) : option (Z * Z) :=
  match src with
  | [] => Some (n, j)
  | c :: r =>
      if c =? c_space then check_loop r (x + 1) n j
      else if (c =? c_cr) && match r with c' :: _ => c' =? c_lf | [] => false end then check_loop r 0 n j
      else if c =? c_lf then check_loop r 0 n j
      else if negb (x =? 0) then None
      else
        let j := if c =? c_pad then j + 1 else j in
        if (c =? c_pad) && (j >? 2) then None
        else if (c >? 127) || (dec c =? 127) then None
        else if (dec c <? 64) && negb (j =? 0) then None
        else check_loop r 0 (n + 1) j
  end.

(** The second pass. *)
Fixpoint decode_loop (src : list Z) (j n x : Z) : list Z :=
  match src with
  | [] => []
  | c :: r =>
      if (c =? c_cr) || (c =? c_lf) || (c =? c_space) then decode_loop r j n x
      else
        let j := u32 (j - (if dec c =? 64 then 1 else 0)) in
        let x := u32 (Z.lor (Z.shiftl x 6) (Z.land (dec c) 63)) in
        if n + 1 =? 4 then
          (if j >? 0 then [u8 (Z.shiftr x 16)] else []) ++
          (if j >? 1 then [u8 (Z.shiftr x 8)] else []) ++
          (if j >? 2 then [u8 x] else []) ++
          decode_loop r j 0 x
        else decode_loop r j (n + 1) x
  end.

Definition decoded_size (n j : Z) : Z :=
  u32 (6 * Z.shiftr n 3 + Z.shiftr (6 * Z.land n 7 + 7) 3 - j).

Definition base64_decode (dst_null : bool) (dlen : Z) (src : list Z) : Z * option Z * list Z :=
  match check_loop src 0 0 0 with
  | None => (- EINVAL, None, [])
  | Some (n, j) =>
      if n =? 0 then (0, Some 0, [])
      else
        let n := decoded_size n j in
        if dst_null || (dlen <? n) then (- ENOMEM, Some n, [])
        else
          let out := decode_loop src 3 0 0 in
          (0, Some (Z.of_nat (length out)), out)
  end.

(** ** Characters *)

(** A character of the alphabet with its value. *)
Definition symbol (c v : Z) : Prop :=
  0 <= v < 64 /\ dec c = v /\ c =? c_space = false /\ c =? c_cr = false /\ c =? c_lf = false
  /\ c =? c_pad = false /\ c >? 127 = false.

Definition symbol_check (v : Z) : bool :=
  let c := enc v in
  (dec c =? v) && negb (c =? c_space) && negb (c =? c_cr) && negb (c =? c_lf) && negb (c =? c_pad) && negb (c >? 127).

Lemma symbols_checked : forallb symbol_check (seqZ 0 64) = true.
Proof. vm_compute. reflexivity. Qed.

Lemma enc_symbol v : 0 <= v < 64 -> symbol (enc v) v.
Proof.
  intros Hv. pose proof symbols_checked as H. rewrite forallb_forall in H.
  assert (Hin : In v (seqZ 0 64)) by (apply list_elem_of_In, elem_of_seqZ; lia).
  specialize (H v Hin). unfold symbol_check in H. rewrite !andb_true_iff, !negb_true_iff in H.
  destruct H as [[[[[H1 H2] H3] H4] H5] H6]. split_and!; try done; lia.
Qed.

(** ** Bits as arithmetic *)

Lemma group_values C1 C2 C3 :
  is_byte C1 -> is_byte C2 -> is_byte C3 ->
  enc1 C1 = enc (C1 / 4) /\ enc2 C1 C2 = enc (C1 mod 4 * 16 + C2 / 16)
  /\ enc3 C2 C3 = enc (C2 mod 16 * 4 + C3 / 64) /\ enc4 C3 = enc (C3 mod 64).
Proof.
  unfold is_byte. intros H1 H2 H3. unfold enc1, enc2, enc3, enc4.
  change 63 with (Z.ones 6). change 3 with (Z.ones 2). change 15 with (Z.ones 4).
  rewrite !Z.shiftr_div_pow2, !Z.shiftl_mul_pow2, !Z.land_ones by lia.
  change (2 ^ 6) with 64. change (2 ^ 4) with 16. change (2 ^ 2) with 4.
  split_and!; f_equal; Z.to_euclidean_division_equations; lia.
Qed.

Lemma push_bits x v : 0 <= v < 64 -> Z.lor (Z.shiftl x 6) v = x * 64 + v.
Proof.
  intros Hv. assert (E : Z.land (Z.shiftl x 6) v = 0).
  { rewrite <-(Z.mod_small v (2 ^ 6)) by done. rewrite <-Z.land_ones, (Z.land_comm v), Z.land_assoc by lia.
    rewrite Z.land_ones, Z.shiftl_mul_pow2, Z.mod_mul by lia. apply Z.land_0_l. }
  pose proof (Z.add_lor_land (Z.shiftl x 6) v) as H. rewrite E, Z.shiftl_mul_pow2 in * by lia. lia.
Qed.

(** ** Decoding one character *)

(** The bytes written for a complete group. *)
Definition outs (j x : Z) : list Z :=
  (if j >? 0 then [u8 (Z.shiftr x 16)] else []) ++
  (if j >? 1 then [u8 (Z.shiftr x 8)] else []) ++
  (if j >? 2 then [u8 x] else []).

Definition next_group (j n x : Z) (rest : Z -> Z -> list Z) : list Z :=
  if n + 1 =? 4 then outs j x ++ rest 0 x else rest (n + 1) x.

Lemma decode_sym c v r j n x :
  symbol c v -> 0 <= j < 4 ->
  decode_loop (c :: r) j n x = next_group j n (u32 (x * 64 + v)) (decode_loop r j).
Proof.
  intros (Hv & Hd & H1 & H2 & H3 & H4 & H5) Hj. cbn [decode_loop]. rewrite H1, H2, H3, Hd. cbn [orb].
  replace (v =? 64) with false by lia. change 63 with (Z.ones 6). rewrite Z.land_ones by lia.
  rewrite (Z.mod_small v) by done. rewrite push_bits by done. rewrite Z.sub_0_r.
  rewrite (uwrap_small 32 j) by lia. unfold next_group, outs. by rewrite <-!app_assoc.
Qed.

Lemma decode_pad r j n x :
  1 <= j < 4 ->
  decode_loop (c_pad :: r) j n x = next_group (j - 1) n (u32 (x * 64)) (decode_loop r (j - 1)).
Proof.
  intros Hj. cbn [decode_loop]. change (dec c_pad) with 64. cbn -[Z.shiftl Z.lor uwrap decode_loop Z.sub Z.add].
  rewrite Z.lor_0_r, Z.shiftl_mul_pow2 by lia. change (2 ^ 6) with 64.
  rewrite (uwrap_small 32 (j - 1)) by lia. unfold next_group, outs. by rewrite <-!app_assoc.
Qed.

Lemma u32_push a v : u32 (u32 a * 64 + v) = u32 (a * 64 + v).
Proof.
  unfold uwrap. rewrite <-(Z.add_mod_idemp_l (a mod 2 ^ 32 * 64)) by done.
  by rewrite Z.mul_mod_idemp_l, Z.add_mod_idemp_l by done.
Qed.

(** The value of four characters pushed into [x]. *)
Lemma four_values x v1 v2 v3 v4 :
  0 <= v1 < 64 -> 0 <= v2 < 64 -> 0 <= v3 < 64 -> 0 <= v4 < 64 ->
  let x' := u32 (u32 (u32 (u32 (x * 64 + v1) * 64 + v2) * 64 + v3) * 64 + v4) in
  u8 (Z.shiftr x' 16) = v1 * 4 + v2 / 16
  /\ u8 (Z.shiftr x' 8) = v2 mod 16 * 16 + v3 / 4
  /\ u8 x' = v3 mod 4 * 64 + v4.
Proof.
  intros H1 H2 H3 H4 x'. set (V := v1 * 262144 + v2 * 4096 + v3 * 64 + v4).
  assert (Hx : exists z, x' = z * 16777216 + V).
  { unfold x'. rewrite (u32_push _ v2), (u32_push _ v3), (u32_push _ v4). unfold uwrap. rewrite Z.mod_eq by done. change (2 ^ 32) with 4294967296.
    generalize (((((x * 64 + v1) * 64 + v2) * 64 + v3) * 64 + v4) / 4294967296). intros Q.
    exists (x - 256 * Q). unfold V. lia. }
  destruct Hx as [z ->]. unfold uwrap. rewrite !Z.shiftr_div_pow2 by done.
  change (2 ^ 16) with 65536. change (2 ^ 8) with 256.
  replace (z * 16777216 + V) with (z * 256 * 65536 + V) at 1 by lia.
  replace (z * 16777216 + V) with (z * 65536 * 256 + V) by lia.
  rewrite !Z.div_add_l by done. unfold V.
  split_and!; Z.to_euclidean_division_equations; lia.
Qed.

(** ** Groups *)

Lemma decode_group C1 C2 C3 r x :
  is_byte C1 -> is_byte C2 -> is_byte C3 ->
  exists x', decode_loop (enc1 C1 :: enc2 C1 C2 :: enc3 C2 C3 :: enc4 C3 :: r) 3 0 x
             = C1 :: C2 :: C3 :: decode_loop r 3 0 x'.
Proof.
  intros H1 H2 H3. destruct (group_values C1 C2 C3 H1 H2 H3) as (-> & -> & -> & ->). unfold is_byte in *.
  assert (V1 : 0 <= C1 / 4 < 64) by (Z.to_euclidean_division_equations; lia).
  assert (V2 : 0 <= C1 mod 4 * 16 + C2 / 16 < 64) by (Z.to_euclidean_division_equations; lia).
  assert (V3 : 0 <= C2 mod 16 * 4 + C3 / 64 < 64) by (Z.to_euclidean_division_equations; lia).
  assert (V4 : 0 <= C3 mod 64 < 64) by (Z.to_euclidean_division_equations; lia).
  do 4 (erewrite decode_sym; [|by apply enc_symbol|lia]; unfold next_group at 1; simpl (_ =? 4); cbv iota).
  destruct (four_values x _ _ _ _ V1 V2 V3 V4) as (E1 & E2 & E3).
  replace (C1 / 4 * 4 + _ / 16) with C1 in E1 by (Z.to_euclidean_division_equations; lia).
  replace (_ mod 16 * 16 + _ / 4) with C2 in E2 by (Z.to_euclidean_division_equations; lia).
  replace (_ mod 4 * 64 + _) with C3 in E3 by (Z.to_euclidean_division_equations; lia).
  unfold outs. simpl (_ >? _). cbv iota. rewrite E1, E2, E3. eexists. reflexivity.
Qed.

Lemma decode_tail2 C1 C2 x :
  is_byte C1 -> is_byte C2 ->
  decode_loop [enc1 C1; enc2 C1 C2; enc (Z.land (Z.shiftl (Z.land C2 15) 2) 63); c_pad] 3 0 x = [C1; C2].
Proof.
  intros H1 H2. rewrite <-(Z.add_0_r (Z.shiftl (Z.land C2 15) 2)). change 0 with (Z.shiftr 0 6) at 1.
  fold (enc3 C2 0). destruct (group_values C1 C2 0 H1 H2) as (-> & -> & -> & _); [done|].
  unfold is_byte in *.
  assert (V1 : 0 <= C1 / 4 < 64) by (Z.to_euclidean_division_equations; lia).
  assert (V2 : 0 <= C1 mod 4 * 16 + C2 / 16 < 64) by (Z.to_euclidean_division_equations; lia).
  assert (V3 : 0 <= C2 mod 16 * 4 + 0 / 64 < 64) by (Z.to_euclidean_division_equations; lia).
  do 3 (erewrite decode_sym; [|by apply enc_symbol|lia]; unfold next_group at 1; simpl (_ =? 4); cbv iota).
  rewrite decode_pad by lia. unfold next_group. simpl (_ =? 4). cbv iota.
  destruct (four_values x _ _ _ 0 V1 V2 V3) as (E1 & E2 & _); [done|]. rewrite Z.add_0_r in E1, E2.
  replace (C1 / 4 * 4 + _ / 16) with C1 in E1 by (Z.to_euclidean_division_equations; lia).
  replace (_ mod 16 * 16 + _ / 4) with C2 in E2 by (Z.to_euclidean_division_equations; lia).
  unfold outs. simpl (_ >? _). cbv iota. by rewrite E1, E2.
Qed.

Lemma decode_tail1 C1 x :
  is_byte C1 -> decode_loop [enc1 C1; enc2 C1 0; c_pad; c_pad] 3 0 x = [C1].
Proof.
  intros H1. destruct (group_values C1 0 0 H1) as (-> & -> & _); [done|done|]. unfold is_byte in *.
  assert (V1 : 0 <= C1 / 4 < 64) by (Z.to_euclidean_division_equations; lia).
  assert (V2 : 0 <= C1 mod 4 * 16 + 0 / 16 < 64) by (Z.to_euclidean_division_equations; lia).
  do 2 (erewrite decode_sym; [|by apply enc_symbol|lia]; unfold next_group at 1; simpl (_ =? 4); cbv iota).
  do 2 (rewrite decode_pad by lia; unfold next_group at 1; simpl (_ =? 4); cbv iota).
  destruct (four_values x _ _ 0 0 V1 V2) as (E1 & _ & _); [done|done|]. rewrite !Z.add_0_r in E1.
  replace (C1 / 4 * 4 + _ / 16) with C1 in E1 by (Z.to_euclidean_division_equations; lia).
  unfold outs. simpl (_ >? _). cbv iota. by rewrite Z.add_0_r, E1.
Qed.

Lemma triples_ind (P : list Z -> Prop) :
  P [] -> (forall a, P [a]) -> (forall a b, P [a; b]) ->
  (forall a b c r, P r -> P (a :: b :: c :: r)) -> forall l, P l.
Proof.
  intros H0 H1 H2 H3.
  refine (fix go l := match l with [] => H0 | [a] => H1 a | [a; b] => H2 a b
                              | a :: b :: c :: r => H3 a b c r (go r) end).
Qed.

Lemma decode_encode l x : Forall is_byte l -> decode_loop (encode_loop l) 3 0 x = l.
Proof.
  revert x. induction l as [|C1|C1 C2|C1 C2 C3 r IH] using triples_ind; intros x H; rewrite ?Forall_cons in H.
  - done.
  - apply decode_tail1, H.
  - apply decode_tail2; apply H.
  - destruct H as (H1 & H2 & H3 & H). cbn [encode_loop].
    destruct (decode_group C1 C2 C3 (encode_loop r) x H1 H2 H3) as [x' ->]. by rewrite IH.
Qed.

(** ** The first pass *)

Lemma check_sym c v r n : symbol c v -> check_loop (c :: r) 0 n 0 = check_loop r 0 (n + 1) 0.
Proof.
  intros (Hv & Hd & H1 & H2 & H3 & H4 & H5). cbn [check_loop]. rewrite H1, H2, H3, H4, H5, Hd. cbn [andb orb negb].
  replace (v =? 127) with false by lia. simpl. by rewrite andb_false_r.
Qed.

Lemma symbol_enc1 C : is_byte C -> exists v, symbol (enc1 C) v.
Proof.
  intros H. destruct (group_values C 0 0 H) as (-> & _); [done|done|]. eexists. apply enc_symbol.
  unfold is_byte in H. Z.to_euclidean_division_equations; lia.
Qed.
Lemma symbol_enc2 C D : is_byte C -> is_byte D -> exists v, symbol (enc2 C D) v.
Proof.
  intros H1 H2. destruct (group_values C D 0 H1 H2) as (_ & -> & _); [done|]. eexists. apply enc_symbol.
  unfold is_byte in *. Z.to_euclidean_division_equations; lia.
Qed.
Lemma symbol_enc3 C D : is_byte C -> is_byte D -> exists v, symbol (enc3 C D) v.
Proof.
  intros H1 H2. destruct (group_values 0 C D) as (_ & _ & -> & _); [done|done|done|]. eexists. apply enc_symbol.
  unfold is_byte in *. Z.to_euclidean_division_equations; lia.
Qed.
Lemma symbol_enc4 C : is_byte C -> exists v, symbol (enc4 C) v.
Proof.
  intros H. destruct (group_values 0 0 C) as (_ & _ & _ & ->); [done|done|done|]. eexists. apply enc_symbol.
  unfold is_byte in *. Z.to_euclidean_division_equations; lia.
Qed.

(** The padding of an encoding. *)
Definition pads (l : list Z) : Z := (- Z.of_nat (length l)) mod 3.

Lemma check_encode l n :
  Forall is_byte l -> check_loop (encode_loop l) 0 n 0 = Some (n + Z.of_nat (length (encode_loop l)), pads l).
Proof.
  revert n. induction l as [|C1|C1 C2|C1 C2 C3 r IH] using triples_ind; intros n H; rewrite ?Forall_cons in H.
  - cbn. by rewrite Z.add_0_r.
  - destruct H as (H1 & _). destruct (symbol_enc1 C1 H1), (symbol_enc2 C1 0 H1); [done|].
    cbn [encode_loop]. do 2 (erewrite check_sym by done). cbn. do 2 f_equal. lia.
  - destruct H as (H1 & H2 & _).
    destruct (symbol_enc1 C1 H1), (symbol_enc2 C1 C2 H1 H2), (symbol_enc3 C2 0 H2); [done|].
    cbn [encode_loop]. rewrite <-(Z.add_0_r (Z.shiftl (Z.land C2 15) 2)). change 0 with (Z.shiftr 0 6) at 2.
    fold (enc3 C2 0). do 3 (erewrite check_sym by done). cbn. do 2 f_equal. lia.
  - destruct H as (H1 & H2 & H3 & H).
    destruct (symbol_enc1 C1 H1), (symbol_enc2 C1 C2 H1 H2), (symbol_enc3 C2 C3 H2 H3), (symbol_enc4 C3 H3).
    cbn [encode_loop]. do 4 (erewrite check_sym by done). rewrite IH by done. unfold pads. cbn [length].
    do 2 f_equal; [lia|]. Z.to_euclidean_division_equations; lia.
Qed.

Lemma encode_length l : Z.of_nat (length (encode_loop l)) = 4 * ((Z.of_nat (length l) + 2) / 3).
Proof.
  induction l as [|C1|C1 C2|C1 C2 C3 r IH] using triples_ind; [done|done|done|].
  cbn [encode_loop length]. rewrite !Nat2Z.inj_succ, IH. Z.to_euclidean_division_equations; lia.
Qed.

(** The size the first pass computes. *)
Lemma decoded_size_eq n j :
  0 <= n < 2 ^ 32 -> 0 <= j -> 0 <= n - n / 4 - j -> decoded_size n j = n - n / 4 - j.
Proof.
  intros Hn Hj Hp. unfold decoded_size. rewrite !Z.shiftr_div_pow2 by lia. change 7 with (Z.ones 3) at 1.
  rewrite Z.land_ones by lia. change (2 ^ 3) with 8.
  replace (6 * (n / 8) + (6 * (n mod 8) + 7) / 8 - j) with (n - n / 4 - j)
    by (Z.to_euclidean_division_equations; lia).
  apply uwrap_small. split; [done|]. Z.to_euclidean_division_equations; lia.
Qed.

(** ** The second pass writes what the first one allows *)

(** The bytes written after [n] characters, [j] of them padding at the end. *)
Definition written (n j : Z) : Z := 3 * (n / 4) - Z.max 0 (j - n mod 4).

Lemma outs_length j x : 0 <= j <= 3 -> Z.of_nat (length (outs j x)) = j.
Proof.
  intros Hj. unfold outs. assert (j = 0 \/ j = 1 \/ j = 2 \/ j = 3) as [->|[->|[->| ->]]] by lia; done.
Qed.

Lemma mod4_succ n : (n + 1) mod 4 = if n mod 4 + 1 =? 4 then 0 else n mod 4 + 1.
Proof. destruct (n mod 4 + 1 =? 4) eqn:E; Z.to_euclidean_division_equations; lia. Qed.

Lemma next_group_length j n x rest K :
  0 <= j <= 3 -> (forall y, Z.of_nat (length (rest ((n + 1) mod 4) y)) = K) ->
  Z.of_nat (length (next_group j (n mod 4) x rest)) = (if (n + 1) mod 4 =? 0 then j else 0) + K.
Proof.
  intros Hj Hr. unfold next_group. rewrite mod4_succ in *. pose proof (Z.mod_pos_bound n 4).
  destruct (n mod 4 + 1 =? 4).
  - by rewrite length_app, Nat2Z.inj_add, outs_length, Hr.
  - replace (n mod 4 + 1 =? 0) with false by lia. apply Hr.
Qed.

Lemma written_step n j b :
  0 <= n -> 0 <= j <= 2 -> (b = true -> j + 1 <= 2) ->  (b = false -> j = 0) ->
  let j' := if b then j + 1 else j in
  (if (n + 1) mod 4 =? 0 then 3 - j' else 0) + written n j = written (n + 1) j'.
Proof.
  intros Hn Hj Hb Hb'. unfold written. destruct b; cbv zeta.
  - specialize (Hb eq_refl). destruct ((n + 1) mod 4 =? 0) eqn:E; Z.to_euclidean_division_equations; lia.
  - specialize (Hb' eq_refl). subst j. destruct ((n + 1) mod 4 =? 0) eqn:E; Z.to_euclidean_division_equations; lia.
Qed.

Lemma decode_char c r j n x :
  (c =? c_space) = false -> (c =? c_cr) = false -> (c =? c_lf) = false -> 0 <= j <= 2 ->
  exists x', decode_loop (c :: r) (3 - j) n x
             = next_group (3 - (if dec c =? 64 then j + 1 else j)) n x'
                 (decode_loop r (3 - (if dec c =? 64 then j + 1 else j))).
Proof.
  intros H1 H2 H3 Hj. cbn [decode_loop]. rewrite H1, H2, H3. cbn [orb]. unfold next_group, outs.
  destruct (dec c =? 64).
  - replace (3 - (j + 1)) with (3 - j - 1) by lia. rewrite (uwrap_small 32) by lia.
    eexists. by rewrite <-!app_assoc.
  - rewrite Z.sub_0_r, (uwrap_small 32) by lia. eexists. by rewrite <-!app_assoc.
Qed.

(** A character that the first pass counts. *)
Lemma dec_pad c : 0 <= c <= 127 -> (dec c =? 64) = (c =? c_pad).
Proof.
  intros Hc. assert (H : forallb (fun c => Bool.eqb (dec c =? 64) (c =? c_pad)) (seqZ 0 128) = true)
    by (vm_compute; reflexivity).
  rewrite forallb_forall in H. apply eqb_prop, H, list_elem_of_In, elem_of_seqZ. lia.
Qed.

Lemma dec_range c : 0 <= c <= 127 -> (dec c =? 127) = false -> (c =? c_pad) = false -> (dec c <? 64) = true.
Proof.
  intros Hc. assert (H : forallb (fun c => (dec c =? 127) || (c =? c_pad) || (dec c <? 64)) (seqZ 0 128) = true)
    by (vm_compute; reflexivity).
  rewrite forallb_forall in H. specialize (H c). intros E1 E2. rewrite E1, E2 in H.
  apply H, list_elem_of_In, elem_of_seqZ. lia.
Qed.

Lemma decode_length src : Forall is_byte src -> forall x n j N J y,
  0 <= n -> 0 <= j <= 2 -> check_loop src x n j = Some (N, J) ->
  Z.of_nat (length (decode_loop src (3 - j) (n mod 4) y)) + written n j = written N J
  /\ n <= N <= n + Z.of_nat (length src) /\ 0 <= J <= 2.
Proof.
  induction 1 as [|c r Hc Hr IH]; intros x n j N J y Hn Hj Hch.
  { cbn in *. injection Hch as <- <-. lia. }
  cbn [check_loop] in Hch.
  destruct (c =? c_space) eqn:E1.
  { cbn [decode_loop length]. rewrite E1, orb_true_r. destruct (IH _ _ _ _ _ y Hn Hj Hch) as (I1 & I2 & I3). split; [exact I1|lia]. }
  destruct ((c =? c_cr) && _) eqn:E2.
  { apply andb_true_iff in E2 as [E2 _]. cbn [decode_loop length]. rewrite E2. cbn [orb].
    destruct (IH _ _ _ _ _ y Hn Hj Hch) as (I1 & I2 & I3). split; [exact I1|lia]. }
  destruct (c =? c_lf) eqn:E3.
  { cbn [decode_loop length]. rewrite E3, orb_true_r. destruct (IH _ _ _ _ _ y Hn Hj Hch) as (I1 & I2 & I3). split; [exact I1|lia]. }
  assert (E4 : (c =? c_cr) = false).
  { destruct (c =? c_cr) eqn:E; [|done]. apply Z.eqb_eq in E as ->. revert Hch.
    destruct (negb (x =? 0)); [done|]. done. }
  destruct (x =? 0); [|done]. cbn [negb] in Hch.
  destruct ((c >? 127) || (dec c =? 127)) eqn:E5;
    [exfalso; revert Hch; by destruct ((c =? c_pad) && _)|]. apply orb_false_iff in E5 as [E5 E6].
  destruct (decode_char c r j (n mod 4) y E1 E4 E3 Hj) as [x' ->]. unfold is_byte in Hc.
  rewrite dec_pad by lia. destruct (c =? c_pad) eqn:Ep.
  - cbn [andb] in Hch. destruct (j + 1 >? 2) eqn:Ej; [done|].
    assert (Ed : (dec c <? 64) = false) by (apply Z.eqb_eq in Ep as ->; done). rewrite Ed in Hch. cbn [andb] in Hch.
    pose proof (fun y => IH 0 (n + 1) (j + 1) N J y ltac:(lia) ltac:(lia) Hch) as IH'.
    destruct (IH' 0) as (_ & I2 & I3). cbn [length]. split; [|lia].
    rewrite (next_group_length _ _ _ _ (written N J - written (n + 1) (j + 1)));
      [|lia|intros z; destruct (IH' z) as (I1 & _); lia].
    pose proof (written_step n j true Hn Hj ltac:(lia) ltac:(done)) as Hw. simpl in Hw. lia.
  - cbn [andb] in Hch. rewrite (dec_range c) in Hch by (done || lia). cbn [andb] in Hch.
    destruct (j =? 0) eqn:Ej; [|done]. cbn [negb] in Hch. apply Z.eqb_eq in Ej as ->.
    pose proof (fun y => IH 0 (n + 1) 0 N J y ltac:(lia) ltac:(lia) Hch) as IH'.
    destruct (IH' 0) as (_ & I2 & I3). cbn [length]. split; [|lia].
    rewrite (next_group_length _ _ _ _ (written N J - written (n + 1) 0));
      [|lia|intros z; destruct (IH' z) as (I1 & _); lia].
    pose proof (written_step n 0 false Hn Hj ltac:(done) ltac:(done)) as Hw. simpl in Hw. lia.
Qed.

Lemma written_bound n j : 0 <= n -> written n j <= n - n / 4 - j.
Proof. intros Hn. unfold written. Z.to_euclidean_division_equations; lia. Qed.

Lemma written_nonneg src N J :
  Forall is_byte src -> check_loop src 0 0 0 = Some (N, J) -> 0 <= written N J.
Proof.
  intros Hb Hc. destruct (decode_length src Hb 0 0 0 N J 0) as (H & _); [lia|lia|done|].
  change (written 0 0) with 0 in H. lia.
Qed.

(** ** Properties *)

(** [base64_decode] reads back what [base64_encode] wrote, for every
    non-empty byte string whose encoding fits [size_t] and destinations that
    are large enough; the encoding has four characters per started group of
    three bytes and is terminated. *)
Theorem base64_roundtrip l dlen dlen' :
  Forall is_byte l -> l <> [] -> Z.of_nat (length l) <= 2 ^ 31 ->
  4 * ((Z.of_nat (length l) + 2) / 3) + 1 <= dlen -> Z.of_nat (length l) <= dlen' ->
  exists out, base64_encode false dlen l = (0, 4 * ((Z.of_nat (length l) + 2) / 3), out ++ [0])
    /\ base64_decode false dlen' out = (0, Some (Z.of_nat (length l)), l).
Proof.
  intros Hb Hne Hlen Hd Hd'. exists (encode_loop l).
  assert (Hl : 0 < Z.of_nat (length l)) by (destruct l; [done|simpl; lia]).
  pose proof (encode_length l) as He. split.
  - unfold base64_encode. set (n := Z.of_nat (length l)) in *. replace (n =? 0) with false by lia.
    replace (n / 3 + (if n mod 3 =? 0 then 0 else 1)) with ((n + 2) / 3)
      by (destruct (n mod 3 =? 0) eqn:E; Z.to_euclidean_division_equations; lia).
    replace ((n + 2) / 3 >? _) with false
      by (change ((BASE64_SIZE_T_MAX - 1) / 4) with 1073741823; Z.to_euclidean_division_equations; lia).
    replace (dlen <? (n + 2) / 3 * 4 + 1) with false by lia. cbn [orb]. by rewrite He.
  - unfold base64_decode. rewrite check_encode by done. rewrite Z.add_0_l, He.
    set (n := Z.of_nat (length l)) in *.
    assert (Hp : 4 * ((n + 2) / 3) - 4 * ((n + 2) / 3) / 4 - pads l = n).
    { unfold pads. fold n. Z.to_euclidean_division_equations; lia. }
    replace (4 * ((n + 2) / 3) =? 0) with false by (Z.to_euclidean_division_equations; lia).
    rewrite decoded_size_eq; [|Z.to_euclidean_division_equations; lia|apply Z.mod_pos_bound; lia|lia].
    rewrite Hp. replace (dlen' <? n) with false by lia. cbn [orb]. by rewrite decode_encode.
Qed.

Lemma base64_roundtrip_witness :
  exists out, base64_encode false 9 [1; 2; 3; 255] = (0, 8, out ++ [0])
    /\ base64_decode false 4 out = (0, Some 4, [1; 2; 3; 255]).
Proof.
  apply (base64_roundtrip [1; 2; 3; 255] 9 4).
  - repeat constructor; unfold is_byte; lia.
  - discriminate.
  - vm_compute. discriminate.
  - vm_compute. discriminate.
  - vm_compute. discriminate.
Defined.

(** [base64_decode] of any input writes at most [dlen] bytes to the
    destination, whatever the input is; with a NULL destination it writes
    nothing. *)
Theorem base64_decode_bounds dst_null dlen src :
  Forall is_byte src -> Z.of_nat (length src) < 2 ^ 32 -> 0 <= dlen ->
  Z.of_nat (length (base64_decode dst_null dlen src).2) <= (if dst_null then 0 else dlen).
Proof.
  intros Hb Hl Hd. unfold base64_decode. destruct (check_loop src 0 0 0) as [[N J]|] eqn:E;
    [|simpl; by destruct dst_null].
  destruct (decode_length src Hb 0 0 0 N J 0) as (H & H1 & H2); [lia|lia|done|].
  change (written 0 0) with 0 in H. pose proof (written_bound N J ltac:(lia)).
  pose proof (written_nonneg src N J Hb E).
  destruct (N =? 0); [simpl; by destruct dst_null|].
  rewrite decoded_size_eq by lia. destruct dst_null; [simpl; lia|]. cbn [orb].
  destruct (dlen <? _) eqn:Ed; [simpl; lia|]. cbn [snd].
  change (3 - 0) with 3 in H. change (0 mod 4) with 0 in H. lia.
Qed.

Lemma base64_decode_bounds_witness :
  Z.of_nat (length (base64_decode false 2 [81; 81; 61; 61; 61]).2) <= 2.
Proof.
  apply (base64_decode_bounds false 2 [81; 81; 61; 61; 61]).
  - repeat constructor; unfold is_byte; lia.
  - reflexivity.
  - lia.
Defined.

End Base64.
