(* ===== verification/Smf.v ===== *)
(** The state machine framework (lib/smf/smf.c), with hierarchical states.

    The actions of the states are the client's code.  They are programs that
    change the client's object, look at it and at the context, and may call
    [smf_set_state] and [smf_set_terminate]; a transition from inside an
    action nests, and [fuel] bounds the nesting (a machine without bound on it
    has no bound on its stack).  The theorems show that the loops over
    parents do what the interface says: a transition leaves and enters the
    states between the current and the new one and their common ancestors, in
    the right order, and an iteration runs the actions from the current state
    outwards until one of them changes the state or terminates the machine. *)
From S2P Require Import Prelude.

Module Smf.

Definition sid : Type := nat.      (* const struct smf_state * *)
Bind Scope nat_scope with sid.

(** [struct smf_ctx] with the members of [struct internal_ctx]. *)
Record smf_ctx := mk_ctx {
  current : sid;
  previous : option sid;
  terminate_val : Z;               (* int32_t *)
  new_state : bool;
  terminate : bool;
  exit : bool
}.

#[export] Instance set_current : Settable current := fun f c =>
  mk_ctx (f (current c)) (previous c) (terminate_val c) (new_state c) (terminate c) (exit c).
#[export] Instance set_previous : Settable previous := fun f c =>
  mk_ctx (current c) (f (previous c)) (terminate_val c) (new_state c) (terminate c) (exit c).
#[export] Instance set_terminate_val : Settable terminate_val := fun f c =>
  mk_ctx (current c) (previous c) (f (terminate_val c)) (new_state c) (terminate c) (exit c).
#[export] Instance set_new_state : Settable new_state := fun f c =>
  mk_ctx (current c) (previous c) (terminate_val c) (f (new_state c)) (terminate c) (exit c).
#[export] Instance set_terminate : Settable terminate := fun f c =>
  mk_ctx (current c) (previous c) (terminate_val c) (new_state c) (f (terminate c)) (exit c).
#[export] Instance set_exit : Settable exit := fun f c =>
  mk_ctx (current c) (previous c) (terminate_val c) (new_state c) (terminate c) (f (exit c)).

(** The code of an action, on a client object of type [U]. *)
Inductive action (U : Type) :=
  | Skip
  | Do (f : U -> U) (rest : action U)
  | Ask (f : smf_ctx -> U -> action U)
  | Set_state (target : sid) (rest : action U)
  | Set_terminate (val : Z) (rest : action U).
Arguments Skip {U}.
Arguments Do {U} f rest.
Arguments Ask {U} f.
Arguments Set_state {U} target rest.
Arguments Set_terminate {U} val rest.

Record smf_state (U : Type) := mk_state {
  entry : option (action U);
  run : option (action U);
  exit_ : option (action U);
  parent : option sid
}.
Arguments mk_state {U} entry run exit_ parent.
Arguments entry {U} _.
Arguments run {U} _.
Arguments exit_ {U} _.
Arguments parent {U} _.

Section Code.
Context {U : Type} (states : sid -> smf_state U) (depth : nat).
(** CONFIG_SMF_ANCESTOR_SUPPORT *)
Context (ancestor_support : bool).

Definition state : Type := smf_ctx * U.

(** The loops along [parent] take [depth], the largest nesting of states, as
    fuel. *)
Fixpoint share_loop (n : nat) (s : option sid) (target_state : sid) : bool :=
  match n, s with
  | S n', Some st => if decide (target_state = st) then true else share_loop n' (parent (states st)) target_state
  | _, _ => false
  end.
Definition share_paren (test_state : option sid) (target_state : sid) : bool :=
  share_loop depth test_state target_state.

Definition last_state_share_paren (c : smf_ctx) (s : sid) : bool :=
  match previous c with
  | None => false
  | Some p => share_paren (parent (states p)) s
  end.

Fixpoint child_loop (n : nat) (tmp : sid) (par : option sid) : option sid :=
  match n with
  | O => None
  | S n' =>
      if decide (parent (states tmp) = par) then Some tmp
      else match parent (states tmp) with
           | None => None
           | Some t => child_loop n' t par
           end
  end.
Definition get_child_of (s : sid) (par : option sid) : option sid := child_loop depth s par.

Definition get_last_of (s : sid) : option sid := get_child_of s None.

(** Running an action, given what a call of [smf_set_state] does.  [None] is
    a stack that outgrew the fuel. *)
Fixpoint exec (set_state : sid -> state -> option state) (a : action U) (s : state) : option state :=
  match a with
  | Skip => Some s
  | Do f rest => exec set_state rest (s.1, f s.2)
  | Ask f => exec set_state (f s.1 s.2) s
  | Set_state target rest =>
      match set_state target s with
      | Some s' => exec set_state rest s'
      | None => None
      end
  | Set_terminate val rest =>
      exec set_state rest (s.1 <| terminate := true |> <| terminate_val := val |>, s.2)
  end.

Definition exec_opt (set_state : sid -> state -> option state) (a : option (action U)) (s : state) : option state :=
  match a with
  | Some a => exec set_state a s
  | None => Some s
  end.

Section Actions.
Context (set_state : sid -> state -> option state).

(** The loop of [smf_execute_ancestor_entry_actions].  The result says whether
    the machine should terminate. *)
Fixpoint entry_loop (n : nat) (to_execute : option sid) (target : sid) (s : state) : option (bool * state) :=
  match n, to_execute with
  | S n', Some t =>
      if decide (t = target) then Some (false, s)
      else
        let next s' := entry_loop n' (get_child_of target (Some t)) target s' in
        match last_state_share_paren s.1 t, entry (states t) with
        | false, Some a =>
            match exec set_state a s with
            | None => None
            | Some s' => if terminate s'.1 then Some (true, s') else next s'
            end
        | _, _ => next s
        end
  | _, _ => Some (false, s)
  end.

Definition smf_execute_ancestor_entry_actions (target : sid) (s : state) : option (bool * state) :=
  entry_loop (S depth) (get_last_of target) target s.

(** The loop of [smf_execute_ancestor_exit_actions]. *)
Fixpoint exit_loop (n : nat) (tmp_state : option sid) (target : sid) (s : state) : option (bool * state) :=
  match n, tmp_state with
  | S n', Some t =>
      let next s' := exit_loop n' (parent (states t)) target s' in
      match share_paren (parent (states target)) t, exit_ (states t) with
      | false, Some a =>
          match exec set_state a s with
          | None => None
          | Some s' => if terminate s'.1 then Some (true, s') else next s'
          end
      | _, _ => next s
      end
  | _, _ => Some (false, s)
  end.

Definition smf_execute_ancestor_exit_actions (target : sid) (s : state) : option (bool * state) :=
  exit_loop depth (parent (states (current s.1))) target s.

(** The loop of [smf_execute_ancestor_run_actions]. *)
Fixpoint run_loop (n : nat) (tmp_state : option sid) (s : state) : option (bool * state) :=
  match n, tmp_state with
  | S n', Some t =>
      match run (states t) with
      | Some a =>
          match exec set_state a s with
          | None => None
          | Some s' =>
              if terminate s'.1 then Some (true, s')
              else if new_state s'.1 then Some (false, (s'.1 <| new_state := false |>, s'.2))
              else run_loop n' (parent (states t)) s'
          end
      | None => run_loop n' (parent (states t)) s
      end
  | _, _ => Some (false, (s.1 <| new_state := false |>, s.2))
  end.

Definition smf_execute_ancestor_run_actions (s : state) : option (bool * state) :=
  if new_state s.1 then Some (false, (s.1 <| new_state := false |>, s.2))
  else if terminate s.1 then Some (true, s)
  else run_loop depth (parent (states (current s.1))) s.

(** The body of [smf_set_state]. *)
Definition set_state_body (target : sid) (s : state) : option state :=
  if exit s.1 then Some s
  else
    let s1 := (s.1 <| exit := true |>, s.2) in
    match exec_opt set_state (exit_ (states (current s1.1))) s1 with
    | None => None
    | Some s2 =>
        (* the test follows the call of an exit action *)
        if (match exit_ (states (current s1.1)) with Some _ => true | None => false end) && terminate s2.1 then Some s2
        else
          match (if ancestor_support
                 then smf_execute_ancestor_exit_actions target (s2.1 <| new_state := true |>, s2.2)
                 else Some (false, s2)) with
          | None => None
          | Some (true, s3) => Some s3
          | Some (false, s3) =>
              let s4 := (s3.1 <| exit := false |> <| previous := Some (current s3.1) |> <| current := target |>, s3.2) in
              match (if ancestor_support then smf_execute_ancestor_entry_actions target s4 else Some (false, s4)) with
              | None => None
              | Some (true, s5) => Some s5
              | Some (false, s5) => exec_opt set_state (entry (states (current s5.1))) s5
              end
          end
    end.

End Actions.

Fixpoint smf_set_state (fuel : nat) (target : sid) (s : state) : option state :=
  match fuel with
  | O => None
  | S fuel' => set_state_body (smf_set_state fuel') target s
  end.

Definition smf_set_initial (fuel : nat) (init_state : sid) (s : state) : option state :=
  let c := s.1 <| exit := false |> <| terminate := false |> <| current := init_state |>
             <| previous := None |> <| terminate_val := 0 |> in
  match (if ancestor_support
         then smf_execute_ancestor_entry_actions (smf_set_state fuel) init_state (c <| new_state := false |>, s.2)
         else Some (false, (c, s.2))) with
  | None => None
  | Some (true, s1) => Some s1
  | Some (false, s1) => exec_opt (smf_set_state fuel) (entry (states init_state)) s1
  end.

Definition smf_set_terminate (val : Z) (s : state) : state :=
  (s.1 <| terminate := true |> <| terminate_val := val |>, s.2).

Definition smf_run_state (fuel : nat) (s : state) : option (Z * state) :=
  if terminate s.1 then Some (terminate_val s.1, s)
  else
    match exec_opt (smf_set_state fuel) (run (states (current s.1))) s with
    | None => None
    | Some s1 =>
        if ancestor_support then
          match smf_execute_ancestor_run_actions (smf_set_state fuel) s1 with
          | None => None
          | Some (true, s2) => Some (terminate_val s2.1, s2)
          | Some (false, s2) => Some (0, s2)
          end
        else Some (0, s1)
    end.

End Code.

(** ** The ancestors of a state *)

Section Paths.
Context {U : Type} (states : sid -> smf_state U) (depth : nat).

(** [path o l]: the states from [o] along [parent] are [l]. *)
Inductive path : option sid -> list sid -> Prop :=
  | path_nil : path None []
  | path_cons s l : path (parent (states s)) l -> path (Some s) (s :: l).

(** Parents form a forest of at most [depth] levels. *)
Definition shallow : Prop := forall s, exists l, path (Some s) l /\ (length l <= depth)%nat.

Lemma path_det o l l' : path o l -> path o l' -> l = l'.
Proof. intros H. revert l'. induction H as [|s l H IH]; inversion 1; [done|]. f_equal. auto. Qed.

Lemma path_suffix o l1 s l2 : path o (l1 ++ s :: l2) -> path (Some s) (s :: l2) /\ path (parent (states s)) l2.
Proof.
  revert o. induction l1 as [|x l1 IH]; cbn; intros o H; inversion H; subst; [|by eapply IH]. by split; [constructor|].
Qed.

Lemma path_nodup o l : path o l -> NoDup l.
Proof.
  induction 1 as [|s l H IH]; constructor; [|done]. intros Hin. apply list_elem_of_split in Hin as (l1 & l2 & ->).
  destruct (path_suffix _ _ _ _ H) as [H1 _].
  pose proof (path_det _ _ _ H1 (path_cons _ _ H)) as E. apply (f_equal length) in E.
  cbn in E. rewrite length_app in E. cbn in E. lia.
Qed.

Lemma share_loop_spec n o l t :
  path o l -> (length l <= n)%nat -> share_loop states n o t = bool_decide (t ∈ l).
Proof.
  intros H. revert n. induction H as [|s l H IH]; intros n Hn.
  - destruct n; cbn; by rewrite bool_decide_eq_false_2 by apply not_elem_of_nil.
  - destruct n as [|n]; [cbn in Hn; lia|]. cbn [share_loop]. destruct (decide (t = s)) as [->|Ht].
    + rewrite bool_decide_eq_true_2 by left. done.
    + rewrite IH by (cbn in Hn; lia). apply bool_decide_ext. rewrite elem_of_cons. tauto.
Qed.

(** The outermost ancestor. *)
Lemma child_loop_last n s l t :
  path (Some s) (l ++ [t]) -> (length l < n)%nat -> child_loop states n s None = Some t.
Proof.
  revert s n. induction l as [|x l IH]; intros s [|n] H Hn; try (cbn in Hn; lia).
  - cbn in H. inversion H as [|? ? H' E]; subst. inversion H' as [E|]; subst. cbn. by rewrite <-E, decide_True.
  - cbn in H. inversion H as [|? ? H' E]; subst. cbn [child_loop]. destruct (parent (states x)) as [p|] eqn:Ep.
    + rewrite decide_False by done. apply IH; [done|cbn in Hn; lia].
    + inversion H'. destruct l; discriminate.
Qed.

(** The child on the way to [t]. *)
Lemma child_loop_next n s l c t r :
  path (Some s) (l ++ c :: t :: r) -> (length l < n)%nat -> child_loop states n s (Some t) = Some c.
Proof.
  revert s n. induction l as [|x l IH]; intros s [|n] H Hn; try (cbn in Hn; lia).
  - cbn in H. inversion H as [|? ? H' E]; subst. inversion H' as [|? ? H'' E' E2]; subst. cbn. by rewrite decide_True.
  - cbn in H. pose proof (path_nodup _ _ H) as Hnd. inversion H as [|? ? H' E]; subst. cbn [child_loop].
    destruct (parent (states x)) as [p|] eqn:Ep; [|inversion H'; destruct l; discriminate].
    rewrite decide_False; [apply IH; [done|cbn in Hn; lia]|]. intros [= ->].
    apply NoDup_cons in Hnd as [_ Hnd]. assert (E : exists l', l ++ c :: t :: r = t :: l') by (inversion H'; subst; eauto).
    destruct E as [l' E]. destruct l as [|y l]; cbn in *; simplify_eq; apply NoDup_cons in Hnd as [Hni _]; apply Hni.
    + left.
    + apply elem_of_app. right. right. left.
Qed.

End Paths.

(** ** Actions without transitions *)

Section Effects.
Context {U : Type}.

(** The action does not call [smf_set_state]. *)
Fixpoint no_transition (a : action U) : Prop :=
  match a with
  | Skip => True
  | Do _ rest | Set_terminate _ rest => no_transition rest
  | Ask f => forall c u, no_transition (f c u)
  | Set_state _ _ => False
  end.

(** What such an action does. *)
Fixpoint effect (a : action U) (s : smf_ctx * U) : smf_ctx * U :=
  match a with
  | Skip => s
  | Do f rest => effect rest (s.1, f s.2)
  | Ask f => effect (f s.1 s.2) s
  | Set_state _ rest => effect rest s
  | Set_terminate val rest => effect rest (smf_set_terminate val s)
  end.

Lemma exec_effect ss a (s : smf_ctx * U) : no_transition a -> exec ss a s = Some (effect a s).
Proof. revert s. induction a as [|f r IH|f IH|t r IH|v r IH]; cbn; intros s H; auto. done. Qed.

(** The parts of the context that only a transition changes. *)
Record same_place (c c' : smf_ctx) : Prop := {
  sp_current : current c' = current c;
  sp_previous : previous c' = previous c;
  sp_new : new_state c' = new_state c;
  sp_exit : exit c' = exit c
}.

Lemma effect_place a (s : smf_ctx * U) : same_place s.1 (effect a s).1.
Proof.
  revert s. induction a as [|f r IH|f IH|t r IH|v r IH]; cbn; intros s; auto; [done|apply (IH (s.1, f s.2))|].
  destruct (IH (smf_set_terminate v s)). by split.
Qed.

(** Run actions in order, until one of them terminates the machine. *)
Fixpoint run_until (l : list (action U)) (s : smf_ctx * U) : bool * (smf_ctx * U) :=
  match l with
  | [] => (false, s)
  | a :: r => if terminate (effect a s).1 then (true, effect a s) else run_until r (effect a s)
  end.

Lemma run_until_place l s : same_place s.1 (run_until l s).2.1.
Proof.
  revert s. induction l as [|a r IH]; intros s; cbn; [done|]. pose proof (effect_place a s) as [].
  case_match; cbn; [by split|]. destruct (IH (effect a s)). split; congruence.
Qed.

Lemma run_until_live l s : terminate s.1 = false -> (run_until l s).1 = terminate (run_until l s).2.1.
Proof. revert s. induction l as [|a r IH]; intros s Hs; cbn; [done|]. case_match; cbn; auto. Qed.

End Effects.

(** ** Transitions *)

Section Transition.
Context {U : Type} (states : sid -> smf_state U) (depth : nat).

Fixpoint chain (n : nat) (o : option sid) : list sid :=
  match n, o with
  | S n', Some s => s :: chain n' (parent (states s))
  | _, _ => []
  end.

(** The parent of [s], its parent, and so on. *)
Definition ancestors (s : sid) : list sid := chain depth (parent (states s)).

Definition actions (f : smf_state U -> option (action U)) (l : list sid) : list (action U) :=
  omap (fun s => f (states s)) l.

(** The ancestors of [from] that are not above [to], innermost first. *)
Definition outside (from to : sid) : list sid := filter (fun s => s ∉ ancestors to) (ancestors from).

(** The reference: leave the current state, then its ancestors up to the
    common ones, from the inside out; enter the ancestors of the target below
    the common ones, from the outside in, and the target. *)
Definition transition (target : sid) (s : smf_ctx * U) : smf_ctx * U :=
  let cur := current s.1 in
  match run_until (actions exit_ [cur]) (s.1 <| exit := true |>, s.2) with
  | (true, s1) => s1
  | (false, s1) =>
      match run_until (actions exit_ (outside cur target)) (s1.1 <| new_state := true |>, s1.2) with
      | (true, s2) => s2
      | (false, s2) =>
          (run_until (actions entry (reverse (outside target cur) ++ [target]))
             (s2.1 <| exit := false |> <| previous := Some cur |> <| current := target |>, s2.2)).2
      end
  end.

Context (Hshallow : shallow states depth).
Context (Hentry : forall s a, entry (states s) = Some a -> no_transition a).
Context (Hexit : forall s a, exit_ (states s) = Some a -> no_transition a).
Context (ss : sid -> smf_ctx * U -> option (smf_ctx * U)).

Lemma chain_path n o l : path states o l -> (length l <= n)%nat -> chain n o = l.
Proof.
  intros H. revert n. induction H as [|s l H IH]; intros [|n] Hn; cbn; try done; [cbn in Hn; lia|].
  f_equal. apply IH. cbn in Hn. lia.
Qed.

Lemma ancestors_path s : path states (Some s) (s :: ancestors s) /\ (S (length (ancestors s)) <= depth)%nat.
Proof.
  destruct (Hshallow s) as (l & H & Hl). inversion H as [|? l' H']; subst. cbn in Hl.
  unfold ancestors. rewrite (chain_path _ _ l' H') by lia. done.
Qed.

Lemma parent_path s : path states (parent (states s)) (ancestors s).
Proof. destruct (ancestors_path s) as [H _]. by inversion H. Qed.

Lemma share_paren_spec s t : share_paren states depth (parent (states s)) t = bool_decide (t ∈ ancestors s).
Proof. apply share_loop_spec; [apply parent_path|]. destruct (ancestors_path s) as [_ H]. lia. Qed.

Lemma actions_cons f t l :
  actions f (t :: l) = match f (states t) with Some a => a :: actions f l | None => actions f l end.
Proof. unfold actions. cbn. by destruct (f (states t)). Qed.

Lemma exit_loop_spec n o l target s :
  path states o l -> (length l <= n)%nat ->
  exit_loop states depth ss n o target s
  = Some (run_until (actions exit_ (filter (fun t => t ∉ ancestors target) l)) s).
Proof.
  intros H. revert n s. induction H as [|t l H IH]; intros n s Hn; [by destruct n|].
  destruct n as [|n]; [cbn in Hn; lia|]. cbn [exit_loop]. rewrite share_paren_spec, filter_cons.
  destruct (decide (t ∈ ancestors target)) as [Ht|Ht].
  - rewrite bool_decide_eq_true_2, decide_False by tauto. apply IH. cbn in Hn. lia.
  - rewrite bool_decide_eq_false_2, decide_True, actions_cons by done.
    destruct (exit_ (states t)) as [a|] eqn:Ea; [|apply IH; cbn in Hn; lia].
    rewrite exec_effect by (by eapply Hexit). cbn. case_match; [done|]. apply IH. cbn in Hn. lia.
Qed.

(** The ancestors of the previous state. *)
Definition before (c : smf_ctx) : list sid :=
  match previous c with Some p => ancestors p | None => [] end.

Lemma last_share_spec c t : last_state_share_paren states depth c t = bool_decide (t ∈ before c).
Proof.
  unfold last_state_share_paren, before. destruct (previous c) as [p|]; [apply share_paren_spec|].
  by rewrite bool_decide_eq_false_2 by apply not_elem_of_nil.
Qed.

Lemma entry_loop_spec pre t suf target n s :
  path states (Some target) (pre ++ t :: suf) -> (length pre < n)%nat -> (length (pre ++ t :: suf) <= depth)%nat ->
  entry_loop states depth ss n (Some t) target s
  = Some (run_until (actions entry (filter (fun x => x ∉ before s.1) (reverse (tail (pre ++ [t]))))) s).
Proof.
  revert t suf n s. induction pre as [|c pre IH] using rev_ind; intros t suf n s H Hn Hd.
  - destruct n as [|n]; [lia|]. cbn in *. inversion H; subst. by rewrite decide_True.
  - destruct n as [|n]; [lia|]. cbn [entry_loop].
    assert (Hne : t <> target).
    { intros ->. pose proof (path_nodup _ _ _ H) as Hnd. rewrite <-app_assoc in *. inversion H as [|? ? _ E].
      destruct pre as [|x pre]; cbn in *; simplify_eq; apply NoDup_cons in Hnd as [Hni _]; apply Hni; [left|].
      apply elem_of_app. right. right. left. }
    rewrite decide_False by done.
    assert (Ec : get_child_of states depth target (Some t) = Some c).
    { apply (child_loop_next states depth target pre c t suf); [by rewrite <-app_assoc in H|]. rewrite !length_app in Hd. cbn in Hd. lia. }
    rewrite Ec, last_share_spec.
    assert (Etl : reverse (tail ((pre ++ [c]) ++ [t])) = t :: reverse (tail (pre ++ [c]))).
    { replace (tail ((pre ++ [c]) ++ [t])) with (tail (pre ++ [c]) ++ [t]) by (by destruct pre). by rewrite reverse_app. }
    rewrite Etl, filter_cons.
    assert (Hnext : forall s', before s'.1 = before s.1 -> entry_loop states depth ss n (Some c) target s'
      = Some (run_until (actions entry (filter (fun x => x ∉ before s.1) (reverse (tail (pre ++ [c]))))) s')).
    { intros s' <-. apply (IH c (t :: suf)); rewrite <-?app_assoc in *; try done. rewrite length_app in Hn. cbn in Hn. lia. }
    destruct (decide (t ∈ before s.1)) as [Ht|Ht].
    + rewrite bool_decide_eq_true_2, decide_False by tauto. by apply Hnext.
    + rewrite bool_decide_eq_false_2, decide_True, actions_cons by done.
      destruct (entry (states t)) as [a|] eqn:Ea; [|by apply Hnext].
      rewrite exec_effect by (by eapply Hentry). cbn. case_match; [done|]. apply Hnext.
      unfold before. by rewrite (sp_previous _ _ (effect_place a s)).
Qed.

Lemma entry_actions_spec target s :
  smf_execute_ancestor_entry_actions states depth ss target s
  = Some (run_until (actions entry (reverse (filter (fun x => x ∉ before s.1) (ancestors target)))) s).
Proof.
  destruct (ancestors_path target) as [H Hd]. unfold smf_execute_ancestor_entry_actions, get_last_of, get_child_of.
  set (anc := ancestors target) in *. clearbody anc. destruct (decide (anc = [])) as [->|Hne].
  - rewrite (child_loop_last states depth target [] target); [|done|cbn in *; lia].
    rewrite (entry_loop_spec [] target []); [done|done|cbn; lia|cbn in *; lia].
  - destruct (exists_last Hne) as (l & t & ->). rewrite (child_loop_last states depth target (target :: l) t);
      [|done|cbn in *; rewrite length_app in Hd; cbn in Hd; lia].
    rewrite (entry_loop_spec (target :: l) t []); [|done|cbn in *; rewrite length_app in Hd; cbn in Hd; lia|cbn in *; lia].
    cbn [app tail]. by rewrite filter_reverse.
Qed.

Lemma run_until_app l1 l2 s :
  run_until (l1 ++ l2) s
  = match run_until (U:=U) l1 s with (true, s') => (true, s') | (false, s') => run_until l2 s' end.
Proof. revert s. induction l1 as [|a r IH]; intros s; cbn; [done|]. by case_match. Qed.

Lemma actions_app f l1 l2 : actions f (l1 ++ l2) = actions f l1 ++ actions f l2.
Proof. apply omap_app. Qed.

Lemma exec_opt_until f t s :
  (forall a, f (states t) = Some a -> no_transition a) ->
  exec_opt ss (f (states t)) s = Some (run_until (actions f [t]) s).2.
Proof.
  intros Hf. rewrite actions_cons. destruct (f (states t)) as [a|] eqn:E; [|done]. cbn.
  rewrite exec_effect by auto. by case_match.
Qed.

Lemma set_state_transition target s :
  exit s.1 = false -> terminate s.1 = false ->
  set_state_body states depth true ss target s = Some (transition target s).
Proof.
  intros He Ht. unfold set_state_body, transition. rewrite He. cbv zeta.
  set (s1 := (s.1 <| exit := true |>, s.2)). change (current s.1) with (current s1.1).
  assert (Ht1 : terminate s1.1 = false) by done.
  rewrite exec_opt_until by apply Hexit.
  pose proof (run_until_live (actions exit_ [current s1.1]) s1 Ht1) as Hlive.
  pose proof (run_until_place (actions exit_ [current s1.1]) s1) as [P1 P2 P3 P4].
  assert (Htest : (match exit_ (states (current s1.1)) with Some _ => true | None => false end)
    && terminate (run_until (actions exit_ [current s1.1]) s1).2.1 = (run_until (actions exit_ [current s1.1]) s1).1).
  { rewrite Hlive. rewrite actions_cons. destruct (exit_ (states (current s1.1))); cbn; [by case_match|by rewrite Ht]. }
  rewrite Htest. destruct (run_until (actions exit_ [current s1.1]) s1) as [[|] s2]; cbn [fst snd] in *; [done|].
  unfold smf_execute_ancestor_exit_actions.
  change (current (s2.1 <| new_state := true |>, s2.2).1) with (current s2.1). rewrite P1.
  destruct (ancestors_path (current s1.1)) as [_ Hd].
  rewrite (exit_loop_spec depth _ _ target _ (parent_path (current s1.1))) by lia. fold (outside (current s1.1) target).
  pose proof (run_until_place (actions exit_ (outside (current s1.1) target)) (s2.1 <| new_state := true |>, s2.2)) as [Q1 Q2 Q3 Q4].
  destruct (run_until (actions exit_ (outside (current s1.1) target)) (s2.1 <| new_state := true |>, s2.2)) as [[|] s3];
    cbn [fst snd] in *; [done|].
  cbn in Q1. rewrite Q1, P1. rewrite entry_actions_spec. unfold before. cbn [fst previous upd set_exit set_previous set_current].
  fold (outside target (current s1.1)). rewrite actions_app, run_until_app.
  set (s4 := (s3.1 <| exit := false |> <| previous := Some (current s1.1) |> <| current := target |>, s3.2)).
  pose proof (run_until_place (actions entry (reverse (outside target (current s1.1)))) s4) as [R1 _ _ _].
  destruct (run_until (actions entry (reverse (outside target (current s1.1)))) s4) as [[|] s5]; cbn [fst snd] in *; [done|].
  rewrite R1. change (current s4.1) with target. apply exec_opt_until, Hentry.
Qed.

End Transition.

(** ** Iterations *)

Section Iteration.
Context {U : Type} (states : sid -> smf_state U) (depth : nat).

(** The current state does not change without the mark of a transition. *)
Record stays (s s' : smf_ctx * U) : Prop := {
  st_mark : new_state s.1 = true -> new_state s'.1 = true;
  st_current : new_state s'.1 = false -> current s'.1 = current s.1
}.

Lemma stays_refl s : stays s s.
Proof. done. Qed.

Lemma stays_trans a b c : stays a b -> stays b c -> stays a c.
Proof.
  intros [A1 A2] [B1 B2]. split; [auto|]. intros H. destruct (new_state b.1) eqn:E; [by rewrite B1 in H|].
  rewrite B2 by done. auto.
Qed.

Lemma stays_marked s s' : new_state s'.1 = true -> stays s s'.
Proof. intros H. split; [done|]. by rewrite H. Qed.

Section Step.
Context (ss : sid -> smf_ctx * U -> option (smf_ctx * U)).
Context (Hss : forall t s s', ss t s = Some s' -> stays s s').

Lemma exec_stays a s s' : exec ss a s = Some s' -> stays s s'.
Proof.
  revert s. induction a as [|f r IH|f IH|t r IH|v r IH]; cbn; intros s H.
  - by simplify_eq.
  - apply IH in H. by destruct H.
  - by eapply IH.
  - destruct (ss t s) as [s1|] eqn:E; [|done]. eapply stays_trans; [by eapply Hss|by apply IH].
  - apply IH in H. by destruct H.
Qed.

Lemma exec_opt_stays a s s' : exec_opt ss a s = Some s' -> stays s s'.
Proof. destruct a; cbn; [apply exec_stays|by intros [= ->]]. Qed.

Lemma exit_loop_stays n o target s b s' : exit_loop states depth ss n o target s = Some (b, s') -> stays s s'.
Proof.
  revert o s. induction n as [|n IH]; intros o s H; cbn in H; [by simplify_eq|].
  destruct o as [t|]; [|by simplify_eq].
  destruct (share_paren states depth (parent (states target)) t); [by eapply IH|].
  destruct (exit_ (states t)) as [a|]; [|by eapply IH]. destruct (exec ss a s) as [s1|] eqn:E; [|done].
  apply exec_stays in E. destruct (terminate s1.1); [by simplify_eq|]. eapply stays_trans; [done|by eapply IH].
Qed.

Lemma entry_loop_stays n o target s b s' : entry_loop states depth ss n o target s = Some (b, s') -> stays s s'.
Proof.
  revert o s. induction n as [|n IH]; intros o s H; cbn in H; [by simplify_eq|].
  destruct o as [t|]; [|by simplify_eq]. case_decide; [by simplify_eq|].
  destruct (last_state_share_paren states depth s.1 t); [by eapply IH|].
  destruct (entry (states t)) as [a|]; [|by eapply IH]. destruct (exec ss a s) as [s1|] eqn:E; [|done].
  apply exec_stays in E. destruct (terminate s1.1); [by simplify_eq|]. eapply stays_trans; [done|by eapply IH].
Qed.

Lemma set_state_body_stays target s s' : set_state_body states depth true ss target s = Some s' -> stays s s'.
Proof.
  unfold set_state_body. destruct (exit s.1); [by intros [= ->]|]. cbv zeta.
  destruct (exec_opt ss _ _) as [s2|] eqn:E2; [|done]. apply exec_opt_stays in E2.
  assert (H2 : stays s s2) by (by destruct E2). case_match; [by intros [= ->]|].
  unfold smf_execute_ancestor_exit_actions, smf_execute_ancestor_entry_actions.
  destruct (exit_loop states depth ss depth _ target _) as [[b s3]|] eqn:E3; [|done].
  apply exit_loop_stays in E3. pose proof (st_mark _ _ E3 eq_refl) as M3.
  destruct b; [intros [= ->]; by apply stays_marked|].
  match goal with |- context [entry_loop states depth ss (S depth) ?o target ?x] =>
    destruct (entry_loop states depth ss (S depth) o target x) as [[b s5]|] eqn:E5 end; [|done].
  apply entry_loop_stays in E5. pose proof (st_mark _ _ E5 M3) as M5.
  destruct b; [intros [= ->]; by apply stays_marked|]. intros E. apply exec_opt_stays in E.
  apply stays_marked. by apply (st_mark _ _ E).
Qed.

End Step.

Lemma set_state_stays fuel t s s' : smf_set_state states depth true fuel t s = Some s' -> stays s s'.
Proof.
  revert t s s'. induction fuel as [|fuel IH]; intros t s s' H; [done|]. by eapply set_state_body_stays; [apply IH|].
Qed.

(** The run actions of the states [l] in order, up to the first one that
    changes the state or terminates the machine. *)
Fixpoint run_states (fuel : nat) (l : list sid) (s : smf_ctx * U) : option (smf_ctx * U) :=
  match l with
  | [] => Some s
  | t :: r =>
      match exec_opt (smf_set_state states depth true fuel) (run (states t)) s with
      | None => None
      | Some s' => if terminate s'.1 || new_state s'.1 then Some s' else run_states fuel r s'
      end
  end.

(** The end of an iteration: the mark is cleared, and a terminated machine
    returns its value, unless the action of the current state left that state
    at the same time. *)
Definition iteration_ends (s1 : smf_ctx * U) (r : Z) (s' : smf_ctx * U) : Prop :=
  s'.2 = s1.2 /\ current s'.1 = current s1.1 /\ terminate s'.1 = terminate s1.1
  /\ (terminate s1.1 = false -> new_state s'.1 = false /\ r = 0)
  /\ (new_state s1.1 = false -> r = if terminate s1.1 then terminate_val s1.1 else 0).

Lemma ends_clear s : terminate s.1 = false -> iteration_ends s 0 (s.1 <| new_state := false |>, s.2).
Proof. intros H. unfold iteration_ends. rewrite H. by split_and!. Qed.

Lemma run_loop_spec fuel n o l s :
  path states o l -> (length l <= n)%nat -> terminate s.1 = false -> new_state s.1 = false ->
  match run_loop states (smf_set_state states depth true fuel) n o s with
  | None => run_states fuel l s = None
  | Some (b, s') => exists s1, run_states fuel l s = Some s1
                     /\ iteration_ends s1 (if b then terminate_val s'.1 else 0) s'
  end.
Proof.
  intros H. revert n s. induction H as [|t l H IH]; intros n s Hn Ht Hs.
  - assert (E : run_loop states (smf_set_state states depth true fuel) n None s = Some (false, (s.1 <| new_state := false |>, s.2)))
      by (by destruct n). rewrite E. exists s. split; [done|]. by apply ends_clear.
  - destruct n as [|n]; [cbn in Hn; lia|]. cbn [run_loop run_states].
    destruct (run (states t)) as [a|]; cbn [exec_opt].
    + destruct (exec _ a s) as [s1|] eqn:E; [|done]. destruct (terminate s1.1) eqn:Et; cbn [orb].
      * exists s1. split; [done|]. unfold iteration_ends. rewrite Et. by split_and!.
      * destruct (new_state s1.1) eqn:En; [|apply IH; [cbn in Hn; lia|done|done]].
        exists s1. split; [done|]. by apply ends_clear.
    + rewrite Ht, Hs. cbn [orb]. apply IH; [cbn in Hn; lia|done|done].
Qed.

Lemma run_state_spec fuel s :
  shallow states depth -> terminate s.1 = false -> new_state s.1 = false ->
  match smf_run_state states depth true fuel s with
  | None => run_states fuel (current s.1 :: ancestors states depth (current s.1)) s = None
  | Some (r, s') => exists s1,
      run_states fuel (current s.1 :: ancestors states depth (current s.1)) s = Some s1 /\ iteration_ends s1 r s'
  end.
Proof.
  intros Hsh Ht Hn. unfold smf_run_state. rewrite Ht. cbn [run_states].
  destruct (exec_opt _ (run (states (current s.1))) s) as [s1|] eqn:E; [|done].
  apply exec_opt_stays in E; [|apply set_state_stays].
  unfold smf_execute_ancestor_run_actions. destruct (new_state s1.1) eqn:En.
  - rewrite orb_true_r. exists s1. split; [done|]. unfold iteration_ends. cbn. split_and!; try done. congruence.
  - rewrite orb_false_r. destruct (terminate s1.1) eqn:Et.
    + exists s1. split; [done|]. unfold iteration_ends. rewrite Et. by split_and!.
    + rewrite (st_current _ _ E En).
      destruct (ancestors_path states depth Hsh (current s.1)) as [_ Hd].
      pose proof (run_loop_spec fuel depth _ _ s1 (parent_path states depth Hsh (current s.1)) ltac:(lia) Et En) as HR.
      destruct (run_loop states _ depth _ s1) as [[[|] s']|]; exact HR.
Qed.

End Iteration.

(** ** Examples *)

(** An action that writes to a log. *)
Definition log (n : nat) (rest : action (list nat)) : option (action (list nat)) := Some (Do (fun l => l ++ [n]) rest).

(** State 0 is the parent of 1 and 2; state 3 stands alone. *)
Definition demo_states (s : sid) : smf_state (list nat) :=
  match s with
  | 0 => mk_state (log 1 Skip) (log 2 Skip) (log 3 Skip) None
  | 1 => mk_state (log 11 Skip) (log 12 Skip) (log 13 Skip) (Some 0)
  | 2 => mk_state (log 21 Skip) (log 22 Skip) (log 23 Skip) (Some 0)
  | _ => mk_state (log 31 Skip) (log 32 Skip) (log 33 Skip) None
  end%nat.

Definition ctx_in (s : sid) : smf_ctx := mk_ctx s None 0 false false false.

Lemma demo_shallow : shallow demo_states 2.
Proof.
  intros s. destruct s as [|[|[|s]]]; (eexists; split; [repeat constructor|cbn; lia]).
Qed.

(** As before, but entering the parent 0 leads on to state 3. *)
Definition redirecting_states (s : sid) : smf_state (list nat) :=
  match s with
  | 0 => mk_state (log 1 (Set_state 3 Skip)) None None None
  | _ => demo_states s
  end%nat.

(** As before, but entering state 3 leads on to state 1. *)
Definition leading_states (s : sid) : smf_state (list nat) :=
  match s with
  | 3 => mk_state (log 31 (Set_state 1 Skip)) None None None
  | _ => demo_states s
  end%nat.

(** ** Properties *)

(** C13: A transition whose entry and exit actions do not themselves call
    [smf_set_state] leaves the current state, then its ancestors up to the
    ones it shares with the target, innermost first, then enters the ancestors
    of the target below the shared ones, outermost first, and the target;
    after the first action that terminates the machine nothing more is run. *)
Theorem smf_set_state_transition {U} (states : sid -> smf_state U) depth fuel target s :
  shallow states depth ->
  (forall st a, entry (states st) = Some a -> no_transition a) ->
  (forall st a, exit_ (states st) = Some a -> no_transition a) ->
  exit s.1 = false -> terminate s.1 = false ->
  smf_set_state states depth true (S fuel) target s = Some (transition states depth target s).
Proof. intros Hsh He Hx H1 H2. by apply set_state_transition. Qed.

Lemma smf_set_state_transition_witness :
  smf_set_state demo_states 2 true 1 2 (ctx_in 1, []) = Some (transition demo_states 2 2 (ctx_in 1, []))
  /\ (transition demo_states 2 2 (ctx_in 1, [])).2 = [13; 21]%nat
  /\ (transition demo_states 2 2 (ctx_in 3, [])).2 = [33; 1; 21]%nat.
Proof.
  split; [|split; vm_compute; reflexivity].
  apply (smf_set_state_transition demo_states 2 0 2 (ctx_in 1, [])); [apply demo_shallow| | |reflexivity|reflexivity];
    intros [|[|[|st]]] a; cbn; intros [= <-]; exact I.
Defined.

(** One iteration of a machine runs the run actions from the current state
    outwards through its ancestors, up to the first one that changes the state
    or terminates the machine; the actions may make transitions. *)
Theorem smf_run_state_order {U} (states : sid -> smf_state U) depth fuel s :
  shallow states depth -> terminate s.1 = false -> new_state s.1 = false ->
  match smf_run_state states depth true fuel s with
  | None => run_states states depth fuel (current s.1 :: ancestors states depth (current s.1)) s = None
  | Some (r, s') => exists s1,
      run_states states depth fuel (current s.1 :: ancestors states depth (current s.1)) s = Some s1
      /\ iteration_ends s1 r s'
  end.
Proof. apply run_state_spec. Qed.

Lemma smf_run_state_order_witness :
  exists s', smf_run_state demo_states 2 true 1 (ctx_in 1, []) = Some (0, s') /\ s'.2 = [12; 2]%nat
    /\ iteration_ends s' 0 s'.
Proof.
  pose proof (smf_run_state_order demo_states 2 1 (ctx_in 1, []) demo_shallow eq_refl eq_refl) as H.
  assert (E : smf_run_state demo_states 2 true 1 (ctx_in 1, []) = Some (0, (ctx_in 1, [12; 2]%nat)))
    by (vm_compute; reflexivity).
  rewrite E in H. destruct H as (s1 & H1 & H2).
  assert (E1 : s1 = (ctx_in 1, [12; 2]%nat)) by (vm_compute in H1; injection H1; intros <-; reflexivity).
  subst s1. eexists. split; [exact E|]. split; [reflexivity|exact H2].
Defined.


(** After a transition that was made by an entry action outside of an
    iteration, the next iteration does not run the actions of the parent,
    although the action of the child made no transition. *)
Theorem smf_parent_run_skipped :
  exists s1 s2 s3,
    smf_set_initial leading_states 2 true 2 3 (ctx_in 3, []) = Some s1 /\ current s1.1 = 1%nat
    /\ smf_run_state leading_states 2 true 2 (s1.1, []) = Some (0, s2) /\ s2.2 = [12]%nat
    /\ smf_run_state leading_states 2 true 2 (s2.1, []) = Some (0, s3) /\ s3.2 = [12; 2]%nat.
Proof. do 3 eexists. repeat (split; [vm_compute; reflexivity|]). vm_compute. reflexivity. Qed.

End Smf.
