(* ===== verification/Onoff.v ===== *)
(** Notifications (lib/os/notify.c) and on-off services (lib/os/onoff.c).

    [process_event] holds the manager's spinlock except in one window of its
    loop, where it calls the monitors, the clients and the driver.  Code that
    runs in that window, callbacks or other contexts, may call every operation
    of the interface; [ONOFF_FLAG_PROCESSING] makes their [process_event]
    record the event instead of processing it.  The state therefore holds the
    manager and the window that is open, if one is, and the step relation
    interleaves whole critical sections: an operation of the interface, the
    driver's completion of a transition, or the next call made from the
    window.  [ok] tells whether all the assertions passed so far held; the code
    goes on after a failed one as it does with assertions compiled out. *)
From S2P Require Import Prelude.
From Stdlib Require Import ZifyBool.

Module Notify.

Definition SYS_NOTIFY_METHOD_COMPLETED : Z := 0.
Definition SYS_NOTIFY_METHOD_SPINWAIT : Z := 1.
Definition SYS_NOTIFY_METHOD_SIGNAL : Z := 2.
Definition SYS_NOTIFY_METHOD_CALLBACK : Z := 3.
Definition SYS_NOTIFY_METHOD_MASK : Z := 0x03.
Definition SYS_NOTIFY_METHOD_POS : Z := 0.
Definition SYS_NOTIFY_EXTENSION_POS : Z := 2.

(** [struct sys_notify]; the union of the two pointers is one word, [None]
    for [NULL]. *)
Record sys_notify := mk_notify {
  method : option Z;
  flags : Z;                       (* uint32_t *)
  result : Z
}.

Definition sys_notify_get_method (notify : sys_notify) : Z :=
  Z.land (Z.shiftr (flags notify) SYS_NOTIFY_METHOD_POS) SYS_NOTIFY_METHOD_MASK.

(** The result code, and the structure it leaves. *)
Definition sys_notify_validate (CONFIG_POLL : bool) (notify : sys_notify) : Z * sys_notify :=
  let m := sys_notify_get_method notify in
  let rv :=
    if m =? SYS_NOTIFY_METHOD_SPINWAIT then 0
    else if m =? SYS_NOTIFY_METHOD_CALLBACK then
      match method notify with None => - EINVAL | Some _ => 0 end
    else if CONFIG_POLL && (m =? SYS_NOTIFY_METHOD_SIGNAL) then
      match method notify with None => - EINVAL | Some _ => 0 end
    else - EINVAL in
  (rv, if rv =? 0 then mk_notify (method notify) (flags notify) 0 else notify).

(** Whether the assertion held, the structure, the signal
    [k_poll_signal_raise] is called on, if it is, and the callback returned. *)
Definition sys_notify_finalize (CONFIG_POLL : bool) (notify : sys_notify) (res : Z) :
    bool * sys_notify * option Z * option Z :=
  let m := sys_notify_get_method notify in
  let rv := if m =? SYS_NOTIFY_METHOD_CALLBACK then method notify else None in
  let sig := if m =? SYS_NOTIFY_METHOD_SIGNAL then method notify else None in
  (negb (m =? SYS_NOTIFY_METHOD_COMPLETED),
   mk_notify (method notify) SYS_NOTIFY_METHOD_COMPLETED res, if CONFIG_POLL then sig else None, rv).

(** The result code, and what is stored at [result] if anything. *)
Definition sys_notify_fetch_result (notify : sys_notify) : Z * option Z :=
  if sys_notify_get_method notify =? SYS_NOTIFY_METHOD_COMPLETED then (0, Some (result notify))
  else (- EAGAIN, None).

Definition sys_notify_init_spinwait : sys_notify := mk_notify None SYS_NOTIFY_METHOD_SPINWAIT 0.
Definition sys_notify_init_signal (sigp : Z) : sys_notify := mk_notify (Some sigp) SYS_NOTIFY_METHOD_SIGNAL 0.
Definition sys_notify_init_callback (handler : Z) : sys_notify :=
  mk_notify (Some handler) SYS_NOTIFY_METHOD_CALLBACK 0.
Definition sys_notify_uses_callback (notify : sys_notify) : bool :=
  sys_notify_get_method notify =? SYS_NOTIFY_METHOD_CALLBACK.

End Notify.

Import Notify.

Module Onoff.

Definition EIO : Z := 5.
Definition ENOTSUP : Z := 134.

Definition ONOFF_FLAG_ERROR : Z := BIT 0.
Definition ONOFF_FLAG_ONOFF : Z := BIT 1.
Definition ONOFF_FLAG_TRANSITION : Z := BIT 2.
Definition ONOFF_STATE_MASK : Z := Z.lor (Z.lor ONOFF_FLAG_ERROR ONOFF_FLAG_ONOFF) ONOFF_FLAG_TRANSITION.
Definition ONOFF_STATE_OFF : Z := 0.
Definition ONOFF_STATE_ON : Z := ONOFF_FLAG_ONOFF.
Definition ONOFF_STATE_ERROR : Z := ONOFF_FLAG_ERROR.
Definition ONOFF_STATE_TO_ON : Z := Z.lor ONOFF_FLAG_TRANSITION ONOFF_STATE_ON.
Definition ONOFF_STATE_TO_OFF : Z := Z.lor ONOFF_FLAG_TRANSITION ONOFF_STATE_OFF.
Definition ONOFF_STATE_RESETTING : Z := Z.lor ONOFF_FLAG_TRANSITION ONOFF_STATE_ERROR.
Definition ONOFF_CLIENT_EXTENSION_POS : Z := SYS_NOTIFY_EXTENSION_POS.

Definition SERVICE_REFS_MAX : Z := 65535.
Definition ONOFF_FLAG_PROCESSING : Z := BIT 3.
Definition ONOFF_FLAG_COMPLETE : Z := BIT 4.
Definition ONOFF_FLAG_RECHECK : Z := BIT 5.

Inductive event_type := EVT_NOP | EVT_COMPLETE | EVT_RECHECK | EVT_START | EVT_STOP | EVT_RESET.

#[export] Instance event_type_eq_dec : EqDecision event_type.
Proof. solve_decision. Defined.

(** [struct onoff_client *] and [struct onoff_monitor *]. *)
Definition cid : Type := nat.
Definition mid : Type := nat.
Bind Scope nat_scope with cid mid.

(** The functions of [struct onoff_transitions]. *)
Inductive transition := Start | Stop | Reset.

(** [struct onoff_transitions]: which of the functions are not [NULL]. *)
Record onoff_transitions := mk_transitions { start_ : bool; stop_ : bool; reset_ : bool }.

Record onoff_manager := mk_manager {
  clients : list cid;
  monitors : list mid;
  transitions : onoff_transitions;
  last_res : Z;
  mflags : Z;                      (* flags, uint16_t *)
  refs : Z                         (* uint16_t *)
}.

(** The window of [process_event]: what it still has to call.  [w_mon] is the
    monitor the iteration stands at and the one it saved as the next. *)
Record window := mk_window {
  w_mon : option (mid * option mid);
  w_clients : list cid;            (* clients, the list on its stack *)
  w_transit : option transition;
  w_state : Z;
  w_res : Z
}.

(** A call of code outside. *)
Inductive call :=
  | Monitor (m : mid) (state res : Z)
  | Client (c : cid) (cb state res : Z)
  | Raise (signal res : Z)
  | Transit (t : transition).

(** [owed]: the driver has been called for a transition and has not called
    [transition_complete] yet. *)
Record sys := mk_sys {
  mgr : onoff_manager;
  notify : cid -> sys_notify;
  win : option window;
  owed : bool;
  calls : list call;
  ok : bool
}.

#[export] Instance set_clients : Settable clients := fun f m =>
  mk_manager (f (clients m)) (monitors m) (transitions m) (last_res m) (mflags m) (refs m).
#[export] Instance set_monitors : Settable monitors := fun f m =>
  mk_manager (clients m) (f (monitors m)) (transitions m) (last_res m) (mflags m) (refs m).
#[export] Instance set_last_res : Settable last_res := fun f m =>
  mk_manager (clients m) (monitors m) (transitions m) (f (last_res m)) (mflags m) (refs m).
#[export] Instance set_mflags : Settable mflags := fun f m =>
  mk_manager (clients m) (monitors m) (transitions m) (last_res m) (f (mflags m)) (refs m).
#[export] Instance set_refs : Settable refs := fun f m =>
  mk_manager (clients m) (monitors m) (transitions m) (last_res m) (mflags m) (f (refs m)).
#[export] Instance set_mgr : Settable mgr := fun f s =>
  mk_sys (f (mgr s)) (notify s) (win s) (owed s) (calls s) (ok s).
#[export] Instance set_notify : Settable notify := fun f s =>
  mk_sys (mgr s) (f (notify s)) (win s) (owed s) (calls s) (ok s).
#[export] Instance set_win : Settable win := fun f s =>
  mk_sys (mgr s) (notify s) (f (win s)) (owed s) (calls s) (ok s).
#[export] Instance set_owed : Settable owed := fun f s =>
  mk_sys (mgr s) (notify s) (win s) (f (owed s)) (calls s) (ok s).
#[export] Instance set_calls : Settable calls := fun f s =>
  mk_sys (mgr s) (notify s) (win s) (owed s) (f (calls s)) (ok s).
#[export] Instance set_ok : Settable ok := fun f s =>
  mk_sys (mgr s) (notify s) (win s) (owed s) (calls s) (f (ok s)).

Definition ASSERT (b : bool) (s : sys) : sys := s <| ok ::= fun o => o && b |>.

(** [mgr->flags & ONOFF_STATE_MASK] *)
Definition state_of (m : onoff_manager) : Z := Z.land (mflags m) ONOFF_STATE_MASK.

Definition set_state (m : onoff_manager) (state : Z) : onoff_manager :=
  m <| mflags ::= fun fl => Z.lor (Z.land state ONOFF_STATE_MASK) (Z.ldiff fl ONOFF_STATE_MASK) |>.

Definition is_nil {A} (l : list A) : bool := match l with [] => true | _ => false end.

Section Ops.
Context (CONFIG_POLL : bool).

(** Of arguments that are not [NULL]. *)
Definition validate_args (s : sys) (cli : cid) : Z * sys :=
  let '(rv, n) := sys_notify_validate CONFIG_POLL (notify s cli) in
  let s := s <| notify ::= fun f => <[cli := n]> f |> in
  (if (rv =? 0) && negb (Z.ldiff (Notify.flags n) (BIT ONOFF_CLIENT_EXTENSION_POS - 1) =? 0)
   then - EINVAL else rv, s).

Definition onoff_manager_init (transitions : onoff_transitions) (m : onoff_manager) : Z * onoff_manager :=
  if negb (start_ transitions) || negb (stop_ transitions) then (- EINVAL, m)
  else (0, mk_manager [] [] transitions 0 0 0).

Definition notify_one (s : sys) (cli : cid) (state res : Z) : sys :=
  let '(a, n, sig, cb) := sys_notify_finalize CONFIG_POLL (notify s cli) res in
  let s := ASSERT a (s <| notify ::= fun f => <[cli := n]> f |>) in
  let s := match sig with Some g => s <| calls ::= fun l => l ++ [Raise g res] |> | None => s end in
  match cb with
  | Some h => s <| calls ::= fun l => l ++ [Client cli h state res] |>
  | None => s
  end.

Definition process_recheck (m : onoff_manager) : event_type :=
  let state := state_of m in
  if (state =? ONOFF_STATE_OFF) && negb (is_nil (clients m)) then EVT_START
  else if (state =? ONOFF_STATE_ON) && (refs m =? 0) then EVT_STOP
  else if (state =? ONOFF_STATE_ERROR) && negb (is_nil (clients m)) then EVT_RESET
  else EVT_NOP.

(** [if (process_recheck(mgr) != EVT_NOP) mgr->flags |= ONOFF_FLAG_RECHECK] *)
Definition queue_recheck (m : onoff_manager) : onoff_manager :=
  if decide (process_recheck m = EVT_NOP) then m
  else m <| mflags ::= fun fl => Z.lor fl ONOFF_FLAG_RECHECK |>.

(** The manager, the list of clients to notify, and whether the assertion
    held; [cl] is the list as it was. *)
Definition process_complete (m : onoff_manager) (cl : list cid) (res : Z) : onoff_manager * list cid * bool :=
  let state := state_of m in
  if res <? 0 then
    (set_state (m <| clients := [] |>) ONOFF_STATE_ERROR, clients m, true)
  else if (state =? ONOFF_STATE_TO_ON) || (state =? ONOFF_STATE_RESETTING) then
    let cl := clients m in
    let m := m <| clients := [] |> in
    let m :=
      if state =? ONOFF_STATE_TO_ON then
        let m := fold_left (fun m _ => m <| refs ::= fun r => u16 (r + 1) |>) cl m in
        set_state m ONOFF_STATE_ON
      else set_state m ONOFF_STATE_OFF in
    (queue_recheck m, cl, true)
  else if state =? ONOFF_STATE_TO_OFF then
    (queue_recheck (set_state m ONOFF_STATE_OFF), cl, true)
  else (m, cl, false).

(** The successor of a node in a list; [NULL] at the end, and for a node that
    has been removed. *)
Fixpoint next_of (x : nat) (l : list nat) : option nat :=
  match l with
  | [] => None
  | y :: l' => if decide (x = y) then head l' else next_of x l'
  end.

(** The start of the iteration of [notify_monitors]. *)
Definition first_monitor (l : list mid) : option (mid * option mid) :=
  match l with
  | [] => None
  | m :: l' => Some (m, head l')
  end.

(** The end of a pass of the loop of [process_event]: the deferred events. *)
Definition deferred (m : onoff_manager) : event_type * onoff_manager :=
  if flag_set (mflags m) ONOFF_FLAG_COMPLETE then
    (EVT_COMPLETE, m <| mflags ::= fun fl => Z.ldiff fl ONOFF_FLAG_COMPLETE |>)
  else if flag_set (mflags m) ONOFF_FLAG_RECHECK then
    (EVT_RECHECK, m <| mflags ::= fun fl => Z.ldiff fl ONOFF_FLAG_RECHECK |>)
  else (EVT_NOP, m).

(** A pass of the loop on an event that is not [EVT_RECHECK] or [EVT_NOP], up
    to the window: the manager, the list of clients, the transition to start,
    the result, and whether the assertions held. *)
Definition handle (evt : event_type) (m : onoff_manager) (cl : list cid) :
    onoff_manager * list cid * option transition * Z * bool :=
  let state := state_of m in
  match evt with
  | EVT_COMPLETE =>
      let '(m', cl, a) := process_complete m cl (last_res m) in (m', cl, None, last_res m, a)
  | EVT_START =>
      (set_state m ONOFF_STATE_TO_ON, cl, if start_ (transitions m) then Some Start else None, 0,
       (state =? ONOFF_STATE_OFF) && negb (is_nil (clients m)) && start_ (transitions m))
  | EVT_STOP =>
      (set_state m ONOFF_STATE_TO_OFF, cl, if stop_ (transitions m) then Some Stop else None, 0,
       (state =? ONOFF_STATE_ON) && (refs m =? 0) && stop_ (transitions m))
  | EVT_RESET =>
      (set_state m ONOFF_STATE_RESETTING, cl, if reset_ (transitions m) then Some Reset else None, 0,
       (state =? ONOFF_STATE_ERROR) && negb (is_nil (clients m)) && reset_ (transitions m))
  | EVT_RECHECK | EVT_NOP => (m, cl, None, 0, false)
  end.

(** The loop, from the top of a pass; it stops at the window, which it leaves
    open, or at the end.  [None] without fuel. *)
Fixpoint loop (fuel : nat) (evt : event_type) (cl : list cid) (s : sys) : option sys :=
  match fuel with
  | O => None
  | S fuel' =>
      let evt := if decide (evt = EVT_RECHECK) then process_recheck (mgr s) else evt in
      if decide (evt = EVT_NOP) then Some (s <| win := None |>)
      else
        let state := state_of (mgr s) in
        let '(m, cl, transit, res, a) := handle evt (mgr s) cl in
        let s := ASSERT a (s <| mgr := m |>) in
        let do_monitors := negb (state =? state_of m) && negb (is_nil (monitors m)) in
        if do_monitors || negb (is_nil cl) || (if transit then true else false) then
          let m := m <| mflags ::= fun fl => Z.lor fl ONOFF_FLAG_PROCESSING |> in
          Some (s <| mgr := m |>
                  <| win := Some (mk_window (if do_monitors then first_monitor (monitors m) else None)
                                    cl transit (state_of m) res) |>)
        else
          let '(evt, m) := deferred m in
          let s := s <| mgr := m |> in
          if decide (evt = EVT_NOP) then Some (s <| win := None |>) else loop fuel' evt cl s
  end.

(** A pass without window is followed by one with it. *)
Definition loop_fuel : nat := 3.

(** Called with the lock held; it is released at the window, or at the end. *)
Definition process_event (evt : event_type) (s : sys) : option sys :=
  if flag_set (mflags (mgr s)) ONOFF_FLAG_PROCESSING then
    if decide (evt = EVT_COMPLETE) then
      Some (s <| mgr ::= fun m => m <| mflags ::= fun fl => Z.lor fl ONOFF_FLAG_COMPLETE |> |>)
    else
      Some (ASSERT (bool_decide (evt = EVT_RECHECK))
        (s <| mgr ::= fun m => m <| mflags ::= fun fl => Z.lor fl ONOFF_FLAG_RECHECK |> |>))
  else loop loop_fuel evt [] s.

(** The next call from the window, or its end: the lock is taken again and the
    loop goes on. *)
Definition window_step (s : sys) : option sys :=
  match win s with
  | None => None
  | Some w =>
      match w_mon w with
      | Some (m, tmp) =>
          let after := (fun t => (t, next_of t (monitors (mgr s)))) <$> tmp in
          Some (s <| calls ::= fun l => l ++ [Monitor m (w_state w) (w_res w)] |>
                  <| win := Some (mk_window after (w_clients w) (w_transit w) (w_state w) (w_res w)) |>)
      | None =>
          match w_clients w with
          | c :: cl =>
              Some (notify_one (s <| win := Some (mk_window None cl (w_transit w) (w_state w) (w_res w)) |>)
                      c (w_state w) (w_res w))
          | [] =>
              match w_transit w with
              | Some t =>
                  Some (s <| calls ::= fun l => l ++ [Transit t] |> <| owed := true |>
                          <| win := Some (mk_window None [] None (w_state w) (w_res w)) |>)
              | None =>
                  let '(evt, m) := deferred
                    ((mgr s) <| mflags ::= fun fl => Z.ldiff fl ONOFF_FLAG_PROCESSING |>) in
                  let s := s <| mgr := m |> in
                  if decide (evt = EVT_NOP) then Some (s <| win := None |>)
                  else loop loop_fuel evt [] (s <| win := None |>)
              end
          end
      end
  end.

Definition transition_complete (res : Z) (s : sys) : option sys :=
  process_event EVT_COMPLETE (s <| mgr ::= fun m => m <| last_res := res |> |> <| owed := false |>).

Definition onoff_request (cli : cid) (s : sys) : option (Z * sys) :=
  let '(rv, s) := validate_args s cli in
  if rv <? 0 then Some (rv, s)
  else
    let state := state_of (mgr s) in
    if refs (mgr s) =? SERVICE_REFS_MAX then Some (- EAGAIN, s)
    else if state =? ONOFF_STATE_ON then
      Some (state, notify_one (s <| mgr ::= fun m => m <| refs ::= fun r => u16 (r + 1) |> |>) cli state 0)
    else if (state =? ONOFF_STATE_OFF) || (state =? ONOFF_STATE_TO_OFF) || (state =? ONOFF_STATE_TO_ON) then
      let s := s <| mgr ::= fun m => m <| clients ::= fun l => l ++ [cli] |> |> in
      if state =? ONOFF_STATE_OFF then (fun s => (state, s)) <$> process_event EVT_RECHECK s
      else Some (state, s)
    else if state =? ONOFF_STATE_RESETTING then Some (- ENOTSUP, s)
    else Some (- EIO, ASSERT (state =? ONOFF_STATE_ERROR) s).

Definition onoff_release (s : sys) : option (Z * sys) :=
  let state := state_of (mgr s) in
  if negb (state =? ONOFF_STATE_ON) then
    Some (if state =? ONOFF_STATE_ERROR then - EIO else - ENOTSUP, s)
  else
    let s := ASSERT (0 <? refs (mgr s)) s in
    let s := s <| mgr ::= fun m => m <| refs ::= fun r => u16 (r - 1) |> |> in
    if refs (mgr s) =? 0 then (fun s => (state, s)) <$> process_event EVT_RECHECK s
    else Some (state, s).

Definition onoff_reset (cli : cid) (s : sys) : option (Z * sys) :=
  let '(rv, s) := validate_args s cli in
  let rv := if (0 <=? rv) && negb (reset_ (transitions (mgr s))) then - ENOTSUP else rv in
  if rv <? 0 then Some (rv, s)
  else
    let state := state_of (mgr s) in
    if Z.land state ONOFF_FLAG_ERROR =? 0 then Some (- EALREADY, s)
    else
      let s := s <| mgr ::= fun m => m <| clients ::= fun l => l ++ [cli] |> |> in
      if negb (state =? ONOFF_STATE_RESETTING) then (fun s => (state, s)) <$> process_event EVT_RECHECK s
      else Some (state, s).

(** [sys_slist_find_and_remove] *)
Fixpoint find_and_remove (x : nat) (l : list nat) : option (list nat) :=
  match l with
  | [] => None
  | y :: l' => if decide (x = y) then Some l' else cons y <$> find_and_remove x l'
  end.

Definition onoff_cancel (cli : cid) (s : sys) : Z * sys :=
  let state := state_of (mgr s) in
  match find_and_remove cli (clients (mgr s)) with
  | Some l =>
      (state, ASSERT ((state =? ONOFF_STATE_TO_ON) || (state =? ONOFF_STATE_TO_OFF) ||
                      (state =? ONOFF_STATE_RESETTING))
                (s <| mgr ::= fun m => m <| clients := l |> |>))
  | None => (- EALREADY, s)
  end.

Definition onoff_cancel_or_release (cli : cid) (s : sys) : option (Z * sys) :=
  let '(rv, s) := onoff_cancel cli s in
  if rv =? - EALREADY then onoff_release s else Some (rv, s).

(** Of a monitor whose callback is not [NULL]. *)
Definition onoff_monitor_register (mon : mid) (s : sys) : Z * sys :=
  (0, s <| mgr ::= fun m => m <| monitors ::= fun l => l ++ [mon] |> |>).

Definition onoff_monitor_unregister (mon : mid) (s : sys) : Z * sys :=
  match find_and_remove mon (monitors (mgr s)) with
  | Some l => (0, s <| mgr ::= fun m => m <| monitors := l |> |>)
  | None => (- EINVAL, s)
  end.

(** [struct onoff_sync_service] is its counter. *)
Definition onoff_sync_lock (count : Z) : Z := count.

(** The result, the counter, and the state after the notification. *)
Definition onoff_sync_finalize (count : Z) (cli : option cid) (res : Z) (on : bool) (s : sys) : Z * Z * sys :=
  let count := if count <? 0 then 0 else count in
  let '(count, state) :=
    if res <? 0 then (res, ONOFF_STATE_ERROR)
    else if on then (s32 (count + 1), ONOFF_STATE_ON)
    else (s32 (count - 1), ONOFF_STATE_ON) in
  (count, count, match cli with Some c => notify_one (ASSERT on s) c state res | None => s end).

(** ** Steps *)

(** The clients that the service controls. *)
Definition window_clients (s : sys) : list cid := match win s with Some w => w_clients w | None => [] end.
Definition controlled (s : sys) : list cid := clients (mgr s) ++ window_clients s.

Inductive label :=
  | LSetup (c : cid) (n : sys_notify)
  | LRequest (c : cid) (rv : Z)
  | LRelease (rv : Z)
  | LReset (c : cid) (rv : Z)
  | LCancel (c : cid) (rv : Z)
  | LRegister (m : mid)
  | LUnregister (m : mid) (rv : Z)
  | LComplete (res : Z)
  | LWindow.

(** A client sets up, and passes to the service, only a structure that the
    service does not control; it releases only what it holds; the driver
    completes each transition once.  Fewer than 65536 clients wait at a time. *)
Inductive step : label -> sys -> sys -> Prop :=
  | step_setup c n s : c ∉ controlled s -> step (LSetup c n) s (s <| notify ::= fun f => <[c := n]> f |>)
  | step_request c s rv s' :
      c ∉ controlled s -> Z.of_nat (length (clients (mgr s))) < SERVICE_REFS_MAX ->
      onoff_request c s = Some (rv, s') -> step (LRequest c rv) s s'
  | step_release s rv s' :
      (state_of (mgr s) = ONOFF_STATE_ON -> 0 < refs (mgr s)) ->
      onoff_release s = Some (rv, s') -> step (LRelease rv) s s'
  | step_reset c s rv s' :
      c ∉ controlled s -> Z.of_nat (length (clients (mgr s))) < SERVICE_REFS_MAX ->
      onoff_reset c s = Some (rv, s') -> step (LReset c rv) s s'
  | step_cancel c s rv s' : onoff_cancel c s = (rv, s') -> step (LCancel c rv) s s'
  | step_register m s s' :
      m ∉ monitors (mgr s) -> onoff_monitor_register m s = (0, s') -> step (LRegister m) s s'
  | step_unregister m s rv s' : onoff_monitor_unregister m s = (rv, s') -> step (LUnregister m rv) s s'
  | step_complete res s s' : owed s = true -> transition_complete res s = Some s' -> step (LComplete res) s s'
  | step_window s s' : window_step s = Some s' -> step LWindow s s'.

(** A manager after [onoff_manager_init], and any structures of the clients. *)
Definition initial (tr : onoff_transitions) (nt : cid -> sys_notify) : sys :=
  mk_sys (onoff_manager_init tr (mk_manager [] [] tr 0 0 0)).2 nt None false [] true.

Inductive reachable (tr : onoff_transitions) : sys -> Prop :=
  | reach_init nt : reachable tr (initial tr nt)
  | reach_step l s s' : reachable tr s -> step l s s' -> reachable tr s'.

(** ** The invariant *)

Inductive mode := OFF | ON | ERR | TO_ON | TO_OFF | RESETTING.

Definition code (md : mode) : Z :=
  match md with
  | OFF => ONOFF_STATE_OFF | ON => ONOFF_STATE_ON | ERR => ONOFF_STATE_ERROR
  | TO_ON => ONOFF_STATE_TO_ON | TO_OFF => ONOFF_STATE_TO_OFF | RESETTING => ONOFF_STATE_RESETTING
  end.

(** A transition is in progress. *)
Definition moving (md : mode) : bool := match md with TO_ON | TO_OFF | RESETTING => true | _ => false end.

Definition enc (md : mode) (p c r : bool) : Z :=
  code md + 8 * Z.b2z p + 16 * Z.b2z c + 32 * Z.b2z r.

(** What a window still to start a transition, a completion still to process
    and one still to come have in common: there is one of them exactly in a
    transition.  [r] records that something is left to do. *)
Record minv (md : mode) (c r wt ow : bool) (m : onoff_manager) : Prop := {
  i_start : start_ (transitions m) = true;
  i_stop : stop_ (transitions m) = true;
  i_refs : 0 <= refs m <= SERVICE_REFS_MAX;
  i_held : refs m <> 0 -> md = ON;
  i_on : md = ON -> clients m = [];
  i_few : Z.of_nat (length (clients m)) <= SERVICE_REFS_MAX;
  i_reset : md = ERR \/ md = RESETTING -> clients m <> [] -> reset_ (transitions m) = true;
  i_moving : Z.b2z c + Z.b2z wt + Z.b2z ow = Z.b2z (moving md);
  i_recheck :
    match md with
    | OFF | ERR => clients m <> []
    | ON => refs m = 0
    | _ => False
    end -> r = true
}.

(** The structures the service controls are set up, and in one list once. *)
Definition cinv (cl : list cid) (nt : cid -> sys_notify) : Prop :=
  NoDup cl /\ forall c, c ∈ cl -> sys_notify_get_method (nt c) <> SYS_NOTIFY_METHOD_COMPLETED.

Definition window_transit (s : sys) : bool :=
  match win s with Some w => if w_transit w then true else false | None => false end.
Definition window_open (s : sys) : bool := if win s then true else false.

Definition inv (s : sys) : Prop :=
  exists md c r,
    mflags (mgr s) = enc md (window_open s) c r /\
    minv md c r (window_transit s) (owed s) (mgr s) /\
    cinv (controlled s) (notify s) /\
    (win s = None -> c = false /\ r = false).

End Ops.

(** *** The flag word *)

Ltac flag_cases := intros; repeat match goal with
  | md : mode |- _ => destruct md
  | b : bool |- _ => destruct b
  end; reflexivity.

Lemma enc_state md p c r : Z.land (enc md p c r) ONOFF_STATE_MASK = code md.
Proof. flag_cases. Qed.
Lemma enc_set_state md md' p c r :
  Z.lor (Z.land (code md') ONOFF_STATE_MASK) (Z.ldiff (enc md p c r) ONOFF_STATE_MASK) = enc md' p c r.
Proof. flag_cases. Qed.
Lemma enc_set_processing md p c r : Z.lor (enc md p c r) ONOFF_FLAG_PROCESSING = enc md true c r.
Proof. flag_cases. Qed.
Lemma enc_clear_processing md p c r : Z.ldiff (enc md p c r) ONOFF_FLAG_PROCESSING = enc md false c r.
Proof. flag_cases. Qed.
Lemma enc_set_complete md p c r : Z.lor (enc md p c r) ONOFF_FLAG_COMPLETE = enc md p true r.
Proof. flag_cases. Qed.
Lemma enc_clear_complete md p c r : Z.ldiff (enc md p c r) ONOFF_FLAG_COMPLETE = enc md p false r.
Proof. flag_cases. Qed.
Lemma enc_set_recheck md p c r : Z.lor (enc md p c r) ONOFF_FLAG_RECHECK = enc md p c true.
Proof. flag_cases. Qed.
Lemma enc_clear_recheck md p c r : Z.ldiff (enc md p c r) ONOFF_FLAG_RECHECK = enc md p c false.
Proof. flag_cases. Qed.
Lemma enc_processing md p c r : flag_set (enc md p c r) ONOFF_FLAG_PROCESSING = p.
Proof. flag_cases. Qed.
Lemma enc_complete md p c r : flag_set (enc md p c r) ONOFF_FLAG_COMPLETE = c.
Proof. flag_cases. Qed.
Lemma enc_recheck md p c r : flag_set (enc md p c r) ONOFF_FLAG_RECHECK = r.
Proof. flag_cases. Qed.

Create Rewrite HintDb onoff.
#[local] Hint Rewrite enc_state enc_set_state enc_set_processing enc_clear_processing enc_set_complete
  enc_clear_complete enc_set_recheck enc_clear_recheck enc_processing enc_complete enc_recheck : onoff.

Lemma state_of_enc m md p c r : mflags m = enc md p c r -> state_of m = code md.
Proof. intros H. unfold state_of. rewrite H. apply enc_state. Qed.

Lemma set_state_enc m md md' p c r :
  mflags m = enc md p c r -> mflags (set_state m (code md')) = enc md' p c r.
Proof. intros H. cbn. rewrite H. apply enc_set_state. Qed.

(** What is left to do in a state at rest. *)
Definition needs (md : mode) (m : onoff_manager) : event_type :=
  match md with
  | OFF => if is_nil (clients m) then EVT_NOP else EVT_START
  | ON => if refs m =? 0 then EVT_STOP else EVT_NOP
  | ERR => if is_nil (clients m) then EVT_NOP else EVT_RESET
  | _ => EVT_NOP
  end.

Lemma process_recheck_needs m md p c r : mflags m = enc md p c r -> process_recheck m = needs md m.
Proof.
  intros H. unfold process_recheck. rewrite (state_of_enc _ _ _ _ _ H).
  destruct md; cbn; destruct (is_nil (clients m)); done.
Qed.

Lemma needs_recheck md m :
  needs md m <> EVT_NOP <->
  match md with OFF | ERR => clients m <> [] | ON => refs m = 0 | _ => False end.
Proof.
  destruct md; cbn; try (by destruct (clients m)); try done.
  destruct (Z.eqb_spec (refs m) 0); intuition congruence.
Qed.

Lemma fold_refs (cl : list cid) m :
  fold_left (fun m _ => m <| refs ::= fun r => u16 (r + 1) |>) cl m =
  m <| refs := if is_nil cl then refs m else u16 (refs m + Z.of_nat (length cl)) |>.
Proof.
  revert m. induction cl as [|x cl IH]; intros m; cbn [fold_left is_nil length]; [by destruct m|].
  rewrite IH. destruct cl as [|y cl]; cbn; [done|]. unfold uwrap. rewrite Z.add_mod_idemp_l by done.
  replace (refs m + 1 + Z.of_nat (S (length cl))) with (refs m + Z.of_nat (S (S (length cl)))) by lia. done.
Qed.

(** *** Events *)

(** What holds when the loop turns to an event, with the lock held. *)
Definition pending (evt : event_type) (md : mode) (ow : bool) (m : onoff_manager) : Prop :=
  match evt with
  | EVT_COMPLETE => exists r, mflags m = enc md false false r /\ minv md true r false ow m
  | EVT_RECHECK => mflags m = enc md false false false /\ minv md false true false ow m
  | EVT_NOP => mflags m = enc md false false false /\ minv md false false false ow m
  | _ => False
  end.

Lemma minv_flags md c r wt ow m f : minv md c r wt ow (m <| mflags ::= f |>) <-> minv md c r wt ow m.
Proof. split; intros []; constructor; done. Qed.

Lemma deferred_pending m md c r ow :
  mflags m = enc md false c r -> minv md c r false ow m ->
  pending (deferred m).1 md ow (deferred m).2 /\
  clients (deferred m).2 = clients m /\ monitors (deferred m).2 = monitors m.
Proof.
  intros Hf Hm. unfold deferred. rewrite Hf, enc_complete, enc_recheck.
  destruct c; [|destruct r]; cbn; (split; [|done]); [exists r; split|split..];
    rewrite ?Hf; autorewrite with onoff; try done; by apply minv_flags.
Qed.

(** A completion: the clients are taken out to be told, or stay to be
    served. *)
Lemma queue_recheck_minv m md c r wt ow :
  mflags m = enc md false c r -> minv md c true wt ow m ->
  exists r', mflags (queue_recheck m) = enc md false c r' /\ minv md c r' wt ow (queue_recheck m) /\
    clients (queue_recheck m) = clients m /\ monitors (queue_recheck m) = monitors m.
Proof.
  intros Hf Hm. unfold queue_recheck. rewrite (process_recheck_needs _ _ _ _ _ Hf). case_decide as Hn.
  - exists r. split; [done|]. split; [|done]. destruct Hm. constructor; try done.
    intros Hx. exfalso. by apply needs_recheck in Hx.
  - exists true. cbn. rewrite Hf, enc_set_recheck. split; [done|]. split; [by apply minv_flags|done].
Qed.

Lemma process_complete_pending m md r ow res :
  mflags m = enc md false false r -> minv md true r false ow m ->
  exists md' r' m' cl, process_complete m [] res = (m', cl, true) /\
    mflags m' = enc md' false false r' /\ minv md' false r' false ow m' /\
    clients m = clients m' ++ cl /\ monitors m' = monitors m.
Proof.
  intros Hf Hm. pose proof (i_moving _ _ _ _ _ _ Hm) as Hmv. assert (Hmd : moving md = true).
  { destruct (moving md), ow; cbn in Hmv; done || lia. }
  assert (Hr0 : refs m = 0).
  { destruct (Z.eq_dec (refs m) 0) as [|H]; [done|]. apply (i_held _ _ _ _ _ _ Hm) in H. by subst. }
  assert (Hlen := i_few _ _ _ _ _ _ Hm).
  unfold process_complete. rewrite (state_of_enc _ _ _ _ _ Hf).
  destruct (Z.ltb_spec res 0) as [|_].
  { exists ERR, r. do 2 eexists. split; [done|]. split; [by apply (set_state_enc _ md ERR)|].
    split; [|done]. destruct Hm. constructor; cbn; try done; destruct ow, md; done || lia. }
  assert (Hmv' : forall md', moving md' = false -> Z.b2z false + Z.b2z false + Z.b2z ow = Z.b2z (moving md')).
  { intros md' ->. destruct ow, md; cbn in *; done || lia. }
  destruct md; try done; cbn [code Z.eqb orb ONOFF_STATE_TO_ON ONOFF_STATE_RESETTING ONOFF_STATE_TO_OFF].
  - change (ONOFF_STATE_TO_ON =? ONOFF_STATE_TO_ON) with true. cbn [orb]. rewrite fold_refs.
    set (n := set_state _ _). destruct (queue_recheck_minv n ON false r false ow) as (r'&?&?&Hcl&?).
    { by apply (set_state_enc _ TO_ON ON). }
    { subst n. destruct Hm. constructor; cbn; try done; [|exact (Hmv' ON eq_refl)].
      destruct (clients m) as [|x l] eqn:E; cbn [is_nil]; [done|].
      rewrite Hr0, Z.add_0_l. pose proof (uwrap_range 16 (Z.of_nat (length (x :: l)))).
      unfold SERVICE_REFS_MAX in *. lia. }
    exists ON, r'. do 2 eexists. split; [done|]. by repeat (split; [done|]); subst n; cbn in *; rewrite Hcl.
  - change (ONOFF_STATE_TO_OFF =? ONOFF_STATE_TO_ON) with false.
    change (ONOFF_STATE_TO_OFF =? ONOFF_STATE_RESETTING) with false.
    change (ONOFF_STATE_TO_OFF =? ONOFF_STATE_TO_OFF) with true. cbn [orb]. set (n := set_state _ _).
    destruct (queue_recheck_minv n OFF false r false ow) as (r'&?&?&Hcl&?).
    { by apply (set_state_enc _ TO_OFF OFF). }
    { subst n. destruct Hm. constructor; cbn; try done; try exact (Hmv' OFF eq_refl); by intros []. }
    exists OFF, r'. do 2 eexists. split; [done|]. repeat (split; [done|]). subst n. cbn in *. by rewrite Hcl, app_nil_r.
  - change (ONOFF_STATE_RESETTING =? ONOFF_STATE_TO_ON) with false.
    change (ONOFF_STATE_RESETTING =? ONOFF_STATE_RESETTING) with true. cbn [orb].
    set (n := set_state _ _). destruct (queue_recheck_minv n OFF false r false ow) as (r'&?&?&Hcl&?).
    { by apply (set_state_enc _ RESETTING OFF). }
    { subst n. destruct Hm. constructor; cbn; try done; try exact (Hmv' OFF eq_refl); by intros []. }
    exists OFF, r'. do 2 eexists. split; [done|]. by repeat (split; [done|]); subst n; cbn in *; rewrite Hcl.
Qed.

(** *** The loop *)

(** The outcome of a piece of the loop: it ends, in the invariant, with the
    assertions kept. *)
Definition settles (s : sys) (r : option sys) : Prop :=
  exists s', r = Some s' /\ inv s' /\ ok s' = ok s.

Lemma settle_closed s md :
  pending EVT_NOP md (owed s) (mgr s) -> cinv (clients (mgr s)) (notify s) ->
  settles s (Some (s <| win := None |>)).
Proof.
  intros [Hf Hm] Hc. eexists. split; [done|]. split; [|done]. exists md, false, false. unfold controlled. cbn.
  by rewrite app_nil_r.
Qed.

Lemma is_nil_spec {A} (l : list A) : is_nil l = true <-> l = [].
Proof. by destruct l. Qed.

(** A transition that is started leaves the window open. *)
Lemma loop_transit n s evt md md' t :
  mflags (mgr s) = enc md false false false -> minv md false true false (owed s) (mgr s) ->
  cinv (clients (mgr s)) (notify s) ->
  (evt <> EVT_RECHECK /\ evt <> EVT_NOP) ->
  needs md (mgr s) = evt ->
  handle evt (mgr s) [] = (set_state (mgr s) (code md'), [], Some t, 0, true) ->
  moving md = false -> moving md' = true -> refs (mgr s) = 0 -> (md' = RESETTING -> md = ERR) ->
  settles s (loop (S n) EVT_RECHECK [] s).
Proof.
  intros Hf Hm Hc [Hr Hn] Hneed Hh Hmv Hmv' H0 Hres. cbn [loop].
  rewrite (decide_True (P := EVT_RECHECK = EVT_RECHECK)) by done.
  rewrite (process_recheck_needs _ _ _ _ _ Hf), Hneed.
  rewrite (decide_False (P := evt = EVT_NOP)), Hh by done. rewrite !orb_true_r. eexists. split; [done|]. split; [|cbn; apply andb_true_r].
  exists md', false, false. split_and!.
  - cbn. by rewrite Hf, enc_set_state, enc_set_processing.
  - cbn. apply minv_flags. destruct Hm as [?????? ? Hmm ?]. constructor; cbn; try done.
    + by destruct md'.
    + intros [-> | ->] ?; [done|]. auto.
    + rewrite Hmv in Hmm. rewrite Hmv'. cbn in *. lia.
    + by destruct md'.
  - unfold controlled. cbn. by rewrite app_nil_r.
  - done.
Qed.

Lemma loop_recheck n s md :
  pending EVT_RECHECK md (owed s) (mgr s) -> cinv (clients (mgr s)) (notify s) ->
  settles s (loop (S n) EVT_RECHECK [] s).
Proof.
  intros [Hf Hm] Hc. destruct (decide (needs md (mgr s) = EVT_NOP)) as [Hn|Hn].
  { cbn [loop]. rewrite (decide_True (P := EVT_RECHECK = EVT_RECHECK)) by done.
    rewrite (process_recheck_needs _ _ _ _ _ Hf), Hn.
    rewrite (decide_True (P := EVT_NOP = EVT_NOP)) by done.
    apply (settle_closed s md); [split; [done|]|done]. destruct Hm. constructor; try done.
    intros Hx. by apply needs_recheck in Hx. }
  assert (H0 : refs (mgr s) = 0).
  { destruct (Z.eq_dec (refs (mgr s)) 0) as [|Hz]; [done|]. pose proof (i_held _ _ _ _ _ _ Hm Hz). subst md.
    exfalso. apply Hn. cbn. by destruct (Z.eqb_spec (refs (mgr s)) 0). }
  pose proof (i_start _ _ _ _ _ _ Hm). pose proof (i_stop _ _ _ _ _ _ Hm).
  assert (Hs := state_of_enc _ _ _ _ _ Hf).
  destruct md; cbn in Hn; try done.
  - destruct (is_nil (clients (mgr s))) eqn:E; [done|].
    apply (loop_transit n s EVT_START OFF TO_ON Start); try done; cbn; rewrite ?E; [done|].
    by rewrite H, Hs.
  - apply (loop_transit n s EVT_STOP ON TO_OFF Stop); try done; cbn; rewrite H0; [done|].
    by rewrite H1, Hs.
  - destruct (is_nil (clients (mgr s))) eqn:E; [done|].
    assert (reset_ (transitions (mgr s)) = true) as Hr.
    { apply (i_reset _ _ _ _ _ _ Hm); [by left|]. intros Hx. by rewrite Hx in E. }
    apply (loop_transit n s EVT_RESET ERR RESETTING Reset); try done; cbn; rewrite ?E; [done|].
    by rewrite Hr, Hs.
Qed.

Lemma loop_complete n s md :
  pending EVT_COMPLETE md (owed s) (mgr s) -> cinv (clients (mgr s)) (notify s) ->
  settles s (loop (S (S n)) EVT_COMPLETE [] s).
Proof.
  intros (r&Hf&Hm) Hc. destruct (process_complete_pending _ _ _ _ (last_res (mgr s)) Hf Hm)
    as (md'&r'&m'&cl&Hp&Hf'&Hm'&Hcl&Hmon).
  remember (S n) as k eqn:Hk. cbn [loop]. rewrite (decide_False (P := EVT_COMPLETE = EVT_RECHECK)),
    (decide_False (P := EVT_COMPLETE = EVT_NOP)) by done. cbn [handle]. rewrite Hp. cbn.
  rewrite orb_false_r. destruct (_ || _) eqn:Hw.
  - eexists. split; [done|]. split; [|cbn; apply andb_true_r]. exists md', false, r'. split_and!.
    + cbn. by rewrite Hf', enc_set_processing.
    + cbn. by apply minv_flags.
    + unfold controlled. cbn. by rewrite <-Hcl.
    + done.
  - apply orb_false_iff in Hw as [_ Hnil]. apply negb_false_iff, is_nil_spec in Hnil. subst cl.
    rewrite app_nil_r in Hcl. destruct (deferred_pending m' md' false r' (owed s) Hf' Hm') as (Hd&Hdc&_).
    destruct (deferred m') as [evt m''] eqn:Edef. cbn in Hd, Hdc.
    assert (Hevt : evt = EVT_NOP \/ evt = EVT_RECHECK).
    { unfold deferred in Edef. rewrite Hf', enc_complete in Edef.
      destruct (flag_set _ _); simplify_eq; auto. }
    set (s1 := _ <| mgr := m'' |>). assert (Hok : ok s1 = ok s) by apply andb_true_r.
    assert (Hs1 : cinv (clients (mgr s1)) (notify s1)) by (cbn; by rewrite Hdc, <-Hcl).
    unfold settles. rewrite <-Hok. destruct Hevt as [->| ->].
    + rewrite decide_True by done. by apply (settle_closed s1 md').
    + rewrite decide_False, Hk by done. by apply (loop_recheck n s1 md').
Qed.

Lemma recheck_event s md c r :
  mflags (mgr s) = enc md (window_open s) c r -> minv md c true (window_transit s) (owed s) (mgr s) ->
  cinv (controlled s) (notify s) -> (win s = None -> c = false /\ r = false) ->
  settles s (process_event EVT_RECHECK s).
Proof.
  intros Hf Hm Hc Hq. unfold process_event. rewrite Hf, enc_processing. unfold window_open, window_transit in *.
  destruct (win s) as [w|] eqn:Hw.
  - rewrite decide_False by done. eexists. split; [done|]. split; [|cbn; apply andb_true_r].
    exists md, c, true. unfold window_open, window_transit, controlled, window_clients in *. cbn. rewrite Hw in *.
    split_and!; [by rewrite Hf, enc_set_recheck|by apply minv_flags|done|done].
  - destruct (Hq eq_refl) as [-> ->]. apply (loop_recheck 2 s md); [done|].
    unfold controlled, window_clients in Hc. by rewrite Hw, app_nil_r in Hc.
Qed.

Lemma complete_event s md r :
  mflags (mgr s) = enc md (window_open s) false r -> minv md true r (window_transit s) (owed s) (mgr s) ->
  cinv (controlled s) (notify s) -> settles s (process_event EVT_COMPLETE s).
Proof.
  intros Hf Hm Hc. unfold process_event. rewrite Hf, enc_processing. unfold window_open, window_transit in *.
  destruct (win s) as [w|] eqn:Hw.
  - rewrite decide_True by done. eexists. split; [done|]. split; [|done].
    exists md, true, r. unfold window_open, window_transit, controlled, window_clients in *. cbn. rewrite Hw in *.
    split_and!; [by rewrite Hf, enc_set_complete|by apply minv_flags|done|done].
  - apply (loop_complete 1 s md).
    + by exists r.
    + unfold controlled, window_clients in Hc. by rewrite Hw, app_nil_r in Hc.
Qed.

(** *** The clients' structures *)

Lemma validate_ok P n :
  (sys_notify_validate P n).1 = 0 ->
  sys_notify_get_method (sys_notify_validate P n).2 <> SYS_NOTIFY_METHOD_COMPLETED.
Proof.
  unfold sys_notify_validate. intros H. cbn [fst snd] in *. rewrite H. cbn [Z.eqb].
  intros Hz. change (sys_notify_get_method n = 0) in Hz. rewrite Hz in H. cbn in H. by rewrite andb_false_r in H.
Qed.

Lemma validate_args_spec P s c :
  exists rv n, validate_args P s c = (rv, s <| notify ::= fun f => <[c := n]> f |>) /\ rv <= 0 /\
    (0 <= rv -> sys_notify_get_method n <> SYS_NOTIFY_METHOD_COMPLETED).
Proof.
  unfold validate_args. pose proof (validate_ok P (notify s c)) as Hv.
  assert ((sys_notify_validate P (notify s c)).1 <= 0) as Hle.
  { unfold sys_notify_validate. cbn [fst]. repeat case_match; done. }
  destruct (sys_notify_validate P (notify s c)) as [rv n] eqn:E. cbn in Hv, Hle.
  do 2 eexists. split; [done|]. destruct (_ && _); split; try done. intros ?. apply Hv. lia.
Qed.

Lemma cinv_insert cl nt c n : cinv cl nt -> c ∉ cl -> cinv cl (<[c := n]> nt).
Proof.
  intros [Hn Hm] Hc. split; [done|]. intros x Hx. rewrite fn_lookup_insert_ne; [by apply Hm|]. by intros ->.
Qed.

Lemma cinv_tail c cl nt n : cinv (c :: cl) nt -> cinv cl (<[c := n]> nt).
Proof.
  intros [[Hc Hn]%NoDup_cons Hm]. apply cinv_insert; [|done]. split; [done|]. intros x Hx. apply Hm. by right.
Qed.

Lemma cinv_perm cl cl' nt : cl ≡ₚ cl' -> cinv cl nt -> cinv cl' nt.
Proof.
  intros Hp [Hn Hm]. split; [by rewrite <-Hp|]. intros x Hx. apply Hm. by rewrite Hp.
Qed.

Lemma cinv_add cl nt c n :
  cinv cl nt -> c ∉ cl -> sys_notify_get_method n <> SYS_NOTIFY_METHOD_COMPLETED -> cinv (c :: cl) (<[c := n]> nt).
Proof.
  intros [Hn Hm] Hc Hv. split; [by constructor|]. intros x Hx. destruct (decide (x = c)) as [->|].
  - by rewrite fn_lookup_insert.
  - rewrite fn_lookup_insert_ne by done. apply Hm. by apply elem_of_cons in Hx as [?|?].
Qed.

Lemma inv_insert s c n : inv s -> c ∉ controlled s -> inv (s <| notify ::= fun f => <[c := n]> f |>).
Proof.
  intros (md&cc&r&Hf&Hm&Hc&Hq) Hn. exists md, cc, r. split; [done|]. split; [done|]. split; [|done].
  by apply cinv_insert.
Qed.

(** A notification is made once, to a structure that is set up. *)
Lemma notify_one_frame P s c state res :
  mgr (notify_one P s c state res) = mgr s /\ win (notify_one P s c state res) = win s /\
  owed (notify_one P s c state res) = owed s /\
  (exists n, notify (notify_one P s c state res) = <[c := n]> (notify s)) /\
  (sys_notify_get_method (notify s c) <> SYS_NOTIFY_METHOD_COMPLETED -> ok (notify_one P s c state res) = ok s).
Proof.
  unfold notify_one, sys_notify_finalize.
  set (sig := if P then _ else _). set (cb := if _ =? _ then method (notify s c) else None).
  assert (Hok : sys_notify_get_method (notify s c) <> SYS_NOTIFY_METHOD_COMPLETED ->
    ok s && negb (sys_notify_get_method (notify s c) =? SYS_NOTIFY_METHOD_COMPLETED) = ok s).
  { intros H. destruct (Z.eqb_spec (sys_notify_get_method (notify s c)) SYS_NOTIFY_METHOD_COMPLETED); [done|].
    apply andb_true_r. }
  destruct sig, cb; cbn; by eauto 10.
Qed.

(** *** The operations *)

(** A client is queued; [md'] is the state, in which it is served later. *)
Lemma minv_queue md c r wt ow m cli :
  minv md c r wt ow m -> md <> ON -> Z.of_nat (length (clients m)) < SERVICE_REFS_MAX ->
  (md = ERR \/ md = RESETTING -> reset_ (transitions m) = true) ->
  minv md c true wt ow (m <| clients ::= fun l => l ++ [cli] |>) /\
  (moving md = true -> minv md c r wt ow (m <| clients ::= fun l => l ++ [cli] |>)).
Proof.
  intros [] Hon Hlen Hres.
  assert (Hl : Z.of_nat (length (clients m ++ [cli])) <= SERVICE_REFS_MAX) by (rewrite length_app; cbn; lia).
  split; [|intros Hmv]; constructor; try (assumption || done || by auto). by destruct md.
Qed.

(** The reference count changes, in state ON. *)
Lemma minv_refs c r r' wt ow m f :
  minv ON c r wt ow m -> 0 <= f (refs m) <= SERVICE_REFS_MAX -> (f (refs m) = 0 -> r' = true) ->
  minv ON c r' wt ow (m <| refs ::= f |>).
Proof. intros [] Hf Hr. constructor; assumption || auto. Qed.

Lemma cinv_queue cl wcl nt c n :
  cinv (cl ++ wcl) nt -> c ∉ cl ++ wcl -> sys_notify_get_method n <> SYS_NOTIFY_METHOD_COMPLETED ->
  cinv ((cl ++ [c]) ++ wcl) (<[c := n]> nt).
Proof.
  intros Hc Hn Hv. apply (cinv_perm (c :: cl ++ wcl)); [|by apply cinv_add].
  rewrite <-app_assoc. apply Permutation_middle.
Qed.

Lemma settles_map {A} (a : A) s r :
  settles s r -> exists s', (fun s => (a, s)) <$> r = Some (a, s') /\ inv s' /\ ok s' = ok s.
Proof. intros (s'&->&Hi&Hok). by exists s'. Qed.

(** The tests of a known state. *)
Ltac state_tests :=
  repeat match goal with
  | |- context [?a =? ?b] =>
      let v := eval vm_compute in (a =? b) in
      lazymatch v with true => idtac | false => idtac end;
      change (a =? b) with v
  end; cbn [orb negb andb].

Lemma onoff_request_inv P c s :
  inv s -> c ∉ controlled s -> Z.of_nat (length (clients (mgr s))) < SERVICE_REFS_MAX ->
  exists rv s', onoff_request P c s = Some (rv, s') /\ inv s' /\ ok s' = ok s.
Proof.
  intros Hi Hc Hlen. unfold onoff_request.
  destruct (validate_args_spec P s c) as (rv&n&->&Hrv&Hv). pose proof (inv_insert s c n Hi Hc) as Hi'.
  destruct (Z.ltb_spec rv 0); [by eauto|]. specialize (Hv ltac:(lia)).
  destruct Hi as (md&cc&r&Hf&Hm&Hci&Hq). cbn [mgr upd set_notify].
  destruct (Z.eqb_spec (refs (mgr s)) SERVICE_REFS_MAX) as [|Hmax]; [by eauto|].
  rewrite (state_of_enc _ _ _ _ _ Hf).
  assert (Hqueue := fun H => minv_queue md cc r (window_transit s) (owed s) (mgr s) c Hm H Hlen).
  assert (Hcq := cinv_queue _ _ _ c n Hci Hc Hv).
  destruct md; state_tests.
  - set (s1 := _ <| mgr ::= _ |>).
    destruct (settles_map (code OFF) s1 (process_event EVT_RECHECK s1)) as (s'&Hs&?&Hok); [|by exists (code OFF), s'].
    apply (recheck_event s1 OFF cc r); [done|by apply Hqueue; [|intros [?|?]]|done..].
  - assert (Hu : u16 (refs (mgr s) + 1) = refs (mgr s) + 1).
    { apply uwrap_small. pose proof (i_refs _ _ _ _ _ _ Hm). unfold SERVICE_REFS_MAX in *. lia. }
    pose proof (i_refs _ _ _ _ _ _ Hm). do 2 eexists. split; [done|]. set (s1 := _ <| mgr ::= _ |>).
    destruct (notify_one_frame P s1 c (code ON) 0) as (Hmg&Hw&Ho&(n'&Hn)&Hok).
    rewrite Hok by (cbn; by rewrite fn_lookup_insert). split; [|done].
    exists ON, cc, r. unfold window_open, window_transit, controlled, window_clients.
    rewrite Hmg, Hw, Ho, Hn. split_and!; [done| |by apply cinv_insert; [apply cinv_insert|]|done].
    apply (minv_refs cc r); [done|..]; cbn -[uwrap]; rewrite Hu; lia.
  - do 2 eexists. split; [done|]. split; [exact Hi'|apply andb_true_r].
  - do 2 eexists. split; [done|]. split; [|done]. exists TO_ON, cc, r. split_and!; [done| |done..].
    by apply Hqueue; [|intros [?|?]|].
  - do 2 eexists. split; [done|]. split; [|done]. exists TO_OFF, cc, r. split_and!; [done| |done..].
    by apply Hqueue; [|intros [?|?]|].
  - by eauto.
Qed.

Lemma onoff_release_inv s :
  inv s -> (state_of (mgr s) = ONOFF_STATE_ON -> 0 < refs (mgr s)) ->
  exists rv s', onoff_release s = Some (rv, s') /\ inv s' /\ ok s' = ok s.
Proof.
  intros Hi Hheld. unfold onoff_release. destruct (Z.eqb_spec (state_of (mgr s)) ONOFF_STATE_ON) as [Hst|];
    cbn [negb]; [|by eauto]. specialize (Hheld Hst).
  destruct Hi as (md&cc&r&Hf&Hm&Hci&Hq). rewrite (state_of_enc _ _ _ _ _ Hf) in Hst |- *.
  assert (md = ON) as -> by (by destruct md).
  set (s1 := _ <| mgr ::= _ |>).
  assert (Hok : ok s1 = ok s) by (cbn; destruct (Z.ltb_spec 0 (refs (mgr s))); [apply andb_true_r|lia]).
  assert (Hr1 : refs (mgr s1) = refs (mgr s) - 1).
  { cbn. apply uwrap_small. pose proof (i_refs _ _ _ _ _ _ Hm). unfold SERVICE_REFS_MAX in *. lia. }
  assert (Hm1 : forall r', (refs (mgr s1) = 0 -> r' = true) ->
    minv ON cc r' (window_transit s1) (owed s1) (mgr s1)).
  { intros r' Hr'. apply (minv_refs cc r); [done| |done].
    pose proof (i_refs _ _ _ _ _ _ Hm). cbn -[uwrap] in Hr1 |- *. rewrite Hr1. lia. }
  destruct (Z.eqb_spec (refs (mgr s1)) 0) as [Hz|Hz].
  - rewrite <-Hok. destruct (settles_map (code ON) s1 (process_event EVT_RECHECK s1)) as (s'&Hs&?&?); [|by exists (code ON), s'].
    apply (recheck_event s1 ON cc r); [done|by apply Hm1|done..].
  - do 2 eexists. split; [done|]. split; [|done]. exists ON, cc, r. split_and!; [done|by apply Hm1|done..].
Qed.

Lemma onoff_reset_inv P c s :
  inv s -> c ∉ controlled s -> Z.of_nat (length (clients (mgr s))) < SERVICE_REFS_MAX ->
  exists rv s', onoff_reset P c s = Some (rv, s') /\ inv s' /\ ok s' = ok s.
Proof.
  intros Hi Hc Hlen. unfold onoff_reset.
  destruct (validate_args_spec P s c) as (rv&n&->&Hrv&Hv). pose proof (inv_insert s c n Hi Hc) as Hi'.
  cbn [mgr upd set_notify]. destruct (reset_ (transitions (mgr s))) eqn:Hres; cycle 1.
  { cbn [negb]. rewrite andb_true_r. destruct (0 <=? rv) eqn:?; [by eauto|].
    destruct (Z.ltb_spec rv 0); [by eauto|lia]. }
  rewrite andb_false_r. destruct (Z.ltb_spec rv 0); [by eauto|]. specialize (Hv ltac:(lia)).
  destruct Hi as (md&cc&r&Hf&Hm&Hci&Hq). rewrite (state_of_enc _ _ _ _ _ Hf).
  assert (Hqueue := fun H => minv_queue md cc r (window_transit s) (owed s) (mgr s) c Hm H Hlen (fun _ => Hres)).
  assert (Hcq := cinv_queue _ _ _ c n Hci Hc Hv).
  destruct md; state_tests; try (by eauto).
  - set (s1 := _ <| mgr ::= _ |>).
    destruct (settles_map (code ERR) s1 (process_event EVT_RECHECK s1)) as (s'&Hs&?&Hok); [|by exists (code ERR), s'].
    apply (recheck_event s1 ERR cc r); [done|by apply Hqueue|done..].
  - do 2 eexists. split; [done|]. split; [|done]. exists RESETTING, cc, r. split_and!; [done| |done..].
    by apply Hqueue.
Qed.

Lemma find_and_remove_perm x l l' : find_and_remove x l = Some l' -> l ≡ₚ x :: l'.
Proof.
  revert l'. induction l as [|y l IH]; intros l'; cbn; [done|]. case_decide as Hx; [by intros [= ->]; subst|].
  destruct (find_and_remove x l) as [l1|]; [|done]. intros [= <-]. rewrite (IH l1 eq_refl). constructor.
Qed.

(** The states in which [onoff_cancel] does not expect to find a client. *)
Definition cancel_asserts (s : sys) : Prop :=
  state_of (mgr s) = ONOFF_STATE_OFF \/ state_of (mgr s) = ONOFF_STATE_ERROR.

Lemma onoff_cancel_inv c s :
  inv s ->
  inv (onoff_cancel c s).2 /\
  (ok (onoff_cancel c s).2 = ok s \/ (cancel_asserts s /\ win s <> None /\ c ∈ clients (mgr s))).
Proof.
  intros Hi. unfold onoff_cancel. destruct (find_and_remove c (clients (mgr s))) as [l|] eqn:Hl; [|by auto].
  apply find_and_remove_perm in Hl. destruct Hi as (md&cc&r&Hf&Hm&Hci&Hq). cbn [snd].
  assert (Hne : clients (mgr s) <> []) by (intros H; rewrite H in Hl; by apply Permutation_nil_cons in Hl).
  split.
  - exists md, cc, r. split; [done|]. split; [|split; [|done]].
    + destruct Hm. apply Permutation_length in Hl. cbn in Hl.
      constructor; try assumption; cbn; [by intros ?; destruct Hne; auto|unfold cid in *; lia|by auto|].
      destruct md; try done; by auto.
    + apply (cinv_perm _ (c :: l ++ window_clients s)) in Hci; [|unfold controlled; by rewrite Hl].
      destruct Hci as [[_ ?]%NoDup_cons Hx]. split; [done|]. intros x Hin. apply Hx. by right.
  - cbn. unfold cancel_asserts. rewrite (state_of_enc _ _ _ _ _ Hf).
    assert (Hin : c ∈ clients (mgr s)) by (rewrite Hl; by left).
    destruct Hm as [_ _ _ _ Hon _ _ _ Hr].
    destruct md; state_tests; try (left; apply andb_true_r); try (by destruct Hne; auto); right;
      (split; [by auto|]); (split; [|done]); intros Hw; destruct (Hq Hw) as [_ ->]; by discriminate (Hr Hne).
Qed.

Lemma transition_complete_inv res s :
  inv s -> owed s = true -> settles s (transition_complete res s).
Proof.
  intros (md&cc&r&Hf&Hm&Hci&Hq) Ho. unfold transition_complete. set (s1 := _ <| owed := false |>).
  assert (Hsum := i_moving _ _ _ _ _ _ Hm). rewrite Ho in Hsum.
  assert (cc = false /\ window_transit s = false) as [-> Hwt].
  { destruct cc, (window_transit s), (moving md); cbn in Hsum; done || lia. }
  apply (complete_event s1 md r); [done| |done].
  change (window_transit s1) with (window_transit s). rewrite Hwt in Hsum |- *.
  destruct Hm. constructor; try assumption.
Qed.

Lemma window_step_inv P s : inv s -> win s <> None -> settles s (window_step P s).
Proof.
  intros Hi Hwin. unfold window_step. destruct (win s) as [w|] eqn:Hw; [|done].
  destruct Hi as (md&cc&r&Hf&Hm&Hci&_). unfold controlled, window_clients, window_open, window_transit in *.
  rewrite Hw in *. destruct (w_mon w) as [[m tmp]|].
  { eexists. split; [done|]. split; [|done]. by exists md, cc, r. }
  destruct (w_clients w) as [|c cl] eqn:Hcl.
  - destruct (w_transit w) as [t|] eqn:Ht.
    + eexists. split; [done|]. split; [|done]. exists md, cc, r. split_and!; [done| |done..].
      destruct Hm as [???????Hsum ?]. constructor; try assumption. cbn in *.
      destruct cc, (owed s), (moving md); cbn in *; lia.
    + set (m1 := (mgr s) <| mflags ::= _ |>).
      destruct (deferred_pending m1 md cc r (owed s)) as (Hd&Hdc&_).
      { cbn. by rewrite Hf, enc_clear_processing. } { by apply minv_flags. }
      destruct (deferred m1) as [evt m2]. cbn in Hd, Hdc. rewrite app_nil_r in Hci.
      set (s1 := s <| mgr := m2 |>). assert (Hc1 : cinv (clients (mgr s1)) (notify s1)) by (cbn; by rewrite Hdc).
      destruct evt; try done.
      * rewrite decide_True by done. by apply (settle_closed s1 md).
      * rewrite decide_False by done. exact (loop_complete 1 (s1 <| win := None |>) md Hd Hc1).
      * rewrite decide_False by done. exact (loop_recheck 2 (s1 <| win := None |>) md Hd Hc1).
  - set (s1 := s <| win := _ |>). eexists. split; [done|].
    destruct (notify_one_frame P s1 c (w_state w) (w_res w)) as (Hmg&Hw'&Ho&(n&Hn)&Hok).
    apply (cinv_perm _ (c :: clients (mgr s) ++ cl)) in Hci; [|by rewrite Permutation_middle].
    split; [|apply Hok; apply Hci; by left].
    exists md, cc, r. unfold window_open, window_transit, controlled, window_clients.
    rewrite Hmg, Hw', Ho, Hn. split_and!; [done|done| |done]. by apply (cinv_tail c).
Qed.

Lemma inv_monitors f s : inv s -> inv (s <| mgr ::= fun m => m <| monitors ::= f |> |>).
Proof.
  intros (md&cc&r&Hf&[]&Hr). exists md, cc, r. split; [exact Hf|]. split; [constructor; assumption|exact Hr].
Qed.

(** ** The theorems *)

Lemma step_inv P l s s' :
  inv s -> step P l s s' ->
  inv s' /\ (ok s' = ok s \/
    exists c rv, l = LCancel c rv /\ cancel_asserts s /\ win s <> None /\ c ∈ clients (mgr s)).
Proof.
  intros Hi Hs. destruct Hs as [c n s Hc|c s rv s' Hc Hl H|s rv s' Hh H|c s rv s' Hc Hl H|c s rv s' H|
    m s s' Hm H|m s rv s' H|res s s' Ho H|s s' H].
  - split; [by apply inv_insert|by left].
  - destruct (onoff_request_inv P c s Hi Hc Hl) as (?&?&?&?&?). simplify_eq. by auto.
  - destruct (onoff_release_inv s Hi Hh) as (?&?&?&?&?). simplify_eq. by auto.
  - destruct (onoff_reset_inv P c s Hi Hc Hl) as (?&?&?&?&?). simplify_eq. by auto.
  - destruct (onoff_cancel_inv c s Hi) as [Hi' Hok]. rewrite H in *. cbn in *. split; [done|].
    destruct Hok as [|(?&?&?)]; [by left|]. right. by exists c, rv.
  - injection H as <-. split; [by apply inv_monitors|by left].
  - unfold onoff_monitor_unregister in H. destruct (find_and_remove m (monitors (mgr s))); simplify_eq;
      (split; [|by left]); [by apply inv_monitors|done].
  - destruct (transition_complete_inv res s Hi Ho) as (?&?&?&?). simplify_eq. by auto.
  - destruct (window_step_inv P s Hi) as (?&?&?&?); [|simplify_eq; by auto].
    intros Hw. unfold window_step in H. by rewrite Hw in H.
Qed.

Lemma initial_inv tr nt : start_ tr = true -> stop_ tr = true -> inv (initial tr nt).
Proof.
  intros Hst Hsp. unfold initial, onoff_manager_init. rewrite Hst, Hsp. exists OFF, false, false.
  split; [done|]. split; [|split; [|done]].
  - constructor; cbn; done || by intros [].
  - split; [apply NoDup_nil_2|]. intros c Hc. by apply elem_of_nil in Hc.
Qed.

Lemma reachable_inv P tr s : start_ tr = true -> stop_ tr = true -> reachable P tr s -> inv s.
Proof. intros Hst Hsp. induction 1 as [nt|l s s' _ IH Hs]; [by apply initial_inv|]. by apply (step_inv P l s). Qed.

(** *** Traces that evaluate *)

Definition guard_step (b : bool) (r : option sys) : option sys := if b then r else None.

(** A step, by its label without the result. *)
Definition exec (P : bool) (l : label) (s : sys) : option sys :=
  let free c := bool_decide (c ∉ controlled s) && (Z.of_nat (length (clients (mgr s))) <? SERVICE_REFS_MAX) in
  match l with
  | LSetup c n => guard_step (free c) (Some (s <| notify ::= fun f => <[c := n]> f |>))
  | LRequest c _ => guard_step (free c) (snd <$> onoff_request P c s)
  | LRelease _ =>
      guard_step (negb (state_of (mgr s) =? ONOFF_STATE_ON) || (0 <? refs (mgr s))) (snd <$> onoff_release s)
  | LReset c _ => guard_step (free c) (snd <$> onoff_reset P c s)
  | LCancel c _ => Some (onoff_cancel c s).2
  | LRegister m => guard_step (bool_decide (m ∉ monitors (mgr s))) (Some (onoff_monitor_register m s).2)
  | LUnregister m _ => Some (onoff_monitor_unregister m s).2
  | LComplete res => guard_step (owed s) (transition_complete res s)
  | LWindow => window_step P s
  end.

Fixpoint run_trace (P : bool) (ls : list label) (s : sys) : option sys :=
  match ls with
  | [] => Some s
  | l :: ls' => s' ← exec P l s; run_trace P ls' s'
  end.

Lemma exec_step P l s s' : exec P l s = Some s' -> exists l', step P l' s s'.
Proof.
  destruct l as [c n|c r|r|c r|c r|m|m r|res|]; cbn [exec]; unfold guard_step; intros H.
  - destruct (bool_decide_reflect (c ∉ controlled s)); [|done]. cbn in H. case_match; [|done].
    injection H as <-. eexists. by constructor.
  - destruct (bool_decide_reflect (c ∉ controlled s)); [|done].
    destruct (Z.ltb_spec (Z.of_nat (length (clients (mgr s)))) SERVICE_REFS_MAX); [|done].
    destruct (onoff_request P c s) as [[rv s1]|] eqn:E; [|done]. injection H as <-. eexists. by eapply step_request.
  - destruct (onoff_release s) as [[rv s1]|] eqn:E; [|by destruct (_ || _)].
    destruct (_ || _) eqn:Hg; [|done]. injection H as <-. eexists. eapply step_release; [|done].
    intros Hst. rewrite Hst in Hg. cbn in Hg. lia.
  - destruct (bool_decide_reflect (c ∉ controlled s)); [|done].
    destruct (Z.ltb_spec (Z.of_nat (length (clients (mgr s)))) SERVICE_REFS_MAX); [|done].
    destruct (onoff_reset P c s) as [[rv s1]|] eqn:E; [|done]. injection H as <-. eexists. by eapply step_reset.
  - injection H as <-. eexists. eapply (step_cancel P c s (onoff_cancel c s).1). apply surjective_pairing.
  - case_bool_decide; [|done]. injection H as <-. eexists. by eapply (step_register P m).
  - injection H as <-. eexists. eapply (step_unregister P m s (onoff_monitor_unregister m s).1).
    apply surjective_pairing.
  - destruct (owed s) eqn:E; [|done]. eexists. by eapply step_complete.
  - eexists. by eapply step_window.
Qed.

Lemma run_trace_reachable P tr ls s s' : reachable P tr s -> run_trace P ls s = Some s' -> reachable P tr s'.
Proof.
  revert s. induction ls as [|l ls IH]; intros s Hs; cbn; [by intros [= <-]|].
  intros (s1&Hl&H)%bind_Some. destruct (exec_step P l s s1 Hl) as [l' Hstep].
  apply (IH s1); [|done]. by apply (reach_step P tr l' s).
Qed.

(** A service with a monitor, whose clients wait for a flag. *)
Definition demo_transitions : onoff_transitions := mk_transitions true true true.
Definition demo_initial : sys := initial demo_transitions (fun _ => sys_notify_init_spinwait).

(** It is requested, comes on, and is released; then requested again while it
    goes off, which completes: the monitor is about to be told. *)
Definition demo_trace : list label :=
  [LRegister 0; LRequest 1 0; LWindow; LWindow; LWindow; LComplete 0; LWindow; LWindow; LWindow;
   LRelease 0; LWindow; LWindow; LWindow; LRequest 2 0; LComplete 0].

(** The same service with one client waiting for it to come on, and on. *)
Definition demo_starting : sys := default demo_initial (run_trace false (take 5 demo_trace) demo_initial).
Definition demo_on : sys := default demo_initial (run_trace false (take 9 demo_trace) demo_initial).
Definition demo_off : sys := default demo_initial (run_trace false demo_trace demo_initial).

Lemma demo_starting_reachable : reachable false demo_transitions demo_starting.
Proof. apply (run_trace_reachable _ _ (take 5 demo_trace) demo_initial); [apply reach_init|by vm_compute]. Qed.

Lemma demo_on_reachable : reachable false demo_transitions demo_on.
Proof. apply (run_trace_reachable _ _ (take 9 demo_trace) demo_initial); [apply reach_init|by vm_compute]. Qed.

Lemma demo_off_reachable : reachable false demo_transitions demo_off.
Proof. apply (run_trace_reachable _ _ demo_trace demo_initial); [apply reach_init|by vm_compute]. Qed.



(** C28: the operations of the interface, the completion of a transition and
    the loop of [process_event] always return in a reachable state; a service
    that is held is on; and no assertion of the code fails in any step,
    except the one of [onoff_cancel], and that one only for a client that waits
    while the machine is off or in error and a callback runs. *)
Theorem onoff_operations_safe (P : bool) (tr : onoff_transitions) (s : sys) :
  start_ tr = true -> stop_ tr = true -> reachable P tr s ->
  (0 < refs (mgr s) -> state_of (mgr s) = ONOFF_STATE_ON) /\
  (forall c, c ∉ controlled s -> Z.of_nat (length (clients (mgr s))) < SERVICE_REFS_MAX ->
     is_Some (onoff_request P c s) /\ is_Some (onoff_reset P c s)) /\
  ((state_of (mgr s) = ONOFF_STATE_ON -> 0 < refs (mgr s)) -> is_Some (onoff_release s)) /\
  (owed s = true -> forall res, is_Some (transition_complete res s)) /\
  (win s <> None -> is_Some (window_step P s)) /\
  (forall l s', step P l s s' ->
     ok s' = ok s \/ exists c rv, l = LCancel c rv /\ cancel_asserts s /\ win s <> None /\ c ∈ clients (mgr s)).
Proof.
  intros Hst Hsp Hr. pose proof (reachable_inv P tr s Hst Hsp Hr) as Hi. split_and!.
  - intros H. destruct Hi as (md&c&r&Hf&Hm&_). rewrite (state_of_enc _ _ _ _ _ Hf).
    by rewrite (i_held _ _ _ _ _ _ Hm) by lia.
  - intros c Hc Hl. destruct (onoff_request_inv P c s Hi Hc Hl) as (?&?&->&_).
    destruct (onoff_reset_inv P c s Hi Hc Hl) as (?&?&->&_). by eauto.
  - intros Hh. destruct (onoff_release_inv s Hi Hh) as (?&?&->&_). by eauto.
  - intros Ho res. destruct (transition_complete_inv res s Hi Ho) as (?&->&_). by eauto.
  - intros Hw. destruct (window_step_inv P s Hi Hw) as (?&->&_). by eauto.
  - intros l s' Hs. by apply (step_inv P l s s' Hi).
Qed.

Lemma onoff_operations_safe_witness :
  refs (mgr demo_on) = 1 /\ state_of (mgr demo_on) = ONOFF_STATE_ON.
Proof.
  split; [vm_compute; reflexivity|].
  apply (onoff_operations_safe false demo_transitions demo_on eq_refl eq_refl demo_on_reachable).
  vm_compute. reflexivity.
Defined.

(** the assertion of [onoff_cancel] does fail: a request made while the
    service goes off is still in the list when the monitors are told that it
    is off, and a monitor, or any other context, that cancels it then finds
    the client in a state the assertion excludes. *)
Theorem onoff_cancel_assertion_fails :
  exists s c rv s', reachable false demo_transitions s /\ ok s = true /\
    step false (LCancel c rv) s s' /\ ok s' = false /\ rv = ONOFF_STATE_OFF.
Proof.
  exists demo_off, 2%nat, ONOFF_STATE_OFF, (onoff_cancel 2 demo_off).2. split; [apply demo_off_reachable|].
  split; [by vm_compute|]. split; [by apply step_cancel; vm_compute|]. split; by vm_compute.
Qed.

End Onoff.
