(* ===== verification/Civil.v ===== *)
(** Civil time (lib/os/timeutil.c and lib/libc/minimal/source/time/gmtime.c).

    [struct tm] and the conversions between seconds since 1970 and civil time.
    Unsigned variables wrap at 32 bits.  Signed arithmetic is on [int64_t]
    ([time_t] has 64 bits) and written without wrap-around: the theorems bound
    the year by the range of [int], for which no intermediate value leaves the
    type.

    The reference is the Gregorian calendar: the length of the months and the
    day that follows a date.  The theorems show that the conversions agree with
    it, from the day of the epoch in both directions, and that they are inverse
    to each other. *)
From S2P Require Import Prelude.

#[local] Ltac Zify.zify_post_hook ::= Z.to_euclidean_division_equations.

Module Civil.

Record tm := mk_tm {
  tm_sec : Z;
  tm_min : Z;
  tm_hour : Z;
  tm_mday : Z;
  tm_mon : Z;
  tm_year : Z;
  tm_wday : Z;
  tm_yday : Z;
  tm_isdst : Z
}.

Definition ERANGE : Z := 34.
Definition INT32_MIN : Z := -2147483648.
Definition INT32_MAX : Z := 2147483647.

(** ** timeutil.c *)

Definition time_days_from_civil (y m d : Z) : Z :=
  let y := y - (if m <=? 2 then 1 else 0) in
  let era := Z.quot (if y >=? 0 then y else y - 399) 400 in
  let yoe := u32 (y - era * 400) in
  let doy := u32 (u32 (153 * u32 (m + (if m >? 2 then -3 else 9)) + 2) / 5 + d) in
  let doe := u32 (yoe * 365 + yoe / 4 - yoe / 100 + doy) in
  era * 146097 + doe - 719468.

Definition timeutil_timegm64 (t : tm) : Z :=
  let y := 1900 + tm_year t in
  let m := u32 (tm_mon t + 1) in
  let d := u32 (tm_mday t - 1) in
  let ndays := time_days_from_civil y m d in
  let time := tm_sec t in
  let time := time + 60 * (tm_min t + 60 * tm_hour t) in
  time + 86400 * ndays.

(** The result and [errno], for a [time_t] of [size] bytes. *)
Definition timeutil_timegm (size : Z) (t : tm) : Z * Z :=
  let time := timeutil_timegm64 t in
  if (size =? 4) && ((time <? INT32_MIN) || (time >? INT32_MAX)) then (-1, ERANGE)
  else (swrap (8 * size) time, 0).

(** ** gmtime.c *)

Definition time_civil_from_days (z : Z) (tp : tm) : tm :=
  let tm_wday := s32 (if z >=? -4 then Z.rem (z + 4) 7 else Z.rem (z + 5) 7 + 6) in
  let z := z + 719468 in
  let era := Z.quot (if z >=? 0 then z else z - 146096) 146097 in
  let doe := u32 (z - era * 146097) in
  let yoe := u32 (doe - doe / 1460 + doe / 36524 - doe / 146096) / 365 in
  let y := yoe + era * 400 in
  let doy := u32 (doe - u32 (365 * yoe + yoe / 4 - yoe / 100)) in
  let mp := u32 (5 * doy + 2) / 153 in
  let d := u32 (doy - u32 (153 * mp + 2) / 5 + 1) in
  let m := u32 (mp + (if mp <? 10 then 3 else -9)) in
  mk_tm (tm_sec tp) (tm_min tp) (tm_hour tp) (s32 d) (s32 (m - 1))
    (s32 (y + (if m <=? 2 then 1 else 0) - 1900)) tm_wday
    (if doy >=? 306 then s32 (doy - 306)
     else s32 (doy + 59 + (if ((yoe mod 4 =? 0) && negb (yoe mod 100 =? 0)) || (yoe =? 0) then 1 else 0)))
    (tm_isdst tp).

Definition gmtime_r (z : Z) : tm :=
  let days := Z.quot (if z >=? 0 then z else z - 86399) 86400 in
  let rem := u32 (z - days * 86400) in
  let result := time_civil_from_days days (mk_tm 0 0 0 0 0 0 0 0 0) in
  let tm_hour := rem / 60 / 60 in
  let rem := u32 (rem - tm_hour * 60 * 60) in
  let tm_min := rem / 60 in
  mk_tm (s32 (rem - tm_min * 60)) tm_min tm_hour (tm_mday result) (tm_mon result) (tm_year result)
    (tm_wday result) (tm_yday result) (tm_isdst result).

(** ** The calendar *)

Definition leap (y : Z) : bool := (y mod 4 =? 0) && (negb (y mod 100 =? 0) || (y mod 400 =? 0)).

(** Months from 1 to 12. *)
Definition days_in_month (y m : Z) : Z :=
  if m =? 2 then (if leap y then 29 else 28)
  else if (m =? 4) || (m =? 6) || (m =? 9) || (m =? 11) then 30 else 31.

Record date := mk_date { year : Z; month : Z; day : Z }.

Definition valid_date (x : date) : Prop := 1 <= month x <= 12 /\ 1 <= day x <= days_in_month (year x) (month x).

Definition next_day (x : date) : date :=
  if day x <? days_in_month (year x) (month x) then mk_date (year x) (month x) (day x + 1)
  else if month x <? 12 then mk_date (year x) (month x + 1) 1
  else mk_date (year x + 1) 1 1.

Definition epoch : date := mk_date 1970 1 1.

(** The date of [struct tm]. *)
Definition date_of (t : tm) : date := mk_date (1900 + tm_year t) (tm_mon t + 1) (tm_mday t).

(** The days of the year before the first of a month. *)
Fixpoint days_before (y : Z) (months : nat) : Z :=
  match months with
  | O => 0
  | S n => days_before y n + days_in_month y (Z.of_nat n + 1)
  end.

(** ** Arithmetic of the algorithms *)

(** C division of a signed number, corrected towards minus infinity. *)
Lemma quot_floor z n : 0 < n -> Z.quot (if z >=? 0 then z else z - (n - 1)) n = z / n.
Proof.
  intros Hn. destruct (Z.geb_spec z 0) as [H|H]; [by apply Z.quot_div_nonneg|].
  replace (z - (n - 1)) with (- (n - 1 - z)) by lia. rewrite Z.quot_opp_l, Z.quot_div_nonneg by lia.
  pose proof (Z.div_mod z n). pose proof (Z.mod_pos_bound z n).
  assert ((n - 1 - z) / n = - (z / n)) as E; [|rewrite E; lia].
  symmetry. apply (Z.div_unique_pos _ _ _ (n - 1 - z mod n)); lia.
Qed.

(** The days before the first of March of year [y], counted from that of
    year 0, and the day of the year that begins there. *)
Definition march (y : Z) : Z := 365 * y + y / 4 - y / 100 + y / 400.
Definition march_day (m d : Z) : Z := (153 * (m + (if m >? 2 then -3 else 9)) + 2) / 5 + d.
Definition march_year (y m : Z) : Z := y - (if m <=? 2 then 1 else 0).

Lemma march_day_range m d : 1 <= m <= 12 -> 0 <= d <= 30 -> 0 <= march_day m d <= 367.
Proof. intros Hm Hd. unfold march_day. destruct (Z.gtb_spec m 2); lia. Qed.

Lemma days_from_civil_eq y m d :
  1 <= m <= 12 -> 0 <= d <= 30 ->
  time_days_from_civil y m d = march (march_year y m) + march_day m d - 719468.
Proof.
  intros Hm Hd. pose proof (march_day_range m d Hm Hd) as Hr. unfold time_days_from_civil. fold (march_year y m).
  set (y' := march_year y m). replace (y' - 399) with (y' - (400 - 1)) by lia. rewrite quot_floor by lia.
  assert (Hyoe : y' - y' / 400 * 400 = y' mod 400) by lia. rewrite Hyoe.
  rewrite (uwrap_small 32 (y' mod 400)) by lia.
  assert (Hi : uwrap 32 (m + (if m >? 2 then -3 else 9)) = m + (if m >? 2 then -3 else 9))
    by (apply uwrap_small; destruct (Z.gtb_spec m 2); lia).
  assert (Hj : 0 <= m + (if m >? 2 then -3 else 9) <= 11) by (destruct (Z.gtb_spec m 2); lia).
  rewrite Hi, (uwrap_small 32 (153 * _ + 2)) by lia. fold (march_day m d).
  rewrite (uwrap_small 32 (march_day m d)) by lia.
  rewrite uwrap_small by lia. unfold march. lia.
Qed.

(** The year of the era, from the day of the era. *)
Definition era_years (doe : Z) : Z := doe - doe / 1460 + doe / 36524 - doe / 146096.

Lemma era_years_mono a b : a <= b -> era_years a <= era_years b.
Proof. unfold era_years. lia. Qed.

Definition start (yoe : Z) : Z := 365 * yoe + yoe / 4 - yoe / 100.
Definition march_length (yoe : Z) : Z := if leap (yoe + 1) then 366 else 365.

Definition year_ok (yoe : Z) : bool :=
  (365 * yoe <=? era_years (start yoe)) &&
  (era_years (start yoe + march_length yoe - 1) <? 365 * (yoe + 1)) &&
  (start yoe + march_length yoe =? (if yoe =? 399 then 146097 else start (yoe + 1))).

Lemma year_ok_all : below 400 year_ok = true.
Proof. vm_compute. reflexivity. Qed.

Lemma era_year yoe doy :
  0 <= yoe < 400 -> 0 <= doy < march_length yoe -> era_years (start yoe + doy) / 365 = yoe.
Proof.
  intros Hy Hd. pose proof (below_spec 400 year_ok yoe year_ok_all ltac:(lia)) as H.
  unfold year_ok in H. rewrite !andb_true_iff, Z.leb_le, Z.ltb_lt in H. destruct H as [[H1 H2] _].
  pose proof (era_years_mono (start yoe) (start yoe + doy) ltac:(lia)).
  pose proof (era_years_mono (start yoe + doy) (start yoe + march_length yoe - 1) ltac:(lia)).
  symmetry. apply (Z.div_unique_pos _ _ _ (era_years (start yoe + doy) - 365 * yoe)); lia.
Qed.

Lemma era_split_upto doe n :
  (n <= 400)%nat -> 0 <= doe < (if decide (n = 400%nat) then 146097 else start (Z.of_nat n)) ->
  exists yoe doy, 0 <= yoe < 400 /\ 0 <= doy < march_length yoe /\ doe = start yoe + doy.
Proof.
  induction n as [|n IH]; intros Hn Hd; [unfold start in Hd; case_decide; lia|].
  destruct (Z.lt_ge_cases doe (start (Z.of_nat n))) as [H|H].
  - apply IH; [lia|]. repeat case_decide; lia.
  - exists (Z.of_nat n), (doe - start (Z.of_nat n)). split; [lia|].
    pose proof (below_spec 400 year_ok (Z.of_nat n) year_ok_all ltac:(lia)) as Hk.
    unfold year_ok in Hk. rewrite !andb_true_iff, Z.eqb_eq in Hk. destruct Hk as [_ Hk].
    replace (Z.of_nat n + 1) with (Z.of_nat (S n)) in Hk by lia.
    destruct (Z.eqb_spec (Z.of_nat n) 399); case_decide; lia.
Qed.

Lemma era_split doe :
  0 <= doe < 146097 -> exists yoe doy, 0 <= yoe < 400 /\ 0 <= doy < march_length yoe /\ doe = start yoe + doy.
Proof. intros Hd. apply (era_split_upto doe 400); [lia|]. by rewrite decide_True. Qed.

(** The month and the day of the month, from the day of the year. *)
Definition month_of (doy : Z) : Z := let mp := (5 * doy + 2) / 153 in mp + (if mp <? 10 then 3 else -9).
Definition mday_of (doy : Z) : Z := doy - (153 * ((5 * doy + 2) / 153) + 2) / 5 + 1.

Definition day_ok (doy : Z) : bool :=
  let m := month_of doy in
  let d := mday_of doy in
  (1 <=? m) && (m <=? 12) && (1 <=? d) && (march_day m (d - 1) =? doy) &&
  (d <=? days_in_month (if doy =? 365 then 0 else 1) m) && Bool.eqb (doy >=? 306) (m <=? 2).

Lemma day_ok_all : below 366 day_ok = true.
Proof. vm_compute. reflexivity. Qed.

Lemma day_of_year doy :
  0 <= doy < 366 ->
  1 <= month_of doy <= 12 /\ 1 <= mday_of doy <= 31 /\ march_day (month_of doy) (mday_of doy - 1) = doy /\
  mday_of doy <= days_in_month (if doy =? 365 then 0 else 1) (month_of doy) /\ (306 <= doy <-> month_of doy <= 2).
Proof.
  intros Hd. pose proof (below_spec 366 day_ok doy day_ok_all ltac:(lia)) as H. unfold day_ok in H.
  rewrite !andb_true_iff, Bool.eqb_true_iff, !Z.leb_le, Z.eqb_eq in H. destruct H as [[[[[H1 H2] H3] H4] H5] H6].
  assert (mday_of doy <= 31) by (etransitivity; [exact H5|]; unfold days_in_month; repeat case_match; lia).
  split_and!; try done. destruct (Z.geb_spec doy 306), (Z.leb_spec (month_of doy) 2); split; intros; done || lia.
Qed.

Definition table_ok (m : Z) : bool :=
  (m =? 0) || below 31 (fun d =>
    let doy := march_day m d in
    (days_in_month 0 m <=? d) || ((0 <=? doy) && (doy <? 366) && (month_of doy =? m) && (mday_of doy =? d + 1) &&
                                  ((doy <? 365) || ((m =? 2) && (d =? 28))))).

Lemma table_ok_all : below 13 table_ok = true.
Proof. vm_compute. reflexivity. Qed.

Lemma days_in_month_le y m : days_in_month y m <= days_in_month 0 m /\ days_in_month 0 m <= 31.
Proof. unfold days_in_month. repeat case_match; split; try done. Qed.

Lemma day_of_date y m d :
  1 <= m <= 12 -> 1 <= d <= days_in_month y m ->
  let doy := march_day m (d - 1) in
  0 <= doy < march_length (march_year y m mod 400) /\ month_of doy = m /\ mday_of doy = d.
Proof.
  intros Hm Hd doy. pose proof (days_in_month_le y m) as [H1 H2].
  pose proof (below_spec 13 table_ok m table_ok_all ltac:(lia)) as H. unfold table_ok in H.
  destruct (Z.eqb_spec m 0) as [|_]; [lia|]. cbn [orb] in H. apply (below_spec 31 _ (d - 1)) in H; [|lia].
  cbv beta zeta in H. destruct (Z.leb_spec (days_in_month 0 m) (d - 1)); [lia|]. cbn [orb] in H. fold doy in H.
  rewrite !andb_true_iff, Z.leb_le, Z.ltb_lt, !Z.eqb_eq, orb_true_iff, andb_true_iff, Z.ltb_lt, !Z.eqb_eq in H.
  destruct H as [[[[H3 H4] H5] H6] H7]. split; [|lia]. split; [done|].
  unfold march_length. destruct (leap (march_year y m mod 400 + 1)) eqn:El; [done|].
  destruct H7 as [?|[-> Hd']]; [done|]. exfalso. assert (d = 29) as -> by lia.
  unfold march_year in El. cbn in El. unfold days_in_month in Hd. cbn in Hd.
  assert (leap y = leap ((y - 1) mod 400 + 1)) as E by (unfold leap; lia). rewrite E, El in Hd. lia.
Qed.

Lemma swrap_small w x : 0 < w -> - 2 ^ (w - 1) <= x < 2 ^ (w - 1) -> swrap w x = x.
Proof.
  intros Hw Hx. unfold swrap. replace (2 ^ w) with (2 * 2 ^ (w - 1)) by (rewrite <-Z.pow_succ_r by lia; f_equal; lia).
  rewrite Z.mod_small; lia.
Qed.

Lemma weekday z : (if z >=? -4 then Z.rem (z + 4) 7 else Z.rem (z + 5) 7 + 6) = (z + 4) mod 7.
Proof. destruct (Z.geb_spec z (-4)); lia. Qed.

Lemma leap_era yoe : 0 <= yoe < 400 ->
  ((yoe mod 4 =? 0) && negb (yoe mod 100 =? 0)) || (yoe =? 0) = leap yoe.
Proof. intros H. unfold leap. lia. Qed.

Lemma start_range yoe doy : 0 <= yoe < 400 -> 0 <= doy < march_length yoe -> 0 <= start yoe /\ start yoe + doy < 146097.
Proof.
  intros Hy Hd. pose proof (below_spec 400 year_ok yoe year_ok_all ltac:(lia)) as H.
  unfold year_ok in H. rewrite !andb_true_iff, Z.eqb_eq in H. destruct H as [_ H].
  split; [unfold start; lia|]. unfold start in *. destruct (Z.eqb_spec yoe 399); lia.
Qed.

Lemma march_length_le yoe : march_length yoe <= 366.
Proof. unfold march_length. by case_match. Qed.

Definition year_of (era yoe doy : Z) : Z := yoe + era * 400 + (if month_of doy <=? 2 then 1 else 0).
Definition yday_of (yoe doy : Z) : Z := if doy >=? 306 then doy - 306 else doy + 59 + (if leap yoe then 1 else 0).

(** The conversion of a day, by its era, year of the era and day of the year. *)
Lemma civil_from_days_eq era yoe doy tp :
  0 <= yoe < 400 -> 0 <= doy < march_length yoe ->
  let z := era * 146097 + start yoe + doy - 719468 in
  INT32_MIN <= year_of era yoe doy - 1900 <= INT32_MAX ->
  time_civil_from_days z tp =
  mk_tm (tm_sec tp) (tm_min tp) (tm_hour tp) (mday_of doy) (month_of doy - 1) (year_of era yoe doy - 1900)
    ((z + 4) mod 7) (yday_of yoe doy) (tm_isdst tp).
Proof.
  intros Hy Hd z Hyear. pose proof (march_length_le yoe) as Hlen. pose proof (start_range yoe doy Hy Hd) as [Hs1 Hs2].
  destruct (day_of_year doy ltac:(lia)) as (Hm&Hmd&_&_&_).
  unfold time_civil_from_days. rewrite weekday.
  replace (z + 719468) with (era * 146097 + (start yoe + doy)) by (unfold z; lia).
  replace (era * 146097 + (start yoe + doy) - 146096) with (era * 146097 + (start yoe + doy) - (146097 - 1)) by lia.
  rewrite quot_floor by lia.
  assert ((era * 146097 + (start yoe + doy)) / 146097 = era) as -> by lia.
  replace (era * 146097 + (start yoe + doy) - era * 146097) with (start yoe + doy) by lia.
  rewrite (uwrap_small 32 (start yoe + doy)) by lia. fold (era_years (start yoe + doy)).
  rewrite (uwrap_small 32 (era_years (start yoe + doy))) by (unfold era_years; lia).
  rewrite era_year by done. fold (start yoe). rewrite (uwrap_small 32 (start yoe)) by lia.
  replace (start yoe + doy - start yoe) with doy by lia. rewrite (uwrap_small 32 doy) by lia.
  rewrite (uwrap_small 32 (5 * doy + 2)) by lia. rewrite (uwrap_small 32 (153 * _ + 2)) by lia.
  fold (mday_of doy). rewrite (uwrap_small 32 (mday_of doy)) by lia.
  change ((5 * doy + 2) / 153 + (if (5 * doy + 2) / 153 <? 10 then 3 else -9)) with (month_of doy).
  rewrite (uwrap_small 32 (month_of doy)) by lia. fold (year_of era yoe doy). rewrite leap_era by done.
  unfold INT32_MIN, INT32_MAX in Hyear. rewrite !swrap_small by (try case_match; lia). done.
Qed.

(** ** The conversions against the calendar *)

Definition days_of (x : date) : Z := time_days_from_civil (year x) (month x) (day x - 1).

Lemma days_of_eq x :
  valid_date x -> days_of x = march (march_year (year x) (month x)) + march_day (month x) (day x - 1) - 719468.
Proof.
  intros [Hm Hd]. pose proof (days_in_month_le (year x) (month x)). apply days_from_civil_eq; lia.
Qed.

Lemma march_era y : march y = y / 400 * 146097 + start (y mod 400).
Proof. unfold march, start. lia. Qed.

(** [z] is in the range of years that [tm_year] can hold. *)
Definition in_years (z : Z) : Prop :=
  days_of (mk_date (1900 + INT32_MIN) 1 1) <= z < days_of (mk_date (1900 + INT32_MAX + 1) 1 1).

Lemma days_of_new_year y : days_of (mk_date y 1 1) = march (y - 1) + 306 - 719468.
Proof. rewrite days_of_eq by (split; cbn; lia). done. Qed.

Lemma date_days_range x : valid_date x ->
  days_of (mk_date (year x) 1 1) <= days_of x < days_of (mk_date (year x + 1) 1 1).
Proof.
  intros Hv. rewrite !days_of_new_year, days_of_eq by done. destruct Hv as [Hm Hd].
  destruct (day_of_date _ _ _ Hm Hd) as (Hdoy&Hmo&_). pose proof (march_length_le (march_year (year x) (month x) mod 400)).
  destruct (day_of_year (march_day (month x) (day x - 1)) ltac:(lia)) as (_&_&_&_&H306). rewrite Hmo in H306.
  unfold march_year, march in *. destruct (Z.leb_spec (month x) 2); lia.
Qed.

Lemma new_year_mono a b : a <= b -> days_of (mk_date a 1 1) <= days_of (mk_date b 1 1).
Proof. rewrite !days_of_new_year. unfold march. lia. Qed.

Lemma in_years_year x : valid_date x -> in_years (days_of x) <-> INT32_MIN <= year x - 1900 <= INT32_MAX.
Proof.
  intros Hv. pose proof (date_days_range x Hv) as Hr. unfold in_years. split.
  - intros Hz. split.
    + destruct (Z.le_gt_cases INT32_MIN (year x - 1900)); [done|].
      pose proof (new_year_mono (year x + 1) (1900 + INT32_MIN) ltac:(lia)). lia.
    + destruct (Z.le_gt_cases (year x - 1900) INT32_MAX); [done|].
      pose proof (new_year_mono (1900 + INT32_MAX + 1) (year x) ltac:(lia)). lia.
  - intros Hy. pose proof (new_year_mono (1900 + INT32_MIN) (year x) ltac:(lia)).
    pose proof (new_year_mono (year x + 1) (1900 + INT32_MAX + 1) ltac:(lia)). lia.
Qed.

Lemma leap_mod y : leap (y mod 400) = leap y.
Proof. unfold leap. lia. Qed.

Lemma days_before_leap y y' n : leap y = leap y' -> days_before y n = days_before y' n.
Proof. intros H. induction n as [|n IH]; cbn [days_before]; [done|]. unfold days_in_month. by rewrite IH, H. Qed.

Definition yday_ok (doy : Z) : bool :=
  let m := month_of doy in
  let n := Z.to_nat (m - 1) in
  if m <=? 2 then doy - 306 =? days_before 1 n + mday_of doy - 1
  else (doy + 59 =? days_before 1 n + mday_of doy - 1) && (doy + 60 =? days_before 0 n + mday_of doy - 1).

Lemma yday_ok_all : below 366 yday_ok = true.
Proof. vm_compute. reflexivity. Qed.

Lemma yday_eq era yoe doy :
  0 <= yoe < 400 -> 0 <= doy < march_length yoe ->
  yday_of yoe doy = days_before (year_of era yoe doy) (Z.to_nat (month_of doy - 1)) + mday_of doy - 1.
Proof.
  intros Hy Hd. pose proof (march_length_le yoe) as Hlen. destruct (day_of_year doy ltac:(lia)) as (Hm&_&_&_&H306).
  pose proof (below_spec 366 yday_ok doy yday_ok_all ltac:(lia)) as H. unfold yday_ok in H. unfold yday_of, year_of.
  destruct (Z.leb_spec (month_of doy) 2) as [Hle|Hgt].
  - destruct (Z.geb_spec doy 306); [|lia]. apply Z.eqb_eq in H. rewrite H.
    assert (month_of doy = 1 \/ month_of doy = 2) as [-> | ->] by lia; done.
  - destruct (Z.geb_spec doy 306); [lia|]. rewrite andb_true_iff, !Z.eqb_eq in H. destruct H as [Hc Hl].
    assert (leap (yoe + era * 400 + 0) = leap yoe) as El.
    { rewrite <-leap_mod. replace ((yoe + era * 400 + 0) mod 400) with yoe by lia. done. }
    destruct (leap yoe) eqn:E.
    + rewrite (days_before_leap _ 0) by (by rewrite El). lia.
    + rewrite (days_before_leap _ 1) by (by rewrite El). lia.
Qed.

(** The civil time of a day. *)
Record civil_day (z : Z) (tp r : tm) : Prop := {
  cd_valid : valid_date (date_of r);
  cd_days : days_of (date_of r) = z;
  cd_wday : tm_wday r = (z + 4) mod 7;
  cd_yday : tm_yday r = days_before (1900 + tm_year r) (Z.to_nat (tm_mon r)) + tm_mday r - 1;
  cd_rest : tm_sec r = tm_sec tp /\ tm_min r = tm_min tp /\ tm_hour r = tm_hour tp /\ tm_isdst r = tm_isdst tp
}.

Lemma march_date era yoe doy :
  0 <= yoe < 400 -> 0 <= doy < march_length yoe ->
  let x := mk_date (year_of era yoe doy) (month_of doy) (mday_of doy) in
  valid_date x /\ days_of x = era * 146097 + start yoe + doy - 719468.
Proof.
  intros Hy Hd x. pose proof (march_length_le yoe). destruct (day_of_year doy ltac:(lia)) as (Hm&Hmd&Hback&Hlen&H306).
  assert (Hv : valid_date x).
  { split; [done|]. split; [apply Hmd|]. cbn. etransitivity; [exact Hlen|]. unfold days_in_month.
    destruct (Z.eqb_spec (month_of doy) 2) as [E|E]; [|done].
    destruct (Z.eqb_spec doy 365) as [Ed|Ed].
    - unfold march_length in Hd. destruct (leap (yoe + 1)) eqn:El; [|lia].
      unfold year_of. rewrite E. cbn. replace (leap (yoe + era * 400 + 1)) with true; [done|].
      rewrite <-El, <-(leap_mod (yoe + 1)), <-(leap_mod (yoe + era * 400 + 1)). f_equal. lia.
    - by destruct (leap (year_of era yoe doy)). }
  split; [done|]. rewrite days_of_eq by done. cbn. rewrite Hback, march_era. unfold march_year, year_of.
  replace (yoe + era * 400 + (if month_of doy <=? 2 then 1 else 0) - (if month_of doy <=? 2 then 1 else 0)) with (era * 400 + yoe) by lia.
  replace ((era * 400 + yoe) / 400) with era by lia. replace ((era * 400 + yoe) mod 400) with yoe by lia. lia.
Qed.

Lemma march_split z : exists era yoe doy,
  0 <= yoe < 400 /\ 0 <= doy < march_length yoe /\ z = era * 146097 + start yoe + doy - 719468.
Proof.
  destruct (era_split ((z + 719468) mod 146097) ltac:(lia)) as (yoe&doy&Hy&Hd&E).
  exists ((z + 719468) / 146097), yoe, doy. split_and!; try done; lia.
Qed.

Lemma civil_from_days_spec z tp : in_years z -> civil_day z tp (time_civil_from_days z tp).
Proof.
  intros Hz. destruct (march_split z) as (era&yoe&doy&Hy&Hd&E).
  destruct (march_date era yoe doy Hy Hd) as [Hv Hx]. rewrite <-E in Hx.
  assert (Hyear : INT32_MIN <= year_of era yoe doy - 1900 <= INT32_MAX).
  { apply (in_years_year _ Hv). by rewrite Hx. }
  pose proof (civil_from_days_eq era yoe doy tp Hy Hd Hyear) as Heq. rewrite <-E in Heq. rewrite Heq.
  assert (Hdate : date_of (time_civil_from_days z tp) = mk_date (year_of era yoe doy) (month_of doy) (mday_of doy)).
  { rewrite Heq. unfold date_of. cbn. f_equal; lia. }
  rewrite Heq in Hdate. split; rewrite ?Hdate; try done. cbn [tm_yday tm_year tm_mon tm_mday].
  rewrite (yday_eq era) by done. f_equal. f_equal. f_equal. lia.
Qed.

Lemma next_day_valid x : valid_date x -> valid_date (next_day x).
Proof.
  intros [Hm Hd]. unfold next_day. assert (Hpos : forall y m, 1 <= days_in_month y m) by
    (intros; unfold days_in_month; by repeat case_match).
  destruct (Z.ltb_spec (day x) (days_in_month (year x) (month x))); [by split; cbn; lia|].
  destruct (Z.ltb_spec (month x) 12); split; cbn [year month day]; try lia; split; try lia; apply Hpos.
Qed.

Lemma march_day_step y m :
  1 <= m <= 12 -> m <> 2 -> m <> 12 -> march_day (m + 1) 0 = march_day m (days_in_month y m - 1) + 1.
Proof.
  intros Hm H2 H12.
  assert (m = 1 \/ m = 3 \/ m = 4 \/ m = 5 \/ m = 6 \/ m = 7 \/ m = 8 \/ m = 9 \/ m = 10 \/ m = 11) as Hc by lia.
  by repeat destruct Hc as [-> | Hc]; [..|subst].
Qed.

Lemma days_of_next x : valid_date x -> days_of (next_day x) = days_of x + 1.
Proof.
  intros Hv. rewrite (days_of_eq (next_day x)) by (by apply next_day_valid). rewrite (days_of_eq x) by done.
  destruct x as [y m d]. destruct Hv as [Hm Hd]. cbn [year month day] in *. unfold next_day. cbn [year month day].
  destruct (Z.ltb_spec d (days_in_month y m)) as [Hlt|Hge]; cbn [year month day].
  { unfold march_day. lia. }
  assert (d = days_in_month y m) as -> by lia. destruct (Z.eq_dec m 12) as [->|H12].
  { cbn. unfold march_year. cbn. replace (y + 1 - 1) with (y - 0) by lia. unfold march_day. cbn. lia. }
  destruct (Z.ltb_spec m 12); [|lia]. cbn [year month day]. change (1 - 1) with 0.
  destruct (Z.eq_dec m 2) as [->|H2].
  { unfold march_year, march_day, days_in_month, march. cbn. unfold leap. repeat case_match; lia. }
  rewrite (march_day_step y) by done. unfold march_year.
  destruct (Z.leb_spec (m + 1) 2), (Z.leb_spec m 2); lia.
Qed.

(** A valid date, by era, year of the era and day of the year. *)
Lemma date_split x : valid_date x -> exists era yoe doy,
  0 <= yoe < 400 /\ 0 <= doy < march_length yoe /\ x = mk_date (year_of era yoe doy) (month_of doy) (mday_of doy).
Proof.
  intros [Hm Hd]. destruct (day_of_date _ _ _ Hm Hd) as (Hr&E1&E2). destruct x as [y m d]. cbn [year month day] in *.
  exists (march_year y m / 400), (march_year y m mod 400), (march_day m (d - 1)). split; [lia|]. split; [done|].
  unfold year_of. rewrite E1, E2. f_equal. unfold march_year. lia.
Qed.

Lemma days_of_inj x y : valid_date x -> valid_date y -> days_of x = days_of y -> x = y.
Proof.
  intros Hx Hy E. destruct (date_split x Hx) as (e1&y1&d1&Hy1&Hd1&->). destruct (date_split y Hy) as (e2&y2&d2&Hy2&Hd2&->).
  rewrite (proj2 (march_date _ _ _ Hy1 Hd1)), (proj2 (march_date _ _ _ Hy2 Hd2)) in E.
  pose proof (start_range _ _ Hy1 Hd1). pose proof (start_range _ _ Hy2 Hd2).
  assert (e1 = e2 /\ start y1 + d1 = start y2 + d2) as [-> Es] by lia.
  assert (y1 = y2) as -> by (rewrite <-(era_year y1 d1), <-(era_year y2 d2) by done; by rewrite Es).
  by assert (d1 = d2) as -> by lia.
Qed.

(** The date [z] days after the epoch, by the rules of the calendar. *)
Inductive dated : Z -> date -> Prop :=
  | dated_epoch : dated 0 epoch
  | dated_next z x : dated z x -> dated (z + 1) (next_day x)
  | dated_previous z x : valid_date x -> dated z (next_day x) -> dated (z - 1) x.

Lemma dated_sound z x : dated z x -> valid_date x /\ days_of x = z.
Proof.
  induction 1 as [|z x Hd [Hv IH]|z x Hv Hd [_ IH]].
  - split; [split; cbn; lia|]. by vm_compute.
  - split; [by apply next_day_valid|]. by rewrite days_of_next, IH.
  - split; [done|]. rewrite days_of_next in IH by done. lia.
Qed.

Lemma date_exists z : exists x, valid_date x /\ days_of x = z.
Proof.
  destruct (march_split z) as (era&yoe&doy&Hy&Hd&->). eexists. by apply march_date.
Qed.

Lemma dated_complete x : valid_date x -> dated (days_of x) x.
Proof.
  assert (Hup : forall n x, valid_date x -> days_of x = Z.of_nat n -> dated (Z.of_nat n) x).
  { induction n as [|n IH]; intros y Hv E.
    - replace y with epoch; [constructor|]. apply days_of_inj; [apply (dated_sound 0); constructor|done|].
      rewrite E. by vm_compute.
    - destruct (date_exists (Z.of_nat n)) as (p&Hp&Ep). replace (Z.of_nat (S n)) with (Z.of_nat n + 1) by lia.
      replace y with (next_day p); [constructor; by apply IH|].
      apply days_of_inj; [by apply next_day_valid|done|]. rewrite days_of_next by done. lia. }
  assert (Hdown : forall n x, valid_date x -> days_of x = - Z.of_nat n -> dated (- Z.of_nat n) x).
  { induction n as [|n IH]; intros y Hv E; [by apply (Hup 0%nat)|].
    replace (- Z.of_nat (S n)) with (- Z.of_nat n - 1) by lia. apply dated_previous; [done|].
    apply IH; [by apply next_day_valid|]. rewrite days_of_next by done. lia. }
  intros Hv. destruct (Z.le_gt_cases 0 (days_of x)).
  - rewrite <-(Z2Nat.id (days_of x)) by done. apply Hup; [done|]. lia.
  - replace (days_of x) with (- Z.of_nat (Z.to_nat (- days_of x))) by lia. apply Hdown; [done|]. lia.
Qed.

(** ** Seconds *)

Record valid_tm (t : tm) : Prop := {
  vt_date : valid_date (date_of t);
  vt_year : INT32_MIN <= tm_year t <= INT32_MAX;
  vt_sec : 0 <= tm_sec t < 60;
  vt_min : 0 <= tm_min t < 60;
  vt_hour : 0 <= tm_hour t < 24
}.

Definition seconds (t : tm) : Z := tm_sec t + 60 * (tm_min t + 60 * tm_hour t).

Lemma timegm64_eq t : valid_date (date_of t) -> timeutil_timegm64 t = seconds t + 86400 * days_of (date_of t).
Proof.
  intros [Hm Hd]. cbn in Hm, Hd. pose proof (days_in_month_le (1900 + tm_year t) (tm_mon t + 1)).
  unfold timeutil_timegm64, seconds, days_of, date_of. cbn [year month day].
  by rewrite (uwrap_small 32 (tm_mon t + 1)), (uwrap_small 32 (tm_mday t - 1)) by lia.
Qed.

(** The fields of a broken-down time. *)
Record broken_down (z : Z) (r : tm) : Prop := {
  bd_date : dated (z / 86400) (date_of r);
  bd_wday : tm_wday r = (z / 86400 + 4) mod 7;
  bd_yday : tm_yday r = days_before (1900 + tm_year r) (Z.to_nat (tm_mon r)) + tm_mday r - 1;
  bd_seconds : seconds r = z mod 86400;
  bd_valid : valid_tm r;
  bd_isdst : tm_isdst r = 0
}.

Lemma clock s :
  0 <= s < 86400 ->
  let h := s / 60 / 60 in
  let r := s - h * 60 * 60 in
  let m := r / 60 in
  0 <= h < 24 /\ 0 <= r < 3600 /\ 0 <= m < 60 /\ 0 <= r - m * 60 < 60 /\ r - m * 60 + 60 * (m + 60 * h) = s.
Proof.
  intros Hs h r m. assert (h = s / 3600) by (unfold h; rewrite Z.div_div; done || lia). split_and!; lia.
Qed.

(** [gmtime_r] without the corrections and wrap-arounds of the code: the time
    of day [s] is added to the date of [r]. *)
Definition at_time (r : tm) (s : Z) : tm :=
  let h := s / 60 / 60 in
  let q := s - h * 60 * 60 in
  let m := q / 60 in
  mk_tm (q - m * 60) m h (tm_mday r) (tm_mon r) (tm_year r) (tm_wday r) (tm_yday r) (tm_isdst r).

Lemma gmtime_r_eq z :
  gmtime_r z = at_time (time_civil_from_days (z / 86400) (mk_tm 0 0 0 0 0 0 0 0 0)) (z mod 86400).
Proof.
  assert (Ed : Z.quot (if z >=? 0 then z else z - 86399) 86400 = z / 86400) by (apply (quot_floor z 86400); lia).
  assert (Es : u32 (z - z / 86400 * 86400) = z mod 86400) by (rewrite uwrap_small; lia).
  destruct (clock (z mod 86400) ltac:(lia)) as (_&Hr&_&Hsec&_). cbv zeta in Hr, Hsec.
  unfold gmtime_r. rewrite Ed. generalize (time_civil_from_days (z / 86400) (mk_tm 0 0 0 0 0 0 0 0 0)) as r. intros r.
  unfold at_time. cbv zeta. rewrite Es. rewrite uwrap_small by lia. by rewrite swrap_small by lia.
Qed.

Lemma at_time_broken_down z tp r :
  in_years (z / 86400) -> civil_day (z / 86400) tp r -> tm_isdst tp = 0 -> broken_down z (at_time r (z mod 86400)).
Proof.
  intros Hz [H1 H2 H3 H4 (_&_&_&H5)] H0.
  destruct (clock (z mod 86400) ltac:(lia)) as (Hh&_&Hm&Hsec&Hsum). cbv zeta in Hh, Hm, Hsec, Hsum.
  assert (Hy : INT32_MIN <= year (date_of r) - 1900 <= INT32_MAX) by (apply (in_years_year _ H1); by rewrite H2).
  cbn [year date_of] in Hy. split.
  - change (dated (z / 86400) (date_of r)). rewrite <-H2. by apply dated_complete.
  - exact H3.
  - exact H4.
  - exact Hsum.
  - split; [exact H1|cbn [at_time tm_year]; lia|exact Hsec|exact Hm|exact Hh].
  - cbn [at_time tm_isdst]. by rewrite H5.
Qed.

Lemma gmtime_broken_down z : in_years (z / 86400) -> broken_down z (gmtime_r z).
Proof.
  intros Hz. rewrite gmtime_r_eq. eapply at_time_broken_down; [done|by apply civil_from_days_spec|done].
Qed.

Lemma broken_down_unique z r r' : broken_down z r -> broken_down z r' -> r = r'.
Proof.
  intros [A1 A2 A3 A4 [A5 A6 A7 A8 A9] A10] [B1 B2 B3 B4 [B5 B6 B7 B8 B9] B10].
  assert (E : date_of r = date_of r').
  { apply days_of_inj; [done..|]. by rewrite (proj2 (dated_sound _ _ A1)), (proj2 (dated_sound _ _ B1)). }
  destruct r, r'. unfold date_of, seconds in *. cbn in *. injection E as E1 E2 E3.
  assert (tm_year0 = tm_year1 /\ tm_mon0 = tm_mon1) as [-> ->] by lia. subst. f_equal; lia.
Qed.

(** ** Properties *)

(** C26: [gmtime_r] implements the Gregorian calendar.  For every second whose
    year [tm_year] can hold, the date is the one that the rules of the calendar
    (the lengths of the months and the leap years) give for the number of days
    from 1 January 1970, forwards or backwards, the day of the week is counted
    from a Thursday, the day of the year is that of the date, and the time of
    day is split into valid hours, minutes and seconds. *)
Theorem gmtime_r_gregorian (z : Z) :
  in_years (z / 86400) ->
  let r := gmtime_r z in
  dated (z / 86400) (date_of r) /\
  (tm_wday r = (z / 86400 + 4) mod 7 /\
   tm_yday r = days_before (1900 + tm_year r) (Z.to_nat (tm_mon r)) + tm_mday r - 1) /\
  (seconds r = z mod 86400 /\ 0 <= tm_sec r < 60 /\ 0 <= tm_min r < 60 /\ 0 <= tm_hour r < 24).
Proof. intros Hz r. destruct (gmtime_broken_down z Hz) as [H1 H2 H3 H4 [_ _ ? ? ?] _]. done. Qed.

Lemma gmtime_r_gregorian_witness :
  dated 19675 (mk_date 2023 11 14) /\ gmtime_r 1700000000 = mk_tm 20 13 22 14 10 123 2 317 0.
Proof.
  split; [|vm_compute; reflexivity].
  destruct (gmtime_r_gregorian 1700000000) as [H _]; [vm_compute; split; discriminate || reflexivity|]. exact H.
Defined.

(** C27: [timeutil_timegm64] and [gmtime_r] are inverse.  Converting seconds to
    civil time and back gives the same seconds for every year that [tm_year]
    can hold, and converting a valid date and time to seconds and back gives
    the same date and time, with the day of the week and of the year filled
    in. *)
Theorem timegm_gmtime_roundtrip (z : Z) (t : tm) :
  (in_years (z / 86400) -> timeutil_timegm64 (gmtime_r z) = z) /\
  (valid_tm t ->
   let days := days_of (date_of t) in
   gmtime_r (timeutil_timegm64 t) =
   mk_tm (tm_sec t) (tm_min t) (tm_hour t) (tm_mday t) (tm_mon t) (tm_year t) ((days + 4) mod 7)
     (days_before (1900 + tm_year t) (Z.to_nat (tm_mon t)) + tm_mday t - 1) 0).
Proof.
  split.
  - intros Hz. destruct (gmtime_broken_down z Hz) as [H1 _ _ H4 [Hd _ _ _ _] _].
    rewrite timegm64_eq by done. rewrite H4, (proj2 (dated_sound _ _ H1)). lia.
  - intros [H1 H2 H3 H4 H5] days. rewrite timegm64_eq by done. fold days.
    assert (Hdiv : (seconds t + 86400 * days) / 86400 = days /\ (seconds t + 86400 * days) mod 86400 = seconds t)
      by (unfold seconds; lia). destruct Hdiv as [Ed Em].
    apply (broken_down_unique (seconds t + 86400 * days)).
    + apply gmtime_broken_down. rewrite Ed. apply in_years_year; [done|]. cbn. lia.
    + split; rewrite ?Ed, ?Em; cbn; try done. by apply dated_complete.
Qed.

Lemma timegm_gmtime_roundtrip_witness :
  timeutil_timegm64 (gmtime_r (-62135596801)) = -62135596801 /\
  gmtime_r (timeutil_timegm64 (mk_tm 59 30 12 29 1 100 0 0 0)) = mk_tm 59 30 12 29 1 100 2 59 0.
Proof.
  destruct (timegm_gmtime_roundtrip (-62135596801) (mk_tm 59 30 12 29 1 100 0 0 0)) as [H1 H2]. split.
  - apply H1. clear H1 H2. vm_compute. split; reflexivity || discriminate.
  - etransitivity; [apply H2|vm_compute; reflexivity].
    clear H1 H2. split; vm_compute; repeat split; reflexivity || discriminate.
Defined.
End Civil.
