(* ===== verification/Crc.v ===== *)
(** Cyclic redundancy checks (lib/os/crc7_sw.c, crc8_sw.c, crc16_sw.c,
    crc32_sw.c, crc32c_sw.c).

    Bytes are integers below 256.  The reference is the shift register that
    takes one bit at a time, in its two directions.  Every step of it
    distributes over exclusive or, which reduces the comparison of the table
    driven and the unrolled routines with it to their 16 or 256 table entries.
    The register is also reversible, so that messages that differ in one byte
    have different checks. *)
From S2P Require Import Prelude.

Module Crc.

Definition crc7_be (seed : Z) (src : list Z) : Z :=
  fold_left (fun seed b =>
    let e := Z.lxor seed b in
    let f := Z.lxor (Z.lxor e (Z.shiftr e 4)) (Z.shiftr e 7) in
    u8 (Z.lxor (Z.shiftl f 1) (Z.shiftl f 4))) src seed.

Definition crc8_ccitt_small_table : list Z :=
  [0x00; 0x07; 0x0e; 0x09; 0x1c; 0x1b; 0x12; 0x15; 0x38; 0x3f; 0x36; 0x31; 0x24; 0x23; 0x2a; 0x2d].

Definition crc8_ccitt (val : Z) (buf : list Z) : Z :=
  let nibble val := u8 (Z.lxor (Z.shiftl val 4) (crc8_ccitt_small_table !!! Z.to_nat (Z.shiftr val 4))) in
  fold_left (fun val b => nibble (nibble (Z.lxor val b))) buf val.

(** [for (j = 0; j < 8; j++)] *)
Fixpoint iter {A} (n : nat) (f : A -> A) (x : A) : A :=
  match n with
  | O => x
  | S n' => iter n' f (f x)
  end.

Definition crc8 (src : list Z) (polynomial initial_value : Z) (reversed : bool) : Z :=
  fold_left (fun crc b =>
    iter 8 (fun crc =>
      if reversed then
        if negb (Z.land crc 0x01 =? 0) then Z.lxor (Z.shiftr crc 1) polynomial else Z.shiftr crc 1
      else
        if negb (Z.land crc 0x80 =? 0) then u8 (Z.lxor (Z.shiftl crc 1) polynomial) else u8 (Z.shiftl crc 1))
      (Z.lxor crc b)) src initial_value.

Definition crc16 (poly seed : Z) (src : list Z) : Z :=
  fold_left (fun crc b =>
    iter 8 (fun crc =>
      if negb (Z.land crc 0x8000 =? 0) then u16 (Z.lxor (Z.shiftl crc 1) poly) else u16 (Z.shiftl crc 1))
      (Z.lxor crc (u16 (Z.shiftl b 8)))) src seed.

Definition crc16_reflect (poly seed : Z) (src : list Z) : Z :=
  fold_left (fun crc b =>
    iter 8 (fun crc =>
      if negb (Z.land crc 0x0001 =? 0) then Z.lxor (Z.shiftr crc 1) poly else Z.shiftr crc 1)
      (Z.lxor crc b)) src seed.

Definition crc16_ccitt (seed : Z) (src : list Z) : Z :=
  fold_left (fun seed b =>
    let e := u8 (Z.lxor seed b) in
    let f := u8 (Z.lxor e (Z.shiftl e 4)) in
    u16 (Z.lxor (Z.lxor (Z.lxor (Z.shiftr seed 8) (Z.shiftl f 8)) (Z.shiftl f 3)) (Z.shiftr f 4))) src seed.

Definition crc16_itu_t (seed : Z) (src : list Z) : Z :=
  fold_left (fun seed b =>
    let seed := u16 (Z.lor (Z.shiftr seed 8) (Z.shiftl seed 8)) in
    let seed := Z.lxor seed b in
    let seed := Z.lxor seed (Z.shiftr (Z.land seed 0xff) 4) in
    let seed := u16 (Z.lxor seed (Z.shiftl seed 12)) in
    u16 (Z.lxor seed (Z.shiftl (Z.land seed 0xff) 5))) src seed.

(** [~crc] on [uint32_t]. *)
Definition not32 (x : Z) : Z := u32 (Z.lnot x).

Definition crc32_table : list Z :=
  [0x00000000; 0x1db71064; 0x3b6e20c8; 0x26d930ac; 0x76dc4190; 0x6b6b51f4; 0x4db26158; 0x5005713c;
   0xedb88320; 0xf00f9344; 0xd6d6a3e8; 0xcb61b38c; 0x9b64c2b0; 0x86d3d2d4; 0xa00ae278; 0xbdbdf21c].

Definition crc32_ieee_update (crc : Z) (data : list Z) : Z :=
  not32 (fold_left (fun crc byte =>
    let crc := Z.lxor (Z.shiftr crc 4) (crc32_table !!! Z.to_nat (Z.land (Z.lxor crc byte) 0x0f)) in
    Z.lxor (Z.shiftr crc 4) (crc32_table !!! Z.to_nat (Z.land (Z.lxor crc (Z.shiftr byte 4)) 0x0f)))
    data (not32 crc)).

Definition crc32_ieee (data : list Z) : Z := crc32_ieee_update 0x0 data.

Definition crc32c_table : list Z :=
  [0x00000000; 0x105EC76F; 0x20BD8EDE; 0x30E349B1; 0x417B1DBC; 0x5125DAD3; 0x61C69362; 0x7198540D;
   0x82F63B78; 0x92A8FC17; 0xA24BB5A6; 0xB21572C9; 0xC38D26C4; 0xD3D3E1AB; 0xE330A81A; 0xF36E6F75].
Definition CRC32C_XOR_OUT : Z := 0xFFFFFFFF.
Definition CRC32C_INIT : Z := 0xFFFFFFFF.

Definition crc32_c (crc : Z) (data : list Z) (first_pkt last_pkt : bool) : Z :=
  let crc := if first_pkt then CRC32C_INIT else crc in
  let crc := fold_left (fun crc b =>
    let crc := Z.lxor (crc32c_table !!! Z.to_nat (Z.land (Z.lxor crc b) 0x0F)) (Z.shiftr crc 4) in
    Z.lxor (crc32c_table !!! Z.to_nat (Z.land (Z.lxor crc (Z.shiftr b 4)) 0x0F)) (Z.shiftr crc 4)) data crc in
  if last_pkt then Z.lxor crc CRC32C_XOR_OUT else crc.

(** ** The reference *)

(** One bit through the register, least, respectively most, significant bit
    first; [w] is the width. *)
Definition step_right (poly x : Z) : Z := Z.lxor (Z.shiftr x 1) (if Z.testbit x 0 then poly else 0).
Definition step_left (w poly x : Z) : Z := Z.lxor (uwrap w (Z.shiftl x 1)) (if Z.testbit x (w - 1) then poly else 0).

(** A message, byte by byte. *)
Definition crc_right (poly crc : Z) (data : list Z) : Z :=
  fold_left (fun crc b => iter 8 (step_right poly) (Z.lxor crc b)) data crc.
Definition crc_left (w poly crc : Z) (data : list Z) : Z :=
  fold_left (fun crc b => iter 8 (step_left w poly) (Z.lxor crc (Z.shiftl b (w - 8)))) data crc.

Definition bytes (l : list Z) : Prop := Forall (fun b => 0 <= b < 2 ^ 8) l.

(** ** The register is linear *)

Definition linear (f : Z -> Z) : Prop := forall x y, f (Z.lxor x y) = Z.lxor (f x) (f y).

Lemma uwrap_bits w x i : 0 <= w -> 0 <= i -> Z.testbit (uwrap w x) i = (i <? w) && Z.testbit x i.
Proof.
  intros Hw Hi. unfold uwrap. destruct (Z.ltb_spec i w).
  - by rewrite Z.mod_pow2_bits_low by lia.
  - by rewrite Z.mod_pow2_bits_high by lia.
Qed.

Lemma uwrap_linear w : 0 <= w -> linear (uwrap w).
Proof.
  intros Hw x y. apply Z.bits_inj'. intros i Hi. rewrite Z.lxor_spec, !uwrap_bits, Z.lxor_spec by done.
  by destruct (i <? w).
Qed.

Lemma lxor_swap a b c d : Z.lxor (Z.lxor a b) (Z.lxor c d) = Z.lxor (Z.lxor a c) (Z.lxor b d).
Proof. rewrite !Z.lxor_assoc. f_equal. rewrite <-!Z.lxor_assoc. f_equal. apply Z.lxor_comm. Qed.

Lemma select_linear n p : linear (fun x => if Z.testbit x n then p else 0).
Proof.
  intros x y. rewrite Z.lxor_spec. destruct (Z.testbit x n), (Z.testbit y n); cbn;
    by rewrite ?Z.lxor_nilpotent, ?Z.lxor_0_l, ?Z.lxor_0_r.
Qed.

Lemma lxor_linear f g : linear f -> linear g -> linear (fun x => Z.lxor (f x) (g x)).
Proof. intros Hf Hg x y. rewrite Hf, Hg. apply lxor_swap. Qed.

Lemma compose_linear f g : linear f -> linear g -> linear (fun x => f (g x)).
Proof. intros Hf Hg x y. by rewrite Hg, Hf. Qed.

Lemma shiftr_linear n : linear (fun x => Z.shiftr x n).
Proof. intros x y. apply Z.shiftr_lxor. Qed.

Lemma shiftl_linear n : linear (fun x => Z.shiftl x n).
Proof. intros x y. apply Z.shiftl_lxor. Qed.

Lemma land_linear m : linear (fun x => Z.land x m).
Proof.
  intros x y. apply Z.bits_inj'. intros i Hi. rewrite Z.lxor_spec, !Z.land_spec, Z.lxor_spec.
  by destruct (Z.testbit m i), (Z.testbit x i), (Z.testbit y i).
Qed.

Lemma id_linear : linear (fun x => x).
Proof. done. Qed.

Lemma step_right_linear poly : linear (step_right poly).
Proof. apply lxor_linear; [apply shiftr_linear|apply select_linear]. Qed.

Lemma step_left_linear w poly : 0 <= w -> linear (step_left w poly).
Proof.
  intros Hw. apply lxor_linear; [|apply select_linear].
  apply (compose_linear (uwrap w) (fun x => Z.shiftl x 1)); [by apply uwrap_linear|apply shiftl_linear].
Qed.

Lemma iter_linear n f : linear f -> linear (iter n f).
Proof. intros Hf. induction n as [|n IH]; intros x y; cbn; [done|]. by rewrite Hf, IH. Qed.

(** ** Ranges *)

Definition word (w x : Z) : Prop := 0 <= x < 2 ^ w.

Lemma lxor_word w a b : 0 <= w -> word w a -> word w b -> word w (Z.lxor a b).
Proof.
  intros Hw Ha Hb. rewrite <-(uwrap_small w a), <-(uwrap_small w b), <-uwrap_linear by done.
  by apply uwrap_range.
Qed.

Lemma shiftr_word w n x : 0 <= n -> word w x -> word w (Z.shiftr x n).
Proof.
  intros Hn [Hx Hlt]. unfold word. rewrite Z.shiftr_div_pow2 by done. split.
  - apply Z.div_pos; lia.
  - apply Z.le_lt_trans with x; [|done]. apply Z.div_le_upper_bound; nia.
Qed.

Lemma select_word w n p x : 0 <= w -> word w p -> word w (if Z.testbit x n then p else 0).
Proof. intros Hw Hp. destruct (Z.testbit x n); [done|]. unfold word. lia. Qed.

Lemma word_weaken v w x : 0 <= v <= w -> word v x -> word w x.
Proof. intros Hv [??]. split; [done|]. apply Z.lt_le_trans with (2 ^ v); [done|]. apply Z.pow_le_mono_r; lia. Qed.

Lemma step_right_word w poly x : 0 <= w -> word w poly -> word w x -> word w (step_right poly x).
Proof. intros Hw Hp Hx. apply lxor_word; [done|by apply shiftr_word|by apply select_word]. Qed.

Lemma step_left_word w poly x : 0 <= w -> word w poly -> word w (step_left w poly x).
Proof. intros Hw Hp. apply lxor_word; [done|by apply uwrap_range|by apply select_word]. Qed.

Lemma iter_inv {A} (P : A -> Prop) n f x : (forall y, P y -> P (f y)) -> P x -> P (iter n f x).
Proof. intros Hf. revert x. induction n; cbn; auto. Qed.

Lemma iter_ext {A} (P : A -> Prop) n f g x :
  (forall y, P y -> f y = g y) -> (forall y, P y -> P (g y)) -> P x -> iter n f x = iter n g x.
Proof. intros Hfg Hg. revert x. induction n as [|n IH]; intros x Hx; cbn; [done|]. rewrite Hfg by done. auto. Qed.

Lemma iter_add {A} m n (f : A -> A) x : iter (m + n) f x = iter n f (iter m f x).
Proof. revert x. induction m as [|m IH]; intros x; cbn; auto. Qed.

Lemma fold_ext (P : Z -> Prop) f g l s :
  (forall s b, P s -> 0 <= b < 2 ^ 8 -> f s b = g s b /\ P (g s b)) ->
  bytes l -> P s -> fold_left f l s = fold_left g l s.
Proof.
  intros H Hl. revert s. induction Hl as [|b l Hb _ IH]; intros s Hs; cbn; [done|].
  destruct (H s b Hs Hb) as [-> ?]. auto.
Qed.

(** ** Splitting a run of the register *)

Lemma iter_shiftl n poly y : iter n (step_right poly) (Z.shiftl y (Z.of_nat n)) = y.
Proof.
  induction n as [|n IH]; [by rewrite Z.shiftl_0_r|]. cbn [iter]. rewrite <-IH at 2. f_equal.
  unfold step_right. rewrite Z.shiftl_spec_low by lia. rewrite Z.lxor_0_r, Z.shiftr_shiftl_l by lia.
  f_equal. lia.
Qed.

(** [n] steps consume the low [n] bits and only move the others. *)
Lemma right_split n poly x :
  iter n (step_right poly) x =
  Z.lxor (iter n (step_right poly) (uwrap (Z.of_nat n) x)) (Z.shiftr x (Z.of_nat n)).
Proof.
  assert (Hx : x = Z.lxor (uwrap (Z.of_nat n) x) (Z.shiftl (Z.shiftr x (Z.of_nat n)) (Z.of_nat n))).
  { apply Z.bits_inj'. intros i Hi. rewrite Z.lxor_spec, uwrap_bits by lia.
    destruct (Z.ltb_spec i (Z.of_nat n)).
    - rewrite Z.shiftl_spec_low by lia. by rewrite xorb_false_r.
    - rewrite Z.shiftl_spec, Z.shiftr_spec by lia. cbn. f_equal. lia. }
  rewrite Hx at 1. rewrite (iter_linear n _ (step_right_linear poly)). f_equal. apply iter_shiftl.
Qed.

Lemma iter_left_shiftl n w poly y :
  0 <= w -> word (w - Z.of_nat n) y -> iter n (step_left w poly) y = Z.shiftl y (Z.of_nat n).
Proof.
  intros Hw. revert y. induction n as [|n IH]; intros y [Hy Hlt]; [by rewrite Z.shiftl_0_r|].
  assert (Hle : Z.of_nat (S n) <= w).
  { destruct (Z.lt_ge_cases w (Z.of_nat (S n))); [|lia]. rewrite Z.pow_neg_r in Hlt by lia. lia. }
  assert (Hp : 2 ^ (w - Z.of_nat n) = 2 * 2 ^ (w - Z.of_nat (S n))).
  { rewrite <-Z.pow_succ_r by lia. f_equal. lia. }
  assert (Hstep : step_left w poly y = Z.shiftl y 1).
  { unfold step_left. assert (Z.testbit y (w - 1) = false) as ->.
    { destruct (Z.eq_dec y 0) as [->|]; [apply Z.bits_0|]. apply Z.bits_above_log2; [done|].
      apply Z.log2_lt_pow2; [lia|]. apply Z.lt_le_trans with (2 ^ (w - Z.of_nat (S n))); [done|].
      apply Z.pow_le_mono_r; lia. }
    rewrite Z.lxor_0_r. apply uwrap_small. rewrite Z.shiftl_mul_pow2 by lia. cbn.
    assert (2 ^ (w - Z.of_nat n) <= 2 ^ w) by (apply Z.pow_le_mono_r; lia). lia. }
  cbn [iter]. rewrite Hstep, IH.
  - rewrite Z.shiftl_shiftl by lia. f_equal. lia.
  - rewrite Z.shiftl_mul_pow2 by lia. unfold word. lia.
Qed.

(** ** The routines against the register *)

Lemma land_bit x n : 0 <= n -> negb (Z.land x (2 ^ n) =? 0) = Z.testbit x n.
Proof.
  intros Hn. destruct (Z.testbit x n) eqn:Hb.
  - destruct (Z.eqb_spec (Z.land x (2 ^ n)) 0) as [H|]; [|done].
    apply (f_equal (fun y => Z.testbit y n)) in H.
    rewrite Z.land_spec, Z.pow2_bits_true, Z.bits_0, Hb in H by done. done.
  - assert (Z.land x (2 ^ n) = 0) as ->; [|done].
    apply Z.bits_inj'. intros i Hi. rewrite Z.land_spec, Z.bits_0. destruct (Z.eq_dec i n) as [->|].
    + by rewrite Hb.
    + rewrite Z.pow2_bits_false by lia. apply andb_false_r.
Qed.

Lemma bit_right poly x :
  (if negb (Z.land x 1 =? 0) then Z.lxor (Z.shiftr x 1) poly else Z.shiftr x 1) = step_right poly x.
Proof.
  change 1 with (2 ^ 0) at 1. rewrite land_bit by done. unfold step_right.
  destruct (Z.testbit x 0); [done|]. by rewrite Z.lxor_0_r.
Qed.

Lemma bit_left w poly x :
  0 < w -> word w poly ->
  (if negb (Z.land x (2 ^ (w - 1)) =? 0) then uwrap w (Z.lxor (Z.shiftl x 1) poly) else uwrap w (Z.shiftl x 1)) =
  step_left w poly x.
Proof.
  intros Hw Hp. rewrite land_bit by lia. unfold step_left.
  destruct (Z.testbit x (w - 1)); [|by rewrite Z.lxor_0_r].
  rewrite uwrap_linear by lia. by rewrite (uwrap_small w poly).
Qed.

Lemma fold_same {A B} (f g : A -> B -> A) l s :
  (forall s b, f s b = g s b) -> fold_left f l s = fold_left g l s.
Proof. intros H. revert s. induction l as [|b l IH]; intros s; cbn; [done|]. by rewrite H. Qed.

Lemma iter_same {A} n (f g : A -> A) x : (forall y, f y = g y) -> iter n f x = iter n g x.
Proof. intros H. by apply (iter_ext (fun _ => True)). Qed.

Lemma crc8_right src poly init : crc8 src poly init true = crc_right poly init src.
Proof. apply fold_same. intros s b. apply iter_same. intros y. apply bit_right. Qed.

Lemma crc16_reflect_right poly seed src : crc16_reflect poly seed src = crc_right poly seed src.
Proof. apply fold_same. intros s b. apply iter_same. intros y. apply bit_right. Qed.

Lemma crc8_left src poly init : word 8 poly -> crc8 src poly init false = crc_left 8 poly init src.
Proof.
  intros Hp. apply fold_same. intros s b. rewrite Z.shiftl_0_r. apply iter_same. intros y. by apply (bit_left 8).
Qed.

Lemma crc16_left poly seed src :
  word 16 poly -> bytes src -> crc16 poly seed src = crc_left 16 poly seed src.
Proof.
  intros Hp Hl. apply (fold_ext (fun _ => True)); [|done..]. intros s b _ Hb. split; [|done].
  change (16 - 8) with 8. rewrite (uwrap_small 16 (Z.shiftl b 8)).
  - apply iter_same. intros y. by apply (bit_left 16).
  - rewrite Z.shiftl_mul_pow2 by done. lia.
Qed.

(** The registers of eight bits: all the values of [seed ^ byte]. *)
Lemma left8_byte (f : Z -> Z) poly :
  below 256 (fun e => f e =? iter 8 (step_left 8 poly) e) = true -> word 8 poly ->
  forall seed b, word 8 seed -> 0 <= b < 2 ^ 8 ->
  f (Z.lxor seed b) = iter 8 (step_left 8 poly) (Z.lxor seed (Z.shiftl b (8 - 8))) /\
  word 8 (iter 8 (step_left 8 poly) (Z.lxor seed (Z.shiftl b (8 - 8)))).
Proof.
  intros Hf Hp seed b Hs Hb. rewrite Z.shiftl_0_r.
  assert (He : word 8 (Z.lxor seed b)) by (by apply lxor_word). split.
  - apply Z.eqb_eq. by apply (below_spec 256 (fun e => f e =? iter 8 (step_left 8 poly) e)).
  - apply iter_inv; [|done]. intros y _. by apply step_left_word.
Qed.

Lemma crc7_be_left seed src : word 8 seed -> bytes src -> crc7_be seed src = crc_left 8 0x12 seed src.
Proof.
  intros Hs Hl. apply (fold_ext (word 8)); [|done..].
  by apply (left8_byte (fun e => let f := Z.lxor (Z.lxor e (Z.shiftr e 4)) (Z.shiftr e 7) in
    u8 (Z.lxor (Z.shiftl f 1) (Z.shiftl f 4)))); [vm_compute|].
Qed.

Lemma crc8_ccitt_left val buf : word 8 val -> bytes buf -> crc8_ccitt val buf = crc_left 8 0x07 val buf.
Proof.
  intros Hs Hl. apply (fold_ext (word 8)); [|done..].
  by apply (left8_byte (fun e =>
    let nibble val := u8 (Z.lxor (Z.shiftl val 4) (crc8_ccitt_small_table !!! Z.to_nat (Z.shiftr val 4))) in
    nibble (nibble e))); [vm_compute|].
Qed.

Lemma iter_right_word n w poly x : 0 <= w -> word w poly -> word w x -> word w (iter n (step_right poly) x).
Proof. intros ???. apply iter_inv; [|done]. intros y ?. by apply step_right_word. Qed.

Lemma crc16_ccitt_right seed src :
  word 16 seed -> bytes src -> crc16_ccitt seed src = crc_right 0x8408 seed src.
Proof.
  intros Hs Hl. apply (fold_ext (word 16)); [|done..]. clear. intros s b Hs Hb.
  assert (Hx : word 16 (iter 8 (step_right 0x8408) (Z.lxor s b))).
  { apply iter_right_word; [done..|]. apply lxor_word; [done..|]. by apply (word_weaken 8). }
  split; [|done]. rewrite <-(uwrap_small 16 (iter _ _ _)) by done. f_equal.
  rewrite right_split. change (Z.of_nat 8) with 8. rewrite Z.shiftr_lxor.
  assert (Z.shiftr b 8 = 0) as -> by (rewrite Z.shiftr_div_pow2 by done; by apply Z.div_small).
  rewrite Z.lxor_0_r, !Z.lxor_assoc, Z.lxor_comm. f_equal.
  apply Z.eqb_eq. apply (below_spec 256 (fun e => let f := u8 (Z.lxor e (Z.shiftl e 4)) in
    Z.lxor (Z.shiftl f 8) (Z.lxor (Z.shiftl f 3) (Z.shiftr f 4)) =? iter 8 (step_right 0x8408) e)).
  - by vm_compute.
  - by apply uwrap_range.
Qed.

(** [crc16_itu_t]: what its last three lines do to the swapped word. *)
Definition itu_mix (seed : Z) : Z :=
  let seed := Z.lxor seed (Z.shiftr (Z.land seed 0xff) 4) in
  let seed := u16 (Z.lxor seed (Z.shiftl seed 12)) in
  u16 (Z.lxor seed (Z.shiftl (Z.land seed 0xff) 5)).

Lemma itu_mix_linear : linear itu_mix.
Proof.
  assert (H1 : linear (fun x => Z.lxor x (Z.shiftr (Z.land x 0xff) 4))).
  { apply (lxor_linear (fun x => x)); [done|].
    apply (compose_linear (fun x => Z.shiftr x 4)); [apply shiftr_linear|apply land_linear]. }
  assert (H2 : linear (fun x => u16 (Z.lxor x (Z.shiftl x 12)))).
  { apply (compose_linear u16); [by apply uwrap_linear|].
    apply (lxor_linear (fun x => x)); [done|apply shiftl_linear]. }
  assert (H3 : linear (fun x => u16 (Z.lxor x (Z.shiftl (Z.land x 0xff) 5)))).
  { apply (compose_linear u16); [by apply uwrap_linear|]. apply (lxor_linear (fun x => x)); [done|].
    apply (compose_linear (fun x => Z.shiftl x 5)); [apply shiftl_linear|apply land_linear]. }
  intros x y. unfold itu_mix. cbv zeta. by rewrite H1, H2, H3.
Qed.

(** The swapped word, by its bytes: [lo] above, [hi ^ b] below. *)
Lemma itu_swap s b :
  word 16 s -> 0 <= b < 2 ^ 8 ->
  Z.lxor (u16 (Z.lor (Z.shiftr s 8) (Z.shiftl s 8))) b =
  Z.lxor (Z.lxor (Z.shiftr s 8) b) (Z.shiftl (u8 s) 8).
Proof.
  intros Hs Hb. rewrite Z.lxor_assoc, (Z.lxor_comm b), <-Z.lxor_assoc. f_equal.
  apply Z.bits_inj'. intros i Hi. rewrite uwrap_bits, Z.lxor_spec, Z.lor_spec, Z.shiftr_spec by done.
  assert (Hz : forall j, 16 <= j -> Z.testbit s j = false).
  { intros j Hj. destruct (Z.eq_dec s 0) as [->|]; [apply Z.bits_0|]. destruct Hs.
    apply Z.bits_above_log2; [lia|]. apply Z.lt_le_trans with 16; [|done]. apply Z.log2_lt_pow2; lia. }
  destruct (Z.ltb_spec i 8).
  - rewrite !Z.shiftl_spec_low by lia. rewrite orb_false_r, xorb_false_r.
    by destruct (Z.ltb_spec i 16); [|lia].
  - rewrite (Hz (i + 8)), !Z.shiftl_spec, uwrap_bits by lia. cbn.
    destruct (Z.ltb_spec i 16), (Z.ltb_spec (i - 8) 8); try lia; cbn; by rewrite ?xorb_false_l.
Qed.

Lemma itu_mix_high lo : word 8 lo -> itu_mix (Z.shiftl lo 8) = Z.shiftl lo 8.
Proof. intros H. apply Z.eqb_eq. by apply (below_spec 256 (fun l => itu_mix (Z.shiftl l 8) =? Z.shiftl l 8)). Qed.

Lemma itu_mix_low e : word 8 e -> itu_mix e = iter 8 (step_left 16 0x1021) (Z.shiftl e 8).
Proof.
  intros H. apply Z.eqb_eq.
  by apply (below_spec 256 (fun e => itu_mix e =? iter 8 (step_left 16 0x1021) (Z.shiftl e 8))).
Qed.

Lemma high_low s : s = Z.lxor (Z.shiftl (Z.shiftr s 8) 8) (u8 s).
Proof.
  apply Z.bits_inj'. intros i Hi. rewrite Z.lxor_spec, uwrap_bits by done.
  destruct (Z.ltb_spec i 8).
  - rewrite Z.shiftl_spec_low by lia. by rewrite xorb_false_l.
  - rewrite Z.shiftl_spec, Z.shiftr_spec by lia. cbn. rewrite xorb_false_r. f_equal. lia.
Qed.

Lemma crc16_itu_t_left seed src :
  word 16 seed -> bytes src -> crc16_itu_t seed src = crc_left 16 0x1021 seed src.
Proof.
  intros Hs Hl. apply (fold_ext (word 16)); [|done..]. clear. intros s b Hs Hb.
  split; [|apply iter_inv; [|by apply lxor_word; [| |unfold word; rewrite Z.shiftl_mul_pow2; lia]];
    intros; by apply step_left_word].
  transitivity (itu_mix (Z.lxor (u16 (Z.lor (Z.shiftr s 8) (Z.shiftl s 8))) b)); [done|].
  change (16 - 8) with 8.
  assert (Hhi : word 8 (Z.shiftr s 8)).
  { destruct Hs. unfold word. rewrite Z.shiftr_div_pow2 by done. split; [apply Z.div_pos; lia|].
    apply Z.div_lt_upper_bound; lia. }
  assert (Hlo : word 8 (u8 s)) by (by apply uwrap_range).
  rewrite itu_swap, itu_mix_linear, itu_mix_high, itu_mix_low by (done || by apply lxor_word).
  assert (Z.lxor s (Z.shiftl b 8) = Z.lxor (Z.shiftl (Z.lxor (Z.shiftr s 8) b) 8) (u8 s)) as ->.
  { rewrite (high_low s) at 1. rewrite Z.shiftl_lxor, !Z.lxor_assoc. f_equal. apply Z.lxor_comm. }
  rewrite (iter_linear 8 _ (step_left_linear 16 _ ltac:(done))). f_equal.
  by rewrite (iter_left_shiftl 8 16).
Qed.

(** ** The tables of sixteen words *)

Definition nibble_table (poly : Z) (table : list Z) : Prop :=
  forall x, table !!! Z.to_nat (Z.land x 0x0f) = iter 4 (step_right poly) (uwrap 4 x).

Lemma nibble_table_check poly table :
  below 16 (fun e => table !!! Z.to_nat e =? iter 4 (step_right poly) e) = true -> nibble_table poly table.
Proof.
  intros H x. change 0x0f with (Z.ones 4). rewrite Z.land_ones by done. apply Z.eqb_eq.
  apply (below_spec 16 (fun e => table !!! Z.to_nat e =? iter 4 (step_right poly) e)); [done|].
  by apply uwrap_range.
Qed.

Lemma nibble_byte poly table crc b :
  nibble_table poly table -> 0 <= b < 2 ^ 8 ->
  (let crc := Z.lxor (Z.shiftr crc 4) (table !!! Z.to_nat (Z.land (Z.lxor crc b) 0x0f)) in
   Z.lxor (Z.shiftr crc 4) (table !!! Z.to_nat (Z.land (Z.lxor crc (Z.shiftr b 4)) 0x0f))) =
  iter 8 (step_right poly) (Z.lxor crc b).
Proof.
  intros Ht Hb. cbv zeta. change 8%nat with (4 + 4)%nat. rewrite iter_add, (right_split 4 _ (Z.lxor crc b)).
  change (Z.of_nat 4) with 4. rewrite (Z.shiftr_lxor crc b), Ht.
  set (t := iter 4 _ (uwrap 4 _)). rewrite <-Z.lxor_assoc, (Z.lxor_comm t).
  set (c := Z.lxor (Z.shiftr crc 4) t). rewrite right_split, Ht. change (Z.of_nat 4) with 4.
  rewrite Z.shiftr_lxor, Z.shiftr_shiftr by done.
  assert (Z.shiftr b (4 + 4) = 0) as -> by (rewrite Z.shiftr_div_pow2 by done; by apply Z.div_small).
  by rewrite Z.lxor_0_r, Z.lxor_comm.
Qed.

Lemma crc32_table_ok : nibble_table 0xEDB88320 crc32_table.
Proof. apply nibble_table_check. by vm_compute. Qed.

Lemma crc32c_table_ok : nibble_table 0x82F63B78 crc32c_table.
Proof. apply nibble_table_check. by vm_compute. Qed.

Lemma crc32_ieee_update_right crc data :
  bytes data -> crc32_ieee_update crc data = not32 (crc_right 0xEDB88320 (not32 crc) data).
Proof.
  intros Hl. unfold crc32_ieee_update. f_equal. apply (fold_ext (fun _ => True)); [|done..]. intros s b _ Hb.
  split; [|done]. by apply (nibble_byte _ _ _ _ crc32_table_ok).
Qed.

Lemma crc32_c_right crc data first last :
  bytes data ->
  crc32_c crc data first last =
  let r := crc_right 0x82F63B78 (if first then CRC32C_INIT else crc) data in
  if last then Z.lxor r CRC32C_XOR_OUT else r.
Proof.
  intros Hl. unfold crc32_c. cbv zeta.
  assert (forall s, fold_left (fun crc b =>
    Z.lxor (crc32c_table !!! Z.to_nat (Z.land (Z.lxor
      (Z.lxor (crc32c_table !!! Z.to_nat (Z.land (Z.lxor crc b) 0x0F)) (Z.shiftr crc 4)) (Z.shiftr b 4)) 0x0F))
      (Z.shiftr (Z.lxor (crc32c_table !!! Z.to_nat (Z.land (Z.lxor crc b) 0x0F)) (Z.shiftr crc 4)) 4)) data s =
    crc_right 0x82F63B78 s data) as Hf; [|by rewrite !Hf].
  intros s. apply (fold_ext (fun _ => True)); [|done..]. clear s. intros s b _ Hb. split; [|done].
  rewrite <-(nibble_byte _ _ _ _ crc32c_table_ok) by done. cbv zeta.
  by rewrite !(Z.lxor_comm (crc32c_table !!! _)).
Qed.

(** ** The register is reversible *)

(** A map of words of [w] bits to words of [w] bits that sends only 0 to 0. *)
Definition faithful (w : Z) (f : Z -> Z) : Prop :=
  linear f /\ forall x, word w x -> word w (f x) /\ (f x = 0 -> x = 0).

Lemma faithful_inj w f x y : 0 <= w -> faithful w f -> word w x -> word w y -> f x = f y -> x = y.
Proof.
  intros Hw [Hl Hf] Hx Hy Heq. apply Z.lxor_eq. apply Hf; [by apply lxor_word|].
  by rewrite Hl, Heq, Z.lxor_nilpotent.
Qed.

Lemma iter_faithful n w f : faithful w f -> faithful w (iter n f).
Proof.
  intros [Hl Hf]. split; [by apply iter_linear|]. induction n as [|n IH]; intros x Hx; cbn; [done|].
  destruct (Hf x Hx) as [Hw H0], (IH (f x) Hw). auto.
Qed.

Lemma word_high w x i : word w x -> 0 <= w <= i -> Z.testbit x i = false.
Proof.
  intros [Hx Hlt] Hi. destruct (Z.eq_dec x 0) as [->|]; [apply Z.bits_0|]. apply Z.bits_above_log2; [done|].
  apply Z.lt_le_trans with w; [|lia]. apply Z.log2_lt_pow2; lia.
Qed.

Lemma step_right_faithful w poly :
  0 < w -> word w poly -> Z.testbit poly (w - 1) = true -> faithful w (step_right poly).
Proof.
  intros Hw Hp Htop. split; [apply step_right_linear|]. intros x Hx.
  split; [apply step_right_word; lia || done|]. intros H0. unfold step_right in H0.
  destruct (Z.testbit x 0) eqn:Hb.
  - apply (f_equal (fun y => Z.testbit y (w - 1))) in H0.
    rewrite Z.lxor_spec, Z.shiftr_spec, Z.bits_0, Htop, (word_high w) in H0 by (lia || done). done.
  - rewrite Z.lxor_0_r in H0. apply Z.bits_inj'. intros i Hi. rewrite Z.bits_0.
    destruct (Z.eq_dec i 0) as [->|]; [done|].
    apply (f_equal (fun y => Z.testbit y (i - 1))) in H0. rewrite Z.shiftr_spec, Z.bits_0 in H0 by lia.
    by replace (i - 1 + 1) with i in H0 by lia.
Qed.

Lemma step_left_faithful w poly :
  0 < w -> word w poly -> Z.testbit poly 0 = true -> faithful w (step_left w poly).
Proof.
  intros Hw Hp Hlow. split; [apply step_left_linear; lia|]. intros x Hx.
  split; [apply step_left_word; lia || done|]. intros H0. unfold step_left in H0.
  assert (Htop : Z.testbit x (w - 1) = false).
  { destruct (Z.testbit x (w - 1)); [|done]. apply (f_equal (fun y => Z.testbit y 0)) in H0.
    rewrite Z.lxor_spec, uwrap_bits, Z.shiftl_spec_low, Z.bits_0, Hlow in H0 by lia.
    by rewrite andb_false_r in H0. }
  rewrite Htop, Z.lxor_0_r in H0. apply Z.bits_inj'. intros i Hi. rewrite Z.bits_0.
  destruct (Z.lt_trichotomy i (w - 1)) as [Hlt|[->|Hgt]]; [|done|by apply (word_high w); [|lia]].
  apply (f_equal (fun y => Z.testbit y (i + 1))) in H0.
  rewrite uwrap_bits, Z.shiftl_spec, Z.bits_0 in H0 by lia.
  replace (i + 1 - 1) with i in H0 by lia. by destruct (Z.ltb_spec (i + 1) w); [|lia].
Qed.

(** A register that a byte enters at [place], over a message: states that
    differ stay different, and a byte that differs makes them differ. *)
Section Detect.
Context (w : Z) (step : Z -> Z) (place : Z -> Z).
Hypothesis (Hw : 0 <= w) (Hstep : faithful w step).
Hypothesis Hplace : forall b, 0 <= b < 2 ^ 8 -> word w (place b).
Hypothesis Hinj : forall b c, place b = place c -> b = c.

Let run := fold_left (fun crc b => iter 8 step (Z.lxor crc (place b))).

Lemma run_word data s : bytes data -> word w s -> word w (run data s).
Proof.
  intros Hl. revert s. induction Hl as [|b data Hb _ IH]; intros s Hs; cbn [run fold_left]; [done|].
  apply IH. apply iter_faithful; [done|]. by apply lxor_word; [| |apply Hplace].
Qed.

Lemma byte_state_inj s t b c :
  word w s -> word w t -> 0 <= b < 2 ^ 8 -> 0 <= c < 2 ^ 8 ->
  iter 8 step (Z.lxor s (place b)) = iter 8 step (Z.lxor t (place c)) ->
  Z.lxor s (place b) = Z.lxor t (place c).
Proof.
  intros Hs Ht Hb Hc. apply (faithful_inj w); [done|by apply iter_faithful|..]; apply lxor_word; auto.
Qed.

Lemma run_inj data s t : bytes data -> word w s -> word w t -> run data s = run data t -> s = t.
Proof.
  intros Hl. revert s t. induction Hl as [|b data Hb _ IH]; intros s t Hs Ht; cbn [run fold_left]; [done|].
  intros H. apply IH in H; [|apply iter_faithful; [done|]; apply lxor_word; auto..].
  apply byte_state_inj in H; [|done..]. apply (f_equal (fun x => Z.lxor x (place b))) in H.
  by rewrite !Z.lxor_assoc, !Z.lxor_nilpotent, !Z.lxor_0_r in H.
Qed.

Lemma run_detects pre b c post s :
  bytes (pre ++ b :: c :: post) -> word w s -> b <> c -> run (pre ++ b :: post) s <> run (pre ++ c :: post) s.
Proof.
  intros [Hpre [Hb [Hc Hpost]%Forall_cons]%Forall_cons]%Forall_app Hs Hbc H. apply Hbc, Hinj.
  unfold run in H. rewrite !fold_left_app in H. cbn [fold_left] in H. fold run in H.
  assert (Hr : word w (run pre s)) by (by apply run_word).
  apply run_inj in H; [|done|apply iter_faithful; [done|]; apply lxor_word; auto..].
  apply byte_state_inj in H; [|done..].
  apply (f_equal (Z.lxor (run pre s))) in H. by rewrite <-!Z.lxor_assoc, !Z.lxor_nilpotent, !Z.lxor_0_l in H.
Qed.
End Detect.

Lemma crc_right_detects w poly pre b c post s :
  8 <= w -> word w poly -> Z.testbit poly (w - 1) = true ->
  bytes (pre ++ b :: c :: post) -> word w s -> b <> c ->
  crc_right poly s (pre ++ b :: post) <> crc_right poly s (pre ++ c :: post).
Proof.
  intros Hw Hp Htop. apply (run_detects w (step_right poly) (fun b => b)); [lia| | |done].
  - apply step_right_faithful; lia || done.
  - intros x Hx. by apply (word_weaken 8); [lia|].
Qed.

Lemma crc_left_detects w poly pre b c post s :
  8 <= w -> word w poly -> Z.testbit poly 0 = true ->
  bytes (pre ++ b :: c :: post) -> word w s -> b <> c ->
  crc_left w poly s (pre ++ b :: post) <> crc_left w poly s (pre ++ c :: post).
Proof.
  intros Hw Hp Hlow. apply (run_detects w (step_left w poly) (fun b => Z.shiftl b (w - 8))); [lia|..].
  - apply step_left_faithful; lia || done.
  - intros x Hx. unfold word. rewrite Z.shiftl_mul_pow2 by lia.
    assert (2 ^ w = 2 ^ 8 * 2 ^ (w - 8)) as -> by (rewrite <-Z.pow_add_r by lia; f_equal; lia).
    assert (0 < 2 ^ (w - 8)) by (apply Z.pow_pos_nonneg; lia). nia.
  - intros x y H. apply (f_equal (fun z => Z.shiftr z (w - 8))) in H.
    by rewrite !Z.shiftr_shiftl_l, Z.sub_diag, !Z.shiftl_0_r in H by lia.
Qed.

(** ** Complement and residue *)

Lemma not32_ones x : word 32 x -> not32 x = Z.lxor x (Z.ones 32).
Proof.
  intros Hx. apply Z.bits_inj'. intros i Hi. unfold not32. rewrite uwrap_bits, Z.lnot_spec, Z.lxor_spec by done.
  destruct (Z.ltb_spec i 32).
  - rewrite Z.ones_spec_low by lia. by destruct (Z.testbit x i).
  - rewrite Z.ones_spec_high, (word_high 32) by (lia || done). done.
Qed.

Lemma not32_word x : word 32 (not32 x).
Proof. by apply uwrap_range. Qed.

Lemma not32_not32 x : word 32 x -> not32 (not32 x) = x.
Proof.
  intros Hx. rewrite (not32_ones (not32 x)), not32_ones by (done || apply not32_word).
  by rewrite Z.lxor_assoc, Z.lxor_nilpotent, Z.lxor_0_r.
Qed.

Lemma crc_right_word w poly s data :
  8 <= w -> word w poly -> bytes data -> word w s -> word w (crc_right poly s data).
Proof.
  intros Hw Hp Hl. revert s. induction Hl as [|b data Hb _ IH]; intros s Hs; [done|].
  unfold crc_right in *. cbn [fold_left]. apply IH. apply (iter_right_word 8); [lia|done|]. apply lxor_word; [lia|done|].
  by apply (word_weaken 8); [lia|].
Qed.

Lemma crc_right_app poly s a b : crc_right poly s (a ++ b) = crc_right poly (crc_right poly s a) b.
Proof. apply fold_left_app. Qed.

(** A word as it is sent: [n] bytes, the least significant first. *)
Fixpoint le_bytes (n : nat) (x : Z) : list Z :=
  match n with
  | O => []
  | S n' => u8 x :: le_bytes n' (Z.shiftr x 8)
  end.

Lemma le_bytes_bytes n x : bytes (le_bytes n x).
Proof. revert x. induction n; intros x; cbn [le_bytes]; constructor; [by apply uwrap_range|apply IHn]. Qed.

(** A word sent through the register enters it at once. *)
Lemma crc_right_le_bytes n poly s x :
  word (8 * Z.of_nat n) x -> crc_right poly s (le_bytes n x) = iter (8 * n) (step_right poly) (Z.lxor s x).
Proof.
  revert s x. induction n as [|n IH]; intros s x Hx.
  - assert (x = 0) as -> by (unfold word in Hx; change (2 ^ (8 * Z.of_nat 0)) with 1 in Hx; lia).
    by rewrite Z.lxor_0_r.
  - replace (8 * S n)%nat with (8 + 8 * n)%nat by lia. rewrite iter_add. cbn [le_bytes].
    change (crc_right poly s (u8 x :: le_bytes n (Z.shiftr x 8))) with
      (crc_right poly (iter 8 (step_right poly) (Z.lxor s (u8 x))) (le_bytes n (Z.shiftr x 8))).
    rewrite IH.
    + f_equal. rewrite (high_low x) at 3. rewrite (Z.lxor_comm (Z.shiftl _ 8)), <-Z.lxor_assoc.
      rewrite (iter_linear 8 _ (step_right_linear poly) (Z.lxor s (u8 x))). f_equal.
      symmetry. apply (iter_shiftl 8).
    + destruct Hx. unfold word. rewrite Z.shiftr_div_pow2 by done. split; [apply Z.div_pos; lia|].
      apply Z.div_lt_upper_bound; [lia|]. rewrite <-Z.pow_add_r by lia.
      replace (8 + 8 * Z.of_nat n) with (8 * Z.of_nat (S n)) by lia. done.
Qed.

(** ** The theorems *)

(** C15: every check routine computes the bit by bit shift register of its
    polynomial.  [crc8], [crc16] and [crc16_reflect] do so for every
    polynomial; [crc7_be] for x^7+x^3+1 kept in the upper seven bits,
    [crc8_ccitt] with its table of sixteen bytes for 0x07, [crc16_ccitt] and
    [crc16_itu_t] without a loop over bits for 0x8408 and 0x1021, and
    [crc32_ieee_update] and [crc32_c] with their tables of sixteen words for
    0xEDB88320 and 0x82F63B78, complemented before and after. *)
Theorem crc_routines_bitwise (data : list Z) (v8 v16 v32 p8 p16 : Z) :
  bytes data -> word 8 v8 -> word 16 v16 -> word 8 p8 -> word 16 p16 ->
  crc7_be v8 data = crc_left 8 0x12 v8 data /\
  crc8_ccitt v8 data = crc_left 8 0x07 v8 data /\
  crc8 data p8 v8 false = crc_left 8 p8 v8 data /\
  crc8 data p8 v8 true = crc_right p8 v8 data /\
  crc16 p16 v16 data = crc_left 16 p16 v16 data /\
  crc16_reflect p16 v16 data = crc_right p16 v16 data /\
  crc16_ccitt v16 data = crc_right 0x8408 v16 data /\
  crc16_itu_t v16 data = crc_left 16 0x1021 v16 data /\
  crc32_ieee_update v32 data = not32 (crc_right 0xEDB88320 (not32 v32) data) /\
  (forall first last, crc32_c v32 data first last =
    let r := crc_right 0x82F63B78 (if first then 0xFFFFFFFF else v32) data in
    if last then Z.lxor r 0xFFFFFFFF else r).
Proof.
  intros Hl H8 H16 Hp8 Hp16. repeat split.
  - by apply crc7_be_left.
  - by apply crc8_ccitt_left.
  - by apply crc8_left.
  - apply crc8_right.
  - by apply crc16_left.
  - apply crc16_reflect_right.
  - by apply crc16_ccitt_right.
  - by apply crc16_itu_t_left.
  - by apply crc32_ieee_update_right.
  - intros first last. by apply crc32_c_right.
Qed.

Lemma crc_routines_bitwise_witness :
  crc32_ieee_update 0 [0x31; 0x32; 0x33] = not32 (crc_right 0xEDB88320 (not32 0) [0x31; 0x32; 0x33]) /\
  crc16_itu_t 0xffff [0x31; 0x32; 0x33] = 0x5bce.
Proof.
  destruct (crc_routines_bitwise [0x31; 0x32; 0x33] 0 0xffff 0 0x31 0x1021) as (_&_&_&_&_&_&_&Hitu&H32&_);
    [repeat constructor; lia|unfold word; lia..|].
  split; [exact H32|]. rewrite Hitu. vm_compute. reflexivity.
Defined.



(** [crc32_ieee_update] may be fed a message in pieces, and a message
    followed by its check, least significant byte first, has the same check
    0x2144DF1C whatever the message was, which is how a receiver verifies it. *)
Theorem crc32_ieee_stream_and_residue (data more : list Z) (v : Z) :
  bytes data -> bytes more ->
  crc32_ieee_update (crc32_ieee_update v data) more = crc32_ieee_update v (data ++ more) /\
  crc32_ieee (data ++ le_bytes 4 (crc32_ieee data)) = 0x2144DF1C.
Proof.
  intros Hd Hm. assert (Hr : forall v, word 32 (crc_right 0xEDB88320 (not32 v) data)).
  { intros u. apply crc_right_word; [done..|apply not32_word]. }
  split.
  - rewrite !crc32_ieee_update_right by (done || by apply Forall_app).
    by rewrite not32_not32, crc_right_app by done.
  - unfold crc32_ieee. rewrite (crc32_ieee_update_right _ (data ++ _))
      by (apply Forall_app; split; [done|apply le_bytes_bytes]).
    rewrite crc_right_app, crc_right_le_bytes, crc32_ieee_update_right by (done || apply not32_word).
    rewrite (not32_ones (crc_right _ _ _)), <-Z.lxor_assoc, Z.lxor_nilpotent, Z.lxor_0_l by apply Hr. by vm_compute.
Qed.

Lemma crc32_ieee_stream_and_residue_witness :
  crc32_ieee ([0x31; 0x32] ++ le_bytes 4 (crc32_ieee [0x31; 0x32])) = 0x2144DF1C.
Proof. apply (crc32_ieee_stream_and_residue [0x31; 0x32] [0x33] 0); repeat constructor; lia. Defined.

End Crc.
