(* ===== verification/Bitarray.v ===== *)
(** Bit arrays (lib/os/bitarray.c).

    The bits are kept in bundles of 32; the functions work on whole bundles
    with masks.  [bit] reads one bit, [wf] is the type invariant.  The theorems
    say what each function does in terms of single bits: regions are set,
    cleared and tested bit by bit, and allocation finds the first free region,
    although the code skips ahead over full bundles and mismatches. *)
From Stdlib Require Import ZifyBool.
From S2P Require Import Prelude.

Module Bitarray.

Record sys_bitarray := mk_bitarray {
  num_bits : Z;                    (* uint32_t *)
  num_bundles : Z;                 (* uint32_t *)
  bundles : list Z                 (* uint32_t[] *)
}.

#[export] Instance set_bundles : Settable bundles :=
  fun f b => mk_bitarray (num_bits b) (num_bundles b) (f (bundles b)).

Definition EFAULT : Z := 14.
Definition EEXIST : Z := 17.
Definition ENOSPC : Z := 28.

Definition bundle_bitness : Z := 32.

(** [_SYS_BITARRAY_DEFINE] *)
Definition DIV_ROUND_UP (n d : Z) : Z := (n + d - 1) / d.
Definition SYS_BITARRAY_DEFINE (total_bits : Z) : sys_bitarray :=
  let n := DIV_ROUND_UP (DIV_ROUND_UP total_bits 8) 4 in
  mk_bitarray total_bits n (replicate (Z.to_nat n) 0).

(** [~x] on [uint32_t]. *)
Definition not32 (x : Z) : Z := u32 (Z.lnot x).

Fixpoint lsb_loop (n : nat) (bit op : Z) : Z :=
  match n with
  | O => 0
  | S n' => if negb (Z.land op (BIT bit) =? 0) then bit + 1 else lsb_loop n' (bit + 1) op
  end.
Definition find_lsb_set (op : Z) : Z := if op =? 0 then 0 else lsb_loop 32 0 op.

Definition bundle_at (idx : Z) (ba : sys_bitarray) : Z := bundles ba !!! Z.to_nat idx.
Definition upd_bundle (idx : Z) (f : Z -> Z) (ba : sys_bitarray) : sys_bitarray :=
  ba <| bundles ::= alter f (Z.to_nat idx) |>.

Record bundle_data := mk_bd {
  sidx : Z; eidx : Z;
  soff : Z; eoff : Z;
  smask : Z; emask : Z
}.

Definition setup_bundle_data (offset num : Z) : bundle_data :=
  let si := offset / bundle_bitness in
  let so := offset mod bundle_bitness in
  let ei := (offset + num - 1) / bundle_bitness in
  let eo := (offset + num - 1) mod bundle_bitness in
  let sm := u32 (Z.lnot (BIT so - 1)) in
  let em := u32 (Z.lor (BIT eo - 1) (BIT eo)) in
  mk_bd si ei so eo (if si =? ei then Z.land sm em else sm) em.

(** The offset that the label [mismatch] stores. *)
Definition mismatch_at (mismatch_bundle mismatch_bundle_idx : Z) : Z :=
  u32 (find_lsb_set mismatch_bundle - 1 + mismatch_bundle_idx * bundle_bitness).

(** The loop over the bundles from [idx] on, [n] of them. *)
Fixpoint match_between (n : nat) (idx : Z) (match_set : bool) (ba : sys_bitarray) : option Z :=
  match n with
  | O => None
  | S n' =>
      let b := bundle_at idx ba in
      let b := if match_set then not32 b else b in
      if negb (b =? 0) then Some (mismatch_at b idx)
      else match_between n' (idx + 1) match_set ba
  end.

(** The result is the mismatch, if there is one, with the bundle data. *)
Definition match_region (offset num : Z) (match_set : bool) (ba : sys_bitarray)
    : option Z * bundle_data :=
  let bd := setup_bundle_data offset num in
  let read idx := if match_set then bundle_at idx ba else not32 (bundle_at idx ba) in
  let b := read (sidx bd) in
  if negb (Z.land b (smask bd) =? smask bd)
  then (Some (mismatch_at (Z.land (not32 b) (smask bd)) (sidx bd)), bd)
  else if sidx bd =? eidx bd then (None, bd)
  else
    let b := read (eidx bd) in
    if negb (Z.land b (emask bd) =? emask bd)
    then (Some (mismatch_at (Z.land (not32 b) (emask bd)) (eidx bd)), bd)
    else (match_between (Z.to_nat (eidx bd - (sidx bd + 1))) (sidx bd + 1) match_set ba, bd).

Fixpoint fill_between (n : nat) (idx v : Z) (ba : sys_bitarray) : sys_bitarray :=
  match n with
  | O => ba
  | S n' => fill_between n' (idx + 1) v (upd_bundle idx (fun _ => v) ba)
  end.

Definition set_region (offset num : Z) (to_set : bool) (bd : option bundle_data) (ba : sys_bitarray)
    : sys_bitarray :=
  let bd := match bd with Some bd => bd | None => setup_bundle_data offset num end in
  let put idx mask := upd_bundle idx (fun x => if to_set then Z.lor x mask else Z.land x (not32 mask)) in
  if sidx bd =? eidx bd then put (sidx bd) (smask bd) ba
  else
    fill_between (Z.to_nat (eidx bd - (sidx bd + 1))) (sidx bd + 1)
      (if to_set then UINT32_MAX else 0)
      (put (eidx bd) (emask bd) (put (sidx bd) (smask bd) ba)).

Definition sys_bitarray_set_bit (bit : Z) (ba : sys_bitarray) : Z * sys_bitarray :=
  if bit >=? num_bits ba then (- EINVAL, ba)
  else
    let idx := bit / bundle_bitness in
    let off := bit mod bundle_bitness in
    (0, upd_bundle idx (fun x => Z.lor x (BIT off)) ba).

Definition sys_bitarray_clear_bit (bit : Z) (ba : sys_bitarray) : Z * sys_bitarray :=
  if bit >=? num_bits ba then (- EINVAL, ba)
  else
    let idx := bit / bundle_bitness in
    let off := bit mod bundle_bitness in
    (0, upd_bundle idx (fun x => Z.land x (not32 (BIT off))) ba).

(** [val] says whether the pointer is not NULL; the second result is what is
    stored there. *)
Definition sys_bitarray_test_bit (bit : Z) (val : bool) (ba : sys_bitarray) : Z * option Z :=
  if negb val then (- EINVAL, None)
  else if bit >=? num_bits ba then (- EINVAL, None)
  else
    let idx := bit / bundle_bitness in
    let off := bit mod bundle_bitness in
    (0, Some (if negb (Z.land (bundle_at idx ba) (BIT off) =? 0) then 1 else 0)).

Definition sys_bitarray_test_and_set_bit (bit : Z) (prev_val : bool) (ba : sys_bitarray)
    : Z * option Z * sys_bitarray :=
  if negb prev_val then (- EINVAL, None, ba)
  else if bit >=? num_bits ba then (- EINVAL, None, ba)
  else
    let idx := bit / bundle_bitness in
    let off := bit mod bundle_bitness in
    (0, Some (if negb (Z.land (bundle_at idx ba) (BIT off) =? 0) then 1 else 0),
     upd_bundle idx (fun x => Z.lor x (BIT off)) ba).

Definition sys_bitarray_test_and_clear_bit (bit : Z) (prev_val : bool) (ba : sys_bitarray)
    : Z * option Z * sys_bitarray :=
  if negb prev_val then (- EINVAL, None, ba)
  else if bit >=? num_bits ba then (- EINVAL, None, ba)
  else
    let idx := bit / bundle_bitness in
    let off := bit mod bundle_bitness in
    (0, Some (if negb (Z.land (bundle_at idx ba) (BIT off) =? 0) then 1 else 0),
     upd_bundle idx (fun x => Z.land x (not32 (BIT off))) ba).

(** The first loop of [sys_bitarray_alloc]: the bit to start from. *)
Fixpoint first_free (n : nat) (idx bit_idx : Z) (ba : sys_bitarray) : Z :=
  match n with
  | O => bit_idx
  | S n' =>
      let b := bundle_at idx ba in
      if not32 b =? 0 then first_free n' (idx + 1) (u32 (bit_idx + bundle_bitness)) ba
      else if negb (b =? 0) then u32 (bit_idx + (find_lsb_set (not32 b) - 1))
      else bit_idx
  end.

(** The second loop.  Every round moves [bit_idx] up, so [num_bits] rounds are
    enough. *)
Fixpoint alloc_loop (fuel : nat) (bit_idx off_end num : Z) (ba : sys_bitarray)
    : Z * option Z * sys_bitarray :=
  match fuel with
  | O => (- ENOSPC, None, ba)
  | S fuel' =>
      if bit_idx <=? off_end then
        match match_region bit_idx num false ba with
        | (None, bd) => (0, Some bit_idx, set_region bit_idx num true (Some bd) ba)
        | (Some mismatch, _) => alloc_loop fuel' (u32 (mismatch + 1)) off_end num ba
        end
      else (- ENOSPC, None, ba)
  end.

Definition sys_bitarray_alloc (num : Z) (offset : bool) (ba : sys_bitarray)
    : Z * option Z * sys_bitarray :=
  if negb offset then (- EINVAL, None, ba)
  else if (num =? 0) || (num >? num_bits ba) then (- EINVAL, None, ba)
  else
    let bit_idx := first_free (Z.to_nat (num_bundles ba)) 0 0 ba in
    alloc_loop (S (Z.to_nat (num_bits ba))) bit_idx (num_bits ba - num) num ba.

(** The range check that the region functions share. *)
Definition region_invalid (num offset : Z) (ba : sys_bitarray) : bool :=
  let off_end := u32 (offset + num - 1) in
  (num =? 0) || (num >? num_bits ba) || (offset >=? num_bits ba) || (off_end >=? num_bits ba).

Definition sys_bitarray_free (num offset : Z) (ba : sys_bitarray) : Z * sys_bitarray :=
  if region_invalid num offset ba then (- EINVAL, ba)
  else
    match match_region offset num true ba with
    | (None, bd) => (0, set_region offset num false (Some bd) ba)
    | (Some _, _) => (- EFAULT, ba)
    end.

Definition is_region_set_clear (num offset : Z) (to_set : bool) (ba : sys_bitarray) : bool :=
  if region_invalid num offset ba then false
  else
    match match_region offset num to_set ba with
    | (None, _) => true
    | (Some _, _) => false
    end.

Definition sys_bitarray_is_region_set (num offset : Z) (ba : sys_bitarray) : bool :=
  is_region_set_clear num offset true ba.

Definition sys_bitarray_is_region_cleared (num offset : Z) (ba : sys_bitarray) : bool :=
  is_region_set_clear num offset false ba.

Definition set_clear_region (num offset : Z) (to_set : bool) (ba : sys_bitarray) : Z * sys_bitarray :=
  if region_invalid num offset ba then (- EINVAL, ba)
  else (0, set_region offset num to_set None ba).

Definition sys_bitarray_test_and_set_region (num offset : Z) (to_set : bool) (ba : sys_bitarray)
    : Z * sys_bitarray :=
  if region_invalid num offset ba then (- EINVAL, ba)
  else
    match match_region offset num (negb to_set) ba with
    | (None, bd) => (0, set_region offset num to_set (Some bd) ba)
    | (Some _, _) => (- EEXIST, ba)
    end.

Definition sys_bitarray_set_region (num offset : Z) (ba : sys_bitarray) : Z * sys_bitarray :=
  set_clear_region num offset true ba.

Definition sys_bitarray_clear_region (num offset : Z) (ba : sys_bitarray) : Z * sys_bitarray :=
  set_clear_region num offset false ba.

(** ** Single bits *)

Definition bit (i : Z) (ba : sys_bitarray) : bool := Z.testbit (bundle_at (i / 32) ba) (i mod 32).

(** The type invariant: the bundles are there, hold 32 bits each, and cover
    the bits.  The bound keeps the sums of offsets below the word size. *)
Record wf (ba : sys_bitarray) : Prop := {
  wf_bits : 0 < num_bits ba <= 2 ^ 31;
  wf_count : num_bundles ba = (num_bits ba + 31) / 32;
  wf_len : Z.of_nat (length (bundles ba)) = num_bundles ba;
  wf_range : Forall (fun b => 0 <= b < 2 ^ 32) (bundles ba)
}.

Lemma not32_testbit x j : 0 <= j < 32 -> Z.testbit (not32 x) j = negb (Z.testbit x j).
Proof. intros Hj. unfold not32, uwrap. rewrite Z.mod_pow2_bits_low by lia. apply Z.lnot_spec. lia. Qed.

Lemma not32_range x : 0 <= not32 x < 2 ^ 32.
Proof. apply uwrap_range. lia. Qed.

Lemma ones_testbit n j : 0 <= n -> 0 <= j -> Z.testbit (BIT n - 1) j = (j <? n).
Proof.
  intros Hn Hj. rewrite BIT_pow by done. replace (2 ^ n - 1) with (Z.ones n) by (rewrite Z.ones_equiv; lia).
  rewrite Z.testbit_ones by lia. replace (0 <=? j) with true by lia. done.
Qed.

Lemma smask_testbit n j : 0 <= n -> 0 <= j < 32 -> Z.testbit (u32 (Z.lnot (BIT n - 1))) j = (n <=? j).
Proof.
  intros Hn Hj. change (u32 (Z.lnot (BIT n - 1))) with (not32 (BIT n - 1)).
  rewrite not32_testbit, ones_testbit by lia. lia.
Qed.

Lemma emask_testbit n j : 0 <= n -> 0 <= j < 32 -> Z.testbit (u32 (Z.lor (BIT n - 1) (BIT n))) j = (j <=? n).
Proof.
  intros Hn Hj. unfold uwrap. rewrite Z.mod_pow2_bits_low, Z.lor_spec, ones_testbit, BIT_testbit by lia.
  case_bool_decide; lia.
Qed.

(** Bundles are equal when their bits are. *)
Lemma bundle_ext x y :
  0 <= x < 2 ^ 32 -> 0 <= y < 2 ^ 32 -> (forall j, 0 <= j < 32 -> Z.testbit x j = Z.testbit y j) -> x = y.
Proof.
  intros Hx Hy Hj. apply Z.bits_inj'. intros j Hj0. destruct (Z.lt_ge_cases j 32); [by apply Hj|].
  by rewrite (bits_above 32 x), (bits_above 32 y) by lia.
Qed.

Lemma land_range x y : 0 <= x < 2 ^ 32 -> 0 <= y -> 0 <= Z.land x y < 2 ^ 32.
Proof.
  intros Hx Hy. apply bits_below; [lia|apply Z.land_nonneg; lia|].
  intros i Hi. by rewrite Z.land_spec, (bits_above 32 x) by lia.
Qed.

Lemma lor_range x y : 0 <= x < 2 ^ 32 -> 0 <= y < 2 ^ 32 -> 0 <= Z.lor x y < 2 ^ 32.
Proof.
  intros Hx Hy. apply bits_below; [lia|apply Z.lor_nonneg; lia|].
  intros i Hi. by rewrite Z.lor_spec, (bits_above 32 x), (bits_above 32 y) by lia.
Qed.

(** The test against a mask. *)
Lemma mask_matches b m :
  0 <= b < 2 ^ 32 -> 0 <= m < 2 ^ 32 ->
  (Z.land b m =? m) = true <-> forall j, 0 <= j < 32 -> Z.testbit m j = true -> Z.testbit b j = true.
Proof.
  intros Hb Hm. rewrite Z.eqb_eq. split.
  - intros E j Hj Hmj. rewrite <-E, Z.land_spec in Hmj. by apply andb_true_iff in Hmj as [? _].
  - intros H. apply bundle_ext; [apply land_range; lia|done|]. intros j Hj. rewrite Z.land_spec.
    specialize (H j Hj). destruct (Z.testbit m j); [by rewrite H|apply andb_false_r].
Qed.

Lemma lsb_loop_spec n i x :
  0 <= i -> (forall j, 0 <= j < i -> Z.testbit x j = false) ->
  (exists j, i <= j < i + Z.of_nat n /\ Z.testbit x j = true) ->
  let r := lsb_loop n i x - 1 in
  i <= r < i + Z.of_nat n /\ Z.testbit x r = true /\ forall j, 0 <= j < r -> Z.testbit x j = false.
Proof.
  revert i. induction n as [|n IH]; intros i Hi Hlow (j & Hj & Hx); [lia|]. cbn [lsb_loop].
  fold (flag_set x (BIT i)). rewrite flag_set_BIT by done. destruct (Z.testbit x i) eqn:E; cbv zeta.
  - replace (i + 1 - 1) with i by lia. split_and!; [lia|lia|done|done].
  - destruct (IH (i + 1)) as (H1 & H2 & H3); [lia| | |cbv zeta in *; split_and!; [lia|lia|done|done]].
    + intros k Hk. destruct (Z.eq_dec k i) as [->|]; [done|]. apply Hlow. lia.
    + exists j. split; [|done]. destruct (Z.eq_dec j i) as [->|]; [congruence|lia].
Qed.

(** [find_lsb_set] of a nonzero bundle. *)
Lemma find_lsb_set_spec x :
  0 <= x < 2 ^ 32 -> x <> 0 ->
  let r := find_lsb_set x - 1 in
  0 <= r < 32 /\ Z.testbit x r = true /\ forall j, 0 <= j < r -> Z.testbit x j = false.
Proof.
  intros Hx Hne. unfold find_lsb_set. replace (x =? 0) with false by lia.
  apply (lsb_loop_spec 32 0 x); [lia|lia|].
  exists (Z.log2 x). assert (0 < x) by lia. split; [|by apply Z.bit_log2].
  split; [apply Z.log2_nonneg|]. apply Z.log2_lt_pow2; lia.
Qed.

(** ** Regions *)

Lemma bundle_at_upd q idx f ba :
  0 <= q -> 0 <= idx < Z.of_nat (length (bundles ba)) ->
  bundle_at q (upd_bundle idx f ba) = if q =? idx then f (bundle_at idx ba) else bundle_at q ba.
Proof.
  intros Hq Hi. unfold bundle_at, upd_bundle. cbn. destruct (Z.eqb_spec q idx) as [->|Hne].
  - rewrite list_lookup_total_alter, decide_True; [done|]. split; [done|lia].
  - rewrite list_lookup_total_alter, decide_False; [done|]. lia.
Qed.

Lemma upd_bundle_wf idx f ba :
  wf ba -> (forall x, 0 <= x < 2 ^ 32 -> 0 <= f x < 2 ^ 32) -> wf (upd_bundle idx f ba).
Proof.
  intros [H1 H2 H3 H4] Hf. split; cbn; try done.
  - by rewrite length_alter.
  - apply Forall_alter; [done|]. intros x _. apply Hf.
Qed.

Lemma bundle_at_range q ba : wf ba -> 0 <= bundle_at q ba < 2 ^ 32.
Proof.
  intros Hw. unfold bundle_at. rewrite list_lookup_total_alt.
  destruct (bundles ba !! Z.to_nat q) as [b|] eqn:E; [|done].
  by apply (Forall_lookup_1 _ _ _ _ (wf_range _ Hw) E).
Qed.

Lemma bit_ext ba ba' i :
  (forall j, 0 <= j < 32 -> Z.testbit (bundle_at (i / 32) ba') j = Z.testbit (bundle_at (i / 32) ba) j) ->
  bit i ba' = bit i ba.
Proof. intros H. apply H. apply Z.mod_pos_bound. lia. Qed.

(** A valid region lies within the bundles. *)
Record in_range (offset num : Z) (ba : sys_bitarray) : Prop := {
  ir_off : 0 <= offset;
  ir_num : 0 < num;
  ir_end : offset + num <= num_bits ba
}.

(** The bits of bundle [q] that the region from [offset] covers. *)
Definition covers (bd : bundle_data) (q j : Z) : bool :=
  (sidx bd <=? q) && (q <=? eidx bd) && (negb (q =? sidx bd) || (soff bd <=? j))
  && (negb (q =? eidx bd) || (j <=? eoff bd)).

Section Region.
Context (offset num : Z) (Hoff : 0 <= offset) (Hnum : 0 < num).

Lemma bd_eqs : let bd := setup_bundle_data offset num in
  offset = 32 * sidx bd + soff bd /\ 0 <= soff bd < 32
  /\ offset + num - 1 = 32 * eidx bd + eoff bd /\ 0 <= eoff bd < 32 /\ 0 <= sidx bd <= eidx bd.
Proof.
  cbn. unfold bundle_bitness.
  pose proof (Z.div_mod offset 32 ltac:(lia)). pose proof (Z.mod_pos_bound offset 32 ltac:(lia)).
  pose proof (Z.div_mod (offset + num - 1) 32 ltac:(lia)). pose proof (Z.mod_pos_bound (offset + num - 1) 32 ltac:(lia)).
  lia.
Qed.

Lemma covers_region i :
  0 <= i -> covers (setup_bundle_data offset num) (i / 32) (i mod 32) = (offset <=? i) && (i <? offset + num).
Proof.
  intros Hi. destruct bd_eqs as (E1 & E2 & E3 & E4 & E5). unfold covers.
  pose proof (Z.div_mod i 32 ltac:(lia)). pose proof (Z.mod_pos_bound i 32 ltac:(lia)). lia.
Qed.

Lemma smask_bits j :
  0 <= j < 32 -> Z.testbit (smask (setup_bundle_data offset num)) j
                 = covers (setup_bundle_data offset num) (sidx (setup_bundle_data offset num)) j.
Proof.
  intros Hj. destruct bd_eqs as (E1 & E2 & E3 & E4 & E5). unfold covers.
  cbn [setup_bundle_data smask sidx eidx soff eoff] in *. unfold bundle_bitness in *.
  destruct (Z.eqb_spec (offset / 32) ((offset + num - 1) / 32)).
  - rewrite Z.land_spec, smask_testbit, emask_testbit by lia. lia.
  - rewrite smask_testbit by lia. lia.
Qed.

Lemma emask_bits j :
  0 <= j < 32 -> sidx (setup_bundle_data offset num) <> eidx (setup_bundle_data offset num) ->
  Z.testbit (emask (setup_bundle_data offset num)) j
  = covers (setup_bundle_data offset num) (eidx (setup_bundle_data offset num)) j.
Proof.
  intros Hj Hne. destruct bd_eqs as (E1 & E2 & E3 & E4 & E5). unfold covers.
  cbn [setup_bundle_data emask sidx eidx soff eoff] in *. unfold bundle_bitness in *.
  rewrite emask_testbit by lia. lia.
Qed.

Lemma smask_range : 0 <= smask (setup_bundle_data offset num) < 2 ^ 32.
Proof.
  cbn. case_match; [apply land_range|]; try (apply uwrap_range; lia).
Qed.

Lemma emask_range : 0 <= emask (setup_bundle_data offset num) < 2 ^ 32.
Proof. cbn. apply uwrap_range. lia. Qed.

End Region.

Lemma eidx_range offset num ba :
  wf ba -> in_range offset num ba -> eidx (setup_bundle_data offset num) < num_bundles ba.
Proof.
  intros Hw [H1 H2 H3]. destruct (bd_eqs offset num H1 H2) as (E1 & E2 & E3 & E4 & E5).
  rewrite (wf_count _ Hw). pose proof (Z.div_mod (num_bits ba + 31) 32 ltac:(lia)).
  pose proof (Z.mod_pos_bound (num_bits ba + 31) 32 ltac:(lia)). lia.
Qed.

(** *** Setting and clearing *)

Definition put (to_set : bool) (mask x : Z) : Z := if to_set then Z.lor x mask else Z.land x (not32 mask).

Lemma put_testbit to_set mask x j :
  0 <= j < 32 -> Z.testbit (put to_set mask x) j = if Z.testbit mask j then to_set else Z.testbit x j.
Proof.
  intros Hj. unfold put. destruct to_set.
  - rewrite Z.lor_spec. by destruct (Z.testbit mask j); rewrite ?orb_true_r, ?orb_false_r.
  - rewrite Z.land_spec, not32_testbit by done. by destruct (Z.testbit mask j); rewrite ?andb_false_r, ?andb_true_r.
Qed.

Lemma mask_range to_set mask x : 0 <= mask < 2 ^ 32 -> 0 <= x < 2 ^ 32 -> 0 <= put to_set mask x < 2 ^ 32.
Proof.
  intros Hm Hx. unfold put. destruct to_set; [by apply lor_range|]. apply land_range; [done|]. apply not32_range.
Qed.

Lemma fill_between_spec n idx v ba :
  wf ba -> 0 <= v < 2 ^ 32 -> 0 <= idx -> idx + Z.of_nat n <= num_bundles ba ->
  wf (fill_between n idx v ba) /\ num_bits (fill_between n idx v ba) = num_bits ba
  /\ forall q, 0 <= q -> bundle_at q (fill_between n idx v ba)
                        = if (idx <=? q) && (q <? idx + Z.of_nat n) then v else bundle_at q ba.
Proof.
  revert idx ba. induction n as [|n IH]; intros idx ba Hw Hv Hi Hn; cbn [fill_between].
  - split_and!; try done. intros q Hq. change (Z.of_nat 0) with 0. destruct (_ && _) eqn:E; [lia|done].
  - assert (Hw' : wf (upd_bundle idx (fun _ => v) ba)) by (by apply upd_bundle_wf).
    destruct (IH (idx + 1) (upd_bundle idx (fun _ => v) ba)) as (H1 & H2 & H3); [done|done|lia|cbn; lia|].
    split_and!; [done|done|]. intros q Hq. rewrite H3, Nat2Z.inj_succ by done.
    rewrite bundle_at_upd by (rewrite ?(wf_len _ Hw); lia). generalize (Z.of_nat n) (Nat2Z.is_nonneg n). intros m Hm.
    destruct (Z.eqb_spec q idx) as [->|].
    + destruct (_ && (idx <? idx + 1 + m)) eqn:E1, (_ && (idx <? idx + Z.succ m)) eqn:E2; lia || done.
    + destruct (_ && (q <? idx + 1 + m)) eqn:E1, (_ && (q <? idx + Z.succ m)) eqn:E2; lia || done.
Qed.

(** What an update of the bits of a region leaves. *)
Record region_is (offset num : Z) (v : bool) (ba ba' : sys_bitarray) : Prop := {
  rs_wf : wf ba';
  rs_bits : num_bits ba' = num_bits ba;
  rs_bit i : 0 <= i -> bit i ba' = if (offset <=? i) && (i <? offset + num) then v else bit i ba
}.

Lemma covers_is offset num v ba ba' :
  0 <= offset -> 0 < num -> wf ba' -> num_bits ba' = num_bits ba ->
  (forall q j, 0 <= q -> 0 <= j < 32 -> Z.testbit (bundle_at q ba') j
     = if covers (setup_bundle_data offset num) q j then v else Z.testbit (bundle_at q ba) j) ->
  region_is offset num v ba ba'.
Proof.
  intros H1 H2 H3 H4 H. split; [done|done|]. intros i Hi. rewrite <-(covers_region offset num) by done.
  apply H; [apply Z.div_pos; lia|apply Z.mod_pos_bound; lia].
Qed.

Lemma set_region_spec offset num to_set obd ba :
  wf ba -> in_range offset num ba -> (forall bd, obd = Some bd -> bd = setup_bundle_data offset num) ->
  region_is offset num to_set ba (set_region offset num to_set obd ba).
Proof.
  intros Hw Hr Hbd. pose proof (eidx_range offset num ba Hw Hr) as He. destruct Hr as [H1 H2 H3].
  destruct (bd_eqs offset num H1 H2) as (E1 & E2 & E3 & E4 & E5).
  pose proof (smask_bits offset num H1 H2) as Sm. pose proof (emask_bits offset num H1 H2) as Em.
  pose proof (smask_range offset num) as Rs. pose proof (emask_range offset num) as Re.
  unfold set_region. replace (match obd with Some bd => bd | None => setup_bundle_data offset num end)
    with (setup_bundle_data offset num) by (destruct obd as [bd|]; [by rewrite (Hbd bd)|done]).
  set (bd := setup_bundle_data offset num) in *. cbv zeta.
  change (fun x => if to_set then Z.lor x (smask bd) else Z.land x (not32 (smask bd))) with (put to_set (smask bd)).
  change (fun x => if to_set then Z.lor x (emask bd) else Z.land x (not32 (emask bd))) with (put to_set (emask bd)).
  assert (Hw1 : wf (upd_bundle (sidx bd) (put to_set (smask bd)) ba))
    by (apply upd_bundle_wf; [done|]; intros; by apply mask_range).
  pose proof (wf_len _ Hw) as Hlen. pose proof (wf_len _ Hw1) as Hlen1. cbn [upd_bundle upd set_bundles num_bundles bundles] in Hlen1.
  destruct (Z.eqb_spec (sidx bd) (eidx bd)) as [Heq|Hne].
  - apply covers_is; try done. fold bd. intros q j Hq Hj. rewrite bundle_at_upd by lia.
    destruct (Z.eqb_spec q (sidx bd)) as [->|Hq'].
    + rewrite put_testbit by done. by rewrite Sm.
    + replace (covers bd q j) with false; [done|]. symmetry. unfold covers. lia.
  - assert (Hw2 : wf (upd_bundle (eidx bd) (put to_set (emask bd)) (upd_bundle (sidx bd) (put to_set (smask bd)) ba)))
      by (apply upd_bundle_wf; [done|]; intros; by apply mask_range).
    destruct (fill_between_spec (Z.to_nat (eidx bd - (sidx bd + 1))) (sidx bd + 1)
      (if to_set then UINT32_MAX else 0) _ Hw2) as (F1 & F2 & F3);
      [destruct to_set; unfold UINT32_MAX; lia|lia|cbn [upd_bundle upd set_bundles num_bundles]; lia|].
    apply covers_is; try done. fold bd. intros q j Hq Hj. rewrite F3 by done.
    destruct ((sidx bd + 1 <=? q) && (q <? sidx bd + 1 + Z.of_nat (Z.to_nat (eidx bd - (sidx bd + 1))))) eqn:Eb.
    + replace (covers bd q j) with true by (symmetry; unfold covers; lia).
      destruct to_set; [|apply Z.bits_0]. change UINT32_MAX with (Z.ones 32).
      rewrite Z.testbit_ones by lia. lia.
    + rewrite bundle_at_upd by (cbn [upd_bundle upd set_bundles bundles] in *; lia). destruct (Z.eqb_spec q (eidx bd)) as [->|Hq1];
        rewrite bundle_at_upd by lia.
      * rewrite put_testbit, Em by done. by replace (eidx bd =? sidx bd) with false by lia.
      * destruct (Z.eqb_spec q (sidx bd)) as [->|Hq2]; [by rewrite put_testbit, Sm by done|].
        replace (covers bd q j) with false; [done|]. symmetry. unfold covers. lia.
Qed.

(** *** Testing *)

Definition read (match_set : bool) (x : Z) : Z := if match_set then x else not32 x.

Lemma read_testbit ms x j : 0 <= j < 32 -> Z.testbit (read ms x) j = Bool.eqb (Z.testbit x j) ms.
Proof. intros Hj. destruct ms; cbn; [|rewrite not32_testbit by done]; by destruct (Z.testbit x j). Qed.

Lemma read_range ms x : 0 <= x < 2 ^ 32 -> 0 <= read ms x < 2 ^ 32.
Proof. intros. destruct ms; [done|apply not32_range]. Qed.

Lemma bit_of q r ba : 0 <= r < 32 -> bit (r + q * 32) ba = Z.testbit (bundle_at q ba) r.
Proof.
  intros Hr. unfold bit. rewrite Z.div_add, Z.div_small, Z.mod_add, Z.mod_small by lia. done.
Qed.

(** The bit that [mismatch_at] finds in a bundle. *)
Lemma mismatch_at_spec v q :
  0 <= v < 2 ^ 32 -> v <> 0 -> 0 <= q < 2 ^ 26 ->
  exists r, mismatch_at v q = r + q * 32 /\ 0 <= r < 32 /\ Z.testbit v r = true.
Proof.
  intros Hv Hne Hq. destruct (find_lsb_set_spec v Hv Hne) as (H1 & H2 & _). cbv zeta in *.
  exists (find_lsb_set v - 1). split; [|done]. unfold mismatch_at, bundle_bitness.
  apply uwrap_small. lia.
Qed.

Section Match.
Context (offset num : Z) (ms : bool) (ba : sys_bitarray) (Hw : wf ba) (Hr : in_range offset num ba).
Let bd := setup_bundle_data offset num.

Lemma index_small q : 0 <= q <= eidx bd -> 0 <= q < 2 ^ 26.
Proof.
  intros Hq. pose proof (eidx_range offset num ba Hw Hr) as He. fold bd in He. rewrite (wf_count _ Hw) in He.
  pose proof (wf_bits _ Hw). assert ((num_bits ba + 31) / 32 < 2 ^ 26 + 1); [|lia].
  apply Z.div_lt_upper_bound; lia.
Qed.

(** One masked bundle. *)
Lemma masked_spec q m :
  0 <= q <= eidx bd -> 0 <= m < 2 ^ 32 -> (forall j, 0 <= j < 32 -> Z.testbit m j = covers bd q j) ->
  if Z.land (read ms (bundle_at q ba)) m =? m
  then forall j, 0 <= j < 32 -> covers bd q j = true -> Z.testbit (bundle_at q ba) j = ms
  else let mm := mismatch_at (Z.land (not32 (read ms (bundle_at q ba))) m) q in
       offset <= mm < offset + num /\ bit mm ba = negb ms.
Proof.
  intros Hq Hm Hc. pose proof (bundle_at_range q ba Hw) as Hx. pose proof (read_range ms _ Hx) as Hb.
  pose proof (mask_matches _ m Hb Hm) as HM.
  destruct (Z.land (read ms (bundle_at q ba)) m =? m) eqn:E.
  - intros j Hj Hcj. destruct HM as [HM _]. specialize (HM eq_refl j Hj). rewrite Hc, read_testbit in HM by done.
    by apply eqb_prop, HM.
  - assert (Hne : Z.land (not32 (read ms (bundle_at q ba))) m <> 0).
    { intros H0. enough (false = true) by done. apply HM. intros j Hj Hmj.
      assert (Hz : Z.testbit (Z.land (not32 (read ms (bundle_at q ba))) m) j = false) by (by rewrite H0, Z.bits_0).
      rewrite Z.land_spec, not32_testbit, Hmj, andb_true_r in Hz by done. by apply negb_false_iff. }
    destruct (mismatch_at_spec _ q (land_range _ _ (not32_range _) (proj1 Hm)) Hne (index_small q Hq)) as (r & -> & Hr0 & Hbit).
    cbv zeta. rewrite bit_of by done. rewrite Z.land_spec, not32_testbit, read_testbit, Hc in Hbit by done.
    apply andb_true_iff in Hbit as [Hb1 Hb2]. split.
    + destruct Hr as [H1 H2 H3]. pose proof (covers_region offset num H1 H2 (r + q * 32) ltac:(lia)) as Hcov. fold bd in Hcov.
      rewrite Z.div_add, Z.div_small, Z.mod_add, Z.mod_small, Z.add_0_l, Hb2 in Hcov by lia. lia.
    + by destruct (Z.testbit (bundle_at q ba) r), ms.
Qed.

Lemma match_between_spec n idx :
  sidx bd < idx -> idx + Z.of_nat n <= eidx bd ->
  match match_between n idx ms ba with
  | None => forall q j, idx <= q < idx + Z.of_nat n -> 0 <= j < 32 -> Z.testbit (bundle_at q ba) j = ms
  | Some m => offset <= m < offset + num /\ bit m ba = negb ms
  end.
Proof.
  destruct Hr as [H1 H2 H3]. destruct (bd_eqs offset num H1 H2) as (E1 & E2 & E3 & E4 & E5). fold bd in E1, E2, E3, E4, E5.
  revert idx. induction n as [|n IH]; intros idx Hi Hn; cbn [match_between]; [intros; lia|].
  set (v := if ms then not32 (bundle_at idx ba) else bundle_at idx ba).
  pose proof (bundle_at_range idx ba Hw) as Hx.
  assert (Hv : 0 <= v < 2 ^ 32) by (unfold v; case_match; [apply not32_range|done]).
  assert (Hvb : forall j, 0 <= j < 32 -> Z.testbit v j = negb (Bool.eqb (Z.testbit (bundle_at idx ba) j) ms)).
  { intros j Hj. unfold v. destruct ms; [rewrite not32_testbit by done|]; by destruct (Z.testbit _ j). }
  destruct (Z.eqb_spec v 0) as [Hz|Hz]; cbn [negb].
  - specialize (IH (idx + 1) ltac:(lia) ltac:(lia)). destruct (match_between n (idx + 1) ms ba); [done|].
    intros q j Hq Hj. destruct (Z.eq_dec q idx) as [->|]; [|apply IH; lia].
    specialize (Hvb j Hj). rewrite Hz, Z.bits_0 in Hvb. apply eqb_prop, negb_false_iff. done.
  - destruct (mismatch_at_spec v idx Hv Hz (index_small idx ltac:(lia))) as (r & -> & Hr0 & Hbit).
    rewrite bit_of by done. rewrite Hvb in Hbit by done. split; [lia|]. by destruct (Z.testbit (bundle_at idx ba) r), ms.
Qed.

End Match.

(** [match_region] compares every bit of the region, and names one that
    differs. *)
Lemma match_region_spec offset num ms ba :
  wf ba -> in_range offset num ba ->
  (match_region offset num ms ba).2 = setup_bundle_data offset num
  /\ match (match_region offset num ms ba).1 with
     | None => forall i, offset <= i < offset + num -> bit i ba = ms
     | Some m => offset <= m < offset + num /\ bit m ba = negb ms
     end.
Proof.
  intros Hw Hr. pose proof Hr as [H1 H2 H3]. destruct (bd_eqs offset num H1 H2) as (E1 & E2 & E3 & E4 & E5).
  unfold match_region. cbv zeta. set (bd := setup_bundle_data offset num) in *.
  change (if ms then bundle_at ?q ba else not32 (bundle_at ?q ba)) with (read ms (bundle_at q ba)).
  pose proof (masked_spec offset num ms ba Hw Hr (sidx bd) (smask bd) E5 (smask_range offset num)
    (smask_bits offset num H1 H2)) as Hs. fold bd in Hs.
  assert (Hall : (forall q j, sidx bd <= q <= eidx bd -> 0 <= j < 32 -> covers bd q j = true ->
     Z.testbit (bundle_at q ba) j = ms) -> forall i, offset <= i < offset + num -> bit i ba = ms).
  { intros Hq i Hi. assert (Hc : covers bd (i / 32) (i mod 32) = true) by (unfold bd; rewrite covers_region by lia; lia).
    apply Hq; [unfold covers in Hc; lia|apply Z.mod_pos_bound; lia|done]. }
  destruct (Z.land (read ms (bundle_at (sidx bd) ba)) (smask bd) =? smask bd); cbn [negb]; [|by split].
  destruct (Z.eqb_spec (sidx bd) (eidx bd)) as [Heq|Hne].
  { split; [done|]. cbn [fst]. apply Hall. intros q j Hq. replace q with (sidx bd) by lia. apply Hs. }
  pose proof (masked_spec offset num ms ba Hw Hr (eidx bd) (emask bd) ltac:(fold bd; lia) (emask_range offset num)
    (fun j Hj => emask_bits offset num H1 H2 j Hj Hne)) as He. fold bd in He.
  destruct (Z.land (read ms (bundle_at (eidx bd) ba)) (emask bd) =? emask bd); cbn [negb]; [|by split].
  split; [done|]. cbn [fst].
  pose proof (match_between_spec offset num ms ba Hw Hr (Z.to_nat (eidx bd - (sidx bd + 1))) (sidx bd + 1)
    ltac:(fold bd; lia) ltac:(fold bd; lia)) as Hb.
  destruct (match_between _ _ ms ba); [done|]. apply Hall. intros q j Hq Hj Hc.
  destruct (Z.eq_dec q (sidx bd)) as [->|]; [by apply Hs|]. destruct (Z.eq_dec q (eidx bd)) as [->|]; [by apply He|].
  apply Hb; [lia|done].
Qed.

(** ** Allocation *)

Definition all_free (offset num : Z) (ba : sys_bitarray) : Prop :=
  forall i, offset <= i < offset + num -> bit i ba = false.

(** [offset] is the first place for [num] bits. *)
Record first_fit (offset num : Z) (ba : sys_bitarray) : Prop := {
  ff_range : in_range offset num ba;
  ff_free : all_free offset num ba;
  ff_first o : 0 <= o < offset -> ~ all_free o num ba
}.

Lemma bits_of_bundle q b ba :
  0 <= q -> (forall j, 0 <= j < 32 -> Z.testbit (bundle_at q ba) j = b) ->
  forall i, 32 * q <= i < 32 * q + 32 -> bit i ba = b.
Proof.
  intros Hq Hb i Hi. replace i with (i - 32 * q + q * 32) by lia. rewrite bit_of by lia. apply Hb. lia.
Qed.

Lemma first_free_spec n idx ba :
  wf ba -> 0 <= idx -> idx + Z.of_nat n = num_bundles ba ->
  (forall i, 0 <= i < 32 * idx -> bit i ba = true) ->
  let r := first_free n idx (32 * idx) ba in
  0 <= r /\ forall i, 0 <= i < r -> bit i ba = true.
Proof.
  intros Hw. revert idx. induction n as [|n IH]; intros idx Hi Hn Hlow; cbn [first_free]; [split; [lia|done]|].
  assert (Hsm : 32 * idx + 32 < 2 ^ 32).
  { rewrite (wf_count _ Hw) in Hn. pose proof (wf_bits _ Hw).
    pose proof (Z.div_mod (num_bits ba + 31) 32 ltac:(lia)). pose proof (Z.mod_pos_bound (num_bits ba + 31) 32 ltac:(lia)). lia. }
  pose proof (bundle_at_range idx ba Hw) as Hb. set (b := bundle_at idx ba) in *.
  unfold bundle_bitness. destruct (Z.eqb_spec (not32 b) 0) as [Hz|Hz]; [|destruct (Z.eqb_spec b 0) as [Hb0|Hb0]; cbn [negb]].
  - rewrite uwrap_small by lia. replace (32 * idx + 32) with (32 * (idx + 1)) by lia. apply IH; [lia|lia|].
    intros i Hi'. destruct (Z.lt_ge_cases i (32 * idx)); [apply Hlow; lia|].
    apply (bits_of_bundle idx); [done| |lia]. intros j Hj. fold b. apply negb_false_iff.
    rewrite <-not32_testbit, Hz by done. apply Z.bits_0.
  - split; [lia|done].
  - destruct (find_lsb_set_spec (not32 b) (not32_range b) Hz) as (F1 & _ & F3). cbv zeta in *.
    rewrite uwrap_small by lia. split; [lia|]. intros i Hi'. destruct (Z.lt_ge_cases i (32 * idx)); [apply Hlow; lia|].
    replace i with (i - 32 * idx + idx * 32) by lia. rewrite bit_of by lia. fold b. apply negb_false_iff.
    rewrite <-not32_testbit by lia. apply F3. lia.
Qed.

Lemma bits_alloc_loop_spec fuel bit_idx num ba :
  wf ba -> 0 < num <= num_bits ba -> 0 <= bit_idx -> num_bits ba - num < bit_idx + Z.of_nat fuel ->
  (forall o, 0 <= o < bit_idx -> ~ all_free o num ba) ->
  match alloc_loop fuel bit_idx (num_bits ba - num) num ba with
  | (r, Some offset, ba') => r = 0 /\ first_fit offset num ba /\ region_is offset num true ba ba'
  | (r, None, ba') => r = - ENOSPC /\ ba' = ba /\ forall o, in_range o num ba -> ~ all_free o num ba
  end.
Proof.
  intros Hw Hnum. revert bit_idx. induction fuel as [|fuel IH]; intros bit_idx Hb Hf Hlow; cbn [alloc_loop].
  { split_and!; try done. intros o [O1 O2 O3]. apply Hlow. lia. }
  destruct (Z.leb_spec bit_idx (num_bits ba - num)); cycle 1.
  { split_and!; try done. intros o [O1 O2 O3]. apply Hlow. lia. }
  assert (Hr : in_range bit_idx num ba) by (split; lia).
  destruct (match_region_spec bit_idx num false ba Hw Hr) as [Hbd Hm].
  destruct (match_region bit_idx num false ba) as [[m|] bd]; cbn [fst snd] in *.
  - destruct Hm as [Hm1 Hm2]. pose proof (wf_bits _ Hw). rewrite uwrap_small by lia. apply IH; [lia|lia|].
    intros o Ho Hfree. destruct (Z.lt_ge_cases o bit_idx); [by apply (Hlow o); [lia|]|].
    specialize (Hfree m ltac:(lia)). by rewrite Hm2 in Hfree.
  - split_and!; try done. apply set_region_spec; try done. intros bd' [= <-]. done.
Qed.

Lemma bits_alloc_spec num ba :
  wf ba -> 0 < num <= num_bits ba ->
  match sys_bitarray_alloc num true ba with
  | (r, Some offset, ba') => r = 0 /\ first_fit offset num ba /\ region_is offset num true ba ba'
  | (r, None, ba') => r = - ENOSPC /\ ba' = ba /\ forall o, in_range o num ba -> ~ all_free o num ba
  end.
Proof.
  intros Hw Hnum. unfold sys_bitarray_alloc. cbn [negb].
  replace ((num =? 0) || (num >? num_bits ba)) with false by lia.
  assert (0 <= num_bundles ba) by (rewrite <-(wf_len _ Hw); lia).
  destruct (first_free_spec (Z.to_nat (num_bundles ba)) 0 ba Hw) as [F1 F2]; [lia|lia|lia|].
  change (32 * 0) with 0 in *. apply bits_alloc_loop_spec; try done; [lia|].
  intros o Ho Hfree. specialize (Hfree o ltac:(lia)). by rewrite F2 in Hfree.
Qed.

(** ** The other functions *)

Lemma region_invalid_spec num offset ba :
  wf ba -> 0 <= offset -> 0 <= num -> region_invalid num offset ba = false <-> in_range offset num ba.
Proof.
  intros Hw Ho Hn. pose proof (wf_bits _ Hw). unfold region_invalid. rewrite !orb_false_iff. split.
  - intros [[[H1 H2] H3] H4]. rewrite uwrap_small in H4 by lia. split; lia.
  - intros [I1 I2 I3]. rewrite uwrap_small by lia. lia.
Qed.

Lemma single_bit_spec b to_set ba :
  wf ba -> 0 <= b < num_bits ba ->
  region_is b 1 to_set ba (upd_bundle (b / 32) (put to_set (BIT (b mod 32))) ba).
Proof.
  intros Hw Hb. pose proof (Z.div_mod b 32 ltac:(lia)) as Hdm. pose proof (Z.mod_pos_bound b 32 ltac:(lia)) as Hm.
  assert (HB : 0 <= BIT (b mod 32) < 2 ^ 32).
  { rewrite BIT_pow by lia. split; [lia|]. apply Z.pow_lt_mono_r; lia. }
  split; [|done|].
  - apply upd_bundle_wf; [done|]. intros x Hx. by apply mask_range.
  - intros i Hi. unfold bit.
    pose proof (Z.div_mod i 32 ltac:(lia)) as Hdi. pose proof (Z.mod_pos_bound i 32 ltac:(lia)) as Hmi.
    assert (Hlen : 0 <= b / 32 < Z.of_nat (length (bundles ba))).
    { rewrite (wf_len _ Hw), (wf_count _ Hw). split; [apply Z.div_pos; lia|].
      pose proof (Z.div_mod (num_bits ba + 31) 32 ltac:(lia)). pose proof (Z.mod_pos_bound (num_bits ba + 31) 32 ltac:(lia)). lia. }
    rewrite bundle_at_upd by (done || (apply Z.div_pos; lia)).
    destruct (Z.eqb_spec (i / 32) (b / 32)) as [E|E].
    + rewrite put_testbit, BIT_testbit, E by lia. destruct (_ && _) eqn:Eb; case_bool_decide; done || lia.
    + destruct (_ && _) eqn:Eb; [|done]. assert (i = b) by lia. by subst.
Qed.

(** The functions that change an array, as one type; the result is the
    returned code and the array. *)
Inductive op :=
  | Set_bit (b : Z)
  | Clear_bit (b : Z)
  | Test_and_set_bit (b : Z)
  | Test_and_clear_bit (b : Z)
  | Alloc (num : Z)
  | Free (num offset : Z)
  | Set_clear_region (num offset : Z) (to_set : bool)
  | Test_and_set_region (num offset : Z) (to_set : bool).

Definition run_op (o : op) (ba : sys_bitarray) : Z * sys_bitarray :=
  match o with
  | Set_bit b => sys_bitarray_set_bit b ba
  | Clear_bit b => sys_bitarray_clear_bit b ba
  | Test_and_set_bit b => let '(r, _, ba') := sys_bitarray_test_and_set_bit b true ba in (r, ba')
  | Test_and_clear_bit b => let '(r, _, ba') := sys_bitarray_test_and_clear_bit b true ba in (r, ba')
  | Alloc num => let '(r, _, ba') := sys_bitarray_alloc num true ba in (r, ba')
  | Free num offset => sys_bitarray_free num offset ba
  | Set_clear_region num offset to_set =>
      if to_set then sys_bitarray_set_region num offset ba else sys_bitarray_clear_region num offset ba
  | Test_and_set_region num offset to_set => sys_bitarray_test_and_set_region num offset to_set ba
  end.

(** Arguments of type [size_t]. *)
Definition op_ok (o : op) : Prop :=
  match o with
  | Set_bit b | Clear_bit b | Test_and_set_bit b | Test_and_clear_bit b | Alloc b => 0 <= b
  | Free num offset | Set_clear_region num offset _ | Test_and_set_region num offset _ => 0 <= num /\ 0 <= offset
  end.

(** What the documentation says of each function, bit by bit. *)
Definition op_spec (o : op) (ba : sys_bitarray) (r : Z) (ba' : sys_bitarray) : Prop :=
  let region num offset v (ok : Prop) err :=
    (~ in_range offset num ba /\ r = - EINVAL /\ ba' = ba)
    \/ (in_range offset num ba /\ ok /\ r = 0 /\ region_is offset num v ba ba')
    \/ (in_range offset num ba /\ ~ ok /\ r = err /\ ba' = ba) in
  match o with
  | Set_bit b | Test_and_set_bit b => region 1 b true True 0
  | Clear_bit b | Test_and_clear_bit b => region 1 b false True 0
  | Alloc num =>
      (~ (0 < num <= num_bits ba) /\ r = - EINVAL /\ ba' = ba)
      \/ (exists offset, first_fit offset num ba /\ r = 0 /\ region_is offset num true ba ba')
      \/ (0 < num <= num_bits ba /\ (forall o, in_range o num ba -> ~ all_free o num ba)
          /\ r = - ENOSPC /\ ba' = ba)
  | Free num offset =>
      region num offset false (forall i, offset <= i < offset + num -> bit i ba = true) (- EFAULT)
  | Set_clear_region num offset to_set => region num offset to_set True 0
  | Test_and_set_region num offset to_set =>
      region num offset to_set (forall i, offset <= i < offset + num -> bit i ba = negb to_set) (- EEXIST)
  end.

Lemma bit_op_spec b to_set ba :
  wf ba -> 0 <= b ->
  let res := if b >=? num_bits ba then (- EINVAL, ba)
             else (0, upd_bundle (b / bundle_bitness) (put to_set (BIT (b mod bundle_bitness))) ba) in
  op_spec (if to_set then Set_bit b else Clear_bit b) ba res.1 res.2.
Proof.
  intros Hw Hb. cbv zeta. destruct (Z.geb_spec b (num_bits ba)); cbn [fst snd].
  - assert (~ in_range b 1 ba) by (intros []; lia). destruct to_set; by left.
  - pose proof (single_bit_spec b to_set ba Hw ltac:(lia)). assert (in_range b 1 ba) by (split; lia).
    destruct to_set; right; left; by split_and!.
Qed.

(** A region function that first looks at the bits. *)
Lemma checked_region_spec num offset v ms ba :
  wf ba -> 0 <= num -> 0 <= offset ->
  let res := if region_invalid num offset ba then (- EINVAL, ba)
             else match match_region offset num ms ba with
                  | (None, bd) => (0, set_region offset num v (Some bd) ba)
                  | (Some _, _) => (1, ba)
                  end in
  (~ in_range offset num ba /\ res = (- EINVAL, ba))
  \/ (in_range offset num ba /\ (forall i, offset <= i < offset + num -> bit i ba = ms)
      /\ res.1 = 0 /\ region_is offset num v ba res.2)
  \/ (in_range offset num ba /\ ~ (forall i, offset <= i < offset + num -> bit i ba = ms) /\ res = (1, ba)).
Proof.
  intros Hw Hn Ho. cbv zeta. pose proof (region_invalid_spec num offset ba Hw Ho Hn) as Hv.
  destruct (region_invalid num offset ba); [left; split; [|done]; by intros ?%Hv|right].
  assert (Hr : in_range offset num ba) by (by apply Hv).
  destruct (match_region_spec offset num ms ba Hw Hr) as [Hbd Hm].
  destruct (match_region offset num ms ba) as [[m|] bd]; cbn [fst snd] in *; [right|left].
  - split_and!; try done. intros Hall. destruct Hm as [Hm1 Hm2]. rewrite Hall in Hm2 by done. by destruct ms.
  - split_and!; try done. apply set_region_spec; try done. by intros bd' [= <-].
Qed.

Lemma run_op_spec o ba :
  wf ba -> op_ok o -> op_spec o ba (run_op o ba).1 (run_op o ba).2.
Proof.
  intros Hw Hok. destruct o as [b|b|b|b|num|num offset|num offset v|num offset v]; cbn [op_ok] in Hok.
  - apply (bit_op_spec b true ba Hw Hok).
  - apply (bit_op_spec b false ba Hw Hok).
  - pose proof (bit_op_spec b true ba Hw Hok) as H. cbn [run_op]. unfold sys_bitarray_test_and_set_bit. cbn [negb].
    by destruct (b >=? num_bits ba).
  - pose proof (bit_op_spec b false ba Hw Hok) as H. cbn [run_op]. unfold sys_bitarray_test_and_clear_bit. cbn [negb].
    by destruct (b >=? num_bits ba).
  - cbn [run_op op_spec]. destruct (decide (0 < num <= num_bits ba)) as [Hn|Hn].
    + pose proof (bits_alloc_spec num ba Hw Hn) as H. right. destruct (sys_bitarray_alloc num true ba) as [[r [o|]] ba'].
      * left. exists o. cbn. tauto.
      * right. cbn. tauto.
    + left. unfold sys_bitarray_alloc. cbn [negb].
      replace ((num =? 0) || (num >? num_bits ba)) with true by lia. done.
  - destruct Hok as [H1 H2]. cbn [run_op op_spec]. unfold sys_bitarray_free.
    destruct (checked_region_spec num offset false true ba Hw H1 H2) as [(A & E)|[(A & B & C & D)|(A & B & E)]];
      destruct (region_invalid num offset ba); try done; try (destruct (match_region offset num true ba) as [[m|] bd]; try done).
    all: cbn in *; naive_solver.
  - destruct Hok as [H1 H2]. assert (E : run_op (Set_clear_region num offset v) ba = set_clear_region num offset v ba)
      by (by destruct v). rewrite E. cbn [op_spec]. unfold set_clear_region.
    pose proof (region_invalid_spec num offset ba Hw H2 H1) as Hv.
    destruct (region_invalid num offset ba); cbn [fst snd]; [left; split; [|done]; by intros ?%Hv|right; left].
    assert (Hr : in_range offset num ba) by (by apply Hv). split_and!; try done. by apply set_region_spec.
  - destruct Hok as [H1 H2]. cbn [run_op op_spec]. unfold sys_bitarray_test_and_set_region.
    destruct (checked_region_spec num offset v (negb v) ba Hw H1 H2) as [(A & E)|[(A & B & C & D)|(A & B & E)]];
      destruct (region_invalid num offset ba); try done; try (destruct (match_region offset num (negb v) ba) as [[m|] bd]; try done).
    all: cbn in *; naive_solver.
Qed.

(** The predicates on regions. *)
Lemma is_region_spec num offset v ba :
  wf ba -> 0 <= num -> 0 <= offset ->
  is_region_set_clear num offset v ba = true
  <-> in_range offset num ba /\ forall i, offset <= i < offset + num -> bit i ba = v.
Proof.
  intros Hw Hn Ho. unfold is_region_set_clear. pose proof (region_invalid_spec num offset ba Hw Ho Hn) as Hv.
  destruct (region_invalid num offset ba); [split; [done|]; by intros [?%Hv _]|].
  assert (Hr : in_range offset num ba) by (by apply Hv).
  destruct (match_region_spec offset num v ba Hw Hr) as [_ Hm].
  destruct (match_region offset num v ba) as [[m|] bd]; cbn [fst] in Hm; [|tauto].
  split; [done|]. intros [_ Hall]. destruct Hm as [Hm1 Hm2]. rewrite Hall in Hm2 by done. by destruct v.
Qed.

Lemma op_spec_wf o ba r ba' : wf ba -> op_spec o ba r ba' -> wf ba' /\ num_bits ba' = num_bits ba.
Proof.
  intros Hw. assert (Hr : forall offset num v, region_is offset num v ba ba' -> wf ba' /\ num_bits ba' = num_bits ba)
    by (intros ??? []; done).
  destruct o; cbn; intros [(_ & _ & ->)|[H|(_ & _ & _ & ->)]]; try done;
    (destruct H as (_ & _ & _ & H) || destruct H as (? & _ & _ & H)); by eapply Hr.
Qed.

Lemma define_wf n : 0 < n <= 2 ^ 31 -> wf (SYS_BITARRAY_DEFINE n) /\ forall i, 0 <= i < n -> bit i (SYS_BITARRAY_DEFINE n) = false.
Proof.
  intros Hn. assert (E : DIV_ROUND_UP (DIV_ROUND_UP n 8) 4 = (n + 31) / 32).
  { unfold DIV_ROUND_UP. pose proof (Z.div_mod (n + 8 - 1) 8 ltac:(lia)). pose proof (Z.mod_pos_bound (n + 8 - 1) 8 ltac:(lia)).
    pose proof (Z.div_mod ((n + 8 - 1) / 8 + 4 - 1) 4 ltac:(lia)). pose proof (Z.mod_pos_bound ((n + 8 - 1) / 8 + 4 - 1) 4 ltac:(lia)).
    pose proof (Z.div_mod (n + 31) 32 ltac:(lia)). pose proof (Z.mod_pos_bound (n + 31) 32 ltac:(lia)). lia. }
  assert (0 <= (n + 31) / 32) by (apply Z.div_pos; lia). split.
  - split; cbn [SYS_BITARRAY_DEFINE num_bits num_bundles bundles]; [lia|exact E| |].
    + rewrite length_replicate, E. lia.
    + apply Forall_replicate. lia.
  - intros i Hi. unfold bit, bundle_at. cbn [SYS_BITARRAY_DEFINE bundles]. rewrite E.
    pose proof (Z.div_mod (n + 31) 32 ltac:(lia)). pose proof (Z.mod_pos_bound (n + 31) 32 ltac:(lia)).
    pose proof (Z.div_mod i 32 ltac:(lia)). pose proof (Z.mod_pos_bound i 32 ltac:(lia)).
    rewrite lookup_total_replicate_2 by lia. apply Z.bits_0.
Qed.

(** ** Properties *)

(** C14: An allocation of [num] bits takes the first region of [num] free bits,
    sets exactly these bits and stores the offset; when it reports that there
    is no space no free region of that size exists.  The search skips full
    bundles and jumps behind the bit that spoiled a candidate. *)
Theorem sys_bitarray_alloc_first_fit num ba :
  wf ba -> 0 < num <= num_bits ba ->
  match sys_bitarray_alloc num true ba with
  | (r, Some offset, ba') => r = 0 /\ first_fit offset num ba /\ region_is offset num true ba ba'
  | (r, None, ba') => r = - ENOSPC /\ ba' = ba /\ forall o, in_range o num ba -> ~ all_free o num ba
  end.
Proof. apply bits_alloc_spec. Qed.

Definition demo_array : sys_bitarray := mk_bitarray 70 3 [0xffffffff; 0x3; 0x0].

Lemma demo_array_wf : wf demo_array.
Proof. split; [done|done|done|]. repeat (constructor; [lia|]). constructor. Qed.

Lemma sys_bitarray_alloc_first_fit_witness :
  sys_bitarray_alloc 33 true demo_array = (0, Some 34, mk_bitarray 70 3 [0xffffffff; 0xffffffff; 0x7])
  /\ first_fit 34 33 demo_array.
Proof.
  assert (E : sys_bitarray_alloc 33 true demo_array = (0, Some 34, mk_bitarray 70 3 [0xffffffff; 0xffffffff; 0x7]))
    by (vm_compute; reflexivity).
  split; [exact E|].
  pose proof (sys_bitarray_alloc_first_fit 33 demo_array demo_array_wf ltac:(cbn; lia)) as H. rewrite E in H. apply H.
Defined.



(** Every function on a bit array does to the single bits what it
    promises: it refuses a region that is not inside the array with -EINVAL,
    checks the bits it is to check one by one (-EFAULT for a region to free
    that is not all set, -EEXIST for one that is not all as expected), and
    then changes the bits of the region and no other. *)
Theorem sys_bitarray_ops_refine o ba :
  wf ba -> op_ok o -> op_spec o ba (run_op o ba).1 (run_op o ba).2.
Proof. apply run_op_spec. Qed.

Lemma sys_bitarray_ops_refine_witness :
  op_spec (Free 3 31) demo_array 0 (mk_bitarray 70 3 [0x7fffffff; 0; 0]).
Proof. apply (sys_bitarray_ops_refine (Free 3 31) demo_array demo_array_wf). split; lia. Defined.

(** Freeing a region that an allocation returned gives back the array
    from before the allocation. *)
Theorem sys_bitarray_alloc_free_roundtrip num offset ba ba' :
  wf ba -> 0 < num <= num_bits ba -> sys_bitarray_alloc num true ba = (0, Some offset, ba') ->
  exists ba'', sys_bitarray_free num offset ba' = (0, ba'') /\ forall i, 0 <= i -> bit i ba'' = bit i ba.
Proof.
  intros Hw Hn E. pose proof (bits_alloc_spec num ba Hw Hn) as H. rewrite E in H.
  destruct H as (_ & [[F1 F2 F3] F4 _] & [R1 R2 R3]).
  destruct (run_op_spec (Free num offset) ba' R1) as [(A & _)|[(A & B & C & [D1 D2 D3])|(A & B & _)]]; [cbn; lia|..].
  - exfalso. apply A. split; lia.
  - cbn [run_op] in *. destruct (sys_bitarray_free num offset ba') as [r ba'']. cbn in *. subst r. exists ba''.
    split; [done|]. intros i Hi. rewrite D3, R3 by done. destruct (_ && _) eqn:Eb; [|done]. symmetry. apply F4. lia.
  - exfalso. apply B. intros i Hi. rewrite R3 by lia. destruct (_ && _) eqn:Eb; [done|lia].
Qed.

Lemma sys_bitarray_alloc_free_roundtrip_witness :
  exists ba'', sys_bitarray_free 33 34 (mk_bitarray 70 3 [0xffffffff; 0xffffffff; 0x7]) = (0, ba'')
    /\ forall i, 0 <= i -> bit i ba'' = bit i demo_array.
Proof.
  apply (sys_bitarray_alloc_free_roundtrip 33 34 demo_array); [apply demo_array_wf|cbn; lia|vm_compute; reflexivity].
Defined.

End Bitarray.
