(* ===== verification/MemBlocks.v ===== *)
(** Memory block allocators (lib/os/mem_blocks.c), on top of bit arrays.

    Each block of the buffer has one bit.  The model has both settings of
    CONFIG_SYS_MEM_BLOCKS_RUNTIME_STATS as the argument [stats]; with it the
    functions count the used blocks under a spinlock, which appears as the
    interrupt mask it saves.  The theorems show that an allocation of several
    blocks succeeds as a whole or changes nothing, that blocks are handed out
    once, and that the counter is the number of allocated blocks. *)
From Stdlib Require Import ZifyBool.
From S2P Require Import Prelude Bitarray.
Import Bitarray.

Module MemBlocks.

Record sys_mem_blocks := mk_blocks {
  num_blocks : Z;                  (* uint32_t *)
  blk_sz_shift : Z;                (* uint8_t *)
  buffer : Z;                      (* uint8_t * *)
  bitmap : sys_bitarray;
  used_blocks : Z;                 (* uint32_t *)
  max_used_blocks : Z              (* uint32_t *)
}.

#[export] Instance set_bitmap : Settable bitmap := fun f m =>
  mk_blocks (num_blocks m) (blk_sz_shift m) (buffer m) (f (bitmap m)) (used_blocks m) (max_used_blocks m).
#[export] Instance set_used_blocks : Settable used_blocks := fun f m =>
  mk_blocks (num_blocks m) (blk_sz_shift m) (buffer m) (bitmap m) (f (used_blocks m)) (max_used_blocks m).
#[export] Instance set_max_used_blocks : Settable max_used_blocks := fun f m =>
  mk_blocks (num_blocks m) (blk_sz_shift m) (buffer m) (bitmap m) (used_blocks m) (f (max_used_blocks m)).

(** An allocator with the interrupt mask of the CPU. *)
Definition state : Type := sys_mem_blocks * bool.

Section Code.
Context (stats : bool).

(** [k_spin_lock] and [k_spin_unlock], where the code has them. *)
Definition lock (s : state) : bool * state := if stats then (s.2, (s.1, true)) else (s.2, s).
Definition unlock (key : bool) (s : state) : state := if stats then (s.1, key) else s.

Definition count_used (num : Z) (m : sys_mem_blocks) : sys_mem_blocks :=
  if stats then
    let m1 := m <| used_blocks ::= fun u => u32 (u + u32 num) |> in
    if max_used_blocks m1 <? used_blocks m1 then m1 <| max_used_blocks := used_blocks m1 |> else m1
  else m.

Definition alloc_blocks (num : Z) (s : state) : option Z * state :=
  let '(key, (m, irq)) := lock s in
  let '(r, offset, ba) := sys_bitarray_alloc num true (bitmap m) in
  let m1 := m <| bitmap := ba |> in
  if r =? 0 then
    let m2 := count_used num m1 in
    (Some (buffer m2 + Z.shiftl (default 0 offset) (blk_sz_shift m2)), unlock key (m2, irq))
  else (None, (m1, irq)).

Definition free_blocks (ptr num : Z) (s : state) : Z * state :=
  if ptr <? buffer s.1 then (- EFAULT, s)
  else
    let offset := Z.shiftr (ptr - buffer s.1) (blk_sz_shift s.1) in
    if offset >=? num_blocks s.1 then (- EFAULT, s)
    else
      let '(key, (m, irq)) := lock s in
      let '(ret, ba) := sys_bitarray_free num offset (bitmap m) in
      let m1 := m <| bitmap := ba |> in
      let m2 := if stats && (ret =? 0) then m1 <| used_blocks ::= fun u => u32 (u - u32 num) |> else m1 in
      (ret, unlock key (m2, irq)).

(** The second result is what is stored in [*out_block], if anything:
    [Some None] is NULL. *)
Definition sys_mem_blocks_alloc_contiguous (count : Z) (s : state) : Z * option (option Z) * state :=
  if count =? 0 then (0, Some None, s)
  else if count >? num_blocks s.1 then (- ENOMEM, None, s)
  else
    match alloc_blocks count s with
    | (None, s1) => (- ENOMEM, None, s1)
    | (Some ptr, s1) => (0, Some (Some ptr), s1)
    end.

Fixpoint free_loop (in_blocks : list Z) (ret : Z) (s : state) : Z * state :=
  match in_blocks with
  | [] => (ret, s)
  | ptr :: r =>
      let '(e, s1) := free_blocks ptr 1 s in
      free_loop r (if negb (e =? 0) then e else ret) s1
  end.

(** [count] is the length of [in_blocks]. *)
Definition sys_mem_blocks_free (in_blocks : list Z) (s : state) : Z * state :=
  let count := Z.of_nat (length in_blocks) in
  if count =? 0 then (0, s)
  else if count >? num_blocks s.1 then (- EINVAL, s)
  else free_loop in_blocks 0 s.

(** The loop of [sys_mem_blocks_alloc]: the blocks obtained, which are fewer
    than [n] if it left early. *)
Fixpoint alloc_blocks_loop (n : nat) (s : state) : list Z * state :=
  match n with
  | O => ([], s)
  | S n' =>
      match alloc_blocks 1 s with
      | (None, s1) => ([], s1)
      | (Some ptr, s1) => let '(l, s2) := alloc_blocks_loop n' s1 in (ptr :: l, s2)
      end
  end.

Definition sys_mem_blocks_alloc (count : Z) (s : state) : Z * list Z * state :=
  if count =? 0 then (0, [], s)
  else if count >? num_blocks s.1 then (- ENOMEM, [], s)
  else
    let '(out_blocks, s1) := alloc_blocks_loop (Z.to_nat count) s in
    if Z.of_nat (length out_blocks) <? count then
      let '(_, s2) := sys_mem_blocks_free out_blocks s1 in
      (- ENOMEM, out_blocks, s2)
    else (0, out_blocks, s1).

Definition sys_mem_blocks_is_region_free (in_block count : Z) (s : state) : bool :=
  let offset := u32 (Z.shiftr (in_block - buffer s.1) (blk_sz_shift s.1)) in
  sys_bitarray_is_region_cleared count offset (bitmap s.1).

Definition sys_mem_blocks_get (in_block count : Z) (s : state) : Z * state :=
  if count =? 0 then (0, s)
  else
    let offset := s32 (Z.shiftr (in_block - buffer s.1) (blk_sz_shift s.1)) in
    if u32 (offset + count) >? num_blocks s.1 then (- ENOMEM, s)
    else
      let '(key, (m, irq)) := lock s in
      let '(ret, ba) := sys_bitarray_test_and_set_region count (u32 offset) true (bitmap m) in
      if negb (ret =? 0) then (- ENOMEM, unlock key (m <| bitmap := ba |>, irq))
      else (0, unlock key (count_used count (m <| bitmap := ba |>), irq)).

Definition sys_mem_blocks_free_contiguous (block count : Z) (s : state) : Z * state :=
  if count =? 0 then (0, s)
  else if count >? num_blocks s.1 then (- EINVAL, s)
  else free_blocks block count s.

End Code.

(** The results in bytes: allocated, free, and the most ever allocated. *)
Definition sys_mem_blocks_runtime_stats_get (m : sys_mem_blocks) : Z * Z * Z :=
  let allocated := Z.shiftl (used_blocks m) (blk_sz_shift m) in
  (allocated, Z.shiftl (num_blocks m) (blk_sz_shift m) - allocated,
   Z.shiftl (max_used_blocks m) (blk_sz_shift m)).

Definition sys_mem_blocks_runtime_stats_reset_max (m : sys_mem_blocks) : sys_mem_blocks :=
  m <| max_used_blocks := used_blocks m |>.

(** ** Groups of allocators *)

(** The allocators of the group live in [pool]; the group has their names, in
    the order of the array.  [choice_fn] is the function of the application. *)
Record sys_multi_mem_blocks := mk_multi {
  allocators : list nat;
  choice_fn : Z -> option nat
}.

Definition sys_multi_mem_blocks_init (choice_fn : Z -> option nat) : sys_multi_mem_blocks :=
  mk_multi [] choice_fn.

Definition sys_multi_mem_blocks_add_allocator (alloc : nat) (group : sys_multi_mem_blocks)
    : sys_multi_mem_blocks :=
  mk_multi (allocators group ++ [alloc]) (choice_fn group).

Definition pool : Type := (nat -> sys_mem_blocks) * bool.

(** Run code of one allocator of the pool. *)
Definition at_allocator {A} (a : nat) (f : state -> A * state) (p : pool) : A * pool :=
  let '(r, (m, irq)) := f (p.1 a, p.2) in (r, (<[a := m]> p.1, irq)).

(** [blk_size] says whether the pointer is not NULL; the third result is what
    is stored there. *)
Definition sys_multi_mem_blocks_alloc (stats : bool) (group : sys_multi_mem_blocks)
    (cfg count : Z) (blk_size : bool) (p : pool) : Z * list Z * option Z * pool :=
  if count =? 0 then (0, [], if blk_size then Some 0 else None, p)
  else
    match choice_fn group cfg with
    | None => (- EINVAL, [], None, p)
    | Some a =>
        if count >? num_blocks (p.1 a) then (- ENOMEM, [], None, p)
        else
          let '((ret, out), p1) := at_allocator a (sys_mem_blocks_alloc stats count) p in
          (ret, out, if (ret =? 0) && blk_size then Some (BIT (blk_sz_shift (p1.1 a))) else None, p1)
    end.

(** The search for the allocator that the first block belongs to. *)
Fixpoint find_allocator (l : list nat) (block : Z) (p : pool) : option nat :=
  match l with
  | [] => None
  | a :: r =>
      let start := buffer (p.1 a) in
      let end_ := start + BIT (blk_sz_shift (p.1 a)) * num_blocks (p.1 a) in
      if (block >=? start) && (block <? end_) then Some a else find_allocator r block p
  end.

Definition sys_multi_mem_blocks_free (stats : bool) (group : sys_multi_mem_blocks)
    (in_blocks : list Z) (p : pool) : Z * pool :=
  match in_blocks with
  | [] => (0, p)
  | block :: _ =>
      match find_allocator (allocators group) block p with
      | Some a => at_allocator a (sys_mem_blocks_free stats in_blocks) p
      | None => (- EINVAL, p)
      end
  end.

(** ** Counting bits *)

Definition count_in (ba : sys_bitarray) (a n : nat) : nat :=
  length (filter (fun i => bit (Z.of_nat i) ba = true) (seq a n)).
Definition count_set (ba : sys_bitarray) : Z := Z.of_nat (count_in ba 0 (Z.to_nat (num_bits ba))).

Lemma count_in_app ba a n m : count_in ba a (n + m) = (count_in ba a n + count_in ba (a + n) m)%nat.
Proof. unfold count_in. by rewrite seq_app, filter_app, length_app. Qed.

Lemma count_in_ext ba ba' a n :
  (forall i, Z.of_nat a <= i < Z.of_nat (a + n) -> bit i ba' = bit i ba) -> count_in ba' a n = count_in ba a n.
Proof.
  revert a. induction n as [|n IH]; intros a H; [done|]. change (S n) with (1 + n)%nat.
  rewrite !count_in_app, IH by (intros; apply H; lia). f_equal. unfold count_in. cbn [seq].
  rewrite !filter_cons, H by lia. done.
Qed.

Lemma count_in_all ba a n b :
  (forall i, Z.of_nat a <= i < Z.of_nat (a + n) -> bit i ba = b) -> count_in ba a n = if b then n else 0%nat.
Proof.
  intros H. unfold count_in. destruct b.
  - rewrite filter_all, length_seq; [done|]. apply Forall_forall. intros i [? ?]%elem_of_seq. apply H. lia.
  - rewrite filter_none; [done|]. apply Forall_forall. intros i [? ?]%elem_of_seq. rewrite H by lia. done.
Qed.

Lemma count_in_le ba a n : (count_in ba a n <= n)%nat.
Proof. unfold count_in. etransitivity; [apply length_filter|]. by rewrite length_seq. Qed.

Lemma count_set_range ba : wf ba -> 0 <= count_set ba <= num_bits ba.
Proof. intros Hw. pose proof (wf_bits _ Hw). unfold count_set. pose proof (count_in_le ba 0 (Z.to_nat (num_bits ba))). lia. Qed.

(** Setting, respectively clearing, a region of clear, respectively set, bits. *)
Lemma count_region offset num v ba ba' :
  in_range offset num ba -> (forall i, offset <= i < offset + num -> bit i ba = negb v) ->
  region_is offset num v ba ba' -> count_set ba' = count_set ba + (if v then num else - num).
Proof.
  intros [H1 H2 H3] Hb [_ E R]. unfold count_set. rewrite E.
  replace (Z.to_nat (num_bits ba)) with (Z.to_nat offset + (Z.to_nat num + Z.to_nat (num_bits ba - offset - num)))%nat by lia.
  rewrite !count_in_app. cbn [plus].
  rewrite (count_in_ext ba ba' 0), (count_in_ext ba ba' (Z.to_nat offset + Z.to_nat num));
    [|intros i Hi; rewrite R by lia; replace ((offset <=? i) && (i <? offset + num)) with false by lia; done..].
  rewrite (count_in_all ba' _ _ v), (count_in_all ba (Z.to_nat offset) (Z.to_nat num) (negb v)).
  - destruct v; cbn [negb]; lia.
  - intros i Hi. apply Hb. lia.
  - intros i Hi. rewrite R by lia. replace ((offset <=? i) && (i <? offset + num)) with true by lia. done.
Qed.

Lemma count_full ba : wf ba -> (forall i, 0 <= i < num_bits ba -> bit i ba = true) -> count_set ba = num_bits ba.
Proof.
  intros Hw Hb. pose proof (wf_bits _ Hw). unfold count_set. rewrite (count_in_all ba 0 _ true); [lia|].
  intros i Hi. apply Hb. lia.
Qed.

(** ** Invariant *)

(** The bitmap has a bit per block, and the counter, where there is one, is
    the number of allocated blocks. *)
Record mwf (stats : bool) (m : sys_mem_blocks) : Prop := {
  mw_bitmap : wf (bitmap m);
  mw_blocks : num_bits (bitmap m) = num_blocks m;
  mw_shift : 0 <= blk_sz_shift m;
  mw_used : stats = true -> used_blocks m = count_set (bitmap m) /\ used_blocks m <= max_used_blocks m
}.

(** The members that never change. *)
Record fixed (m m' : sys_mem_blocks) : Prop := {
  fx_blocks : num_blocks m' = num_blocks m;
  fx_shift : blk_sz_shift m' = blk_sz_shift m;
  fx_buffer : buffer m' = buffer m
}.

Lemma fixed_refl m : fixed m m.
Proof. done. Qed.
Lemma fixed_trans a b c : fixed a b -> fixed b c -> fixed a c.
Proof. intros [] []. split; congruence. Qed.

Definition block_addr (m : sys_mem_blocks) (offset : Z) : Z := buffer m + Z.shiftl offset (blk_sz_shift m).

Section Lemmas.
Context (stats : bool).

Lemma count_used_spec num m ba offset :
  mwf stats m -> in_range offset num (bitmap m) -> all_free offset num (bitmap m) ->
  region_is offset num true (bitmap m) ba ->
  let m' := count_used stats num (m <| bitmap := ba |>) in mwf stats m' /\ fixed m m' /\ bitmap m' = ba.
Proof.
  intros [M1 M2 M3 M4] Hr Hf Hreg. pose proof (count_region _ _ true _ _ Hr Hf Hreg) as Hc. cbv iota in Hc.
  pose proof (count_set_range _ (rs_wf _ _ _ _ _ Hreg)) as Hle. pose proof (count_set_range _ M1) as Hle0.
  pose proof (wf_bits _ M1) as Hbits. rewrite (rs_bits _ _ _ _ _ Hreg) in Hle. destruct Hr as [R1 R2 R3].
  cbv zeta. unfold count_used. destruct stats; [|split; [|done]].
  - destruct (M4 eq_refl) as [U1 U2]. cbn [used_blocks max_used_blocks upd set_used_blocks set_bitmap bitmap].
    assert (Eu : u32 (used_blocks m + u32 num) = used_blocks m + num).
    { rewrite (uwrap_small 32 num) by lia. apply uwrap_small. lia. }
    rewrite Eu. destruct (Z.ltb_spec (max_used_blocks m) (used_blocks m + num)); (split; [|done]);
      (split; [apply Hreg|cbn; by rewrite (rs_bits _ _ _ _ _ Hreg)|done|]); intros _; cbn; lia.
  - split; cbn; [apply Hreg|by rewrite (rs_bits _ _ _ _ _ Hreg)|done|done].
Qed.

(** What [alloc_blocks] does; when it fails it leaves the interrupts masked
    if it took the lock. *)
Lemma alloc_blocks_spec num m irq :
  mwf stats m -> 0 < num <= num_blocks m ->
  match alloc_blocks stats num (m, irq) with
  | (Some ptr, (m', irq')) =>
      irq' = irq /\ mwf stats m' /\ fixed m m' /\ exists offset, first_fit offset num (bitmap m)
      /\ ptr = block_addr m offset /\ region_is offset num true (bitmap m) (bitmap m')
  | (None, s') => s' = (m, stats || irq)
                  /\ forall o, in_range o num (bitmap m) -> ~ all_free o num (bitmap m)
  end.
Proof.
  intros Hm Hn. pose proof Hm as [M1 M2 M3 M4]. rewrite <-M2 in Hn.
  pose proof (bits_alloc_spec num (bitmap m) M1 Hn) as HA. unfold alloc_blocks.
  assert (El : lock stats (m, irq) = (irq, (m, stats || irq))) by (unfold lock; by destruct stats).
  rewrite El. destruct (sys_bitarray_alloc num true (bitmap m)) as [[r [offset|]] ba].
  - destruct HA as (-> & Hff & Hreg). cbn [Z.eqb].
    destruct (count_used_spec num m ba offset Hm (ff_range _ _ _ Hff) (ff_free _ _ _ Hff) Hreg) as (C1 & C2 & C3).
    assert (Eu : unlock stats irq (count_used stats num (m <| bitmap := ba |>), stats || irq)
      = (count_used stats num (m <| bitmap := ba |>), irq)) by (unfold unlock; by destruct stats).
    rewrite Eu. split_and!; try done. exists offset. rewrite C3. split_and!; try done.
    cbn [default]. unfold block_addr. by rewrite (fx_buffer _ _ C2), (fx_shift _ _ C2).
  - destruct HA as (-> & -> & Hno). cbn. split; [by destruct m|done].
Qed.

Lemma addr_offset m offset d :
  0 <= blk_sz_shift m -> 0 <= offset -> 0 <= d < 2 ^ blk_sz_shift m ->
  block_addr m offset + d >= buffer m
  /\ Z.shiftr (block_addr m offset + d - buffer m) (blk_sz_shift m) = offset.
Proof.
  intros Hs Ho Hd. unfold block_addr. rewrite Z.shiftl_mul_pow2 by done. split; [nia|].
  rewrite Z.shiftr_div_pow2 by done. replace (_ + _ + d - buffer m) with (d + offset * 2 ^ blk_sz_shift m) by lia.
  rewrite Z.div_add, Z.div_small by lia. lia.
Qed.

(** Freeing blocks by an address inside the first of them. *)
Lemma free_blocks_spec num m irq offset d :
  mwf stats m -> 0 < num -> 0 <= offset < num_blocks m -> 0 <= d < 2 ^ blk_sz_shift m ->
  let res := free_blocks stats (block_addr m offset + d) num (m, irq) in
  res.2.2 = irq /\ mwf stats res.2.1 /\ fixed m res.2.1 /\
  ((~ in_range offset num (bitmap m) /\ res = (- EINVAL, (m, irq)))
   \/ (in_range offset num (bitmap m) /\ (forall i, offset <= i < offset + num -> bit i (bitmap m) = true)
       /\ res.1 = 0 /\ region_is offset num false (bitmap m) (bitmap res.2.1))
   \/ (in_range offset num (bitmap m) /\ ~ (forall i, offset <= i < offset + num -> bit i (bitmap m) = true)
       /\ res = (- EFAULT, (m, irq)))).
Proof.
  intros Hm Hn Ho Hd. pose proof Hm as [M1 M2 M3 M4]. destruct (addr_offset m offset d M3 ltac:(lia) Hd) as [A1 A2].
  unfold free_blocks. cbn [fst]. replace (_ <? _) with false by lia. rewrite A2.
  replace (offset >=? num_blocks m) with false by lia.
  assert (El : lock stats (m, irq) = (irq, (m, stats || irq))) by (unfold lock; by destruct stats). rewrite El.
  assert (Eu : forall x, unlock stats irq (x, stats || irq) = (x, irq)) by (intros; unfold unlock; by destruct stats).
  pose proof (run_op_spec (Free num offset) (bitmap m) M1 ltac:(cbn; lia)) as HF. cbn [run_op op_spec] in HF.
  destruct (sys_bitarray_free num offset (bitmap m)) as [r ba]. cbn [fst snd] in HF.
  assert (Hid : m <| bitmap := bitmap m |> = m) by (by destruct m).
  destruct HF as [(N & -> & ->)|[(R & B & -> & Hreg)|(R & B & -> & ->)]]; rewrite Eu; cbn [fst snd].
  - rewrite Hid. cbn. rewrite andb_false_r. cbn. by split_and!; auto.
  - pose proof (count_region offset num false _ _ R B Hreg) as Hc. cbv iota in Hc.
    pose proof (count_set_range _ (rs_wf _ _ _ _ _ Hreg)) as Hle. pose proof (count_set_range _ M1) as Hle0.
    pose proof (wf_bits _ M1). destruct R as [R1 R2 R3]. cbn [Z.eqb]. rewrite andb_true_r.
    split; [done|]. split; [|split; [by destruct stats|right; left; split_and!; try done; by destruct stats]].
    split; destruct stats; cbn; try (apply Hreg); try (by rewrite (rs_bits _ _ _ _ _ Hreg)); try done.
    intros _. destruct (M4 eq_refl) as [U1 U2]. rewrite (uwrap_small 32 num), uwrap_small by lia. lia.
  - rewrite Hid. cbn. rewrite andb_false_r. cbn. by split_and!; auto.
Qed.

(** The blocks [offs], which were free, are allocated. *)
Record took (offs : list Z) (m m' : sys_mem_blocks) : Prop := {
  tk_wf : mwf stats m';
  tk_fixed : fixed m m';
  tk_nodup : NoDup offs;
  tk_free o : o ∈ offs -> 0 <= o < num_blocks m /\ bit o (bitmap m) = false;
  tk_bit i : 0 <= i -> bit i (bitmap m') = bit i (bitmap m) || bool_decide (i ∈ offs);
  tk_count : count_set (bitmap m') = count_set (bitmap m) + Z.of_nat (length offs)
}.

Lemma took_nil m : mwf stats m -> took [] m m.
Proof.
  intros Hm. split; try done; [constructor|by intros o ?%elem_of_nil| |].
  - intros i _. rewrite bool_decide_eq_false_2 by apply not_elem_of_nil. by rewrite orb_false_r.
  - cbn. lia.
Qed.

Lemma took_cons o offs m m1 m' :
  mwf stats m -> first_fit o 1 (bitmap m) -> mwf stats m1 -> fixed m m1 ->
  region_is o 1 true (bitmap m) (bitmap m1) -> took offs m1 m' -> took (o :: offs) m m'.
Proof.
  intros Hm [[R1 R2 R3] Hfree _] Hm1 Hfx Hreg [T1 T2 T3 T4 T5 T6]. rewrite (mw_blocks _ _ Hm) in R3.
  assert (Ho : bit o (bitmap m1) = true) by (rewrite (rs_bit _ _ _ _ _ Hreg) by done; by replace (_ && _) with true by lia).
  split.
  - done.
  - by eapply fixed_trans.
  - apply NoDup_cons. split; [|done]. intros [_ Hb]%T4. congruence.
  - intros x [->|Hx]%elem_of_cons; [split; [lia|apply Hfree; lia]|]. destruct (T4 x Hx) as [X1 X2].
    rewrite (fx_blocks _ _ Hfx) in X1. split; [done|]. rewrite (rs_bit _ _ _ _ _ Hreg) in X2 by lia.
    by destruct (_ && _) in X2.
  - intros i Hi. rewrite T5, (rs_bit _ _ _ _ _ Hreg) by done. destruct (decide (i = o)) as [->|Hne].
    + replace (_ && _) with true by lia. rewrite (bool_decide_eq_true_2 (o ∈ o :: offs)) by left. by rewrite orb_true_r.
    + replace (_ && _) with false by lia. f_equal. apply bool_decide_ext. rewrite elem_of_cons. tauto.
  - rewrite T6, (count_region o 1 true (bitmap m) (bitmap m1)); [cbn [length]; lia|by split; rewrite ?(mw_blocks _ _ Hm)| |done].
    intros i Hi. apply Hfree. lia.
Qed.

Lemma alloc_loop_took n m irq :
  mwf stats m ->
  let '(l, (m', irq')) := alloc_blocks_loop stats n (m, irq) in
  exists offs, l = block_addr m <$> offs /\ took offs m m' /\ (length l <= n)%nat
    /\ if decide (length l = n) then irq' = irq
       else irq' = stats || irq /\ count_set (bitmap m') = num_blocks m.
Proof.
  revert m irq. induction n as [|n IH]; intros m irq Hm; cbn [alloc_blocks_loop].
  - exists []. split_and!; try done. by apply took_nil.
  - pose proof (wf_bits _ (mw_bitmap _ _ Hm)) as Hb. rewrite (mw_blocks _ _ Hm) in Hb.
    pose proof (alloc_blocks_spec 1 m irq Hm ltac:(lia)) as HA.
    destruct (alloc_blocks stats 1 (m, irq)) as [[ptr|] [m1 irq1]].
    + destruct HA as (-> & Hm1 & Hfx & o & Hff & -> & Hreg). specialize (IH m1 irq Hm1).
      destruct (alloc_blocks_loop stats n (m1, irq)) as [l [m' irq']]. destruct IH as (offs & -> & Ht & Hl & Hend).
      exists (o :: offs). split_and!.
      * cbn. f_equal. apply list_fmap_ext. intros i x _. unfold block_addr. by rewrite (fx_buffer _ _ Hfx), (fx_shift _ _ Hfx).
      * by eapply took_cons.
      * cbn. lia.
      * cbn [length]. destruct (decide (length (block_addr m1 <$> offs) = n)), (decide (S (length (block_addr m1 <$> offs)) = S n)); try done || lia.
        by rewrite <-(fx_blocks _ _ Hfx).
    + destruct HA as ([= -> ->] & Hno). exists []. split_and!; try done; [by apply took_nil|cbn; lia|].
      cbn. split; [done|]. rewrite <-(mw_blocks _ _ Hm). apply count_full; [apply Hm|]. intros i Hi.
      destruct (bit i (bitmap m)) eqn:Ei; [done|]. exfalso. apply (Hno i); [by split; lia|].
      intros j Hj. by replace j with i by lia.
Qed.

(** The blocks [offs], which were allocated, are free. *)
Record gave (offs : list Z) (m m' : sys_mem_blocks) : Prop := {
  gv_wf : mwf stats m';
  gv_fixed : fixed m m';
  gv_bit i : 0 <= i -> bit i (bitmap m') = bit i (bitmap m) && bool_decide (i ∉ offs)
}.

Lemma free_loop_gave offs ret m irq :
  mwf stats m -> NoDup offs -> (forall o, o ∈ offs -> 0 <= o < num_blocks m /\ bit o (bitmap m) = true) ->
  exists m', free_loop stats (block_addr m <$> offs) ret (m, irq) = (ret, (m', irq)) /\ gave offs m m'.
Proof.
  intros Hm Hnd. revert m Hm. induction Hnd as [|o offs Hni Hnd IH]; intros m Hm Hin; cbn.
  - exists m. split; [done|]. split; try done. intros i _.
    rewrite bool_decide_eq_true_2 by apply not_elem_of_nil. by rewrite andb_true_r.
  - destruct (Hin o) as [Ho Hbit]; [left|].
    pose proof (free_blocks_spec 1 m irq o 0 Hm ltac:(lia) Ho ltac:(pose proof (mw_shift _ _ Hm); lia)) as HF.
    rewrite Z.add_0_r in HF. assert (Hr : in_range o 1 (bitmap m)) by (split; rewrite ?(mw_blocks _ _ Hm); lia).
    destruct (free_blocks stats (block_addr m o) 1 (m, irq)) as [r [m1 irq1]]. cbn [fst snd] in HF.
    destruct HF as (-> & Hm1 & Hfx & [(N & _)|[(_ & _ & -> & Hreg)|(_ & N & _)]]); [done| |].
    + cbn [Z.eqb negb]. destruct (IH m1 Hm1) as (m' & E & [G1 G2 G3]).
      { intros x Hx. destruct (Hin x) as [X1 X2]; [by right|]. rewrite (fx_blocks _ _ Hfx). split; [done|].
        rewrite (rs_bit _ _ _ _ _ Hreg) by lia. assert (x <> o) by (by intros ->). by replace (_ && _) with false by lia. }
      assert (Eaddr : block_addr m <$> offs = block_addr m1 <$> offs).
      { apply list_fmap_ext. intros i x _. unfold block_addr. by rewrite (fx_buffer _ _ Hfx), (fx_shift _ _ Hfx). }
      rewrite Eaddr, E. exists m'. split; [done|]. split; [done|by eapply fixed_trans|].
      intros i Hi. rewrite G3, (rs_bit _ _ _ _ _ Hreg) by done. destruct (decide (i = o)) as [->|Hne].
      * replace (_ && (o <? o + 1)) with true by lia. rewrite (bool_decide_eq_false_2 (o ∉ o :: offs)).
        { by rewrite andb_false_r. }
        intros Hx. apply Hx. left.
      * replace (_ && (i <? o + 1)) with false by lia. f_equal. apply bool_decide_ext. rewrite not_elem_of_cons. tauto.
    + exfalso. apply N. intros i Hi. by replace i with o by lia.
Qed.

Lemma took_gave offs m m1 m2 i : took offs m m1 -> gave offs m1 m2 -> 0 <= i -> bit i (bitmap m2) = bit i (bitmap m).
Proof.
  intros Ht Hg Hi. rewrite (gv_bit _ _ _ Hg), (tk_bit _ _ _ Ht) by done.
  destruct (decide (i ∈ offs)) as [Hin|Hni].
  - rewrite (bool_decide_eq_false_2 (i ∉ offs)) by tauto. destruct (tk_free _ _ _ Ht i Hin) as [_ ->]. by rewrite andb_false_r.
  - rewrite (bool_decide_eq_true_2 (i ∉ offs)), (bool_decide_eq_false_2 (i ∈ offs)) by done. by rewrite orb_false_r, andb_true_r.
Qed.

(** Freeing at any address. *)
Lemma free_blocks_wf ptr num m irq :
  mwf stats m -> 0 < num ->
  (free_blocks stats ptr num (m, irq)).2.2 = irq
  /\ mwf stats (free_blocks stats ptr num (m, irq)).2.1 /\ fixed m (free_blocks stats ptr num (m, irq)).2.1.
Proof.
  intros Hm Hn. destruct (decide (ptr < buffer m)) as [Hp|Hp].
  { unfold free_blocks. cbn [fst]. replace (ptr <? buffer m) with true by lia. done. }
  set (offset := Z.shiftr (ptr - buffer m) (blk_sz_shift m)). pose proof (mw_shift _ _ Hm) as Hs.
  assert (Ho : 0 <= offset) by (apply Z.shiftr_nonneg; lia).
  destruct (decide (offset < num_blocks m)) as [Hlt|Hge].
  - set (d := (ptr - buffer m) mod 2 ^ blk_sz_shift m).
    assert (Hd : 0 <= d < 2 ^ blk_sz_shift m) by (apply Z.mod_pos_bound; lia).
    assert (E : ptr = block_addr m offset + d).
    { unfold block_addr, offset, d. rewrite Z.shiftl_mul_pow2, Z.shiftr_div_pow2 by done.
      pose proof (Z.div_mod (ptr - buffer m) (2 ^ blk_sz_shift m) ltac:(lia)). lia. }
    rewrite E. destruct (free_blocks_spec num m irq offset d Hm Hn ltac:(lia) Hd) as (H1 & H2 & H3 & _). done.
  - unfold free_blocks. cbn [fst]. replace (ptr <? buffer m) with false by lia. fold offset.
    replace (offset >=? num_blocks m) with true by lia. done.
Qed.

Lemma free_loop_wf l ret m irq :
  mwf stats m ->
  (free_loop stats l ret (m, irq)).2.2 = irq
  /\ mwf stats (free_loop stats l ret (m, irq)).2.1 /\ fixed m (free_loop stats l ret (m, irq)).2.1.
Proof.
  revert ret m. induction l as [|p l IH]; intros ret m Hm; [done|]. cbn [free_loop].
  destruct (free_blocks_wf p 1 m irq Hm ltac:(lia)) as (H1 & H2 & H3).
  destruct (free_blocks stats p 1 (m, irq)) as [e [m1 irq1]]. cbn [fst snd] in *. subst irq1.
  destruct (IH (if negb (e =? 0) then e else ret) m1 H2) as (I1 & I2 & I3). split_and!; try done. by eapply fixed_trans.
Qed.

(** The result of allocating [count] single blocks. *)
Lemma alloc_all_or_nothing count m irq :
  mwf stats m -> 0 < count <= num_blocks m ->
  let '(r, out, (m', irq')) := sys_mem_blocks_alloc stats count (m, irq) in
  mwf stats m' /\ fixed m m' /\
  ((r = 0 /\ irq' = irq /\ exists offs, out = block_addr m <$> offs /\ Z.of_nat (length offs) = count /\ took offs m m')
   \/ (r = - ENOMEM /\ irq' = stats || irq /\ num_blocks m - count_set (bitmap m) < count
       /\ forall i, 0 <= i -> bit i (bitmap m') = bit i (bitmap m))).
Proof.
  intros Hm Hc. unfold sys_mem_blocks_alloc. cbn [fst].
  replace (count =? 0) with false by lia. replace (count >? num_blocks m) with false by lia.
  pose proof (alloc_loop_took (Z.to_nat count) m irq Hm) as HL.
  destruct (alloc_blocks_loop stats (Z.to_nat count) (m, irq)) as [l [m1 irq1]].
  destruct HL as (offs & -> & Ht & Hl & Hend). rewrite length_fmap in *.
  destruct (Z.ltb_spec (Z.of_nat (length offs)) count) as [Hlt|Hge].
  - destruct (decide (length offs = Z.to_nat count)); [lia|]. destruct Hend as [-> Hfull].
    pose proof (tk_count _ _ _ Ht) as Hcnt. unfold sys_mem_blocks_free. cbn [fst]. rewrite length_fmap.
    assert (Hno : num_blocks m - count_set (bitmap m) < count) by lia.
    destruct (Z.eqb_spec (Z.of_nat (length offs)) 0) as [H0|H0].
    { destruct offs; [|cbn in H0; lia]. split_and!; [apply Ht..|]. right. split_and!; try done. intros i Hi.
      rewrite (tk_bit _ _ _ Ht) by done. rewrite bool_decide_eq_false_2 by apply not_elem_of_nil. by rewrite orb_false_r. }
    rewrite (fx_blocks _ _ (tk_fixed _ _ _ Ht)). replace (_ >? _) with false by lia.
    assert (Eaddr : block_addr m <$> offs = block_addr m1 <$> offs).
    { apply list_fmap_ext. intros i x _. unfold block_addr. by rewrite (fx_buffer _ _ (tk_fixed _ _ _ Ht)), (fx_shift _ _ (tk_fixed _ _ _ Ht)). }
    rewrite Eaddr. destruct (free_loop_gave offs 0 m1 (stats || irq)) as (m2 & -> & Hg); [apply Ht|apply Ht| |].
    { intros o Ho. destruct (tk_free _ _ _ Ht o Ho) as [O1 O2]. rewrite (fx_blocks _ _ (tk_fixed _ _ _ Ht)).
      split; [done|]. rewrite (tk_bit _ _ _ Ht) by lia. rewrite (bool_decide_eq_true_2 _ Ho). by rewrite orb_true_r. }
    split; [apply Hg|]. split; [eapply fixed_trans; [apply Ht|apply Hg]|]. right. split_and!; try done.
    intros i Hi. by eapply took_gave.
  - destruct (decide (length offs = Z.to_nat count)); [|lia]. split_and!; [apply Ht..|]. left. split_and!; try done.
    exists offs. split_and!; [done|lia|done].
Qed.

End Lemmas.

(** The functions that change an allocator, as one type. *)
Inductive op :=
  | Alloc (count : Z)
  | Alloc_contiguous (count : Z)
  | Get (in_block count : Z)
  | Free (in_blocks : list Z)
  | Free_contiguous (block count : Z).

Definition run_op (stats : bool) (o : op) (s : state) : Z * state :=
  match o with
  | Alloc count => let '(r, _, s') := sys_mem_blocks_alloc stats count s in (r, s')
  | Alloc_contiguous count => let '(r, _, s') := sys_mem_blocks_alloc_contiguous stats count s in (r, s')
  | Get in_block count => sys_mem_blocks_get stats in_block count s
  | Free in_blocks => sys_mem_blocks_free stats in_blocks s
  | Free_contiguous block count => sys_mem_blocks_free_contiguous stats block count s
  end.

Definition op_ok (o : op) : Prop :=
  match o with
  | Alloc count | Alloc_contiguous count | Get _ count | Free_contiguous _ count => 0 <= count
  | Free _ => True
  end.

Lemma get_wf stats in_block count m irq :
  mwf stats m -> 0 <= count ->
  mwf stats (sys_mem_blocks_get stats in_block count (m, irq)).2.1
  /\ fixed m (sys_mem_blocks_get stats in_block count (m, irq)).2.1.
Proof.
  intros Hm Hc. unfold sys_mem_blocks_get. cbn [fst]. case_match; [done|]. case_match; [done|].
  set (offset := s32 _). assert (Ho : 0 <= u32 offset) by (apply uwrap_range; lia).
  assert (El : lock stats (m, irq) = (irq, (m, stats || irq))) by (unfold lock; by destruct stats). rewrite El.
  assert (Eu : forall x, (unlock stats irq (x, stats || irq)).1 = x) by (intros; unfold unlock; by destruct stats).
  pose proof (run_op_spec (Test_and_set_region count (u32 offset) true) (bitmap m) (mw_bitmap _ _ Hm) ltac:(cbn; lia)) as HF.
  cbn [Bitarray.run_op op_spec] in HF.
  destruct (sys_bitarray_test_and_set_region count (u32 offset) true (bitmap m)) as [r ba]. cbn [fst snd] in HF.
  assert (Hid : m <| bitmap := bitmap m |> = m) by (by destruct m).
  destruct HF as [(N & -> & ->)|[(R & B & -> & Hreg)|(R & B & -> & ->)]]; cbn [fst snd].
  - change (negb (- EINVAL =? 0)) with true. cbn [fst snd]. by rewrite Eu, Hid.
  - change (negb (0 =? 0)) with false. cbn [fst snd]. rewrite Eu.
    destruct (count_used_spec stats count m ba (u32 offset) Hm R B Hreg) as (C1 & C2 & _). done.
  - change (negb (- EEXIST =? 0)) with true. cbn [fst snd]. by rewrite Eu, Hid.
Qed.

Lemma run_op_wf stats o m irq :
  mwf stats m -> op_ok o -> mwf stats (run_op stats o (m, irq)).2.1 /\ fixed m (run_op stats o (m, irq)).2.1.
Proof.
  intros Hm Hok. destruct o as [count|count|p count|l|p count]; cbn [run_op op_ok] in *.
  - destruct (decide (0 < count <= num_blocks m)) as [Hc|Hc].
    + pose proof (alloc_all_or_nothing stats count m irq Hm Hc) as H.
      destruct (sys_mem_blocks_alloc stats count (m, irq)) as [[r out] [m' irq']]. cbn. tauto.
    + unfold sys_mem_blocks_alloc. cbn [fst]. destruct (count =? 0) eqn:E0; [done|]. by replace (count >? num_blocks m) with true by lia.
  - unfold sys_mem_blocks_alloc_contiguous. cbn [fst]. destruct (count =? 0) eqn:E0; [done|].
    destruct (count >? num_blocks m) eqn:E; [done|].
    pose proof (alloc_blocks_spec stats count m irq Hm ltac:(lia)) as H.
    destruct (alloc_blocks stats count (m, irq)) as [[ptr|] [m' irq']]; [cbn; tauto|]. by destruct H as ([= -> ->] & _).
  - by apply get_wf.
  - unfold sys_mem_blocks_free. cbn [fst]. destruct (_ =? 0); [done|]. destruct (_ >? _); [done|]. by apply free_loop_wf.
  - unfold sys_mem_blocks_free_contiguous. cbn [fst]. destruct (count =? 0) eqn:E0; [done|]. destruct (_ >? _); [done|].
    apply free_blocks_wf; [done|lia].
Qed.

(** ** Properties *)

(** Four blocks of 16 bytes at address 4096; the second one is allocated. *)
Definition demo_blocks : sys_mem_blocks := mk_blocks 4 4 4096 (mk_bitarray 4 1 [2]) 1 1.

Lemma demo_blocks_wf stats : mwf stats demo_blocks.
Proof.
  split; [|done|done|by intros _].
  split; [done|done|done|]. constructor; [lia|constructor].
Qed.

(** [sys_mem_blocks_alloc] of [count] blocks either returns that many
    different blocks of the buffer that were free, and allocates exactly
    these, or there were fewer than [count] free blocks and it returns
    -ENOMEM with all blocks as they were, the ones it took on the way given
    back. *)
Theorem sys_mem_blocks_alloc_all_or_nothing stats count m irq :
  mwf stats m -> 0 < count <= num_blocks m ->
  let '(r, out, (m', irq')) := sys_mem_blocks_alloc stats count (m, irq) in
  mwf stats m' /\ fixed m m' /\
  ((r = 0 /\ irq' = irq /\ exists offs, out = block_addr m <$> offs /\ Z.of_nat (length offs) = count /\ took stats offs m m')
   \/ (r = - ENOMEM /\ irq' = stats || irq /\ num_blocks m - count_set (bitmap m) < count
       /\ forall i, 0 <= i -> bit i (bitmap m') = bit i (bitmap m))).
Proof. apply alloc_all_or_nothing. Qed.

Lemma sys_mem_blocks_alloc_all_or_nothing_witness :
  exists offs m', sys_mem_blocks_alloc true 2 (demo_blocks, false) = (0, [4096; 4128], (m', false))
    /\ [4096; 4128] = block_addr demo_blocks <$> offs /\ took true offs demo_blocks m'.
Proof.
  pose proof (sys_mem_blocks_alloc_all_or_nothing true 2 demo_blocks false (demo_blocks_wf true) ltac:(cbn; lia)) as H.
  assert (E : sys_mem_blocks_alloc true 2 (demo_blocks, false)
    = (0, [4096; 4128], (mk_blocks 4 4 4096 (mk_bitarray 4 1 [7]) 3 3, false))) by (vm_compute; reflexivity).
  rewrite E in H. destruct H as (_ & _ & [(_ & _ & offs & H1 & _ & H2)|(H & _)]); [|discriminate].
  exists offs, (mk_blocks 4 4 4096 (mk_bitarray 4 1 [7]) 3 3). split; [exact E|]. split; [exact H1|exact H2].
Defined.

(** Every function on a block allocator keeps the bitmap consistent with
    the number of blocks, whatever addresses it is given, and with runtime
    statistics keeps [used_blocks] the exact number of allocated blocks, never
    above the recorded maximum. *)
Theorem sys_mem_blocks_ops_wf stats o m irq :
  mwf stats m -> op_ok o -> mwf stats (run_op stats o (m, irq)).2.1 /\ fixed m (run_op stats o (m, irq)).2.1.
Proof. apply run_op_wf. Qed.

Lemma sys_mem_blocks_ops_wf_witness :
  used_blocks (run_op true (Get 4128 2) (demo_blocks, false)).2.1 = 3
  /\ mwf true (run_op true (Get 4128 2) (demo_blocks, false)).2.1.
Proof.
  split; [vm_compute; reflexivity|].
  apply (sys_mem_blocks_ops_wf true (Get 4128 2) demo_blocks false (demo_blocks_wf true)). cbn. lia.
Defined.

(** C39: With runtime statistics, an allocation that does not find enough
    blocks returns with interrupts masked: [alloc_blocks] takes the spinlock
    and releases it only on success. *)
Theorem alloc_blocks_leaks_lock num m irq :
  mwf true m -> 0 < num <= num_blocks m ->
  (forall o, in_range o num (bitmap m) -> ~ all_free o num (bitmap m)) ->
  alloc_blocks true num (m, irq) = (None, (m, true)).
Proof.
  intros Hm Hn Hno. pose proof (alloc_blocks_spec true num m irq Hm Hn) as H.
  destruct (alloc_blocks true num (m, irq)) as [[ptr|] [m' irq']].
  - destruct H as (_ & _ & _ & o & [F1 F2 _] & _). by destruct (Hno o F1).
  - by destruct H as (-> & _).
Qed.

Lemma alloc_blocks_leaks_lock_witness :
  alloc_blocks true 3 (demo_blocks, false) = (None, (demo_blocks, true)).
Proof.
  apply (alloc_blocks_leaks_lock 3 demo_blocks false (demo_blocks_wf true)); [cbn; lia|].
  intros o [H1 H2 H3] Hf. cbn [demo_blocks bitmap num_bits] in *. specialize (Hf 1 ltac:(lia)). vm_compute in Hf. discriminate.
Defined.

End MemBlocks.
