(* ===== verification/RingBuf.v ===== *)
(** Ring buffers (lib/os/ring_buffer.c and include/zephyr/sys/ring_buffer.h).

    The head, tail and base counters are 32 bit integers that wrap around, and
    the code relies on two's complement arithmetic for their differences, which
    the model uses; the buffer is a region of byte memory.  [repr] relates the counters to the true offsets; the theorems show
    that for every value of the counters the operations implement a bounded
    FIFO of bytes, and that the copy loops end after at most three rounds.
    The item operations at the end of the file, which lay a header over the
    buffer with C bit fields, are not modelled. *)
From S2P Require Import Prelude Mem.

Module RingBuf.

Record ring_buf := mk_ring {
  buffer : Z;
  put_head : Z;
  put_tail : Z;
  put_base : Z;
  get_head : Z;
  get_tail : Z;
  get_base : Z;
  size : Z
}.

#[export] Instance set_put_head : Settable put_head := fun f b =>
  mk_ring (buffer b) (f (put_head b)) (put_tail b) (put_base b) (get_head b) (get_tail b) (get_base b) (size b).
#[export] Instance set_put_tail : Settable put_tail := fun f b =>
  mk_ring (buffer b) (put_head b) (f (put_tail b)) (put_base b) (get_head b) (get_tail b) (get_base b) (size b).
#[export] Instance set_put_base : Settable put_base := fun f b =>
  mk_ring (buffer b) (put_head b) (put_tail b) (f (put_base b)) (get_head b) (get_tail b) (get_base b) (size b).
#[export] Instance set_get_head : Settable get_head := fun f b =>
  mk_ring (buffer b) (put_head b) (put_tail b) (put_base b) (f (get_head b)) (get_tail b) (get_base b) (size b).
#[export] Instance set_get_tail : Settable get_tail := fun f b =>
  mk_ring (buffer b) (put_head b) (put_tail b) (put_base b) (get_head b) (f (get_tail b)) (get_base b) (size b).
#[export] Instance set_get_base : Settable get_base := fun f b =>
  mk_ring (buffer b) (put_head b) (put_tail b) (put_base b) (get_head b) (get_tail b) (f (get_base b)) (size b).

Definition RING_BUFFER_MAX_SIZE : Z := 2147483648.

Definition ring_buf_internal_reset (value : Z) (b : ring_buf) : ring_buf :=
  mk_ring (buffer b) value value value value value value (size b).

Definition ring_buf_init (sz data : Z) (b : ring_buf) : ring_buf :=
  ring_buf_internal_reset 0
    (mk_ring data (put_head b) (put_tail b) (put_base b) (get_head b) (get_tail b) (get_base b) sz).

Definition ring_buf_reset (b : ring_buf) : ring_buf := ring_buf_internal_reset 0 b.
Definition ring_buf_is_empty (b : ring_buf) : bool := get_head b =? put_tail b.
Definition ring_buf_space_get (b : ring_buf) : Z := u32 (size b - s32 (put_head b - get_tail b)).
Definition ring_buf_capacity_get (b : ring_buf) : Z := size b.
Definition ring_buf_size_get (b : ring_buf) : Z := u32 (s32 (put_tail b - get_head b)).

(** The claim operations return the size, the address stored through [data],
    and the new state. *)
Definition ring_buf_put_claim (b : ring_buf) (sz : Z) : Z * Z * ring_buf :=
  let base := put_base b in
  let wrap_size := u32 (put_head b - base) in
  let '(wrap_size, base) :=
    if wrap_size >=? size b then (u32 (wrap_size - size b), s32 (base + size b)) else (wrap_size, base) in
  let wrap_size := u32 (size b - wrap_size) in
  let free_space := ring_buf_space_get b in
  let sz := Z.min sz free_space in
  let sz := Z.min sz wrap_size in
  (sz, buffer b + s32 (put_head b - base), b <| put_head ::= fun h => s32 (h + sz) |>).

Definition ring_buf_put_finish (b : ring_buf) (sz : Z) : Z * ring_buf :=
  let finish_space := u32 (put_head b - put_tail b) in
  if sz >? finish_space then (- EINVAL, b)
  else
    let b := b <| put_tail ::= fun t => s32 (t + sz) |> in
    let b := b <| put_head := put_tail b |> in
    let wrap_size := u32 (put_tail b - put_base b) in
    let b := if wrap_size >=? size b then b <| put_base ::= fun x => s32 (x + size b) |> else b in
    (0, b).

(** The [do ... while (size && partial_size)] loop. *)
Fixpoint put_loop (fuel : nat) (b : ring_buf) (m : mem) (data sz total : Z) : ring_buf * mem * Z :=
  match fuel with
  | O => (b, m, total)
  | S fuel =>
      let '(partial, dst, b) := ring_buf_put_claim b sz in
      let m := memcpy dst data partial m in
      let total := u32 (total + partial) in
      let sz := u32 (sz - partial) in
      if negb (sz =? 0) && negb (partial =? 0) then put_loop fuel b m (data + partial) sz total
      else (b, m, total)
  end.

(** Three rounds are enough: up to the end of the buffer, from its start, and
    one that finds no space. *)
Definition rounds : nat := 3.

Definition ring_buf_put (b : ring_buf) (m : mem) (data sz : Z) : Z * ring_buf * mem :=
  let '(b, m, total_size) := put_loop rounds b m data sz 0 in
  let '(_, b) := ring_buf_put_finish b total_size in
  (total_size, b, m).

Definition ring_buf_get_claim (b : ring_buf) (sz : Z) : Z * Z * ring_buf :=
  let base := get_base b in
  let wrap_size := u32 (get_head b - base) in
  let '(wrap_size, base) :=
    if wrap_size >=? size b then (u32 (wrap_size - size b), s32 (base + size b)) else (wrap_size, base) in
  let wrap_size := u32 (size b - wrap_size) in
  let available_size := ring_buf_size_get b in
  let sz := Z.min sz available_size in
  let sz := Z.min sz wrap_size in
  (sz, buffer b + s32 (get_head b - base), b <| get_head ::= fun h => s32 (h + sz) |>).

Definition ring_buf_get_finish (b : ring_buf) (sz : Z) : Z * ring_buf :=
  let finish_space := u32 (get_head b - get_tail b) in
  if sz >? finish_space then (- EINVAL, b)
  else
    let b := b <| get_tail ::= fun t => s32 (t + sz) |> in
    let b := b <| get_head := get_tail b |> in
    let wrap_size := u32 (get_tail b - get_base b) in
    let b := if wrap_size >=? size b then b <| get_base ::= fun x => s32 (x + size b) |> else b in
    (0, b).

(** [data] is [None] for a NULL destination. *)
Fixpoint get_loop (fuel : nat) (b : ring_buf) (m : mem) (data : option Z) (sz total : Z) : ring_buf * mem * Z :=
  match fuel with
  | O => (b, m, total)
  | S fuel =>
      let '(partial, src, b) := ring_buf_get_claim b sz in
      let m := match data with Some d => memcpy d src partial m | None => m end in
      let data := match data with Some d => Some (d + partial) | None => None end in
      let total := u32 (total + partial) in
      let sz := u32 (sz - partial) in
      if negb (sz =? 0) && negb (partial =? 0) then get_loop fuel b m data sz total
      else (b, m, total)
  end.

Definition ring_buf_get (b : ring_buf) (m : mem) (data : option Z) (sz : Z) : Z * ring_buf * mem :=
  let '(b, m, total_size) := get_loop rounds b m data sz 0 in
  let '(_, b) := ring_buf_get_finish b total_size in
  (total_size, b, m).

Definition ring_buf_peek (b : ring_buf) (m : mem) (data sz : Z) : Z * ring_buf * mem :=
  let sz := Z.min sz (ring_buf_size_get b) in
  let '(b, m, total_size) := get_loop rounds b m (Some data) sz 0 in
  let '(_, b) := ring_buf_get_finish b 0 in
  (total_size, b, m).

(** ** Counters *)

Lemma u32_s32_sub a b : u32 (s32 a - s32 b) = u32 (a - b).
Proof.
  unfold uwrap, swrap. change (2 ^ (32 - 1)) with 2147483648. change (2 ^ 32) with 4294967296.
  Z.to_euclidean_division_equations; lia.
Qed.

Lemma u32_s32 a : u32 (s32 a) = u32 a.
Proof.
  unfold uwrap, swrap. change (2 ^ (32 - 1)) with 2147483648. change (2 ^ 32) with 4294967296.
  Z.to_euclidean_division_equations; lia.
Qed.

Lemma s32_s32_add a b : s32 (s32 a + b) = s32 (a + b).
Proof.
  unfold swrap. change (2 ^ (32 - 1)) with 2147483648. change (2 ^ 32) with 4294967296.
  Z.to_euclidean_division_equations; lia.
Qed.

Lemma s32_s32_sub a b : s32 (s32 a - s32 b) = s32 (a - b).
Proof.
  unfold swrap. change (2 ^ (32 - 1)) with 2147483648. change (2 ^ 32) with 4294967296.
  Z.to_euclidean_division_equations; lia.
Qed.

Lemma s32_small a : 0 <= a < 2147483648 -> s32 a = a.
Proof.
  intros H. unfold swrap. change (2 ^ (32 - 1)) with 2147483648. change (2 ^ 32) with 4294967296.
  rewrite Z.mod_small; lia.
Qed.

Lemma u32_sub_s32 a b : u32 (a - s32 b) = u32 (a - b).
Proof.
  unfold uwrap, swrap. change (2 ^ (32 - 1)) with 2147483648. change (2 ^ 32) with 4294967296.
  Z.to_euclidean_division_equations; lia.
Qed.

Lemma u32_small a : 0 <= a < 4294967296 -> u32 a = a.
Proof. intros H. by apply uwrap_small. Qed.

(** The counters of a buffer that was read up to [T], at the offset [g] of the
    buffer, with [u] bytes in use, of which [gc] are claimed for reading, and
    [pc] bytes claimed for writing. *)
Record repr (T g u pc gc : Z) (b : ring_buf) : Prop := {
  re_size : 0 < size b < RING_BUFFER_MAX_SIZE;
  re_g : 0 <= g < size b;
  re_gc : 0 <= gc <= u;
  re_pc : 0 <= pc;
  re_fit : u + pc <= size b;
  re_get_tail : get_tail b = s32 T;
  re_get_base : get_base b = s32 (T - g);
  re_get_head : get_head b = s32 (T + gc);
  re_put_tail : put_tail b = s32 (T + u);
  re_put_head : put_head b = s32 (T + u + pc);
  re_put_base : put_base b = s32 (T - g + (if g + u >=? size b then size b else 0))
}.

(** The remainder of an offset below two rounds. *)
Lemma offset_mod x n : 0 <= x < 2 * n -> x mod n = if x >=? n then x - n else x.
Proof.
  intros H. destruct (x >=? n) eqn:E.
  - rewrite <-(Z.mod_small (x - n) n) by lia. by rewrite <-(Z.mod_add (x - n) 1 n), Z.mul_1_l, Z.sub_add by lia.
  - apply Z.mod_small. lia.
Qed.

Section Ops.
Context (T g u pc gc : Z) (b : ring_buf) (Hr : repr T g u pc gc b).

#[local] Abbreviation N := (size b).

Lemma space_spec : ring_buf_space_get b = N - u - pc.
Proof.
  destruct Hr. unfold ring_buf_space_get. rewrite re_put_head0, re_get_tail0, s32_s32_sub, u32_sub_s32.
  rewrite u32_small; unfold RING_BUFFER_MAX_SIZE in *; lia.
Qed.

Lemma size_spec : ring_buf_size_get b = u - gc.
Proof.
  destruct Hr. unfold ring_buf_size_get. rewrite re_put_tail0, re_get_head0, s32_s32_sub, u32_s32.
  rewrite u32_small; unfold RING_BUFFER_MAX_SIZE in *; lia.
Qed.

Lemma put_claim_spec sz :
  0 <= sz ->
  let n := Z.min (Z.min sz (N - u - pc)) (N - (g + u + pc) mod N) in
  exists b', ring_buf_put_claim b sz = (n, buffer b + (g + u + pc) mod N, b')
    /\ repr T g u (pc + n) gc b' /\ buffer b' = buffer b /\ size b' = N.
Proof.
  intros Hsz n. pose proof space_spec as Hsp. destruct Hr. unfold RING_BUFFER_MAX_SIZE in *.
  set (d := if g + u >=? N then N else 0) in *.
  assert (Hd : 0 <= g + u - d < N) by (unfold d; destruct (g + u >=? N) eqn:E; lia).
  assert (Hd' : d = 0 \/ d = N) by (unfold d; destruct (g + u >=? N); lia).
  assert (Hm : (g + u + pc) mod N = if g + u + pc - d >=? N then g + u + pc - d - N else g + u + pc - d).
  { rewrite offset_mod by lia. destruct (g + u + pc >=? N) eqn:E1, (g + u + pc - d >=? N) eqn:E2; lia. }
  assert (Hw : u32 (put_head b - put_base b) = g + u + pc - d).
  { rewrite re_put_head0, re_put_base0, u32_s32_sub, u32_small; lia. }
  unfold ring_buf_put_claim. rewrite Hw, Hsp.
  destruct (g + u + pc - d >=? N) eqn:E; cbv zeta.
  - rewrite (u32_small (g + u + pc - d - N)) by lia. rewrite <-Hm, (u32_small (N - _)) by lia. fold n.
    rewrite re_put_head0, re_put_base0, s32_s32_add, s32_s32_sub, s32_small by lia.
    replace (T + u + pc - (T - g + d + N)) with ((g + u + pc) mod N) by lia.
    eexists. split; [reflexivity|]. split; [|done].
    split; try done; simpl; try lia. rewrite re_put_head0, s32_s32_add. f_equal. lia.
  - rewrite <-Hm, (u32_small (N - _)) by lia. fold n.
    rewrite re_put_head0, re_put_base0, s32_s32_sub, s32_small by lia.
    replace (T + u + pc - (T - g + d)) with ((g + u + pc) mod N) by lia.
    eexists. split; [reflexivity|]. split; [|done].
    split; try done; simpl; try lia. rewrite re_put_head0, s32_s32_add. f_equal. lia.
Qed.

Lemma put_finish_spec sz :
  0 <= sz ->
  if sz >? pc then ring_buf_put_finish b sz = (- EINVAL, b)
  else exists b', ring_buf_put_finish b sz = (0, b') /\ repr T g (u + sz) 0 gc b'
         /\ buffer b' = buffer b /\ size b' = N.
Proof.
  intros Hsz. destruct Hr. unfold RING_BUFFER_MAX_SIZE in *. unfold ring_buf_put_finish.
  replace (u32 (put_head b - put_tail b)) with pc
    by (rewrite re_put_head0, re_put_tail0, u32_s32_sub, u32_small; lia).
  destruct (sz >? pc) eqn:E; [done|]. cbn [put_tail put_base size upd set_put_tail set_put_head].
  set (d := if g + u >=? N then N else 0) in *.
  assert (Hd : 0 <= g + u - d < N /\ (d = 0 /\ g + u < N \/ d = N /\ N <= g + u))
    by (unfold d; destruct (g + u >=? N) eqn:E'; lia).
  rewrite re_put_tail0, re_put_base0, s32_s32_add, u32_s32_sub, u32_small by lia.
  replace (T + u + sz - (T - g + d)) with (g + u + sz - d) by lia.
  destruct (g + u + sz - d >=? N) eqn:Ew; eexists; (split; [reflexivity|]); (split; [|done]);
    split; try done; cbn [put_tail put_base put_head get_tail get_base get_head size upd set_put_tail set_put_head set_put_base];
    try lia; rewrite ?re_put_base0, ?re_put_tail0, ?s32_s32_add; f_equal; try lia.
  - destruct (g + (u + sz) >=? N) eqn:E3; lia.
  - destruct (g + (u + sz) >=? N) eqn:E3; lia.
Qed.

Lemma get_claim_spec sz :
  0 <= sz ->
  let n := Z.min (Z.min sz (u - gc)) (N - (g + gc) mod N) in
  exists b', ring_buf_get_claim b sz = (n, buffer b + (g + gc) mod N, b')
    /\ repr T g u pc (gc + n) b' /\ buffer b' = buffer b /\ size b' = N.
Proof.
  intros Hsz n. pose proof size_spec as Hsp. destruct Hr. unfold RING_BUFFER_MAX_SIZE in *.
  assert (Hm : (g + gc) mod N = if g + gc >=? N then g + gc - N else g + gc) by (apply offset_mod; lia).
  unfold ring_buf_get_claim. rewrite Hsp.
  replace (u32 (get_head b - get_base b)) with (g + gc)
    by (rewrite re_get_head0, re_get_base0, u32_s32_sub, u32_small; lia).
  destruct (g + gc >=? N) eqn:E; cbv zeta.
  - rewrite (u32_small (g + gc - N)) by lia. rewrite <-Hm, (u32_small (N - _)) by lia. fold n.
    rewrite re_get_head0, re_get_base0, s32_s32_add, s32_s32_sub, s32_small by lia.
    replace (T + gc - (T - g + N)) with ((g + gc) mod N) by lia.
    eexists. split; [reflexivity|]. split; [|done].
    split; try done; simpl; try lia. rewrite re_get_head0, s32_s32_add. f_equal. lia.
  - assert (Hn : n = Z.min (Z.min sz (u - gc)) (N - (g + gc))) by (unfold n; by rewrite Hm).
    rewrite (u32_small (N - (g + gc))), <-Hn, Hm by lia.
    rewrite re_get_head0, re_get_base0, s32_s32_sub, s32_small by lia.
    replace (T + gc - (T - g)) with (g + gc) by lia.
    eexists. split; [reflexivity|]. split; [|done].
    split; try done; simpl; try lia. rewrite re_get_head0, s32_s32_add. f_equal. lia.
Qed.

Lemma get_finish_spec sz :
  0 <= sz ->
  if sz >? gc then ring_buf_get_finish b sz = (- EINVAL, b)
  else exists b', ring_buf_get_finish b sz = (0, b')
         /\ repr (T + sz) ((g + sz) mod N) (u - sz) pc 0 b' /\ buffer b' = buffer b /\ size b' = N.
Proof.
  intros Hsz. destruct Hr. unfold RING_BUFFER_MAX_SIZE in *. unfold ring_buf_get_finish.
  replace (u32 (get_head b - get_tail b)) with gc
    by (rewrite re_get_head0, re_get_tail0, u32_s32_sub, u32_small; lia).
  destruct (sz >? gc) eqn:E; [done|]. cbn [get_tail get_base size upd set_get_tail set_get_head].
  assert (Hm : (g + sz) mod N = if g + sz >=? N then g + sz - N else g + sz) by (apply offset_mod; lia).
  rewrite re_get_tail0, re_get_base0, s32_s32_add, u32_s32_sub, u32_small by lia.
  replace (T + sz - (T - g)) with (g + sz) by lia.
  destruct (g + sz >=? N) eqn:Ew; eexists; (split; [reflexivity|]); (split; [|done]); rewrite Hm;
    split; try done; cbn [put_tail put_base put_head get_tail get_base get_head size upd set_get_tail set_get_head set_get_base];
    try lia; rewrite ?re_get_tail0, ?re_get_base0, ?re_put_base0, ?re_put_tail0, ?re_put_head0, ?s32_s32_add; f_equal; try lia.
  - destruct (g + u >=? N) eqn:E1, (g + sz - N + (u - sz) >=? N) eqn:E2; lia.
  - destruct (g + u >=? N) eqn:E1, (g + sz + (u - sz) >=? N) eqn:E2; lia.
Qed.
End Ops.

(** ** The bytes of the buffer *)

(** The [n] bytes from offset [g] of the buffer of size [N] at [B]. *)
Definition cells (m : mem) (B N g n : Z) : list Z := (fun i => m (B + (g + i) mod N)) <$> seqZ 0 n.

Lemma cells_app m B N g a b : 0 <= a -> 0 <= b -> cells m B N g (a + b) = cells m B N g a ++ cells m B N (g + a) b.
Proof.
  intros Ha Hb. unfold cells. rewrite seqZ_app, fmap_app by done. f_equal.
  rewrite Z.add_0_l, <-(Z.add_0_r a), <-fmap_add_seqZ, <-list_fmap_compose, Z.add_0_r.
  apply list_fmap_ext. intros i x _. simpl. do 2 f_equal. f_equal. lia.
Qed.

Lemma cells_ext m m' B N g n :
  (forall i, 0 <= i < n -> m' (B + (g + i) mod N) = m (B + (g + i) mod N)) -> cells m' B N g n = cells m B N g n.
Proof.
  intros H. apply list_fmap_ext. intros i x Hx. apply lookup_seqZ in Hx as [-> Hi]. apply H. lia.
Qed.

(** Cells that do not wrap around are a region of memory. *)
Lemma cells_bytes m B N g n :
  0 < N -> g mod N + n <= N -> cells m B N g n = bytes m (B + g mod N) n.
Proof.
  intros HN Hn. unfold cells, bytes. apply list_fmap_ext. intros i x Hx. apply lookup_seqZ in Hx as [-> Hi].
  f_equal. rewrite <-Z.add_mod_idemp_l, (Z.mod_small (g mod N + _)) by (pose proof (Z.mod_pos_bound g N); lia). lia.
Qed.

Lemma cells_region m m' B N g n :
  0 < N -> (forall a, B <= a < B + N -> m' a = m a) -> cells m' B N g n = cells m B N g n.
Proof. intros HN H. apply cells_ext. intros i Hi. apply H. pose proof (Z.mod_pos_bound (g + i) N). lia. Qed.

(** Writing [n] bytes behind the first [o] ones. *)
Lemma cells_write m B N g o n data :
  0 < N -> 0 <= o -> 0 <= n -> o + n <= N -> (g + o) mod N + n <= N ->
  cells (memcpy (B + (g + o) mod N) data n m) B N g (o + n) = cells m B N g o ++ bytes m data n.
Proof.
  intros HN Ho Hn Hon Hidx. rewrite cells_app by done. f_equal.
  - apply cells_ext. intros i Hi. apply memcpy_other.
    pose proof (Z.div_mod (g + i) N ltac:(lia)). pose proof (Z.div_mod (g + o) N ltac:(lia)).
    set (q := (g + o) / N - (g + i) / N).
    assert (Hq : N * q = o - i - (g + o) mod N + (g + i) mod N) by (unfold q; lia).
    destruct (decide (q <= 0)); [assert (N * q <= 0) by nia|assert (N <= N * q) by nia]; lia.
  - rewrite cells_bytes by done. apply bytes_memcpy.
Qed.

Lemma bytes_app m a n k : 0 <= n -> 0 <= k -> bytes m a (n + k) = bytes m a n ++ bytes m (a + n) k.
Proof.
  intros Hn Hk. unfold bytes. rewrite seqZ_app, fmap_app by done. f_equal.
  rewrite Z.add_0_l, <-(Z.add_0_r n), <-fmap_add_seqZ, <-list_fmap_compose, Z.add_0_r.
  apply list_fmap_ext. intros i x _. simpl. f_equal. lia.
Qed.

(** ** The copy loops *)

(** The rounds needed to move [k] bytes from offset [idx], less one. *)
Definition turns (k idx N : Z) : Z := (if k =? 0 then 0 else 1) + (if N - idx <? k then 1 else 0).

Lemma turns_bound k idx N : turns k idx N < 3.
Proof. unfold turns. destruct (k =? 0), (_ <? _); lia. Qed.

(** One round moves as much as fits before the end of the buffer. *)
Lemma turns_next sz avail o N :
  0 < N -> 0 <= sz -> 0 <= avail <= N ->
  let k := Z.min sz avail in
  let n := Z.min k (N - o mod N) in
  0 <= n <= k /\ (n = 0 \/ n = sz -> n = k)
  /\ (n <> 0 -> n <> sz ->
      turns (Z.min (sz - n) (avail - n)) ((o + n) mod N) N < turns k (o mod N) N).
Proof.
  intros HN Hsz Hav k n. pose proof (Z.mod_pos_bound o N HN). unfold turns. split; [lia|split; [lia|]].
  intros H1 H2. replace (k =? 0) with false by lia. destruct (N - o mod N <? k) eqn:E.
  - assert (Hm : (o + n) mod N = 0).
    { replace n with (N - o mod N) by lia. rewrite (Z.div_mod o N) at 1 by lia.
      replace (N * (o / N) + o mod N + (N - o mod N)) with ((o / N + 1) * N) by lia. apply Z.mod_mul. lia. }
    rewrite Hm. replace (N - 0 <? _) with false by lia. destruct (_ =? 0); lia.
  - replace (Z.min (sz - n) (avail - n)) with 0 by lia. simpl.
    pose proof (Z.mod_pos_bound (o + n) N HN). replace (N - (o + n) mod N <? 0) with false by lia. lia.
Qed.

Lemma put_loop_spec fuel T g u gc pc b m data sz :
  repr T g u pc gc b -> 0 <= sz < 2 ^ 32 -> disjoint_regions data sz (buffer b) (size b) ->
  let N := size b in
  let n := Z.min sz (N - u - pc) in
  turns n ((g + u + pc) mod N) N < Z.of_nat fuel ->
  exists b' m', put_loop fuel b m data sz pc = (b', m', pc + n)
    /\ repr T g u (pc + n) gc b' /\ buffer b' = buffer b /\ size b' = N
    /\ cells m' (buffer b) N g (u + pc + n) = cells m (buffer b) N g (u + pc) ++ bytes m data n
    /\ (forall a, ~ buffer b <= a < buffer b + N -> m' a = m a).
Proof.
  revert pc b m data sz. induction fuel as [|fuel IH]; intros pc b m data sz Hr Hsz Hd N n Hf.
  { unfold turns in Hf. destruct (n =? 0), (_ <? n); lia. }
  pose proof Hr as [Hs Hg Hgc Hpc Hfit _ _ _ _ _ _]. unfold RING_BUFFER_MAX_SIZE in Hs. fold N in Hs, Hg, Hfit, Hd.
  destruct (put_claim_spec _ _ _ _ _ _ Hr sz ltac:(lia)) as (b1 & E1 & Hr1 & Hb1 & Hs1).
  fold N in E1, Hr1, Hs1. fold n in E1, Hr1. set (n1 := Z.min n (N - (g + u + pc) mod N)) in *.
  destruct (turns_next sz (N - u - pc) (g + u + pc) N ltac:(lia) ltac:(lia) ltac:(lia)) as (Hn1 & Hstop & Hnext).
  fold n n1 in Hn1, Hstop, Hnext. pose proof (Z.mod_pos_bound (g + u + pc) N ltac:(lia)) as Hidx.
  cbn [put_loop]. rewrite E1. rewrite (u32_small (pc + n1)), (u32_small (sz - n1)) by lia.
  set (m1 := memcpy (buffer b + (g + u + pc) mod N) data n1 m).
  assert (Hc1 : cells m1 (buffer b) N g (u + pc + n1) = cells m (buffer b) N g (u + pc) ++ bytes m data n1).
  { unfold m1. replace (g + u + pc) with (g + (u + pc)) by lia. apply cells_write; try lia.
    replace (g + (u + pc)) with (g + u + pc) by lia. lia. }
  assert (Ho1 : forall a, ~ buffer b <= a < buffer b + N -> m1 a = m a).
  { intros a Ha. apply memcpy_other. lia. }
  destruct (negb (sz - n1 =? 0) && negb (n1 =? 0)) eqn:Ec.
  - apply andb_true_iff in Ec as [Ec1 Ec2]. apply negb_true_iff, Z.eqb_neq in Ec1, Ec2.
    specialize (Hnext ltac:(lia) ltac:(lia)).
    destruct (IH (pc + n1) b1 m1 (data + n1) (sz - n1) Hr1) as (b' & m' & E & Hr' & Hb' & Hs' & Hc & Ho).
    { lia. }
    { rewrite Hb1, Hs1. unfold disjoint_regions in *. lia. }
    { rewrite Hs1. replace (N - u - (pc + n1)) with (N - u - pc - n1) by lia.
      replace (g + u + (pc + n1)) with (g + u + pc + n1) by lia. lia. }
    rewrite Hs1, Hb1 in *. assert (En : n1 + Z.min (sz - n1) (N - u - (pc + n1)) = n) by lia.
    set (n2 := Z.min (sz - n1) (N - u - (pc + n1))) in *.
    exists b', m'. rewrite E. split; [f_equal; lia|]. replace (pc + n) with (pc + n1 + n2) by lia.
    split_and!; try done.
    + replace (u + pc + n) with (u + (pc + n1) + n2) by lia. rewrite Hc.
      replace (u + (pc + n1)) with (u + pc + n1) by lia. rewrite Hc1, <-app_assoc. f_equal.
      rewrite <-En, bytes_app by lia. f_equal. apply bytes_ext. intros x Hx. apply Ho1.
      unfold disjoint_regions in Hd. lia.
    + intros a Ha. rewrite Ho, Ho1; done.
  - assert (En : n1 = n).
    { apply Hstop. apply andb_false_iff in Ec as [Ec|Ec]; apply negb_false_iff, Z.eqb_eq in Ec; lia. }
    rewrite En in *. exists b1, m1. by split_and!.
Qed.

(** The destination of a read: outside the buffer, or NULL. *)
Definition dest_ok (data : option Z) (sz B N : Z) : Prop :=
  match data with Some d => disjoint_regions d sz B N | None => True end.

(** What a read of the bytes [l] stores at its destination. *)
Definition stored (data : option Z) (l : list Z) (m m' : mem) : Prop :=
  match data with
  | Some d => bytes m' d (Z.of_nat (length l)) = l
              /\ forall a, ~ d <= a < d + Z.of_nat (length l) -> m' a = m a
  | None => m' = m
  end.

Lemma cells_length m B N g n : length (cells m B N g n) = Z.to_nat n.
Proof. unfold cells. by rewrite length_fmap, length_seqZ. Qed.

(** One copy of a read, and a further one behind it. *)
Lemma stored_copy data m B N o n :
  0 < N -> 0 <= n -> o mod N + n <= N ->
  stored data (cells m B N o n) m
    (match data with Some d => memcpy d (B + o mod N) n m | None => m end).
Proof.
  intros HN Hn Ho. destruct data as [d|]; simpl; [|done]. rewrite cells_length, Z2Nat.id by done. split.
  - rewrite bytes_memcpy. by rewrite cells_bytes.
  - intros a Ha. by apply memcpy_other.
Qed.

Lemma stored_app data l1 l2 m m1 m2 :
  stored data l1 m m1 ->
  stored (match data with Some d => Some (d + Z.of_nat (length l1)) | None => None end) l2 m1 m2 ->
  stored data (l1 ++ l2) m m2.
Proof.
  destruct data as [d|]; simpl; [|by intros -> ->]. rewrite length_app, Nat2Z.inj_add.
  intros [H1 O1] [H2 O2]. split.
  - rewrite bytes_app, H2 by lia. f_equal. rewrite <-H1 at 2. apply bytes_ext. intros x Hx. apply O2. lia.
  - intros a Ha. rewrite O2, O1; lia || done.
Qed.

Lemma stored_region data l m m' sz B N :
  stored data l m m' -> dest_ok data sz B N -> Z.of_nat (length l) <= sz ->
  forall a, B <= a < B + N -> m' a = m a.
Proof.
  destruct data as [d|]; simpl; [|by intros ->]. intros [_ Ho] Hd Hl a Ha. apply Ho.
  unfold disjoint_regions in Hd. lia.
Qed.

Lemma get_loop_spec fuel T g u gc pc b m data sz tot :
  repr T g u pc gc b -> 0 <= sz < 2 ^ 32 -> 0 <= tot -> tot + sz < 2 ^ 32 ->
  dest_ok data sz (buffer b) (size b) ->
  let N := size b in
  let n := Z.min sz (u - gc) in
  turns n ((g + gc) mod N) N < Z.of_nat fuel ->
  exists b' m', get_loop fuel b m data sz tot = (b', m', tot + n)
    /\ repr T g u pc (gc + n) b' /\ buffer b' = buffer b /\ size b' = N
    /\ stored data (cells m (buffer b) N (g + gc) n) m m'.
Proof.
  revert gc b m data sz tot. induction fuel as [|fuel IH]; intros gc b m data sz tot Hr Hsz Ht Hts Hd N n Hf.
  { unfold turns in Hf. destruct (n =? 0), (_ <? n); lia. }
  pose proof Hr as [Hs Hg Hgc Hpc Hfit _ _ _ _ _ _]. unfold RING_BUFFER_MAX_SIZE in Hs. fold N in Hs, Hg, Hfit, Hd.
  destruct (get_claim_spec _ _ _ _ _ _ Hr sz ltac:(lia)) as (b1 & E1 & Hr1 & Hb1 & Hs1).
  fold N in E1, Hr1, Hs1. fold n in E1, Hr1. set (n1 := Z.min n (N - (g + gc) mod N)) in *.
  destruct (turns_next sz (u - gc) (g + gc) N ltac:(lia) ltac:(lia) ltac:(lia)) as (Hn1 & Hstop & Hnext).
  fold n n1 in Hn1, Hstop, Hnext. pose proof (Z.mod_pos_bound (g + gc) N ltac:(lia)) as Hidx.
  cbn [get_loop]. rewrite E1. rewrite (u32_small (tot + n1)), (u32_small (sz - n1)) by lia.
  pose proof (stored_copy data m (buffer b) N (g + gc) n1 ltac:(lia) ltac:(lia) ltac:(lia)) as Hst.
  set (m1 := match data with Some d => memcpy d _ n1 m | None => m end) in *.
  destruct (negb (sz - n1 =? 0) && negb (n1 =? 0)) eqn:Ec.
  - apply andb_true_iff in Ec as [Ec1 Ec2]. apply negb_true_iff, Z.eqb_neq in Ec1, Ec2.
    specialize (Hnext ltac:(lia) ltac:(lia)).
    assert (Hreg : forall a, buffer b <= a < buffer b + N -> m1 a = m a).
    { eapply stored_region; [done..|]. rewrite cells_length. lia. }
    destruct (IH (gc + n1) b1 m1 (match data with Some d => Some (d + n1) | None => None end) (sz - n1) (tot + n1) Hr1)
      as (b' & m' & E & Hr' & Hb' & Hs' & Hc); [lia|lia|lia| | |].
    { rewrite Hb1, Hs1. destruct data; simpl in *; [unfold disjoint_regions in *; lia|done]. }
    { rewrite Hs1. replace (u - (gc + n1)) with (u - gc - n1) by lia.
      replace (g + (gc + n1)) with (g + gc + n1) by lia. lia. }
    rewrite Hs1, Hb1 in *. assert (En : n1 + Z.min (sz - n1) (u - (gc + n1)) = n) by lia.
    set (n2 := Z.min (sz - n1) (u - (gc + n1))) in *.
    exists b', m'. rewrite E. split; [f_equal; lia|]. replace (gc + n) with (gc + n1 + n2) by lia.
    split_and!; try done. rewrite <-En, cells_app by lia. eapply stored_app; [exact Hst|].
    rewrite cells_length, Z2Nat.id by lia. replace (g + gc + n1) with (g + (gc + n1)) by lia.
    rewrite <-(cells_region m m1); [done|lia|done].
  - assert (En : n1 = n).
    { apply Hstop. apply andb_false_iff in Ec as [Ec|Ec]; apply negb_false_iff, Z.eqb_eq in Ec; lia. }
    rewrite En in *. exists b1, m1. by split_and!.
Qed.

(** ** Abstraction *)

(** The counters of a buffer without claims, and the bytes it holds. *)
Definition wf (b : ring_buf) : Prop := exists T g u, repr T g u 0 0 b.

Definition contents (b : ring_buf) (m : mem) : list Z :=
  cells m (buffer b) (size b) (u32 (get_tail b - get_base b)) (u32 (put_tail b - get_tail b)).

Lemma contents_repr T g u pc gc b m :
  repr T g u pc gc b -> contents b m = cells m (buffer b) (size b) g u.
Proof.
  intros [Hs Hg Hgc Hpc Hfit Et Eb _ Ep _ _]. unfold RING_BUFFER_MAX_SIZE in Hs. unfold contents.
  rewrite Et, Eb, Ep, !u32_s32_sub. replace (T - (T - g)) with g by lia. replace (T + u - T) with u by lia.
  by rewrite !u32_small by lia.
Qed.

Lemma contents_length T g u pc gc b m : repr T g u pc gc b -> Z.of_nat (length (contents b m)) = u.
Proof. intros H. rewrite (contents_repr _ _ _ _ _ _ _ H), cells_length. destruct H. lia. Qed.

Lemma init_wf sz data b m :
  0 < sz < RING_BUFFER_MAX_SIZE -> wf (ring_buf_init sz data b) /\ contents (ring_buf_init sz data b) m = [].
Proof.
  intros Hs. assert (Hr : repr 0 0 0 0 0 (ring_buf_init sz data b)).
  { split; try (cbn; lia); try reflexivity.  change (0 = s32 (0 + (if 0 >=? sz then sz else 0))).
    by replace (0 >=? sz) with false by lia. }
  split; [by exists 0, 0, 0|]. by rewrite (contents_repr _ _ _ _ _ _ _ Hr).
Qed.

Lemma cells_take m B N g u n : 0 <= n <= u -> take (Z.to_nat n) (cells m B N g u) = cells m B N g n.
Proof.
  intros Hn. replace u with (n + (u - n)) by lia. rewrite cells_app by lia.
  rewrite <-(cells_length m B N g n) at 1. apply take_app_length.
Qed.

Lemma cells_drop m B N g u n : 0 <= n <= u -> drop (Z.to_nat n) (cells m B N g u) = cells m B N (g + n) (u - n).
Proof.
  intros Hn. replace u with (n + (u - n)) at 1 by lia. rewrite cells_app by lia.
  rewrite <-(cells_length m B N g n) at 1. apply drop_app_length.
Qed.

Lemma cells_mod m B N g n : 0 < N -> cells m B N (g mod N) n = cells m B N g n.
Proof.
  intros HN. apply list_fmap_ext. intros i x _. do 2 f_equal. by rewrite Z.add_mod_idemp_l by lia.
Qed.

(** ** Properties *)

(** C31: [ring_buf_put] appends as many of the [sz] bytes as fit to the bytes
    in the buffer and returns how many, whatever the values of the wrapping
    counters; nothing outside the buffer changes. *)
Theorem ring_buf_put_refines b m data sz :
  wf b -> 0 <= sz < 2 ^ 32 -> disjoint_regions data sz (buffer b) (size b) ->
  let n := Z.min sz (size b - Z.of_nat (length (contents b m))) in
  exists b' m', ring_buf_put b m data sz = (n, b', m')
    /\ wf b' /\ buffer b' = buffer b /\ size b' = size b
    /\ contents b' m' = contents b m ++ bytes m data n
    /\ (forall a, ~ buffer b <= a < buffer b + size b -> m' a = m a).
Proof.
  intros (T & g & u & Hr) Hsz Hd. rewrite (contents_length _ _ _ _ _ _ m Hr). intros n.
  destruct (put_loop_spec rounds T g u 0 0 b m data sz Hr Hsz Hd) as (b1 & m' & E & Hr1 & Hb1 & Hs1 & Hc & Ho).
  { apply turns_bound. }
  rewrite Z.sub_0_r, !Z.add_0_l, !Z.add_0_r in *. fold n in E, Hr1, Hc. unfold ring_buf_put. rewrite E.
  assert (Hn : 0 <= n) by (destruct Hr; lia).
  pose proof (put_finish_spec _ _ _ _ _ _ Hr1 n Hn) as Hf. replace (n >? n) with false in Hf by lia.
  destruct Hf as (b' & -> & Hr' & Hb' & Hs'). exists b', m'.
  rewrite (contents_repr _ _ _ _ _ _ _ Hr'), (contents_repr _ _ _ _ _ _ _ Hr), Hb', Hs', Hb1, Hs1.
  split_and!; try done. by exists T, g, (u + n).
Qed.

Definition demo_ring : ring_buf := mk_ring 1000 (-2147483647) (-2147483647) (-2147483647) 2147483646 2147483646 2147483645 4.

Lemma demo_ring_wf : wf demo_ring.
Proof.
  exists 2147483646, 1, 3. split; unfold RING_BUFFER_MAX_SIZE; try reflexivity; try (simpl; lia).
Qed.

Lemma ring_buf_put_refines_witness :
  exists b' m', ring_buf_put demo_ring (fun a => a) 2000 5 = (1, b', m')
    /\ contents b' m' = [1001; 1002; 1003; 2000].
Proof.
  destruct (ring_buf_put_refines demo_ring (fun a => a) 2000 5) as (b' & m' & E & _ & _ & _ & Hc & _).
  - exact demo_ring_wf.
  - lia.
  - right. simpl. lia.
  - exists b', m'. split; [exact E|exact Hc].
Defined.

(** [ring_buf_get] removes the first bytes, as many as asked for and in
    the buffer, stores them in order at the destination (unless it is NULL)
    and changes nothing else. *)
Theorem ring_buf_get_refines b m data sz :
  wf b -> 0 <= sz < 2 ^ 32 -> dest_ok data sz (buffer b) (size b) ->
  let n := Z.min sz (Z.of_nat (length (contents b m))) in
  exists b' m', ring_buf_get b m data sz = (n, b', m')
    /\ wf b' /\ buffer b' = buffer b /\ size b' = size b
    /\ stored data (take (Z.to_nat n) (contents b m)) m m'
    /\ contents b' m' = drop (Z.to_nat n) (contents b m).
Proof.
  intros (T & g & u & Hr) Hsz Hd. rewrite (contents_length _ _ _ _ _ _ m Hr). intros n.
  destruct (get_loop_spec rounds T g u 0 0 b m data sz 0 Hr Hsz) as (b1 & m' & E & Hr1 & Hb1 & Hs1 & Hst);
    [lia|lia|done|apply turns_bound|].
  rewrite Z.sub_0_r, !Z.add_0_l, !Z.add_0_r in *. fold n in E, Hr1, Hst. unfold ring_buf_get. rewrite E.
  pose proof Hr as [Hs Hg Hgc Hpc Hfit _ _ _ _ _ _]. assert (Hn : 0 <= n <= u) by lia.
  pose proof (get_finish_spec _ _ _ _ _ _ Hr1 n ltac:(lia)) as Hf. replace (n >? n) with false in Hf by lia.
  destruct Hf as (b' & -> & Hr' & Hb' & Hs'). exists b', m'.
  rewrite (contents_repr _ _ _ _ _ _ _ Hr'), (contents_repr _ _ _ _ _ _ _ Hr), Hb', Hs', Hb1, Hs1.
  rewrite cells_take, cells_drop by lia. split_and!; try done; [by exists (T + n), ((g + n) mod size b1), (u - n)|].
  rewrite cells_mod by lia. apply cells_region; [lia|].
  eapply stored_region; [done..|]. rewrite cells_length. lia.
Qed.

Lemma ring_buf_get_refines_witness :
  exists b' m', ring_buf_get demo_ring (fun a => a) (Some 2000) 2 = (2, b', m')
    /\ contents b' m' = [1003].
Proof.
  destruct (ring_buf_get_refines demo_ring (fun a => a) (Some 2000) 2) as (b' & m' & E & _ & _ & _ & _ & Hc).
  - exact demo_ring_wf.
  - lia.
  - right. simpl. lia.
  - exists b', m'. split; [exact E|exact Hc].
Defined.

End RingBuf.
