(* ===== verification/HeapIface.v ===== *)
(** What the heap of lib/os/heap.c promises to the code built on it.

    [allocator] lists the operations, [allocator_laws] what their callers may
    rely on: a heap is known by the blocks its clients own, and every
    operation changes that set and nothing the owners of the other blocks, or
    of other heaps, can see.  The chunk heap keeps the laws; kernel/kheap.c
    and kernel/mempool.c are verified against them in [KHeap]. *)
From stdpp Require Import gmap sets.
From S2P Require Import Prelude Mem Heap HeapInv HeapThm HeapApi HeapSpec.

Module HeapIface.
Import Heap HeapInv HeapThm HeapApi HeapSpec.

(** A heap is named by the address of its [struct z_heap]. *)
Class allocator := {
  heap_init : Z -> Z -> mem -> Z * mem;                   (* memory, bytes *)
  heap_aligned_alloc : Z -> Z -> Z -> mem -> Z * mem;     (* heap, align, bytes *)
  heap_free : Z -> Z -> mem -> mem                        (* heap, block *)
}.

(** The blocks that clients own: address and size. *)
Abbreviation blocks := (gmap Z Z).

Definition in_block (bs : blocks) (x : Z) : Prop := exists p n, bs !! p = Some n /\ p <= x < p + n.

Class allocator_laws (A : allocator) := {
  heaps : gset Z;
  region : Z -> Z -> Prop;
  owned : Z -> blocks -> mem -> Prop;
  (** A request for a boundary and a number of bytes that the heap can answer. *)
  request_ok : Z -> Z -> Z -> Prop;
  (** A buffer in which the heap can be made. *)
  init_ok : Z -> Z -> Z -> Prop;
  law_apart hp hp' x : hp ∈ heaps -> hp' ∈ heaps -> region hp x -> region hp' x -> hp = hp';
  law_inside hp bs m p n : hp ∈ heaps -> owned hp bs m -> bs !! p = Some n ->
    0 < p /\ 0 < n /\ forall x, p <= x < p + n -> region hp x;
  law_disjoint hp bs m p n q k : hp ∈ heaps -> owned hp bs m -> bs !! p = Some n -> bs !! q = Some k ->
    p <> q -> disjoint_regions p n q k;
  law_frame hp bs m m' : hp ∈ heaps -> owned hp bs m ->
    agree (fun x => region hp x /\ ~ in_block bs x) m m' -> owned hp bs m';
  law_init hp p n m : hp ∈ heaps -> init_ok hp p n ->
    let '(hp', m') := heap_init p n m in
    hp' = hp /\ owned hp ∅ m' /\ agree (fun x => ~ region hp x) m m';
  law_alloc hp bs m align B rew n : hp ∈ heaps -> owned hp bs m -> alignment align B rew -> request_ok hp B n ->
    let '(p, m') := heap_aligned_alloc hp align n m in
    agree (fun x => ~ region hp x \/ in_block bs x) m m' /\
    ((p = NULL /\ owned hp bs m') \/
     (p <> NULL /\ bs !! p = None /\ owned hp (<[p := n]> bs) m' /\ (p + rew) mod B = 0));
  law_free hp bs m p n : hp ∈ heaps -> owned hp bs m -> bs !! p = Some n ->
    owned hp (delete p bs) (heap_free hp p m) /\
    agree (fun x => ~ region hp x \/ in_block (delete p bs) x) m (heap_free hp p m)
}.

#[export] Instance sys_heap `{heap_config} : allocator := {|
  heap_init := Heap.sys_heap_init;
  heap_aligned_alloc := Heap.sys_heap_aligned_alloc;
  heap_free := Heap.sys_heap_free
|}.

(** ** One chunk heap *)

Section Chunks.
Context {cfg : heap_config} {g : geometry} {Hg : geometry_ok}.

#[local] Abbreviation h := base.
#[local] Abbreviation E := units.

Definition footprint (x : Z) : Prop := h <= x < h + 8 * E + hdr.

(** Every block is the data of a used chunk, and every used chunk but the
    heap's own is a block. *)
Record backed (bs : blocks) (cs : list chunk) : Prop := {
  ba_chunk p n : bs !! p = Some n ->
    0 < n /\ exists c sz, (c, sz, true) ∈ cs /\ c <> 0 /\ points_to p c /\ p + n <= h + 8 * (c + sz);
  ba_inj p q c : is_Some (bs !! p) -> is_Some (bs !! q) -> points_to p c -> points_to q c -> p = q;
  ba_used c sz : (c, sz, true) ∈ cs -> c <> 0 -> exists p, is_Some (bs !! p) /\ points_to p c
}.

Definition chunks_owned (bs : blocks) (m : mem) : Prop := exists cs, heap_inv cs m /\ backed bs cs.

Lemma points_to_chunk p c d : points_to p c -> points_to p d -> c = d.
Proof. unfold points_to, data. lia. Qed.

Lemma block_safe bs cs x : backed bs cs -> in_block bs x -> safe cs x.
Proof.
  intros HB (p & n & Hp & Hx). destruct (ba_chunk _ _ HB p n Hp) as (_ & c & sz & Hin & Hc & Hpt & He).
  right; right. exists c, sz. unfold points_to, data in Hpt. split_and!; [done|done|lia|lia].
Qed.

Lemma outside_safe cs x : ~ footprint x -> safe cs x.
Proof. unfold footprint, safe. intros H. destruct (decide (x < h)); [by left|]. right; left. lia. Qed.

Lemma owned_inside bs m p n :
  chunks_owned bs m -> bs !! p = Some n -> 0 < p /\ 0 < n /\ forall x, p <= x < p + n -> footprint x.
Proof.
  intros (cs & [_ [fl [LA _ _]]] & HB) Hp. destruct (ba_chunk _ _ HB p n Hp) as (Hn & c & sz & Hin & Hc & Hpt & He).
  pose proof (lay_pos _ _ _ _ _ LA Hin) as Hpos. pose proof geom_facts as F. pose proof go_base.
  unfold points_to, data, footprint in *. split_and!; [lia|done|]. intros x Hx. lia.
Qed.

Lemma owned_disjoint bs m p n q k :
  chunks_owned bs m -> bs !! p = Some n -> bs !! q = Some k -> p <> q -> disjoint_regions p n q k.
Proof.
  intros (cs & [_ [fl [LA _ _]]] & HB) Hp Hq Hne.
  destruct (ba_chunk _ _ HB p n Hp) as (_ & c & sz & Hin & Hc & Hpt & He).
  destruct (ba_chunk _ _ HB q k Hq) as (_ & d & sz' & Hin' & Hd & Hpt' & He').
  destruct (tiles_disj _ _ _ _ _ _ _ _ _ (lay_tiles _ _ LA) Hin Hin') as [(-> & _)|Hdis].
  - destruct Hne. by eapply (ba_inj _ _ HB).
  - pose proof geom_facts. unfold disjoint_regions, points_to, data in *. lia.
Qed.

Lemma owned_frame bs m m' :
  chunks_owned bs m -> agree (fun x => footprint x /\ ~ in_block bs x) m m' -> chunks_owned bs m'.
Proof.
  intros (cs & HI & HB) Ha. exists cs. split; [|done]. apply (heap_inv_frame _ _ _ HI). intros x Hs.
  apply Ha. split.
  - destruct (decide (h <= x < h + 8 * E + hdr)) as [?|?]; [done|]. destruct Hs. by apply outside_safe.
  - intros Hb. destruct Hs. by eapply block_safe.
Qed.

Lemma aligned_case_used cs n cs' c p m :
  lay m cs -> aligned_case cs n cs' c p ->
  exists a, c <> 0 /\ points_to p c /\ p + n <= h + 8 * (c + a) /\
    (forall d s, (d, s, true) ∈ cs' <-> (d, s, true) ∈ cs \/ (d = c /\ s = a)) /\
    (forall s, (c, s, true) ∉ cs).
Proof.
  intros LA [l1 c0 sz l2 c1 a q -> Hc Ha Hmin Hp Hend]. pose proof geom_facts as F. exists a.
  assert ((c0, sz, false) ∈ l1 ++ (c0, sz, false) :: l2) as Hin by (apply elem_mid; auto).
  pose proof (lay_pos _ _ _ _ _ LA Hin) as Hpos.
  assert (chunk0 <= c0) as Hc0 by (destruct Hpos as (_ & _ & [(_ & _ & ?)|?]); done).
  split_and!; [lia|done|done| |].
  - intros d s. rewrite elem_mid, !elem_of_app. unfold carved, prefix. rewrite elem_of_cons.
    assert ((d, s, true) ∉ (if c1 >? c0 then [(c0, c1 - c0, false)] else [])) as N1
      by (destruct (c1 >? c0); [by intros [= ]%list_elem_of_singleton|apply not_elem_of_nil]).
    assert ((d, s, true) ∉ (if c0 + sz - c1 >? a then [(c1 + a, c0 + sz - c1 - a, false)] else [])) as N2
      by (destruct (c0 + sz - c1 >? a); [by intros [= ]%list_elem_of_singleton|apply not_elem_of_nil]).
    naive_solver.
  - intros s [?|Hd]%elem_mid; [done|]. pose proof (rest_apart _ _ _ _ _ _ _ _ _ LA Hd).
    assert ((c1, s, true) ∈ l1 ++ (c0, sz, false) :: l2) as Hin1 by (apply elem_mid; auto).
    pose proof (lay_pos _ _ _ _ _ LA Hin1). lia.
Qed.

(** The requests [law_alloc] is about: the padded size has a bucket. *)
Definition chunk_request (B n : Z) : Prop :=
  fits_address B /\ 0 <= n /\ (n < 8 * E -> bidx (units_for B n) < buckets).

Lemma aligned_too_big align n m :
  geo m -> 0 <= n -> ~ 0 < n < 8 * E -> sys_heap_aligned_alloc h align n m = (NULL, m).
Proof.
  intros Hm Hn Hr.
  assert ((n =? 0) || size_too_big h n m = true) as Hb.
  { unfold size_too_big, CHUNK_UNIT. rewrite Hm. destruct (decide (n = 0)) as [->|Hn0]; [done|].
    apply orb_true_iff. right. apply Z.geb_le. apply Z.div_le_lower_bound; lia. }
  unfold sys_heap_aligned_alloc, aligned_alloc, sys_heap_alloc. rewrite Hb. by repeat case_match.
Qed.

Lemma owned_alloc bs m align B rew n :
  chunks_owned bs m -> alignment align B rew -> chunk_request B n ->
  let '(p, m') := sys_heap_aligned_alloc h align n m in
  agree (fun x => ~ footprint x \/ in_block bs x) m m' /\
  ((p = NULL /\ chunks_owned bs m') \/
   (p <> NULL /\ bs !! p = None /\ chunks_owned (<[p := n]> bs) m' /\ (p + rew) mod B = 0)).
Proof.
  intros (cs & HI & HB) Hal (Hf & Hn & Hb). pose proof HI as [_ [fl [LA _ _]]].
  destruct (decide (0 < n < 8 * E)) as [Hr|Hr].
  2: { rewrite aligned_too_big by first [apply LA|done]. split; [done|]. left. split; [done|]. by exists cs. }
  pose proof (aligned_spec cs m align B rew n HI Hal Hf Hr ltac:(apply Hb; lia)) as HA.
  destruct (sys_heap_aligned_alloc h align n m) as [p m']. destruct HA as [Hs HA].
  split. { intros x Hx. apply Hs. destruct Hx; [by apply outside_safe|by eapply block_safe]. }
  destruct HA as [(-> & HI' & _)|(cs' & c & Hcase & HI' & Hm)]; [left; split; [done|]; by exists cs|].
  destruct (aligned_case_used _ _ _ _ _ _ LA Hcase) as (a & Hc & Hp & He & Hu & Hnew). right.
  assert (forall q, is_Some (bs !! q) -> ~ points_to q c) as Hq.
  { intros q [k Hk] Hqc. destruct (ba_chunk _ _ HB q k Hk) as (_ & d & s & Hin & _ & Hqd & _).
    rewrite (points_to_chunk _ _ _ Hqd Hqc) in Hin. by apply Hnew in Hin. }
  assert (bs !! p = None) as Hnone.
  { destruct (bs !! p) eqn:Ep; [|done]. exfalso. eapply Hq; [by rewrite Ep|done]. }
  assert ((c, a, true) ∈ cs') as Hca by (apply Hu; auto).
  split_and!; [|done| |done].
  - unfold points_to, data, NULL in *. destruct HI' as [_ [fl' [LA' _ _]]].
    pose proof (lay_pos _ _ _ _ _ LA' Hca). pose proof geom_facts. pose proof go_base. lia.
  - exists cs'. split; [done|]. split.
    + intros q k [(<- & <-)|[Hne Hk]]%lookup_insert_Some; [split; [lia|]; by exists c, a|].
      destruct (ba_chunk _ _ HB q k Hk) as (? & d & s & Hin & ?). split; [done|]. exists d, s.
      split; [|done]. apply Hu. auto.
    + intros q r d Hq1 Hr1 Hqd Hrd.
      destruct (decide (q = p)) as [->|Hqp], (decide (r = p)) as [->|Hrp]; [done| | |].
      * rewrite lookup_insert_ne in Hr1 by done. rewrite (points_to_chunk _ _ _ Hqd Hp) in Hrd. by edestruct Hq.
      * rewrite lookup_insert_ne in Hq1 by done. rewrite (points_to_chunk _ _ _ Hrd Hp) in Hqd. by edestruct Hq.
      * rewrite lookup_insert_ne in Hq1, Hr1 by done. by eapply (ba_inj _ _ HB).
    + intros d s [Hin|[-> ->]]%Hu Hd.
      * destruct (ba_used _ _ HB d s Hin Hd) as (q & Hq1 & Hq2). exists q. split; [|done].
        rewrite lookup_insert_ne; [done|]. intros <-. rewrite Hnone in Hq1. by destruct Hq1.
      * exists p. rewrite lookup_insert_eq. split; [by eexists|done].
Qed.

Lemma owned_free bs m p n :
  chunks_owned bs m -> bs !! p = Some n ->
  chunks_owned (delete p bs) (sys_heap_free h p m) /\
  agree (fun x => ~ footprint x \/ in_block (delete p bs) x) m (sys_heap_free h p m).
Proof.
  intros (cs & HI & HB) Hp. pose proof HI as [_ [fl [LA _ _]]].
  destruct (ba_chunk _ _ HB p n Hp) as (_ & c & sz & Hin & Hc & Hpt & He).
  apply list_elem_of_split in Hin as (l1 & l2 & ->).
  destruct (free_spec _ _ _ _ _ _ HI Hc Hpt) as [HI' Hs].
  assert (forall d s, (d, s, true) ∈ l1 ++ l2 -> d <> c) as Hrest.
  { intros d s Hd ->. assert ((c, s, true) ∈ l1 ++ (c, sz, true) :: l2) as Hin by (apply elem_mid; auto).
    pose proof (rest_apart _ _ _ _ _ _ _ _ _ LA Hd). pose proof (lay_pos _ _ _ _ _ LA Hin).
    assert ((c, sz, true) ∈ l1 ++ (c, sz, true) :: l2) as Hin2 by (apply elem_mid; auto).
    pose proof (lay_pos _ _ _ _ _ LA Hin2). lia. }
  assert (forall q k, delete p bs !! q = Some k -> 0 < k /\ exists d s, (d, s, true) ∈ l1 ++ l2 /\ d <> 0 /\
    points_to q d /\ q + k <= h + 8 * (d + s)) as Hother.
  { intros q k [Hne Hk]%lookup_delete_Some.
    destruct (ba_chunk _ _ HB q k Hk) as (? & d & s & Hin & ? & Hqd & ?). split; [done|]. exists d, s.
    split; [|done]. apply elem_mid in Hin as [?|?]; [|done]. simplify_eq. destruct Hne.
    by eapply (ba_inj _ _ HB). }
  split.
  - exists (freed l1 c sz l2). split; [done|]. split.
    + intros q k Hk. destruct (Hother q k Hk) as (? & d & s & Hd & ?). split; [done|]. exists d, s.
      by rewrite freed_used.
    + intros q r d [? [_ Hq]%lookup_delete_Some] [? [_ Hr]%lookup_delete_Some]. by eapply (ba_inj _ _ HB).
    + intros d s Hd Hd0. rewrite freed_used in Hd.
      destruct (ba_used _ _ HB d s) as (q & Hq & Hqd); [apply elem_mid; auto|done|]. exists q. split; [|done].
      rewrite lookup_delete_ne; [done|]. intros <-. apply (Hrest d s Hd). by eapply points_to_chunk.
  - intros x Hx. apply Hs. destruct Hx as [Hx|(q & k & Hk & Hx)]; [by apply outside_safe|].
    destruct (Hother q k Hk) as (_ & d & s & Hd & Hd0 & Hqd & Hk'). right; right. exists d, s.
    unfold points_to, data in Hqd. split_and!; [done|done|lia|lia].
Qed.

(** A new heap has no blocks. *)
Lemma owned_init p n m :
  init_args p n ->
  let '(h', m') := sys_heap_init p n m in
  h' = h /\ chunks_owned ∅ m' /\ (forall x, ~ footprint x -> m' x = m x).
Proof.
  intros Ha. pose proof (init_spec p n m Ha) as HI. destruct (sys_heap_init p n m) as [h' m'].
  destruct HI as (-> & HI & Hx). split_and!; [done| |done]. exists initial. split; [done|].
  split; [done|by intros ? ? ? [? ?]|]. intros c sz Hin Hc. unfold initial in Hin.
  rewrite !elem_of_cons in Hin. destruct Hin as [?|[?|?%elem_of_nil]]; simplify_eq.
Qed.

End Chunks.

(** ** A family of chunk heaps *)

(** The sizes of the heaps at the addresses [fam_heaps]: their memory does
    not overlap. *)
Class heap_family {cfg : heap_config} := {
  fam_heaps : gset Z;
  fam_geom : Z -> geometry;
  fam_base hp : hp ∈ fam_heaps -> @base (fam_geom hp) = hp;
  fam_ok hp : hp ∈ fam_heaps -> @geometry_ok cfg (fam_geom hp);
  fam_apart hp hp' x : hp ∈ fam_heaps -> hp' ∈ fam_heaps ->
    @footprint cfg (fam_geom hp) x -> @footprint cfg (fam_geom hp') x -> hp = hp'
}.

Section Family.
Context {cfg : heap_config} {F : heap_family}.

Lemma fam_init hp p n m :
  hp ∈ fam_heaps -> @init_args cfg (fam_geom hp) p n ->
  let '(hp', m') := sys_heap_init p n m in
  hp' = hp /\ @chunks_owned cfg (fam_geom hp) ∅ m' /\ agree (fun x => ~ @footprint cfg (fam_geom hp) x) m m'.
Proof.
  intros Hh. pose proof (fam_ok hp Hh) as Hok. pose proof (fam_base hp Hh) as Hb.
  generalize dependent (fam_geom hp). intros g Hok Hb. rewrite <-Hb. apply owned_init.
Qed.

Lemma fam_alloc hp bs m align B rew n :
  hp ∈ fam_heaps -> @chunks_owned cfg (fam_geom hp) bs m -> alignment align B rew ->
  @chunk_request cfg (fam_geom hp) B n ->
  let '(p, m') := sys_heap_aligned_alloc hp align n m in
  agree (fun x => ~ @footprint cfg (fam_geom hp) x \/ in_block bs x) m m' /\
  ((p = NULL /\ @chunks_owned cfg (fam_geom hp) bs m') \/
   (p <> NULL /\ bs !! p = None /\ @chunks_owned cfg (fam_geom hp) (<[p := n]> bs) m' /\ (p + rew) mod B = 0)).
Proof.
  intros Hh. pose proof (fam_ok hp Hh) as Hok. pose proof (fam_base hp Hh) as Hb.
  generalize dependent (fam_geom hp). intros g Hok Hb. rewrite <-Hb. apply owned_alloc.
Qed.

Lemma fam_free hp bs m p n :
  hp ∈ fam_heaps -> @chunks_owned cfg (fam_geom hp) bs m -> bs !! p = Some n ->
  @chunks_owned cfg (fam_geom hp) (delete p bs) (sys_heap_free hp p m) /\
  agree (fun x => ~ @footprint cfg (fam_geom hp) x \/ in_block (delete p bs) x) m (sys_heap_free hp p m).
Proof.
  intros Hh. pose proof (fam_ok hp Hh) as Hok. pose proof (fam_base hp Hh) as Hb.
  generalize dependent (fam_geom hp). intros g Hok Hb. rewrite <-Hb. apply owned_free.
Qed.

#[export] Instance sys_heap_laws : allocator_laws sys_heap := {|
  heaps := fam_heaps;
  region hp := @footprint cfg (fam_geom hp);
  owned hp := @chunks_owned cfg (fam_geom hp);
  request_ok hp := @chunk_request cfg (fam_geom hp);
  init_ok hp := @init_args cfg (fam_geom hp);
  law_init := fam_init;
  law_apart := fam_apart;
  law_inside hp bs m p n Hh := @owned_inside cfg (fam_geom hp) (fam_ok hp Hh) bs m p n;
  law_disjoint hp bs m p n q k Hh := @owned_disjoint cfg (fam_geom hp) (fam_ok hp Hh) bs m p n q k;
  law_frame hp bs m m' Hh := @owned_frame cfg (fam_geom hp) (fam_ok hp Hh) bs m m';
  law_alloc := fam_alloc;
  law_free := fam_free
|}.

End Family.

End HeapIface.
