(* ===== verification/KHeap.v ===== *)
(** The blocking heap and the allocators of the kernel (kernel/kheap.c,
    kernel/mempool.c).

    [k_heap] adds a lock, a wait queue and a deadline to a heap; [k_malloc]
    and its relatives store a reference to the [k_heap] in front of each
    block so that [k_free] finds the heap a block came from.  Everything is
    proved against the interface of [HeapIface], so it holds for any heap that
    keeps those laws; the chunk heap does. *)
From stdpp Require Import gmap sets.
From S2P Require Import Prelude Mem Heap HeapInv HeapThm HeapApi HeapSpec HeapIface TimeUnits Timeout Kernel Sched SchedInv SchedApi Demo.

Module KHeap.
Import HeapInv HeapApi HeapIface.

#[local] Abbreviation NULL := Heap.NULL.
#[local] Abbreviation usize := Heap.usize.

(** [heap] is the address of the [struct z_heap]. *)
Record k_heap := mk_kheap { heap : Z; init_mem : Z; init_bytes : Z; wait_q : wqid }.

#[export] Instance set_heap : Settable heap := fun f h => mk_kheap (f (heap h)) (init_mem h) (init_bytes h) (wait_q h).

(** The [k_heap] objects by address, memory, and the [resource_pool] member
    of the threads. *)
Record pools := mk_pools { kheaps : Z -> k_heap; memory : mem; resource_pool : tid -> Z }.

#[export] Instance set_kheaps : Settable kheaps := fun f o => mk_pools (f (kheaps o)) (memory o) (resource_pool o).
#[export] Instance set_memory : Settable memory := fun f o => mk_pools (kheaps o) (f (memory o)) (resource_pool o).
#[export] Instance set_resource_pool : Settable resource_pool := fun f o =>
  mk_pools (kheaps o) (memory o) (f (resource_pool o)).

Abbreviation St := (kernel * pools)%type.

(** The address of [_system_heap], NULL if CONFIG_HEAP_MEM_POOL_SIZE is 0. *)
Class system_pool := _SYSTEM_HEAP : Z.

Section Code.
Context `{cfg : heap_config} `{A : allocator} `{SP : system_pool}.

#[local] Abbreviation PTR := (Z.to_nat sizeof_ptr).

(** An operation on memory. *)
Definition mcall {X} (f : mem -> X * mem) : M St X :=
  fun s => let '(x, m) := f (memory s.2) in Done x (s.1, s.2 <| memory := m |>).

(** *** kernel/kheap.c *)

Definition k_heap_init (h mem bytes : Z) : M St unit :=
  w <- oget (fun o => wait_q (kheaps o h)) ;;
  kmod (z_waitq_init w) ;;
  hp <- mcall (heap_init mem bytes) ;;
  omod (fun o => o <| kheaps ::= fun f => <[h := (f h) <| heap := hp |>]> f |>).

(** [l] are the heaps of the iterable section. *)
Fixpoint statics_init (l : list Z) : M St Z :=
  match l with
  | [] => ret 0
  | h :: l' =>
      x <- oget (fun o => kheaps o h) ;;
      k_heap_init h (init_mem x) (init_bytes x) ;;
      statics_init l'
  end.

(** The loop of [k_heap_aligned_alloc]; each pass waits at most once, [None]
    means that the thread still has no block after that many passes. *)
Fixpoint heap_alloc_loop (passes : nat) (h align bytes end_ : Z) (key : bool) : M St (option Z) :=
  match passes with
  | O => ret None
  | S passes' =>
      hp <- oget (fun o => heap (kheaps o h)) ;;
      r <- mcall (heap_aligned_alloc hp align bytes) ;;
      now <- kget (fun k => sys_clock_tick_get (tmo k)) ;;
      if negb (r =? NULL) || (s64 (end_ - now) <=? 0) then
        k_spin_unlock key ;;
        ret (Some r)
      else
        w <- oget (fun o => wait_q (kheaps o h)) ;;
        _ <- z_pend_curr key w (s64 (end_ - now)) ;;
        key' <- k_spin_lock ;;
        heap_alloc_loop passes' h align bytes end_ key'
  end.

(** The deadline as the [int64_t] the code compares with. *)
Definition alloc_end (timeout : Z) (k : kernel) : Z :=
  if timeout =? K_FOREVER then INT64_MAX else s64 (sys_clock_timeout_end_calc timeout (tmo k)).

Definition k_heap_aligned_alloc (passes : nat) (h align bytes timeout : Z) : M St (option Z) :=
  end_ <- kget (alloc_end timeout) ;;
  key <- k_spin_lock ;;
  heap_alloc_loop passes h align bytes end_ key.

Definition k_heap_alloc (passes : nat) (h bytes timeout : Z) : M St (option Z) :=
  k_heap_aligned_alloc passes h sizeof_ptr bytes timeout.

Definition k_heap_free (h mem : Z) : M St unit :=
  key <- k_spin_lock ;;
  x <- oget (fun o => kheaps o h) ;;
  omod (fun o => o <| memory ::= heap_free (heap x) mem |>) ;;
  woke <- kcall (z_unpend_all (wait_q x)) ;;
  if woke then z_reschedule key else k_spin_unlock key.

(** *** kernel/mempool.c *)

Definition size_add_overflow (a b : Z) : bool * Z := let c := usize (a + b) in (c <? a, c).

Definition size_mul_overflow (a b : Z) : bool * Z :=
  let c := usize (a * b) in (negb (a =? 0) && negb (c / a =? b), c).

(** With K_NO_WAIT the loop ends in its first pass. *)
Definition z_heap_aligned_alloc (heap align size : Z) : M St Z :=
  let '(overflow, size) := size_add_overflow size sizeof_ptr in
  if overflow then ret NULL
  else
    let __align := Z.lor align sizeof_ptr in
    r <- k_heap_aligned_alloc 1 heap __align size K_NO_WAIT ;;
    let mem := default NULL r in
    if mem =? NULL then ret NULL
    else
      omod (fun o => o <| memory ::= store PTR mem heap |>) ;;
      ret (mem + sizeof_ptr).

Definition k_free (ptr : Z) : M St unit :=
  if negb (ptr =? NULL) then
    let heap_ref := ptr - sizeof_ptr in
    heap <- oget (fun o => load PTR (memory o) heap_ref) ;;
    k_heap_free heap heap_ref
  else ret tt.

Definition k_aligned_alloc (align size : Z) : M St Z := z_heap_aligned_alloc _SYSTEM_HEAP align size.

Definition k_malloc (size : Z) : M St Z := k_aligned_alloc sizeof_ptr size.

Definition k_calloc (nmemb size : Z) : M St Z :=
  let '(overflow, bounds) := size_mul_overflow nmemb size in
  if overflow then ret NULL
  else
    r <- k_malloc bounds ;;
    (if negb (r =? NULL) then omod (fun o => o <| memory ::= memset r 0 bounds |>) else ret tt) ;;
    ret r.

Definition k_thread_system_pool_assign (thread : tid) : M St unit :=
  omod (fun o => o <| resource_pool ::= <[thread := _SYSTEM_HEAP]> |>).

Definition k_thread_heap_assign (thread : tid) (heap : Z) : M St unit :=
  omod (fun o => o <| resource_pool ::= <[thread := heap]> |>).

Definition z_thread_aligned_alloc (align size : Z) : M St Z :=
  isr <- kget in_isr ;;
  heap <- (if isr : bool then ret _SYSTEM_HEAP
           else self <- kget current ;; oget (fun o => resource_pool o self)) ;;
  if negb (heap =? NULL) then z_heap_aligned_alloc heap align size else ret NULL.

End Code.

(** ** The heaps and their blocks *)

Section Laws.
Context `{cfg : heap_config} `{A : allocator} `{L : !allocator_laws A} `{SP : system_pool}.
Context (HP : sizeof_ptr = 4 \/ sizeof_ptr = 8).

#[local] Abbreviation PTR := (Z.to_nat sizeof_ptr).

(** The [k_heap] objects [H] manage different heaps; [bss h] are the blocks
    allocated from [h]. *)
Record pools_ok (H : gset Z) (bss : Z -> blocks) (o : pools) : Prop := {
  po_addr h : h ∈ H -> 0 <= h < 2 ^ (8 * sizeof_ptr);
  po_heap h : h ∈ H -> heap (kheaps o h) ∈ heaps;
  po_inj h h' : h ∈ H -> h' ∈ H -> heap (kheaps o h) = heap (kheaps o h') -> h = h';
  po_owned h : h ∈ H -> owned (heap (kheaps o h)) (bss h) (memory o)
}.

(** The memory that an operation on the heap of [h] keeps. *)
Abbreviation kept o h bs := (agree (fun x => ~ region (heap (kheaps o h)) x \/ in_block bs x) (memory o)).

Lemma pools_ok_ext H bss bss' o : (forall h, bss' h = bss h) -> pools_ok H bss o -> pools_ok H bss' o.
Proof. intros E [H1 H2 H3 H4]. split; auto. intros h Hh. rewrite E. auto. Qed.

Lemma pools_ok_set H bss o h bs m' :
  pools_ok H bss o -> h ∈ H -> owned (heap (kheaps o h)) bs m' ->
  agree (fun x => ~ region (heap (kheaps o h)) x) (memory o) m' ->
  pools_ok H (<[h := bs]> bss) (o <| memory := m' |>).
Proof.
  intros [H1 H2 H3 H4] Hh Ho Ha. split; auto. intros h' Hh'. cbn [kheaps memory].
  destruct (decide (h' = h)) as [->|Hne]; [by rewrite fn_lookup_insert|rewrite fn_lookup_insert_ne by done].
  eapply law_frame; [by apply H2|by apply H4|]. intros x [Hx _]. apply Ha. intros Hx'. destruct Hne.
  apply H3; [done|done|]. by eapply law_apart; [apply H2| apply H2|..].
Qed.

(** Writes to allocated blocks. *)
Lemma pools_ok_write H bss o m' :
  pools_ok H bss o ->
  (forall x, (forall h, h ∈ H -> ~ in_block (bss h) x) -> m' x = memory o x) ->
  pools_ok H bss (o <| memory := m' |>).
Proof.
  intros [H1 H2 H3 H4] Hx. split; auto. intros h Hh. eapply law_frame; [by apply H2|by apply H4|].
  intros x [Hr Hb]. apply Hx. intros h' Hh' Hin.
  destruct (decide (h' = h)) as [->|Hne]; [done|]. destruct Hne. apply H3; [done|done|].
  destruct Hin as (p & n & Hp & Hpx). eapply law_apart; [by apply H2|by apply H2| |exact Hr].
  by eapply law_inside; [apply H2|apply H4|exact Hp|].
Qed.

(** One attempt of the heap [h] to find [n] bytes. *)
Record attempt (H : gset Z) (bss : Z -> blocks) (o : pools) (h B rew n p : Z) (o' : pools) : Prop := {
  at_frame : o' = o <| memory := memory o' |>;
  at_kept : kept o h (bss h) (memory o');
  at_result : (p = NULL /\ pools_ok H bss o') \/
    (p <> NULL /\ bss h !! p = None /\ pools_ok H (<[h := <[p := n]> (bss h)]> bss) o' /\ (p + rew) mod B = 0)
}.

Lemma attempt_spec H bss o h align B rew n :
  pools_ok H bss o -> h ∈ H -> alignment align B rew -> request_ok (heap (kheaps o h)) B n ->
  let '(p, m') := heap_aligned_alloc (heap (kheaps o h)) align n (memory o) in
  attempt H bss o h B rew n p (o <| memory := m' |>).
Proof.
  intros Ho Hh Hal Hr.
  pose proof (law_alloc _ _ _ _ _ _ _ (po_heap _ _ _ Ho h Hh) (po_owned _ _ _ Ho h Hh) Hal Hr) as HA.
  destruct (heap_aligned_alloc _ _ _ _) as [p m']. destruct HA as [Hk HA].
  assert (agree (fun x => ~ region (heap (kheaps o h)) x) (memory o) m') as Hk' by (intros x ?; apply Hk; by left).
  split; [done|done|]. destruct HA as [[-> HA]|(Hp & Hn & HA & Hm)]; [left|right; split_and!; try done].
  - split; [done|]. apply (pools_ok_ext H (<[h := bss h]> bss)); [|by apply pools_ok_set].
    intros h'. destruct (decide (h' = h)) as [->|?]; [by rewrite fn_lookup_insert|by rewrite fn_lookup_insert_ne].
  - by apply pools_ok_set.
Qed.

(** ** Allocation *)

(** What a pass of the loop ends with: a block, NULL after the deadline, or a
    wait for the rest of the time. *)
Inductive alloc_case (H : gset Z) (bss : Z -> blocks) (o : pools) (h align B rew n end_ : Z) (passes : nat)
    (k : kernel) : outcome St (option Z) -> Prop :=
| alloc_done p o' :
    attempt H bss o h B rew n p o' -> p <> NULL ->
    alloc_case H bss o h align B rew n end_ passes k (Done (Some p) (k, o'))
| alloc_late o' :
    attempt H bss o h B rew n NULL o' -> s64 (end_ - sys_clock_tick_get (tmo k)) <= 0 ->
    alloc_case H bss o h align B rew n end_ passes k (Done (Some NULL) (k, o'))
| alloc_waits o' :
    attempt H bss o h B rew n NULL o' -> 0 < s64 (end_ - sys_clock_tick_get (tmo k)) ->
    alloc_case H bss o h align B rew n end_ passes k
      (obind (z_pend_curr (negb (irq_locked k)) (wait_q (kheaps o h)) (s64 (end_ - sys_clock_tick_get (tmo k)))
                (k <| irq_locked := true |>, o'))
         (fun _ => key <- k_spin_lock ;; heap_alloc_loop passes h align n end_ key)).

Lemma loop_cases H bss o h align B rew n end_ passes k :
  pools_ok H bss o -> h ∈ H -> alignment align B rew -> request_ok (heap (kheaps o h)) B n ->
  alloc_case H bss o h align B rew n end_ passes k
    (heap_alloc_loop (S passes) h align n end_ (negb (irq_locked k)) (k <| irq_locked := true |>, o)).
Proof.
  intros Ho Hh Hal Hr. cbn [heap_alloc_loop]. unfold mcall. run_code.
  pose proof (attempt_spec _ _ _ _ _ _ _ _ Ho Hh Hal Hr) as HA.
  destruct (heap_aligned_alloc _ _ _ _) as [p m']. cbn [obind fst snd].
  change (tmo (k <| irq_locked := true |>)) with (tmo k).
  destruct (p =? NULL) eqn:Ep; cbn [negb orb].
  - apply Z.eqb_eq in Ep as ->. destruct (_ <=? 0) eqn:Et; cbn [obind fst snd].
    + rewrite unlock_id. apply alloc_late; [done|lia].
    + change (kheaps (o <| memory := m' |>)) with (kheaps o). apply alloc_waits; [done|lia].
  - apply Z.eqb_neq in Ep. cbn [obind fst snd]. rewrite unlock_id. by apply alloc_done.
Qed.

(** The idle thread, the [k_heap] objects and the heaps they manage stay. *)
Definition inv (H : gset Z) (idle : tid) (W : Z -> k_heap) (s : St) : Prop :=
  idle_thread s.1 = idle /\ kheaps s.2 = W /\ exists bss, pools_ok H bss s.2.

Lemma heap_inv_stable H idle W : stable (inv H idle W).
Proof. intros k k' o _ _ E (<- & Hi). split; [exact E|exact Hi]. Qed.

(** What the caller of the loop gets when it stops. *)
Definition allocated (J : St -> Prop) (H : gset Z) (h B rew n end_ : Z) (self : tid) (irq : bool)
    (r : option Z) (s : St) : Prop :=
  match r with
  | Some p =>
      returned J self irq s /\
      (if p =? NULL then s64 (end_ - sys_clock_tick_get (tmo s.1)) <= 0
       else exists bss o, pools_ok H bss o /\ attempt H bss o h B rew n p s.2)
  | None => krun s.1 /\ J s /\ current s.1 = self /\ irq_locked s.1 = true
  end.

Lemma attempt_inv H idle k bss o h B rew n p o' :
  attempt H bss o h B rew n p o' -> idle_thread k = idle -> inv H idle (kheaps o) (k, o').
Proof.
  intros [E _ HR] HW. split; [done|]. split; [simpl; by rewrite E|].
  destruct HR as [[_ ?]|(_ & _ & ? & _)]; by eexists.
Qed.

Lemma loop_runs H idle W h align B rew n end_ passes k o :
  krun k -> current k <> idle -> inv H idle W (k, o) -> h ∈ H -> alignment align B rew ->
  request_ok (heap (W h)) B n ->
  runs (inv H idle W) (current k) (allocated (inv H idle W) H h B rew n end_ (current k) (irq_locked k))
    (heap_alloc_loop passes h align n end_ (negb (irq_locked k)) (k <| irq_locked := true |>, o)).
Proof.
  revert k o. induction passes as [|passes IH]; intros k o Hk Hi (HI & HW & bss & Ho) Hh Hal Hr.
  - cbn [heap_alloc_loop]. split_and!; [by apply krun_irq|by split_and!; [..|exists bss]|done|done].
  - simpl in HW, HI. subst W.
    destruct (loop_cases H bss o h align B rew n end_ passes k Ho Hh Hal Hr) as [p o' HA Hp|o' HA Ht|o' HA Ht].
    + split; [|rewrite (proj2 (Z.eqb_neq _ _) Hp); by exists bss, o].
      split_and!; [done|by eapply attempt_inv|done|done].
    + split; [|done]. split_and!; [done|by eapply attempt_inv|done|done].
    + eapply runs_bind; [apply (pend_returned_runs _ (heap_inv_stable H idle (kheaps o)))|]; [done|congruence| |].
      * intros k' Hk'. eapply attempt_inv; [done|]. by rewrite (pe_idle _ _ _ Hk').
      * intros r [k' o''] [(R1 & R2 & R3 & R4) _]. simpl in *. run_code. rewrite <-R3, <-R4.
        apply IH; [done|congruence|done..].
Qed.

(** ** Freeing *)

(** [bss] are the blocks after the call. *)
Inductive free_case (H : gset Z) (bss : Z -> blocks) (o : pools) (h : Z) (k : kernel) : outcome St unit -> Prop :=
| free_quiet o' :
    waitqs k (wait_q (kheaps o h)) = [] -> kheaps o' = kheaps o ->
    pools_ok H bss o' -> kept o h (bss h) (memory o') ->
    free_case H bss o h k (Done tt (k, o'))
| free_wakes k' o' :
    waitqs k (wait_q (kheaps o h)) <> [] -> kheaps o' = kheaps o ->
    pools_ok H bss o' -> kept o h (bss h) (memory o') ->
    all_readied (wait_q (kheaps o h)) (k <| irq_locked := true |>) k' ->
    free_case H bss o h k (z_reschedule (negb (irq_locked k)) (k', o')).

Lemma free_case_ext H bss bss' o h k r :
  (forall h', bss' h' = bss h') -> free_case H bss o h k r -> free_case H bss' o h k r.
Proof.
  intros E [o' H1 H2 H3 H4|k' o' H1 H2 H3 H4 H5]; rewrite <-E in H4;
    [apply free_quiet|apply free_wakes]; try done; by eapply pools_ok_ext.
Qed.

Lemma heap_free_cases H bss o h p n k :
  kwf k -> pools_ok H bss o -> h ∈ H -> bss h !! p = Some n ->
  free_case H (<[h := delete p (bss h)]> bss) o h k (k_heap_free h p (k, o)).
Proof.
  intros Hk Ho Hh Hp. unfold k_heap_free. run_code.
  destruct (law_free _ _ _ _ _ (po_heap _ _ _ Ho h Hh) (po_owned _ _ _ Ho h Hh) Hp) as [HF Ha].
  set (m' := heap_free (heap (kheaps o h)) p (memory o)) in *.
  assert (pools_ok H (<[h := delete p (bss h)]> bss) (o <| memory := m' |>)) as Ho'.
  { apply pools_ok_set; [done|done|done|]. intros x Hx. apply Ha. by left. }
  assert (kept o h ((<[h := delete p (bss h)]> bss) h) m') as Ha' by (by rewrite fn_lookup_insert).
  set (k0 := k <| irq_locked := true |>). assert (Hk0 : kwf k0) by (by apply kwf_irq).
  destruct (decide (waitqs k (wait_q (kheaps o h)) = [])) as [Ew|Ew].
  - assert (z_unpend_all (wait_q (kheaps o h)) k0 = (false, k0)) as ->
      by (unfold z_unpend_all; change (waitqs k0) with (waitqs k); by rewrite Ew).
    cbn [obind fst snd]. unfold k0. rewrite unlock_id. by apply free_quiet.
  - destruct (z_unpend_all_spec (wait_q (kheaps o h)) k0 Hk0) as (k' & E & HR). rewrite E. cbn [obind fst snd].
    change (waitqs k0) with (waitqs k). rewrite bool_decide_eq_false_2 by done. cbn [negb].
    by apply free_wakes.
Qed.

Lemma heap_free_runs H W h p n bss k o :
  krun k -> pools_ok H bss o -> kheaps o = W -> h ∈ H -> bss h !! p = Some n ->
  runs (inv H (idle_thread k) W) (current k) (fun _ => returned (inv H (idle_thread k) W) (current k) (irq_locked k))
    (k_heap_free h p (k, o)).
Proof.
  intros Hk Ho <- Hh Hp. destruct (heap_free_cases H bss o h p n k (kru_wf _ Hk) Ho Hh Hp) as [o' _ HW Ho' _|k' o' _ HW Ho' _ Hr].
  - split_and!; [done| |done|done]. split_and!; [done|done|by eexists].
  - eapply all_readied_resched_runs; [apply heap_inv_stable|done|exact Hr|].
    split_and!; [exact (ar_idle _ _ _ Hr)|done|by eexists].
Qed.

(** ** The heap reference in front of a block *)

Lemma add_overflow a b :
  0 <= a < 2 ^ (8 * sizeof_ptr) -> 0 <= b < 2 ^ (8 * sizeof_ptr) ->
  size_add_overflow a b = (bool_decide (2 ^ (8 * sizeof_ptr) <= a + b), usize (a + b)).
Proof.
  intros Ha Hb. unfold size_add_overflow. f_equal. unfold Heap.usize, uwrap.
  set (W := 2 ^ (8 * sizeof_ptr)) in *. case_bool_decide.
  - replace ((a + b) mod W) with (a + b - W); [lia|]. symmetry.
    rewrite <-(Z.mod_small (a + b - W) W) by lia. rewrite <-(Z.mod_add (a + b - W) 1) by lia. f_equal. lia.
  - rewrite Z.mod_small by lia. lia.
Qed.

Lemma mul_overflow a b :
  0 <= a < 2 ^ (8 * sizeof_ptr) -> 0 <= b < 2 ^ (8 * sizeof_ptr) ->
  size_mul_overflow a b = (bool_decide (2 ^ (8 * sizeof_ptr) <= a * b), usize (a * b)).
Proof.
  intros Ha Hb. unfold size_mul_overflow. f_equal. unfold Heap.usize, uwrap.
  set (W := 2 ^ (8 * sizeof_ptr)) in *. case_bool_decide.
  - destruct (decide (a = 0)) as [->|Hne]; [lia|]. apply andb_true_iff. split; [lia|].
    apply negb_true_iff, Z.eqb_neq. intros E. pose proof (Z.mod_pos_bound (a * b) W ltac:(lia)).
    assert (b * a <= (a * b) mod W) by (rewrite <-E at 1; rewrite Z.mul_comm; apply Z.mul_div_le; lia). lia.
  - destruct (decide (a = 0)) as [->|Hne]; [done|]. rewrite Z.mod_small by lia.
    rewrite Z.mul_comm, Z.div_mul, Z.eqb_refl by done. apply andb_false_r.
Qed.

(** The requests of [k_aligned_alloc]: the boundary is a power of two, no
    smaller than a pointer, or 0, which means a pointer. *)
Definition boundary (align B : Z) : Prop :=
  (align = 0 /\ B = sizeof_ptr) \/ exists k, 0 <= k /\ align = 2 ^ k /\ B = align /\ sizeof_ptr <= align.

Lemma ptr_pow : exists j, 2 <= j <= 3 /\ sizeof_ptr = 2 ^ j.
Proof. destruct HP as [-> | ->]; [by exists 2|by exists 3]. Qed.

(** The flag for the rewind: the block starts a pointer below the boundary. *)
Lemma boundary_alignment align B :
  boundary align B -> exists rew, alignment (Z.lor align sizeof_ptr) B rew /\ (B | rew - sizeof_ptr).
Proof.
  destruct ptr_pow as (j & Hj & Ej). intros [[-> ->]|(k & Hk & -> & -> & Hle)].
  - exists 0. rewrite Z.lor_0_l. split; [rewrite Ej; apply align_pow; lia|]. exists (-1). lia.
  - assert (j <= k) as Hjk.
    { rewrite Ej in Hle. apply Z.le_ngt. intros Hlt. assert (2 ^ k < 2 ^ j) by (apply Z.pow_lt_mono_r; lia). lia. }
    destruct (decide (j = k)) as [->|Hne].
    + exists 0. rewrite Ej, Z.lor_diag. split; [by apply align_pow|]. exists (-1). lia.
    + exists (2 ^ j). rewrite Ej. split; [|rewrite Z.sub_diag; apply Z.divide_0_r].
      replace (Z.lor (2 ^ k) (2 ^ j)) with (2 ^ k + 2 ^ j); [apply align_rewind; lia|].
      apply Z.add_nocarry_lor, Z.bits_inj'. intros i Hi. rewrite Z.land_spec, Z.bits_0.
      destruct (decide (i = k)) as [->|Hik]; [|by rewrite Z.pow2_bits_false].
      rewrite (Z.pow2_bits_false j k) by lia. apply andb_false_r.
Qed.

(** The block that [z_heap_aligned_alloc] handed out at [p]: it belongs to
    [h], starts with the reference to [h], and [p] is behind the reference. *)
Record handed (H : gset Z) (bss : Z -> blocks) (h p size : Z) (o : pools) : Prop := {
  ha_new : bss h !! (p - sizeof_ptr) = None;
  ha_pools : pools_ok H (<[h := <[p - sizeof_ptr := size + sizeof_ptr]> (bss h)]> bss) o;
  ha_ref : load PTR (memory o) (p - sizeof_ptr) = h
}.

Lemma no_wait_ends k : s64 (alloc_end K_NO_WAIT k - sys_clock_tick_get (tmo k)) <= 0.
Proof.
  unfold alloc_end, sys_clock_timeout_end_calc. cbn [Z.eqb]. set (t := sys_clock_tick_get (tmo k)). clearbody t.
  unfold swrap. change (K_NO_WAIT =? K_FOREVER) with false. rewrite Z.eqb_refl. cbn iota.
  replace ((t + 2 ^ (64 - 1)) mod 2 ^ 64 - 2 ^ (64 - 1) - t + 2 ^ (64 - 1)) with ((t + 2 ^ (64 - 1)) mod 2 ^ 64 - t) by lia.
  rewrite Zminus_mod_idemp_l. replace (t + 2 ^ (64 - 1) - t) with (2 ^ (64 - 1)) by lia.
  rewrite Z.mod_small; lia.
Qed.

Lemma one_pass H bss o h align B rew n k :
  pools_ok H bss o -> h ∈ H -> alignment align B rew -> request_ok (heap (kheaps o h)) B n ->
  exists p o', k_heap_aligned_alloc 1 h align n K_NO_WAIT (k, o) = Done (Some p) (k, o') /\
    attempt H bss o h B rew n p o'.
Proof.
  intros Ho Hh Hal Hr. unfold k_heap_aligned_alloc. run_code.
  destruct (loop_cases H bss o h align B rew n (alloc_end K_NO_WAIT k) 0 k Ho Hh Hal Hr) as [p o' HA Hp|o' HA Ht|o' HA Ht].
  - by exists p, o'.
  - by exists NULL, o'.
  - pose proof (no_wait_ends k). lia.
Qed.

Lemma handed_store H bss o h q size :
  pools_ok H (<[h := <[q := size + sizeof_ptr]> (bss h)]> bss) o -> h ∈ H -> bss h !! q = None -> 0 <= size ->
  handed H bss h (q + sizeof_ptr) size (o <| memory ::= store PTR q h |>).
Proof.
  intros Ho Hh Hq Hs. assert (0 < sizeof_ptr) by lia. split; replace (q + sizeof_ptr - sizeof_ptr) with q by lia; [done| |].
  - apply (pools_ok_write _ _ _ (store PTR q h (memory o)) Ho). intros x Hx. apply store_other. intros Hr.
    apply (Hx h Hh). rewrite fn_lookup_insert. exists q, (size + sizeof_ptr). rewrite lookup_insert_eq.
    split; [done|lia].
  - apply load_store_same. pose proof (po_addr _ _ _ Ho h Hh) as Ha. rewrite Z2Nat.id by lia.
    by replace (256 ^ sizeof_ptr) with (2 ^ (8 * sizeof_ptr)) by (by rewrite Z.pow_mul_r by lia).
Qed.

(** A request for a block with a reference. *)
Record pool_request (H : gset Z) (o : pools) (h align B size : Z) : Prop := {
  pr_heap : h ∈ H;
  pr_align : boundary align B;
  pr_size : 0 <= size < 2 ^ (8 * sizeof_ptr);
  pr_ok : size + sizeof_ptr < 2 ^ (8 * sizeof_ptr) -> request_ok (heap (kheaps o h)) B (size + sizeof_ptr)
}.

(** What such a request gives. *)
Definition pool_result (H : gset Z) (bss : Z -> blocks) (o : pools) (h B size p : Z) (o' : pools) : Prop :=
  kheaps o' = kheaps o /\ resource_pool o' = resource_pool o /\ kept o h (bss h) (memory o') /\
  ((p = NULL /\ pools_ok H bss o') \/ (0 < p /\ p mod B = 0 /\ handed H bss h p size o')).

Lemma pool_alloc_spec H bss o h align B size k :
  pools_ok H bss o -> pool_request H o h align B size ->
  exists p o', z_heap_aligned_alloc h align size (k, o) = Done p (k, o') /\ pool_result H bss o h B size p o'.
Proof.
  intros Ho [Hh Hal Hs Hr]. destruct (boundary_alignment align B Hal) as (rew & Har & Hrew).
  unfold z_heap_aligned_alloc. rewrite add_overflow; [|done|destruct HP as [-> | ->]; lia].
  case_bool_decide as Hov. { exists NULL, o. split; [done|]. split_and!; [done|done|done|by left]. }
  assert (usize (size + sizeof_ptr) = size + sizeof_ptr) as -> by (apply uwrap_small; lia).
  destruct (one_pass H bss o h _ B rew (size + sizeof_ptr) k Ho Hh Har (Hr ltac:(lia))) as (q & o' & E & [Ef Ek HA]).
  run_code. rewrite E. cbn [obind default]. unfold id.
  destruct HA as [[-> HA]|(Hq & Hn & HA & Hm)].
  { exists NULL, o'. split; [done|]. split_and!; [by rewrite Ef|by rewrite Ef|done|by left]. }
  rewrite (proj2 (Z.eqb_neq _ _) Hq). run_code. eexists _, _. split; [reflexivity|].
  assert (0 < sizeof_ptr) as Hpos by lia.
  assert (forall x, q <= x < q + sizeof_ptr -> in_block (<[q := size + sizeof_ptr]> (bss h)) x) as Hin.
  { intros x Hx. exists q, (size + sizeof_ptr). rewrite lookup_insert_eq. split; [done|lia]. }
  pose proof (po_owned _ _ _ HA h Hh) as Hown. rewrite fn_lookup_insert in Hown.
  pose proof (po_heap _ _ _ HA h Hh) as Hhp.
  destruct (law_inside _ _ _ q (size + sizeof_ptr) Hhp Hown (lookup_insert_eq _ _ _)) as (Hq0 & _ & Hreg).
  split_and!; [simpl; by rewrite Ef|simpl; by rewrite Ef| |right; split_and!; [lia| |apply handed_store; done || lia]].
  - intros x Hx. change (store PTR q h (memory o') x = memory o x). rewrite store_other; [by apply Ek|]. rewrite Z2Nat.id by lia. intros Hr'.
    rewrite Ef in Hreg. cbn [kheaps] in Hreg. destruct Hx as [Hx|(q' & n & Hq' & Hx)]; [apply Hx, Hreg; lia|].
    pose proof (law_disjoint _ _ _ q (size + sizeof_ptr) q' n Hhp Hown (lookup_insert_eq _ _ _)) as Hd.
    unfold disjoint_regions in Hd. rewrite lookup_insert_ne in Hd by congruence.
    specialize (Hd Hq' ltac:(congruence)). lia.
  - assert (0 < B) as HB by (destruct Hal as [[_ ->]|(j & ? & -> & -> & ?)]; lia).
    apply Z.mod_divide; [lia|]. replace (q + sizeof_ptr) with (q + rew - (rew - sizeof_ptr)) by lia.
    apply Z.divide_sub_r; [|done]. apply Z.mod_divide; [lia|done].
Qed.

Lemma pool_free_spec H bss o h p size k m' :
  kwf k -> h ∈ H -> 0 < p -> 0 <= size -> handed H bss h p size o ->
  (forall x, ~ p <= x < p + size -> m' x = memory o x) ->
  free_case H bss (o <| memory := m' |>) h k (k_free p (k, o <| memory := m' |>)).
Proof.
  intros Hk Hh Hp Hs [Hn Ho Hr] Hx. assert (0 < sizeof_ptr) as Hpos by lia.
  unfold k_free. replace (p =? NULL) with false by (unfold Heap.NULL; lia). run_code. cbn [negb fst snd].
  assert (load PTR (memory (o <| memory := m' |>)) (p - sizeof_ptr) = h) as ->.
  { etransitivity; [|exact Hr]. apply load_ext. intros x Hx'. apply Hx. lia. }
  eapply free_case_ext; [|eapply (heap_free_cases _ _ _ h (p - sizeof_ptr) (size + sizeof_ptr) k Hk)]; [|eapply pools_ok_write; [exact Ho|]|done|].
  - intros h'. destruct (decide (h' = h)) as [->|?].
    + rewrite !fn_lookup_insert. by rewrite delete_insert_id.
    + by rewrite !fn_lookup_insert_ne.
  - intros x Hno. apply Hx. intros Hr'. apply (Hno h Hh). rewrite fn_lookup_insert.
    exists (p - sizeof_ptr), (size + sizeof_ptr). rewrite lookup_insert_eq. split; [done|lia].
  - by rewrite fn_lookup_insert, lookup_insert_eq.
Qed.

(** ** Initialisation *)

(** The object [h] is made with the heap [hp], which no other object uses. *)
Record init_request (H : gset Z) (o : pools) (h hp p n : Z) : Prop := {
  ir_new : h ∉ H;
  ir_addr : 0 <= h < 2 ^ (8 * sizeof_ptr);
  ir_heap : hp ∈ heaps;
  ir_free h' : h' ∈ H -> heap (kheaps o h') <> hp;
  ir_ok : init_ok hp p n
}.

Definition same_setup (x y : k_heap) : Prop :=
  init_mem y = init_mem x /\ init_bytes y = init_bytes x /\ wait_q y = wait_q x.

Lemma heap_init_spec H bss o h hp p n k :
  pools_ok H bss o -> init_request H o h hp p n ->
  exists o', k_heap_init h p n (k, o) = Done tt (z_waitq_init (wait_q (kheaps o h)) k, o') /\
    pools_ok ({[h]} ∪ H) (<[h := ∅]> bss) o' /\ heap (kheaps o' h) = hp /\
    (forall h', same_setup (kheaps o h') (kheaps o' h')) /\ (forall h', h' <> h -> kheaps o' h' = kheaps o h').
Proof.
  intros [H1 H2 H3 H4] [Hh Ha Hhp Hf Hok]. unfold k_heap_init, mcall. run_code.
  pose proof (law_init hp p n (memory o) Hhp Hok) as HI. destruct (heap_init p n (memory o)) as [hp' m'].
  destruct HI as (-> & Ho & Hag). run_code. eexists. split; [reflexivity|].
  set (o' := o <| memory := m' |> <| kheaps ::= fun f => <[h := (f h) <| heap := hp |>]> f |>).
  assert (kheaps o' h = (kheaps o h) <| heap := hp |>) as E1 by (unfold o'; cbn; by rewrite fn_lookup_insert).
  assert (forall h', h' <> h -> kheaps o' h' = kheaps o h') as E2
    by (intros h' Hne; unfold o'; cbn; by rewrite fn_lookup_insert_ne).
  assert (memory o' = m') as E3 by done. clearbody o'.
  assert (forall h', h' ∈ {[h]} ∪ H -> h' <> h -> h' ∈ H) as Hold by set_solver.
  split_and!; [|by rewrite E1| |done].
  - split.
    + intros h' Hin. destruct (decide (h' = h)) as [->|?]; auto.
    + intros h' Hin. destruct (decide (h' = h)) as [->|?]; [by rewrite E1|]. rewrite E2 by done. auto.
    + intros h1 h2 Hi1 Hi2. destruct (decide (h1 = h)) as [->|?], (decide (h2 = h)) as [->|?]; [done|..].
      * rewrite E1, E2 by done. intros E. destruct (Hf h2); auto.
      * rewrite E1, E2 by done. intros E. destruct (Hf h1); auto.
      * rewrite !E2 by done. auto.
    + intros h' Hin. rewrite E3. destruct (decide (h' = h)) as [->|?].
      * by rewrite E1, fn_lookup_insert.
      * rewrite E2, fn_lookup_insert_ne by done. eapply law_frame; [by auto|by auto|]. intros x [Hx _].
        apply Hag. intros Hx'. apply (Hf h'); [auto|]. by eapply law_apart; [auto| |exact Hx|].
  - intros h'. destruct (decide (h' = h)) as [->|?]; [by rewrite E1|by rewrite E2].
Qed.

(** The statically defined heaps [l]; [hps] are the places of their heaps. *)
Record statics (hps : Z -> Z) (o : pools) (l : list Z) : Prop := {
  sc_nodup : NoDup l;
  sc_addr h : h ∈ l -> 0 <= h < 2 ^ (8 * sizeof_ptr);
  sc_heap h : h ∈ l -> hps h ∈ heaps;
  sc_inj h h' : h ∈ l -> h' ∈ l -> hps h = hps h' -> h = h';
  sc_ok h : h ∈ l -> init_ok (hps h) (init_mem (kheaps o h)) (init_bytes (kheaps o h))
}.

Lemma statics_init_spec hps l H bss o k :
  statics hps o l -> pools_ok H bss o -> (forall h, h ∈ H -> h ∉ l) ->
  (forall h h', h ∈ H -> h' ∈ l -> heap (kheaps o h) <> hps h') -> (forall h, h ∈ H -> bss h = ∅) ->
  exists k' o', statics_init l (k, o) = Done 0 (k', o') /\ pools_ok (list_to_set l ∪ H) (fun _ => ∅) o' /\
    (forall h, h ∈ l -> waitqs k' (wait_q (kheaps o h)) = []) /\
    (forall w, waitqs k w = [] -> waitqs k' w = []).
Proof.
  revert H bss o k. induction l as [|h l IH]; intros H bss o k [S1 S2 S3 S4 S5] Ho Hd Hi Hb; cbn [statics_init].
  - exists k, o. split_and!; [done| |by intros ? ?%elem_of_nil|done].
    replace (list_to_set [] ∪ H) with H by set_solver. destruct Ho as [P1 P2 P3 P4]. split; auto.
    intros h Hh. rewrite <-(Hb h Hh). auto.
  - apply NoDup_cons in S1 as [Hni S1].
    destruct (heap_init_spec H bss o h (hps h) (init_mem (kheaps o h)) (init_bytes (kheaps o h)) k Ho)
      as (o1 & E & Ho1 & Hh1 & Hs & Hne).
    { split; [intros Hin; apply (Hd h Hin); left|apply S2; left|apply S3; left| |apply S5; left].
      intros h' Hh'. apply Hi; [done|left]. }
    run_code. cbn [obind fst snd]. rewrite E. cbn [obind fst snd].
    destruct (IH ({[h]} ∪ H) (<[h := ∅]> bss) o1 (z_waitq_init (wait_q (kheaps o h)) k)) as (k' & o' & E' & Ho' & Hw & Hkeep).
    + split; [done|intros; apply S2; by right|intros; apply S3; by right| |].
      * intros h1 h2 ? ?. apply S4; by right.
      * intros h' Hin. destruct (Hs h') as (-> & -> & _). apply S5. by right.
    + done.
    + intros h' [->%elem_of_singleton|Hin]%elem_of_union; [done|]. intros Hl. apply (Hd h' Hin). by right.
    + intros h1 h2 [->%elem_of_singleton|Hin]%elem_of_union Hl.
      * rewrite Hh1. intros E2. apply S4 in E2 as ->; [done|left|by right].
      * rewrite Hne by (intros ->; apply (Hd h Hin); left). apply Hi; [done|by right].
    + intros h' [->%elem_of_singleton|Hin]%elem_of_union; [by rewrite fn_lookup_insert|].
      rewrite fn_lookup_insert_ne; [auto|]. intros <-. apply (Hd h Hin). left.
    + exists k', o'. split_and!; [done| | |].
      * replace (list_to_set (h :: l) ∪ H) with (list_to_set l ∪ ({[h]} ∪ H)) by set_solver. done.
      * intros h' [->|Hin]%elem_of_cons.
        -- apply Hkeep. unfold z_waitq_init. by rewrite waitqs_upd_waitq, decide_True.
        -- destruct (Hs h') as (_ & _ & <-). by apply Hw.
      * intros w Hw'. apply Hkeep. unfold z_waitq_init. rewrite waitqs_upd_waitq. by case_decide.
Qed.

(** ** Properties *)


(** [k_heap_free] of an allocated block gives it back to its heap: the
    other blocks of every heap keep their place and contents.  Every thread
    that waits for memory of this heap becomes ready and tries again, and the
    caller is preempted if one of them is more urgent. *)
Theorem k_heap_free_wakes_waiters H bss k o h p n :
  krun k -> pools_ok H bss o -> h ∈ H -> bss h !! p = Some n ->
  let J := inv H (idle_thread k) (kheaps o) in
  free_case H (<[h := delete p (bss h)]> bss) o h k (k_heap_free h p (k, o)) /\
  runs J (current k) (fun _ => returned J (current k) (irq_locked k)) (k_heap_free h p (k, o)).
Proof. intros Hk Ho Hh Hp J. split; [by eapply heap_free_cases; [apply Hk|..]|by eapply heap_free_runs]. Qed.

(** C16: What [z_thread_aligned_alloc] takes from the pool of the running
    thread (of the system in an interrupt) is aligned, and [k_free] gives
    it back to exactly that pool, whatever its owner stored in it: the heaps
    have the blocks they had before. *)
Theorem k_free_returns_to_pool H bss k o align B size :
  let h := if in_isr k then _SYSTEM_HEAP else resource_pool o (current k) in
  kwf k -> pools_ok H bss o -> h <> NULL -> pool_request H o h align B size ->
  exists p o', z_thread_aligned_alloc align size (k, o) = Done p (k, o') /\ pool_result H bss o h B size p o' /\
    (p <> NULL -> forall m', (forall x, ~ p <= x < p + size -> m' x = memory o' x) ->
     free_case H bss (o' <| memory := m' |>) h k (k_free p (k, o' <| memory := m' |>))).
Proof.
  intros h Hk Ho Hn Hr. destruct (pool_alloc_spec H bss o h align B size k Ho Hr) as (p & o' & E & HR).
  exists p, o'. split_and!; [|done|].
  - unfold z_thread_aligned_alloc. run_code.
    replace (obind _ _) with (z_heap_aligned_alloc h align size (k, o)); [done|]. unfold h in *.
    destruct (in_isr k); run_code; by rewrite (proj2 (Z.eqb_neq _ _) Hn).
  - intros Hp m' Hm. destruct HR as (_ & _ & _ & [[? _]|(Hp0 & _ & HA)]); [done|].
    apply (pool_free_spec H bss o' h p size); try done; apply Hr.
Qed.

(** [k_calloc] returns NULL and changes nothing if the product of its
    arguments does not fit a [size_t]; otherwise it returns NULL or a
    block of the system heap of that many bytes, all of them zero. *)
Theorem k_calloc_zeroes H bss k o nmemb size :
  pools_ok H bss o -> 0 <= nmemb < 2 ^ (8 * sizeof_ptr) -> 0 <= size < 2 ^ (8 * sizeof_ptr) ->
  (nmemb * size < 2 ^ (8 * sizeof_ptr) -> pool_request H o _SYSTEM_HEAP sizeof_ptr sizeof_ptr (nmemb * size)) ->
  exists p o', k_calloc nmemb size (k, o) = Done p (k, o') /\
    (2 ^ (8 * sizeof_ptr) <= nmemb * size -> p = NULL /\ o' = o) /\
    (p = NULL -> pools_ok H bss o') /\
    (p <> NULL -> handed H bss _SYSTEM_HEAP p (nmemb * size) o' /\ p mod sizeof_ptr = 0 /\
       forall x, p <= x < p + nmemb * size -> memory o' x = 0).
Proof.
  intros Ho Hn Hs Hreq. unfold k_calloc. rewrite mul_overflow by done. case_bool_decide as Hov.
  { exists NULL, o. by split_and!. }
  assert (usize (nmemb * size) = nmemb * size) as -> by (apply uwrap_small; lia).
  specialize (Hreq ltac:(lia)). destruct (pool_alloc_spec H bss o _ _ _ _ k Ho Hreq) as (p & o' & E & _ & _ & _ & HR).
  unfold k_malloc, k_aligned_alloc. run_code. rewrite E. cbn [obind fst snd].
  destruct HR as [[-> HR]|(Hp & Hm & HA)].
  - exists NULL, o'. cbn. by split_and!; [|lia|..].
  - assert (p <> NULL) as Hp' by (unfold Heap.NULL; lia). rewrite (proj2 (Z.eqb_neq _ _) Hp'). cbn [negb obind].
    run_code. eexists p, _. split; [reflexivity|]. split_and!; [lia|done|]. intros _. split_and!; [|done|].
    + destruct HA as [A1 A2 A3]. split; [done| |].
      * apply (pools_ok_write _ _ _ (memset p 0 (nmemb * size) (memory o')) A2). intros x Hx. apply memset_other.
        intros Hr. apply (Hx _ (pr_heap _ _ _ _ _ _ Hreq)). rewrite fn_lookup_insert.
        exists (p - sizeof_ptr), (nmemb * size + sizeof_ptr). rewrite lookup_insert_eq. split; [done|lia].
      * etransitivity; [|exact A3]. apply load_ext. intros x Hx. apply memset_other. lia.
    + intros x Hx. change (memset p 0 (nmemb * size) (memory o') x = 0). by rewrite memset_same.
Qed.

(** [statics_init] makes every statically defined heap: each of them is
    empty, no two share memory, and nobody waits for them. *)
Theorem statics_init_establishes hps l o k :
  statics hps o l ->
  exists k' o', statics_init l (k, o) = Done 0 (k', o') /\ pools_ok (list_to_set l) (fun _ => ∅) o' /\
    forall h, h ∈ l -> waitqs k' (wait_q (kheaps o h)) = [].
Proof.
  intros Hst. destruct (statics_init_spec hps l ∅ (fun _ => ∅) o k Hst) as (k' & o' & E & Ho & Hw & _).
  - by split.
  - by intros h ?%elem_of_empty.
  - by intros h h' ?%elem_of_empty.
  - done.
  - exists k', o'. rewrite (right_id_L ∅ (∪)) in Ho. done.
Qed.

End Laws.

(** ** A heap of 508 bytes at address 1000, managed by the object at 500 *)

#[local] Instance demo_config : heap_config := HeapSpec.demo_config.

#[local] Program Instance demo_family : heap_family := {|
  fam_heaps := {[1000]};
  fam_geom := fun _ => HeapSpec.demo_geometry
|}.
Next Obligation. by intros hp ->%elem_of_singleton. Qed.
Next Obligation. intros hp _. exact HeapSpec.demo_ok. Qed.
Next Obligation. by intros hp hp' x ->%elem_of_singleton ->%elem_of_singleton. Qed.

#[local] Instance demo_pool : system_pool := 500.

Definition demo_pools (m : mem) (w : wqid) : pools :=
  mk_pools (fun _ => mk_kheap 1000 1000 508 w) m (fun _ => 500).

Lemma demo_ptr : sizeof_ptr = 4 \/ sizeof_ptr = 8.
Proof. by left. Qed.

Lemma demo_pools_ok bs m w :
  @chunks_owned _ HeapSpec.demo_geometry bs m -> pools_ok {[500]} (fun _ => bs) (demo_pools m w).
Proof.
  intros Ho. split.
  - intros h ->%elem_of_singleton. vm_compute. intuition congruence.
  - intros h _. apply elem_of_singleton. done.
  - by intros h h' ->%elem_of_singleton ->%elem_of_singleton.
  - intros h _. exact Ho.
Qed.

Lemma demo_empty : @chunks_owned _ HeapSpec.demo_geometry ∅ HeapSpec.demo_mem.
Proof.
  pose proof (@owned_init _ _ HeapSpec.demo_ok 1000 508 (fun _ => 0) HeapSpec.demo_args) as H.
  unfold HeapSpec.demo_mem. destruct (Heap.sys_heap_init 1000 508 (fun _ => 0)). apply H.
Qed.

Lemma demo_one : @chunks_owned _ HeapSpec.demo_geometry {[1044 := 20]} HeapSpec.demo_used.
Proof.
  eexists. split; [exact HeapSpec.demo_used_inv|]. split.
  - intros p n [<- <-]%lookup_singleton_Some. split; [lia|]. exists 5, 3.
    split_and!; [|lia|split; vm_compute; congruence|vm_compute; congruence]. right. left.
  - intros p q c [? [<- _]%lookup_singleton_Some] [? [<- _]%lookup_singleton_Some]. done.
  - intros c sz Hin Hc. exists 1044. rewrite lookup_singleton_eq. split; [by eexists|].
    cbn [app] in Hin. rewrite !elem_of_cons in Hin.
    destruct Hin as [?|[?|[?|?%elem_of_nil]]]; simplify_eq. split; vm_compute; congruence.
Qed.

Lemma demo_request B n : 0 < n < 100 -> 0 < B <= 8 -> @chunk_request _ HeapSpec.demo_geometry B n.
Proof.
  intros Hn HB. split; [|split; [lia|]].
  - assert (h : forall x, @fits_address _ HeapSpec.demo_geometry x <-> 1000 + 8 * 63 + 2 * x + 16 <= 2 ^ 32 /\ x <= 2 ^ 32) by done.
    apply h. lia.
  - intros _. unfold units_for. change (@hdr _ HeapSpec.demo_geometry) with 4.
    eapply Z.le_lt_trans; [apply (@bidx_mono _ HeapSpec.demo_geometry _ 15)|vm_compute; reflexivity].
    apply Z.div_le_upper_bound; lia.
Qed.


Definition demo_blocks : Z -> blocks := fun _ => {[1044 := 20]}.

Lemma k_heap_free_wakes_waiters_witness :
  free_case {[500]} (<[500 := delete 1044 (demo_blocks 500)]> demo_blocks) (demo_pools HeapSpec.demo_used 7) 500
    (demo false) (k_heap_free 500 1044 (demo false, demo_pools HeapSpec.demo_used 7)).
Proof.
  destruct (k_heap_free_wakes_waiters {[500]} demo_blocks (demo false) (demo_pools HeapSpec.demo_used 7) 500 1044 20)
    as [H _]; [apply demo_run|exact (demo_pools_ok _ _ 7 demo_one)|by apply elem_of_singleton|apply lookup_singleton_eq|].
  exact H.
Defined.

Lemma demo_pool_request size m w : 0 <= size < 90 -> pool_request {[500]} (demo_pools m w) 500 4 4 size.
Proof.
  intros Hs. split; [by apply elem_of_singleton| | |].
  - right. exists 2. split_and!; done.
  - change (2 ^ (8 * sizeof_ptr)) with 4294967296. lia.
  - intros _. apply demo_request; change sizeof_ptr with 4; lia.
Qed.

Lemma k_free_returns_to_pool_witness :
  exists p o', z_thread_aligned_alloc 4 20 (demo false, demo_pools HeapSpec.demo_mem 8) = Done p (demo false, o') /\
    pool_result {[500]} (fun _ => ∅) (demo_pools HeapSpec.demo_mem 8) 500 4 20 p o'.
Proof.
  destruct (k_free_returns_to_pool demo_ptr {[500]} (fun _ => ∅) (demo false) (demo_pools HeapSpec.demo_mem 8) 4 4 20)
    as (p & o' & E & HR & _).
  - apply demo_wf.
  - exact (demo_pools_ok _ _ 8 demo_empty).
  - intros [=].
  - apply demo_pool_request. lia.
  - exists p, o'. split; [exact E|exact HR].
Defined.

Lemma k_calloc_zeroes_witness :
  exists p o', k_calloc 5 4 (demo false, demo_pools HeapSpec.demo_mem 8) = Done p (demo false, o') /\
    (p <> NULL -> forall x, p <= x < p + 5 * 4 -> memory o' x = 0).
Proof.
  destruct (k_calloc_zeroes demo_ptr {[500]} (fun _ => ∅) (demo false) (demo_pools HeapSpec.demo_mem 8) 5 4)
    as (p & o' & E & _ & _ & HR).
  - exact (demo_pools_ok _ _ 8 demo_empty).
  - split; vm_compute; congruence.
  - split; vm_compute; congruence.
  - intros _. apply demo_pool_request. lia.
  - exists p, o'. split; [exact E|]. intros Hp. apply (HR Hp).
Defined.

Lemma statics_init_establishes_witness :
  exists k' o', statics_init [500] (demo false, demo_pools (fun _ => 0) 7) = Done 0 (k', o') /\
    pools_ok {[500]} (fun _ => ∅) o' /\ waitqs k' 7 = [].
Proof.
  destruct (statics_init_establishes demo_ptr (fun _ => 1000) [500] (demo_pools (fun _ => 0) 7) (demo false))
    as (k' & o' & E & Ho & Hw).
  - split.
    + apply NoDup_singleton.
    + intros h ->%list_elem_of_singleton. vm_compute. intuition congruence.
    + intros h _. by apply elem_of_singleton.
    + by intros h h' ->%list_elem_of_singleton ->%list_elem_of_singleton.
    + intros h _. exact HeapSpec.demo_args.
  - exists k', o'. split; [exact E|]. split; [|apply (Hw 500); left].
    by replace ({[500]} : gset Z) with (list_to_set [500] : gset Z) by set_solver.
Defined.

End KHeap.
