(* ===== verification/RbTree.v ===== *)
(** Red/black trees (lib/os/rb.c and include/zephyr/sys/rb.h).

    A node is two pointers and the low bit of the first one is the node's
    colour, as in the code, with [CONFIG_MISRA_SANE] off.  The operations run in
    a state and error monad over the tree, the memory of the nodes and the
    array [stack] on the C stack: reading or writing through a pointer that is
    no node (the null pointer among them), an index outside the array and an
    array element that was never written have no result.  A theorem that an
    operation has a result thus says that it makes none of these accesses.
    Loops run on fuel; the fuel given to them is the size of the array they
    fill or the length of the path they climb, and RbThm shows that it is
    enough.  [uint8_t side] is a [bool], [0U] being [false]. *)
From stdpp Require Import gmap.
From S2P Require Import Prelude.

Module RbTree.

Inductive rb_color := RED | BLACK.

#[export] Instance rb_color_eq_dec : EqDecision rb_color.
Proof. solve_decision. Defined.

Definition NULL : Z := 0.

Record rbnode := mk_node { child_0 : Z; child_1 : Z }.
Record rbtree := mk_tree { root : Z; max_depth : Z }.
Record state := mk_state { tree : rbtree; nodes : gmap Z rbnode; stack : list (option Z) }.

#[export] Instance set_root : Settable root := fun f t => mk_tree (f (root t)) (max_depth t).
#[export] Instance set_max_depth : Settable max_depth := fun f t => mk_tree (root t) (f (max_depth t)).
#[export] Instance set_tree : Settable tree := fun f s => mk_state (f (tree s)) (nodes s) (stack s).
#[export] Instance set_nodes : Settable nodes := fun f s => mk_state (tree s) (f (nodes s)) (stack s).
#[export] Instance set_stack : Settable stack := fun f s => mk_state (tree s) (nodes s) (f (stack s)).

(** ** The monad *)

Definition M (A : Type) : Type := state -> option (A * state).
Definition ret {A} (a : A) : M A := fun s => Some (a, s).
Definition fail {A} : M A := fun _ => None.
Definition bind {A B} (m : M A) (f : A -> M B) : M B := fun s =>
  match m s with Some (a, s') => f a s' | None => None end.
Definition gets {A} (f : state -> A) : M A := fun s => Some (f s, s).
Definition modify (f : state -> state) : M unit := fun s => Some (tt, f s).
Definition some_or_fail {A} (o : option A) : M A := match o with Some a => ret a | None => fail end.

Declare Scope rb_scope.
Notation "x <- m ;; c" := (bind m (fun x => c)) (at level 100, m at next level, right associativity) : rb_scope.
Notation "m ;;; c" := (bind m (fun _ => c)) (at level 100, right associativity) : rb_scope.
Open Scope rb_scope.

(** [n->children[i]], and a store to it. *)
Definition load_node (n : Z) : M rbnode := m <- gets nodes ;; some_or_fail (m !! n).
Definition store_node (n : Z) (v : rbnode) : M unit :=
  load_node n ;;; modify (fun s => s <| nodes ::= <[n := v]> |>).

(** [stack[i]], and a store to it. *)
Definition slot (i : Z) : M Z :=
  st <- gets stack ;;
  some_or_fail (if 0 <=? i then mjoin (st !! Z.to_nat i) else None).
Definition set_slot (i v : Z) : M unit :=
  st <- gets stack ;;
  if (0 <=? i) && (i <? Z.of_nat (length st))
  then modify (fun s => s <| stack ::= <[Z.to_nat i := Some v]> |>) else fail.

(** [struct rbnode *stack[tree->max_depth + 1]], not initialised. *)
Definition local_stack : M unit :=
  t <- gets tree ;; modify (fun s => s <| stack := replicate (Z.to_nat (max_depth t + 1)) None |>).

(** ** Nodes *)

Definition get_child (n : Z) (side : bool) : M Z :=
  v <- load_node n ;;
  if side then ret (child_1 v) else ret (Z.land (child_0 v) (Z.lnot 1)).

Definition set_child (n : Z) (side : bool) (val : Z) : M unit :=
  v <- load_node n ;;
  if side then store_node n (mk_node (child_0 v) val)
  else store_node n (mk_node (Z.lor val (Z.land (child_0 v) 1)) (child_1 v)).

Definition color_of (b : Z) : rb_color := if b =? 0 then RED else BLACK.
Definition color_bit (c : rb_color) : Z := match c with RED => 0 | BLACK => 1 end.

Definition get_color (n : Z) : M rb_color :=
  v <- load_node n ;; ret (color_of (Z.land (child_0 v) 1)).

Definition is_black (n : Z) : M bool := c <- get_color n ;; ret (bool_decide (c = BLACK)).
Definition is_red (n : Z) : M bool := c <- get_color n ;; ret (bool_decide (c = RED)).

Definition set_color (n : Z) (color : rb_color) : M unit :=
  v <- load_node n ;;
  store_node n (mk_node (Z.lor (Z.land (child_0 v) (Z.lnot 1)) (color_bit color)) (child_1 v)).

Definition get_side (parent child : Z) : M bool :=
  c <- get_child parent true ;; ret (c =? child).

(** [(n != NULL) && is_red(n)] and [(n == NULL) || is_black(n)]. *)
Definition nonnull_red (n : Z) : M bool := if n =? NULL then ret false else is_red n.
Definition null_or_black (n : Z) : M bool := if n =? NULL then ret true else is_black n.

Definition z_rb_child (node : Z) (side : bool) : M Z := get_child node side.
Definition z_rb_is_black (node : Z) : M bool := is_black node.

(** ** Rotation and the repair after an insertion *)

Definition rotate (stacksz : Z) : M unit :=
  parent <- slot (stacksz - 2) ;;
  child <- slot (stacksz - 1) ;;
  side <- get_side parent child ;;
  a <- get_child child side ;;
  b <- get_child child (negb side) ;;
  (if stacksz >=? 3 then
     grandparent <- slot (stacksz - 3) ;;
     gside <- get_side grandparent parent ;;
     set_child grandparent gside child
   else ret tt) ;;;
  set_child child side a ;;;
  set_child child (negb side) parent ;;;
  set_child parent side b ;;;
  set_slot (stacksz - 2) child ;;;
  set_slot (stacksz - 1) parent.

Fixpoint fix_extra_red_loop (fuel : nat) (stacksz : Z) : M unit :=
  match fuel with
  | O => fail
  | S fuel =>
    if stacksz >? 1 then
      node <- slot (stacksz - 1) ;;
      parent <- slot (stacksz - 2) ;;
      black <- is_black parent ;;
      if (black : bool) then ret tt else
      grandparent <- slot (stacksz - 3) ;;
      side <- get_side grandparent parent ;;
      aunt <- get_child grandparent (negb side) ;;
      red <- nonnull_red aunt ;;
      if (red : bool) then
        set_color grandparent RED ;;;
        set_color parent BLACK ;;;
        set_color aunt BLACK ;;;
        fix_extra_red_loop fuel (stacksz - 2)
      else
        parent_side <- get_side parent node ;;
        (if negb (eqb parent_side side) then rotate stacksz else ret tt) ;;;
        rotate (stacksz - 1) ;;;
        top <- slot (stacksz - 3) ;;
        set_color top BLACK ;;;
        below <- slot (stacksz - 2) ;;
        set_color below RED
    else
      top <- slot 0 ;;
      set_color top BLACK
  end.

Definition fix_extra_red (stacksz : Z) : M unit :=
  fix_extra_red_loop (S (Z.to_nat stacksz)) stacksz.

(** ** The repair after a removal *)

(** The loop body from the test of the sibling's children on; [up] is what
    follows [continue]. *)
Definition fix_missing_black_step (up : Z -> M unit) (stacksz null_node n : Z) (n_side : bool)
    (parent sib : Z) : M unit :=
  c0 <- get_child sib false ;;
  c1 <- get_child sib true ;;
  b0 <- null_or_black c0 ;;
  b1 <- (if (b0 : bool) then null_or_black c1 else ret false) ;;
  if (b1 : bool) then
    (if n =? null_node then set_child parent n_side NULL else ret tt) ;;;
    set_color sib RED ;;;
    pb <- is_black parent ;;
    if (pb : bool) then up (stacksz - 1) else set_color parent BLACK
  else
    outer <- get_child sib (negb n_side) ;;
    red <- nonnull_red outer ;;
    r <- (if (red : bool) then ret (sib, outer)
          else
            inner <- get_child sib n_side ;;
            set_slot (stacksz - 1) sib ;;;
            set_slot stacksz inner ;;;
            rotate (stacksz + 1) ;;;
            set_color sib RED ;;;
            set_color inner BLACK ;;;
            sib <- slot (stacksz - 1) ;;
            outer <- get_child sib (negb n_side) ;;
            set_slot (stacksz - 1) n ;;;
            ret (sib, outer)) ;;
    let '(sib, outer) := r in
    pc <- get_color parent ;;
    set_color sib pc ;;;
    set_color parent BLACK ;;;
    set_color outer BLACK ;;;
    set_slot (stacksz - 1) sib ;;;
    rotate stacksz ;;;
    if n =? null_node then set_child parent n_side NULL else ret tt.

Fixpoint fix_missing_black_loop (fuel : nat) (stacksz null_node : Z) : M unit :=
  match fuel with
  | O => fail
  | S fuel =>
    if stacksz >? 1 then
      n <- slot (stacksz - 1) ;;
      parent <- slot (stacksz - 2) ;;
      n_side <- get_side parent n ;;
      sib <- get_child parent (negb n_side) ;;
      black <- is_black sib ;;
      if negb black then
        set_slot (stacksz - 1) sib ;;;
        rotate stacksz ;;;
        set_color parent RED ;;;
        set_color sib BLACK ;;;
        set_slot stacksz n ;;;
        parent <- slot (stacksz - 1) ;;
        sib <- get_child parent (negb n_side) ;;
        fix_missing_black_step (fun sz => fix_missing_black_loop fuel sz null_node)
          (stacksz + 1) null_node n n_side parent sib
      else
        fix_missing_black_step (fun sz => fix_missing_black_loop fuel sz null_node)
          stacksz null_node n n_side parent sib
    else ret tt
  end.

Definition fix_missing_black (stacksz null_node : Z) : M unit :=
  fix_missing_black_loop (Z.to_nat stacksz) stacksz null_node.

(** ** Searching *)

Section Compare.

(** [tree->lessthan_fn], given by the user of the tree. *)
Context (lessthan_fn : Z -> Z -> bool).

Fixpoint find_and_stack_loop (fuel : nat) (node sz : Z) : M Z :=
  match fuel with
  | O => fail
  | S fuel =>
    top <- slot (sz - 1) ;;
    if top =? node then ret sz else
    let side := if lessthan_fn node top then false else true in
    ch <- get_child top side ;;
    if negb (ch =? NULL) then set_slot sz ch ;;; find_and_stack_loop fuel node (sz + 1)
    else ret sz
  end.

Definition find_and_stack (node : Z) : M Z :=
  t <- gets tree ;;
  st <- gets stack ;;
  set_slot 0 (root t) ;;;
  find_and_stack_loop (length st) node 1.

Fixpoint rb_contains_loop (fuel : nat) (n node : Z) : M bool :=
  match fuel with
  | O => fail
  | S fuel =>
    if negb (n =? NULL) && negb (n =? node) then
      n <- get_child n (lessthan_fn n node) ;; rb_contains_loop fuel n node
    else ret (n =? node)
  end.

Definition rb_contains (node : Z) : M bool :=
  t <- gets tree ;;
  rb_contains_loop (S (Z.to_nat (max_depth t))) (root t) node.

(** ** Insertion *)

Definition rb_insert (node : Z) : M unit :=
  set_child node false NULL ;;;
  set_child node true NULL ;;;
  t <- gets tree ;;
  if root t =? NULL then
    modify (fun s => s <| tree := (tree s) <| root := node |> <| max_depth := 1 |> |>) ;;;
    set_color node BLACK
  else
  local_stack ;;;
  stacksz <- find_and_stack node ;;
  parent <- slot (stacksz - 1) ;;
  let side := if lessthan_fn node parent then false else true in
  set_child parent side node ;;;
  set_color node RED ;;;
  set_slot stacksz node ;;;
  fix_extra_red (stacksz + 1) ;;;
  (if stacksz + 1 >? max_depth t
   then modify (fun s => s <| tree := (tree s) <| max_depth := stacksz + 1 |> |>) else ret tt) ;;;
  top <- slot 0 ;;
  modify (fun s => s <| tree := (tree s) <| root := top |> |>).

(** ** Removal *)

(** [while (get_child(node2, 1U) != NULL)]: down the right side, stacking. *)
Fixpoint stack_right (fuel : nat) (node2 stacksz : Z) : M (Z * Z) :=
  match fuel with
  | O => fail
  | S fuel =>
    ch <- get_child node2 true ;;
    if negb (ch =? NULL) then set_slot stacksz ch ;;; stack_right fuel ch (stacksz + 1)
    else ret (node2, stacksz)
  end.

(** The body of the [if] that swaps a node with two children with the biggest
    node of its left subtree; the new [stacksz]. *)
Definition swap_down (node stacksz : Z) : M Z :=
  let stacksz0 := stacksz in
  node2 <- get_child node false ;;
  hiparent <- (if stacksz >? 1 then slot (stacksz - 2) else ret NULL) ;;
  set_slot stacksz node2 ;;;
  st <- gets stack ;;
  r <- stack_right (length st) node2 (stacksz + 1) ;;
  let '(node2, stacksz) := r in
  loparent <- slot (stacksz - 2) ;;
  (if negb (hiparent =? NULL) then
     hside <- get_side hiparent node ;; set_child hiparent hside node2
   else modify (fun s => s <| tree := (tree s) <| root := node2 |> |>)) ;;;
  (if loparent =? node then
     l <- get_child node2 false ;;
     set_child node false l ;;;
     set_child node2 false node
   else
     lside <- get_side loparent node2 ;;
     set_child loparent lside node ;;;
     tmp <- get_child node false ;;
     l <- get_child node2 false ;;
     set_child node false l ;;;
     set_child node2 false tmp) ;;;
  r <- get_child node true ;;
  set_child node2 true r ;;;
  set_child node true NULL ;;;
  tmp <- slot (stacksz0 - 1) ;;
  top <- slot (stacksz - 1) ;;
  set_slot (stacksz0 - 1) top ;;;
  set_slot (stacksz - 1) tmp ;;;
  ctmp <- get_color node ;;
  c2 <- get_color node2 ;;
  set_color node c2 ;;;
  set_color node2 ctmp ;;;
  ret stacksz.

(** From the point where the node has one child at most. *)
Definition unlink (node stacksz : Z) : M unit :=
  l <- get_child node false ;;
  child <- (if l =? NULL then get_child node true else ret l) ;;
  if stacksz <? 2 then
    modify (fun s => s <| tree := (tree s) <| root := child |> |>) ;;;
    if negb (child =? NULL) then set_color child BLACK
    else modify (fun s => s <| tree := (tree s) <| max_depth := 0 |> |>)
  else
  parent <- slot (stacksz - 2) ;;
  (if child =? NULL then
     black <- is_black node ;;
     if (black : bool) then fix_missing_black stacksz node
     else side <- get_side parent node ;; set_child parent side NULL
   else
     side <- get_side parent node ;;
     set_child parent side child ;;;
     nred <- is_red node ;;
     red <- (if (nred : bool) then ret true else is_red child) ;;
     if (red : bool) then set_color child BLACK else ret tt) ;;;
  top <- slot 0 ;;
  modify (fun s => s <| tree := (tree s) <| root := top |> |>).

Definition rb_remove (node : Z) : M unit :=
  local_stack ;;;
  stacksz <- find_and_stack node ;;
  top <- slot (stacksz - 1) ;;
  if negb (node =? top) then ret tt else
  l <- get_child node false ;;
  r <- (if negb (l =? NULL) then get_child node true else ret NULL) ;;
  stacksz <- (if negb (l =? NULL) && negb (r =? NULL) then swap_down node stacksz else ret stacksz) ;;
  unlink node stacksz.

End Compare.

(** ** Traversal *)

Fixpoint z_rb_get_minmax_loop (fuel : nat) (n : Z) (side : bool) : M Z :=
  match fuel with
  | O => fail
  | S fuel =>
    if n =? NULL then ret n else
    ch <- get_child n side ;;
    if negb (ch =? NULL) then z_rb_get_minmax_loop fuel ch side else ret n
  end.

Definition z_rb_get_minmax (side : bool) : M Z :=
  t <- gets tree ;;
  z_rb_get_minmax_loop (S (Z.to_nat (max_depth t))) (root t) side.

Definition rb_get_min : M Z := z_rb_get_minmax false.
Definition rb_get_max : M Z := z_rb_get_minmax true.

(** [z_rb_walk] and the loop of [RB_FOR_EACH], over what the visitor or the
    loop body does to its own data of type [C]. *)
Fixpoint z_rb_walk {C} (fuel : nat) (visit_fn : Z -> C -> C) (node : Z) (cookie : C) : M C :=
  match fuel with
  | O => fail
  | S fuel =>
    if negb (node =? NULL) then
      l <- get_child node false ;;
      cookie <- z_rb_walk fuel visit_fn l cookie ;;
      let cookie := visit_fn node cookie in
      r <- get_child node true ;;
      z_rb_walk fuel visit_fn r cookie
    else ret cookie
  end.

Definition rb_walk {C} (visit_fn : Z -> C -> C) (cookie : C) : M C :=
  t <- gets tree ;;
  z_rb_walk (S (Z.to_nat (max_depth t))) visit_fn (root t) cookie.

(** [struct _rb_foreach], with the arrays that [alloca] gives it. *)
Record rb_foreach := mk_foreach { f_stack : list (option Z); f_is_left : list (option bool); f_top : Z }.

#[export] Instance set_f_top : Settable f_top := fun g f => mk_foreach (f_stack f) (f_is_left f) (g (f_top f)).

Definition RB_FOREACH_INIT (t : rbtree) : rb_foreach :=
  mk_foreach (replicate (Z.to_nat (max_depth t)) None) (replicate (Z.to_nat (max_depth t)) None) (-1).

Definition f_node (f : rb_foreach) : M Z :=
  some_or_fail (if 0 <=? f_top f then mjoin (f_stack f !! Z.to_nat (f_top f)) else None).
Definition f_left (f : rb_foreach) : M bool :=
  some_or_fail (if 0 <=? f_top f then mjoin (f_is_left f !! Z.to_nat (f_top f)) else None).

(** [f->top++; f->stack[f->top] = n; f->is_left[f->top] = is_left]. *)
Definition f_push (n : Z) (is_left : bool) (f : rb_foreach) : M rb_foreach :=
  let top := f_top f + 1 in
  if (0 <=? top) && (top <? Z.of_nat (length (f_stack f))) && (top <? Z.of_nat (length (f_is_left f)))
  then ret (mk_foreach (<[Z.to_nat top := Some n]> (f_stack f))
              (<[Z.to_nat top := Some is_left]> (f_is_left f)) top)
  else fail.

Fixpoint stack_left_loop (fuel : nat) (n : Z) (f : rb_foreach) : M rb_foreach :=
  match fuel with
  | O => fail
  | S fuel =>
    n <- get_child n false ;;
    if negb (n =? NULL) then f <- f_push n true f ;; stack_left_loop fuel n f else ret f
  end.

Definition stack_left_limb (n : Z) (f : rb_foreach) : M (Z * rb_foreach) :=
  f <- f_push n false f ;;
  f <- stack_left_loop (length (f_stack f)) n f ;;
  n <- f_node f ;;
  ret (n, f).

(** [while ((f->top > 0) && (f->is_left[f->top] == 0U)) f->top--]. *)
Fixpoint climb_right (fuel : nat) (f : rb_foreach) : M rb_foreach :=
  match fuel with
  | O => fail
  | S fuel =>
    if f_top f >? 0 then
      left <- f_left f ;;
      if (left : bool) then ret f else climb_right fuel (f <| f_top ::= Z.pred |>)
    else ret f
  end.

Definition z_rb_foreach_next (f : rb_foreach) : M (Z * rb_foreach) :=
  t <- gets tree ;;
  if root t =? NULL then ret (NULL, f) else
  if f_top f =? -1 then stack_left_limb (root t) f else
  top <- f_node f ;;
  n <- get_child top true ;;
  if negb (n =? NULL) then stack_left_limb n f else
  left <- f_left f ;;
  if (left : bool) then
    let f := f <| f_top ::= Z.pred |> in
    n <- f_node f ;; ret (n, f)
  else
    f <- climb_right (length (f_stack f)) f ;;
    let f := f <| f_top ::= Z.pred |> in
    if f_top f >=? 0 then n <- f_node f ;; ret (n, f) else ret (NULL, f).

Fixpoint for_each_loop {C} (fuel : nat) (body : Z -> C -> C) (f : rb_foreach) (c : C) : M C :=
  match fuel with
  | O => fail
  | S fuel =>
    r <- z_rb_foreach_next f ;;
    let '(node, f) := r in
    if negb (node =? NULL) then for_each_loop fuel body f (body node c) else ret c
  end.

Definition RB_FOR_EACH {C} (body : Z -> C -> C) (c : C) : M C :=
  t <- gets tree ;;
  m <- gets nodes ;;
  for_each_loop (S (size m)) body (RB_FOREACH_INIT t) c.

End RbTree.
