(* ===== verification/RbInv.v ===== *)
(** Red/black trees: the trees that the nodes in memory represent, their
    zippers, and the effect of the primitives of rb.c on them.

    [tr] is the tree a pointer stands for and [rep] says that memory holds it.
    The path that the code keeps on its stack is a list of frames, [zip] puts a
    subtree back into its context, and [holds] ties the state of an operation
    to a tree and to the contents of the stack.  [valid] and [kvalid] are the
    red/black rules of a tree and of a context with a hole.  A node is written
    [mk s c n x y] with the children [x] on side [s] and [y] on the other, so
    that a statement covers its mirror image. *)
From stdpp Require Import gmap.
From S2P Require Import Prelude RbTree.

Module RbInv.
Import RbTree.

(** ** Reasoning about the monad *)

Definition wp {A} (m : M A) (s : state) (Q : A -> state -> Prop) : Prop :=
  exists a s', m s = Some (a, s') /\ Q a s'.

Lemma wp_bind {A B} (m : M A) (f : A -> M B) s Q :
  wp m s (fun a s' => wp (f a) s' Q) -> wp (bind m f) s Q.
Proof. intros (a & s' & E & H). destruct H as (b & s'' & E' & H). exists b, s''. unfold bind. by rewrite E. Qed.

Lemma wp_assoc {A B C} (m : M A) (f : A -> M B) (g : B -> M C) s Q :
  wp (bind (bind m f) g) s Q -> wp (bind m (fun a => bind (f a) g)) s Q.
Proof. unfold wp, bind. by destruct (m s) as [[a s']|]. Qed.

Lemma wp_ret {A} (a : A) s Q : Q a s -> wp (ret a) s Q.
Proof. intros H. by exists a, s. Qed.

Lemma wp_gets {A} (f : state -> A) s Q : Q (f s) s -> wp (gets f) s Q.
Proof. intros H. by exists (f s), s. Qed.

Lemma wp_modify f s (Q : unit -> state -> Prop) : Q tt (f s) -> wp (modify f) s Q.
Proof. intros H. by exists tt, (f s). Qed.

Lemma wp_weaken {A} (m : M A) s (Q Q' : A -> state -> Prop) :
  wp m s Q -> (forall a s', Q a s' -> Q' a s') -> wp m s Q'.
Proof. intros (a & s' & E & H) HQ. exists a, s'. auto. Qed.

Lemma wp_load n v s Q : nodes s !! n = Some v -> Q v s -> wp (load_node n) s Q.
Proof. intros E H. exists v, s. unfold load_node, bind, gets. by rewrite E. Qed.

Lemma wp_store n v s (Q : unit -> state -> Prop) :
  is_Some (nodes s !! n) -> Q tt (s <| nodes ::= <[n := v]> |>) -> wp (store_node n v) s Q.
Proof.
  intros [w E] H. unfold store_node. apply wp_bind. eapply wp_load; [done|]. by apply wp_modify.
Qed.

(** ** Trees *)

Inductive tr := Leaf | Node (c : rb_color) (l : tr) (n : Z) (r : tr).

#[export] Instance tr_eq_dec : EqDecision tr.
Proof. solve_decision. Defined.

Definition ptr (t : tr) : Z := match t with Leaf => NULL | Node _ _ n _ => n end.
Definition tcol (t : tr) : rb_color := match t with Leaf => BLACK | Node c _ _ _ => c end.

Fixpoint flatten (t : tr) : list Z :=
  match t with Leaf => [] | Node _ l n r => flatten l ++ n :: flatten r end.

Fixpoint height (t : tr) : nat :=
  match t with Leaf => O | Node _ l _ r => S (height l `max` height r) end.

(** The words of a node of colour [c] with child [x] on side [s]. *)
Definition nv (s : bool) (c : rb_color) (x y : Z) : rbnode :=
  if s then mk_node (y + color_bit c) x else mk_node (x + color_bit c) y.

Definition mk (s : bool) (c : rb_color) (n : Z) (x y : tr) : tr :=
  if s then Node c y n x else Node c x n y.

Fixpoint rep (m : gmap Z rbnode) (t : tr) : Prop :=
  match t with
  | Leaf => True
  | Node c l n r => m !! n = Some (nv false c (ptr l) (ptr r)) /\ rep m l /\ rep m r
  end.

Lemma mk_flip s c n x y : mk s c n x y = mk (negb s) c n y x.
Proof. by destruct s. Qed.

Lemma mk_cases s t : t = Leaf \/ exists c n x y, t = mk s c n x y.
Proof. destruct t as [|c l n r]; [by left|right]. destruct s; [by exists c, n, r, l|by exists c, n, l, r]. Qed.

Lemma mk_inj s c n x y c' n' x' y' :
  mk s c n x y = mk s c' n' x' y' -> c = c' /\ n = n' /\ x = x' /\ y = y'.
Proof. by destruct s; intros [= -> -> -> ->]. Qed.

Lemma mk_turn s s' c n x y : exists a b, mk s c n x y = mk s' c n a b.
Proof. destruct s, s'; by eexists _, _. Qed.

Lemma ptr_mk s c n x y : ptr (mk s c n x y) = n.
Proof. by destruct s. Qed.

Lemma tcol_mk s c n x y : tcol (mk s c n x y) = c.
Proof. by destruct s. Qed.

Lemma height_mk s c n x y : height (mk s c n x y) = S (height x `max` height y).
Proof. destruct s; simpl; lia. Qed.

Lemma flatten_mk s c n x y : flatten (mk s c n x y) ≡ₚ n :: flatten x ++ flatten y.
Proof. destruct s; simpl; solve_Permutation. Qed.

Lemma rep_mk m s c n x y :
  rep m (mk s c n x y) <-> m !! n = Some (nv s c (ptr x) (ptr y)) /\ rep m x /\ rep m y.
Proof. destruct s; simpl; naive_solver. Qed.

Lemma rep_ext m m' t : (forall n, n ∈ flatten t -> m' !! n = m !! n) -> rep m t -> rep m' t.
Proof.
  induction t as [|c l IHl n r IHr]; simpl; [done|]. intros Hm (E & Hl & Hr). split_and!.
  - rewrite Hm by set_solver. done.
  - apply IHl; [|done]. intros. apply Hm. set_solver.
  - apply IHr; [|done]. intros. apply Hm. set_solver.
Qed.

Lemma rep_insert_ne m n v t : n ∉ flatten t -> rep m t -> rep (<[n := v]> m) t.
Proof. intros Hn. apply rep_ext. intros x Hx. apply lookup_insert_ne. congruence. Qed.

(** ** Contexts *)

Record frame := Fr { f_side : bool; f_col : rb_color; f_name : Z; f_sib : tr }.

Definition plug (t : tr) (f : frame) : tr := mk (f_side f) (f_col f) (f_name f) t (f_sib f).
Definition zip (t : tr) (k : list frame) : tr := fold_left plug k t.
Definition names (k : list frame) : list Z := f_name <$> k.
Definition knodes (k : list frame) : list Z := f ← k; f_name f :: flatten (f_sib f).

Fixpoint repc (m : gmap Z rbnode) (p : Z) (k : list frame) : Prop :=
  match k with
  | [] => True
  | Fr s c n sib :: k => m !! n = Some (nv s c p (ptr sib)) /\ rep m sib /\ repc m n k
  end.

Lemma zip_rep m t k : rep m (zip t k) <-> rep m t /\ repc m (ptr t) k.
Proof.
  revert t. induction k as [|[s c n sib] k IH]; intros t; simpl; [naive_solver|].
  rewrite IH. unfold plug; simpl. rewrite rep_mk, ptr_mk. naive_solver.
Qed.

Lemma flatten_zip t k : flatten (zip t k) ≡ₚ flatten t ++ knodes k.
Proof.
  revert t. induction k as [|[s c n sib] k IH]; intros t; simpl; [by rewrite app_nil_r|].
  rewrite IH. unfold plug; simpl. rewrite flatten_mk. solve_Permutation.
Qed.

Lemma repc_ext m m' p k : (forall n, n ∈ knodes k -> m' !! n = m !! n) -> repc m p k -> repc m' p k.
Proof.
  revert p. induction k as [|[s c n sib] k IH]; intros p; simpl; [done|].
  unfold knodes; simpl. fold (knodes k). intros Hm (E & Hs & Hk). split_and!.
  - rewrite Hm by set_solver. done.
  - eapply rep_ext; [|done]. intros. apply Hm. set_solver.
  - apply IH; [|done]. intros. apply Hm. set_solver.
Qed.

Lemma flatten_zip_eq t t' k : flatten t = flatten t' -> flatten (zip t k) = flatten (zip t' k).
Proof.
  revert t t'. induction k as [|[s c n sib] k IH]; intros t t' E; simpl; [done|].
  apply IH. unfold plug, mk; simpl. destruct s; simpl; by rewrite E.
Qed.

Lemma last_zip t k : last (ptr t :: names k) = Some (ptr (zip t k)).
Proof.
  revert t. induction k as [|[s c n sib] k IH]; intros t; [done|].
  change (names (Fr s c n sib :: k)) with (n :: names k). simpl zip. rewrite <- IH.
  unfold plug; simpl. rewrite ptr_mk. done.
Qed.

Lemma zip_app t k k' : zip t (k ++ k') = zip (zip t k) k'.
Proof. apply fold_left_app. Qed.

(** The same tree with the other child of the lowest frame in focus. *)
Lemma zip_sib t s c n sib k : zip t (Fr s c n sib :: k) = zip sib (Fr (negb s) c n t :: k).
Proof. by destruct s. Qed.

Lemma flatten_recolour s c c' n x y k : flatten (zip (mk s c n x y) k) = flatten (zip (mk s c' n x y) k).
Proof. apply flatten_zip_eq. by destruct s. Qed.

(** ** The bits of a node's first word *)

Definition node_ptr (n : Z) : Prop := n <> NULL /\ Z.Even n.

Lemma even_land x c : Z.Even x -> Z.land (x + color_bit c) (Z.lnot 1) = x.
Proof.
  intros [y ->]. rewrite <- Z.ldiff_land. change 1 with (Z.ones 1). rewrite Z.ldiff_ones_r by lia.
  rewrite Z.shiftl_mul_pow2, Z.shiftr_div_pow2 by lia. change (2 ^ 1) with 2.
  destruct c; simpl color_bit; Z.to_euclidean_division_equations; lia.
Qed.

Lemma land_1 x : Z.land x 1 = x mod 2.
Proof. change 1 with (Z.ones 1). by rewrite Z.land_ones. Qed.

Lemma even_bit x c : Z.Even x -> Z.land (x + color_bit c) 1 = color_bit c.
Proof. intros [y ->]. rewrite land_1. destruct c; simpl; Z.to_euclidean_division_equations; lia. Qed.

Lemma even_lor x b : Z.Even x -> Z.lor x (color_bit b) = x + color_bit b.
Proof.
  intros [y ->]. destruct b; simpl; [rewrite Z.lor_0_r; lia|].
  rewrite (Z.add_nocarry_lxor (2 * y) 1), Z.lxor_lor; [done|..].
  all: rewrite land_1; Z.to_euclidean_division_equations; lia.
Qed.

Lemma color_of_bit c : color_of (color_bit c) = c.
Proof. by destruct c. Qed.

Lemma bit_color w : color_bit (color_of (Z.land w 1)) = Z.land w 1.
Proof.
  rewrite land_1. unfold color_of. destruct (Z.eqb_spec (w mod 2) 0); simpl; [done|].
  Z.to_euclidean_division_equations; lia.
Qed.

(** ** The primitives on one node *)

Lemma wp_get_child_nv n s c x y S Q :
  nodes S !! n = Some (nv s c x y) -> Z.Even x -> Q x S -> wp (get_child n s) S Q.
Proof.
  intros E Hx H. unfold get_child. apply wp_bind. eapply wp_load; [done|].
  destruct s; apply wp_ret; simpl; [done|]. by rewrite even_land.
Qed.

Lemma nv_flip s c x y : nv s c x y = nv (negb s) c y x.
Proof. by destruct s. Qed.

Lemma wp_get_color_nv n s c x y S Q :
  nodes S !! n = Some (nv s c x y) -> Z.Even x -> Z.Even y -> Q c S -> wp (get_color n) S Q.
Proof.
  intros E Hx Hy H. unfold get_color. apply wp_bind. eapply wp_load; [done|]. apply wp_ret.
  destruct s; simpl; by rewrite even_bit, color_of_bit.
Qed.

Lemma wp_set_child_nv n s c x y v S (Q : unit -> state -> Prop) :
  nodes S !! n = Some (nv s c x y) -> Z.Even x -> Z.Even v ->
  Q tt (S <| nodes ::= <[n := nv s c v y]> |>) -> wp (set_child n s v) S Q.
Proof.
  intros E Hx Hv H. unfold set_child. apply wp_bind. eapply wp_load; [done|].
  destruct s; apply wp_store; try done; simpl; by rewrite even_bit, even_lor.
Qed.

Lemma wp_set_color_nv n s c c' x y S (Q : unit -> state -> Prop) :
  nodes S !! n = Some (nv s c x y) -> Z.Even x -> Z.Even y ->
  Q tt (S <| nodes ::= <[n := nv s c' x y]> |>) -> wp (set_color n c') S Q.
Proof.
  intros E Hx Hy H. unfold set_color. apply wp_bind. eapply wp_load; [done|]. apply wp_store; [done|].
  destruct s; simpl; by rewrite even_land, even_lor.
Qed.

(** ** The stack *)

(** [l], top first, fills the array from its start. *)
Definition stk {A} (st : list (option A)) (l : list A) : Prop := exists rest, st = (Some <$> rev l) ++ rest.

Lemma stk_lookup {A} (st : list (option A)) a x b : stk st (a ++ x :: b) -> st !! length b = Some (Some x).
Proof.
  intros [rest ->]. rewrite rev_app_distr, fmap_app, <- app_assoc. simpl.
  rewrite fmap_app, <- !app_assoc. rewrite lookup_app_r by (rewrite length_fmap, length_rev; lia).
  by rewrite length_fmap, length_rev, Nat.sub_diag.
Qed.

Lemma stk_replace {A} (st : list (option A)) a x b v : stk st (a ++ x :: b) -> stk (<[length b := Some v]> st) (a ++ v :: b).
Proof.
  intros [rest ->]. exists rest. rewrite !rev_app_distr, !fmap_app, <- !app_assoc. simpl.
  rewrite !fmap_app, <- !app_assoc. simpl.
  rewrite insert_app_r_alt by (rewrite length_fmap, length_rev; lia).
  by rewrite length_fmap, length_rev, Nat.sub_diag.
Qed.

Lemma stk_push {A} (st : list (option A)) b v : stk st b -> (length b < length st)%nat -> stk (<[length b := Some v]> st) (v :: b).
Proof.
  intros [rest ->] Hl. rewrite length_app, length_fmap, length_rev in Hl.
  destruct rest as [|w rest]; [simpl in Hl; lia|]. exists rest.
  rewrite insert_app_r_alt by (rewrite length_fmap, length_rev; lia).
  rewrite length_fmap, length_rev, Nat.sub_diag. simpl. by rewrite fmap_app, <- app_assoc.
Qed.

Lemma stk_drop {A} (st : list (option A)) a b : stk st (a ++ b) -> stk st b.
Proof. intros [rest ->]. rewrite rev_app_distr, fmap_app, <- app_assoc. by eexists. Qed.

Lemma stk_length {A} (st : list (option A)) l : stk st l -> (length l <= length st)%nat.
Proof. intros [rest ->]. rewrite length_app, length_fmap, length_rev. lia. Qed.

Lemma wp_slot st a x b i s Q :
  stk st (a ++ x :: b) -> stack s = st -> i = Z.of_nat (length b) -> Q x s -> wp (slot i) s Q.
Proof.
  intros Hst <- -> H. exists x, s. split; [|done]. unfold slot, bind, gets.
  rewrite (proj2 (Z.leb_le _ _)) by lia. rewrite Nat2Z.id. by rewrite (stk_lookup _ _ _ _ Hst).
Qed.

Lemma wp_set_slot i v s (Q : unit -> state -> Prop) :
  0 <= i < Z.of_nat (length (stack s)) -> Q tt (s <| stack ::= <[Z.to_nat i := Some v]> |>) ->
  wp (set_slot i v) s Q.
Proof.
  intros Hi H. eexists tt, _. split; [|done]. unfold set_slot, bind, gets.
  rewrite (proj2 (Z.leb_le _ _)), (proj2 (Z.ltb_lt _ _)) by lia. done.
Qed.

(** ** States that hold a tree *)

Lemma ptr_in t : t <> Leaf -> ptr t ∈ flatten t.
Proof. destruct t; [done|]. simpl. set_solver. Qed.

Lemma ptr_even t : Forall node_ptr (flatten t) -> Z.Even (ptr t).
Proof.
  destruct t as [|c l n r]; simpl; [intros _; by exists 0|]. intros H.
  apply Forall_app in H as [_ H]. apply Forall_cons in H as [[_ ?] _]. done.
Qed.

Lemma ptr_null t : Forall node_ptr (flatten t) -> (ptr t =? NULL) = bool_decide (t = Leaf).
Proof.
  intros H. destruct t as [|c l n r]; [done|]. rewrite bool_decide_eq_false_2 by done.
  apply Z.eqb_neq. pose proof (proj1 (Forall_forall _ _) H n) as Hn. simpl in *.
  destruct Hn; set_solver.
Qed.

Lemma zip_disjoint t k z : NoDup (flatten (zip t k)) -> z ∈ flatten t -> z ∉ knodes k.
Proof. rewrite flatten_zip, NoDup_app. naive_solver. Qed.

Lemma focus_nodup s c n x y k :
  NoDup (flatten (zip (mk s c n x y) k)) ->
  (n ∉ flatten x /\ n ∉ flatten y /\ n ∉ knodes k) /\
  (forall z, z ∈ flatten x -> z ∉ flatten y /\ z ∉ knodes k) /\
  (forall z, z ∈ flatten y -> z ∉ knodes k).
Proof.
  rewrite flatten_zip, flatten_mk. simpl. rewrite <- app_assoc, NoDup_cons, !NoDup_app. set_solver.
Qed.

Lemma focus_nodup2 s c n s' c' n' x y z k :
  NoDup (flatten (zip (mk s c n (mk s' c' n' x y) z) k)) ->
  n <> n' /\ (n ∉ flatten x /\ n ∉ flatten y /\ n ∉ flatten z /\ n ∉ knodes k) /\
  (n' ∉ flatten x /\ n' ∉ flatten y /\ n' ∉ flatten z /\ n' ∉ knodes k).
Proof.
  intros H. destruct (focus_nodup _ _ _ _ _ _ H) as ((Hx & Hz & Hk) & _).
  rewrite flatten_mk in Hx.
  destruct (focus_nodup s' c' n' x y (Fr s c n z :: k) H) as ((Hx' & Hy' & Hk') & _).
  unfold knodes in Hk'; simpl in Hk'. fold (knodes k) in Hk'. set_solver.
Qed.

Lemma Forall_perm_focus (P : Z -> Prop) s c n x y k :
  Forall P (flatten (zip (mk s c n x y) k)) <->
  P n /\ Forall P (flatten x) /\ Forall P (flatten y) /\ Forall P (knodes k).
Proof. rewrite flatten_zip, flatten_mk. simpl. rewrite Forall_cons, !Forall_app. tauto. Qed.

Section Holds.

(** The memory before the operation, the nodes it may write and the size of
    its stack. *)
Context (m0 : gmap Z rbnode) (N : list Z) (len : nat).

Record holds (T : rbtree) (s : state) (t : tr) (l : list Z) : Prop := {
  h_tree : tree s = T;
  h_rep : rep (nodes s) t;
  h_nodup : NoDup (flatten t);
  h_ptrs : Forall node_ptr (flatten t);
  h_sub : flatten t ⊆ N;
  h_out : forall x, x ∉ N -> nodes s !! x = m0 !! x;
  h_dom : forall x, is_Some (nodes s !! x) <-> is_Some (m0 !! x);
  h_stk : stk (stack s) l;
  h_len : length (stack s) = len
}.

Lemma holds_nodes T s t l s' t' :
  holds T s t l -> tree s' = tree s -> stack s' = stack s ->
  rep (nodes s') t' -> NoDup (flatten t') -> flatten t' ⊆ flatten t ->
  (forall x, x ∉ flatten t -> nodes s' !! x = nodes s !! x) ->
  (forall x, is_Some (nodes s' !! x) <-> is_Some (nodes s !! x)) ->
  holds T s' t' l.
Proof.
  intros [] Et Es Hr Hn Hs Ho Hd. split; rewrite ?Et, ?Es; try done.
  - rewrite Forall_forall in h_ptrs0 |- *. auto.
  - set_solver.
  - intros x Hx. rewrite Ho; auto.
  - intros x. by rewrite Hd.
Qed.

Lemma is_Some_insert (m : gmap Z rbnode) n v :
  is_Some (m !! n) -> forall x, is_Some (<[n := v]> m !! x) <-> is_Some (m !! x).
Proof. intros Hv x. destruct (decide (n = x)) as [->|]; simplify_map_eq; [|done]. naive_solver. Qed.

Lemma holds_insert T s t l n v t' :
  holds T s t l -> n ∈ flatten t -> is_Some (nodes s !! n) ->
  rep (<[n := v]> (nodes s)) t' -> NoDup (flatten t') -> flatten t' ⊆ flatten t ->
  holds T (s <| nodes ::= <[n := v]> |>) t' l.
Proof.
  intros H Hn Hv Hr Hd Hs. eapply holds_nodes; try done.
  - intros x Hx. apply lookup_insert_ne. congruence.
  - by apply is_Some_insert.
Qed.

(** What [holds] says of the node in focus. *)
Lemma focus_at T s l sd c n x y k :
  holds T s (zip (mk sd c n x y) k) l ->
  nodes s !! n = Some (nv sd c (ptr x) (ptr y)) /\ Z.Even (ptr x) /\ Z.Even (ptr y) /\
  rep (nodes s) x /\ rep (nodes s) y /\ repc (nodes s) n k /\
  n ∈ flatten (zip (mk sd c n x y) k).
Proof.
  intros []. apply zip_rep in h_rep0 as [Hr Hk]. rewrite ptr_mk in Hk. apply rep_mk in Hr as (E & Hx & Hy).
  apply Forall_perm_focus in h_ptrs0 as (? & ? & ? & ?). split_and!; try done; try by apply ptr_even.
  rewrite flatten_zip, flatten_mk. set_solver.
Qed.

Lemma wp_child_in T s l sd c n x y k Q :
  holds T s (zip (mk sd c n x y) k) l -> Q (ptr x) s -> wp (get_child n sd) s Q.
Proof. intros H HQ. apply focus_at in H as (E & Hx & Hy & _). by eapply wp_get_child_nv. Qed.

Lemma wp_child_out T s l sd c n x y k Q :
  holds T s (zip (mk sd c n x y) k) l -> Q (ptr y) s -> wp (get_child n (negb sd)) s Q.
Proof. rewrite mk_flip. apply wp_child_in. Qed.

Lemma wp_color T s l sd c n x y k Q :
  holds T s (zip (mk sd c n x y) k) l -> Q c s -> wp (get_color n) s Q.
Proof. intros H HQ. apply focus_at in H as (E & Hx & Hy & _). by eapply wp_get_color_nv. Qed.

Lemma wp_is_black T s l sd c n x y k Q :
  holds T s (zip (mk sd c n x y) k) l -> Q (bool_decide (c = BLACK)) s -> wp (is_black n) s Q.
Proof. intros H HQ. apply wp_bind. eapply wp_color; [done|]. by apply wp_ret. Qed.

Lemma wp_is_red T s l sd c n x y k Q :
  holds T s (zip (mk sd c n x y) k) l -> Q (bool_decide (c = RED)) s -> wp (is_red n) s Q.
Proof. intros H HQ. apply wp_bind. eapply wp_color; [done|]. by apply wp_ret. Qed.

(** The tests for a null pointer or a colour, on a subtree in focus. *)
Lemma wp_nonnull_red T s l t k Q :
  holds T s (zip t k) l -> Q (bool_decide (tcol t = RED)) s -> wp (nonnull_red (ptr t)) s Q.
Proof.
  intros H HQ. unfold nonnull_red. rewrite ptr_null.
  2:{ pose proof (h_ptrs _ _ _ _ H) as Hp. rewrite flatten_zip in Hp. by apply Forall_app in Hp as [? _]. }
  destruct (mk_cases false t) as [->|(c & n & x & y & ->)]; [by apply wp_ret|].
  rewrite bool_decide_eq_false_2 by done. eapply wp_is_red; [done|]. done.
Qed.

Lemma wp_null_or_black T s l t k Q :
  holds T s (zip t k) l -> Q (bool_decide (tcol t = BLACK)) s -> wp (null_or_black (ptr t)) s Q.
Proof.
  intros H HQ. unfold null_or_black. rewrite ptr_null.
  2:{ pose proof (h_ptrs _ _ _ _ H) as Hp. rewrite flatten_zip in Hp. by apply Forall_app in Hp as [? _]. }
  destruct (mk_cases false t) as [->|(c & n & x & y & ->)]; [by apply wp_ret|].
  rewrite bool_decide_eq_false_2 by done. eapply wp_is_black; [done|]. done.
Qed.

(** A child that is a node is on the side where it hangs. *)
Lemma wp_get_side T s l sd c n x y k p Q :
  holds T s (zip (mk sd c n x y) k) l -> x <> Leaf -> p = ptr x -> Q sd s -> wp (get_side n p) s Q.
Proof.
  intros H Hx -> HQ. pose proof (focus_nodup _ _ _ _ _ _ (h_nodup _ _ _ _ H)) as (_ & Hd & _).
  pose proof (h_ptrs _ _ _ _ H) as Hp. apply Forall_perm_focus in Hp as (_ & Hpx & _).
  unfold get_side. apply wp_bind. destruct sd.
  - eapply wp_child_in; [done|]. apply wp_ret. by rewrite Z.eqb_refl.
  - eapply (wp_child_out _ _ _ false); [done|]. apply wp_ret.
    rewrite (proj2 (Z.eqb_neq _ _)); [done|]. intros E.
    pose proof (proj1 (Forall_forall _ _) Hpx _ (ptr_in _ Hx)) as [Hnn _].
    destruct (mk_cases false y) as [->|(c' & n' & a & b & ->)]; [by rewrite <- E in Hnn|].
    destruct (Hd _ (ptr_in _ Hx)) as [Hy _]. apply Hy. rewrite <- E. apply ptr_in. done.
Qed.

Lemma wp_set_color T s l sd c c' n x y k (Q : unit -> state -> Prop) :
  holds T s (zip (mk sd c n x y) k) l ->
  (forall s', holds T s' (zip (mk sd c' n x y) k) l -> Q tt s') -> wp (set_color n c') s Q.
Proof.
  intros H HQ. pose proof (focus_at _ _ _ _ _ _ _ _ _ H) as (E & Hx & Hy & Rx & Ry & Rk & Hin).
  eapply wp_set_color_nv; [done..|]. apply HQ.
  destruct (focus_nodup _ _ _ _ _ _ (h_nodup _ _ _ _ H)) as ((? & ? & ?) & _).
  assert (flatten (zip (mk sd c' n x y) k) = flatten (zip (mk sd c n x y) k)) as Hf
    by (apply flatten_zip_eq; by destruct sd).
  eapply holds_insert; [done..| | |]; rewrite ?Hf; [|by apply (h_nodup _ _ _ _ H)|done].
  apply zip_rep. rewrite ptr_mk, rep_mk. split_and!; [by simplify_map_eq|by apply rep_insert_ne..|].
  eapply repc_ext; [|done]. intros z Hz. apply lookup_insert_ne. congruence.
Qed.

(** Replacing a child by a tree that is part of the old one, or by nothing. *)
Lemma wp_set_child T s l sd c n x x' y k p (Q : unit -> state -> Prop) :
  holds T s (zip (mk sd c n x y) k) l ->
  rep (nodes s) x' -> NoDup (flatten x') -> flatten x' ⊆ flatten x -> p = ptr x' ->
  (forall s', holds T s' (zip (mk sd c n x' y) k) l ->
     (forall z, z <> n -> nodes s' !! z = nodes s !! z) -> Q tt s') -> wp (set_child n sd p) s Q.
Proof.
  intros H Rx' Hd' Hs' -> HQ. pose proof (focus_at _ _ _ _ _ _ _ _ _ H) as (E & Hx & Hy & Rx & Ry & Rk & Hin).
  pose proof (h_ptrs _ _ _ _ H) as Hp. apply Forall_perm_focus in Hp as (_ & Hpx & _).
  assert (Z.Even (ptr x')) as Hx'.
  { apply ptr_even. rewrite Forall_forall in Hpx |- *. auto. }
  eapply wp_set_child_nv; [done..|].
  apply HQ; [|intros z Hz; simpl; by rewrite lookup_insert_ne].
  pose proof (h_nodup _ _ _ _ H) as Hnd.
  destruct (focus_nodup _ _ _ _ _ _ Hnd) as ((? & ? & ?) & Hxd & Hyd).
  eapply holds_insert; [done..| | |].
  - apply zip_rep. rewrite ptr_mk, rep_mk. split_and!; [by simplify_map_eq|apply rep_insert_ne; [set_solver|done]..|].
    eapply repc_ext; [|done]. intros z Hz. apply lookup_insert_ne. congruence.
  - rewrite flatten_zip, flatten_mk in Hnd |- *. simpl in *. rewrite <- app_assoc in Hnd |- *.
    rewrite NoDup_cons, !NoDup_app in Hnd. rewrite NoDup_cons, !NoDup_app. set_solver.
  - rewrite !flatten_zip, !flatten_mk. set_solver.
Qed.

(** Stack operations. *)
Lemma wp_slot_at T s t l a x b i Q :
  holds T s t l -> l = a ++ x :: b -> i = Z.of_nat (length b) -> Q x s -> wp (slot i) s Q.
Proof. intros H -> -> HQ. eapply wp_slot; [apply (h_stk _ _ _ _ H)|done..]. Qed.

Lemma wp_slot_replace T s t l a x b i v (Q : unit -> state -> Prop) :
  holds T s t l -> l = a ++ x :: b -> i = Z.of_nat (length b) ->
  (forall s', holds T s' t (a ++ v :: b) -> Q tt s') -> wp (set_slot i v) s Q.
Proof.
  intros H -> -> HQ. pose proof (h_stk _ _ _ _ H) as Hst. pose proof (stk_length _ _ Hst) as Hl.
  rewrite length_app in Hl. simpl in Hl. apply wp_set_slot; [lia|]. apply HQ.
  destruct H. split; simpl; try done; rewrite ?Nat2Z.id; [by eapply stk_replace|by rewrite length_insert].
Qed.

Lemma wp_slot_push T s t l i v (Q : unit -> state -> Prop) :
  holds T s t l -> (length l < len)%nat -> i = Z.of_nat (length l) ->
  (forall s', holds T s' t (v :: l) -> Q tt s') -> wp (set_slot i v) s Q.
Proof.
  intros H Hl -> HQ. pose proof (h_len _ _ _ _ H) as Hlen. apply wp_set_slot; [lia|]. apply HQ.
  destruct H. split; simpl; try done; rewrite ?Nat2Z.id; [apply stk_push; [done|lia]|by rewrite length_insert].
Qed.

Lemma wp_slot_0 T s t l x Q : holds T s t l -> last l = Some x -> Q x s -> wp (slot 0) s Q.
Proof.
  intros H Hl HQ. apply last_Some in Hl as [l' ->]. by eapply (wp_slot_at _ _ _ _ l' x []).
Qed.

(** A new node, not yet part of the tree, becomes the child of [p]. *)
Lemma wp_attach T s l sd c p y k node c0 (Q : unit -> state -> Prop) :
  holds T s (zip (mk sd c p Leaf y) k) l -> nodes s !! node = Some (nv false c0 NULL NULL) ->
  node_ptr node -> node ∈ N -> node ∉ flatten (zip (mk sd c p Leaf y) k) ->
  (forall s', holds T s' (zip (mk sd c p (mk false c0 node Leaf Leaf) y) k) l -> Q tt s') ->
  wp (set_child p sd node) s Q.
Proof.
  intros H En Hn HN Hf HQ. pose proof (focus_at _ _ _ _ _ _ _ _ _ H) as (E & Hx & Hy & Rx & Ry & Rk & Hin).
  eapply wp_set_child_nv; [done|done|apply Hn|]. apply HQ.
  destruct (focus_nodup _ _ _ _ _ _ (h_nodup _ _ _ _ H)) as ((_ & Hpy & Hpk) & _).
  assert (flatten (zip (mk sd c p (mk false c0 node Leaf Leaf) y) k) ≡ₚ
          node :: flatten (zip (mk sd c p Leaf y) k)) as Hp.
  { rewrite !flatten_zip, !flatten_mk. simpl. solve_Permutation. }
  assert (p <> node) as Hpn by set_solver. destruct H. split; simpl; try done.
  - apply zip_rep. rewrite ptr_mk, rep_mk. simpl. split_and!; try done.
    + by simplify_map_eq.
    + by rewrite lookup_insert_ne.
    + by apply rep_insert_ne.
    + eapply repc_ext; [|done]. intros z Hz. apply lookup_insert_ne. congruence.
  - rewrite Hp. by constructor.
  - rewrite Hp. by constructor.
  - rewrite Hp. set_solver.
  - intros x Hx'. rewrite lookup_insert_ne; [by apply h_out0|]. set_solver.
  - intros x. rewrite is_Some_insert; [apply h_dom0|]. done.
Qed.

Lemma holds_drop T s t a b : holds T s t (a ++ b) -> holds T s t b.
Proof. intros []. split; try done. by eapply stk_drop. Qed.

(** ** Rotation *)

Lemma mk_not_leaf s c n x y : mk s c n x y <> Leaf.
Proof. by destruct s. Qed.

Lemma repc_retarget m p p' s c g sib k :
  g ∉ flatten sib -> g ∉ knodes k -> repc m p (Fr s c g sib :: k) ->
  repc (<[g := nv s c p' (ptr sib)]> m) p' (Fr s c g sib :: k).
Proof.
  intros Hs Hk (E & Rs & Rk). simpl. split_and!; [by simplify_map_eq|by apply rep_insert_ne|].
  eapply repc_ext; [|done]. intros z Hz. apply lookup_insert_ne. congruence.
Qed.

(** The three nodes that [rotate] writes, with the memory [m1] that the store
    to the grandparent leaves. *)
Lemma rotate_rep m1 sd pc parent cc child a b sib k :
  NoDup (flatten (zip (mk sd pc parent (mk sd cc child a b) sib) k)) ->
  rep m1 a -> rep m1 b -> rep m1 sib -> repc m1 child k ->
  rep (<[parent := nv sd pc (ptr b) (ptr sib)]> (<[child := nv sd cc (ptr a) parent]> m1))
    (zip (mk sd cc child a (mk sd pc parent b sib)) k).
Proof.
  intros Hnd Ra Rb Rs Rk. apply focus_nodup2 in Hnd as (Hpc & (? & ? & ? & Hpk) & (? & ? & ? & Hck)).
  rewrite zip_rep, ptr_mk, !rep_mk, ptr_mk. split_and!.
  - rewrite lookup_insert_ne by done. by simplify_map_eq.
  - by repeat apply rep_insert_ne.
  - by simplify_map_eq.
  - by repeat apply rep_insert_ne.
  - by repeat apply rep_insert_ne.
  - eapply repc_ext; [|done]. intros z Hz. by rewrite !lookup_insert_ne by congruence.
Qed.

(** The store to the parent of the subtree in focus, if it has one. *)
Lemma wp_retarget T s t k l q p (Q : unit -> state -> Prop) :
  holds T s (zip t k) l -> t <> Leaf -> q = ptr t -> node_ptr p ->
  (forall s1, tree s1 = tree s -> stack s1 = stack s -> repc (nodes s1) p k ->
     (forall x, x ∉ names k -> nodes s1 !! x = nodes s !! x) ->
     (forall x, is_Some (nodes s1 !! x) <-> is_Some (nodes s !! x)) -> Q tt s1) ->
  match k with
  | [] => Q tt s
  | Fr sd c g sib :: k' =>
    wp (gside <- get_side g q ;; set_child g gside p) s Q
  end.
Proof.
  intros H Ht -> Hp HQ. destruct k as [|[sd c g sib] k]; [by apply HQ|].
  change (zip t (Fr sd c g sib :: k)) with (zip (mk sd c g t sib) k) in H.
  pose proof (focus_at _ _ _ _ _ _ _ _ _ H) as (E & Hx & Hy & Rx & Ry & Rk & Hin).
  destruct (focus_nodup _ _ _ _ _ _ (h_nodup _ _ _ _ H)) as ((? & ? & ?) & _).
  apply wp_bind. eapply wp_get_side; [done..|].
  eapply wp_set_child_nv; [done|done|apply Hp|]. apply HQ; [done|done|..]; simpl.
  - by eapply (repc_retarget _ (ptr t)).
  - intros x Hx'. apply lookup_insert_ne. set_solver.
  - by apply is_Some_insert.
Qed.

Lemma names_cons s c n sib k : names (Fr s c n sib :: k) = n :: names k.
Proof. done. Qed.

Lemma names_length k : length (names k) = length k.
Proof. apply length_fmap. Qed.

Lemma names_knodes k : names k ⊆ knodes k.
Proof. unfold names, knodes. induction k as [|f k IH]; simpl; set_solver. Qed.

Lemma rotate_flatten sd pc parent cc child a b sib k :
  flatten (zip (mk sd cc child a (mk sd pc parent b sib)) k) =
  flatten (zip (mk sd pc parent (mk sd cc child a b) sib) k).
Proof. apply flatten_zip_eq. destruct sd; simpl; by rewrite <- app_assoc. Qed.

Lemma wp_rotate T s sd pc parent cc child a b sib k i (Q : unit -> state -> Prop) :
  holds T s (zip (mk sd pc parent (mk sd cc child a b) sib) k) (child :: parent :: names k) ->
  i = Z.of_nat (length k) + 2 ->
  (forall s', holds T s' (zip (mk sd cc child a (mk sd pc parent b sib)) k)
                (parent :: child :: names k) -> Q tt s') ->
  wp (rotate i) s Q.
Proof.
  intros H -> HQ. pose proof (h_nodup _ _ _ _ H) as Hnd.
  pose proof (names_length k) as Hlk.
  unfold rotate. apply wp_bind. eapply (wp_slot_at _ _ _ _ [child]); [done|done|lia|].
  apply wp_bind. eapply (wp_slot_at _ _ _ _ []); [done|done|simpl; lia|].
  apply wp_bind. eapply wp_get_side; [done|apply mk_not_leaf|by rewrite ptr_mk|].
  apply wp_bind. eapply (wp_child_in _ _ _ _ _ _ _ _ (Fr sd pc parent sib :: k)); [done|].
  apply wp_bind. eapply (wp_child_out _ _ _ _ _ _ _ _ (Fr sd pc parent sib :: k)); [done|].
  destruct (focus_at _ _ _ _ _ _ _ _ (Fr sd pc parent sib :: k) H) as (Ec & Ha & Hb & Ra & Rb & _ & Hcin).
  change (child ∈ flatten (zip (mk sd pc parent (mk sd cc child a b) sib) k)) in Hcin.
  destruct (focus_at _ _ _ _ _ _ _ _ _ H) as (Ep & Hc & Hs & _ & Rs & Rk & Hpin).
  pose proof (proj1 (Forall_forall _ _) (h_ptrs _ _ _ _ H)) as Hptr.
  destruct (focus_nodup2 _ _ _ _ _ _ _ _ _ _ Hnd) as (Hpc & (_ & _ & _ & Hpk) & (_ & _ & _ & Hck)).
  pose proof (names_knodes k) as Hkk.
  pose proof (fun Q => wp_retarget T s _ k _ parent child Q H (mk_not_leaf _ _ _ _ _)
    (eq_sym (ptr_mk _ _ _ _ _)) (Hptr _ Hcin)) as Hrt.
  apply wp_bind. eapply wp_weaken with (Q := fun _ s1 =>
    tree s1 = tree s /\ stack s1 = stack s /\ repc (nodes s1) child k /\
    (forall x, x ∉ names k -> nodes s1 !! x = nodes s !! x) /\
    (forall x, is_Some (nodes s1 !! x) <-> is_Some (nodes s !! x))).
  { destruct k as [|[gs gc g gsib] k].
    - apply wp_ret. auto.
    - rewrite (proj2 (Z.geb_ge _ 3)) by (simpl; lia). apply wp_bind.
      eapply (wp_slot_at _ _ _ _ [child; parent] g (names k));
        [done|done|rewrite names_length; simpl; lia|].
      apply Hrt. auto. }
  intros _ s1 (Et & Es & Rk1 & Hn1 & Hs1).
  apply wp_bind. eapply (wp_set_child_nv child sd cc (ptr a) (ptr b)); [rewrite Hn1 by set_solver; done|done|done|].
  apply wp_bind. eapply (wp_set_child_nv child (negb sd) cc (ptr b) (ptr a)).
  { simpl. simplify_map_eq. by rewrite nv_flip. }
  1: done. 1: apply (Hptr _ Hpin).
  apply wp_bind. eapply (wp_set_child_nv parent sd pc child (ptr sib)).
  { simpl. rewrite !lookup_insert_ne by done. rewrite Hn1 by set_solver. by rewrite Ep, ptr_mk. }
  1: apply (Hptr _ Hcin). 1: done.
  apply wp_bind. eapply (wp_slot_replace T _ _ _ [child] parent (names k)); [|done|lia|].
  { eapply holds_nodes; [exact H|done|done|..]; simpl.
    - rewrite insert_insert_eq, <- nv_flip. apply rotate_rep; try done.
      all: eapply rep_ext; [|done]; intros z Hz; apply Hn1; intros Hz'%Hkk; revert Hz'.
      all: apply (zip_disjoint _ _ _ Hnd); rewrite !flatten_mk; set_solver.
    - by rewrite rotate_flatten.
    - by rewrite rotate_flatten.
    - intros x Hx. rewrite !lookup_insert_ne by congruence. apply Hn1.
      intros Hx'%Hkk. apply Hx. rewrite flatten_zip. set_solver.
    - intros x. rewrite <- Hs1. do 2 rewrite is_Some_insert; [apply is_Some_insert|..]; simplify_map_eq; try done.
      all: rewrite ?lookup_insert_ne, ?Hn1 by (done || set_solver); done. }
  intros s2 H2. eapply (wp_slot_replace T _ _ _ [] child); [done|done|simpl; lia|]. done.
Qed.

End Holds.

Lemma holds_sub m0 N N' len T s t l : N ⊆ N' -> holds m0 N len T s t l -> holds m0 N' len T s t l.
Proof. intros HN []. split; try done; set_solver. Qed.

End RbInv.
