(* ===== verification/RbFix.v ===== *)
(** Red/black trees: the red/black rules, and the two loops of rb.c that
    restore them, [fix_extra_red] after an insertion and [fix_missing_black]
    after a removal.

    Both loops keep the nodes in order and leave a tree whose height is within
    the bound [D] that the stack was sized by.  For a removal this rests on the
    second half of that bound, twice the black height: a subtree that moves
    down comes to lie below two black nodes in a row. *)
From stdpp Require Import gmap.
From S2P Require Import Prelude RbTree RbInv.

Module RbFix.
Import RbTree RbInv.

(** ** The red/black rules *)

(** Black height [h], and no red node below a red one. *)
Fixpoint valid (h : nat) (t : tr) : Prop :=
  match t with
  | Leaf => h = O
  | Node RED l _ r => tcol l = BLACK /\ tcol r = BLACK /\ valid h l /\ valid h r
  | Node BLACK l _ r => match h with O => False | S h => valid h l /\ valid h r end
  end.

Lemma valid_red s n x y h :
  valid h (mk s RED n x y) <-> tcol x = BLACK /\ tcol y = BLACK /\ valid h x /\ valid h y.
Proof. destruct s; simpl; tauto. Qed.

Lemma valid_black s n x y h :
  valid h (mk s BLACK n x y) <-> exists h', h = S h' /\ valid h' x /\ valid h' y.
Proof. destruct h, s; simpl; naive_solver. Qed.

Lemma valid_black_S s n x y h : valid (S h) (mk s BLACK n x y) <-> valid h x /\ valid h y.
Proof. rewrite valid_black. naive_solver. Qed.

(** The colour that a subtree put into the hole of [k] meets above it; a
    subtree that is the whole tree has to be black. *)
Definition kcol (k : list frame) : rb_color := match k with [] => RED | f :: _ => f_col f end.

(** [k] makes a valid tree of black height [H] from a subtree of height [h]. *)
Fixpoint kvalid (h : nat) (k : list frame) (H : nat) : Prop :=
  match k with
  | [] => h = H
  | Fr _ RED _ sib :: k => tcol sib = BLACK /\ valid h sib /\ kcol k = BLACK /\ kvalid h k H
  | Fr _ BLACK _ sib :: k => valid h sib /\ kvalid (S h) k H
  end.

Lemma zip_valid h k H t :
  valid h t -> (kcol k = RED -> tcol t = BLACK) -> kvalid h k H ->
  valid H (zip t k) /\ tcol (zip t k) = BLACK.
Proof.
  revert h t. induction k as [|[s c n sib] k IH]; intros h t Ht Hc; simpl.
  - intros <-. split; [done|by apply Hc].
  - destruct c.
    + intros (Hs & Hv & Hk & HK). eapply (IH h); [|congruence|done].
      unfold plug; simpl. apply valid_red. split_and!; try done. by apply Hc.
    + intros (Hv & HK). eapply (IH (S h)); [|by destruct s|done].
      unfold plug; simpl. by apply valid_black_S.
Qed.

Lemma zip_valid_inv k H t :
  valid H (zip t k) -> tcol (zip t k) = BLACK ->
  exists h, valid h t /\ (kcol k = RED -> tcol t = BLACK) /\ kvalid h k H.
Proof.
  revert t. induction k as [|[s c n sib] k IH]; intros t Hv Hc; simpl in *.
  - by exists H.
  - destruct (IH _ Hv Hc) as (h & Ht & Hc' & HK). unfold plug in *; simpl in *. destruct c.
    + apply valid_red in Ht as (? & ? & ? & ?). exists h. split_and!; try done.
      destruct (kcol k); [|done]. destruct s; by discriminate Hc'.
    + apply valid_black in Ht as (h' & -> & ? & ?). by exists h'.
Qed.

(** ** Heights *)

Fixpoint kfits (D : nat) (k : list frame) : Prop :=
  match k with
  | [] => True
  | f :: k => (height (f_sib f) + S (length k) <= D)%nat /\ kfits D k
  end.

Lemma zip_height D t k :
  (height (zip t k) <= D)%nat <-> (height t + length k <= D)%nat /\ kfits D k.
Proof.
  revert t. induction k as [|[s c n sib] k IH]; intros t; simpl; [rewrite Nat.add_0_r; tauto|].
  rewrite IH. unfold plug; simpl. rewrite height_mk. intuition lia.
Qed.

Lemma valid_height h t : valid h t -> (height t <= 2 * h + (if tcol t then 1 else 0))%nat.
Proof.
  revert h. induction t as [|c l IHl n r IHr]; intros h; simpl; [lia|]. destruct c.
  - intros (Hl & Hr & Vl & Vr). apply IHl in Vl. apply IHr in Vr. rewrite Hl in Vl. rewrite Hr in Vr. lia.
  - destruct h as [|h]; [done|]. intros [Vl Vr]. apply IHl in Vl. apply IHr in Vr.
    destruct (tcol l), (tcol r); lia.
Qed.

(** A path has as many red nodes as black ones at most, and one less if it
    starts at a black node. *)
Lemma kvalid_length h k H :
  kvalid h k H -> (length k + (if kcol k then 0 else 1) <= 2 * (H - h))%nat /\ (h <= H)%nat.
Proof.
  revert h. induction k as [|[s c n sib] k IH]; intros h; simpl; [lia|]. destruct c.
  - intros (_ & _ & Hk & HK). apply IH in HK. rewrite Hk in HK. lia.
  - intros (_ & HK). apply IH in HK. destruct (kcol k); lia.
Qed.

Lemma valid_leaf t : valid 0 t -> tcol t = BLACK -> t = Leaf.
Proof. destruct t as [|[] l n r]; simpl; [done|done|tauto]. Qed.

Lemma red_node s t : tcol t = RED -> exists n x y, t = mk s RED n x y.
Proof.
  destruct (mk_cases s t) as [->|(c & n & x & y & ->)]; [done|]. rewrite tcol_mk. intros ->. by eexists _, _, _.
Qed.

Lemma black_node s h t : tcol t = BLACK -> valid (S h) t -> exists n x y, t = mk s BLACK n x y.
Proof.
  destruct (mk_cases s t) as [->|(c & n & x & y & ->)]; [done|]. rewrite tcol_mk. intros ->. by eexists _, _, _.
Qed.

(** ** The whole tree *)

(** A tree that the operations may work on with a stack for depth [D]. *)
Record balanced (D : nat) (t : tr) (H : nat) : Prop := {
  b_valid : valid H t;
  b_root : tcol t = BLACK;
  b_height : (height t <= D)%nat;
  b_black : (2 * H <= D + 1)%nat
}.

(** ** [fix_extra_red] *)

Section Red.
Context (m0 : gmap Z rbnode) (N : list Z) (len : nat).
Abbreviation holds := (holds m0 N len).

(** What the loop leaves: a balanced tree with the nodes of [t0] in the same
    order, and its root at the bottom of the stack. *)
Definition repaired (T : rbtree) (D : nat) (nodes0 : list Z) (s : state) : Prop :=
  exists t H l, holds T s t l /\ balanced D t H /\ flatten t = nodes0 /\ last l = Some (ptr t).

Lemma repaired_zip T D s t k l h H nodes0 :
  holds T s (zip t k) l -> last l = Some (ptr (zip t k)) ->
  valid h t -> (kcol k = RED -> tcol t = BLACK) -> kvalid h k H ->
  (height t + length k <= D)%nat -> kfits D k -> (2 * H <= D + 1)%nat ->
  flatten (zip t k) = nodes0 -> repaired T D nodes0 s.
Proof.
  intros Hh Hl Ht Hc HK Hht Hf HD Hfl. destruct (zip_valid _ _ _ _ Ht Hc HK). exists (zip t k), H, l.
  split_and!; try done. split; try done. by apply zip_height.
Qed.

(** The last rotation, of grandparent and parent, with the colours exchanged. *)
Lemma fix_red_rotate T D s gs g q a b aunt k h H sz nodes0 :
  holds T s (zip (mk gs BLACK g (mk gs RED q a b) aunt) k) (q :: g :: names k) ->
  sz = Z.of_nat (length k) + 3 ->
  valid h a -> valid h b -> tcol b = BLACK -> valid h aunt -> tcol aunt = BLACK -> kvalid (S h) k H ->
  (height a + 1 + length k <= D)%nat -> (height b + 2 + length k <= D)%nat ->
  (length k + 2 + 2 * h <= D)%nat -> kfits D k -> (2 * H <= D + 1)%nat ->
  flatten (zip (mk gs BLACK g (mk gs RED q a b) aunt) k) = nodes0 ->
  wp (rotate (sz - 1) ;;; top <- slot (sz - 3) ;; set_color top BLACK ;;;
      below <- slot (sz - 2) ;; set_color below RED) s (fun _ => repaired T D nodes0).
Proof.
  intros Hh -> Va Vb Cb Vu Cu HK Ha Hb Hl Hf HD Hfl. pose proof (names_length k) as Hlk.
  apply wp_bind. eapply wp_rotate; [done|lia|]. intros s1 H1.
  apply wp_bind. eapply (wp_slot_at _ _ _ _ _ _ _ [g]); [done|done|simpl; lia|].
  apply wp_bind. eapply wp_set_color; [done|]. intros s2 H2.
  apply wp_bind. eapply (wp_slot_at _ _ _ _ _ _ _ []); [done|done|simpl; lia|].
  rewrite mk_flip in H2. eapply (wp_set_color _ _ _ _ _ _ _ _ _ _ _ _ (Fr (negb gs) BLACK q a :: k)); [done|].
  intros s3 H3.
  assert (last (g :: q :: names k) = last (q :: names k)) as El by done.
  pose proof (valid_height _ _ Vu) as Hu. rewrite Cu in Hu.
  eapply (repaired_zip _ _ _ (mk (negb gs) BLACK q (mk gs RED g b aunt) a)); [done| |..|done|].
  - rewrite El. rewrite <- last_zip. by rewrite ptr_mk.
  - apply valid_black_S. split; [|done]. by apply valid_red.
  - intros _. by rewrite tcol_mk.
  - done.
  - rewrite !height_mk. lia.
  - done.
  - subst nodes0. rewrite <- mk_flip, <- rotate_flatten, (flatten_recolour gs BLACK RED q).
    apply flatten_zip_eq. by destruct gs.
Qed.

Lemma zip_focus t s c n sib k : zip (mk s c n t sib) k = zip t (Fr s c n sib :: k).
Proof. done. Qed.

(** A red aunt: recolour and go on from the grandparent. *)
Lemma fix_red_recolour T s ps p t psib gs g aunt k l (Q : unit -> state -> Prop) cont :
  holds T s (zip t (Fr ps RED p psib :: Fr gs BLACK g aunt :: k)) l -> tcol aunt = RED ->
  (forall aunt' s', tcol aunt' = BLACK -> flatten aunt' = flatten aunt -> height aunt' = height aunt ->
     (forall h, valid h aunt -> valid (S h) aunt') ->
     holds T s' (zip (mk gs RED g (mk ps BLACK p t psib) aunt') k) l -> wp cont s' Q) ->
  wp (set_color g RED ;;; set_color p BLACK ;;; set_color (ptr aunt) BLACK ;;; cont) s Q.
Proof.
  intros Hh Ca HQ. destruct (red_node false _ Ca) as (u & x & y & ->).
  apply wp_bind. eapply (wp_set_color _ _ _ _ _ _ gs BLACK RED g); [exact Hh|]. intros s1 H1.
  apply wp_bind. rewrite zip_focus in H1. eapply wp_set_color; [exact H1|]. intros s2 H2.
  apply wp_bind. rewrite zip_sib in H2. eapply wp_set_color; [exact H2|]. intros s3 H3.
  rewrite <- zip_focus, <- mk_flip in H3. apply (HQ _ _ (tcol_mk _ _ _ _ _)) in H3; try done.
  intros h. rewrite valid_red, valid_black_S. tauto.
Qed.

Lemma fix_extra_red_loop_spec fuel T D s sd node x y k h H sz :
  holds T s (zip (mk sd RED node x y) k) (node :: names k) -> sz = Z.of_nat (length k) + 1 ->
  (length k < fuel)%nat ->
  valid h (mk sd RED node x y) -> kvalid h k H ->
  (height (mk sd RED node x y) + length k <= D)%nat -> kfits D k ->
  (length k + 1 + 2 * h <= D)%nat -> (2 * H <= D + 1)%nat ->
  wp (fix_extra_red_loop fuel sz) s
    (fun _ => repaired T D (flatten (zip (mk sd RED node x y) k))).
Proof.
  revert s sd node x y k h sz. induction fuel as [|fuel IH]; [lia|].
  intros s sd node x y k h sz Hh -> Hfu Vt HK Hht Hf Hl HD. simpl.
  assert (last (node :: names k) = Some (ptr (zip (mk sd RED node x y) k))) as Hla
    by (by rewrite <- last_zip, ptr_mk).
  destruct k as [|[ps pc p psib] k].
  { (* the root *)
    apply wp_bind. eapply (wp_slot_at _ _ _ _ _ _ _ []); [done|done|done|].
    eapply wp_set_color; [exact Hh|]. intros s1 H1. eapply (repaired_zip T D _ _ [] _ (S h)); [exact H1|..].
    - simpl. by rewrite ptr_mk.
    - apply valid_black_S. apply valid_red in Vt. tauto.
    - intros _. by rewrite tcol_mk.
    - done.
    - revert Hht. by rewrite !height_mk.
    - done.
    - simpl in *. lia.
    - by destruct sd. }
  rewrite (proj2 (Z.gtb_gt _ 1)) by (simpl; lia). pose proof (names_length k) as Hlk. rewrite names_cons in *.
  apply wp_bind. eapply (wp_slot_at _ _ _ _ _ _ _ []); [done|done|simpl; lia|].
  apply wp_bind. eapply (wp_slot_at _ _ _ _ _ _ _ [node]); [done|done|simpl; lia|].
  apply wp_bind. rewrite <- zip_focus in Hh. eapply wp_is_black; [exact Hh|].
  destruct pc; simpl.
  2:{ (* a black parent *)
    apply wp_ret. by eapply (repaired_zip T D _ _ (Fr ps BLACK p psib :: k) _ h). }
  destruct HK as (Cs & Vs & Ck & HK). destruct k as [|[gs gc g aunt] k]; [done|].
  simpl in Ck. subst gc. destruct HK as [Va HK]. rewrite names_cons in *.
  apply wp_bind. eapply (wp_slot_at _ _ _ _ _ _ _ [node; p]); [done|done|simpl in *; lia|].
  rewrite <- zip_focus in Hh.
  apply wp_bind. eapply wp_get_side; [exact Hh|apply mk_not_leaf|by rewrite ptr_mk|].
  apply wp_bind. eapply wp_child_out; [exact Hh|].
  apply wp_bind. rewrite zip_focus, zip_sib in Hh. eapply wp_nonnull_red; [exact Hh|]. rewrite <- zip_sib in Hh.
  case_bool_decide as Ca.
  { eapply fix_red_recolour; [exact Hh|done|]. intros aunt' s' Ca' Fa' Ha' Va' H'.
    apply (holds_drop _ _ _ _ _ _ [node; p]) in H'. simpl in Hht, Hf, Hl, Hfu, Hlk.
    eapply wp_weaken; [eapply (IH s' gs g _ _ k (S h)); try done|].
    - simpl. lia.
    - lia.
    - apply valid_red. split_and!; [by rewrite tcol_mk|done| |by apply Va'].
      by apply valid_black_S.
    - rewrite !height_mk in *. rewrite Ha'. lia.
    - tauto.
    - lia.
    - intros [] s2. erewrite flatten_zip_eq; [done|].
      unfold plug; simpl. destruct gs, ps; simpl; by rewrite Fa'. }
  apply wp_bind. eapply (wp_get_side _ _ _ _ _ _ ps RED p); [exact Hh|apply mk_not_leaf|by rewrite ptr_mk|].
  assert (tcol aunt = BLACK) as Cu by (by destruct (tcol aunt)). simpl in Hf, Hl, Hlk.
  destruct (eqb_spec ps gs) as [->|Hne]; simpl negb; cbn match.
  - (* the node is on the parent's side *)
    apply wp_bind, wp_ret. apply (holds_drop _ _ _ _ _ _ [node]) in Hh. rewrite height_mk in Hht. simpl in Hht.
    eapply fix_red_rotate; try done; [simpl; lia|rewrite ?height_mk; lia..|tauto].
  - (* the node is turned to that side first *)
    assert (gs = negb ps) as -> by (by destruct gs, ps).
    destruct (mk_turn sd ps RED node x y) as (a & b & Et).
    rewrite Et in *. clear Et. rewrite height_mk in Hht. simpl in Hht. apply valid_red in Vt as (Ca' & Cb & Va' & Vb).
    apply wp_bind. eapply (wp_rotate _ _ _ _ _ _ _ _ _ _ _ _ _ (Fr (negb ps) BLACK g aunt :: k)); [exact Hh|simpl; lia|].
    intros s1 H1. apply (holds_drop _ _ _ _ _ _ [p]) in H1. rewrite <- zip_focus, (mk_flip ps RED node) in H1.
    eapply fix_red_rotate; try done; [simpl; lia|by apply valid_red|rewrite ?height_mk; lia..|tauto|].
    rewrite <- (mk_flip ps RED node). exact (rotate_flatten ps RED p RED node a b psib (Fr (negb ps) BLACK g aunt :: k)).
Qed.

(** ** [fix_missing_black] *)

(** The subtree [tp] in memory whose black height is one short stands for
    [tl]: a black leaf node that is being removed stands for nothing. *)
Definition hole (null : Z) (tp tl : tr) : Prop :=
  (tp = mk false BLACK null Leaf Leaf /\ tl = Leaf) \/ (tp = tl /\ tl <> Leaf).

Lemma hole_node null tp tl : hole null tp tl -> tp <> Leaf.
Proof. intros [[-> _]|[-> ?]]; done. Qed.

(** The clean up of [null_node]. *)
Lemma wp_drop_null T s null tp tl ns pc P sib k l n (Q : unit -> state -> Prop) :
  holds T s (zip tp (Fr ns pc P sib :: k)) l -> hole null tp tl -> n = ptr tp ->
  null ∉ flatten (zip tl (Fr ns pc P sib :: k)) ->
  (forall s', holds T s' (zip tl (Fr ns pc P sib :: k)) l -> Q tt s') ->
  wp (if n =? null then set_child P ns NULL else ret tt) s Q.
Proof.
  intros Hh Hho -> Hnull HQ. destruct Hho as [[-> ->]|[-> Hl]].
  - rewrite ptr_mk, Z.eqb_refl. eapply (wp_set_child _ _ _ _ _ _ _ _ _ _ Leaf); [exact Hh|done|constructor|set_solver|done|].
    auto.
  - rewrite (proj2 (Z.eqb_neq _ _)); [apply wp_ret; by apply HQ|]. intros E. apply Hnull.
    rewrite flatten_zip, <- E. pose proof (ptr_in _ Hl). set_solver.
Qed.

(** The last rotation: the sibling, with a red child on the outside, comes to
    the parent's place. *)
Lemma fix_black_rotate T D s null tp tl ns pc P b inner outer k n q h H sz nodes0 :
  holds T s (zip tp (Fr ns pc P (mk ns BLACK b inner outer) :: k)) (n :: P :: names k) ->
  hole null tp tl -> n = ptr tp -> q = ptr outer -> sz = Z.of_nat (length k) + 2 ->
  null ∉ flatten (zip tl (Fr ns pc P (mk ns BLACK b inner outer) :: k)) ->
  valid h tl -> tcol tl = BLACK -> tcol outer = RED ->
  kvalid (S h) (Fr ns pc P (mk ns BLACK b inner outer) :: k) H ->
  (height inner + 2 + length k <= D)%nat -> (height outer + 1 + length k <= D)%nat -> kfits D k ->
  (length k + 2 + 2 * h <= D)%nat -> (2 * H <= D + 1)%nat ->
  flatten (zip tl (Fr ns pc P (mk ns BLACK b inner outer) :: k)) = nodes0 ->
  wp (c <- get_color P ;; set_color b c ;;; set_color P BLACK ;;; set_color q BLACK ;;;
      set_slot (sz - 1) b ;;; rotate sz ;;;
      if n =? null then set_child P ns NULL else ret tt) s (fun _ => repaired T D nodes0).
Proof.
  intros Hh Hho En -> -> Hnull Vt Ct Co HK Hin Hou Hf Hl HD Hfl. pose proof (names_length k) as Hlk.
  destruct (red_node ns _ Co) as (o & ox & oy & ->). rewrite ptr_mk.
  apply wp_bind. rewrite <- zip_focus in Hh. eapply wp_color; [exact Hh|].
  apply wp_bind. rewrite zip_focus, zip_sib in Hh. eapply wp_set_color; [exact Hh|]. intros s1 H1.
  apply wp_bind. rewrite <- zip_focus in H1. eapply wp_set_color; [exact H1|]. intros s2 H2.
  apply wp_bind. rewrite zip_focus, (mk_flip ns), zip_focus in H2.
  eapply wp_set_color; [exact H2|]. intros s3 H3. rewrite <- !zip_focus in H3.
  apply wp_bind. eapply (wp_slot_replace _ _ _ _ _ _ _ []); [exact H3|done|simpl; lia|]. intros s4 H4.
  apply wp_bind. eapply wp_rotate; [exact H4|lia|]. intros s5 H5.
  rewrite (mk_flip (negb ns) pc), (mk_flip (negb ns) BLACK P), negb_involutive, !zip_focus in H5.
  assert (flatten (zip tl (Fr ns BLACK P inner :: Fr ns pc b (mk ns BLACK o ox oy) :: k)) = nodes0) as Hfl'.
  { subst nodes0. apply (flatten_zip_eq (mk ns pc b (mk ns BLACK P tl inner) (mk ns BLACK o ox oy))
      (mk ns pc P tl (mk ns BLACK b inner (mk ns RED o ox oy)))). destruct ns; simpl; rewrite <- ?app_assoc; simpl; rewrite <- ?app_assoc; done. }
  rewrite Hfl, <- Hfl' in Hnull.
  eapply wp_drop_null; [exact H5|done|done|done|]. intros s6 H6. rewrite <- !zip_focus in H6.
  assert (last (P :: b :: names k) = last (b :: names k)) as El by done.
  rewrite height_mk in Hou. pose proof (valid_height _ _ Vt) as Ht. rewrite Ct in Ht.
  assert (valid (S h) (mk ns BLACK b inner (mk ns RED o ox oy)) /\
    exists h', kvalid h' k H /\ (kcol k = RED -> pc = BLACK) /\
      forall x y, valid (S h) x -> valid (S h) y -> tcol x = BLACK -> tcol y = BLACK -> valid h' (mk ns pc b x y))
    as (Vs & h' & HK' & Hc & Hv).
  { destruct pc; simpl in HK.
    - destruct HK as (_ & ? & Hk & ?). split; [done|]. exists (S h). split_and!; [done|by rewrite Hk|].
      intros. by apply valid_red.
    - destruct HK as (? & ?). split; [done|]. exists (S (S h)). split_and!; [done|done|].
      intros. by apply valid_black_S. }
  apply valid_black_S in Vs as [Vi Vo]. apply valid_red in Vo as (? & ? & ? & ?).
  eapply (repaired_zip T D _ (mk ns pc b (mk ns BLACK P tl inner) (mk ns BLACK o ox oy)) k); [exact H6| |..|done|exact Hfl'].
  - rewrite El, <- last_zip. by rewrite ptr_mk.
  - apply Hv; rewrite ?tcol_mk; try done; by apply valid_black_S.
  - rewrite tcol_mk. done.
  - done.
  - rewrite !height_mk. lia.
  - done.
Qed.

(** The sibling's red child is on the inside: turn it to the outside. *)
Lemma fix_black_inner T s ns pc P tp b inner outer k n sz (Q : Z * Z -> state -> Prop) :
  holds T s (zip (mk ns BLACK b inner outer) (Fr (negb ns) pc P tp :: k)) (n :: P :: names k) ->
  tcol inner = RED -> sz = Z.of_nat (length k) + 2 -> (length k + 2 < len)%nat ->
  (forall s' i x y, inner = mk ns RED i x y ->
     holds T s' (zip (mk ns BLACK i x (mk ns RED b y outer)) (Fr (negb ns) pc P tp :: k)) (n :: P :: names k) ->
     Q (i, b) s') ->
  wp (inner <- get_child b ns ;; set_slot (sz - 1) b ;;; set_slot sz inner ;;; rotate (sz + 1) ;;;
      set_color b RED ;;; set_color inner BLACK ;;;
      sib <- slot (sz - 1) ;; outer <- get_child sib (negb ns) ;; set_slot (sz - 1) n ;;; ret (sib, outer)) s Q.
Proof.
  intros Hh Ci -> Hl HQ. destruct (red_node ns _ Ci) as (i & x & y & ->). pose proof (names_length k) as Hlk.
  apply wp_bind. eapply wp_child_in; [exact Hh|]. rewrite ptr_mk.
  apply wp_bind. eapply (wp_slot_replace _ _ _ _ _ _ _ []); [exact Hh|done|simpl; lia|]. intros s1 H1.
  apply wp_bind. eapply wp_slot_push; [exact H1|simpl; lia|simpl; lia|]. intros s2 H2.
  apply wp_bind. eapply wp_rotate; [exact H2|simpl; lia|]. intros s3 H3.
  rewrite mk_flip, zip_focus in H3. apply wp_bind. eapply wp_set_color; [exact H3|]. intros s4 H4.
  rewrite <- zip_focus, <- mk_flip in H4. apply wp_bind. eapply wp_set_color; [exact H4|]. intros s5 H5.
  rewrite names_cons in H5.
  apply wp_bind. eapply (wp_slot_at _ _ _ _ _ _ _ [b]); [exact H5|done|simpl; lia|].
  apply wp_bind. eapply wp_child_out; [exact H5|]. rewrite ptr_mk.
  apply wp_bind. eapply (wp_slot_replace _ _ _ _ _ _ _ [b]); [exact H5|done|simpl; lia|]. intros s6 H6.
  apply wp_ret. eapply HQ; [done|]. by apply (holds_drop _ _ _ _ _ _ [b]) in H6.
Qed.

(** The round of the loop once the sibling is black. *)
Lemma fix_black_step T D s up null tp tl ns pc P sib k n h H sz nodes0 :
  len = S D ->
  holds T s (zip tp (Fr ns pc P sib :: k)) (n :: P :: names k) ->
  hole null tp tl -> n = ptr tp -> sz = Z.of_nat (length k) + 2 ->
  null ∉ flatten (zip tl (Fr ns pc P sib :: k)) ->
  valid h tl -> tcol tl = BLACK -> tcol sib = BLACK ->
  kvalid (S h) (Fr ns pc P sib :: k) H -> kfits D (Fr ns pc P sib :: k) ->
  (length k + 2 + 2 * h <= D)%nat -> (2 * H <= D + 1)%nat ->
  flatten (zip tl (Fr ns pc P sib :: k)) = nodes0 ->
  (forall s' sib', pc = BLACK -> holds T s' (zip (mk ns BLACK P tl sib') k) (P :: names k) ->
     valid (S h) (mk ns BLACK P tl sib') -> height sib' = height sib ->
     flatten (zip (mk ns BLACK P tl sib') k) = nodes0 ->
     wp (up (sz - 1)) s' (fun _ => repaired T D nodes0)) ->
  wp (fix_missing_black_step up sz null n ns P (ptr sib)) s (fun _ => repaired T D nodes0).
Proof.
  intros Hlen Hh Hho En Hsz Hnull Vt Ct Cs HK Hf Hl HD Hfl Hup. pose proof (names_length k) as Hlk.
  assert (valid (S h) sib) as Vs by (destruct pc; simpl in HK; tauto).
  destruct (black_node false _ _ Cs Vs) as (b & x & y & ->). rewrite ptr_mk. unfold fix_missing_black_step.
  pose proof Hh as Hb. rewrite zip_sib in Hb.
  apply wp_bind. eapply wp_child_in; [exact Hb|].
  apply wp_bind. eapply (wp_child_out _ _ _ _ _ _ false); [exact Hb|].
  apply wp_bind. rewrite zip_focus in Hb. eapply wp_null_or_black; [exact Hb|].
  apply wp_bind.
  eapply wp_weaken with (Q := fun b1 s' => s' = s /\ b1 = bool_decide (tcol x = BLACK /\ tcol y = BLACK)).
  { destruct (tcol x) eqn:Cx; simpl; [by apply wp_ret|]. rewrite zip_sib in Hb.
    eapply wp_null_or_black; [exact Hb|]. split; [done|]. apply bool_decide_ext. tauto. }
  intros b1 s' [-> ->]. case_bool_decide as Cxy.
  - (* black children *)
    apply wp_bind. eapply wp_drop_null; [exact Hh|done..|]. intros s1 H1.
    apply wp_bind. rewrite zip_sib in H1. eapply wp_set_color; [exact H1|]. intros s2 H2.
    rewrite <- zip_sib, <- zip_focus in H2. apply wp_bind. eapply wp_is_black; [exact H2|].
    assert (valid (S h) (mk ns BLACK P tl (mk false RED b x y))) as Vn.
    { apply valid_black_S in Vs. apply valid_black_S. rewrite valid_red. tauto. }
    assert (flatten (zip (mk ns BLACK P tl (mk false RED b x y)) k) = nodes0) as Hfl'.
    { rewrite (flatten_recolour _ _ pc), zip_focus, zip_sib, (flatten_recolour _ _ BLACK), <- zip_sib. done. }
    apply (holds_drop _ _ _ _ _ _ [n]) in H2. destruct pc; simpl.
    + simpl in HK. destruct HK as (_ & _ & Ck & HK). destruct Hf as [Hs Hf].
      eapply wp_set_color; [exact H2|]. intros s3 H3.
      eapply (repaired_zip T D _ _ k); [exact H3| |exact Vn|by rewrite Ck|done| |done..].
      * rewrite <- last_zip. by rewrite ptr_mk.
      * pose proof (valid_height _ _ Vt) as Ht. rewrite Ct in Ht. simpl in Hs.
        rewrite !height_mk in *. lia.
    + by eapply Hup.
  - (* a red child *)
    assert (exists inner outer, mk false BLACK b x y = mk ns BLACK b inner outer /\
              ~ (tcol inner = BLACK /\ tcol outer = BLACK)) as (inner & outer & Eb & Cio).
    { destruct ns; [exists y, x|exists x, y]; (split; [done|tauto]). }
    clear Hb. rewrite Eb in *. clear Eb x y Cxy. pose proof Hh as Hb. rewrite zip_sib in Hb.
    apply wp_bind. eapply wp_child_out; [exact Hb|].
    apply wp_bind. rewrite mk_flip, zip_focus in Hb. eapply wp_nonnull_red; [exact Hb|].
    rewrite <- zip_focus, <- mk_flip in Hb. apply wp_bind. case_bool_decide as Co.
    + apply wp_ret. destruct Hf as [Hs Hf]. simpl in Hs. rewrite height_mk in Hs.
      eapply fix_black_rotate; try done; lia.
    + assert (tcol inner = RED) as Ci by (destruct (tcol inner), (tcol outer); tauto).
      destruct Hf as [Hs Hf]. simpl in Hs. rewrite height_mk in Hs.
      eapply fix_black_inner; [exact Hb|done|done| |].
      { destruct (red_node false _ Ci) as (? & ? & ? & ->). rewrite height_mk in Hs. lia. }
      intros s' i x y -> H'. rewrite <- zip_sib in H'. cbv beta iota. rewrite height_mk in Hs.
      assert (flatten (zip tl (Fr ns pc P (mk ns BLACK i x (mk ns RED b y outer)) :: k)) = nodes0) as Hfl'.
      { subst nodes0. rewrite !(zip_sib tl). apply flatten_zip_eq.
        destruct ns; simpl; rewrite <- ?app_assoc; simpl; rewrite <- ?app_assoc; done. }
      apply valid_black_S in Vs as [Vi Vo]. apply valid_red in Vi.
      assert (valid (S h) (mk ns BLACK i x (mk ns RED b y outer))) as Vn.
      { apply valid_black_S. rewrite valid_red. destruct (tcol outer); tauto. }
      eapply fix_black_rotate; try done; rewrite ?ptr_mk, ?tcol_mk, ?height_mk; try done; try lia; [congruence|].
      destruct pc; simpl in HK |- *; rewrite ?tcol_mk in *; tauto.
Qed.

(** A red sibling is rotated above the parent, which makes the sibling black. *)
Lemma fix_black_red_sib T s tp ns P b x y k n sz (cont : Z -> Z -> M unit) Q :
  holds T s (zip tp (Fr ns BLACK P (mk ns RED b x y) :: k)) (n :: P :: names k) ->
  sz = Z.of_nat (length k) + 2 -> (length k + 2 < len)%nat ->
  (forall s', holds T s' (zip tp (Fr ns RED P x :: Fr ns BLACK b y :: k)) (n :: P :: b :: names k) ->
     wp (cont P (ptr x)) s' Q) ->
  wp (set_slot (sz - 1) b ;;; rotate sz ;;; set_color P RED ;;; set_color b BLACK ;;; set_slot sz n ;;;
      parent <- slot (sz - 1) ;; sib <- get_child parent (negb ns) ;; cont parent sib) s Q.
Proof.
  intros Hh -> Hl HQ. pose proof (names_length k) as Hlk.
  apply wp_bind. eapply (wp_slot_replace _ _ _ _ _ _ _ []); [exact Hh|done|simpl; lia|]. intros s1 H1.
  rewrite zip_sib, <- zip_focus, (mk_flip ns) in H1.
  apply wp_bind. eapply wp_rotate; [exact H1|lia|]. intros s2 H2.
  rewrite (mk_flip (negb ns) RED b), (mk_flip (negb ns) BLACK P), negb_involutive, zip_focus in H2.
  apply wp_bind. eapply wp_set_color; [exact H2|]. intros s3 H3. rewrite <- zip_focus in H3.
  apply wp_bind. eapply wp_set_color; [exact H3|]. intros s4 H4. rewrite zip_focus in H4.
  apply wp_bind. eapply wp_slot_push; [exact H4|simpl; lia|simpl; lia|]. intros s5 H5.
  apply wp_bind. eapply (wp_slot_at _ _ _ _ _ _ _ [n]); [exact H5|done|simpl; lia|].
  apply wp_bind. eapply wp_child_out; [exact H5|]. by apply HQ.
Qed.

Lemma fix_missing_black_loop_spec fuel T D s null tp tl k n h H sz :
  len = S D ->
  holds T s (zip tp k) (n :: names k) -> hole null tp tl -> n = ptr tp -> sz = Z.of_nat (length k) + 1 ->
  (length k < fuel)%nat -> (k = [] -> tp = tl) -> null ∉ flatten (zip tl k) ->
  valid h tl -> tcol tl = BLACK -> kvalid (S h) k H ->
  (height tl + length k <= D)%nat -> kfits D k -> (2 * H <= D + 1)%nat ->
  wp (fix_missing_black_loop fuel sz null) s (fun _ => repaired T D (flatten (zip tl k))).
Proof.
  intros Hlen. revert s tp tl k n h sz. induction fuel as [|fuel IH]; [lia|].
  intros s tp tl k n h sz Hh Hho En -> Hfu Hk Hnull Vt Ct HK Hht Hf HD. simpl.
  assert (last (n :: names k) = Some (ptr (zip tp k))) as Hla by (by rewrite En, last_zip).
  destruct k as [|[ns pc P sib] k].
  { apply wp_ret. rewrite <- (Hk eq_refl) in *.
    eapply (repaired_zip T D _ _ [] _ h); try done. simpl in HK. lia. }
  rewrite (proj2 (Z.gtb_gt _ 1)) by (simpl; lia). pose proof (names_length k) as Hlk. rewrite names_cons in *.
  pose proof (hole_node _ _ _ Hho) as Hnl.
  apply wp_bind. eapply (wp_slot_at _ _ _ _ _ _ _ []); [done|done|simpl; lia|].
  apply wp_bind. eapply (wp_slot_at _ _ _ _ _ _ _ [n]); [done|done|simpl; lia|].
  rewrite <- zip_focus in Hh. apply wp_bind. eapply wp_get_side; [exact Hh|done|done|].
  apply wp_bind. eapply wp_child_out; [exact Hh|]. rewrite zip_focus in Hh.
  assert (valid (S h) sib) as Vs by (destruct pc; simpl in HK; tauto).
  destruct (mk_cases ns sib) as [->|(sc & b & x & y & Es)]; [done|].
  rewrite zip_sib, Es in Hh. rewrite Es at 1. rewrite ptr_mk. apply wp_bind. eapply wp_is_black; [exact Hh|].
  rewrite <- Es, <- zip_sib in Hh. pose proof (kvalid_length _ _ _ HK) as Hkl. simpl in Hkl, Hht, Hfu.
  destruct sc; simpl.
  - (* a red sibling *)
    destruct pc; [destruct HK as [Cs _]; by rewrite Es, tcol_mk in Cs|]. subst sib. destruct HK as [_ HK].
    pose proof (kvalid_length _ _ _ HK) as Hkl'. apply valid_red in Vs as (Cx & Cy & Vx & Vy).
    destruct Hf as [Hs Hf]. simpl in Hs. rewrite height_mk in Hs. rewrite ptr_mk.
    assert (height y <> O) by (by destruct (black_node false _ _ Cy Vy) as (? & ? & ? & ->)).
    eapply (fix_black_red_sib _ _ _ _ _ _ _ _ _ _ _ (fun parent sib => fix_missing_black_step _ _ _ _ _ parent sib));
      [exact Hh|simpl; lia|lia|].
    intros s' H'.
    assert (flatten (zip tl (Fr ns RED P x :: Fr ns BLACK b y :: k)) =
            flatten (zip tl (Fr ns BLACK P (mk ns RED b x y) :: k))) as Hfl.
    { apply (flatten_zip_eq (mk ns BLACK b (mk ns RED P tl x) y) (mk ns BLACK P tl (mk ns RED b x y))).
      destruct ns; simpl; by rewrite <- ?app_assoc. }
    eapply (fix_black_step T D s' _ null tp tl ns RED P x (Fr ns BLACK b y :: k) n h H); try done.
    + simpl; lia.
    + by rewrite Hfl.
    + simpl. split_and!; [lia|lia|done].
    + simpl. lia.
  - (* a black sibling *)
    eapply (fix_black_step T D s _ null tp tl ns pc P sib k n h H); try done.
    + simpl; lia.
    + by rewrite Es, tcol_mk.
    + destruct pc; simpl in HK, Hkl; [|lia]. destruct HK as (_ & _ & Ck & HK).
      pose proof (kvalid_length _ _ _ HK) as Hkl'. rewrite Ck in Hkl'. lia.
    + intros s' sib' -> H' Vn Hn Hfl. rewrite <- Hfl. destruct HK as [_ HK]. destruct Hf as [Hs Hf].
      eapply IH; try done.
      * right. split; [done|apply mk_not_leaf].
      * by rewrite ptr_mk.
      * simpl; lia.
      * lia.
      * by rewrite Hfl.
      * by rewrite tcol_mk.
      * rewrite height_mk. simpl in Hs. lia.
Qed.

End Red.

End RbFix.
