(* ===== verification/RbThm.v ===== *)
(** Red/black trees: the operations of rb.c implement a sorted list.

    [rb_inv lt s l] says that the tree in state [s] is balanced, that it has
    the nodes [l] in the order of the traversal, that they are sorted by the
    comparison [lt], and that the stack arrays sized by [max_depth] are large
    enough.  [rb_insert] and [rb_remove] keep it, with [l] changed by the
    reference definitions [insort] and [without]; the queries and the
    traversals are those of the list. *)
From stdpp Require Import gmap.
From S2P Require Import Prelude RbTree RbInv RbFix.

Module RbThm.
Import RbTree RbInv RbFix.

(** What a comparison function has to be: a strict weak order.  Different
    nodes may compare as equal. *)
Class weak_order (lt : Z -> Z -> bool) : Prop := {
  lt_asym x y : lt x y = true -> lt y x = false;
  lt_cotrans x y z : lt x y = true -> lt x z = true \/ lt z y = true
}.

(** ** Positions of a path in the order *)

Fixpoint lefts (k : list frame) : list Z :=
  match k with
  | [] => []
  | f :: k => lefts k ++ if f_side f then flatten (f_sib f) ++ [f_name f] else []
  end.

Fixpoint rights (k : list frame) : list Z :=
  match k with
  | [] => []
  | f :: k => (if f_side f then [] else f_name f :: flatten (f_sib f)) ++ rights k
  end.

Lemma flatten_lr t k : flatten (zip t k) = lefts k ++ flatten t ++ rights k.
Proof.
  revert t. induction k as [|[s c n sib] k IH]; intros t; simpl; [by rewrite app_nil_r|].
  rewrite IH. unfold plug, mk; simpl. destruct s; simpl; rewrite <- ?app_assoc; simpl; by rewrite ?app_nil_r, <- ?app_assoc.
Qed.

Section Order.
Context (lt : Z -> Z -> bool) `{!weak_order lt}.

(** Sorted: no node is less than one before it. *)
Definition in_order (l : list Z) : Prop := StronglySorted (fun x y => lt y x = false) l.

(** The reference insertion: after the nodes that compare as equal. *)
Fixpoint insort (node : Z) (l : list Z) : list Z :=
  match l with
  | [] => [node]
  | x :: l' => if lt node x then node :: l else x :: insort node l'
  end.

(** The reference removal. *)
Definition without (node : Z) (l : list Z) : list Z := filter (fun x => x <> node) l.

(** The sides of a path are those that the search for [node] takes. *)
Definition searched (node : Z) (k : list frame) : Prop :=
  Forall (fun f => f_name f <> node /\ f_side f = negb (lt node (f_name f))) k.

Lemma in_order_app l1 l2 :
  in_order (l1 ++ l2) <->
  in_order l1 /\ in_order l2 /\ forall x y, x ∈ l1 -> y ∈ l2 -> lt y x = false.
Proof using lt.
  clear weak_order0. unfold in_order. induction l1 as [|a l1 IH]; simpl.
  - split; [|naive_solver]. intros H. split_and!; [constructor|done|set_solver].
  - split.
    + intros [HS HF]%StronglySorted_inv. apply IH in HS as (S1 & S2 & HS). rewrite Forall_forall in HF.
      split_and!; [|done|].
      * constructor; [done|]. apply Forall_forall. set_solver.
      * intros x y [->|Hx]%elem_of_cons Hy; [apply HF; set_solver|by apply HS].
    + intros ([S1 F1]%StronglySorted_inv & S2 & HS). constructor.
      * apply IH. split_and!; set_solver.
      * rewrite Forall_forall in F1 |- *. set_solver.
Qed.

(** What the search passes on the left is not greater, what it passes on the
    right is greater. *)
Lemma searched_lr node k m :
  searched node k -> in_order (lefts k ++ m ++ rights k) ->
  Forall (fun x => lt node x = false) (lefts k) /\ Forall (fun x => lt node x = true) (rights k).
Proof.
  revert m. induction k as [|[s c n sib] k IH]; intros m Hs HS; simpl in *; [by split|].
  apply Forall_cons in Hs as [[_ Hn] Hs]. simpl in Hn.
  destruct s; simpl in *.
  - symmetry in Hn. apply negb_true_iff in Hn.
    destruct (IH (flatten sib ++ n :: m) Hs) as [HL HR].
    { revert HS. rewrite <- !app_assoc. simpl. done. }
    split; [|done]. apply Forall_app. split; [done|].
    rewrite <- app_assoc in HS. apply in_order_app in HS as (_ & HS & _).
    rewrite <- app_assoc in HS. apply in_order_app in HS as (_ & _ & HS).
    apply Forall_app. split; [|by constructor]. apply Forall_forall. intros x Hx.
    destruct (lt node x) eqn:E; [|done]. apply (lt_cotrans _ _ n) in E as [E|E]; [congruence|].
    rewrite (HS x n) in E by set_solver. done.
  - symmetry in Hn. apply negb_false_iff in Hn.
    destruct (IH (m ++ n :: flatten sib) Hs) as [HL HR].
    { revert HS. rewrite app_nil_r, <- !app_assoc. simpl. done. }
    split; [by rewrite app_nil_r|]. constructor; [done|]. apply Forall_app. split; [|done].
    apply in_order_app in HS as (_ & HS & _). apply in_order_app in HS as (_ & HS & _).
    apply StronglySorted_inv in HS as [_ HF]. apply Forall_app in HF as [HF _].
    eapply Forall_impl; [exact HF|]. intros x Hx. simpl in Hx.
    apply (lt_cotrans _ _ x) in Hn as [?|E]; [done|congruence].
Qed.

(** A node that compares as different from the others is not beside the path
    of its search. *)
Definition separated (node : Z) (l : list Z) : Prop :=
  forall x, x ∈ l -> x <> node -> lt node x = true \/ lt x node = true.

Lemma searched_absent node k m :
  searched node k -> in_order (lefts k ++ m ++ rights k) -> separated node (lefts k ++ m ++ rights k) ->
  node ∉ lefts k /\ node ∉ rights k.
Proof.
  revert m. induction k as [|[s c n sib] k IH]; intros m Hs HS Hd; simpl in *; [set_solver|].
  apply Forall_cons in Hs as [[Hne Hn] Hs]. simpl in Hne, Hn.
  assert (lt node n = true \/ lt n node = true) as Hsep.
  { apply Hd; [|done]. destruct s; simpl; set_solver. }
  destruct s; simpl in *.
  - symmetry in Hn. apply negb_true_iff in Hn. rewrite <- !app_assoc in HS, Hd. simpl in HS, Hd.
    destruct (IH (flatten sib ++ n :: m) Hs) as [HL HR].
    { by rewrite <- app_assoc. }
    { by rewrite <- app_assoc. }
    split; [|done]. rewrite !elem_of_app, list_elem_of_singleton. intros [?|[Hin|?]]; [done| |congruence].
    apply in_order_app in HS as (_ & HS & _). apply in_order_app in HS as (_ & _ & HS).
    rewrite (HS node n) in Hsep by set_solver. destruct Hsep; congruence.
  - symmetry in Hn. apply negb_false_iff in Hn. rewrite app_nil_r in *.
    destruct (IH (m ++ n :: flatten sib) Hs) as [HL HR].
    { by rewrite <- app_assoc. }
    { by rewrite <- app_assoc. }
    split; [done|]. rewrite elem_of_cons, elem_of_app. intros [?|[Hin|?]]; [congruence| |done].
    apply in_order_app in HS as (_ & HS & _). apply in_order_app in HS as (_ & HS & _).
    apply StronglySorted_inv in HS as [_ HF]. rewrite Forall_forall in HF. rewrite HF in Hn by set_solver. done.
Qed.

Lemma insort_app node l1 l2 :
  Forall (fun x => lt node x = false) l1 -> Forall (fun x => lt node x = true) l2 ->
  insort node (l1 ++ l2) = l1 ++ node :: l2.
Proof.
  intros H1 H2. induction H1 as [|x l1 Hx H1 IH]; simpl.
  - destruct H2 as [|y l2 Hy H2]; simpl; [done|]. by rewrite Hy.
  - rewrite Hx. by f_equal.
Qed.

Lemma insort_in_order node l : in_order l -> in_order (insort node l).
Proof.
  intros HS. induction HS as [|x l HS IH HF]; simpl; [by repeat constructor|].
  assert (forall z, z ∈ insort node l -> z = node \/ z ∈ l) as Hin.
  { clear. induction l as [|y l IH]; simpl; [set_solver|]. destruct (lt node y); set_solver. }
  destruct (lt node x) eqn:E.
  - constructor; [by constructor|]. rewrite Forall_forall in HF |- *. intros y [->|Hy]%elem_of_cons.
    + by apply lt_asym.
    + destruct (lt y node) eqn:E'; [|done]. apply (lt_cotrans _ _ x) in E' as [E'|E'].
      * rewrite HF in E' by done. done.
      * by apply lt_asym in E; congruence.
  - constructor; [done|]. rewrite Forall_forall in HF |- *. intros y [->|Hy]%Hin; auto.
Qed.

Lemma without_in_order node l : in_order l -> in_order (without node l).
Proof using lt.
  clear weak_order0.
  intros HS. induction HS as [|x l HS IH HF]; simpl; [constructor|]. unfold without in *.
  rewrite filter_cons. case_decide; [|done]. constructor; [done|].
  rewrite Forall_forall in HF |- *. intros y [_ Hy]%list_elem_of_filter. auto.
Qed.

(** ** The invariant *)

Definition depth (s : state) : nat := Z.to_nat (max_depth (tree s)).

Record rb_tree (s : state) (t : tr) (H : nat) : Prop := {
  r_root : root (tree s) = ptr t;
  r_rep : rep (nodes s) t;
  r_nodup : NoDup (flatten t);
  r_ptrs : Forall node_ptr (flatten t);
  r_depth : 0 <= max_depth (tree s);
  r_balanced : balanced (depth s) t H
}.

Definition rb_inv (s : state) (l : list Z) : Prop :=
  exists t H, rb_tree s t H /\ flatten t = l /\ in_order l.

(** ** [find_and_stack] *)

(** Where the search for [node] ends: at [node], or above an empty place. *)
Definition found (node : Z) (t0 : tr) (sd : bool) (c : rb_color) (p : Z) (x y : tr) (k : list frame) : Prop :=
  zip (mk sd c p x y) k = t0 /\ searched node k /\ sd = negb (lt node p) /\ (p = node \/ p <> node /\ x = Leaf).

Lemma find_loop_spec m0 N len fuel T s node t k sz :
  holds m0 N len T s (zip t k) (ptr t :: names k) -> t <> Leaf -> sz = Z.of_nat (length k) + 1 ->
  (height t <= fuel)%nat -> (height t + length k <= len)%nat -> searched node k ->
  wp (find_and_stack_loop lt fuel node sz) s (fun sz' s' =>
    exists sd c p x y k', found node (zip t k) sd c p x y k' /\ sz' = Z.of_nat (length k') + 1 /\
      holds m0 N len T s' (zip t k) (p :: names k')).
Proof.
  revert s t k sz. induction fuel as [|fuel IH]; intros s t k sz Hh Hl -> Hfu Hht Hs.
  { destruct t; simpl in Hfu; [done|lia]. }
  simpl. pose proof (names_length k) as Hlk.
  apply wp_bind. eapply (wp_slot_at _ _ _ _ _ _ _ []); [done|done|simpl; lia|].
  set (sd := negb (lt node (ptr t))).
  destruct (mk_cases sd t) as [->|(c & n & x & y & Et)]; [done|].
  assert (ptr t = n) as Ep by (by rewrite Et, ptr_mk).
  assert (sd = negb (lt node n)) as Esd' by (unfold sd; by rewrite Ep). clearbody sd. rewrite Ep in *.
  assert ((if lt node n then false else true) = sd) as Esd by (rewrite Esd'; by destruct (lt node n)).
  destruct (Z.eqb_spec n node) as [En|En].
  { apply wp_ret. exists sd, c, n, x, y, k. rewrite Et in *. unfold found. auto 10. }
  rewrite Esd. rewrite Et in Hh. apply wp_bind. eapply wp_child_in; [exact Hh|].
  pose proof (h_ptrs _ _ _ _ _ _ _ Hh) as Hp. apply Forall_perm_focus in Hp as (_ & Hpx & _).
  rewrite ptr_null by done. rewrite Et, height_mk in Hht, Hfu. case_bool_decide as Hx; simpl.
  { apply wp_ret. exists sd, c, n, x, y, k. rewrite Et in *. unfold found. auto 10. }
  apply wp_bind. eapply wp_slot_push; [exact Hh|simpl|simpl; lia|].
  { destruct x; [done|]. simpl in Hht. lia. }
  intros s' H'. rewrite Et, zip_focus in *. eapply (IH s' x (Fr sd c n y :: k)); try done.
  - simpl; lia.
  - lia.
  - simpl; lia.
  - constructor; done.
Qed.

(** The start of an operation: the stack is set up and the search is run. *)
Lemma find_spec s t H node (Q : Z -> state -> Prop) N :
  rb_tree s t H -> t <> Leaf -> flatten t ⊆ N ->
  (forall sz s' sd c p x y k, found node t sd c p x y k -> sz = Z.of_nat (length k) + 1 ->
     holds (nodes s) N (S (depth s)) (tree s) s' t (p :: names k) -> Q sz s') ->
  wp (local_stack ;;; find_and_stack lt node) s Q.
Proof.
  intros [] Ht HN HQ. pose proof (b_height _ _ _ r_balanced0) as Hht.
  assert (1 <= height t)%nat as Hh1 by (destruct t; [done|simpl; lia]).
  apply wp_bind. unfold local_stack. apply wp_bind, wp_gets, wp_modify.
  unfold find_and_stack. apply wp_bind, wp_gets. apply wp_bind, wp_gets. apply wp_bind.
  assert (Z.to_nat (max_depth (tree s) + 1) = S (depth s)) as Ed by (unfold depth; lia).
  eapply (wp_slot_push (nodes s) N (S (depth s)) (tree s) _ t []); [|simpl; lia|done|].
  { split; simpl; try done.
    - by eexists.
    - by rewrite length_replicate. }
  intros s1 H1. simpl. simpl in H1. rewrite length_replicate, Ed. rewrite r_root0 in H1.
  eapply wp_weaken; [eapply (find_loop_spec _ _ _ _ _ _ _ t []); try done|].
  - lia.
  - simpl. lia.
  - constructor.
  - simpl. intros sz s2 (sd & c & p & x & y & k & Hf & Hsz & H2). by eapply HQ.
Qed.

(** ** [rb_insert] *)

Lemma wp_clear {A} node s (m : M A) Q :
  is_Some (nodes s !! node) ->
  (forall c0, wp m (s <| nodes ::= <[node := nv false c0 NULL NULL]> |>) Q) ->
  wp (set_child node false NULL ;;; set_child node true NULL ;;; m) s Q.
Proof.
  intros [[v0 v1] E] HQ. specialize (HQ (color_of (Z.land v0 1))).
  apply wp_bind. unfold set_child. apply wp_bind. eapply wp_load; [done|]. apply wp_store; [done|].
  apply wp_bind. apply wp_bind. eapply wp_load; [simpl; by simplify_map_eq|].
  apply wp_store; [simpl; by simplify_map_eq|]. simpl. unfold upd, set_nodes in *; simpl in *.
  rewrite insert_insert_eq. unfold nv in HQ. rewrite bit_color in HQ. rewrite Z.lor_0_l. exact HQ.
Qed.

(** The nodes outside [l] keep their contents, and no node appears or goes. *)
Definition only_nodes (l : list Z) (s s' : state) : Prop :=
  (forall x, x ∉ l -> nodes s' !! x = nodes s !! x) /\
  (forall x, is_Some (nodes s' !! x) <-> is_Some (nodes s !! x)).

(** What is left to do once the tree is repaired. *)
Lemma repaired_tree m0 N len T l s s1 :
  repaired m0 N len T (depth s1) l s -> 0 <= max_depth (tree s1) ->
  nodes s1 = nodes s -> stack s1 = stack s ->
  wp (top <- slot 0 ;; modify (fun s => s <| tree := (tree s) <| root := top |> |>)) s1 (fun _ s' =>
    (exists t' H', flatten t' = l /\ rb_tree s' t' H') /\
    (forall x, x ∉ N -> nodes s' !! x = m0 !! x) /\ (forall x, is_Some (nodes s' !! x) <-> is_Some (m0 !! x))).
Proof.
  intros (t' & H' & l' & Hh & Hb & Hf & Hl) Hmd En Es. destruct Hh.
  apply wp_bind. apply last_Some in Hl as [l0 ->]. eapply wp_slot; [done..|]. apply wp_modify. simpl. rewrite En.
  split; [|done]. exists t', H'. split; [done|]. split; try done. simpl. by rewrite En.
Qed.

Lemma rb_insert_first s node :
  root (tree s) = NULL -> node_ptr node -> is_Some (nodes s !! node) ->
  wp (rb_insert lt node) s (fun _ s' => rb_inv s' [node] /\ only_nodes [node] s s').
Proof.
  intros Hr Hn Hv. apply wp_clear; [done|]. intros c0.
  apply wp_bind, wp_gets. simpl. rewrite Hr. simpl. apply wp_bind, wp_modify.
  eapply (wp_set_color_nv node false c0 BLACK NULL NULL); [simpl; by simplify_map_eq|by exists 0..|].
  split.
  - exists (mk false BLACK node Leaf Leaf), 1%nat. split_and!; [|done|repeat constructor].
    split; simpl; try done.
    + split_and!; [by simplify_map_eq|done..].
    + apply NoDup_singleton.
    + by constructor.
  - split; simpl.
    + intros x Hx. rewrite !lookup_insert_ne by set_solver. done.
    + intros x. rewrite insert_insert_eq. by apply is_Some_insert.
Qed.

(** The height of the tree with the new node attached. *)
Lemma attach_fits D D' sd c p y k t :
  (height (zip (mk sd c p Leaf y) k) <= D)%nat -> (D <= D')%nat -> (length k + 2 <= D')%nat ->
  height t = 1%nat ->
  (height t + length (Fr sd c p y :: k) <= D')%nat /\ kfits D' (Fr sd c p y :: k).
Proof.
  intros Hh HD Hk Ht. assert (height (zip (mk sd c p t y) k) <= D')%nat as Hz.
  { rewrite zip_height in Hh |- *. rewrite height_mk in *. destruct Hh as [Hh Hf]. split; [simpl in Hh; lia|].
    clear -Hf HD. induction k as [|f k IH]; simpl in *; [done|]. split; [lia|]. apply IH. tauto. }
  rewrite zip_focus in Hz. by apply zip_height in Hz.
Qed.

Lemma rb_insert_next s l t H node :
  rb_tree s t H -> t <> Leaf -> flatten t = l -> in_order l ->
  node_ptr node -> is_Some (nodes s !! node) -> node ∉ l ->
  wp (rb_insert lt node) s (fun _ s' => rb_inv s' (insort node l) /\ only_nodes (node :: l) s s').
Proof.
  intros Ht Hl Hfl HS Hn Hv Hnew. apply wp_clear; [done|]. intros c0.
  set (s0 := s <| nodes ::= <[node := nv false c0 NULL NULL]> |>).
  assert (rb_tree s0 t H) as Ht0.
  { destruct Ht. split; try done. unfold s0; simpl. apply rep_insert_ne; [|done]. by rewrite Hfl. }
  apply wp_bind, wp_gets.
  rewrite (r_root _ _ _ Ht0), ptr_null, bool_decide_eq_false_2 by (apply Ht || done). apply wp_assoc, wp_bind.
  eapply (find_spec s0 t H node _ l); [done|done|by rewrite Hfl|].
  intros sz s1 sd c p x y k (Ez & Hse & Esd & Hpx) -> H1.
  destruct Hpx as [->|[Hpn ->]].
  { destruct Hnew. rewrite <- Hfl, <- Ez, flatten_zip, flatten_mk. set_solver. }
  assert (nodes s1 !! node = Some (nv false c0 NULL NULL)) as En.
  { rewrite (h_out _ _ _ _ _ _ _ H1) by done. unfold s0; simpl. by simplify_map_eq. }
  rewrite <- Ez in H1. apply (holds_sub _ _ (node :: l)) in H1; [|set_solver]. pose proof (names_length k) as Hlk.
  apply wp_bind. eapply (wp_slot_at _ _ _ _ _ _ _ []); [exact H1|done|simpl; lia|].
  assert ((if lt node p then false else true) = sd) as -> by (rewrite Esd; by destruct (lt node p)).
  apply wp_bind. eapply wp_attach; [exact H1|done|done|set_solver|by rewrite Ez, Hfl|]. intros s2 H2.
  rewrite zip_focus in H2. apply wp_bind. eapply wp_set_color; [exact H2|]. intros s3 H3.
  destruct Ht0 as [_ _ _ _ Hd Hb]. destruct Hb as [Hv0 Hr0 Hh0 Hb0].
  rewrite <- Ez, zip_focus in Hv0, Hr0. destruct (zip_valid_inv _ _ _ Hv0 Hr0) as (h & Vh & _ & HK).
  simpl in Vh. subst h.
  set (md := Z.max (Z.of_nat (length k) + 2) (max_depth (tree s0))).
  destruct (attach_fits (depth s0) (Z.to_nat md) sd c p y k (mk false RED node Leaf Leaf)) as [Hf1 Hf2];
    [by rewrite Ez|unfold depth; lia|lia|done|].
  assert (length k < depth s0)%nat as Hlen.
  { rewrite <- Ez in Hh0. apply zip_height in Hh0. rewrite height_mk in Hh0. lia. }
  apply wp_bind. eapply wp_slot_push; [exact H3|simpl; lia|simpl; lia|]. intros s4 H4.
  apply wp_bind. eapply wp_weaken.
  { eapply (fix_extra_red_loop_spec _ _ _ _ _ (Z.to_nat md)); [exact H4|..]; try done.
    - simpl. lia.
    - simpl. lia.
    - simpl. lia.
    - unfold depth in Hb0. lia. }
  intros [] s5 H5. cbv beta in H5. apply wp_bind.
  eapply wp_weaken with (Q := fun _ s6 => nodes s6 = nodes s5 /\ stack s6 = stack s5 /\ max_depth (tree s6) = md).
  { destruct (Z.gtb_spec (Z.of_nat (length k) + 1 + 1) (max_depth (tree s0))) as [Hg|Hg].
    - apply wp_modify. split_and!; [done..|]. simpl. lia.
    - apply wp_ret. split_and!; [done..|]. destruct H5 as (? & ? & ? & H5 & _). rewrite (h_tree _ _ _ _ _ _ _ H5). lia. }
  intros [] s6 (En6 & Es6 & Ed6).
  eapply wp_weaken; [eapply (repaired_tree _ _ _ _ _ s5 s6); [unfold depth; by rewrite Ed6|lia|done|done]|].
  intros [] s7 ((t' & H' & Hfl' & Ht') & Ho & Hd'). split.
  - exists t', H'. split_and!; [done| |by apply insort_in_order]. rewrite Hfl', flatten_lr.
    rewrite <- Ez, zip_focus, flatten_lr in Hfl. rewrite <- Hfl in HS |- *.
    destruct (searched_lr node (Fr sd c p y :: k) []) as [HL HR]; [by constructor|done|].
    simpl app at 1. symmetry. by apply insort_app.
  - split.
    + intros x Hx. rewrite Ho by done. unfold s0; simpl. rewrite lookup_insert_ne by set_solver. done.
    + intros x. rewrite Hd'. by apply is_Some_insert.
Qed.

End Order.

End RbThm.
