(* ===== verification/RbRemove.v ===== *)
(** Red/black trees: [rb_remove].

    A node with two children first changes places with the biggest node of
    its left subtree, which leaves the other nodes in order; then it has one
    child at most and is unlinked, with [fix_missing_black] where that took a
    black node from a path. *)
From stdpp Require Import gmap.
From S2P Require Import Prelude RbTree RbInv RbFix RbThm.

Module RbRemove.
Import RbTree RbInv RbFix RbThm.

(** ** The swap *)

Lemma names_app k k' : names (k ++ k') = names k ++ names k'.
Proof. apply fmap_app. Qed.

Lemma knodes_app k k' : knodes (k ++ k') = knodes k ++ knodes k'.
Proof. apply bind_app. Qed.

Lemma repc_app m t k k' : repc m (ptr t) (k ++ k') <-> repc m (ptr t) k /\ repc m (ptr (zip t k)) k'.
Proof.
  revert t. induction k as [|[s c n sib] k IH]; intros t; simpl; [tauto|].
  pose proof (IH (mk s c n t sib)) as IH'. rewrite ptr_mk in IH'. rewrite IH'. unfold plug; simpl. tauto.
Qed.

(** The pointer to a subtree does not depend on what is deep inside it. *)
Lemma ptr_zip t t' k : (k = [] -> ptr t = ptr t') -> ptr (zip t k) = ptr (zip t' k).
Proof.
  revert t t'. induction k as [|[s c n sib] k IH]; intros t t' H; simpl; [by apply H|].
  apply IH. intros _. unfold plug; simpl. by rewrite !ptr_mk.
Qed.

Definition rightmost (k : list frame) : Prop := Forall (fun f => f_side f = true) k.

Lemma stack_right_spec m0 N len fuel T s t k sz :
  holds m0 N len T s (zip t k) (ptr t :: names k) -> t <> Leaf -> sz = Z.of_nat (length k) + 1 ->
  (height t <= fuel)%nat -> (height t + length k <= len)%nat ->
  wp (stack_right fuel (ptr t) sz) s (fun r s' =>
    exists c2 l2 n2 kr, t = zip (mk false c2 n2 l2 Leaf) kr /\ rightmost kr /\
      r = (n2, Z.of_nat (length (kr ++ k)) + 1) /\ holds m0 N len T s' (zip t k) (n2 :: names (kr ++ k))).
Proof.
  revert s t k sz. induction fuel as [|fuel IH]; intros s t k sz Hh Hl -> Hfu Hht.
  { destruct t; simpl in Hfu; [done|lia]. }
  destruct (mk_cases true t) as [->|(c & n & x & y & ->)]; [done|]. rewrite ptr_mk in *. simpl stack_right.
  apply wp_bind. eapply (wp_child_in _ _ _ _ _ _ true); [exact Hh|].
  pose proof (h_ptrs _ _ _ _ _ _ _ Hh) as Hp. apply Forall_perm_focus in Hp as (_ & Hpx & _).
  rewrite ptr_null by done. rewrite height_mk in Hht, Hfu. pose proof (names_length k) as Hlk.
  case_bool_decide as Hx; simpl.
  { apply wp_ret. subst x. exists c, y, n, []. split_and!; try done. constructor. }
  apply wp_bind. eapply wp_slot_push; [exact Hh|simpl|simpl; lia|].
  { destruct x; [done|]. simpl in Hht. lia. }
  intros s1 H1. rewrite zip_focus in H1. eapply wp_weaken.
  { eapply (IH s1 x (Fr true c n y :: k)); [exact H1|done|simpl; lia|lia|simpl; lia]. }
  intros r s2 (c2 & l2 & n2 & kr & Ex & Hr & -> & H2). exists c2, l2, n2, (kr ++ [Fr true c n y]).
  rewrite <- app_assoc. split_and!; [|apply Forall_app; split; [done|by constructor]|done|done].
  rewrite zip_app. by subst x.
Qed.

(** Memory that agrees with the tree after the swap. *)
Lemma swap_rep m1 m' c c2 l2 n2 node kr R k :
  NoDup (node :: n2 :: flatten l2 ++ knodes kr ++ flatten R ++ knodes k) ->
  rep m1 l2 -> rep m1 R -> repc m1 n2 k ->
  m' !! node = Some (nv false c2 (ptr l2) NULL) ->
  m' !! n2 = Some (nv false c (ptr (zip (mk false c2 node l2 Leaf) kr)) (ptr R)) ->
  repc m' node kr ->
  (forall x, x <> node -> x <> n2 -> x ∉ names kr -> m' !! x = m1 !! x) ->
  rep m' (zip (mk false c2 node l2 Leaf) (kr ++ Fr false c n2 R :: k)).
Proof.
  intros Hnd Rl RR Rk E1 E2 Rkr Hm. pose proof (names_knodes kr) as Hkr.
  rewrite !NoDup_cons, !NoDup_app in Hnd. destruct Hnd as (Hn & Hn2 & _ & Hl & _ & HdR & _ & HdRk & _).
  assert (forall x, x ∈ flatten l2 \/ x ∈ flatten R \/ x ∈ knodes k -> m' !! x = m1 !! x) as Hm'.
  { intros x Hx. assert (x ∈ flatten l2 ++ knodes kr ++ flatten R ++ knodes k) as Hin.
    { rewrite !elem_of_app. tauto. }
    apply Hm; [intros ->; by apply Hn; right|intros ->; by apply Hn2|]. intros Hx'%Hkr.
    destruct Hx as [Hx|Hx]; [apply (Hl x Hx)|apply (HdR x Hx')]; rewrite !elem_of_app; tauto. }
  clear Hn Hn2 Hl HdR HdRk Hm.
  apply zip_rep. rewrite (repc_app _ (mk false c2 node l2 Leaf)). simpl. split_and!; try done.
  - eapply rep_ext; [|done]. auto.
  - eapply rep_ext; [|done]. auto.
  - eapply repc_ext; [|done]. auto.
Qed.

(** The stores that exchange the two nodes below the upper one's parent. *)
Definition relink (node node2 loparent : Z) : M unit :=
  (if loparent =? node then
     l <- get_child node2 false ;;
     set_child node false l ;;;
     set_child node2 false node
   else
     lside <- get_side loparent node2 ;;
     set_child loparent lside node ;;;
     tmp <- get_child node false ;;
     l <- get_child node2 false ;;
     set_child node false l ;;;
     set_child node2 false tmp).

Record relinked (s s' : state) (node n2 : Z) (kr : list frame) : Prop := {
  rl_tree : tree s' = tree s;
  rl_stack : stack s' = stack s;
  rl_rep : repc (nodes s') node kr;
  rl_out : forall x, x <> node -> x <> n2 -> x ∉ names kr -> nodes s' !! x = nodes s !! x;
  rl_dom : forall x, is_Some (nodes s' !! x) <-> is_Some (nodes s !! x)
}.

Lemma wp_relink s c c2 pl2 n2 node kr pL pR lo (Q : unit -> state -> Prop) :
  nodes s !! node = Some (nv false c pL pR) -> nodes s !! n2 = Some (nv false c2 pl2 NULL) ->
  repc (nodes s) n2 kr -> rightmost kr -> NoDup (node :: n2 :: knodes kr) ->
  Z.Even pL -> Z.Even pl2 -> node_ptr node -> node_ptr n2 -> Forall node_ptr (knodes kr) ->
  lo = hd node (names kr) -> (kr = [] -> pL = n2) ->
  (forall s', relinked s s' node n2 kr ->
     nodes s' !! node = Some (nv false c pl2 pR) ->
     nodes s' !! n2 = Some (nv false c2 (match kr with [] => node | _ => pL end) NULL) -> Q tt s') ->
  wp (relink node n2 lo) s Q.
Proof.
  intros En E2 Rk Hr Hnd HL Hl2 Hn H2 Hpk -> HpL HQ. unfold relink.
  apply NoDup_cons in Hnd as [Hn2 Hnd]. apply NoDup_cons in Hnd as [H2k Hnd].
  assert (node <> n2) as Hne by set_solver.
  destruct kr as [|[sd lc lo lsib] kr]; simpl hd.
  - rewrite Z.eqb_refl. apply wp_bind. eapply (wp_get_child_nv n2 false); [done|done|].
    apply wp_bind. eapply (wp_set_child_nv node false); [done|done|done|].
    eapply (wp_set_child_nv n2 false); [simpl; by rewrite lookup_insert_ne|done|apply Hn|].
    apply HQ; simpl; [|by rewrite lookup_insert_ne, lookup_insert_eq by done|by simplify_map_eq].
    split; simpl; try done.
    + intros x ? ? _. by rewrite !lookup_insert_ne by done.
    + intros x. rewrite is_Some_insert; [by apply is_Some_insert|]. by rewrite lookup_insert_ne.
  - assert (sd = true) as -> by (by apply Forall_cons in Hr as [? _]).
    unfold knodes in *; simpl in *; fold (knodes kr) in *. destruct Rk as (El & Rs & Rk).
    assert (lo <> node /\ lo <> n2 /\ lo ∉ flatten lsib /\ lo ∉ knodes kr) as (Hln & Hl2' & Hls & Hlk).
    { apply NoDup_cons in Hnd. set_solver. }
    rewrite (proj2 (Z.eqb_neq _ _)) by done.
    apply wp_bind. apply wp_bind. eapply (wp_get_child_nv lo true); [done|apply H2|]. apply wp_ret.
    rewrite Z.eqb_refl.
    apply wp_bind. eapply (wp_set_child_nv lo true); [done|apply H2|apply Hn|].
    apply wp_bind. eapply (wp_get_child_nv node false); [simpl; by rewrite lookup_insert_ne|done|].
    apply wp_bind. eapply (wp_get_child_nv n2 false); [simpl; by rewrite lookup_insert_ne|done|].
    apply wp_bind. eapply (wp_set_child_nv node false); [simpl; by rewrite lookup_insert_ne|done|done|].
    eapply (wp_set_child_nv n2 false); [simpl; by rewrite !lookup_insert_ne|done|done|].
    apply HQ; simpl; [|by rewrite lookup_insert_ne, lookup_insert_eq by done|by simplify_map_eq].
    split; simpl; try done.
    + rewrite !(lookup_insert_ne _ _ lo) by done. split_and!; [by simplify_map_eq|..].
      * repeat (apply rep_insert_ne; [set_solver|]). done.
      * eapply repc_ext; [|done]. intros x Hx. rewrite !lookup_insert_ne by set_solver. done.
    + intros x ? ? ?. by rewrite !lookup_insert_ne by set_solver.
    + intros x. rewrite !is_Some_insert; [done|..]; rewrite ?lookup_insert_ne by done; done.
Qed.

Lemma wp_swap_slots {A} s x a y b i j (rest : M A) Q :
  stk (stack s) (x :: a ++ y :: b) -> i = Z.of_nat (length b) -> j = Z.of_nat (length (a ++ y :: b)) ->
  (forall st, stk st (y :: a ++ x :: b) -> length st = length (stack s) -> wp rest (s <| stack := st |>) Q) ->
  wp (tmp <- slot i ;; top <- slot j ;; set_slot i top ;;; set_slot j tmp ;;; rest) s Q.
Proof.
  intros Hst -> -> HQ. pose proof (stk_length _ _ Hst) as Hl. simpl in Hl. rewrite length_app in Hl. simpl in Hl.
  apply wp_bind. eapply (wp_slot _ (x :: a)); [exact Hst|done|done|].
  apply wp_bind. eapply (wp_slot _ []); [exact Hst|done|done|].
  apply wp_bind, wp_set_slot; [lia|]. rewrite Nat2Z.id.
  apply (stk_replace _ (x :: a) y b x) in Hst.
  apply wp_bind, wp_set_slot; [simpl; rewrite length_insert, length_app; simpl; lia|]. rewrite Nat2Z.id.
  apply HQ; [|simpl; by rewrite !length_insert]. simpl.
  assert (length (a ++ y :: b) = length (a ++ x :: b)) as -> by (rewrite !length_app; done).
  by apply (stk_replace _ [] x (a ++ x :: b) y).
Qed.

(** From [relink] to the end of the swap. *)
Lemma wp_swap_rest s s1 c c2 pl2 pR n2 node kr pN i sz (Q : Z -> state -> Prop) a b :
  relinked s s1 node n2 kr -> node <> n2 -> node ∉ names kr -> n2 ∉ names kr ->
  nodes s1 !! node = Some (nv false c pl2 pR) -> nodes s1 !! n2 = Some (nv false c2 pN NULL) ->
  Z.Even pl2 -> Z.Even pR -> Z.Even pN ->
  stk (stack s) (n2 :: a ++ node :: b) -> i = Z.of_nat (length b) + 1 -> sz = Z.of_nat (length (a ++ node :: b)) + 1 ->
  (forall s', tree s' = tree s -> stk (stack s') (node :: a ++ n2 :: b) -> length (stack s') = length (stack s) ->
     nodes s' !! node = Some (nv false c2 pl2 NULL) -> nodes s' !! n2 = Some (nv false c pN pR) ->
     (forall x, x <> node -> x <> n2 -> nodes s' !! x = nodes s1 !! x) ->
     (forall x, is_Some (nodes s' !! x) <-> is_Some (nodes s !! x)) -> Q sz s') ->
  wp (r <- get_child node true ;; set_child n2 true r ;;; set_child node true NULL ;;;
      tmp <- slot (i - 1) ;; top <- slot (sz - 1) ;; set_slot (i - 1) top ;;; set_slot (sz - 1) tmp ;;;
      ctmp <- get_color node ;; c' <- get_color n2 ;; set_color node c' ;;; set_color n2 ctmp ;;; ret sz) s1 Q.
Proof.
  intros [Et Es Rk Ho Hd] Hne Hnk H2k En E2 Hl2 HR HN Hst -> -> HQ. rewrite <- Es in Hst.
  assert (Z.Even NULL) as H0 by (by exists 0).
  apply wp_bind. eapply (wp_get_child_nv node true c pR pl2); [exact En|done|].
  apply wp_bind. eapply (wp_set_child_nv n2 true c2 NULL pN); [exact E2|done|done|].
  apply wp_bind. eapply (wp_set_child_nv node true c pR pl2); [simpl; by rewrite lookup_insert_ne|done|done|].
  eapply wp_swap_slots; [exact Hst|lia|lia|]. intros st Hst' Hlen.
  apply wp_bind. eapply (wp_get_color_nv node true c NULL pl2); [simpl; by simplify_map_eq|done|done|].
  apply wp_bind. eapply (wp_get_color_nv n2 true c2 pR pN); [simpl; by rewrite lookup_insert_ne, lookup_insert_eq by done|done|done|].
  apply wp_bind. eapply (wp_set_color_nv node true c c2 NULL pl2); [simpl; by simplify_map_eq|done|done|].
  apply wp_bind. eapply (wp_set_color_nv n2 true c2 c pR pN); [simpl; by rewrite !lookup_insert_ne, lookup_insert_eq by done|done|done|].
  apply wp_ret. apply HQ; simpl; try done.
  - by rewrite Hlen, <- Es.
  - rewrite lookup_insert_ne, lookup_insert_eq by done. done.
  - by rewrite lookup_insert_eq.
  - intros x ? ?. by rewrite !lookup_insert_ne by done.
  - intros x. rewrite <- Hd. rewrite !is_Some_insert; [done|..].
    all: repeat (destruct (decide (node = n2)); [done|]; rewrite ?lookup_insert_eq, ?lookup_insert_ne by done; eauto).
Qed.

(** The two nodes of a swap and the trees around them are apart. *)
Lemma swap_perm c node c2 n2 l2 kr R k :
  flatten (zip (mk false c node (zip (mk false c2 n2 l2 Leaf) kr) R) k) ≡ₚ
  node :: n2 :: flatten l2 ++ knodes kr ++ flatten R ++ knodes k.
Proof. rewrite flatten_zip, flatten_mk, flatten_zip, flatten_mk. simpl. solve_Permutation. Qed.

Lemma swap_perm' c node c2 n2 l2 kr R k :
  flatten (zip (mk false c2 node l2 Leaf) (kr ++ Fr false c n2 R :: k)) ≡ₚ
  node :: n2 :: flatten l2 ++ knodes kr ++ flatten R ++ knodes k.
Proof.
  rewrite flatten_zip, flatten_mk, knodes_app. unfold knodes at 2; simpl. fold (knodes k). solve_Permutation.
Qed.

(** The store to the upper node's parent, or to the root. *)
Lemma wp_hiparent m0 N len T s t k l node n2 hp (Q : unit -> state -> Prop) :
  holds m0 N len T s (zip t k) l -> t <> Leaf -> node = ptr t -> node_ptr n2 -> hp = hd NULL (names k) ->
  (forall s1, max_depth (tree s1) = max_depth T -> stack s1 = stack s -> repc (nodes s1) n2 k ->
     (forall x, x ∉ names k -> nodes s1 !! x = nodes s !! x) ->
     (forall x, is_Some (nodes s1 !! x) <-> is_Some (nodes s !! x)) -> Q tt s1) ->
  wp (if negb (hp =? NULL) then hside <- get_side hp node ;; set_child hp hside n2
      else modify (fun s => s <| tree := (tree s) <| root := n2 |> |>)) s Q.
Proof.
  intros Hh Ht En H2 -> HQ. pose proof (h_tree _ _ _ _ _ _ _ Hh) as HT.
  pose proof (wp_retarget _ _ _ _ _ _ _ _ node n2 Q Hh Ht En H2) as Hr.
  destruct k as [|[sd c g sib] k]; simpl hd.
  - simpl. apply wp_modify. apply HQ; try done. simpl. by rewrite HT.
  - pose proof (h_ptrs _ _ _ _ _ _ _ Hh) as Hp. rewrite flatten_zip in Hp. apply Forall_app in Hp as [_ Hp].
    apply Forall_cons in Hp as [[Hg _] _]. rewrite (proj2 (Z.eqb_neq _ _)) by done. simpl.
    apply Hr. intros s1 Et. intros. apply HQ; try done. by rewrite Et, HT.
Qed.

(** The facts about the memory that the swap starts from. *)
Record swap_pre (s : state) (c c2 : rb_color) (node n2 : Z) (l2 R : tr) (kr k : list frame) : Prop := {
  sp_nodup : NoDup (node :: n2 :: flatten l2 ++ knodes kr ++ flatten R ++ knodes k);
  sp_ptrs : Forall node_ptr (node :: n2 :: flatten l2 ++ knodes kr ++ flatten R ++ knodes k);
  sp_node : nodes s !! node = Some (nv false c (ptr (zip (mk false c2 n2 l2 Leaf) kr)) (ptr R));
  sp_n2 : nodes s !! n2 = Some (nv false c2 (ptr l2) NULL);
  sp_l2 : rep (nodes s) l2;
  sp_R : rep (nodes s) R;
  sp_kr : repc (nodes s) n2 kr
}.

Lemma holds_swap_pre m0 N len T s c node c2 n2 l2 kr R k l :
  holds m0 N len T s (zip (mk false c node (zip (mk false c2 n2 l2 Leaf) kr) R) k) l ->
  swap_pre s c c2 node n2 l2 R kr k.
Proof.
  intros Hh. pose proof (focus_at _ _ _ _ _ _ _ _ _ _ _ _ Hh) as (E & _ & _ & RL & RR & _ & _).
  apply zip_rep in RL as [Rm Rkr]. rewrite ptr_mk in Rkr. apply rep_mk in Rm as (E2 & Rl & _).
  split; try done.
  - rewrite <- (swap_perm c node c2). apply (h_nodup _ _ _ _ _ _ _ Hh).
  - rewrite <- (swap_perm c node c2). apply (h_ptrs _ _ _ _ _ _ _ Hh).
Qed.

(** A store outside of these trees, to the parent, leaves the facts. *)
Lemma swap_pre_ext s s' c c2 node n2 l2 R kr k :
  swap_pre s c c2 node n2 l2 R kr k -> (forall x, x ∉ knodes k -> nodes s' !! x = nodes s !! x) ->
  swap_pre s' c c2 node n2 l2 R kr k.
Proof.
  intros [Hnd Hp En E2 Rl RR Rkr] Hs.
  assert (forall x, x ∈ node :: n2 :: flatten l2 ++ knodes kr ++ flatten R -> nodes s' !! x = nodes s !! x) as Hx.
  { intros x Hx. apply Hs. replace (node :: n2 :: flatten l2 ++ knodes kr ++ flatten R ++ knodes k)
      with ((node :: n2 :: flatten l2 ++ knodes kr ++ flatten R) ++ knodes k) in Hnd by (simpl; by rewrite <- !app_assoc).
    apply NoDup_app in Hnd as (_ & Hd & _). by apply Hd. }
  split; try done.
  - rewrite Hx by set_solver. done.
  - rewrite Hx by set_solver. done.
  - eapply rep_ext; [|done]. intros. apply Hx. set_solver.
  - eapply rep_ext; [|done]. intros. apply Hx. set_solver.
  - eapply repc_ext; [|done]. intros. apply Hx. set_solver.
Qed.

Lemma swap_core s c c2 node n2 l2 R kr k lo i sz (Q : Z -> state -> Prop) :
  swap_pre s c c2 node n2 l2 R kr k -> repc (nodes s) n2 k -> rightmost kr ->
  lo = hd node (names kr) -> i = Z.of_nat (length (names k)) + 1 ->
  sz = Z.of_nat (length (names kr ++ node :: names k)) + 1 ->
  stk (stack s) (n2 :: names kr ++ node :: names k) ->
  (forall s', tree s' = tree s -> stk (stack s') (node :: names kr ++ n2 :: names k) ->
     length (stack s') = length (stack s) ->
     rep (nodes s') (zip (mk false c2 node l2 Leaf) (kr ++ Fr false c n2 R :: k)) ->
     (forall x, x <> node -> x <> n2 -> x ∉ knodes kr -> nodes s' !! x = nodes s !! x) ->
     (forall x, is_Some (nodes s' !! x) <-> is_Some (nodes s !! x)) -> Q sz s') ->
  wp (relink node n2 lo ;;;
      r <- get_child node true ;; set_child n2 true r ;;; set_child node true NULL ;;;
      tmp <- slot (i - 1) ;; top <- slot (sz - 1) ;; set_slot (i - 1) top ;;; set_slot (sz - 1) tmp ;;;
      ctmp <- get_color node ;; c' <- get_color n2 ;; set_color node c' ;;; set_color n2 ctmp ;;; ret sz) s Q.
Proof.
  intros Hpre Rk Hr Hlo Hi Hsz Hst HQ. destruct Hpre as [Hnd Hp En E2 Rl RR Rkr].
  pose proof (names_knodes kr) as Hkk. pose proof Hnd as Hnd'. pose proof Hp as Hp'.
  rewrite !Forall_cons, !Forall_app in Hp'. destruct Hp' as (Pn & P2 & Pl & Pkr & PR & _).
  rewrite !NoDup_cons, !elem_of_cons, !elem_of_app in Hnd'. destruct Hnd' as (Hn & Hn2 & Hnd').
  assert (Z.Even (ptr (zip (mk false c2 n2 l2 Leaf) kr))) as HE.
  { apply ptr_even. rewrite flatten_zip, flatten_mk. simpl. rewrite app_nil_r, Forall_cons, Forall_app. done. }
  apply wp_bind. eapply wp_relink; [exact En|exact E2|exact Rkr|done| |done|by apply ptr_even|done|done|done|done| |].
  { rewrite !NoDup_cons, elem_of_cons. apply NoDup_app in Hnd' as (_ & _ & Hnd').
    apply NoDup_app in Hnd' as (Hnd' & _). tauto. }
  { intros ->. done. }
  intros s1 Hrl En1 E21. pose proof Hrl as [_ _ Rkr1 Ho1 _].
  eapply wp_swap_rest; [exact Hrl|tauto| | |exact En1|exact E21|by apply ptr_even|by apply ptr_even| |exact Hst|done|done|].
  1,2: intros ?%Hkk; tauto.
  { destruct kr; [apply Pn|done]. }
  intros s' Et Hst' Hlen En' E2' Ho Hd. apply HQ; try done.
  - eapply (swap_rep (nodes s)); try done.
    + rewrite E2'. do 2 f_equal. destruct kr as [|f kr]; [done|]. by apply ptr_zip.
    + eapply repc_ext; [|exact Rkr1]. intros x Hx. apply Ho; intros ->; tauto.
    + intros x ? ? ?. rewrite Ho by done. by apply Ho1.
  - intros x ? ? Hx. rewrite Ho by done. apply Ho1; [done..|]. intros ?%Hkk. done.
Qed.

Lemma swap_down_spec m0 N D T s c node L R k sz (Q : Z -> state -> Prop) :
  holds m0 N (S D) T s (zip (mk false c node L R) k) (node :: names k) -> L <> Leaf ->
  sz = Z.of_nat (length k) + 1 -> (height (mk false c node L R) + length k <= D)%nat ->
  (forall T' s' c2 l2 n2 kr, max_depth T' = max_depth T -> L = zip (mk false c2 n2 l2 Leaf) kr -> rightmost kr ->
     holds m0 N (S D) T' s' (zip (mk false c2 node l2 Leaf) (kr ++ Fr false c n2 R :: k))
       (node :: names (kr ++ Fr false c n2 R :: k)) ->
     Q (Z.of_nat (length (kr ++ Fr false c n2 R :: k)) + 1) s') ->
  wp (swap_down node sz) s Q.
Proof.
  intros Hh HL -> Hht HQ. pose proof (names_length k) as Hlk. rewrite height_mk in Hht.
  assert (1 <= height L)%nat as HL1 by (destruct L; simpl; [done|lia]).
  unfold swap_down. apply wp_bind. eapply (wp_child_in _ _ _ _ _ _ false); [exact Hh|].
  apply wp_bind. eapply wp_weaken with (Q := fun hp s' => s' = s /\ hp = hd NULL (names k)).
  { destruct k as [|[gs gc g gsib] k]; simpl; [by apply wp_ret|].
    rewrite (proj2 (Z.gtb_gt _ 1)) by lia. rewrite names_length in Hlk.
    eapply (wp_slot_at _ _ _ _ _ _ _ [node] g (names k)); [exact Hh|done|rewrite names_length; lia|done]. }
  intros hp s' [-> Ehp].
  apply wp_bind. eapply wp_slot_push; [exact Hh|simpl; lia|simpl; lia|]. intros s1 H1.
  apply wp_bind, wp_gets. rewrite (h_len _ _ _ _ _ _ _ H1). rewrite zip_focus in H1.
  apply wp_bind. eapply wp_weaken.
  { eapply (stack_right_spec _ _ _ _ _ _ L (Fr false c node R :: k)); [exact H1|done|simpl; lia|lia|simpl; lia]. }
  intros r s2 (c2 & l2 & n2 & kr & EL & Hr & -> & H2). cbv beta iota. rewrite <- zip_focus in H2.
  rewrite names_app, names_cons in H2.
  assert (exists tl, names kr ++ node :: names k = hd node (names kr) :: tl) as [tl Etl].
  { destruct kr; simpl; by eexists. }
  assert (Z.of_nat (length (kr ++ Fr false c node R :: k)) = Z.of_nat (length (names kr ++ node :: names k))) as Elen.
  { rewrite <- names_length, names_app. done. }
  apply wp_bind. eapply (wp_slot_at _ _ _ _ _ _ _ [n2] _ tl); [exact H2|by rewrite Etl|rewrite Elen, Etl; simpl; lia|].
  rewrite EL in H2. pose proof (holds_swap_pre _ _ _ _ _ _ _ _ _ _ _ _ _ _ H2) as Hpre.
  apply wp_bind. eapply wp_hiparent; [exact H2|apply mk_not_leaf|by rewrite ptr_mk| |done|].
  { pose proof (sp_ptrs _ _ _ _ _ _ _ _ _ Hpre) as Hp. rewrite !Forall_cons in Hp. tauto. }
  intros s3 Hmd Es3 Rk3 Ho3 Hd3. pose proof (names_knodes k) as Hkk.
  eapply (swap_core s3); [eapply swap_pre_ext; [exact Hpre|]|done|done|done|lia|by rewrite Elen| |].
  { intros x Hx. apply Ho3. intros ?%Hkk. done. }
  { rewrite Es3. apply (h_stk _ _ _ _ _ _ _ H2). }
  intros s4 Et4 Hst4 Hlen4 Hrep4 Ho4 Hd4.
  assert (length (kr ++ Fr false c node R :: k) = length (kr ++ Fr false c n2 R :: k)) as ->
    by (rewrite !length_app; done).
  eapply (HQ (tree s4)); [by rewrite Et4|done|done|]. rewrite names_app, names_cons.
  pose proof (swap_perm c node c2 n2 l2 kr R k) as Hperm. destruct H2. split; try done.
  all: rewrite ?swap_perm'; try (by rewrite <- Hperm).
  - intros x Hx.
    assert (x ∉ node :: n2 :: flatten l2 ++ knodes kr ++ flatten R ++ knodes k) as Hx'
      by (rewrite <- Hperm; intros Hin; by apply Hx, h_sub0).
    rewrite !not_elem_of_cons, !not_elem_of_app in Hx'. destruct Hx' as (? & ? & ? & ? & ? & ?).
    rewrite Ho4, Ho3 by (done || by intros ?%Hkk). by apply h_out0.
  - intros x. by rewrite Hd4, Hd3.
  - by rewrite Hlen4, Es3.
Qed.

(** ** Unlinking *)

(** A node with one child at most, in a valid tree: the child is a red leaf
    node and the node itself is black. *)
Lemma one_child h c node l r :
  valid h (mk false c node l r) -> l = Leaf \/ r = Leaf ->
  (l = Leaf /\ r = Leaf /\ h = (if c then 0 else 1)%nat) \/
  (c = BLACK /\ h = 1%nat /\
     exists q ch, ch = mk false RED q Leaf Leaf /\ (l = ch /\ r = Leaf \/ l = Leaf /\ r = ch)).
Proof.
  assert (forall t, valid 0 t -> t = Leaf \/ exists q, t = mk false RED q Leaf Leaf) as Hone.
  { intros t Vt. destruct (tcol t) eqn:Ct; [|by left; apply valid_leaf]. right.
    destruct (red_node false _ Ct) as (q & x & y & ->). apply valid_red in Vt as (Cx & Cy & Vx & Vy).
    rewrite (valid_leaf _ Vx Cx), (valid_leaf _ Vy Cy). by eexists. }
  destruct c; [rewrite valid_red|rewrite valid_black].
  - intros (Cl & Cr & Vl & Vr) Ho. left. assert (h = O) as -> by (destruct Ho as [-> | ->]; done).
    rewrite (valid_leaf _ Vl Cl), (valid_leaf _ Vr Cr). done.
  - intros (h' & -> & Vl & Vr) Ho. assert (h' = O) as -> by (destruct Ho as [-> | ->]; done).
    destruct (Hone _ Vl) as [->|[q ->]], (Hone _ Vr) as [->|[q' ->]]; eauto 10. by destruct Ho.
Qed.

Lemma without_middle (node : Z) (a b : list Z) :
  node ∉ a -> node ∉ b -> without node (a ++ node :: b) = a ++ b.
Proof.
  intros Ha Hb. unfold without. rewrite filter_app, filter_cons_False by auto.
  rewrite !filter_all; [done|..]; apply Forall_forall; set_solver.
Qed.

Section Unlink.
Context (m0 : gmap Z rbnode) (N : list Z) (T : rbtree).
Abbreviation D := (Z.to_nat (max_depth T)).

(** What the function leaves, for the nodes [l]. *)
Definition unlinked (l : list Z) (s' : state) : Prop :=
  (exists t' H', flatten t' = l /\ rb_tree s' t' H') /\
  (forall x, x ∉ N -> nodes s' !! x = m0 !! x) /\ (forall x, is_Some (nodes s' !! x) <-> is_Some (m0 !! x)).

(** The child of the node that goes. *)
Lemma wp_only_child s c node l r k st (Q : Z -> state -> Prop) :
  holds m0 N (S D) T s (zip (mk false c node l r) k) st ->
  Q (ptr (if bool_decide (l = Leaf) then r else l)) s ->
  wp (l <- get_child node false ;; if l =? NULL then get_child node true else ret l) s Q.
Proof.
  intros Hh HQ. apply wp_bind. eapply (wp_child_in _ _ _ _ _ _ false); [exact Hh|].
  pose proof (h_ptrs _ _ _ _ _ _ _ Hh) as Hp. apply Forall_perm_focus in Hp as (_ & Hpl & _).
  rewrite ptr_null by done. case_bool_decide; [by eapply (wp_child_out _ _ _ _ _ _ false)|by apply wp_ret].
Qed.

(** Removing the root. *)
Lemma unlink_root s c node l r H :
  0 <= max_depth T -> holds m0 N (S D) T s (mk false c node l r) [node] ->
  balanced D (mk false c node l r) H -> l = Leaf \/ r = Leaf ->
  wp (unlink node 1) s (fun _ => unlinked (flatten l ++ flatten r)).
Proof.
  intros Hmd Hh [Vt Ct Ht Hb] Hlr. unfold unlink. apply wp_assoc, wp_bind.
  eapply (wp_only_child _ _ _ _ _ []); [exact Hh|]. cbn.
  apply wp_bind, wp_modify. pose proof (h_tree _ _ _ _ _ _ _ Hh) as HT.
  destruct (one_child _ _ _ _ _ Vt Hlr) as [(-> & -> & Eh)|(-> & -> & q & ch & -> & Hch)].
  - simpl. apply wp_modify. destruct Hh. split; [|done]. exists Leaf, O. split; [done|].
    split; try done; [constructor|]. split; simpl; [done|done|lia|lia].
  - assert ((if bool_decide (l = Leaf) then r else l) = mk false RED q Leaf Leaf) as ->
      by (destruct Hch as [[-> ->]|[-> ->]]; done).
    assert (flatten l ++ flatten r = [q]) as -> by (destruct Hch as [[-> ->]|[-> ->]]; done).
    rewrite height_mk in Ht.
    assert (nodes s !! q = Some (nv false RED NULL NULL) /\ node_ptr q /\ q ∈ N /\ (2 <= D)%nat) as (Eq & Hq & HqN & HD).
    { destruct Hh. destruct Hch as [[-> ->]|[-> ->]]; simpl in *; rewrite !Forall_cons in *; set_solver by lia. }
    rewrite ptr_mk, (proj2 (Z.eqb_neq _ _)) by apply Hq. simpl.
    eapply (wp_set_color_nv q false RED BLACK NULL NULL); [exact Eq|by exists 0..|].
    destruct Hh. split.
    + exists (mk false BLACK q Leaf Leaf), 1%nat. split; [done|]. split; simpl; rewrite ?HT; try done.
      * by simplify_map_eq.
      * apply NoDup_singleton.
      * by constructor.
      * split; simpl; [done|done| |]; unfold depth; simpl; try rewrite HT; lia.
    + simpl. split; [intros x Hx; rewrite lookup_insert_ne by congruence; auto|].
      intros x. rewrite is_Some_insert by done. auto.
Qed.

(** A node without children. *)
Lemma unlink_leaf s c node ps pc p psib k H :
  holds m0 N (S D) T s (zip (mk false c node Leaf Leaf) (Fr ps pc p psib :: k)) (node :: p :: names k) ->
  balanced D (zip (mk false c node Leaf Leaf) (Fr ps pc p psib :: k)) H ->
  wp (black <- is_black node ;;
      if (black : bool) then fix_missing_black (Z.of_nat (S (length k)) + 1) node
      else side <- get_side p node ;; set_child p side NULL) s
    (fun _ => repaired m0 N (S D) T D (flatten (zip Leaf (Fr ps pc p psib :: k)))).
Proof.
  intros Hh [Vt Ct Ht Hb]. destruct (zip_valid_inv _ _ _ Vt Ct) as (h & Vn & Hc & HK).
  apply zip_height in Ht as [Ht Hf]. simpl height in Ht.
  destruct (one_child _ _ _ _ _ Vn (or_introl eq_refl)) as [(_ & _ & ->)|(_ & _ & q & ch & -> & [[? _]|[_ ?]])]; [|done..].
  apply wp_bind. eapply wp_is_black; [exact Hh|]. destruct c; simpl.
  - apply wp_bind. eapply wp_get_side; [exact Hh|done|done|].
    eapply (wp_set_child _ _ _ _ _ _ _ _ _ _ Leaf); [exact Hh|done|constructor|set_solver|done|]. intros s' H' _.
    rewrite zip_focus in H'. eapply (repaired_zip _ _ _ _ _ _ Leaf); [exact H'| |done|done|exact HK|simpl in *; lia|done|lia|done].
    apply (last_zip Leaf (Fr ps pc p psib :: k)).
  - eapply (fix_missing_black_loop_spec _ _ _ _ _ D s node _ Leaf (Fr ps pc p psib :: k) node 0); [done|exact Hh|..]; try done.
    + by left.
    + simpl. lia.
    + pose proof (h_nodup _ _ _ _ _ _ _ Hh) as Hnd. rewrite flatten_zip in Hnd |- *.
      simpl in Hnd |- *. by apply NoDup_cons in Hnd as [? _].
    + simpl in *. lia.
Qed.

(** A node with one child. *)
Lemma unlink_one s c node l r q ps pc p psib k H :
  holds m0 N (S D) T s (zip (mk false c node l r) (Fr ps pc p psib :: k)) (node :: p :: names k) ->
  balanced D (zip (mk false c node l r) (Fr ps pc p psib :: k)) H ->
  l = mk false RED q Leaf Leaf /\ r = Leaf \/ l = Leaf /\ r = mk false RED q Leaf Leaf ->
  wp (side <- get_side p node ;; set_child p side q ;;;
      nred <- is_red node ;; red <- (if (nred : bool) then ret true else is_red q) ;;
      if (red : bool) then set_color q BLACK else ret tt) s
    (fun _ => repaired m0 N (S D) T D (lefts (Fr ps pc p psib :: k) ++ [q] ++ rights (Fr ps pc p psib :: k))).
Proof.
  intros Hh [Vt Ct Ht Hb] Hlr. destruct (zip_valid_inv _ _ _ Vt Ct) as (h & Vn & Hc & HK).
  apply zip_height in Ht as [Ht Hf]. rewrite height_mk in Ht.
  assert (c = BLACK /\ h = 1%nat) as [-> ->].
  { destruct (one_child _ _ _ _ _ Vn) as [(-> & -> & _)|(-> & -> & _)]; [|by destruct Hlr as [[? _]|[_ ?]]|done].
    destruct Hlr as [[-> ->]|[-> ->]]; auto. }
  assert (1 <= height l `max` height r)%nat by (destruct Hlr as [[-> ->]|[-> ->]]; simpl; lia).
  destruct (focus_at _ _ _ _ _ _ _ _ _ _ _ _ Hh) as (En & El & Er & Rl & Rr & _).
  pose proof (h_nodup _ _ _ _ _ _ _ Hh) as Hnd.
  assert (node <> p) as Hnp.
  { rewrite <- zip_focus in Hnd. destruct (focus_nodup _ _ _ _ _ _ Hnd) as ((Hx & _) & _).
    rewrite flatten_mk in Hx. set_solver. }
  apply wp_bind. eapply wp_get_side; [exact Hh|apply mk_not_leaf|by rewrite ptr_mk|].
  apply wp_bind. eapply (wp_set_child _ _ _ _ _ _ _ _ _ _ (mk false RED q Leaf Leaf)); [exact Hh| |..|done|].
  { by destruct Hlr as [[-> ->]|[-> ->]]. }
  { apply NoDup_singleton. }
  { rewrite flatten_mk. destruct Hlr as [[-> ->]|[-> ->]]; simpl; set_solver. }
  intros s1 H1 Ho1. rewrite zip_focus in H1.
  apply wp_bind. apply wp_bind. eapply (wp_get_color_nv node false BLACK); [rewrite Ho1 by done; exact En|done|done|].
  apply wp_ret. simpl. apply wp_bind. eapply wp_is_red; [exact H1|]. simpl.
  eapply wp_set_color; [exact H1|]. intros s2 H2.
  eapply (repaired_zip _ _ _ _ _ _ (mk false BLACK q Leaf Leaf)); [exact H2| | | |exact HK| |done|lia|].
  - apply (last_zip (mk false BLACK q Leaf Leaf) (Fr ps pc p psib :: k)).
  - done.
  - done.
  - simpl in *. lia.
  - by rewrite flatten_lr.
Qed.

Lemma unlink_spec s c node l r k H :
  0 <= max_depth T -> holds m0 N (S D) T s (zip (mk false c node l r) k) (node :: names k) ->
  balanced D (zip (mk false c node l r) k) H -> l = Leaf \/ r = Leaf ->
  wp (unlink node (Z.of_nat (length k) + 1)) s (fun _ => unlinked (lefts k ++ (flatten l ++ flatten r) ++ rights k)).
Proof.
  intros Hmd Hh Hb Hlr. destruct k as [|[ps pc p psib] k].
  { simpl. rewrite app_nil_r. by eapply unlink_root. }
  rewrite names_cons in Hh. unfold unlink. apply wp_assoc, wp_bind. eapply wp_only_child; [exact Hh|].
  rewrite (proj2 (Z.ltb_ge _ 2)) by (simpl; lia). pose proof (names_length k) as Hlk.
  apply wp_bind. eapply (wp_slot_at _ _ _ _ _ _ _ [node]); [exact Hh|done|simpl; lia|].
  set (ch := if bool_decide (l = Leaf) then r else l).
  apply wp_bind. eapply wp_weaken with
    (Q := fun _ => repaired m0 N (S D) T D (lefts (Fr ps pc p psib :: k) ++ (flatten l ++ flatten r) ++ rights (Fr ps pc p psib :: k))).
  - destruct (zip_valid_inv _ _ _ (b_valid _ _ _ Hb) (b_root _ _ _ Hb)) as (h & Vn & _).
    destruct (one_child _ _ _ _ _ Vn Hlr) as [(-> & -> & _)|(-> & -> & q & ? & -> & Hch)].
    + pose proof (unlink_leaf _ _ _ _ _ _ _ _ _ Hh Hb) as HL. rewrite flatten_lr in HL. exact HL.
    + assert (ch = mk false RED q Leaf Leaf) as -> by (unfold ch; destruct Hch as [[-> ->]|[-> ->]]; done).
      assert (flatten l ++ flatten r = [q]) as -> by (destruct Hch as [[-> ->]|[-> ->]]; done).
      assert (node_ptr q) as [Hq _].
      { pose proof (h_ptrs _ _ _ _ _ _ _ Hh) as Hp. apply Forall_perm_focus in Hp as (_ & Hpl & Hpr & _).
        destruct Hch as [[-> ->]|[-> ->]]; simpl in *; by rewrite Forall_singleton in *. }
      rewrite ptr_mk, (proj2 (Z.eqb_neq _ _)) by done. by eapply unlink_one.
  - intros [] s1 H1. assert (tree s1 = T) as HT.
    { destruct H1 as (? & ? & ? & H1 & _). apply (h_tree _ _ _ _ _ _ _ H1). }
    eapply repaired_tree; [unfold depth; by rewrite HT|by rewrite HT|done|done].
Qed.

End Unlink.

(** ** [rb_remove] *)

(** The rules and the height do not depend on the names of the nodes. *)
Fixpoint strip (t : tr) : tr :=
  match t with Leaf => Leaf | Node c l _ r => Node c (strip l) NULL (strip r) end.

Definition strip_frame (f : frame) : frame := Fr (f_side f) (f_col f) NULL (strip (f_sib f)).

Lemma strip_mk s c n x y : strip (mk s c n x y) = mk s c NULL (strip x) (strip y).
Proof. by destruct s. Qed.

Lemma strip_zip t k : strip (zip t k) = zip (strip t) (strip_frame <$> k).
Proof.
  revert t. induction k as [|[s c n sib] k IH]; intros t; simpl; [done|].
  rewrite IH. unfold plug; simpl. by rewrite strip_mk.
Qed.

Lemma strip_tcol t : tcol (strip t) = tcol t.
Proof. by destruct t. Qed.

Lemma strip_balanced D t H : balanced D (strip t) H <-> balanced D t H.
Proof.
  assert (forall h t, valid h (strip t) <-> valid h t) as Hv.
  { clear. intros h t. revert h. induction t as [|c l IHl n r IHr]; intros h; simpl; [done|].
    destruct c; [|destruct h]; rewrite ?strip_tcol, ?IHl, ?IHr; done. }
  assert (forall t, height (strip t) = height t) as Hh.
  { clear. induction t as [|c l IHl n r IHr]; simpl; [done|]. by rewrite IHl, IHr. }
  split; intros []; split; try done.
  all: rewrite ?Hv, ?strip_tcol, ?Hh in *; done.
Qed.

Lemma swap_balanced D c node c2 n2 l2 kr R k H :
  balanced D (zip (mk false c node (zip (mk false c2 n2 l2 Leaf) kr) R) k) H ->
  balanced D (zip (mk false c2 node l2 Leaf) (kr ++ Fr false c n2 R :: k)) H.
Proof.
  rewrite zip_app, <- zip_focus. rewrite <- strip_balanced, <- (strip_balanced _ (zip _ _)).
  by rewrite !strip_zip, !strip_mk, !strip_zip, !strip_mk.
Qed.

Lemma rightmost_rights k : rightmost k -> rights k = [].
Proof. induction 1 as [|[s c n sib] k Hs _ IH]; simpl in *; [done|]. by rewrite Hs. Qed.

Lemma swap_order c node c2 n2 l2 kr R k :
  rightmost kr -> NoDup (flatten (zip (mk false c node (zip (mk false c2 n2 l2 Leaf) kr) R) k)) ->
  flatten (zip l2 (kr ++ Fr false c n2 R :: k)) =
  without node (flatten (zip (mk false c node (zip (mk false c2 n2 l2 Leaf) kr) R) k)).
Proof.
  intros Hr Hnd. rewrite zip_app, <- zip_focus, !flatten_lr in *. simpl in *. rewrite !flatten_lr in *. simpl in *.
  rewrite (rightmost_rights _ Hr) in *. rewrite !app_nil_r in *.
  rewrite <- !app_assoc in *. simpl in *.
  replace (lefts k ++ lefts kr ++ flatten l2 ++ n2 :: node :: flatten R ++ rights k)
    with ((lefts k ++ lefts kr ++ flatten l2 ++ [n2]) ++ node :: flatten R ++ rights k) in *
    by (rewrite <- !app_assoc; simpl; by rewrite <- ?app_assoc).
  apply NoDup_app in Hnd as (_ & Ha & [Hb _]%NoDup_cons).
  rewrite without_middle; [rewrite <- !app_assoc; simpl; by rewrite <- ?app_assoc| |done].
  intros Hin. apply (Ha _ Hin). left.
Qed.

Section Remove.
Context (lt : Z -> Z -> bool) `{!weak_order lt}.

(** From the point where the node was found. *)
Lemma remove_found s s1 N c node L R k H :
  0 <= max_depth (tree s) ->
  holds (nodes s) N (S (depth s)) (tree s) s1 (zip (mk false c node L R) k) (node :: names k) ->
  balanced (depth s) (zip (mk false c node L R) k) H ->
  wp (l <- get_child node false ;;
      r <- (if negb (l =? NULL) then get_child node true else ret NULL) ;;
      sz <- (if negb (l =? NULL) && negb (r =? NULL)
             then swap_down node (Z.of_nat (length k) + 1) else ret (Z.of_nat (length k) + 1)) ;;
      unlink node sz) s1
    (fun _ => unlinked (nodes s) N (without node (flatten (zip (mk false c node L R) k)))).
Proof.
  intros Hmd Hh Hb. pose proof (h_nodup _ _ _ _ _ _ _ Hh) as Hnd.
  pose proof (h_ptrs _ _ _ _ _ _ _ Hh) as Hp. apply Forall_perm_focus in Hp as (_ & HpL & HpR & _).
  pose proof (zip_height (depth s) (mk false c node L R) k) as [Hz _]. specialize (Hz (b_height _ _ _ Hb)).
  assert (L = Leaf \/ R = Leaf -> lefts k ++ (flatten L ++ flatten R) ++ rights k =
    without node (flatten (zip (mk false c node L R) k))) as Hone.
  { intros _. rewrite flatten_lr in Hnd |- *. simpl in *. rewrite <- !app_assoc in *. simpl in *.
    rewrite app_assoc in Hnd |- *. apply NoDup_app in Hnd as (_ & Ha & [Hb' _]%NoDup_cons).
    rewrite (app_assoc (lefts k) (flatten L) (node :: _)), without_middle; [done| |done]. intros Hin. apply (Ha _ Hin). left. }
  apply wp_bind. eapply (wp_child_in _ _ _ _ _ _ false); [exact Hh|]. rewrite ptr_null by done.
  apply wp_bind. destruct (bool_decide (L = Leaf)) eqn:EL; cbn [negb andb].
  { apply bool_decide_eq_true in EL. apply wp_ret. apply wp_bind, wp_ret. rewrite <- Hone by auto.
    by eapply (unlink_spec _ _ (tree s)); [..|left]. }
  apply bool_decide_eq_false in EL. eapply (wp_child_out _ _ _ _ _ _ false); [exact Hh|]. rewrite ptr_null by done.
  destruct (bool_decide (R = Leaf)) eqn:ER; cbn [negb andb].
  { apply bool_decide_eq_true in ER. apply wp_bind, wp_ret. rewrite <- Hone by auto.
    by eapply (unlink_spec _ _ (tree s)); [..|right]. }
  apply wp_bind. eapply (swap_down_spec _ _ (depth s)); [exact Hh|done|done|tauto|].
  intros T' s' c2 l2 n2 kr HT -> Hr H'. eapply swap_balanced in Hb.
  rewrite <- swap_order by done. rewrite flatten_lr, <- (app_nil_r (flatten l2)).
  unfold depth in H', Hb. rewrite <- HT in H', Hb. eapply (unlink_spec _ _ T' s' c2 node l2 Leaf); [by rewrite HT|done|done|auto].
Qed.

Lemma rb_remove_spec s l t H node :
  rb_tree s t H -> t <> Leaf -> flatten t = l -> in_order lt l -> separated lt node l ->
  wp (rb_remove lt node) s (fun _ s' => rb_inv lt s' (without node l) /\ only_nodes l s s').
Proof.
  intros Ht Hl Hfl HS Hsep. unfold rb_remove. apply wp_assoc, wp_bind.
  eapply (find_spec lt s t H node _ l); [done|done|by rewrite Hfl|].
  intros sz s1 sd c p x y k (Ez & Hse & Esd & Hpx) -> H1. pose proof (names_length k) as Hlk.
  apply wp_bind. eapply (wp_slot_at _ _ _ _ _ _ _ []); [exact H1|done|simpl; lia|].
  destruct Hpx as [->|[Hpn ->]].
  - rewrite Z.eqb_refl. simpl. destruct (mk_turn sd false c node x y) as (L & R & Em). rewrite Em in Ez.
    rewrite <- Ez in H1. eapply wp_weaken.
    { eapply (remove_found s); [apply Ht|exact H1|rewrite Ez; apply Ht]. }
    intros [] s2 ((t' & H' & Hf' & Ht') & Ho & Hd). rewrite Ez, Hfl in Hf'. split; [|done].
    exists t', H'. split_and!; [done|done|by apply without_in_order].
  - rewrite (proj2 (Z.eqb_neq _ _)) by auto. apply wp_ret.
    assert (flatten t = lefts (Fr sd c p y :: k) ++ [] ++ rights (Fr sd c p y :: k)) as El.
    { by rewrite <- Ez, zip_focus, flatten_lr. }
    destruct (searched_absent lt node (Fr sd c p y :: k) []) as [HL HR].
    { by constructor. }
    { by rewrite <- El, Hfl. }
    { by rewrite <- El, Hfl. }
    assert (without node l = l) as ->.
    { apply filter_all. apply Forall_forall. rewrite <- Hfl, El. intros z Hz ->. set_solver. }
    destruct H1 as [HT Hrep Hnd Hps Hsub Hout Hdom _ _]. split; [|done]. exists t, H.
    split_and!; [|done|done]. destruct Ht. split; unfold depth; rewrite ?HT; done.
Qed.

End Remove.

End RbRemove.
