(* ===== verification/RbWalk.v ===== *)
(** Red/black trees: [rb_contains], [rb_get_min], [rb_get_max] and the two
    traversals, [rb_walk] and [RB_FOR_EACH].

    The iterator of [RB_FOR_EACH] stands at a node of the tree; what it has
    still to visit are the nodes of the right subtree and those on the right
    of the path.  [z_rb_foreach_next] moves to the first of them. *)
From stdpp Require Import gmap.
From S2P Require Import Prelude RbTree RbInv RbFix RbThm.

Module RbWalk.
Import RbTree RbInv RbFix RbThm.

(** Operations that only read: the state is the same afterwards. *)
Definition reads {A} (m : M A) (s : state) (a : A) : Prop := m s = Some (a, s).

Lemma reads_bind {A B} (m : M A) (f : A -> M B) s a b :
  reads m s a -> reads (f a) s b -> reads (bind m f) s b.
Proof. unfold reads, bind. by intros ->. Qed.

Lemma reads_ret {A} (a : A) s : reads (ret a) s a.
Proof. done. Qed.

Lemma reads_gets {A} (f : state -> A) s : reads (gets f) s (f s).
Proof. done. Qed.

(** The subtree [t], with pointers that are nodes. *)
Definition sub (s : state) (t : tr) : Prop := rep (nodes s) t /\ Forall node_ptr (flatten t).

Lemma sub_node s c l n r : sub s (Node c l n r) -> sub s l /\ sub s r /\ n <> NULL.
Proof.
  intros [Hr Hp]. simpl in *. rewrite Forall_app, Forall_cons in Hp. destruct Hp as (? & [? _] & ?).
  unfold sub. tauto.
Qed.

Lemma reads_child s c l n r (side : bool) : sub s (Node c l n r) -> reads (get_child n side) s (ptr (if side then r else l)).
Proof.
  intros [Hr Hp]. simpl in *. destruct Hr as (E & _). rewrite Forall_app, Forall_cons in Hp.
  destruct Hp as (Hl & _ & Hr). unfold reads.
  assert (wp (get_child n side) s (fun a s' => a = ptr (if side then r else l) /\ s' = s)) as (a & s' & Hx & -> & ->); [|done].
  destruct side; [eapply (wp_get_child_nv n true c (ptr r) (ptr l))|eapply (wp_get_child_nv n false c (ptr l) (ptr r))];
    try done; by apply ptr_even.
Qed.

Lemma sub_null s t : sub s t -> (ptr t =? NULL) = bool_decide (t = Leaf).
Proof. intros [_ H]. by apply ptr_null. Qed.

(** ** Queries *)

Section Contains.
Context (lt : Z -> Z -> bool) `{!weak_order lt}.

Lemma contains_loop_spec fuel s t node :
  sub s t -> (height t < fuel)%nat -> node <> NULL -> in_order lt (flatten t) -> separated lt node (flatten t) ->
  reads (rb_contains_loop lt fuel (ptr t) node) s (bool_decide (node ∈ flatten t)).
Proof.
  revert t. induction fuel as [|fuel IH]; intros t Ht Hf Hn HS Hsep; [lia|]. simpl rb_contains_loop.
  destruct t as [|c l n r].
  { rewrite bool_decide_eq_false_2 by set_solver. unfold reads, ret. simpl. unfold ret. do 2 f_equal.
    by destruct node. }
  destruct (sub_node _ _ _ _ _ Ht) as (Hl & Hr & Hnn). simpl ptr.
  rewrite (proj2 (Z.eqb_neq _ NULL)) by done. simpl in HS, Hsep, Hf.
  apply in_order_app in HS as (HSl & [HSr HFr]%StronglySorted_inv & HSlr). rewrite Forall_forall in HFr.
  destruct (Z.eqb_spec n node) as [->|Hne]; simpl.
  { unfold reads, ret. do 2 f_equal. rewrite bool_decide_eq_true_2 by set_solver. done. }
  eapply reads_bind; [apply (reads_child _ _ _ _ _ _ Ht)|].
  assert (bool_decide (node ∈ flatten l ++ n :: flatten r) =
          bool_decide (node ∈ flatten (if lt n node then r else l))) as ->.
  { apply bool_decide_ext. rewrite elem_of_app, elem_of_cons. destruct (lt n node) eqn:E.
    - split; [|auto]. intros [Hin|[?|?]]; [|congruence|done]. rewrite (HSlr node n) in E by set_solver. done.
    - split; [|auto]. intros [?|[?|Hin]]; [done|congruence|].
      destruct (Hsep n) as [E'|E']; [set_solver|done| |congruence]. rewrite (HFr _ Hin) in E'. done. }
  destruct (lt n node); (eapply IH; [done|lia|done|done|]; intros x Hx; apply Hsep; set_solver).
Qed.

End Contains.

(** The first node on a side. *)
Definition extreme (side : bool) (l : list Z) : Z := default NULL (if side then last l else head l).

Lemma extreme_node side c l n r :
  extreme side (flatten (Node c l n r)) =
  let t := if side then r else l in if bool_decide (t = Leaf) then n else extreme side (flatten t).
Proof.
  unfold extreme. simpl. destruct side; case_bool_decide as H; subst; simpl; try done.
  - by rewrite last_snoc.
  - rewrite last_app, last_cons. destruct r as [|c' l' n' r']; [done|]. simpl.
    rewrite last_app. simpl. rewrite last_cons. by destruct (last (flatten r')).
  - destruct l as [|c' l' n' r']; [done|]. simpl. by destruct (flatten l').
Qed.

Lemma minmax_loop_spec fuel s t side :
  sub s t -> (height t < fuel)%nat -> reads (z_rb_get_minmax_loop fuel (ptr t) side) s (extreme side (flatten t)).
Proof.
  revert t. induction fuel as [|fuel IH]; intros t Ht Hf; [lia|]. simpl z_rb_get_minmax_loop.
  destruct t as [|c l n r]; [by destruct side|].
  destruct (sub_node _ _ _ _ _ Ht) as (Hl & Hr & Hnn). simpl ptr. rewrite (proj2 (Z.eqb_neq _ NULL)) by done.
  eapply reads_bind; [apply (reads_child _ _ _ _ _ _ Ht)|]. rewrite extreme_node. cbv zeta. simpl in Hf.
  assert (sub s (if side then r else l)) as Hs by (by destruct side).
  assert (height (if side then r else l) < fuel)%nat as Hh by (destruct side; lia).
  rewrite (sub_null s) by done. case_bool_decide; simpl; [done|]. by apply IH.
Qed.

Lemma walk_spec {C} (visit : Z -> C -> C) fuel s t c :
  sub s t -> (height t < fuel)%nat ->
  reads (z_rb_walk fuel visit (ptr t) c) s (fold_left (fun c n => visit n c) (flatten t) c).
Proof.
  revert t c. induction fuel as [|fuel IH]; intros t c Ht Hf; [lia|]. simpl z_rb_walk.
  destruct t as [|col l n r]; [done|].
  destruct (sub_node _ _ _ _ _ Ht) as (Hl & Hr & Hnn). simpl in Hf. simpl ptr. rewrite (proj2 (Z.eqb_neq _ NULL)) by done.
  simpl. eapply reads_bind; [apply (reads_child _ _ _ _ _ false Ht)|].
  eapply reads_bind; [apply IH; [done|lia]|].
  eapply reads_bind; [apply (reads_child _ _ _ _ _ true Ht)|].
  rewrite fold_left_app. simpl. apply IH; [done|lia].
Qed.

(** ** The iterator *)

(** [is_left] along a path, the root's being 0. *)
Fixpoint flags (k : list frame) : list bool :=
  match k with [] => [false] | f :: k => negb (f_side f) :: flags k end.

(** The iterator stands at the root of [t] in context [k]. *)
Record stands (D : nat) (f : rb_foreach) (t : tr) (k : list frame) : Prop := {
  st_stack : stk (f_stack f) (ptr t :: names k);
  st_left : stk (f_is_left f) (flags k);
  st_top : f_top f = Z.of_nat (length k);
  st_len : length (f_stack f) = D;
  st_len_left : length (f_is_left f) = D
}.

Lemma flags_length k : length (flags k) = S (length k).
Proof. induction k as [|f k IH]; simpl; [done|]. by rewrite IH. Qed.

Lemma stands_node D f t k s : stands D f t k -> reads (f_node f) s (ptr t).
Proof.
  intros []. unfold f_node, reads. rewrite st_top0, (proj2 (Z.leb_le _ _)) by lia. rewrite Nat2Z.id.
  pose proof (stk_lookup _ [] _ _ st_stack0) as Hl. rewrite names_length in Hl. by rewrite Hl.
Qed.

Lemma stands_left D f t k s : stands D f t k -> reads (f_left f) s (hd false (flags k)).
Proof.
  intros []. unfold f_left, reads. rewrite st_top0, (proj2 (Z.leb_le _ _)) by lia. rewrite Nat2Z.id.
  destruct (flags k) as [|b fl] eqn:E; [pose proof (flags_length k); by rewrite E in *|].
  pose proof (stk_lookup _ [] _ _ st_left0) as Hl. pose proof (flags_length k) as Hk. rewrite E in Hk. simpl in Hk.
  replace (length k) with (length fl) by lia. by rewrite Hl.
Qed.

(** One step up. *)
Lemma stands_up D f t s c n sib k :
  stands D f t (Fr s c n sib :: k) -> stands D (f <| f_top ::= Z.pred |>) (mk s c n t sib) k.
Proof.
  intros []. split; simpl; try done; rewrite ?ptr_mk.
  - by apply (stk_drop _ [ptr t]) in st_stack0.
  - by apply (stk_drop _ [negb s]) in st_left0.
  - rewrite st_top0. simpl. lia.
Qed.

(** A push, below a node that the iterator stands at or at the root. *)
Lemma push_spec D f t k b s :
  stk (f_stack f) (names k) -> stk (f_is_left f) (match k with [] => [] | _ :: k => flags k end) ->
  f_top f + 1 = Z.of_nat (length k) -> length (f_stack f) = D -> length (f_is_left f) = D ->
  (length k < D)%nat -> flags k = b :: match k with [] => [] | _ :: k => flags k end ->
  exists f', reads (f_push (ptr t) b f) s f' /\ stands D f' t k.
Proof.
  intros Hs Hl Ht Ls Ll Hk Hb. eexists. unfold f_push, reads. rewrite Ht.
  rewrite (proj2 (Z.leb_le _ _)), Ls, Ll, (proj2 (Z.ltb_lt _ _)) by lia. simpl. split; [done|].
  rewrite Nat2Z.id. split; simpl; rewrite ?length_insert; try done.
  - rewrite <- (names_length k). apply stk_push; [done|]. rewrite names_length. lia.
  - rewrite Hb. assert (length k = length (match k with [] => [] | _ :: k => flags k end)) as ->.
    { destruct k; simpl; [done|]. by rewrite flags_length. }
    apply stk_push; [done|]. destruct k; simpl in *; [lia|]. rewrite flags_length. lia.
Qed.

Lemma sub_zip s t k : sub s (zip t k) -> sub s t.
Proof.
  intros [Hr Hp]. apply zip_rep in Hr as [Hr _]. rewrite flatten_zip, Forall_app in Hp. split; tauto.
Qed.

(** What is left to visit after the root of a subtree. *)
Definition right_of (t : tr) (k : list frame) : list Z :=
  match t with Leaf => [] | Node _ _ _ r => flatten r ++ rights k end.

(** The iterator stands somewhere in [t0] and has [rest] to visit. *)
Definition pos (D : nat) (t0 : tr) (f : rb_foreach) (n : Z) (rest : list Z) : Prop :=
  exists t k, zip t k = t0 /\ t <> Leaf /\ ptr t = n /\ stands D f t k /\ right_of t k = rest.

Lemma left_loop_spec D fuel s f t k :
  sub s (zip t k) -> t <> Leaf -> stands D f t k -> (height t + length k <= D)%nat -> (height t <= fuel)%nat ->
  exists f' n rest, reads (stack_left_loop fuel (ptr t) f) s f' /\ pos D (zip t k) f' n rest /\
    flatten t ++ rights k = n :: rest.
Proof.
  revert f t k. induction fuel as [|fuel IH]; intros f t k Hs Ht Hf Hh Hfu.
  { destruct t; simpl in Hfu; [done|lia]. }
  destruct t as [|c l n r]; [done|]. simpl stack_left_loop. pose proof (sub_zip _ _ _ Hs) as Hst.
  destruct (sub_node _ _ _ _ _ Hst) as (Hl & Hr & Hnn). simpl in Hh, Hfu.
  destruct (decide (l = Leaf)) as [->|HlL].
  - exists f, n, (flatten r ++ rights k). split_and!; [|by exists (Node c Leaf n r), k|done].
    eapply reads_bind; [apply (reads_child _ _ _ _ _ false Hst)|]. done.
  - destruct Hf as [Hst' Hle Htop Hls Hll].
    destruct (push_spec D f l (Fr false c n r :: k) true s) as (f1 & Hf1 & Hs1); try done.
    { rewrite Htop. simpl. lia. }
    { destruct l; [done|]. simpl in *. lia. }
    change (zip (Node c l n r) k) with (zip l (Fr false c n r :: k)) in Hs |- *.
    destruct (IH f1 l (Fr false c n r :: k)) as (f' & n' & rest & Hr' & Hp & He); try done; [simpl; lia|lia|].
    exists f', n', rest. split_and!; [|done|].
    + eapply reads_bind; [apply (reads_child _ _ _ _ _ false Hst)|]. rewrite (sub_null s) by done.
      rewrite bool_decide_eq_false_2 by done. simpl. eapply reads_bind; [exact Hf1|]. exact Hr'.
    + rewrite <- He. simpl. by rewrite <- app_assoc.
Qed.

Lemma limb_spec D s f t k :
  sub s (zip t k) -> t <> Leaf -> (height t + length k <= D)%nat ->
  match k with [] => f_top f = -1 | Fr sd c n sib :: k' => sd = true /\ stands D f (mk sd c n t sib) k' end ->
  length (f_stack f) = D -> length (f_is_left f) = D ->
  exists f' n rest, reads (stack_left_limb (ptr t) f) s (n, f') /\ pos D (zip t k) f' n rest /\
    flatten t ++ rights k = n :: rest.
Proof.
  intros Hs Ht Hh Hf Hls Hll. assert (1 <= height t)%nat by (destruct t; simpl; [done|lia]).
  destruct (push_spec D f t k false s) as (f1 & Hf1 & H1); try done.
  { destruct k as [|[sd c n sib] k]; [by exists (f_stack f)|]. destruct Hf as [_ []]. by rewrite ptr_mk in *. }
  { destruct k as [|[sd c n sib] k]; [by exists (f_is_left f)|]. by destruct Hf as [_ []]. }
  { destruct k as [|[sd c n sib] k]; [by rewrite Hf|]. destruct Hf as [_ []]. simpl. lia. }
  { lia. }
  { destruct k as [|[sd c n sib] k]; [done|]. destruct Hf as [-> _]. done. }
  destruct (left_loop_spec D (length (f_stack f1)) s f1 t k) as (f' & n & rest & Hr & Hp & He); try done.
  { rewrite (st_len _ _ _ _ H1). lia. }
  exists f', n, rest. split_and!; [|done|done]. unfold stack_left_limb.
  eapply reads_bind; [exact Hf1|]. eapply reads_bind; [exact Hr|].
  destruct Hp as (t' & k' & _ & _ & Hn & Hst & _). eapply reads_bind; [by eapply stands_node|]. by rewrite Hn.
Qed.

Lemma climb_spec D fuel s f t k :
  stands D f t k -> t <> Leaf -> (length k < fuel)%nat ->
  exists f' t' k', reads (climb_right fuel f) s f' /\ stands D f' t' k' /\ t' <> Leaf /\
    zip t' k' = zip t k /\ rights k' = rights k /\
    match k' with [] => True | g :: _ => f_side g = false end.
Proof.
  revert f t k. induction fuel as [|fuel IH]; intros f t k Hf Ht Hfu; [lia|]. simpl climb_right.
  rewrite (st_top _ _ _ _ Hf). destruct k as [|[sd c n sib] k].
  { by exists f, t, []. }
  rewrite (proj2 (Z.gtb_gt _ 0)) by (simpl; lia). pose proof (stands_left _ _ _ _ s Hf) as Hl. simpl in Hl.
  destruct sd; simpl in Hl.
  - simpl in Hfu.
    destruct (IH _ _ _ (stands_up _ _ _ _ _ _ _ _ Hf) (mk_not_leaf _ _ _ _ _)) as (f' & t' & k' & Hr & Hs & Ht' & Hz & Hri & Hk');
      [lia|].
    exists f', t', k'. split_and!; try done. eapply reads_bind; [exact Hl|]. exact Hr.
  - exists f, t, (Fr false c n sib :: k). split_and!; try done. eapply reads_bind; [exact Hl|]. done.
Qed.

Lemma stands_bound D f t k : stands D f t k -> (length k < D)%nat.
Proof. intros []. pose proof (stk_length _ _ st_stack0) as H. simpl in H. rewrite names_length in H. lia. Qed.

(** From a left child to its parent. *)
Lemma up_left D s f t c n sib k :
  stands D f t (Fr false c n sib :: k) -> let f' := f <| f_top ::= Z.pred |> in
  reads (f_node f') s n /\ pos D (zip t (Fr false c n sib :: k)) f' n (flatten sib ++ rights k).
Proof.
  intros Hf f'. pose proof (stands_up _ _ _ _ _ _ _ _ Hf) as Hu. split.
  - by apply (stands_node _ _ _ _ s) in Hu.
  - by exists (mk false c n t sib), k.
Qed.

(** From a node without a right child. *)
Lemma next_up D s f t k :
  stands D f t k -> t <> Leaf ->
  exists f', reads (left <- f_left f ;;
      if (left : bool) then let f := f <| f_top ::= Z.pred |> in n <- f_node f ;; ret (n, f)
      else f <- climb_right (length (f_stack f)) f ;;
        let f := f <| f_top ::= Z.pred |> in
        if f_top f >=? 0 then n <- f_node f ;; ret (n, f) else ret (NULL, f)) s (default NULL (head (rights k)), f') /\
    match rights k with [] => True | n' :: rest' => pos D (zip t k) f' n' rest' end.
Proof.
  intros Hf Ht. pose proof (stands_left _ _ _ _ s Hf) as Hl. pose proof (stands_bound _ _ _ _ Hf) as Hb.
  destruct (hd false (flags k)) eqn:Eh.
  - destruct k as [|[sd c n sib] k]; [done|]. simpl in Eh. destruct sd; [done|].
    destruct (up_left _ s _ _ _ _ _ _ Hf) as [Hn Hp]. eexists. split; [|exact Hp].
    eapply reads_bind; [exact Hl|]. cbv zeta iota. eapply reads_bind; [exact Hn|]. done.
  - destruct (climb_spec D (length (f_stack f)) s f t k) as (f1 & t1 & k1 & Hr1 & Hs1 & Ht1 & Hz1 & Hri & Hk1);
      [done|done|rewrite (st_len _ _ _ _ Hf); done|].
    rewrite <- Hri, <- Hz1. destruct k1 as [|[sd c n sib] k1]; simpl in Hk1.
    + eexists. split; [|done]. eapply reads_bind; [exact Hl|]. cbv zeta iota. eapply reads_bind; [exact Hr1|].
      pose proof (st_top _ _ _ _ Hs1) as Htop. simpl. simpl in Htop. rewrite Htop. done.
    + subst sd. destruct (up_left _ s _ _ _ _ _ _ Hs1) as [Hn Hp]. eexists. split; [|exact Hp].
      eapply reads_bind; [exact Hl|]. cbv zeta iota. eapply reads_bind; [exact Hr1|].
      pose proof (st_top _ _ _ _ Hs1) as Htop. simpl. simpl in Htop. rewrite Htop.
      rewrite (proj2 (Z.geb_le _ _)) by lia. eapply reads_bind; [exact Hn|]. done.
Qed.

(** [z_rb_foreach_next] moves to the next node, or ends. *)
Lemma next_spec D s t0 f n rest :
  sub s t0 -> root (tree s) = ptr t0 -> (height t0 <= D)%nat -> pos D t0 f n rest ->
  exists f', reads (z_rb_foreach_next f) s (default NULL (head rest), f') /\
    match rest with [] => True | n' :: rest' => pos D t0 f' n' rest' end.
Proof.
  intros Hs Hr Hh (t & k & Hz & Ht & Hn & Hst & Hre). pose proof (stands_bound _ _ _ _ Hst) as Hk.
  unfold z_rb_foreach_next. assert (t0 <> Leaf) as Ht0.
  { rewrite <- Hz. intros E. apply Ht. apply (f_equal flatten) in E. destruct t; [done|].
    pose proof (flatten_zip (Node c t1 n0 t2) k) as Hp. rewrite E in Hp. simpl in Hp.
    apply Permutation_nil_l in Hp. by destruct (flatten t1). }
  assert (forall m r, reads m s r -> reads (t <- gets tree ;; if root t =? NULL then ret (NULL, f) else
      if f_top f =? -1 then stack_left_limb (root t) f else m) s r) as Hgo.
  { intros m r Hm. eapply reads_bind; [apply reads_gets|]. rewrite Hr, (sub_null s) by done.
    rewrite bool_decide_eq_false_2 by done. rewrite (st_top _ _ _ _ Hst), (proj2 (Z.eqb_neq _ _)) by lia. done. }
  destruct t as [|c l m r]; [done|]. simpl in Hn, Hre. subst m. rewrite <- Hz in Hs, Hh.
  pose proof (sub_zip _ _ _ Hs) as Hst'. destruct (sub_node _ _ _ _ _ Hst') as (Hl & Hri & _).
  apply zip_height in Hh as [Hh _]. simpl in Hh.
  destruct (decide (r = Leaf)) as [->|HrL].
  - destruct (next_up D s f _ k Hst Ht) as (f' & Hf' & Hp'). exists f'. simpl in Hre. rewrite <- Hre, <- Hz. split; [|done].
    apply Hgo. eapply reads_bind; [by eapply stands_node|].
    eapply reads_bind; [apply (reads_child _ _ _ _ _ true Hst')|]. exact Hf'.
  - destruct (limb_spec D s f r (Fr true c n l :: k)) as (f' & n' & rest' & Hr' & Hp & He); try done.
    { simpl. lia. }
    { by apply (st_len _ _ _ _ Hst). }
    { by apply (st_len_left _ _ _ _ Hst). }
    simpl in He. rewrite <- Hre, He. exists f'. rewrite <- Hz. split; [|done].
    apply Hgo. eapply reads_bind; [by eapply stands_node|]. eapply reads_bind; [apply (reads_child _ _ _ _ _ true Hst')|].
    rewrite (sub_null s), bool_decide_eq_false_2 by done. exact Hr'.
Qed.

Lemma for_each_loop_spec {C} (body : Z -> C -> C) D fuel s t0 f n rest c :
  sub s t0 -> root (tree s) = ptr t0 -> (height t0 <= D)%nat -> pos D t0 f n rest -> (length rest < fuel)%nat ->
  Forall (fun x => x <> NULL) rest ->
  reads (for_each_loop fuel body f c) s (fold_left (fun c n => body n c) rest c).
Proof.
  intros Hs Hr Hh. revert f n rest c. induction fuel as [|fuel IH]; intros f n rest c Hp Hf Hn; [lia|].
  destruct (next_spec D s t0 f n rest) as (f' & Hf' & Hp'); try done.
  simpl for_each_loop. eapply reads_bind; [exact Hf'|]. cbv beta iota.
  destruct rest as [|x rest]; [done|]. apply Forall_cons in Hn as [Hx Hn]. simpl.
  rewrite (proj2 (Z.eqb_neq _ _)) by done. simpl. apply (IH _ x); [done|simpl in Hf; lia|done].
Qed.

End RbWalk.
