(* ===== verification/RbSpec.v ===== *)
(** Red/black trees: the theorems about the interface of rb.h. *)
From stdpp Require Import gmap.
From S2P Require Import Prelude RbTree RbInv RbFix RbThm RbRemove RbWalk.

Module RbSpec.
Import RbTree RbInv RbFix RbThm RbRemove RbWalk.

(** ** Shared lemmas *)

Lemma inv_sub lt s l : rb_inv lt s l -> exists t H, rb_tree s t H /\ flatten t = l /\ in_order lt l /\ sub s t.
Proof. intros (t & H & Ht & Hl & Ho). exists t, H. split_and!; try done. split; apply Ht. Qed.

Lemma inv_fuel s t H : rb_tree s t H -> (height t < S (Z.to_nat (max_depth (tree s))))%nat.
Proof. intros Ht. pose proof (b_height _ _ _ (r_balanced _ _ _ Ht)). unfold depth in *. lia. Qed.

Lemma keys_size (m : gmap Z rbnode) l : NoDup l -> (forall x, x ∈ l -> is_Some (m !! x)) -> (length l <= size m)%nat.
Proof.
  intros Hnd Hl. rewrite <- (size_list_to_set (C := gset Z) l) by done. rewrite <- size_dom.
  apply subseteq_size. intros x. rewrite elem_of_list_to_set, elem_of_dom. apply Hl.
Qed.

Lemma rep_some m t x : rep m t -> x ∈ flatten t -> is_Some (m !! x).
Proof.
  induction t as [|c l IHl n r IHr]; simpl; [set_solver|]. intros (E & Hl & Hr).
  rewrite elem_of_app, elem_of_cons. intros [?|[->|?]]; [auto|eauto|auto].
Qed.

(** A tree of black height [h] has [2 ^ h - 1] nodes at least. *)
Lemma valid_size h t : valid h t -> (2 ^ h <= S (length (flatten t)))%nat.
Proof.
  revert h. induction t as [|c l IHl n r IHr]; intros h; simpl; [by intros ->|].
  rewrite length_app. simpl. destruct c.
  - intros (_ & _ & Hl & Hr). apply IHl in Hl. apply IHr in Hr. lia.
  - destruct h as [|h]; [done|]. intros [Hl Hr]. apply IHl in Hl. apply IHr in Hr. simpl. lia.
Qed.

Lemma tree_height_log s t H : rb_tree s t H -> (height t <= 2 * Nat.log2 (S (length (flatten t))))%nat.
Proof.
  intros Ht. destruct (r_balanced _ _ _ Ht) as [Hv Hc _ _]. pose proof (valid_height _ _ Hv) as Hh.
  rewrite Hc in Hh. pose proof (valid_size _ _ Hv) as Hs. apply Nat.log2_le_mono in Hs.
  rewrite Nat.log2_pow2 in Hs by lia. lia.
Qed.

(** ** A tree *)

#[export] Instance ltb_weak_order : weak_order Z.ltb.
Proof. split; intros *; rewrite ?Z.ltb_lt, ?Z.ltb_ge; lia. Qed.

(** Four nodes in three levels, and a node that is not in the tree. *)
Definition demo_tree : tr :=
  Node BLACK (Node BLACK Leaf 8 Leaf) 16 (Node BLACK (Node RED Leaf 24 Leaf) 32 Leaf).

Definition demo : state :=
  mk_state (mk_tree 16 3)
    (<[8 := mk_node 1 0]> (<[16 := mk_node 9 32]> (<[24 := mk_node 0 0]>
      (<[32 := mk_node 25 0]> (<[28 := mk_node 77 78]> ∅))))) [].

Lemma node_ptr_even x : x <> 0 -> Z.even x = true -> node_ptr x.
Proof. intros ? ?%Z.even_spec. done. Qed.

Lemma demo_tree_inv : rb_inv Z.ltb demo [8; 16; 24; 32].
Proof.
  exists demo_tree, 2%nat. split_and!; [|done|].
  - split; try done.
    + simpl. rewrite !NoDup_cons. repeat split; try (apply NoDup_nil_2 || set_solver).
    + simpl. repeat constructor; (done || by eapply Z.even_spec).
  - repeat constructor.
Qed.

Lemma ltb_separated node l : separated Z.ltb node l.
Proof. intros x _ Hx. rewrite !Z.ltb_lt. lia. Qed.

(** ** The operations on a state that satisfies the invariant *)

Lemma insert_ok (lt : Z -> Z -> bool) `{!weak_order lt} s l node :
  rb_inv lt s l -> node_ptr node -> is_Some (nodes s !! node) -> node ∉ l ->
  exists s', rb_insert lt node s = Some (tt, s') /\ rb_inv lt s' (insort lt node l) /\
    only_nodes (node :: l) s s'.
Proof.
  intros (t & H & Ht & Hl & Ho) Hn Hs Hnew.
  assert (wp (rb_insert lt node) s (fun _ s' => rb_inv lt s' (insort lt node l) /\ only_nodes (node :: l) s s'))
    as ([] & s' & E & Hp); [|by exists s'].
  destruct (decide (t = Leaf)) as [->|Htl]; [|by eapply rb_insert_next].
  simpl in Hl. subst l. apply rb_insert_first; try done. apply Ht.
Qed.

Lemma remove_ok (lt : Z -> Z -> bool) `{!weak_order lt} s l node :
  rb_inv lt s l -> l <> [] -> separated lt node l ->
  exists s', rb_remove lt node s = Some (tt, s') /\ rb_inv lt s' (without node l) /\ only_nodes l s s'.
Proof.
  intros (t & H & Ht & Hl & Ho) Hne Hsep.
  assert (t <> Leaf) as Htl by (intros ->; by subst l).
  destruct (rb_remove_spec lt s l t H node Ht Htl Hl Ho Hsep) as ([] & s' & E & Hp). by exists s'.
Qed.

Lemma minmax_ok lt s l (side : bool) :
  rb_inv lt s l -> z_rb_get_minmax side s = Some (extreme side l, s).
Proof.
  intros (t & H & Ht & <- & Ho & Hs)%inv_sub. apply (reads_bind _ _ s (tree s)); [apply reads_gets|].
  rewrite (r_root _ _ _ Ht). apply (minmax_loop_spec _ s t side); [done|]. by apply (inv_fuel _ _ _ Ht).
Qed.

Lemma for_each_ok {C} lt s l (body : Z -> C -> C) c :
  rb_inv lt s l -> RB_FOR_EACH body c s = Some (fold_left (fun c n => body n c) l c, s).
Proof.
  intros (t & H & Ht & <- & Ho & Hs)%inv_sub. pose proof (inv_fuel _ _ _ Ht) as Hf.
  apply (reads_bind _ _ s (tree s)); [apply reads_gets|]. apply (reads_bind _ _ s (nodes s)); [apply reads_gets|].
  assert (length (flatten t) <= size (nodes s))%nat as Hsz.
  { apply keys_size; [apply Ht|]. intros x. apply rep_some, Ht. }
  destruct (decide (t = Leaf)) as [->|Htl].
  { simpl. apply (reads_bind _ _ s (NULL, RB_FOREACH_INIT (tree s))); [|done].
    apply (reads_bind _ _ s (tree s)); [apply reads_gets|]. by rewrite (r_root _ _ _ Ht). }
  destruct (limb_spec (Z.to_nat (max_depth (tree s))) s (RB_FOREACH_INIT (tree s)) t []) as (f & n & rest & Hr & Hp & He);
    [done|done|simpl; lia|done|simpl; by rewrite length_replicate..|].
  rewrite app_nil_r in He. rewrite He in *. simpl in Hsz.
  assert (Forall (fun x => x <> NULL) (n :: rest)) as [Hn Hnn]%Forall_cons.
  { rewrite <- He. eapply Forall_impl; [apply Ht|]. intros x [? _]. done. }
  simpl for_each_loop. apply (reads_bind _ _ s (n, f)).
  { apply (reads_bind _ _ s (tree s)); [apply reads_gets|]. rewrite (r_root _ _ _ Ht), (sub_null s) by done.
    rewrite bool_decide_eq_false_2 by done. exact Hr. }
  rewrite (proj2 (Z.eqb_neq _ _)) by done. simpl.
  eapply (for_each_loop_spec body (Z.to_nat (max_depth (tree s))) _ s t f n); try done; [apply Ht|lia].
Qed.

Lemma walk_ok {C} lt s l (visit : Z -> C -> C) c :
  rb_inv lt s l -> rb_walk visit c s = Some (fold_left (fun c n => visit n c) l c, s).
Proof.
  intros (t & H & Ht & <- & Ho & Hs)%inv_sub. apply (reads_bind _ _ s (tree s)); [apply reads_gets|].
  rewrite (r_root _ _ _ Ht). apply walk_spec; [done|]. by apply (inv_fuel _ _ _ Ht).
Qed.

(** ** The interface *)

(** C11: [rb_insert] puts a new node into the tree.  For a strict weak order
    and a node that is not in the tree, it has a result, which it reaches
    without leaving its stack array or going through a null pointer; the tree
    stays a red/black tree that [max_depth] bounds, its nodes in order are
    those of the insertion into a sorted list, after equal ones, and memory
    outside of the tree and the node is the same. *)
Theorem rb_insert_refines (lt : Z -> Z -> bool) `{!weak_order lt} (s : state) (l : list Z) (node : Z) :
  rb_inv lt s l -> node_ptr node -> is_Some (nodes s !! node) -> node ∉ l ->
  exists s', rb_insert lt node s = Some (tt, s') /\ rb_inv lt s' (insort lt node l) /\
    only_nodes (node :: l) s s'.
Proof. exact (insert_ok lt s l node). Qed.

Lemma rb_insert_refines_witness :
  exists s', rb_insert Z.ltb 28 demo = Some (tt, s') /\ rb_inv Z.ltb s' [8; 16; 24; 28; 32] /\
    only_nodes [28; 8; 16; 24; 32] demo s'.
Proof.
  apply (rb_insert_refines Z.ltb demo [8; 16; 24; 32] 28); [exact demo_tree_inv| |by eexists|set_solver].
  by apply node_ptr_even.
Defined.

(** C3: [rb_remove] takes a node out of a tree that is not empty.  For a strict
    weak order that tells the node from the others, it has a result within its
    stack array; the tree stays a red/black tree that [max_depth] bounds, its
    nodes in order are the old ones without the node, and memory outside of the
    tree is the same.  A node that is not in the tree changes nothing. *)
Theorem rb_remove_refines (lt : Z -> Z -> bool) `{!weak_order lt} (s : state) (l : list Z) (node : Z) :
  rb_inv lt s l -> l <> [] -> separated lt node l ->
  exists s', rb_remove lt node s = Some (tt, s') /\ rb_inv lt s' (without node l) /\ only_nodes l s s'.
Proof. exact (remove_ok lt s l node). Qed.

Lemma rb_remove_refines_witness :
  exists s', rb_remove Z.ltb 8 demo = Some (tt, s') /\ rb_inv Z.ltb s' [16; 24; 32] /\
    only_nodes [8; 16; 24; 32] demo s'.
Proof.
  apply (rb_remove_refines Z.ltb demo [8; 16; 24; 32] 8); [exact demo_tree_inv|done|apply ltb_separated].
Defined.

(** [rb_contains] tells whether a node is in the tree, if the order tells
    the node from the others. *)
Theorem rb_contains_refines (lt : Z -> Z -> bool) `{!weak_order lt} (s : state) (l : list Z) (node : Z) :
  rb_inv lt s l -> node <> NULL -> separated lt node l ->
  rb_contains lt node s = Some (bool_decide (node ∈ l), s).
Proof.
  intros (t & H & Ht & <- & Ho & Hs)%inv_sub Hn Hsep.
  apply (reads_bind _ _ s (tree s)); [apply reads_gets|]. rewrite (r_root _ _ _ Ht).
  apply contains_loop_spec; try done. by apply (inv_fuel _ _ _ Ht).
Qed.

Lemma rb_contains_refines_witness :
  rb_contains Z.ltb 24 demo = Some (true, demo) /\ rb_contains Z.ltb 28 demo = Some (false, demo).
Proof.
  split.
  - apply (rb_contains_refines Z.ltb demo [8; 16; 24; 32] 24); [exact demo_tree_inv|done|apply ltb_separated].
  - apply (rb_contains_refines Z.ltb demo [8; 16; 24; 32] 28); [exact demo_tree_inv|done|apply ltb_separated].
Defined.

(** [rb_get_min] and [rb_get_max] return the first and the last node in
    order, and the null pointer for an empty tree. *)
Theorem rb_get_minmax_refines (lt : Z -> Z -> bool) (s : state) (l : list Z) :
  rb_inv lt s l ->
  rb_get_min s = Some (default NULL (head l), s) /\ rb_get_max s = Some (default NULL (last l), s).
Proof.
  intros H. split; [exact (minmax_ok _ _ _ false H)|exact (minmax_ok _ _ _ true H)].
Qed.

Lemma rb_get_minmax_refines_witness :
  rb_get_min demo = Some (8, demo) /\ rb_get_max demo = Some (32, demo).
Proof. apply (rb_get_minmax_refines Z.ltb demo [8; 16; 24; 32]). exact demo_tree_inv. Defined.

(** [RB_FOR_EACH] ends, and its body runs for each node of the tree once, in
    order, as the visitor of [rb_walk] does; the arrays of [max_depth] elements
    hold the path of the iterator. *)
Theorem rb_for_each_refines {C : Type} (lt : Z -> Z -> bool) (s : state) (l : list Z) (body : Z -> C -> C) (c : C) :
  rb_inv lt s l ->
  RB_FOR_EACH body c s = Some (fold_left (fun c n => body n c) l c, s) /\
  rb_walk body c s = Some (fold_left (fun c n => body n c) l c, s).
Proof. intros H. split; [by eapply for_each_ok|by eapply walk_ok]. Qed.

Lemma rb_for_each_refines_witness :
  RB_FOR_EACH (fun n c => c ++ [n]) [] demo = Some ([8; 16; 24; 32], demo) /\
  rb_walk (fun n c => c ++ [n]) [] demo = Some ([8; 16; 24; 32], demo).
Proof. apply (rb_for_each_refines Z.ltb demo [8; 16; 24; 32]). exact demo_tree_inv. Defined.

(** A search takes logarithmic time: in a tree of [n] nodes
    [find_and_stack] stacks [2 * log2 (n + 1)] nodes at most. *)
Theorem find_and_stack_logarithmic (lt : Z -> Z -> bool) `{!weak_order lt} (s : state) (l : list Z) (node : Z) :
  rb_inv lt s l -> l <> [] ->
  exists sz s', (local_stack ;;; find_and_stack lt node) s = Some (sz, s') /\
    1 <= sz <= 2 * Z.of_nat (Nat.log2 (S (length l))).
Proof.
  intros (t & H & Ht & <- & Ho) Hne. assert (t <> Leaf) as Htl by (intros ->; done).
  apply (find_spec lt s t H node _ (flatten t) Ht Htl); [done|].
  intros sz s' sd c p x y k (Ez & _) -> Hh. pose proof (tree_height_log _ _ _ Ht) as Hlog.
  assert (length k < height t)%nat; [|lia].
  pose proof (zip_height (height t) (mk sd c p x y) k) as Hz. rewrite Ez, height_mk in Hz. lia.
Qed.

Lemma find_and_stack_logarithmic_witness :
  exists sz s', (local_stack ;;; find_and_stack Z.ltb 24) demo = Some (sz, s') /\ 1 <= sz <= 4.
Proof.
  destruct (find_and_stack_logarithmic Z.ltb demo [8; 16; 24; 32] 24) as (sz & s' & E & H); [exact demo_tree_inv|done|].
  by exists sz, s'.
Defined.

(** ** Trees that programs build *)

(** The states that insertions and removals reach from an empty tree. *)
Inductive rb_reachable (lt : Z -> Z -> bool) (m : gmap Z rbnode) : state -> list Z -> Prop :=
| reach_empty st : rb_reachable lt m (mk_state (mk_tree NULL 0) m st) []
| reach_insert s l node s' :
    rb_reachable lt m s l -> node_ptr node -> is_Some (m !! node) -> node ∉ l ->
    rb_insert lt node s = Some (tt, s') -> rb_reachable lt m s' (insort lt node l)
| reach_remove s l node s' :
    rb_reachable lt m s l -> l <> [] -> separated lt node l ->
    rb_remove lt node s = Some (tt, s') -> rb_reachable lt m s' (without node l).

Lemma reachable_ok lt `{!weak_order lt} m s l :
  rb_reachable lt m s l -> rb_inv lt s l /\ forall x, is_Some (nodes s !! x) <-> is_Some (m !! x).
Proof.
  induction 1 as [st|s l node s' _ [IH Hd] Hn Hm Hnew E|s l node s' _ [IH Hd] Hne Hsep E].
  - split; [|done]. exists Leaf, O. split_and!; [|done|constructor].
    split; simpl; try done; [constructor|]. split; simpl; (done || lia).
  - destruct (insert_ok lt s l node IH Hn) as (s1 & E1 & H1 & _ & Hd1); [by apply Hd|done|].
    rewrite E in E1. injection E1 as <-. split; [done|]. intros x. by rewrite Hd1.
  - destruct (remove_ok lt s l node IH Hne Hsep) as (s1 & E1 & H1 & _ & Hd1).
    rewrite E in E1. injection E1 as <-. split; [done|]. intros x. by rewrite Hd1.
Qed.

(** Every tree that insertions and removals build is well formed: its root
    is black, no red node has a red child, every path has the same number of
    black nodes, the nodes are distinct, sorted and have null or node pointers
    as children, and no path is longer than [max_depth], by which the other
    operations size their arrays. *)
Theorem rb_reachable_wf (lt : Z -> Z -> bool) `{!weak_order lt} (m : gmap Z rbnode) (s : state) (l : list Z) :
  rb_reachable lt m s l ->
  exists t h, rep (nodes s) t /\ root (tree s) = ptr t /\ flatten t = l /\ NoDup l /\ in_order lt l /\
    tcol t = BLACK /\ valid h t /\ (height t <= Z.to_nat (max_depth (tree s)))%nat.
Proof.
  intros Hreach. destruct (reachable_ok lt m s l Hreach) as [(t & h & [Hr Hrep Hnd _ _ [Hv Hc Hh _]] & <- & Ho) _].
  by exists t, h.
Qed.

Lemma rb_reachable_wf_witness :
  exists s t h, rb_insert Z.ltb 28 (mk_state (mk_tree NULL 0) (nodes demo) []) = Some (tt, s) /\
    rep (nodes s) t /\ root (tree s) = ptr t /\ flatten t = [28] /\ NoDup [28] /\ in_order Z.ltb [28] /\
    tcol t = BLACK /\ valid h t /\ (height t <= Z.to_nat (max_depth (tree s)))%nat.
Proof.
  assert (exists s, rb_insert Z.ltb 28 (mk_state (mk_tree NULL 0) (nodes demo) []) = Some (tt, s)) as [s E]
    by (eexists; vm_compute; reflexivity).
  destruct (rb_reachable_wf Z.ltb (nodes demo) s [28]) as (t & h & H).
  { eapply (reach_insert _ _ _ [] 28); [apply reach_empty|by apply node_ptr_even|by eexists|set_solver|exact E]. }
  by exists s, t, h.
Defined.

End RbSpec.
