(* ===== verification/Priq.v ===== *)
(** The thread priority queues of the scheduler (kernel/sched.c,
    include/zephyr/kernel/sched_priq.h): the list of Sched.v, the red/black
    tree of [CONFIG_SCHED_SCALABLE] and [CONFIG_WAITQ_SCALABLE], and the
    multiple queues of [CONFIG_SCHED_MULTIQ].

    [priq] is the interface that sched.c selects with its macros and
    [priq_laws] what it promises: to be the list.  The three instances
    discharge the laws, and the theorem about sequences of operations is
    proved against the interface. *)
From stdpp Require Import gmap.
From S2P Require Import Prelude TimeUnits Timeout Kernel Sched SchedInv RbTree RbInv RbFix RbThm RbRemove RbWalk RbSpec.

Module Priq.

(** ** The interface *)

(** [add] and [remove] have no result where the C code would leave an array or
    go through a null pointer. *)
Class priq (Q : Type) := {
  priq_add : (tid -> k_thread) -> tid -> Q -> option Q;
  priq_remove : (tid -> k_thread) -> tid -> Q -> option Q;
  priq_best : Q -> option (option tid)
}.

(** [priq_models th q l]: the queue [q] stands for the list [l].
    [priq_room n q]: there is room for [n] additions.  [add_ok t x]: the thread
    [t], with the members [x], may be added. *)
Class priq_laws (Q : Type) `{!priq Q} (add_ok : tid -> k_thread -> Prop) := {
  priq_models : (tid -> k_thread) -> Q -> list tid -> Prop;
  priq_room : nat -> Q -> Prop;
  law_add th q l t n :
    priq_models th q l -> t ∉ l -> add_ok t (th t) -> priq_room (S n) q ->
    exists q', priq_add th t q = Some q' /\ priq_models th q' (z_priq_dumb_add th t l) /\ priq_room n q';
  law_remove th q l t n :
    priq_models th q l -> t ∈ l -> priq_room n q ->
    exists q', priq_remove th t q = Some q' /\ priq_models th q' (z_priq_dumb_remove t l) /\ priq_room n q';
  law_best th q l : priq_models th q l -> priq_best q = Some (z_priq_dumb_best l);
  law_frame th q l t x : priq_models th q l -> t ∉ l -> priq_models (<[t := x]> th) q l
}.

(** ** The tree *)

(** The threads that exist, where the queue node of a thread is, and
    [CONTAINER_OF] from it. *)
Class thread_layout := {
  created : gset tid;
  qnode_rb : tid -> Z;
  CONTAINER_OF : Z -> tid;
  container_qnode t : CONTAINER_OF (qnode_rb t) = t;
  qnode_ptr t : RbInv.node_ptr (qnode_rb t)
}.

(** [struct _priq_rb], the memory of the nodes and the member [order_key] of
    the threads. *)
Record priq_rb := mk_priq_rb {
  rb : RbTree.state;
  next_order_key : Z;            (* int *)
  order_key : tid -> Z           (* uint32_t *)
}.

Section Tree.
Context `{!thread_layout}.

Definition z_priq_rb_lessthan (th : tid -> k_thread) (key : tid -> Z) (a b : Z) : bool :=
  let thread_a := CONTAINER_OF a in
  let thread_b := CONTAINER_OF b in
  let cmp := z_sched_prio_cmp (th thread_a) (th thread_b) in
  if cmp >? 0 then true
  else if cmp <? 0 then false
  else key thread_a <? key thread_b.

(** The body of the renumbering loop, on the keys and the next key. *)
Definition renumber (n : Z) (kn : (tid -> Z) * Z) : (tid -> Z) * Z :=
  let '(key, next) := kn in (<[CONTAINER_OF n := u32 next]> key, s32 (next + 1)).

Definition z_priq_rb_add (th : tid -> k_thread) (thread : tid) (pq : priq_rb) : option priq_rb :=
  let key := <[thread := u32 (next_order_key pq)]> (order_key pq) in
  let next := s32 (next_order_key pq + 1) in
  let insert kn s :=
    let '(key, next) := kn in
    match RbTree.rb_insert (z_priq_rb_lessthan th key) (qnode_rb thread) s with
    | Some (_, s) => Some (mk_priq_rb s next key)
    | None => None
    end in
  if next =? 0 then
    match RbTree.RB_FOR_EACH renumber (key, next) (rb pq) with
    | Some (kn, s) => insert kn s
    | None => None
    end
  else insert (key, next) (rb pq).

Definition z_priq_rb_remove (th : tid -> k_thread) (thread : tid) (pq : priq_rb) : option priq_rb :=
  match RbTree.rb_remove (z_priq_rb_lessthan th (order_key pq)) (qnode_rb thread) (rb pq) with
  | Some (_, s) =>
      Some (mk_priq_rb s (if RbTree.root (RbTree.tree s) =? 0 then 0 else next_order_key pq) (order_key pq))
  | None => None
  end.

Definition z_priq_rb_best (pq : priq_rb) : option (option tid) :=
  match RbTree.rb_get_min (rb pq) with
  | Some (n, _) => Some (if negb (n =? 0) then Some (CONTAINER_OF n) else None)
  | None => None
  end.

(** [init_ready_q] and [z_waitq_init]; the nodes keep what they held. *)
Definition z_waitq_init_rb (m : gmap Z RbTree.rbnode) (key : tid -> Z) : priq_rb :=
  mk_priq_rb (RbTree.mk_state (RbTree.mk_tree 0 0) m []) 0 key.

#[export] Instance priq_tree : priq priq_rb := {
  priq_add := z_priq_rb_add;
  priq_remove := z_priq_rb_remove;
  priq_best := z_priq_rb_best
}.

End Tree.

(** ** The multiple queues *)

(** [struct _priq_mq]. *)
Record priq_mq := mk_priq_mq { queues : list (list tid); bitmask : Z }.

(** [CONFIG_NUM_COOP_PRIORITIES] and [CONFIG_NUM_PREEMPT_PRIORITIES]; more than
    32 priorities do not compile. *)
Class prio_config := {
  NUM_COOP_PRIORITIES : Z;
  NUM_PREEMPT_PRIORITIES : Z;
  prio_config_ok : 0 <= NUM_COOP_PRIORITIES /\ 0 <= NUM_PREEMPT_PRIORITIES /\
    NUM_COOP_PRIORITIES + NUM_PREEMPT_PRIORITIES <= 31
}.

Section Multi.
Context `{!prio_config}.

Definition K_HIGHEST_THREAD_PRIO : Z := - NUM_COOP_PRIORITIES.
Definition K_LOWEST_THREAD_PRIO : Z := NUM_PREEMPT_PRIORITIES.

(** [pq->queues[i]] *)
Definition queue_at (i : Z) (pq : priq_mq) : option (list tid) :=
  if 0 <=? i then queues pq !! Z.to_nat i else None.

Definition z_priq_mq_add (th : tid -> k_thread) (thread : tid) (pq : priq_mq) : option priq_mq :=
  let priority_bit := prio (th thread) - K_HIGHEST_THREAD_PRIO in
  match queue_at priority_bit pq with
  | Some l => Some (mk_priq_mq (<[Z.to_nat priority_bit := l ++ [thread]]> (queues pq))
                      (Z.lor (bitmask pq) (BIT priority_bit)))
  | None => None
  end.

(** [sys_dlist_remove] takes the node out of the list that it is in. *)
Definition z_priq_mq_remove (th : tid -> k_thread) (thread : tid) (pq : priq_mq) : option priq_mq :=
  let priority_bit := prio (th thread) - K_HIGHEST_THREAD_PRIO in
  let pq := mk_priq_mq (z_priq_dumb_remove thread <$> queues pq) (bitmask pq) in
  match queue_at priority_bit pq with
  | Some l => Some (if bool_decide (l = [])
                    then mk_priq_mq (queues pq) (Z.land (bitmask pq) (Z.lnot (BIT priority_bit))) else pq)
  | None => None
  end.

(** [__builtin_ctz] on an [unsigned int]. *)
Fixpoint ctz_from (n : nat) (i x : Z) : Z :=
  match n with
  | O => i
  | S n => if Z.testbit x i then i else ctz_from n (i + 1) x
  end.
Definition ctz (x : Z) : Z := ctz_from 32 0 x.

Definition z_priq_mq_best (pq : priq_mq) : option (option tid) :=
  if bitmask pq =? 0 then Some None else
  match queue_at (ctz (bitmask pq)) pq with
  | Some l => Some (head l)
  | None => None
  end.

(** The memory of [_kernel] is cleared at start. *)
Definition init_ready_q_mq : priq_mq := mk_priq_mq (replicate 32 []) 0.

#[export] Instance priq_multi : priq priq_mq := {
  priq_add := z_priq_mq_add;
  priq_remove := z_priq_mq_remove;
  priq_best := z_priq_mq_best
}.

End Multi.

(** ** The list *)

#[export] Instance priq_dumb : priq (list tid) := {
  priq_add th t l := Some (z_priq_dumb_add th t l);
  priq_remove th t l := Some (z_priq_dumb_remove t l);
  priq_best l := Some (z_priq_dumb_best l)
}.

(** ** Sequences of operations *)

(** A thread is queued with what it has then; it keeps its priority while it
    is in the queue. *)
Inductive priq_op := Add (t : tid) (x : k_thread) | Remove (t : tid) | Best.

(** The answers to [Best]. *)
Fixpoint run {Q} `{!priq Q} (ops : list priq_op) (th : tid -> k_thread) (q : Q) : option (list (option tid)) :=
  match ops with
  | [] => Some []
  | Add t x :: ops =>
      match priq_add (<[t := x]> th) t q with
      | Some q => run ops (<[t := x]> th) q
      | None => None
      end
  | Remove t :: ops =>
      match priq_remove th t q with
      | Some q => run ops th q
      | None => None
      end
  | Best :: ops =>
      match priq_best q with
      | Some b => match run ops th q with Some r => Some (b :: r) | None => None end
      | None => None
      end
  end.

(** The callers add threads that are not queued and remove threads that are. *)
Fixpoint used_well (add_ok : tid -> k_thread -> Prop) (ops : list priq_op) (th : tid -> k_thread) (l : list tid) : Prop :=
  match ops with
  | [] => True
  | Add t x :: ops => t ∉ l /\ add_ok t x /\
      used_well add_ok ops (<[t := x]> th) (z_priq_dumb_add (<[t := x]> th) t l)
  | Remove t :: ops => t ∈ l /\ used_well add_ok ops th (z_priq_dumb_remove t l)
  | Best :: ops => used_well add_ok ops th l
  end.

Fixpoint additions (ops : list priq_op) : nat :=
  match ops with
  | [] => O
  | Add _ _ :: ops => S (additions ops)
  | _ :: ops => additions ops
  end.

Lemma run_laws {Q} `{!priq Q} add_ok `{!priq_laws Q add_ok} ops th q l :
  priq_models th q l -> used_well add_ok ops th l -> priq_room (additions ops) q ->
  run ops th q = run ops th l.
Proof.
  revert th q l. induction ops as [|[t x|t|] ops IH]; intros th q l Hm Hu Hr; [done|..].
  - destruct Hu as (Ht & Hp & Hu). simpl.
    destruct (law_add (<[t := x]> th) q l t (additions ops)) as (q' & -> & Hm' & Hr'); [by apply law_frame|done| |done|].
    { by rewrite fn_lookup_insert. }
    by apply IH.
  - destruct Hu as (Ht & Hu). simpl.
    destruct (law_remove th q l t (additions ops)) as (q' & -> & Hm' & Hr'); [done..|]. by apply IH.
  - simpl. rewrite (law_best th q l) by done. simpl. by rewrite (IH th q l).
Qed.

(** ** The tree is the list *)

Section TreeLaws.
Context `{!thread_layout}.

(** Queue order, with the keys in the order of arrival. *)
Definition before (th : tid -> k_thread) (key : tid -> Z) (a b : tid) : Prop :=
  prio (th a) < prio (th b) \/ prio (th a) = prio (th b) /\ key a < key b.

Lemma lessthan_spec th key a b :
  z_priq_rb_lessthan th key a b = true <-> before th key (CONTAINER_OF a) (CONTAINER_OF b).
Proof.
  unfold z_priq_rb_lessthan, before, z_sched_prio_cmp.
  destruct (Z.eqb_spec (prio (th (CONTAINER_OF a))) (prio (th (CONTAINER_OF b)))); simpl; [rewrite Z.ltb_lt; lia|].
  destruct (Z.gtb_spec (prio (th (CONTAINER_OF b)) - prio (th (CONTAINER_OF a))) 0); [lia|].
  rewrite (proj2 (Z.ltb_lt _ 0)) by lia. split; [done|lia].
Qed.

#[export] Instance lessthan_weak_order th key : RbThm.weak_order (z_priq_rb_lessthan th key).
Proof.
  split.
  - intros x y E%lessthan_spec. apply not_true_iff_false. rewrite lessthan_spec. unfold before in *. lia.
  - intros x y z. rewrite !lessthan_spec. unfold before. lia.
Qed.

Lemma lessthan_qnode th key a b :
  z_priq_rb_lessthan th key (qnode_rb a) (qnode_rb b) = true <-> before th key a b.
Proof. by rewrite lessthan_spec, !container_qnode. Qed.

#[export] Instance qnode_inj : Inj (=) (=) qnode_rb.
Proof. intros a b E. by rewrite <- (container_qnode a), E, container_qnode. Qed.

Record models (th : tid -> k_thread) (pq : priq_rb) (l : list tid) : Prop := {
  m_tree : exists t h, RbThm.rb_tree (rb pq) t h /\ RbInv.flatten t = qnode_rb <$> l;
  m_sorted : StronglySorted (before th (order_key pq)) l;
  m_keys : forall t, t ∈ l -> order_key pq t < u32 (next_order_key pq);
  m_nodes : forall t, t ∈ created -> is_Some (RbTree.nodes (rb pq) !! qnode_rb t);
  m_next : -2147483648 <= next_order_key pq < 2147483648
}.

Definition room (n : nat) (pq : priq_rb) : Prop := Z.of_nat n + u32 (next_order_key pq) < 4294967296.

Lemma sorted_in_order th key l :
  StronglySorted (before th key) l -> RbThm.in_order (z_priq_rb_lessthan th key) (qnode_rb <$> l).
Proof.
  induction 1 as [|a l Hl IH Ha]; simpl; constructor; [done|]. apply Forall_fmap.
  eapply Forall_impl; [exact Ha|]. intros b Hb. simpl. apply not_true_iff_false. rewrite lessthan_qnode.
  unfold before in *. lia.
Qed.

Lemma models_inv th pq l : models th pq l ->
  RbThm.rb_inv (z_priq_rb_lessthan th (order_key pq)) (rb pq) (qnode_rb <$> l).
Proof. intros [(t & h & Ht & Hf) Hs _ _ _]. exists t, h. split_and!; try done. by apply sorted_in_order. Qed.

(** A thread that is not in the queue does not matter for the order. *)
Lemma sorted_other th th' key key' l :
  (forall t, t ∈ l -> prio (th' t) = prio (th t) /\ key' t = key t) ->
  StronglySorted (before th key) l -> StronglySorted (before th' key') l.
Proof.
  intros He. induction 1 as [|a l Hl IH Ha]; constructor; [apply IH; set_solver|].
  rewrite Forall_forall in Ha |- *. intros b Hb. specialize (Ha b Hb). unfold before in *.
  destruct (He a) as [-> ->]; [left|]. destruct (He b) as [-> ->]; [by right|]. done.
Qed.

(** With a key above all others the tree inserts where the list does. *)
Lemma insort_dumb th key t l :
  (forall x, x ∈ l -> key x < key t) ->
  RbThm.insort (z_priq_rb_lessthan th key) (qnode_rb t) (qnode_rb <$> l) = qnode_rb <$> z_priq_dumb_add th t l.
Proof.
  induction l as [|a l IH]; intros Hk; simpl; [done|]. rewrite prio_cmp_pos.
  destruct (z_priq_rb_lessthan th key (qnode_rb t) (qnode_rb a)) eqn:E.
  - apply lessthan_qnode in E. specialize (Hk a). rewrite (proj2 (Z.ltb_lt _ _)); [done|].
    destruct E as [?|[_ ?]]; [done|]. assert (key a < key t) by (apply Hk; left). lia.
  - apply not_true_iff_false in E. rewrite lessthan_qnode in E.
    rewrite (proj2 (Z.ltb_ge _ _)) by (unfold before in E; lia). simpl. f_equal. apply IH. set_solver.
Qed.

Lemma dumb_add_before th key t l :
  t ∉ l -> (forall x, x ∈ l -> key x < key t) -> StronglySorted (before th key) l ->
  StronglySorted (before th key) (z_priq_dumb_add th t l).
Proof.
  intros Ht Hk. induction 1 as [|a l Hl IH Ha]; simpl; [by repeat constructor|]. rewrite prio_cmp_pos.
  assert (key a < key t) as Hka by (apply Hk; left).
  destruct (prio (th t) <? prio (th a)) eqn:E.
  - constructor; [by constructor|]. constructor; [unfold before; lia|].
    eapply Forall_impl; [exact Ha|]. intros b. simpl. unfold before. lia.
  - constructor; [apply IH; set_solver|]. apply Forall_forall. intros x Hx.
    apply priq_add_elem in Hx as [->|Hx]; [unfold before; lia|]. rewrite Forall_forall in Ha. by apply Ha.
Qed.

Lemma tree_add th pq l t n :
  models th pq l -> t ∉ l -> t ∈ created -> room (S n) pq ->
  exists pq', z_priq_rb_add th t pq = Some pq' /\ models th pq' (z_priq_dumb_add th t l) /\ room n pq'.
Proof.
  intros [(t0 & h & Ht & Hf) Hs Hk Hn Hx] Hnew Hcr Hroom. unfold z_priq_rb_add, room in *.
  set (key := <[t := u32 (next_order_key pq)]> (order_key pq)).
  assert (u32 (s32 (next_order_key pq + 1)) = u32 (next_order_key pq) + 1 /\
          -2147483648 <= s32 (next_order_key pq + 1) < 2147483648) as [Enext Hx'].
  { clear -Hroom Hx. unfold uwrap, swrap in *. change (2 ^ 32) with 4294967296 in *. change (2 ^ (32 - 1)) with 2147483648 in *.
    Z.to_euclidean_division_equations. lia. }
  assert (s32 (next_order_key pq + 1) =? 0 = false) as ->.
  { apply Z.eqb_neq. intros E. rewrite E in Enext. change (u32 0) with 0 in Enext.
    pose proof (uwrap_range 32 (next_order_key pq) ltac:(lia)). lia. }
  assert (forall x, x ∈ l -> key x < key t) as Hkey.
  { intros x Hxl. unfold key. rewrite fn_lookup_insert, fn_lookup_insert_ne by set_solver. by apply Hk. }
  assert (StronglySorted (before th key) l) as Hsk.
  { eapply sorted_other; [|exact Hs]. intros x Hxl. split; [done|]. unfold key. by rewrite fn_lookup_insert_ne by set_solver. }
  destruct (RbSpec.insert_ok (z_priq_rb_lessthan th key) (rb pq) (qnode_rb <$> l) (qnode_rb t)) as (s' & E & Hinv & Ho).
  { exists t0, h. split_and!; [done|done|by apply sorted_in_order]. }
  { apply qnode_ptr. }
  { by apply Hn. }
  { by rewrite (list_elem_of_fmap_inj qnode_rb). }
  rewrite E. eexists. split; [done|]. rewrite insort_dumb in Hinv by done. destruct Hinv as (t' & h' & Ht' & Hf' & _).
  split; [|simpl; lia]. split; simpl; try done.
  - by exists t', h'.
  - by apply dumb_add_before.
  - intros x. rewrite Enext, priq_add_elem. intros [->|Hxl].
    + unfold key. rewrite fn_lookup_insert. lia.
    + unfold key. rewrite fn_lookup_insert_ne by set_solver. specialize (Hk x Hxl). lia.
  - intros x Hxc. destruct Ho as [_ Ho]. by apply Ho, Hn.
Qed.

Lemma dumb_remove_filter t l : NoDup l -> z_priq_dumb_remove t l = filter (fun x => x <> t) l.
Proof.
  induction 1 as [|a l Ha Hl IH]; simpl; [done|]. rewrite filter_cons. destruct (decide (a = t)) as [->|Hat].
  - rewrite decide_False by auto. symmetry. apply filter_all. apply Forall_forall. congruence.
  - rewrite decide_True by done. by rewrite IH.
Qed.

Lemma without_fmap t l : RbThm.without (qnode_rb t) (qnode_rb <$> l) = qnode_rb <$> filter (fun x => x <> t) l.
Proof.
  unfold RbThm.without. induction l as [|a l IH]; [done|]. rewrite fmap_cons, !filter_cons, IH.
  destruct (decide (a = t)) as [->|Hat]; [by rewrite !decide_False by auto|].
  rewrite !decide_True; [done|done|]. by intros ?%(inj qnode_rb).
Qed.

Lemma sorted_filter th key (P : tid -> Prop) `{forall x, Decision (P x)} l :
  StronglySorted (before th key) l -> StronglySorted (before th key) (filter P l).
Proof.
  induction 1 as [|a l Hl IH Ha]; simpl; [constructor|]. rewrite filter_cons. case_decide; [|done].
  constructor; [done|]. rewrite Forall_forall in Ha |- *. intros y [_ Hy]%list_elem_of_filter. auto.
Qed.

Lemma sorted_nodup th key l : StronglySorted (before th key) l -> NoDup l.
Proof.
  induction 1 as [|a l Hl IH Ha]; constructor; [|done]. intros Hin. rewrite Forall_forall in Ha.
  specialize (Ha a Hin). unfold before in Ha. lia.
Qed.

Lemma sorted_total th key l a b :
  StronglySorted (before th key) l -> a ∈ l -> b ∈ l -> a <> b -> before th key a b \/ before th key b a.
Proof.
  induction 1 as [|c l Hl IH Hc]; [set_solver|]. rewrite Forall_forall in Hc.
  rewrite !elem_of_cons. intros [->|?] [->|?]; naive_solver.
Qed.

Lemma tree_remove th pq l t n :
  models th pq l -> t ∈ l -> room n pq ->
  exists pq', z_priq_rb_remove th t pq = Some pq' /\ models th pq' (z_priq_dumb_remove t l) /\ room n pq'.
Proof.
  intros Hm Hin Hroom. pose proof (models_inv _ _ _ Hm) as Hinv. destruct Hm as [_ Hs Hk Hn Hx].
  destruct (RbSpec.remove_ok _ _ _ (qnode_rb t) Hinv) as (s' & E & (t' & h' & Ht' & Hf' & _) & Ho).
  { destruct l; [set_solver|done]. }
  { intros x (y & -> & Hy)%list_elem_of_fmap Hne. rewrite !lessthan_qnode.
    eapply sorted_total; [done..|]. congruence. }
  unfold z_priq_rb_remove. rewrite E. eexists. split; [done|].
  rewrite without_fmap in Hf'. rewrite dumb_remove_filter by (by eapply sorted_nodup).
  assert (RbTree.root (RbTree.tree s') =? 0 = true -> filter (fun x => x <> t) l = []) as Er.
  { rewrite (RbThm.r_root _ _ _ Ht'). pose proof (RbInv.ptr_null t' (RbThm.r_ptrs _ _ _ Ht')) as Hp.
    unfold RbTree.NULL in Hp. rewrite Hp. intros ->%bool_decide_eq_true. simpl in Hf'. by destruct (filter _ l). }
  split; [split; simpl; try done|].
  - by exists t', h'.
  - by apply sorted_filter.
  - intros x Hxl. destruct (_ =? _); [rewrite Er in Hxl by done; set_solver|].
    apply list_elem_of_filter in Hxl as [_ Hxl]. by apply Hk.
  - intros x Hxc. destruct Ho as [_ Ho]. by apply Ho, Hn.
  - destruct (_ =? _); [lia|done].
  - unfold room in *. simpl. destruct (_ =? _); [|done]. change (u32 0) with 0.
    pose proof (uwrap_range 32 (next_order_key pq) ltac:(lia)). lia.
Qed.

Lemma tree_best th pq l : models th pq l -> z_priq_rb_best pq = Some (z_priq_dumb_best l).
Proof.
  intros Hm%models_inv. unfold z_priq_rb_best, RbTree.rb_get_min. rewrite (RbSpec.minmax_ok _ _ _ false Hm).
  unfold RbWalk.extreme, z_priq_dumb_best. destruct l as [|a l]; simpl; [done|].
  rewrite (proj2 (Z.eqb_neq _ _)) by apply (qnode_ptr a). simpl. by rewrite container_qnode.
Qed.

Lemma tree_frame th pq l t x : models th pq l -> t ∉ l -> models (<[t := x]> th) pq l.
Proof.
  intros [Ht Hs Hk Hn Hx] Hnot. split; try done. eapply sorted_other; [|exact Hs].
  intros y Hy. by rewrite fn_lookup_insert_ne by set_solver.
Qed.

#[export] Instance tree_laws : priq_laws priq_rb (fun t _ => t ∈ created) := {
  priq_models := models;
  priq_room := room;
  law_add := tree_add;
  law_remove := tree_remove;
  law_best := tree_best;
  law_frame := tree_frame
}.

End TreeLaws.

(** ** The multiple queues are the list *)

Section MultiLaws.
Context `{!prio_config}.

Definition prio_valid (p : Z) : Prop := K_HIGHEST_THREAD_PRIO <= p <= K_LOWEST_THREAD_PRIO.

Record mmodels (th : tid -> k_thread) (pq : priq_mq) (l : list tid) : Prop := {
  mm_length : length (queues pq) = 32%nat;
  mm_concat : concat (queues pq) = l;
  mm_nodup : NoDup l;
  mm_bits : forall i q, queues pq !! i = Some q -> Z.testbit (bitmask pq) (Z.of_nat i) = bool_decide (q <> []);
  mm_prio : forall i q t, queues pq !! i = Some q -> t ∈ q -> prio (th t) = Z.of_nat i + K_HIGHEST_THREAD_PRIO;
  mm_range : 0 <= bitmask pq < 2 ^ 32
}.

Lemma dumb_add_app th t a b :
  (forall x, x ∈ a -> prio (th x) <= prio (th t)) -> (forall x, x ∈ b -> prio (th t) < prio (th x)) ->
  z_priq_dumb_add th t (a ++ b) = a ++ t :: b.
Proof.
  intros Ha Hb. induction a as [|x a IH]; simpl.
  - destruct b as [|y b]; simpl; [done|]. rewrite prio_cmp_pos, (proj2 (Z.ltb_lt _ _)); [done|]. apply Hb. left.
  - rewrite prio_cmp_pos, (proj2 (Z.ltb_ge _ _)) by (apply Ha; left). rewrite IH; [done|]. intros. apply Ha. by right.
Qed.

(** The queue of a priority. *)
Lemma queue_of th pq l t :
  mmodels th pq l -> prio_valid (prio (th t)) ->
  exists i q, prio (th t) - K_HIGHEST_THREAD_PRIO = Z.of_nat i /\ queues pq !! i = Some q /\
    queue_at (Z.of_nat i) pq = Some q.
Proof.
  intros Hm [Hl Hh]. pose proof prio_config_ok as (? & ? & ?). unfold K_HIGHEST_THREAD_PRIO, K_LOWEST_THREAD_PRIO in *.
  exists (Z.to_nat (prio (th t) - - NUM_COOP_PRIORITIES)).
  destruct (lookup_lt_is_Some_2 (queues pq) (Z.to_nat (prio (th t) - - NUM_COOP_PRIORITIES))) as [q Hq].
  { rewrite (mm_length _ _ _ Hm). lia. }
  exists q. split_and!; [lia|done|]. unfold queue_at. rewrite (proj2 (Z.leb_le _ _)) by lia. by rewrite Nat2Z.id.
Qed.

Lemma lookup_concat (qs : list (list tid)) x : x ∈ concat qs -> exists i q, qs !! i = Some q /\ x ∈ q.
Proof.
  induction qs as [|q qs IH]; simpl; [set_solver|]. intros [Hx|Hx]%elem_of_app; [by exists 0%nat, q|].
  destruct (IH Hx) as (i & q' & Hi & Hx'). by exists (S i), q'.
Qed.

Lemma multi_add th pq l t :
  mmodels th pq l -> t ∉ l -> prio_valid (prio (th t)) ->
  exists pq', z_priq_mq_add th t pq = Some pq' /\ mmodels th pq' (z_priq_dumb_add th t l).
Proof.
  intros Hm Hnew Hp. destruct (queue_of _ _ _ _ Hm Hp) as (i & q & Ei & Hq & Hqa). destruct Hm as [Hlen Hc Hnd Hb Hpr Hr].
  assert (i < 32)%nat as Hi by (apply lookup_lt_Some in Hq; lia).
  unfold z_priq_mq_add. rewrite Ei, Hqa, Nat2Z.id. eexists. split; [done|].
  assert (concat (<[i := q ++ [t]]> (queues pq)) = z_priq_dumb_add th t l) as Hadd.
  { rewrite insert_take_drop by lia. rewrite concat_app. simpl. rewrite <- app_assoc.
    rewrite <- Hc. rewrite <- (take_drop_middle (queues pq) i q) at 3 by done. rewrite concat_app. simpl.
    rewrite !app_assoc. rewrite dumb_add_app; [by rewrite <- !app_assoc|..].
    - intros x [Hx|Hx]%elem_of_app.
      + apply lookup_concat in Hx as (j & q' & Hj & Hx). rewrite lookup_take_Some in Hj. destruct Hj as [Hj ?].
        rewrite (Hpr j q' x Hj Hx). lia.
      + rewrite (Hpr i q x Hq Hx). lia.
    - intros x (j & q' & Hj & Hx)%lookup_concat. rewrite lookup_drop in Hj. rewrite (Hpr _ q' x Hj Hx). lia. }
  assert (BIT (Z.of_nat i) = 2 ^ Z.of_nat i) as HB by (apply BIT_pow; lia).
  split; simpl.
  - by rewrite length_insert.
  - done.
  - by apply priq_add_nodup.
  - intros j q' Hj. rewrite Z.lor_spec, BIT_testbit by lia.
    destruct (decide (i = j)) as [->|Hij].
    + rewrite list_lookup_insert_eq in Hj by lia. injection Hj as <-.
      rewrite !bool_decide_eq_true_2; [apply orb_true_r|by destruct q|done].
    + rewrite list_lookup_insert_ne in Hj by done. rewrite (bool_decide_eq_false_2 (Z.of_nat j = _)) by lia.
      rewrite orb_false_r. by apply Hb.
  - intros j q' x Hj Hx. destruct (decide (i = j)) as [->|Hij].
    + rewrite list_lookup_insert_eq in Hj by lia. injection Hj as <-.
      apply elem_of_app in Hx as [Hx|Hx]; [by apply (Hpr j q)|]. apply list_elem_of_singleton in Hx as ->. lia.
    + rewrite list_lookup_insert_ne in Hj by done. by eapply Hpr.
  - apply bits_below; [lia|apply Z.lor_nonneg; lia|]. intros j Hj. rewrite Z.lor_spec, BIT_testbit by lia.
    rewrite (bits_above 32) by done. simpl. apply bool_decide_eq_false_2. lia.
Qed.

Lemma concat_remove t (qs : list (list tid)) :
  NoDup (concat qs) -> concat (z_priq_dumb_remove t <$> qs) = z_priq_dumb_remove t (concat qs).
Proof.
  intros Hnd. rewrite (dumb_remove_filter t (concat qs)) by done.
  induction qs as [|q qs IH]; [done|]. simpl in *. apply NoDup_app in Hnd as (Hq & _ & Hqs).
  by rewrite filter_app, <- IH, dumb_remove_filter.
Qed.

Lemma multi_remove th pq l t :
  mmodels th pq l -> t ∈ l ->
  exists pq', z_priq_mq_remove th t pq = Some pq' /\ mmodels th pq' (z_priq_dumb_remove t l).
Proof.
  intros Hm Hin. assert (exists i q, queues pq !! i = Some q /\ t ∈ q) as (i & q & Hq & Hint).
  { apply lookup_concat. by rewrite (mm_concat _ _ _ Hm). }
  destruct Hm as [Hlen Hc Hnd Hb Hpr Hr]. pose proof (Hpr _ _ _ Hq Hint) as Ep.
  assert (i < 32)%nat as Hi by (apply lookup_lt_Some in Hq; lia).
  unfold z_priq_mq_remove. replace (prio (th t) - K_HIGHEST_THREAD_PRIO) with (Z.of_nat i) by lia.
  assert (queue_at (Z.of_nat i) (mk_priq_mq (z_priq_dumb_remove t <$> queues pq) (bitmask pq)) =
          Some (z_priq_dumb_remove t q)) as ->.
  { unfold queue_at. rewrite (proj2 (Z.leb_le _ _)) by lia. rewrite Nat2Z.id. simpl. by rewrite list_lookup_fmap, Hq. }
  assert (forall j q', queues pq !! j = Some q' -> NoDup q') as Hndq.
  { intros j q' Hj. rewrite <- Hc, <- (take_drop_middle (queues pq) j q') in Hnd by done.
    rewrite concat_app in Hnd. simpl in Hnd. apply NoDup_app in Hnd as (_ & _ & Hnd). by apply NoDup_app in Hnd as (? & _). }
  assert (forall j q', queues pq !! j = Some q' -> t ∈ q' -> j = i) as Huniq.
  { intros j q' Hj Hx. pose proof (Hpr _ _ _ Hj Hx). lia. }
  assert (forall j q', (z_priq_dumb_remove t <$> queues pq) !! j = Some q' ->
    exists q0, queues pq !! j = Some q0 /\ q' = filter (fun x => x <> t) q0) as Hlook.
  { intros j q' Hj. rewrite list_lookup_fmap in Hj. destruct (queues pq !! j) as [q0|] eqn:E0; [|done].
    injection Hj as <-. exists q0. split; [done|]. apply dumb_remove_filter. by eapply Hndq. }
  rewrite dumb_remove_filter by (by eapply Hndq). eexists. split; [done|].
  set (bm := if bool_decide (filter (fun x => x <> t) q = [])
             then Z.land (bitmask pq) (Z.lnot (BIT (Z.of_nat i))) else bitmask pq).
  assert (forall j, 0 <= j -> Z.testbit bm j =
    Z.testbit (bitmask pq) j && negb (bool_decide (filter (fun x => x <> t) q = []) && bool_decide (j = Z.of_nat i))) as Hbm.
  { intros j Hj. unfold bm. case_bool_decide; simpl; [|by rewrite andb_true_r].
    rewrite Z.land_spec, Z.lnot_spec, BIT_testbit by lia. done. }
  assert (mmodels th (mk_priq_mq (z_priq_dumb_remove t <$> queues pq) bm) (z_priq_dumb_remove t l)) as Hm';
    [|unfold bm in Hm'; by case_bool_decide].
  split; simpl.
  - by rewrite length_fmap.
  - rewrite concat_remove by (by rewrite Hc). by rewrite Hc.
  - rewrite dumb_remove_filter by done. by apply NoDup_filter.
  - intros j q' (q0 & Hj & ->)%Hlook. rewrite Hbm, (Hb j q0 Hj) by lia.
    destruct (decide (j = i)) as [->|Hji].
    + rewrite Hq in Hj. injection Hj as <-. rewrite (bool_decide_eq_true_2 (Z.of_nat i = _)) by done.
      rewrite andb_true_r, <- bool_decide_not. rewrite (bool_decide_eq_true_2 (q <> [])) by (by destruct q; [set_solver|]).
      done.
    + rewrite (bool_decide_eq_false_2 (Z.of_nat j = _)) by lia. rewrite andb_false_r. simpl. rewrite andb_true_r.
      rewrite filter_all; [done|]. apply Forall_forall. intros x Hx ->. apply Hji. by eapply Huniq.
  - intros j q' x (q0 & Hj & ->)%Hlook [_ Hx]%list_elem_of_filter. by eapply Hpr.
  - apply bits_below; [lia| |].
    + unfold bm. case_bool_decide; [apply Z.land_nonneg; lia|lia].
    + intros j Hj. by rewrite Hbm, (bits_above 32) by lia.
Qed.

Lemma ctz_from_spec n i x j :
  i <= j < i + Z.of_nat n -> Z.testbit x j = true ->
  let r := ctz_from n i x in i <= r < i + Z.of_nat n /\ Z.testbit x r = true /\
    forall k, i <= k < r -> Z.testbit x k = false.
Proof.
  revert i. induction n as [|n IH]; intros i Hj Hx; [lia|]. simpl. destruct (Z.testbit x i) eqn:E.
  - split_and!; [lia|lia|done|lia].
  - assert (i <> j) by congruence. destruct (IH (i + 1)) as (Hr & Ht & Hk); [lia|done|].
    cbv zeta in *. split_and!; [lia|lia|done|]. intros k Hk'. destruct (decide (k = i)) as [->|]; [done|]. apply Hk. lia.
Qed.

Lemma multi_best th pq l : mmodels th pq l -> z_priq_mq_best pq = Some (z_priq_dumb_best l).
Proof.
  intros [Hlen Hc Hnd Hb Hpr Hr]. unfold z_priq_mq_best, z_priq_dumb_best.
  destruct (Z.eqb_spec (bitmask pq) 0) as [E|E].
  - destruct l as [|x l]; [done|]. destruct (lookup_concat (queues pq) x) as (i & q & Hq & Hx); [rewrite Hc; left|].
    specialize (Hb _ _ Hq). rewrite E, Z.bits_0, bool_decide_eq_true_2 in Hb; [done|]. by destruct q; [set_solver|].
  - assert (exists j, 0 <= j < 32 /\ Z.testbit (bitmask pq) j = true) as (j & Hj & Hjb).
    { exists (Z.log2 (bitmask pq)). split; [|apply Z.bit_log2; lia].
      split; [apply Z.log2_nonneg|]. apply Z.log2_lt_pow2; lia. }
    destruct (ctz_from_spec 32 0 (bitmask pq) j) as (Hr1 & Hrb & Hrk); [lia|done|]. fold (ctz (bitmask pq)) in *.
    set (r := Z.to_nat (ctz (bitmask pq))). assert (ctz (bitmask pq) = Z.of_nat r) as Er by lia.
    destruct (lookup_lt_is_Some_2 (queues pq) r) as [q Hq]; [lia|].
    unfold queue_at. rewrite Er, (proj2 (Z.leb_le _ _)), Nat2Z.id, Hq by lia. f_equal.
    assert (concat (take r (queues pq)) = []) as Hempty.
    { destruct (concat (take r (queues pq))) as [|x c] eqn:Ec; [done|].
      destruct (lookup_concat (take r (queues pq)) x) as (i & q' & Hi & Hx); [rewrite Ec; left|].
      apply lookup_take_Some in Hi as [Hi Hlt]. specialize (Hb _ _ Hi). rewrite Hrk in Hb by lia.
      symmetry in Hb. apply bool_decide_eq_false in Hb. destruct q'; [set_solver|]. by destruct Hb. }
    rewrite <- Hc, <- (take_drop_middle (queues pq) r q), concat_app, Hempty by done. simpl.
    specialize (Hb _ _ Hq). rewrite <- Er, Hrb in Hb. symmetry in Hb. apply bool_decide_eq_true in Hb. by destruct q.
Qed.

Lemma multi_frame th pq l t x : mmodels th pq l -> t ∉ l -> mmodels (<[t := x]> th) pq l.
Proof.
  intros [Hlen Hc Hnd Hb Hpr Hr] Hnot. split; try done. intros i q y Hq Hy.
  rewrite fn_lookup_insert_ne; [by eapply Hpr|]. intros ->. apply Hnot. rewrite <- Hc.
  rewrite <- (take_drop_middle (queues pq) i q) by done. rewrite concat_app. simpl. set_solver.
Qed.

Lemma multi_law_add th pq l t (n : nat) :
  mmodels th pq l -> t ∉ l -> prio_valid (prio (th t)) -> True ->
  exists pq', priq_add th t pq = Some pq' /\ mmodels th pq' (z_priq_dumb_add th t l) /\ True.
Proof. intros Hm Ht Hp _. destruct (multi_add th pq l t Hm Ht Hp) as (q' & ? & ?). eauto. Qed.

Lemma multi_law_remove th pq l t (n : nat) :
  mmodels th pq l -> t ∈ l -> True ->
  exists pq', priq_remove th t pq = Some pq' /\ mmodels th pq' (z_priq_dumb_remove t l) /\ True.
Proof. intros Hm Ht _. destruct (multi_remove th pq l t Hm Ht) as (q' & ? & ?). eauto. Qed.

#[export] Instance multi_laws : priq_laws priq_mq (fun _ x => prio_valid (prio x)) := {
  priq_models := mmodels;
  priq_room _ _ := True;
  law_add := multi_law_add;
  law_remove := multi_law_remove;
  law_best := multi_best;
  law_frame := multi_frame
}.

End MultiLaws.

(** ** The theorems *)

Lemma used_well_weaken (ok ok' : tid -> k_thread -> Prop) ops th l :
  (forall t x, ok t x -> ok' t x) -> used_well ok ops th l -> used_well ok' ops th l.
Proof.
  intros Hok. revert th l. induction ops as [|[t x|t|] ops IH]; intros th l; simpl; naive_solver.
Qed.

Lemma run_dumb ops th (l : list tid) : exists r, run ops th l = Some r.
Proof.
  revert th l. induction ops as [|[t x|t|] ops IH]; intros th l; simpl; [by eexists|apply IH|apply IH|].
  destruct (IH th l) as [r ->]. by eexists.
Qed.

Lemma rb_empty `{!thread_layout} m th key :
  (forall t, t ∈ created -> is_Some (m !! qnode_rb t)) -> models th (z_waitq_init_rb m key) [].
Proof.
  intros Hm. split; simpl; try done; [|constructor|set_solver].
  exists RbInv.Leaf, O. split; [|done]. split; simpl; try done; [constructor|]. split; simpl; (done || lia).
Qed.

Lemma mq_empty `{!prio_config} th : mmodels th init_ready_q_mq [].
Proof.
  split; simpl; try done; [constructor|..].
  - intros i q Hq. apply (lookup_replicate_1 32) in Hq as [-> _]. by rewrite Z.bits_0.
  - intros i q t Hq Ht. apply (lookup_replicate_1 32) in Hq as [-> _]. set_solver.
Qed.

(** C9: The three implementations of the scheduler's priority queue are
    interchangeable.  For every sequence of operations that adds threads that
    are not queued, with a valid priority, and removes queued ones, the
    red/black tree, the multiple queues and the sorted list all have a result
    and give the same answers, as long as fewer than [2 ^ 32] additions are
    made. *)
Theorem priq_backends_agree `{!thread_layout} `{!prio_config} (m : gmap Z RbTree.rbnode) (key : tid -> Z)
    (th : tid -> k_thread) (ops : list priq_op) :
  (forall t, t ∈ created -> is_Some (m !! qnode_rb t)) ->
  used_well (fun t x => t ∈ created /\ prio_valid (prio x)) ops th [] ->
  Z.of_nat (additions ops) < 2 ^ 32 ->
  exists answers,
    run ops th ([] : list tid) = Some answers /\
    run ops th (z_waitq_init_rb m key) = Some answers /\
    run ops th init_ready_q_mq = Some answers.
Proof.
  intros Hm Hu Hn. destruct (run_dumb ops th []) as [r Hr]. exists r. split; [done|]. rewrite <- Hr. split.
  - apply (run_laws (fun t _ => t ∈ created)); [by apply rb_empty| |].
    + eapply used_well_weaken; [|exact Hu]. by intros t x [? ?].
    + unfold priq_room, tree_laws, room. simpl. change (u32 0) with 0. lia.
  - apply (run_laws (fun _ x => prio_valid (prio x))); [apply mq_empty| |done].
    eapply used_well_weaken; [|exact Hu]. by intros t x [? ?].
Qed.

Lemma demo_container t : Z.to_pos (2 * Zpos t / 2) = t.
Proof. rewrite Z.mul_comm, Z.div_mul by lia. apply Pos2Z.id. Qed.

Lemma demo_qnode t : RbInv.node_ptr (2 * Zpos t).
Proof. split; [done|]. by exists (Zpos t). Qed.

Lemma demo_prios_ok : 0 <= 16 /\ 0 <= 15 /\ 16 + 15 <= 31.
Proof. lia. Qed.

(** Queue nodes at even addresses, for three threads, and 32 priorities. *)
#[export] Instance demo_layout : thread_layout := {
  created := {[1; 2; 3]}%positive;
  qnode_rb t := 2 * Zpos t;
  CONTAINER_OF a := Z.to_pos (a / 2);
  container_qnode := demo_container;
  qnode_ptr := demo_qnode
}.

#[export] Instance demo_prios : prio_config := {
  NUM_COOP_PRIORITIES := 16;
  NUM_PREEMPT_PRIORITIES := 15;
  prio_config_ok := demo_prios_ok
}.

Definition demo_nodes : gmap Z RbTree.rbnode :=
  <[2 := RbTree.mk_node 0 0]> (<[4 := RbTree.mk_node 0 0]> (<[6 := RbTree.mk_node 0 0]> ∅)).

(** A thread with a priority. *)
Definition with_prio (p : Z) : k_thread := mk_thread p 0 0 0 None 0 0 9 0 0 None false.

Definition demo_ops : list priq_op :=
  [Add 1%positive (with_prio 5); Add 2%positive (with_prio 3); Add 3%positive (with_prio 5); Best;
   Remove 2%positive; Best; Remove 1%positive; Best].

Lemma priq_backends_agree_witness :
  exists answers,
    run demo_ops (fun _ => with_prio 0) ([] : list tid) = Some answers /\
    run demo_ops (fun _ => with_prio 0) (z_waitq_init_rb demo_nodes (fun _ => 0)) = Some answers /\
    run demo_ops (fun _ => with_prio 0) init_ready_q_mq = Some answers.
Proof.
  apply (priq_backends_agree demo_nodes (fun _ => 0) (fun _ => with_prio 0) demo_ops).
  - intros t Ht. unfold created, demo_layout in Ht. rewrite !elem_of_union, !elem_of_singleton in Ht.
    destruct Ht as [[->| ->]| ->]; by eexists.
  - assert (forall p, -16 <= p <= 15 -> prio_valid p) as Hp by (intros p ?; done).
    assert (1%positive ∈ created /\ 2%positive ∈ created /\ 3%positive ∈ created) as (? & ? & ?) by (simpl; set_solver).
    simpl. split_and!; try done; try (apply Hp; lia); set_solver.
  - done.
Defined.

(** A queue in which thread 1 waits and [2 ^ 32 - 1] keys have been given out. *)
Definition demo_wrap : priq_rb :=
  mk_priq_rb (RbTree.mk_state (RbTree.mk_tree 2 1) (<[2 := RbTree.mk_node 1 0]> demo_nodes) []) (-1) (fun _ => 0).

(** At the wrap-around of the keys [z_priq_rb_add] numbers the threads in
    the tree anew, but the thread that it adds keeps the largest key.  A thread
    of the same priority that is added later goes before it, against the order
    of arrival that the list keeps. *)
Theorem z_priq_rb_add_wrap_order :
  models (fun _ => with_prio 0) demo_wrap [1%positive] /\
  let ops := [Add 2%positive (with_prio 0); Add 3%positive (with_prio 0); Remove 1%positive; Best] in
  run ops (fun _ => with_prio 0) demo_wrap = Some [Some 3%positive] /\
  run ops (fun _ => with_prio 0) [1%positive] = Some [Some 2%positive].
Proof.
  split; [|by vm_compute]. split; simpl; try done.
  - exists (RbInv.Node RbTree.BLACK RbInv.Leaf 2 RbInv.Leaf), 1%nat. split; [|done]. split; simpl; try done.
    + apply NoDup_singleton.
    + constructor; [|done]. apply (demo_qnode 1).
  - repeat constructor.
  - intros t Ht. rewrite !elem_of_union, !elem_of_singleton in Ht. destruct Ht as [[->| ->]| ->]; by eexists.
Qed.

End Priq.
